(* ===== verification/_CoqProject ===== *)
-Q . S2P
Prelude.v
Queues.v
ThrLock.v
ThrLockQueues.v
ThrLockSafety.v
ThrLockSteps.v
ThrLockFrame.v
ThrLockTheorems.v
ThrLockMulti.v
ThrLockMultiProofs.v
RBTree.v
TreeOps.v
TreeProofs.v
TreeScan.v
DynArray.v
Hash.v
HashChains.v
HashSteps.v
HashSplit.v
HashMerge.v
HashTheorems.v
Base64.v
MyBit.v
Bitmap.v
BitmapProofs.v
BitmapSearch.v
BitmapFill.v
IntConv.v
IntConvProofs.v
IntPrint.v
MyTime.v
Calendar.v
TimeArith.v
TimeArithProofs.v
TimeBinary.v
TimeBinaryProofs.v
TimeText.v
TimeParse.v
TimeParseProofs.v
TimeTextProofs.v
Decimal.v
DecimalProofs.v
DecimalAdd.v
DecimalCmp.v
DecimalSub.v
DecimalInt.v
DecimalBytes.v
DecimalBin.v
DecimalBinRead.v
DecimalMul.v
DecimalText.v
DecimalTextProofs.v
DecimalRound.v
DecimalRoundWord.v
DecimalRoundProofs.v
