(* ===== verification/Prelude.v ===== *)
(** * MariaDB server core: verification library

    A shallow embedding of the run-time library that every part of the MariaDB
    server stands on (src/mysys, src/include, src/strings with its fixed-point
    numbers), and of its dates and times (src/sql-common/my_time.c,
    src/sql/sql_time.cc, src/sql/compat56.cc), with proofs that they do what
    they are used for.

    ** The program

    The server is a SQL layer (src/sql) over storage engines (src/storage).
    Both are built on mysys: containers (arrays, hash tables, balanced trees,
    priority queues), the table locks that a statement takes before an engine
    reads or writes a table, and conversion routines.  The SQL layer's table
    definitions, user variables and metadata sit in [HASH] tables; temporary
    tables, GROUP_CONCAT and HEAP indexes use [TREE]; merges and timers use
    [QUEUE]; [THR_LOCK] decides which statements run together on a table;
    [MY_BITMAP] holds the sets of columns a statement reads and writes.  Every
    date, datetime and time value of SQL is a [MYSQL_TIME], which is parsed
    from text or a number, computed with, printed, and packed into the bytes
    that tables and indexes hold; every DECIMAL value is a [decimal_t].

    ** Files

    - [Prelude]: machine-width arithmetic ([u32], [u64]), the interface
      [CmpOrder] of the comparison callbacks, lists and tactics.
    - [Queues] (mysys/queues.c, include/queues.h): the binary heap.  [QUEUE] is
      the C struct, [pos] the memory of the position words kept inside the
      elements; one definition per function, loops with fuel.
    - [ThrLock] (mysys/thr_lock.c, include/thr_lock.h): [THR_LOCK] with its four
      intrusive queues as pointers ([loc] is an address of a pointer), every
      function as a state transformer; [ThrLockQueues] the lists the pointers
      stand for; [ThrLockSafety] the compatibility invariant; [ThrLockSteps] the
      step relation of any number of threads and what every step keeps;
      [ThrLockFrame] what an operation leaves of the records of others;
      [ThrLockTheorems] the resulting guarantees.  [ThrLockMulti] is sort_locks,
      thr_multi_lock, thr_merge_locks and thr_multi_unlock on many tables, each
      with its own lock of [ThrLock]; what other threads do before each call and
      during each wait is an argument ([schedule]); [ThrLockMultiProofs] the
      guarantees.
    - [RBTree] (the rebalancing of mysys/tree.c), [TreeOps] (every operation on
      a [TREE]), [TreeProofs] (insert, delete, search), [TreeScan] (keyed
      search, neighbours, scans, walks, freeing).  The parents stack of the C
      code is a list of frames.
    - [DynArray] (mysys/array.c): buffers of cells that may be unwritten.
    - [Hash] (mysys/hash.c, include/hash.h): all functions on the array of
      links; [HashChains] the chains in that array, [HashSteps] the parts that
      rewrite one chain, [HashSplit] and [HashMerge] growing and shrinking by a
      bucket, [HashTheorems] the refinement to multisets of records.
    - [Base64] (mysys/base64.c): encoder, decoder, length functions.
    - [MyBit] (include/my_bit.h): logarithm, bit count, rounding, reversal.
    - [Bitmap] (mysys/my_bitmap.c, include/my_bitmap.h): a bitmap is a list of
      words and a number of bits; [BitmapProofs] the set a bitmap stands for and
      the operations on it, [BitmapSearch] the searches and iterators,
      [BitmapFill] prefixes, overlaps and the functions on several bitmaps.
    - [IntConv] (strings/int2str.c, longlong2str.c, my_strtoll10.c): integers to
      text and back; [IntConvProofs] the parser, [IntPrint] the printers and
      the round trip.
    - [MyTime] (my_time.c, sql_time.cc): [MYSQL_TIME], its checks, day numbers,
      weeks, conversion to and from numbers; [Calendar] the proofs.
    - [TimeArith] (sql_time.cc, my_time.h): adding intervals, differences,
      packing, comparison; [TimeArithProofs] the proofs.
    - [TimeBinary] (compat56.cc, myisampack.h): the bytes of TIME, DATETIME and
      TIMESTAMP columns; [TimeBinaryProofs] the proofs.
    - [TimeText] (my_time.c): printing; [TimeParse] (my_time.c): parsing, with
      pointers as offsets and chains of calls joined with or as actions on the
      fields read so far; [TimeParseProofs] that every string is handled and
      what is accepted is well formed; [TimeTextProofs] the round trips.
    - [Decimal] (strings/decimal.c, include/decimal.h): [decimal_t], the numbers
      of DECIMAL columns, words of nine digits in a buffer with pointers as
      offsets; [DecimalProofs] the value of a decimal and the loops over words,
      [DecimalAdd], [DecimalCmp], [DecimalSub], [DecimalMul] the arithmetic,
      [DecimalInt] the conversions from and to 64-bit integers, [DecimalBytes],
      [DecimalBin], [DecimalBinRead] the binary format.  [DecimalText] is
      [decimal2string] and [DecimalRound] is [decimal_round];
      [DecimalTextProofs], [DecimalRoundWord] and [DecimalRoundProofs] are
      their proofs.

    ** Conventions

    An operation that can go wrong in memory (an index outside its block, a
    cell never written, a null pointer followed) returns [None] there, so a
    theorem that it returns [Some] is also a memory-safety theorem; a C error
    code is part of the returned value.  Whether an allocation succeeds is a
    boolean argument.  Callbacks and code of other libraries (comparison and
    hash functions, collations, storage-engine callbacks, condition variables)
    are arguments, with the documented behaviour they are used for as named
    hypotheses ([CmpOrder], [IntOrder], [HashLaw]).  Calls to the outside (free callbacks,
    signals) are recorded in event lists.

    Fuel: every loop that is not structural takes a bound that the theorems
    show is enough: the number of records for chains, the number of elements
    for heap paths, the length of the input for scanners.  No theorem assumes
    that a loop ended.

    Widths: [uint], [uint32] are 32-bit, [size_t], [ulong] and [ulonglong]
    64-bit; a sum or a shift that can leave its type is cut with [u32] or
    [u64].  The digit counts of a decimal are [uint16] ([decimal_digits_t]), the
    links of a hash table [uint32] ([link_to]); a theorem that needs more room
    than the type has says so in its hypotheses.  Byte views of words are those
    of a little-endian machine.

    ** Theorems

    - Table locks: in every state that any number of threads can reach, the
      queues are well formed and no request waits while nothing is held.  If the
      threads follow the discipline of the server ([care]: none asks for a
      stronger lock than it has on the table, none strengthens or weakens a lock
      in place beside others), a lock that excludes others is held by one owner
      only, and a concurrent insert does not run next to a foreign
      TL_READ_NO_INSERT; [careless_upgrade_shares] and the lemmas after it show
      that the code needs the discipline.  Aborting wakes all.  thr_multi_lock
      gets all locks or none while other threads act between and during its
      requests, and statements that use it never all wait for each other.
    - Trees: insert, delete and the searches are the operations on the ordered
      sequence of elements and keep the tree red-black; the fixed parents
      array is large enough; scans visit every element once.
    - Hash tables: search, insert, delete and update are the operations on the
      multiset of records, through every split and merge of buckets, up to the
      [2^32 - 1] records that the links can chain.
    - Queues: the queue gives its elements back in order, for every operation,
      with the positions stored in the elements kept right.
    - Arrays: a dynamic array is a list.
    - Conversions: base64 decodes what it encodes, accepts exactly the format
      and stays inside its buffers; the bit functions compute what they are
      named after; integers are printed and read back exactly, and numbers out
      of range are reported.
    - Bitmaps: every operation, test and search is the one on finite sets of
      numbers, whatever the unused bits of the last word are.
    - Dates: day numbers and dates correspond one to one; weeks are numbered
      as the modes say; adding an interval gives the date the sum stands for,
      or an error exactly if it leaves the range, for intervals whose sums do
      not wrap ([small_interval]); packed values and stored
      bytes are read back and sorted in the order of time.
    - Times as text: each parser returns on every string of bytes, and what it
      accepts is in range; printed values are read back.
    - Decimals: sum, difference and product are exact in buffers of the size
      [decimal_result_size] announces, with the one exception that
      [decimal_sub_size_short] shows; the comparison is that of the values;
      integers are converted exactly or saturate; the binary format loses
      nothing, fills exactly its bytes, and memcmp orders it like the numbers;
      the printed text is the plain notation of the value; rounding gives the
      multiple of the last place the mode asks for, if a word is left for the
      carry ([decimal_round_carry_overrun] is what happens otherwise).
    - Where the code does not do what it should, a theorem says so: for
      example [year_overflow_accepted], [date_add_year_wraps],
      [date_add_week_wraps], [unlock_skip_locked_corrupts] and
      [decimal2string_overrun].

    ** Not modelled

    The SQL layer, replication and the storage engines (C++ over class
    hierarchies and shared session state, whole systems of their own); system
    calls and their wrappers (files, sockets, threads, timers); the lock-free
    containers mysys/lf_*.c, whose correctness is about the weak memory model;
    third-party code (zlib, wolfSSL, RocksDB and others); character-set tables
    and floating-point conversion; of decimal.c the division, the shift and the
    conversions from text and from and to doubles; the conversion of local time
    to UTC (my_system_gmt_sec), which asks the system for its time zone.  Of
    the modelled files the debug and instrumentation code (DBUG,
    PSI, the check_locks assertions) is left out, and the mutexes: a function that runs under a mutex is one step. *)

From Stdlib Require Export ZArith Lia ZifyNat ZifyN.
From stdpp Require Export base tactics option list numbers gmap sorting.

#[global] Open Scope general_if_scope.
#[global] Arguments Nat.div : simpl never.
#[global] Arguments Nat.modulo : simpl never.

Declare Scope mariadb_scope.
Delimit Scope mariadb_scope with mdb.

(** ** Fixed-width unsigned arithmetic

    [uint] and [uint32] of the sources are 32-bit, [size_t], [ulong] and
    [ulonglong] 64-bit.  Where a sum or a difference can leave its type the
    model writes the wrap-around with these two functions. *)

Definition u32 (z : Z) : Z := (z mod 2 ^ 32)%Z.
Definition u64 (z : Z) : Z := (z mod 2 ^ 64)%Z.

Lemma u32_small z : (0 <= z < 2 ^ 32)%Z -> u32 z = z.
Proof. apply Z.mod_small. Qed.

Lemma u64_small z : (0 <= z < 2 ^ 64)%Z -> u64 z = z.
Proof. apply Z.mod_small. Qed.

Lemma u32_add z n : u32 (u32 z + n) = u32 (z + n).
Proof. unfold u32. by rewrite Zplus_mod_idemp_l. Qed.

Lemma u32_sub z n : u32 (u32 z - n) = u32 (z - n).
Proof. unfold u32. by rewrite Zminus_mod_idemp_l. Qed.

Lemma u32_range z : (0 <= u32 z < 2 ^ 32)%Z.
Proof. apply Z.mod_pos_bound. lia. Qed.

(** The conversion of an [ulonglong] to [longlong]. *)
Definition to_ll (z : Z) : Z := ((z + 2 ^ 63) mod 2 ^ 64 - 2 ^ 63)%Z.

Lemma to_ll_small z : (- 2 ^ 63 <= z < 2 ^ 63)%Z -> to_ll z = z.
Proof. intros. unfold to_ll. rewrite Z.mod_small; lia. Qed.

Lemma to_ll_u64 z : to_ll (u64 z) = to_ll z.
Proof. unfold to_ll, u64. f_equal. by rewrite Zplus_mod_idemp_l. Qed.

Lemma leb_bool_decide a b : (a <=? b)%Z = bool_decide (a <= b)%Z.
Proof. by destruct (Z.leb_spec a b); [rewrite bool_decide_true|rewrite bool_decide_false by lia]. Qed.

Lemma ltb_bool_decide a b : (a <? b)%Z = bool_decide (a < b)%Z.
Proof. by destruct (Z.ltb_spec a b); [rewrite bool_decide_true|rewrite bool_decide_false by lia]. Qed.

Lemma eqb_bool_decide a b : (a =? b)%Z = bool_decide (a = b)%Z.
Proof. by destruct (Z.eqb_spec a b); [rewrite bool_decide_true|rewrite bool_decide_false]. Qed.

(** ** Three-way comparison functions

    The [qsort_cmp2]-style callbacks (taking an opaque argument and two elements) that the
    containers take.  A container's correctness relies on the callback being
    a total preorder; this is the interface the containers are verified
    against. *)

Class CmpOrder {A} (cmp : A -> A -> Z) : Prop := {
  cmp_anti : forall x y, (cmp x y < 0 <-> 0 < cmp y x)%Z;
  cmp_trans : forall x y z, (cmp x y <= 0 -> cmp y z <= 0 -> cmp x z <= 0)%Z
}.

Section cmp.
Context {A} (cmp : A -> A -> Z) `{!CmpOrder cmp}.

Lemma cmp_total x y : (cmp x y <= 0 \/ cmp y x <= 0)%Z.
Proof. pose proof (cmp_anti x y). pose proof (cmp_anti y x). lia. Qed.

Lemma cmp_refl x : cmp x x = 0%Z.
Proof. pose proof (cmp_anti x x). lia. Qed.

Lemma cmp_zero_sym x y : cmp x y = 0%Z -> cmp y x = 0%Z.
Proof. pose proof (cmp_anti x y). pose proof (cmp_anti y x). lia. Qed.

Lemma cmp_flip x y : (cmp x y <= 0 <-> 0 <= cmp y x)%Z.
Proof. pose proof (cmp_anti x y). pose proof (cmp_anti y x). lia. Qed.

Lemma cmp_lt_le x y z : (cmp x y < 0 -> cmp y z <= 0 -> cmp x z < 0)%Z.
Proof.
  intros Hxy Hyz. destruct (Z.lt_ge_cases (cmp x z) 0) as [|Hge]; [done|].
  assert (cmp y x <= 0)%Z by (apply (cmp_trans y z x); [done|apply cmp_flip; lia]).
  pose proof (cmp_anti x y). lia.
Qed.

Lemma cmp_le_lt x y z : (cmp x y <= 0 -> cmp y z < 0 -> cmp x z < 0)%Z.
Proof.
  intros Hxy Hyz. destruct (Z.lt_ge_cases (cmp x z) 0) as [|Hge]; [done|].
  assert (cmp z y <= 0)%Z by (apply (cmp_trans z x y); [apply cmp_flip; lia|done]).
  pose proof (cmp_anti y z). lia.
Qed.

Lemma cmp_lt_trans x y z : (cmp x y < 0 -> cmp y z < 0 -> cmp x z < 0)%Z.
Proof. intros. apply (cmp_lt_le x y z); lia. Qed.
End cmp.

#[export] Instance Zsub_CmpOrder : CmpOrder (fun x y : Z => (x - y)%Z).
Proof. split; intros; lia. Qed.

(** ** Tactics of the development *)

(** Splits every boolean conjunction, disjunction and comparison of the
    context into its propositional form. *)
Ltac breflect :=
  repeat match goal with
  | H : andb _ _ = true |- _ => apply andb_prop in H as [? ?]
  | H : negb _ = true |- _ => apply negb_true_iff in H
  | H : negb _ = false |- _ => apply negb_false_iff in H
  | H : orb _ _ = false |- _ => apply orb_false_elim in H as [? ?]
  | H : Nat.ltb _ _ = true |- _ => apply Nat.ltb_lt in H
  | H : Nat.ltb _ _ = false |- _ => apply Nat.ltb_ge in H
  | H : Nat.leb _ _ = true |- _ => apply Nat.leb_le in H
  | H : Nat.leb _ _ = false |- _ => apply Nat.leb_gt in H
  | H : Nat.eqb _ _ = true |- _ => apply Nat.eqb_eq in H
  | H : Nat.eqb _ _ = false |- _ => apply Nat.eqb_neq in H
  | H : Z.ltb _ _ = true |- _ => apply Z.ltb_lt in H
  | H : Z.ltb _ _ = false |- _ => apply Z.ltb_ge in H
  | H : Z.leb _ _ = true |- _ => apply Z.leb_le in H
  | H : Z.leb _ _ = false |- _ => apply Z.leb_gt in H
  | H : Z.eqb _ _ = true |- _ => apply Z.eqb_eq in H
  | H : Z.eqb _ _ = false |- _ => apply Z.eqb_neq in H
  end.

(** Appends to the right. *)
Ltac norm_app := cbn [app]; repeat (rewrite <-app_assoc; cbn [app]).

(** Decidable closed facts, by evaluation. *)
Ltac concrete := apply (bool_decide_unpack _); vm_compute; exact I.

(** Linear arithmetic with division and remainder by constants. *)
Ltac dlia := zify; Z.to_euclidean_division_equations; lia.

(** Case analysis on the scrutinee of the first [if] of the goal. *)
Ltac case_if :=
  match goal with
  | |- context [if ?b then _ else _] => destruct b eqn:?
  end; breflect.

(** ** Lists: exchanging two cells *)

Definition list_swap {A} (l : list A) (i j : nat) : list A :=
  match l !! i, l !! j with
  | Some x, Some y => <[i:=y]> (<[j:=x]> l)
  | _, _ => l
  end.

Section swap.
Context {A : Type}.
Implicit Types (l : list A) (x y : A).

Lemma length_list_swap l i j : length (list_swap l i j) = length l.
Proof. unfold list_swap. repeat case_match; rewrite ?length_insert; done. Qed.

Lemma lookup_list_swap l i j k x y :
  l !! i = Some x -> l !! j = Some y ->
  list_swap l i j !! k =
    if decide (k = i) then Some y else if decide (k = j) then Some x else l !! k.
Proof.
  intros Hi Hj. unfold list_swap. rewrite Hi, Hj.
  pose proof (lookup_lt_Some _ _ _ Hi). pose proof (lookup_lt_Some _ _ _ Hj).
  repeat case_decide; subst.
  - rewrite list_lookup_insert_eq; [done|]. by rewrite length_insert.
  - rewrite list_lookup_insert_ne by done. by rewrite list_lookup_insert_eq.
  - by rewrite !list_lookup_insert_ne by done.
Qed.

Lemma list_swap_perm l i j x y :
  l !! i = Some x -> l !! j = Some y -> list_swap l i j ≡ₚ l.
Proof.
  intros Hi Hj. apply Permutation_inj. split; [apply length_list_swap|].
  exists (fun k => if decide (k = i) then j else if decide (k = j) then i else k).
  split.
  - intros a b. repeat case_decide; congruence.
  - intros k. rewrite (lookup_list_swap _ _ _ _ x y) by done.
    repeat case_decide; subst; done.
Qed.
End swap.

(** ** Lists: prefixes and replaced cells *)

Lemma decide_elem_app {A} (x : nat) (a b : list nat) (u v : A) :
  (if decide (x ∈ b) then u else if decide (x ∈ a) then u else v) =
  if decide (x ∈ a ++ b) then u else v.
Proof. repeat case_decide; set_solver. Qed.

Lemma NoDup_take {A} (l : list A) n : NoDup l -> NoDup (take n l).
Proof. intros Hl. rewrite <- (take_drop n l) in Hl. by apply NoDup_app in Hl as [? _]. Qed.

Lemma take_last {A} (l : list A) x :
  l !! (length l - 1) = Some x -> l = take (length l - 1) l ++ [x].
Proof.
  intros Hx. rewrite <- (take_drop (length l - 1) l) at 1. f_equal.
  rewrite (drop_S _ x) by done. apply lookup_lt_Some in Hx.
  by rewrite drop_ge by lia.
Qed.

(** Moving the last element over the cell [i] drops exactly that cell. *)
Lemma insert_last_perm {A} (l : list A) i e x :
  l !! i = Some e -> l ++ [x] ≡ₚ e :: <[i:=x]> l.
Proof.
  intros He. pose proof (lookup_lt_Some _ _ _ He).
  rewrite <- (take_drop_middle l i e) at 1 by done.
  rewrite insert_take_drop by done.
  rewrite <- app_assoc. simpl. rewrite <- Permutation_middle. apply perm_skip.
  apply Permutation_app_head. by rewrite Permutation_app_comm.
Qed.

Lemma StronglySorted_weaken {A} (R R' : A -> A -> Prop) l :
  (forall x y, R x y -> R' x y) -> StronglySorted R l -> StronglySorted R' l.
Proof. intros HR. induction 1; constructor; eauto using Forall_impl. Qed.
