(* ===== verification/Queues.v ===== *)
(** * Priority queues (mysys/queues.c, include/queues.h)

    The binary heap that the server uses for merge buffers, timers and
    filesort.  [root] is the C array of element pointers, slot 0 unused; an
    element can carry its own position ([offset_to_queue_pos]), which the
    model keeps as the memory [pos] of those position words.  Every array
    access is checked: an access outside the allocation, or a read of a slot
    that was never written, makes the operation return [None], so that
    theorems saying an operation returns [Some] are memory-safety theorems
    too.  Memory allocation is an oracle argument [alloc_ok]. *)

From S2P Require Import Prelude.

(** ** Heap order on lists

    The reasoning about the array order itself, on lists under a total
    preorder, shared by all operations.  Cells are numbered from 1, as in the
    C array. *)

Section heap_order.
Context {A : Type} (R : A -> A -> Prop).
Context (R_trans : forall x y z, R x y -> R y z -> R x z).
Implicit Types (L : list A).

(** The order of the array, restricted to parents from index [k] on. *)
Definition heap_from (k : nat) (L : list A) : Prop :=
  forall i x y, 2 <= i -> k <= i / 2 ->
    L !! (i / 2 - 1) = Some x -> L !! (i - 1) = Some y -> R x y.

(** Every parent-child pair is in order, but those of parents before [k] and
    the one of [h] with its own parent; the parent of [h] is in order with the
    children of [h]. *)
Record up_ok (k : nat) (L : list A) (h : nat) : Prop := {
  up_pairs : forall i x y, 2 <= i -> k <= i / 2 -> i <> h ->
    L !! (i / 2 - 1) = Some x -> L !! (i - 1) = Some y -> R x y;
  up_grand : forall c x y, 2 <= h -> k <= h / 2 -> c / 2 = h ->
    L !! (h / 2 - 1) = Some x -> L !! (c - 1) = Some y -> R x y
}.

(** The same, with the pairs of [h] and its children left out too. *)
Record down_ok (k : nat) (L : list A) (h : nat) : Prop := {
  down_pairs : forall i x y, 2 <= i -> k <= i / 2 -> i <> h -> i / 2 <> h ->
    L !! (i / 2 - 1) = Some x -> L !! (i - 1) = Some y -> R x y;
  down_grand : forall c x y, 2 <= h -> k <= h / 2 -> c / 2 = h ->
    L !! (h / 2 - 1) = Some x -> L !! (c - 1) = Some y -> R x y
}.

Lemma up_ok_swap L h e y :
  up_ok 1 L h -> 2 <= h -> L !! (h - 1) = Some e -> L !! (h / 2 - 1) = Some y ->
  R e y -> up_ok 1 (list_swap L (h - 1) (h / 2 - 1)) (h / 2).
Proof.
  intros [Hp Hg] Hh He Hy Hey. split.
  - intros i u v Hi _ Hne. rewrite !(lookup_list_swap _ _ _ _ e y) by done.
    repeat case_decide; intros; simplify_eq; try dlia; try by eauto.
    + eapply (Hg i); eauto; dlia.
    + eapply R_trans; [done|]. eapply (Hp i); eauto; try dlia.
      by replace (i / 2 - 1) with (h / 2 - 1) by done.
    + eapply (Hp i); eauto; dlia.
  - intros c u v Hh2 _ Hc. rewrite !(lookup_list_swap _ _ _ _ e y) by done.
    repeat case_decide; intros; simplify_eq; try dlia.
    + eapply (Hp (h / 2)); eauto; dlia.
    + eapply R_trans; [eapply (Hp (h / 2)); eauto; dlia|].
      eapply (Hp c); eauto; try dlia. by rewrite Hc.
Qed.

Lemma up_ok_done k L h :
  up_ok k L h ->
  (forall e y, 2 <= h -> k <= h / 2 ->
     L !! (h - 1) = Some e -> L !! (h / 2 - 1) = Some y -> R y e) ->
  heap_from k L.
Proof.
  intros [Hp _] Hh i x y ????. destruct (decide (i = h)) as [->|]; eauto.
Qed.

Lemma down_ok_swap k L h j e y :
  down_ok k L h -> 1 <= k <= h -> j / 2 = h ->
  L !! (h - 1) = Some e -> L !! (j - 1) = Some y ->
  (forall c z, c / 2 = h -> c <> j -> L !! (c - 1) = Some z -> R y z) ->
  down_ok k (list_swap L (h - 1) (j - 1)) j.
Proof.
  intros [Hp Hg] Hk Hj He Hy Hmin. split.
  - intros i u v Hi Hki Hn1 Hn2. rewrite !(lookup_list_swap _ _ _ _ e y) by done.
    repeat case_decide; intros; simplify_eq; try dlia.
    + eapply (Hmin i); eauto; dlia.
    + eapply (Hg j); eauto; try dlia.
      replace (j / 2) with i by dlia. done.
    + eapply (Hp i); eauto; dlia.
  - intros c u v _ _ Hc. rewrite !(lookup_list_swap _ _ _ _ e y) by done.
    repeat case_decide; intros; simplify_eq; try dlia.
    eapply (Hp c); eauto; dlia.
Qed.

Lemma down_ok_up k L h e :
  down_ok k L h -> L !! (h - 1) = Some e ->
  (forall c y, 2 <= c -> c / 2 = h -> L !! (c - 1) = Some y -> R e y) ->
  up_ok k L h.
Proof.
  intros [Hp Hg] He Hc. split; [|done].
  intros i x y ??? Hx Hy. destruct (decide (i / 2 = h)) as [E|]; [|by eauto].
  rewrite E in Hx. simplify_eq. eauto.
Qed.

(** A heap in which cell [h] was overwritten. *)
Lemma heap_insert_down k L h e :
  1 <= k -> 1 <= h -> heap_from k L -> down_ok k (<[h - 1 := e]> L) h.
Proof.
  intros Hk Hh Hheap. split.
  - intros i x y ????. rewrite !list_lookup_insert_ne by dlia. eauto.
  - intros c x y ???. rewrite !list_lookup_insert_ne by dlia. intros Hx Hy.
    destruct (lookup_lt_is_Some_2 L (h - 1)) as [z Hz].
    { apply lookup_lt_Some in Hy. dlia. }
    apply (R_trans _ z).
    + eapply (Hheap h); eauto; dlia.
    + eapply (Hheap c); eauto; try dlia. by replace (c / 2) with h.
Qed.

End heap_order.

Module Queue.

(** What a queue needs of its callback: a total preorder whose values are
    [int]s that can be negated. *)
Class IntOrder {A} (compare : A -> A -> Z) : Prop := {
  io_order :: CmpOrder compare;
  io_int : forall x y, (- 2 ^ 31 < compare x y < 2 ^ 31)%Z
}.

Section queue.
Context {A : Type} `{Countable A}.

Record QUEUE := mk_queue {
  root : list (option A);
  elements : nat;
  max_elements : nat;
  offset_to_queue_pos : nat;
  auto_extent : nat;
  max_at_top : Z;
  compare : A -> A -> Z;
  pos : gmap A nat
}.

(** [uint] arithmetic on sizes. *)
Definition wrap32 (n : nat) : nat := Z.to_nat (u32 (Z.of_nat n)).

(** ** Field updates and checked array accesses *)

Definition set_root (q : QUEUE) (r : list (option A)) : QUEUE :=
  mk_queue r (elements q) (max_elements q) (offset_to_queue_pos q)
    (auto_extent q) (max_at_top q) (compare q) (pos q).

Definition set_elements (q : QUEUE) (n : nat) : QUEUE :=
  mk_queue (root q) n (max_elements q) (offset_to_queue_pos q)
    (auto_extent q) (max_at_top q) (compare q) (pos q).

Definition set_pos (q : QUEUE) (p : gmap A nat) : QUEUE :=
  mk_queue (root q) (elements q) (max_elements q) (offset_to_queue_pos q)
    (auto_extent q) (max_at_top q) (compare q) p.

(** [queue->root[i]] as a value. *)
Definition rd (q : QUEUE) (i : nat) : option A := mjoin (root q !! i).

(** [queue->root[i]= x]. *)
Definition wr (q : QUEUE) (i : nat) (x : A) : option QUEUE :=
  if i <? length (root q) then Some (set_root q (<[i:=Some x]> (root q))) else None.

(** [if (offset_to_queue_pos) *(uint* )(x + offset_to_queue_pos-1)= idx]. *)
Definition store_pos (q : QUEUE) (x : A) (idx : nat) : QUEUE :=
  if offset_to_queue_pos q =? 0 then q else set_pos q (<[x:=idx]> (pos q)).

(** [queue->compare(first_cmp_arg, x, y) * queue->max_at_top], an [int]. *)
Definition cmp (q : QUEUE) (x y : A) : Z :=
  ((compare q x y * max_at_top q + 2 ^ 31) mod 2 ^ 32 - 2 ^ 31)%Z.

(** ** Creation and resizing *)

Definition queue_set_max_at_top (max_at_top_arg : bool) : Z :=
  if max_at_top_arg then (-1)%Z else 1%Z.

Definition init_queue (alloc_ok : bool) (max_elements : nat) (max_at_top : bool)
    (compare : A -> A -> Z) (offset_to_queue_pos auto_extent : nat)
    (p : gmap A nat) : option QUEUE :=
  if alloc_ok then
    Some (mk_queue (replicate (wrap32 (max_elements + 1)) None) 0 max_elements
            offset_to_queue_pos auto_extent (queue_set_max_at_top max_at_top)
            compare p)
  else None.

(** [my_realloc] keeps the common prefix; new slots are uninitialised. *)
Definition realloc_root (r : list (option A)) (n : nat) : list (option A) :=
  take n r ++ replicate (n - length r) None.

(** Returns the error code and the queue (unchanged on error). *)
Definition resize_queue (alloc_ok : bool) (q : QUEUE) (max : nat) : Z * QUEUE :=
  if max_elements q =? max then (0%Z, q)
  else if alloc_ok then
    (0%Z, mk_queue (realloc_root (root q) (wrap32 (max + 1)))
            (Nat.min (elements q) max) max (offset_to_queue_pos q)
            (auto_extent q) (max_at_top q) (compare q) (pos q))
  else (1%Z, q).

Definition reinit_queue (alloc_ok : bool) (q : QUEUE) (max : nat)
    (max_at_top : bool) (compare : A -> A -> Z)
    (offset_to_queue_pos auto_extent : nat) : Z * QUEUE :=
  resize_queue alloc_ok
    (mk_queue (root q) 0 (max_elements q) offset_to_queue_pos auto_extent
       (queue_set_max_at_top max_at_top) compare (pos q)) max.

Definition delete_queue (q : QUEUE) : QUEUE := set_root q [].

(** ** Heap operations *)

(** The [while] loop of [insert_at]: the queue and the final [idx]. *)
Fixpoint insert_at_loop (fuel : nat) (q : QUEUE) (element : A) (idx : nat)
    : option (QUEUE * nat) :=
  match fuel with
  | 0 => None
  | S fuel =>
      let next_index := idx / 2 in
      if 0 <? next_index then
        y ← rd q next_index;
        if (cmp q element y <? 0)%Z then
          q ← wr q idx y;
          insert_at_loop fuel (store_pos q y idx) element next_index
        else Some (q, idx)
      else Some (q, idx)
  end.

Definition insert_at (q : QUEUE) (element : A) (idx : nat) : option QUEUE :=
  '(q, idx) ← insert_at_loop (S idx) q element idx;
  q ← wr q idx element;
  Some (store_pos q element idx).

Definition queue_insert (q : QUEUE) (element : A) : option QUEUE :=
  let q := set_elements q (S (elements q)) in
  insert_at q element (elements q).

(** Return code 0, 1 or 2, with the resulting queue. *)
Definition queue_insert_safe (alloc_ok : bool) (q : QUEUE) (element : A)
    : option (Z * QUEUE) :=
  if elements q =? max_elements q then
    if auto_extent q =? 0 then Some (2%Z, q)
    else
      let '(rc, q) := resize_queue alloc_ok q
                        (wrap32 (max_elements q + auto_extent q)) in
      if (rc =? 0)%Z then q ← queue_insert q element; Some (0%Z, q)
      else Some (1%Z, q)
  else q ← queue_insert q element; Some (0%Z, q).

(** [next_index] of the descent loops: the child of [idx] that is nearer to
    the top of the queue. *)
Definition next_child (q : QUEUE) (idx : nat) : option nat :=
  let next_index := idx + idx in
  if next_index <? elements q then
    l ← rd q next_index;
    r ← rd q (next_index + 1);
    Some (if (0 <? cmp q l r)%Z then next_index + 1 else next_index)
  else Some next_index.

(** The [while] loop of [queue_replace]: the queue and the final [idx]. *)
Fixpoint queue_replace_loop (fuel : nat) (q : QUEUE) (element : A) (idx : nat)
    (first : bool) : option (QUEUE * nat) :=
  match fuel with
  | 0 => None
  | S fuel =>
      if idx <=? elements q / 2 then
        next_index ← next_child q idx;
        y ← rd q next_index;
        if first && (0 <=? cmp q y element)%Z then
          q ← wr q idx element;
          Some (store_pos q element idx, idx)
        else
          q ← wr q idx y;
          queue_replace_loop fuel (store_pos q y idx) element next_index false
      else Some (q, idx)
  end.

Definition queue_replace (q : QUEUE) (idx : nat) : option QUEUE :=
  element ← rd q idx;
  '(q, idx) ← queue_replace_loop (S (elements q)) q element idx true;
  insert_at q element idx.

Definition queue_remove (q : QUEUE) (idx : nat) : option (A * QUEUE) :=
  element ← rd q idx;
  last ← rd q (elements q);
  q ← wr q idx last;
  q ← queue_replace (set_elements q (elements q - 1)) idx;
  Some (element, q).

(** The [while] loop of [_downheap]: the queue and the final [idx]. *)
Fixpoint downheap_loop (fuel : nat) (q : QUEUE) (element : A) (idx : nat)
    : option (QUEUE * nat) :=
  match fuel with
  | 0 => None
  | S fuel =>
      if idx <=? elements q / 2 then
        next_index ← next_child q idx;
        y ← rd q next_index;
        if (0 <=? cmp q y element)%Z then Some (q, idx)
        else
          q ← wr q idx y;
          downheap_loop fuel (store_pos q y idx) element next_index
      else Some (q, idx)
  end.

Definition downheap (q : QUEUE) (idx : nat) : option QUEUE :=
  element ← rd q idx;
  '(q, idx) ← downheap_loop (S (elements q)) q element idx;
  q ← wr q idx element;
  Some (store_pos q element idx).

(** [for (i= elements >> 1; i > 0; i--) _downheap(queue, i)]. *)
Fixpoint queue_fix_loop (q : QUEUE) (i : nat) : option QUEUE :=
  match i with
  | 0 => Some q
  | S i' => q ← downheap q i; queue_fix_loop q i'
  end.

Definition queue_fix (q : QUEUE) : option QUEUE :=
  queue_fix_loop q (elements q / 2).

Definition queue_top (q : QUEUE) : option A := rd q 1.
Definition queue_replace_top (q : QUEUE) : option QUEUE := downheap q 1.
Definition queue_remove_top (q : QUEUE) : option (A * QUEUE) := queue_remove q 1.
Definition queue_remove_all (q : QUEUE) : QUEUE := set_elements q 0.
Definition queue_is_full (q : QUEUE) : bool := elements q =? max_elements q.

(** ** Representation

    A queue state represents the list [L] of its elements in array order
    (cell [i] of the array is [L !! (i-1)]), except at the hole [h], where the
    loops have not written yet and which stands for [element]. *)

Definition ord (q : QUEUE) (x y : A) : Prop := (cmp q x y <= 0)%Z.

Record same_config (q q' : QUEUE) : Prop := {
  sc_len : length (root q') = length (root q);
  sc_elements : elements q' = elements q;
  sc_max : max_elements q' = max_elements q;
  sc_off : offset_to_queue_pos q' = offset_to_queue_pos q;
  sc_ext : auto_extent q' = auto_extent q;
  sc_top : max_at_top q' = max_at_top q;
  sc_cmp : compare q' = compare q
}.

(** The parts of a queue that only its initialisation and resizing choose. *)
Definition same_setup (q q' : QUEUE) : Prop :=
  max_elements q' = max_elements q /\
  offset_to_queue_pos q' = offset_to_queue_pos q /\
  auto_extent q' = auto_extent q /\
  max_at_top q' = max_at_top q /\ compare q' = compare q.

Record rep (q : QUEUE) (L : list A) (h : nat) : Prop := {
  rep_fit : length L < length (root q);
  rep_nodup : offset_to_queue_pos q <> 0 -> NoDup L;
  rep_cell : forall i x, i <> h -> 0 < i -> L !! (i - 1) = Some x -> rd q i = Some x;
  rep_pos : forall i x, i <> h -> 0 < i -> L !! (i - 1) = Some x ->
    offset_to_queue_pos q <> 0 -> pos q !! x = Some i
}.

(** The invariant of a queue between calls, and the elements it holds. *)
Record queue_inv (q : QUEUE) (L : list A) : Prop := {
  qi_size : length (root q) = S (max_elements q);
  qi_elements : elements q = length L;
  qi_fit : length L <= max_elements q;
  qi_top : max_at_top q = 1%Z \/ max_at_top q = (-1)%Z;
  qi_rep : rep q L 0;
  qi_heap : heap_from (ord q) 1 L
}.

(** ** Array steps *)

Lemma cmp_same q q' x y : same_config q q' -> cmp q' x y = cmp q x y.
Proof. intros []. unfold cmp. by rewrite sc_top0, sc_cmp0. Qed.

Lemma ord_same q q' : same_config q q' -> ord q' = ord q.
Proof.
  intros [? ? ? ? ? Ht Hc]. unfold ord, cmp. by rewrite Ht, Hc.
Qed.

Lemma same_config_refl q : same_config q q.
Proof. by constructor. Qed.

Lemma same_config_trans q1 q2 q3 :
  same_config q1 q2 -> same_config q2 q3 -> same_config q1 q3.
Proof. intros [] []. constructor; congruence. Qed.

Lemma same_config_setup q q' : same_config q q' -> same_setup q q'.
Proof. intros []. by unfold same_setup. Qed.

Lemma same_setup_trans q1 q2 q3 :
  same_setup q1 q2 -> same_setup q2 q3 -> same_setup q1 q3.
Proof. unfold same_setup. intuition congruence. Qed.

Lemma same_setup_ord q q' : same_setup q q' -> ord q' = ord q.
Proof. intros (_ & _ & _ & Ht & Hc). unfold ord, cmp. by rewrite Ht, Hc. Qed.

Lemma write_cell q i x :
  i < length (root q) ->
  exists q1, wr q i x = Some q1 /\ same_config q (store_pos q1 x i) /\
    (forall j, rd (store_pos q1 x i) j = if decide (j = i) then Some x else rd q j) /\
    (forall y, offset_to_queue_pos q <> 0 ->
       pos (store_pos q1 x i) !! y = if decide (y = x) then Some i else pos q !! y).
Proof.
  intros Hi. unfold wr. rewrite (proj2 (Nat.ltb_lt _ _)) by done.
  eexists. split; [done|]. unfold store_pos; simpl.
  split; [|split].
  - destruct (offset_to_queue_pos q =? 0); constructor; simpl; rewrite ?length_insert; done.
  - intros j. unfold rd. destruct (offset_to_queue_pos q =? 0); simpl.
    all: case_decide; subst;
      [by rewrite list_lookup_insert_eq|by rewrite list_lookup_insert_ne].
  - intros y Hoff. rewrite (proj2 (Nat.eqb_neq _ _)) by done. simpl.
    case_decide; subst; [by rewrite lookup_insert_eq|by rewrite lookup_insert_ne].
Qed.

(** [root[h]= root[j]] moves the hole from [h] to [j]. *)
Lemma move_hole q L h j e y :
  rep q L h -> 0 < h -> 0 < j -> j <> h ->
  L !! (h - 1) = Some e -> L !! (j - 1) = Some y ->
  rd q j = Some y /\
  exists q1, wr q h y = Some q1 /\ same_config q (store_pos q1 y h) /\
    rep (store_pos q1 y h) (list_swap L (h - 1) (j - 1)) j.
Proof.
  intros [Hfit Hnd Hcell Hpos] Hh Hj Hne He Hy.
  split; [by eauto|].
  destruct (write_cell q h y) as (q1 & E & Hsc & Hrd & Hp).
  { apply lookup_lt_Some in He. lia. }
  exists q1. split; [done|]. split; [done|].
  assert (Hoff := sc_off _ _ Hsc).
  constructor.
  - rewrite length_list_swap, (sc_len _ _ Hsc). done.
  - rewrite Hoff. intros. rewrite (list_swap_perm _ _ _ e y) by done. auto.
  - intros i x ??. rewrite (lookup_list_swap _ _ _ _ e y) by done. rewrite Hrd.
    repeat case_decide; subst; intros; simplify_eq; try lia; eauto.
  - intros i x ??. rewrite (lookup_list_swap _ _ _ _ e y) by done. rewrite Hoff.
    intros Hx Hoff'. rewrite Hp by done. specialize (Hnd Hoff').
    repeat case_decide; subst; simplify_eq; try lia; eauto.
    + f_equal. lia.
    + exfalso. assert (i - 1 = j - 1) by (eapply NoDup_lookup; eauto). lia.
Qed.

(** [root[h]= element] fills the hole. *)
Lemma fill_hole q L h e :
  rep q L h -> 0 < h -> L !! (h - 1) = Some e ->
  exists q1, wr q h e = Some q1 /\ same_config q (store_pos q1 e h) /\
    rep (store_pos q1 e h) L 0.
Proof.
  intros [Hfit Hnd Hcell Hpos] Hh He.
  destruct (write_cell q h e) as (q1 & E & Hsc & Hrd & Hp).
  { apply lookup_lt_Some in He. lia. }
  exists q1. split; [done|]. split; [done|].
  assert (Hoff := sc_off _ _ Hsc).
  constructor.
  - by rewrite (sc_len _ _ Hsc).
  - by rewrite Hoff.
  - intros i x ?? Hx. rewrite Hrd. case_decide; subst; simplify_eq; eauto.
  - intros i x ?? Hx. rewrite Hoff. intros Hoff'. rewrite Hp by done.
    repeat case_decide; subst; simplify_eq; eauto.
    + f_equal. assert (i - 1 = h - 1) by (eapply NoDup_lookup; eauto). lia.
    + apply Hpos; eauto. intros ->. congruence.
Qed.

(** A full representation is one with a hole anywhere. *)
Lemma rep_open q L h : rep q L 0 -> rep q L h.
Proof. intros [????]. constructor; eauto with lia. Qed.

(** ** [insert_at] *)

Section ordered.
Context (q0 : QUEUE) `{!CmpOrder (cmp q0)}.

Lemma ord_trans q x y z :
  same_config q0 q -> ord q x y -> ord q y z -> ord q x z.
Proof.
  intros Hsc. rewrite (ord_same _ _ Hsc). unfold ord. apply cmp_trans.
Qed.

Lemma insert_at_loop_ok fuel q L h e :
  same_config q0 q -> h < fuel -> 0 < h ->
  rep q L h -> L !! (h - 1) = Some e -> up_ok (ord q0) 1 L h ->
  exists q' L' h', insert_at_loop fuel q e h = Some (q', h') /\
    same_config q0 q' /\ rep q' L' h' /\ 0 < h' /\ L' !! (h' - 1) = Some e /\
    L' ≡ₚ L /\ heap_from (ord q0) 1 L' /\
    (forall i, h < i -> L' !! (i - 1) = L !! (i - 1)).
Proof.
  revert q L h. induction fuel as [|fuel IH]; intros q L h Hsc Hf Hh Hrep He Hup.
  { lia. }
  simpl. case_if.
  2: { exists q, L, h. split_and!; try done. eapply up_ok_done; [done|]. intros. dlia. }
  destruct (lookup_lt_is_Some_2 L (h / 2 - 1)) as [y Hy].
  { apply lookup_lt_Some in He. dlia. }
  destruct (move_hole q L h (h / 2) e y) as (Hrd & q1 & Hwr & Hsc1 & Hrep1);
    [done..|dlia|done|done|].
  rewrite Hrd; simpl. rewrite (cmp_same _ _ _ _ Hsc). case_if.
  - rewrite Hwr; simpl.
    destruct (IH (store_pos q1 y h) (list_swap L (h - 1) (h / 2 - 1)) (h / 2))
      as (q' & L' & h' & E & ? & ? & ? & ? & Hperm & ? & Hout).
    + eauto using same_config_trans.
    + dlia.
    + lia.
    + done.
    + rewrite (lookup_list_swap _ _ _ _ e y) by done.
      rewrite decide_False, decide_True by dlia. done.
    + eapply up_ok_swap; try done; [|dlia|].
      * intros; eapply (ord_trans q0); eauto using same_config_refl.
      * unfold ord. lia.
    + exists q', L', h'. split_and!; try done.
      * rewrite Hperm. by eapply list_swap_perm.
      * intros i Hi. rewrite Hout by dlia. rewrite (lookup_list_swap _ _ _ _ e y) by done.
        by rewrite !decide_False by dlia.
  - exists q, L, h. split_and!; try done. eapply up_ok_done; [done|].
    intros e' y' ?? He' Hy'. assert (e' = e /\ y' = y) as [-> ->] by (split; congruence).
    unfold ord. pose proof (cmp_anti (cmp := cmp q0) e y). lia.
Qed.

Lemma insert_at_ok q L h e :
  same_config q0 q -> 0 < h -> rep q L h -> L !! (h - 1) = Some e ->
  up_ok (ord q0) 1 L h ->
  exists q' L', insert_at q e h = Some q' /\ same_config q0 q' /\ rep q' L' 0 /\
    L' ≡ₚ L /\ heap_from (ord q0) 1 L' /\
    (forall i, h < i -> L' !! (i - 1) = L !! (i - 1)).
Proof.
  intros Hsc Hh Hrep He Hup.
  destruct (insert_at_loop_ok (S h) q L h e)
    as (q' & L' & h' & E & Hsc' & Hrep' & ? & ? & ? & ? & ?); [done|lia|done..|].
  unfold insert_at. rewrite E; simpl.
  destruct (fill_hole q' L' h' e) as (q1 & Hwr & Hsc1 & Hrep1); [done..|].
  rewrite Hwr; simpl. eexists _, L'. split; [done|].
  split_and!; eauto using same_config_trans.
Qed.

(** Nothing moves when the element is not before its parent. *)
Lemma insert_at_stay q L h e :
  same_config q0 q -> 0 < h -> rep q L h -> L !! (h - 1) = Some e ->
  (forall y, 2 <= h -> L !! (h / 2 - 1) = Some y -> ord q0 y e) ->
  exists q', insert_at q e h = Some q' /\ same_config q0 q' /\ rep q' L 0.
Proof.
  intros Hsc Hh Hrep He Hpar. unfold insert_at.
  assert (E : insert_at_loop (S h) q e h = Some (q, h)).
  { cbn [insert_at_loop]. case_if; [|done].
    destruct (lookup_lt_is_Some_2 L (h / 2 - 1)) as [y Hy].
    { apply lookup_lt_Some in He. dlia. }
    rewrite (rep_cell _ _ _ Hrep (h / 2) y) by (done || dlia). simpl.
    rewrite (cmp_same _ _ _ _ Hsc). case_if; [|done].
    specialize (Hpar y ltac:(dlia) Hy). unfold ord in Hpar.
    pose proof (cmp_anti (cmp := cmp q0) e y). lia. }
  rewrite E; simpl. destruct (fill_hole q L h e) as (q1 & Hwr & Hsc1 & Hrep1); [done..|].
  rewrite Hwr; simpl. eexists. split; [done|]. eauto using same_config_trans.
Qed.

(** ** Descent *)

Lemma next_child_ok q L h :
  same_config q0 q -> 0 < h -> elements q = length L -> h <= elements q / 2 ->
  rep q L h ->
  exists j y, next_child q h = Some j /\ j / 2 = h /\ h < j /\
    L !! (j - 1) = Some y /\
    (forall c z, c / 2 = h -> c <> j -> L !! (c - 1) = Some z -> ord q0 y z).
Proof.
  intros Hsc Hh Hn Hle Hrep. unfold next_child.
  destruct (lookup_lt_is_Some_2 L (h + h - 1)) as [l Hl]; [dlia|].
  case_if.
  - destruct (lookup_lt_is_Some_2 L (h + h + 1 - 1)) as [r Hr]; [dlia|].
    rewrite (rep_cell _ _ _ Hrep (h + h) l) by (done || dlia). simpl.
    rewrite (rep_cell _ _ _ Hrep (h + h + 1) r) by (done || dlia). simpl.
    rewrite (cmp_same _ _ _ _ Hsc).
    pose proof (cmp_anti (cmp := cmp q0) r l).
    case_if.
    + exists (h + h + 1), r. split_and!; try done; try dlia.
      intros c z ?? Hz. replace (c - 1) with (h + h - 1) in Hz by dlia.
      assert (z = l) as -> by congruence. unfold ord. lia.
    + exists (h + h), l. split_and!; try done; try dlia.
      intros c z ?? Hz. replace (c - 1) with (h + h + 1 - 1) in Hz by dlia.
      assert (z = r) as -> by congruence. unfold ord. lia.
  - exists (h + h), l. split_and!; try done; try dlia.
    intros c z ?? Hz. apply lookup_lt_Some in Hz. dlia.
Qed.

Lemma no_children_up k L h e :
  down_ok (ord q0) k L h -> L !! (h - 1) = Some e -> length L / 2 < h ->
  up_ok (ord q0) k L h.
Proof.
  intros Hd He Hlt. eapply down_ok_up; [done..|].
  intros c y ?? Hy. apply lookup_lt_Some in Hy. dlia.
Qed.

Lemma queue_replace_loop_ok fuel q L h e first :
  same_config q0 q -> elements q = length L -> length L < fuel + h -> 0 < h ->
  rep q L h -> L !! (h - 1) = Some e -> down_ok (ord q0) 1 L h ->
  exists q' L' h', queue_replace_loop fuel q e h first = Some (q', h') /\
    same_config q0 q' /\ rep q' L' h' /\ 0 < h' /\ L' !! (h' - 1) = Some e /\
    L' ≡ₚ L /\ up_ok (ord q0) 1 L' h'.
Proof.
  revert q L h first.
  induction fuel as [|fuel IH]; intros q L h first Hsc Hn Hf Hh Hrep He Hd.
  { apply lookup_lt_Some in He. lia. }
  simpl. case_if.
  2: { exists q, L, h. split_and!; eauto using no_children_up with lia. }
  destruct (next_child_ok q L h) as (j & y & Hj & Hjh & Hlt & Hy & Hmin); [done..|].
  rewrite Hj; simpl.
  destruct (move_hole q L h j e y) as (Hrd & q1 & Hwr & Hsc1 & Hrep1);
    [done|done|lia|lia|done|done|].
  rewrite Hrd; simpl. destruct (first && (0 <=? cmp q y e)%Z) eqn:Hstop.
  - breflect. rewrite (cmp_same _ _ _ _ Hsc) in *.
    destruct (fill_hole q L h e) as (q2 & Hwr2 & Hsc2 & Hrep2); [done..|].
    rewrite Hwr2; simpl. eexists _, L, h. split; [done|].
    split_and!; eauto using same_config_trans, rep_open.
    eapply down_ok_up; [done..|]. intros c z ?? Hz. unfold ord.
    pose proof (cmp_anti (cmp := cmp q0) y e).
    assert (cmp q0 e y <= 0)%Z by (pose proof (cmp_anti (cmp := cmp q0) e y); lia).
    destruct (decide (c = j)) as [->|]; [by simplify_eq|].
    eapply cmp_trans; [done|]. by eapply Hmin.
  - rewrite Hwr; simpl.
    destruct (IH (store_pos q1 y h) (list_swap L (h - 1) (j - 1)) j false)
      as (q' & L' & h' & E & ? & ? & ? & ? & Hperm & ?).
    + eauto using same_config_trans.
    + rewrite length_list_swap. by rewrite (sc_elements _ _ Hsc1).
    + rewrite length_list_swap. lia.
    + lia.
    + done.
    + rewrite (lookup_list_swap _ _ _ _ e y) by done.
      rewrite decide_False, decide_True by lia. done.
    + eapply down_ok_swap; try done.
    + exists q', L', h'. split_and!; try done. rewrite Hperm. by eapply list_swap_perm.
Qed.

Lemma queue_replace_ok q L h e :
  same_config q0 q -> elements q = length L -> 0 < h ->
  rep q L h -> L !! (h - 1) = Some e -> rd q h = Some e ->
  down_ok (ord q0) 1 L h ->
  exists q' L', queue_replace q h = Some q' /\ same_config q0 q' /\ rep q' L' 0 /\
    L' ≡ₚ L /\ heap_from (ord q0) 1 L'.
Proof.
  intros Hsc Hn Hh Hrep He Hrd Hd. unfold queue_replace. rewrite Hrd; cbn [mbind option_bind].
  destruct (queue_replace_loop_ok (S (elements q)) q L h e true)
    as (q' & L' & h' & E & ? & ? & ? & ? & Hperm & ?); [done|done|lia|done..|].
  rewrite E; simpl.
  destruct (insert_at_ok q' L' h' e) as (q2 & L2 & ? & ? & ? & Hp2 & ? & _); [done..|].
  exists q2, L2. split_and!; try done. by rewrite Hp2.
Qed.

Lemma downheap_loop_ok fuel k q L h e :
  same_config q0 q -> elements q = length L -> length L < fuel + h -> 1 <= k <= h ->
  rep q L h -> L !! (h - 1) = Some e -> down_ok (ord q0) k L h ->
  (forall y, k <= h / 2 -> L !! (h / 2 - 1) = Some y -> ord q0 y e) ->
  exists q' L' h', downheap_loop fuel q e h = Some (q', h') /\
    same_config q0 q' /\ rep q' L' h' /\ 0 < h' /\ L' !! (h' - 1) = Some e /\
    L' ≡ₚ L /\ heap_from (ord q0) k L'.
Proof.
  revert q L h.
  induction fuel as [|fuel IH]; intros q L h Hsc Hn Hf Hk Hrep He Hd Hpar.
  { apply lookup_lt_Some in He. lia. }
  assert (Hstop : up_ok (ord q0) k L h -> heap_from (ord q0) k L).
  { intros. eapply up_ok_done; [done|]. intros e' y ????.
    assert (e' = e) as -> by congruence. eauto. }
  simpl. case_if.
  2: { exists q, L, h. split_and!; try done; try lia.
       apply Hstop. eapply no_children_up; eauto; lia. }
  destruct (next_child_ok q L h) as (j & y & Hj & Hjh & Hlt & Hy & Hmin); [done|lia|done..|].
  rewrite Hj; simpl.
  destruct (move_hole q L h j e y) as (Hrd & q1 & Hwr & Hsc1 & Hrep1);
    [done|lia|lia|lia|done|done|].
  rewrite Hrd; simpl. rewrite (cmp_same _ _ _ _ Hsc). case_if.
  - exists q, L, h. split_and!; try done; try lia. apply Hstop.
    eapply down_ok_up; [done..|]. intros c z ?? Hz. unfold ord.
    assert (cmp q0 e y <= 0)%Z by (pose proof (cmp_anti (cmp := cmp q0) y e); lia).
    destruct (decide (c = j)) as [->|]; [by simplify_eq|].
    eapply cmp_trans; [done|]. by eapply Hmin.
  - rewrite Hwr; simpl.
    destruct (IH (store_pos q1 y h) (list_swap L (h - 1) (j - 1)) j)
      as (q' & L' & h' & E & ? & ? & ? & ? & Hperm & ?).
    + eauto using same_config_trans.
    + rewrite length_list_swap. by rewrite (sc_elements _ _ Hsc1).
    + rewrite length_list_swap. lia.
    + lia.
    + done.
    + rewrite (lookup_list_swap _ _ _ _ e y) by done.
      rewrite decide_False, decide_True by lia. done.
    + eapply down_ok_swap; try done.
    + intros z _. rewrite Hjh. rewrite (lookup_list_swap _ _ _ _ e y) by done.
      rewrite decide_True by done. intros [= <-]. unfold ord. lia.
    + exists q', L', h'. split_and!; try done. rewrite Hperm. by eapply list_swap_perm.
Qed.

Lemma downheap_ok k q L e :
  same_config q0 q -> elements q = length L -> 1 <= k ->
  rep q L k -> L !! (k - 1) = Some e -> rd q k = Some e -> down_ok (ord q0) k L k ->
  exists q' L', downheap q k = Some q' /\ same_config q0 q' /\ rep q' L' 0 /\
    L' ≡ₚ L /\ heap_from (ord q0) k L'.
Proof.
  intros Hsc Hn Hk Hrep He Hrd Hd. unfold downheap. rewrite Hrd; cbn [mbind option_bind].
  destruct (downheap_loop_ok (S (elements q)) k q L k e)
    as (q' & L' & h' & E & ? & ? & ? & ? & Hperm & ?); [done|done|lia|done..|dlia|].
  rewrite E; simpl.
  destruct (fill_hole q' L' h' e) as (q2 & Hwr & Hsc2 & Hrep2); [done..|].
  rewrite Hwr; simpl. eexists _, L'. split; [done|].
  split_and!; eauto using same_config_trans.
Qed.

Lemma queue_fix_loop_ok i q L :
  same_config q0 q -> elements q = length L -> i <= length L ->
  rep q L 0 -> heap_from (ord q0) (S i) L ->
  exists q' L', queue_fix_loop q i = Some q' /\ same_config q0 q' /\ rep q' L' 0 /\
    L' ≡ₚ L /\ heap_from (ord q0) 1 L'.
Proof.
  revert q L. induction i as [|i IH]; intros q L Hsc Hn Hi Hrep Hheap.
  { exists q, L. by split_and!. }
  destruct (lookup_lt_is_Some_2 L (S i - 1)) as [e He]; [lia|].
  destruct (downheap_ok (S i) q L e) as (q1 & L1 & E & Hsc1 & Hrep1 & Hp1 & Hh1);
    [done|done|lia|by apply rep_open|done| | |].
  { eapply rep_cell; eauto; lia. }
  { split; intros; [eapply Hheap; eauto; lia|dlia]. }
  simpl. rewrite E; simpl.
  destruct (IH q1 L1) as (q2 & L2 & ? & ? & ? & Hp2 & ?); try done.
  - apply Permutation_length in Hp1. rewrite Hp1, <- Hn.
    by rewrite (sc_elements _ _ Hsc1), (sc_elements _ _ Hsc).
  - apply Permutation_length in Hp1. lia.
  - exists q2, L2. split_and!; try done. by rewrite Hp2.
Qed.
End ordered.

(** ** The operations on a well-formed queue *)

(** The product does not overflow. *)
Lemma cmp_exact q x y : IntOrder (compare q) -> max_at_top q = 1%Z \/ max_at_top q = (-1)%Z ->
  cmp q x y = (compare q x y * max_at_top q)%Z.
Proof.
  intros Ho Ht. unfold cmp. pose proof (io_int x y) as Hi. rewrite Z.mod_small; [lia|].
  destruct Ht as [-> | ->]; lia.
Qed.

Lemma cmp_order q L :
  IntOrder (compare q) -> queue_inv q L -> CmpOrder (cmp q).
Proof.
  intros Ho Hq. pose proof (qi_top _ _ Hq) as Ht.
  split; intros x y; [|intros z]; rewrite !cmp_exact by done; destruct Ht as [Ht|Ht]; rewrite Ht;
    pose proof (cmp_anti (cmp := compare q) x y);
    pose proof (cmp_anti (cmp := compare q) y x); [lia..| |].
  all: pose proof (cmp_trans (cmp := compare q) x y z);
    pose proof (cmp_trans (cmp := compare q) z y x);
    pose proof (cmp_anti (cmp := compare q) x z);
    pose proof (cmp_anti (cmp := compare q) z x);
    pose proof (cmp_anti (cmp := compare q) y z);
    pose proof (cmp_anti (cmp := compare q) z y); lia.
Qed.

Lemma heap_top_min q L t i y :
  CmpOrder (cmp q) -> heap_from (ord q) 1 L -> L !! 0 = Some t ->
  L !! i = Some y -> ord q t y.
Proof.
  intros Ho Hheap Ht. revert y. induction i as [i IH] using lt_wf_ind. intros y Hy.
  destruct (decide (i = 0)) as [->|].
  { simplify_eq. unfold ord. by rewrite (cmp_refl (cmp q)). }
  destruct (lookup_lt_is_Some_2 L (S i / 2 - 1)) as [z Hz].
  { apply lookup_lt_Some in Hy. dlia. }
  apply (ord_trans q q _ z); [apply same_config_refl| |].
  - eapply (IH (S i / 2 - 1)); [dlia|done].
  - eapply (Hheap (S i)); eauto; [lia|dlia|]. by replace (S i - 1) with i by lia.
Qed.

(** [elements] alone changes: the representation is the same. *)
Lemma rep_set_elements q L h n : rep q L h -> rep (set_elements q n) L h.
Proof. intros []. by constructor. Qed.

Lemma queue_inv_intro q q' L L' :
  same_config q q' -> rep q' L' 0 -> L' ≡ₚ L -> heap_from (ord q) 1 L' ->
  length (root q) = S (max_elements q) -> elements q = length L ->
  (max_at_top q = 1 \/ max_at_top q = -1)%Z -> queue_inv q' L'.
Proof.
  intros Hsc Hrep Hperm Hheap Hlen Hn Htop.
  pose proof (Permutation_length Hperm). pose proof (rep_fit _ _ _ Hrep).
  constructor; [..|done|by rewrite (ord_same _ _ Hsc)].
  - by rewrite (sc_len _ _ Hsc), (sc_max _ _ Hsc).
  - rewrite (sc_elements _ _ Hsc). lia.
  - rewrite (sc_len _ _ Hsc) in *. rewrite (sc_max _ _ Hsc). lia.
  - by rewrite (sc_top _ _ Hsc).
Qed.

Lemma up_ok_snoc q L x :
  heap_from (ord q) 1 L -> up_ok (ord q) 1 (L ++ [x]) (S (length L)).
Proof.
  intros Hheap. split.
  - intros i u v Hi Hk Hne Hu Hv.
    assert (i - 1 < length L).
    { apply lookup_lt_Some in Hv. rewrite length_app in Hv. simpl in Hv. lia. }
    rewrite lookup_app_l in Hv by done. rewrite lookup_app_l in Hu by dlia. eauto.
  - intros c u v ?? Hc ? Hv. apply lookup_lt_Some in Hv.
    rewrite length_app in Hv. simpl in Hv. dlia.
Qed.

Lemma rep_snoc q L x :
  rep q L 0 -> S (length L) < length (root q) ->
  (offset_to_queue_pos q <> 0 -> x ∉ L) -> rep q (L ++ [x]) (S (length L)).
Proof.
  intros [? Hnd Hc Hp] Hlen Hx.
  assert (Hin : forall i y, i <> S (length L) -> 0 < i ->
            (L ++ [x]) !! (i - 1) = Some y -> L !! (i - 1) = Some y).
  { intros i y ?? Hy. rewrite lookup_app_l in Hy; [done|].
    apply lookup_lt_Some in Hy. rewrite length_app in Hy. simpl in Hy. lia. }
  constructor.
  - rewrite length_app. simpl. lia.
  - intros Ho. apply NoDup_app. split_and!; [by auto| |apply NoDup_singleton].
    intros y Hy ->%list_elem_of_singleton. by apply (Hx Ho).
  - intros i y ???. apply Hc; auto. lia.
  - intros i y ????. apply Hp; auto. lia.
Qed.

Lemma queue_insert_ok q L x :
  IntOrder (compare q) -> queue_inv q L -> elements q < max_elements q ->
  (offset_to_queue_pos q <> 0 -> x ∉ L) ->
  exists q' L', queue_insert q x = Some q' /\ same_setup q q' /\
    queue_inv q' L' /\ L' ≡ₚ x :: L.
Proof.
  intros Ho Hq Hroom Hx. pose proof (cmp_order q L Ho Hq) as Ho'.
  destruct Hq as [Hsize Hn Hfit Htop Hrep Hheap].
  unfold queue_insert. set (q1 := set_elements q (S (elements q))).
  assert (Hne : elements q1 = S (length L)) by (simpl; lia).
  destruct (insert_at_ok q1 q1 (L ++ [x]) (elements q1) x)
    as (q' & L' & E & Hsc & Hrep' & Hperm & Hh & _).
  - apply same_config_refl.
  - lia.
  - rewrite Hne. apply rep_snoc; [by apply rep_set_elements|simpl; lia|done].
  - rewrite Hne. replace (S (length L) - 1) with (length L) by lia.
    by rewrite lookup_app_r, Nat.sub_diag by lia.
  - rewrite Hne. by apply up_ok_snoc.
  - exists q', L'. split; [done|]. split; [by apply same_config_setup in Hsc|].
    split; [|by rewrite Hperm, Permutation_app_comm].
    eapply (queue_inv_intro q1 q' (L ++ [x])); try done.
    rewrite length_app. simpl. lia.
Qed.

(** Overwriting cell [h] leaves a representation with a hole at [h]. *)
Lemma write_rep q L h x :
  rep q L 0 -> 0 < h <= length L ->
  (offset_to_queue_pos q <> 0 -> NoDup (<[h - 1 := x]> L)) ->
  exists q1, wr q h x = Some q1 /\ same_config q q1 /\
    rep q1 (<[h - 1 := x]> L) h /\ rd q1 h = Some x.
Proof.
  intros [Hfit Hnd Hc Hp] Hh Hnd'.
  unfold wr. rewrite (proj2 (Nat.ltb_lt _ _)) by lia.
  eexists. split; [done|].
  assert (Hother : forall i y, i <> h -> 0 < i ->
    <[h - 1:=x]> L !! (i - 1) = Some y -> L !! (i - 1) = Some y).
  { intros i y ??. by rewrite list_lookup_insert_ne by lia. }
  split; [|split; [constructor|]]; simpl.
  - constructor; simpl; rewrite ?length_insert; done.
  - by rewrite !length_insert.
  - done.
  - intros i y ???. unfold rd; simpl. rewrite list_lookup_insert_ne by done.
    apply Hc; auto. lia.
  - intros i y ????. apply Hp; auto. lia.
  - unfold rd; simpl. by rewrite list_lookup_insert_eq by lia.
Qed.

Lemma rep_take q L h n : rep q L h -> rep q (take n L) h.
Proof.
  intros [Hfit Hnd Hc Hp].
  assert (Hin : forall i x, take n L !! i = Some x -> L !! i = Some x).
  { intros i x [? _]%lookup_take_Some. done. }
  constructor.
  - rewrite length_take. lia.
  - intros Ho. by apply NoDup_take, Hnd.
  - intros i x ???. apply Hc; auto.
  - intros i x ????. apply Hp; auto.
Qed.

Lemma heap_from_take q k L n : heap_from (ord q) k L -> heap_from (ord q) k (take n L).
Proof.
  intros Hh i x y ?? [Hx _]%lookup_take_Some [Hy _]%lookup_take_Some. eauto.
Qed.

(** [queue_remove] of the last array cell. *)
Lemma queue_remove_last q L e :
  CmpOrder (cmp q) -> queue_inv q L -> 0 < length L -> L !! (length L - 1) = Some e ->
  exists q', queue_remove q (length L) = Some (e, q') /\ same_setup q q' /\
    queue_inv q' (take (length L - 1) L).
Proof.
  intros Ho [Hsize Hn Hfit Htop Hrep Hheap] Hpos He.
  unfold queue_remove.
  rewrite Hn, (rep_cell _ _ _ Hrep (length L) e) by (done || lia). simpl.
  destruct (write_rep q L (length L) e) as (q1 & Hwr & Hsc & Hrep1 & Hrd); [done|lia| |].
  { rewrite list_insert_id by done. apply Hrep. }
  rewrite list_insert_id in Hrep1 by done. rewrite Hwr; cbn [mbind option_bind].
  set (q2 := set_elements q1 (elements q1 - 1)).
  assert (Ho2 : CmpOrder (cmp q2)).
  { unfold q2, cmp; simpl. by rewrite (sc_cmp _ _ Hsc), (sc_top _ _ Hsc). }
  destruct (insert_at_stay q2 q2 L (length L) e) as (q3 & E3 & Hsc3 & Hrep3).
  - apply same_config_refl.
  - lia.
  - by apply rep_set_elements.
  - done.
  - intros y ? Hy. unfold q2, ord, cmp; simpl. rewrite (sc_cmp _ _ Hsc), (sc_top _ _ Hsc).
    apply (Hheap (length L) y e); [done|dlia|done|done].
  - exists q3. unfold queue_replace. change (rd q2 (length L)) with (rd q1 (length L)).
    rewrite Hrd; cbn [mbind option_bind].
    assert (Hel : elements q2 = length L - 1).
    { unfold q2; simpl. rewrite (sc_elements _ _ Hsc). lia. }
    assert (Hloop : queue_replace_loop (S (elements q2)) q2 e (length L) true
                    = Some (q2, length L)).
    { cbn [queue_replace_loop]. rewrite Hel. rewrite (proj2 (Nat.leb_gt _ _)) by dlia. done. }
    rewrite Hloop; simpl. rewrite E3; simpl. split; [done|].
    split; [exact (same_setup_trans q q1 q3 (same_config_setup _ _ Hsc) (same_config_setup _ _ Hsc3))|].
    eapply (queue_inv_intro q2 q3 (take (length L - 1) L)); try done.
    + by apply rep_take.
    + unfold q2. intros i x y ?? Hx Hy. unfold ord, cmp; simpl.
      rewrite (sc_cmp _ _ Hsc), (sc_top _ _ Hsc).
      eapply (heap_from_take q 1 L (length L - 1)); eauto.
    + unfold q2; simpl. by rewrite (sc_len _ _ Hsc), (sc_max _ _ Hsc).
    + rewrite length_take. lia.
    + unfold q2; simpl. by rewrite (sc_top _ _ Hsc).
Qed.

(** [queue_remove] of an inner cell: the last element takes its place. *)
Lemma queue_remove_inner q L idx e :
  CmpOrder (cmp q) -> queue_inv q L -> 0 < idx < length L ->
  L !! (idx - 1) = Some e ->
  exists q' L', queue_remove q idx = Some (e, q') /\ same_setup q q' /\
    queue_inv q' L' /\ L ≡ₚ e :: L'.
Proof.
  intros Ho [Hsize Hn Hfit Htop Hrep Hheap] Hidx He.
  destruct (lookup_lt_is_Some_2 L (length L - 1)) as [z Hz]; [lia|].
  set (L0 := take (length L - 1) L).
  assert (HL0 : L = L0 ++ [z]) by (by apply take_last).
  assert (HlenL0 : length L0 = length L - 1) by (unfold L0; rewrite length_take; lia).
  assert (He0 : L0 !! (idx - 1) = Some e).
  { rewrite HL0, lookup_app_l in He by lia. done. }
  pose proof (insert_last_perm L0 (idx - 1) e z He0) as Hperm0. rewrite <- HL0 in Hperm0.
  unfold queue_remove.
  rewrite (rep_cell _ _ _ Hrep idx e) by (done || lia). simpl.
  rewrite Hn, (rep_cell _ _ _ Hrep (length L) z) by (done || lia). simpl.
  destruct (write_rep q L0 idx z) as (q1 & Hwr & Hsc & Hrep1 & Hrd); [by apply rep_take|lia| |].
  { intros Hoff. pose proof (rep_nodup _ _ _ Hrep Hoff) as Hnd.
    rewrite Hperm0 in Hnd. by apply NoDup_cons in Hnd as [_ ?]. }
  rewrite Hwr; cbn [mbind option_bind].
  set (q2 := set_elements q1 (elements q1 - 1)).
  assert (Ho2 : CmpOrder (cmp q2)).
  { unfold q2, cmp; simpl. by rewrite (sc_cmp _ _ Hsc), (sc_top _ _ Hsc). }
  assert (Hord : ord q2 = ord q).
  { unfold q2, ord, cmp; simpl. by rewrite (sc_cmp _ _ Hsc), (sc_top _ _ Hsc). }
  destruct (queue_replace_ok q2 q2 (<[idx - 1:=z]> L0) idx z)
    as (q3 & L3 & E3 & Hsc3 & Hrep3 & Hperm3 & Hheap3).
  - apply same_config_refl.
  - unfold q2; simpl. rewrite (sc_elements _ _ Hsc), length_insert. lia.
  - lia.
  - by apply rep_set_elements.
  - apply list_lookup_insert_eq. lia.
  - done.
  - rewrite Hord. apply heap_insert_down; [|lia|lia|by apply heap_from_take].
    intros. eapply (ord_trans q); eauto using same_config_refl.
  - rewrite E3; simpl. exists q3, L3. split; [done|].
    split; [exact (same_setup_trans q q1 q3 (same_config_setup _ _ Hsc) (same_config_setup _ _ Hsc3))|]. split; [|by rewrite Hperm3].
    eapply (queue_inv_intro q2 q3 _ L3); try done.
    + unfold q2; simpl. by rewrite (sc_len _ _ Hsc), (sc_max _ _ Hsc).
    + unfold q2; simpl. rewrite (sc_elements _ _ Hsc), length_insert. lia.
    + unfold q2; simpl. by rewrite (sc_top _ _ Hsc).
Qed.

(** [queue_remove] of any cell returns that cell's element, stays inside the
    array, and leaves a well-formed queue of exactly the other elements. *)
Lemma queue_remove_ok q L idx e :
  IntOrder (compare q) -> queue_inv q L -> 0 < idx -> L !! (idx - 1) = Some e ->
  exists q' L', queue_remove q idx = Some (e, q') /\ same_setup q q' /\
    queue_inv q' L' /\ L ≡ₚ e :: L'.
Proof.
  intros Ho Hq Hidx He. pose proof (cmp_order q L Ho Hq) as Ho'.
  pose proof (lookup_lt_Some _ _ _ He).
  destruct (decide (idx = length L)) as [->|].
  - destruct (queue_remove_last q L e) as (q' & E & Hst & Hq'); [done..|].
    exists q', (take (length L - 1) L). split_and!; [done..|].
    rewrite (take_last L e He) at 1. by rewrite Permutation_app_comm.
  - apply queue_remove_inner; [done..|lia|done].
Qed.

Lemma remove_top_ok q L :
  IntOrder (compare q) -> queue_inv q L -> L <> [] ->
  exists e q' L', queue_top q = Some e /\ queue_remove_top q = Some (e, q') /\
    same_setup q q' /\ queue_inv q' L' /\ L ≡ₚ e :: L' /\
    forall x, x ∈ L -> ord q e x.
Proof.
  intros Ho Hq Hne. destruct L as [|e L0] eqn:EL; [done|]. rewrite <- EL in *.
  assert (Htop : L !! 0 = Some e) by (by rewrite EL).
  destruct (queue_remove_ok q L 1 e) as (q' & L' & E & Hst & Hq' & Hp); [done|done|lia|done|].
  exists e, q', L'. split_and!; try done.
  - unfold queue_top. eapply rep_cell; [apply Hq|lia|lia|done].
  - intros x [i Hi]%list_elem_of_lookup.
    eapply heap_top_min; eauto using cmp_order. apply Hq.
Qed.

(** an element of a queue that stores positions can be removed through its
    stored position. *)
Theorem queue_remove_stored_position q L x :
  IntOrder (compare q) -> queue_inv q L -> offset_to_queue_pos q <> 0 -> x ∈ L ->
  exists i q' L', pos q !! x = Some i /\ queue_remove q i = Some (x, q') /\
    same_setup q q' /\ queue_inv q' L' /\ L ≡ₚ x :: L'.
Proof.
  intros Ho Hq Hoff [i Hi]%list_elem_of_lookup.
  destruct (queue_remove_ok q L (S i) x) as (q' & L' & E & Hst & Hq' & Hp); [done|done|lia| |].
  { by replace (S i - 1) with i by lia. }
  exists (S i), q', L'. split_and!; try done.
  eapply rep_pos; [apply Hq|lia|lia| |done]. by replace (S i - 1) with i by lia.
Qed.

(** [queue_replace] restores the queue after the element of one cell was
    exchanged for another. *)
Theorem queue_replace_correct q L idx x :
  IntOrder (compare q) -> queue_inv q L -> 0 < idx <= length L ->
  (offset_to_queue_pos q <> 0 -> NoDup (<[idx - 1 := x]> L)) ->
  exists q1 q' L', wr q idx x = Some q1 /\ queue_replace q1 idx = Some q' /\
    same_setup q q' /\ queue_inv q' L' /\ L' ≡ₚ <[idx - 1 := x]> L.
Proof.
  intros Ho Hq Hidx Hnd. pose proof (cmp_order q L Ho Hq) as Ho'.
  destruct Hq as [Hsize Hn Hfit Htop Hrep Hheap].
  destruct (write_rep q L idx x) as (q1 & Hwr & Hsc & Hrep1 & Hrd); [done..|].
  destruct (queue_replace_ok q q1 (<[idx - 1 := x]> L) idx x)
    as (q3 & L3 & E3 & Hsc3 & Hrep3 & Hperm3 & Hheap3); try done.
  - rewrite length_insert. by rewrite (sc_elements _ _ Hsc).
  - lia.
  - apply list_lookup_insert_eq. lia.
  - apply heap_insert_down; [|lia|lia|done].
    intros. eapply (ord_trans q); eauto using same_config_refl.
  - exists q1, q3, L3. split_and!; try done; [by apply same_config_setup|].
    eapply (queue_inv_intro q q3 (<[idx - 1 := x]> L)); try done.
    by rewrite length_insert.
Qed.

(** [queue_replace_top] restores the queue after its top element was
    exchanged for another. *)
Theorem queue_replace_top_correct q L x :
  IntOrder (compare q) -> queue_inv q L -> L <> [] ->
  (offset_to_queue_pos q <> 0 -> NoDup (<[0 := x]> L)) ->
  exists q1 q' L', wr q 1 x = Some q1 /\ queue_replace_top q1 = Some q' /\
    same_setup q q' /\ queue_inv q' L' /\ L' ≡ₚ <[0 := x]> L.
Proof.
  intros Ho Hq Hne Hnd. pose proof (cmp_order q L Ho Hq) as Ho'.
  assert (Hlen : 0 < length L) by (destruct L; simpl; [done|lia]).
  destruct Hq as [Hsize Hn Hfit Htop Hrep Hheap].
  destruct (write_rep q L 1 x) as (q1 & Hwr & Hsc & Hrep1 & Hrd); [done|lia|done|].
  simpl in Hrep1. unfold queue_replace_top.
  destruct (downheap_ok q 1 q1 (<[0 := x]> L) x)
    as (q3 & L3 & E3 & Hsc3 & Hrep3 & Hperm3 & Hheap3); try done.
  - rewrite length_insert. by rewrite (sc_elements _ _ Hsc).
  - by apply list_lookup_insert_eq.
  - apply (heap_insert_down _) with (h := 1); [|lia|lia|done].
    intros. eapply (ord_trans q); eauto using same_config_refl.
  - exists q1, q3, L3. split_and!; try done; [by apply same_config_setup|].
    eapply (queue_inv_intro q q3 (<[0 := x]> L)); try done.
    by rewrite length_insert.
Qed.

(** [queue_fix] turns an array of elements in any order into a well-formed
    queue of the same elements. *)
Theorem queue_fix_correct q L :
  CmpOrder (cmp q) -> length (root q) = S (max_elements q) -> elements q = length L ->
  (max_at_top q = 1 \/ max_at_top q = -1)%Z -> rep q L 0 ->
  exists q' L', queue_fix q = Some q' /\ same_setup q q' /\
    queue_inv q' L' /\ L' ≡ₚ L.
Proof.
  intros Ho Hsize Hn Htop Hrep.
  destruct (queue_fix_loop_ok q (elements q / 2) q L)
    as (q' & L' & E & Hsc & Hrep' & Hperm & Hheap);
    [apply same_config_refl|done|dlia|done| |].
  { intros i x y ??? Hy%lookup_lt_Some. dlia. }
  exists q', L'. split_and!; try done; [by apply same_config_setup|].
  by eapply (queue_inv_intro q q' L L').
Qed.

Lemma wrap32_small n : (Z.of_nat n < 2 ^ 32)%Z -> wrap32 n = n.
Proof. intros. unfold wrap32. rewrite u32_small by lia. lia. Qed.

Lemma rd_realloc q n i :
  i < n -> i < length (root q) -> rd (set_root q (realloc_root (root q) n)) i = rd q i.
Proof.
  intros. unfold rd, realloc_root; simpl.
  rewrite lookup_app_l by (rewrite length_take; lia). by rewrite lookup_take_lt.
Qed.

(** The new allocation holds the cells of the first [max] elements. *)
Lemma resize_queue_ok q L max :
  queue_inv q L -> (Z.of_nat max + 1 < 2 ^ 32)%Z ->
  exists q', resize_queue true q max = (0%Z, q') /\ queue_inv q' (take max L) /\
    max_elements q' = max /\ offset_to_queue_pos q' = offset_to_queue_pos q /\
    auto_extent q' = auto_extent q /\ max_at_top q' = max_at_top q /\
    compare q' = compare q.
Proof.
  intros [Hsize Hn Hfit Htop Hrep Hheap] Hmax. unfold resize_queue. case_if.
  { subst. exists q. rewrite take_ge by lia. done. }
  rewrite wrap32_small by lia. eexists. split; [done|].
  split; [|done].
  assert (Hlen : length (realloc_root (root q) (max + 1)) = S max).
  { unfold realloc_root. rewrite length_app, length_take, length_replicate. lia. }
  pose proof (rep_take _ _ _ max Hrep) as [Hf Hnd Hc Hp].
  constructor; simpl; try done.
  - rewrite length_take. lia.
  - rewrite length_take. lia.
  - constructor; simpl; try done.
    + rewrite length_take. lia.
    + intros j x ?? Hx.
      assert (0 < j <= max /\ j <= length L).
      { apply lookup_take_Some in Hx as [Hx ?]. apply lookup_lt_Some in Hx. lia. }
      etransitivity; [apply (rd_realloc q (max + 1) j); lia|]. by apply Hc.
  - by apply heap_from_take.
Qed.

(** [resize_queue] keeps the first [max] elements as a well-formed queue and
    drops the others; a failed allocation changes nothing. *)
Theorem resize_queue_correct q L max (ok : bool) :
  queue_inv q L -> (Z.of_nat max + 1 < 2 ^ 32)%Z ->
  exists q', max_elements q' = (if ok then max else max_elements q) /\ ord q' = ord q /\
    resize_queue ok q max =
      (if ok || (max_elements q =? max) then 0%Z else 1%Z, q') /\
    queue_inv q' (if ok then take max L else L).
Proof.
  intros Hq Hmax. destruct ok; simpl.
  - destruct (resize_queue_ok q L max) as (q' & ? & ? & ? & _ & _ & Ht & Hc); [done..|].
    exists q'. split_and!; try done. unfold ord, cmp. by rewrite Ht, Hc.
  - exists q. unfold resize_queue. destruct (max_elements q =? max); done.
Qed.

(** [queue_insert_safe] inserts, extending a full queue when it may; it
    returns 2 for a full queue without extent and 1 when the extension cannot be
    allocated, and changes nothing in those cases. *)
Theorem queue_insert_safe_correct q L x (ok : bool) :
  IntOrder (compare q) -> queue_inv q L -> (offset_to_queue_pos q <> 0 -> x ∉ L) ->
  (Z.of_nat (max_elements q) + Z.of_nat (auto_extent q) + 1 < 2 ^ 32)%Z ->
  exists rc q', queue_insert_safe ok q x = Some (rc, q') /\
    match rc with
    | 0%Z => exists L', ord q' = ord q /\ queue_inv q' L' /\ L' ≡ₚ x :: L
    | 1%Z => q' = q /\ queue_is_full q = true /\ auto_extent q <> 0 /\ ok = false
    | _ => rc = 2%Z /\ q' = q /\ queue_is_full q = true /\ auto_extent q = 0
    end.
Proof.
  intros Ho Hq Hx Hmax. unfold queue_insert_safe, queue_is_full.
  destruct (elements q =? max_elements q) eqn:Hfull.
  - destruct (auto_extent q =? 0) eqn:Hext; breflect.
    { by exists 2%Z, q. }
    rewrite wrap32_small by lia. destruct ok.
    + destruct (resize_queue_ok q L (max_elements q + auto_extent q))
        as (q1 & E & Hq1 & Hm & Hoff & _ & Ht & Hc); [done|lia|].
      rewrite E; simpl. rewrite take_ge in Hq1 by (pose proof (qi_fit _ _ Hq); lia).
      destruct (queue_insert_ok q1 L x) as (q2 & L2 & E2 & Hst & Hq2 & Hp2).
      * by rewrite Hc.
      * done.
      * rewrite (qi_elements _ _ Hq1), Hm, <- (qi_elements _ _ Hq). lia.
      * by rewrite Hoff.
      * rewrite E2; simpl. exists 0%Z, q2. split; [done|]. exists L2.
        rewrite (same_setup_ord _ _ Hst). unfold ord, cmp. by rewrite Ht, Hc.
    + unfold resize_queue. rewrite (proj2 (Nat.eqb_neq _ _)) by lia. simpl.
      by exists 1%Z, q.
  - breflect. destruct (queue_insert_ok q L x) as (q2 & L2 & E2 & Hst & Hq2 & Hp2); try done.
    + pose proof (qi_fit _ _ Hq). pose proof (qi_elements _ _ Hq). lia.
    + rewrite E2; simpl. exists 0%Z, q2. split; [done|]. exists L2.
      by rewrite (same_setup_ord _ _ Hst).
Qed.

(** A client that empties the queue from the top, as a merge does. *)
Fixpoint drain (fuel : nat) (q : QUEUE) : option (list A) :=
  if elements q =? 0 then Some []
  else match fuel with
  | 0 => None
  | S fuel =>
      '(e, q) ← queue_remove_top q;
      out ← drain fuel q;
      Some (e :: out)
  end.

(** Removing the top until the queue is empty yields its elements in order. *)
Lemma drain_ok q L :
  IntOrder (compare q) -> queue_inv q L ->
  exists out, drain (length L) q = Some out /\ out ≡ₚ L /\ StronglySorted (ord q) out.
Proof.
  remember (length L) as n eqn:Hlen. revert q L Hlen.
  induction n as [|n IH]; intros q L Hlen Ho Hq.
  - exists []. destruct L; [|done]. simpl. rewrite (qi_elements _ _ Hq). simpl.
    split_and!; [done..|constructor].
  - destruct (remove_top_ok q L) as (e & q' & L' & _ & E & Hst & Hq' & Hp & Hmin);
      [done..|by intros ->|].
    cbn [drain]. rewrite (qi_elements _ _ Hq), <- Hlen. simpl. rewrite E; simpl.
    destruct (IH q' L') as (out & Eo & Hpo & Hs).
    + apply Permutation_length in Hp. simpl in Hp. lia.
    + by destruct Hst as (_ & _ & _ & _ & ->).
    + done.
    + rewrite Eo; simpl. exists (e :: out). split_and!; [done|by rewrite Hpo|].
      constructor.
      * by rewrite (same_setup_ord _ _ Hst) in Hs.
      * apply Forall_forall. intros x Hx. apply Hmin. rewrite Hp, <- Hpo. by apply list_elem_of_further.
Qed.

Lemma init_queue_ok max top cmpf off ext p :
  (Z.of_nat max + 1 < 2 ^ 32)%Z ->
  exists q, init_queue true max top cmpf off ext p = Some q /\ queue_inv q [] /\
    max_elements q = max /\ offset_to_queue_pos q = off /\ compare q = cmpf /\
    max_at_top q = queue_set_max_at_top top.
Proof.
  intros Hmax. unfold init_queue. rewrite wrap32_small by lia.
  eexists. split; [done|]. split; [|done].
  constructor; simpl; try done; try lia.
  - rewrite length_replicate. lia.
  - destruct top; auto.
  - constructor; simpl; try done; [|constructor].
    rewrite length_replicate. lia.
Qed.

(** Inserting a list of elements one by one. *)
Definition insert_all (q : QUEUE) (xs : list A) : option QUEUE :=
  foldl (fun oq x => q ← oq; queue_insert q x) (Some q) xs.

Lemma insert_all_ok xs q L :
  IntOrder (compare q) -> queue_inv q L -> length L + length xs <= max_elements q ->
  (offset_to_queue_pos q <> 0 -> NoDup (xs ++ L)) ->
  exists q' L', insert_all q xs = Some q' /\ same_setup q q' /\
    queue_inv q' L' /\ L' ≡ₚ xs ++ L.
Proof.
  revert q L. induction xs as [|x xs IH]; intros q L Ho Hq Hfit Hnd; simpl in *.
  { exists q, L. by split_and!. }
  unfold insert_all; simpl. destruct (queue_insert_ok q L x) as (q1 & L1 & E & Hst & Hq1 & Hp1).
  - done.
  - done.
  - rewrite (qi_elements _ _ Hq). lia.
  - intros Hoff. specialize (Hnd Hoff). apply NoDup_cons in Hnd as [Hx _]. set_solver.
  - destruct (IH q1 L1) as (q2 & L2 & E2 & Hst2 & Hq2 & Hp2).
    + by destruct Hst as (_ & _ & _ & _ & ->).
    + done.
    + rewrite (Permutation_length Hp1). destruct Hst as (-> & _). simpl. lia.
    + destruct Hst as (_ & -> & _). intros Hoff. specialize (Hnd Hoff).
      rewrite Hp1. by rewrite <- Permutation_middle.
    + exists q2, L2. rewrite E. split_and!; try done; [by eapply same_setup_trans|].
      rewrite Hp2, Hp1. by rewrite <- Permutation_middle.
Qed.

(** C35: a fresh queue, filled one element at a time and emptied from the top,
    sorts: every access stays inside the array, and the output is the sorted
    permutation of the input, ascending or (with [max_at_top]) descending.  The
    comparison callback returns an [int] other than [INT_MIN], so that its
    product with [max_at_top] is an [int]. *)
Theorem queue_sorts (xs : list A) (cmpf : A -> A -> Z) (top : bool) (off : nat) :
  IntOrder cmpf -> (Z.of_nat (length xs) + 1 < 2 ^ 32)%Z -> (off <> 0 -> NoDup xs) ->
  exists q0 q out,
    init_queue true (length xs) top cmpf off 0 ∅ = Some q0 /\
    insert_all q0 xs = Some q /\ drain (length xs) q = Some out /\ out ≡ₚ xs /\
    StronglySorted (fun x y => if top then 0 <= cmpf x y else cmpf x y <= 0)%Z out.
Proof.
  intros Ho Hlen Hnd.
  destruct (init_queue_ok (length xs) top cmpf off 0 ∅)
    as (q0 & E0 & Hq0 & Hm & Hoff & Hc & Ht); [done|].
  destruct (insert_all_ok xs q0 []) as (q & L & E & Hst & Hq & Hp).
  - by rewrite Hc.
  - done.
  - simpl. lia.
  - rewrite Hoff, app_nil_r. done.
  - rewrite app_nil_r in Hp. pose proof Hst as (_ & _ & _ & Ht' & Hc').
    destruct (drain_ok q L) as (out & Ed & Hpo & Hs); [by rewrite Hc', Hc|done|].
    exists q0, q, out. rewrite (Permutation_length Hp) in Ed. split_and!; try done.
    + by rewrite Hpo.
    + eapply StronglySorted_weaken; [|exact Hs]. intros x y. unfold ord.
      rewrite cmp_exact, Hc', Hc, Ht', Ht; [|by rewrite Hc', Hc|rewrite Ht', Ht]; destruct top; simpl; auto; lia.
Qed.

End queue.

(** ** Witnesses *)

Definition three_way (x y : Z) : Z := Z.sgn (x - y).

#[local] Instance three_way_order : IntOrder three_way.
Proof. split; [split|]; unfold three_way; lia. Qed.

(** A queue of the elements 1, 3 and 2 with room for a fourth. *)
Definition demo_queue : QUEUE (A := Z) :=
  mk_queue [None; Some 1; Some 3; Some 2; None]%Z 3 4 1 2 1
    three_way (<[1%Z := 1]> (<[3%Z := 2]> (<[2%Z := 3]> ∅))).

Lemma demo_queue_rep : rep demo_queue [1; 3; 2]%Z 0.
Proof.
  constructor; simpl.
  - lia.
  - intros _. concrete.
  - intros i x _ Hi Hx. pose proof (lookup_lt_Some _ _ _ Hx) as Hlt. simpl in Hlt.
    destruct i as [|[|[|[|]]]]; simplify_eq/=; done || lia.
  - intros i x _ Hi Hx. pose proof (lookup_lt_Some _ _ _ Hx) as Hlt. simpl in Hlt.
    destruct i as [|[|[|[|]]]]; simplify_eq/=; done || lia.
Qed.

Lemma demo_queue_inv : queue_inv demo_queue [1; 3; 2]%Z.
Proof.
  constructor; simpl; [done|done|lia|auto|apply demo_queue_rep|].
  intros i x y ? ? Hx Hy. pose proof (lookup_lt_Some _ _ _ Hy) as Hlt. simpl in Hlt.
  destruct i as [|[|[|[|]]]]; simplify_eq/=; by vm_compute || lia.
Qed.

Lemma queue_remove_stored_position_witness :
  exists i q' L', pos demo_queue !! 3%Z = Some i /\
    queue_remove demo_queue i = Some (3%Z, q') /\ same_setup demo_queue q' /\
    queue_inv q' L' /\ [1; 3; 2]%Z ≡ₚ 3%Z :: L'.
Proof.
  apply (queue_remove_stored_position demo_queue [1; 3; 2]%Z 3%Z).
  - apply three_way_order.
  - apply demo_queue_inv.
  - done.
  - concrete.
Defined.

Lemma queue_replace_witness :
  exists q1 q' L', wr demo_queue 1 9%Z = Some q1 /\ queue_replace q1 1 = Some q' /\
    same_setup demo_queue q' /\ queue_inv q' L' /\ L' ≡ₚ [9; 3; 2]%Z.
Proof.
  apply (queue_replace_correct demo_queue [1; 3; 2]%Z 1 9%Z).
  - apply three_way_order.
  - apply demo_queue_inv.
  - simpl. lia.
  - intros _. concrete.
Defined.

Lemma queue_fix_witness :
  exists q' L', queue_fix demo_queue = Some q' /\ same_setup demo_queue q' /\
    queue_inv q' L' /\ L' ≡ₚ [1; 3; 2]%Z.
Proof.
  apply (queue_fix_correct demo_queue [1; 3; 2]%Z).
  - eapply (cmp_order demo_queue); [apply three_way_order|apply demo_queue_inv].
  - done.
  - done.
  - by left.
  - apply demo_queue_rep.
Defined.

Lemma resize_queue_witness :
  exists q', max_elements q' = 2 /\ ord q' = ord demo_queue /\
    resize_queue true demo_queue 2 = (0%Z, q') /\ queue_inv q' [1; 3]%Z.
Proof.
  apply (resize_queue_correct demo_queue [1; 3; 2]%Z 2 true).
  - apply demo_queue_inv.
  - lia.
Defined.

Lemma queue_insert_safe_witness :
  exists rc q', queue_insert_safe true demo_queue 0%Z = Some (rc, q') /\
    match rc with
    | 0%Z => exists L', ord q' = ord demo_queue /\ queue_inv q' L' /\ L' ≡ₚ [0; 1; 3; 2]%Z
    | 1%Z => q' = demo_queue /\ queue_is_full demo_queue = true /\
        auto_extent demo_queue <> 0 /\ true = false
    | _ => rc = 2%Z /\ q' = demo_queue /\ queue_is_full demo_queue = true /\
        auto_extent demo_queue = 0
    end.
Proof.
  apply (queue_insert_safe_correct demo_queue [1; 3; 2]%Z 0%Z true).
  - apply three_way_order.
  - apply demo_queue_inv.
  - intros _. concrete.
  - simpl. lia.
Defined.

Lemma queue_sorts_witness :
  exists q0 q out,
    init_queue true 3 true three_way 1 0 ∅ = Some q0 /\
    insert_all q0 [5; 9; 7]%Z = Some q /\ drain 3 q = Some out /\
    out ≡ₚ [5; 9; 7]%Z /\ StronglySorted (fun x y => 0 <= three_way x y)%Z out.
Proof.
  apply (queue_sorts [5; 9; 7]%Z three_way true 1).
  - apply three_way_order.
  - simpl. lia.
  - intros _. concrete.
Defined.

End Queue.
