(* ===== verification/ThrLock.v ===== *)
(** * Table locks (mysys/thr_lock.c, include/thr_lock.h)

    One [THR_LOCK] with its four intrusive doubly-linked queues of
    [THR_LOCK_DATA], at the level of the pointers the C code manipulates: a
    [prev] field is the address of the pointer that points to the element (a
    queue head or the [next] field of another element) and a queue keeps the
    address of its last [next] field.  Every function runs under
    [lock->mutex], so a function between taking and releasing the mutex is one
    atomic step; a wait on the condition variable splits a function into the
    part before the wait and the part after it.

    The storage engine's callbacks are not part of this code: whether they are
    set is a field of the lock, what they return is an oracle argument [env] of
    the operations, and every call is recorded in [events], as are the signals
    sent to waiting threads. *)

From S2P Require Import Prelude.

Module ThrLock.

(** ** Lock types, in the order of the C enumeration *)

Inductive thr_lock_type :=
| TL_IGNORE
| TL_UNLOCK
| TL_READ_DEFAULT
| TL_READ
| TL_READ_WITH_SHARED_LOCKS
| TL_READ_HIGH_PRIORITY
| TL_READ_NO_INSERT
| TL_READ_SKIP_LOCKED
| TL_WRITE_ALLOW_WRITE
| TL_WRITE_CONCURRENT_INSERT
| TL_WRITE_DELAYED
| TL_WRITE_DEFAULT
| TL_WRITE_LOW_PRIORITY
| TL_WRITE_SKIP_LOCKED
| TL_WRITE
| TL_WRITE_ONLY.

#[global] Instance thr_lock_type_eq_dec : EqDecision thr_lock_type.
Proof. solve_decision. Defined.

(** The integer value of the enumeration constant. *)
Definition tl_val (t : thr_lock_type) : Z :=
  match t with
  | TL_IGNORE => -1
  | TL_UNLOCK => 0
  | TL_READ_DEFAULT => 1
  | TL_READ => 2
  | TL_READ_WITH_SHARED_LOCKS => 3
  | TL_READ_HIGH_PRIORITY => 4
  | TL_READ_NO_INSERT => 5
  | TL_READ_SKIP_LOCKED => 6
  | TL_WRITE_ALLOW_WRITE => 7
  | TL_WRITE_CONCURRENT_INSERT => 8
  | TL_WRITE_DELAYED => 9
  | TL_WRITE_DEFAULT => 10
  | TL_WRITE_LOW_PRIORITY => 11
  | TL_WRITE_SKIP_LOCKED => 12
  | TL_WRITE => 13
  | TL_WRITE_ONLY => 14
  end.

Definition tl_lt (a b : thr_lock_type) : bool := (tl_val a <? tl_val b)%Z.
Definition tl_le (a b : thr_lock_type) : bool := (tl_val a <=? tl_val b)%Z.
Definition tl_eq (a b : thr_lock_type) : bool := bool_decide (a = b).

Definition TL_FIRST_WRITE : thr_lock_type := TL_WRITE_ALLOW_WRITE.

Inductive enum_thr_lock_result :=
| THR_LOCK_SUCCESS
| THR_LOCK_ABORTED
| THR_LOCK_WAIT_TIMEOUT
| THR_LOCK_DEADLOCK.

Definition THR_LOCK_LATE_PRIV : Z := 1.
Definition THR_UNLOCK_UPDATE_STATUS : Z := 1.

(** ** Data structures *)

(** The queues of a [THR_LOCK]. *)
Inductive qid := Q_read_wait | Q_read | Q_write_wait | Q_write.

#[global] Instance qid_eq_dec : EqDecision qid.
Proof. solve_decision. Defined.

(** A [THR_LOCK_DATA **]: the [data] field of a queue, or the [next] field of
    an element. *)
Inductive loc := LHead (q : qid) | LNext (d : nat).

#[global] Instance loc_eq_dec : EqDecision loc.
Proof. solve_decision. Defined.

(** [owner] is the address of the requesting thread's [THR_LOCK_INFO], [cond]
    the condition variable of a waiting thread. *)
Record THR_LOCK_DATA := mk_data {
  owner : option nat;
  next : option nat;
  prev : loc;
  cond : option nat;
  status_param : nat;
  type : thr_lock_type;
  priority : Z
}.

#[global] Instance THR_LOCK_DATA_inhabited : Inhabited THR_LOCK_DATA :=
  populate (mk_data None None (LHead Q_read) None 0 TL_UNLOCK 0).

Record st_lock_list := mk_list { ll_data : option nat; ll_last : loc }.

Record THR_LOCK := mk_lock {
  read_wait : st_lock_list;
  read : st_lock_list;
  write_wait : st_lock_list;
  write : st_lock_list;
  write_lock_count : Z;
  read_no_write_count : Z;
  get_status : bool;
  update_status : bool;
  restore_status : bool;
  start_trans : bool;
  check_status : bool;
  allow_multiple_concurrent_insert : bool
}.

(** Calls out of the lock code. *)
Inductive event :=
| EvSignal (c : option nat)
| EvGetStatus (param : nat) (concurrent_insert : bool)
| EvCheckStatus (param : nat)
| EvUpdateStatus (param : nat)
| EvRestoreStatus (param : nat)
| EvStartTrans (param : nat).

(** The lock, the memory of its lock data, and the calls made so far. *)
Record lock_state := mk_state {
  lk : THR_LOCK;
  mem : gmap nat THR_LOCK_DATA;
  events : list event
}.

(** What the engine's callbacks answer during one operation, the global
    [max_write_lock_count] and [thr_upgraded_concurrent_insert_lock]. *)
Record environment := mk_env {
  env_get_status : nat -> bool -> bool;
  env_check_status : nat -> bool;
  env_start_trans : nat -> bool;
  max_write_lock_count : Z;
  thr_upgraded_concurrent_insert_lock : thr_lock_type
}.

(** ** Field accesses *)

Definition set_next (n : option nat) (x : THR_LOCK_DATA) : THR_LOCK_DATA :=
  mk_data (owner x) n (prev x) (cond x) (status_param x) (type x) (priority x).
Definition set_prev (p : loc) (x : THR_LOCK_DATA) : THR_LOCK_DATA :=
  mk_data (owner x) (next x) p (cond x) (status_param x) (type x) (priority x).
Definition set_cond (c : option nat) (x : THR_LOCK_DATA) : THR_LOCK_DATA :=
  mk_data (owner x) (next x) (prev x) c (status_param x) (type x) (priority x).
Definition set_type (t : thr_lock_type) (x : THR_LOCK_DATA) : THR_LOCK_DATA :=
  mk_data (owner x) (next x) (prev x) (cond x) (status_param x) t (priority x).
Definition set_owner (o : option nat) (x : THR_LOCK_DATA) : THR_LOCK_DATA :=
  mk_data o (next x) (prev x) (cond x) (status_param x) (type x) (priority x).
Definition set_priority (p : Z) (x : THR_LOCK_DATA) : THR_LOCK_DATA :=
  mk_data (owner x) (next x) (prev x) (cond x) (status_param x) (type x) p.

Definition queue_of (l : THR_LOCK) (q : qid) : st_lock_list :=
  match q with
  | Q_read_wait => read_wait l
  | Q_read => read l
  | Q_write_wait => write_wait l
  | Q_write => write l
  end.

Definition set_queue (l : THR_LOCK) (q : qid) (x : st_lock_list) : THR_LOCK :=
  mk_lock (if decide (q = Q_read_wait) then x else read_wait l)
    (if decide (q = Q_read) then x else read l)
    (if decide (q = Q_write_wait) then x else write_wait l)
    (if decide (q = Q_write) then x else write l)
    (write_lock_count l) (read_no_write_count l) (get_status l)
    (update_status l) (restore_status l) (start_trans l) (check_status l)
    (allow_multiple_concurrent_insert l).

Definition set_counts (l : THR_LOCK) (wlc rnwc : Z) : THR_LOCK :=
  mk_lock (read_wait l) (read l) (write_wait l) (write l) wlc rnwc
    (get_status l) (update_status l) (restore_status l) (start_trans l)
    (check_status l) (allow_multiple_concurrent_insert l).

Definition dat (w : lock_state) (d : nat) : THR_LOCK_DATA := mem w !!! d.
Definition ty (w : lock_state) (d : nat) : thr_lock_type := type (dat w d).
Definition lst (w : lock_state) (q : qid) : st_lock_list := queue_of (lk w) q.

(** [lock->q.data]. *)
Definition head (w : lock_state) (q : qid) : option nat := ll_data (lst w q).

Definition upd (w : lock_state) (d : nat) (f : THR_LOCK_DATA -> THR_LOCK_DATA)
    : lock_state :=
  mk_state (lk w) (<[d := f (dat w d)]> (mem w)) (events w).

Definition set_lst (w : lock_state) (q : qid) (x : st_lock_list) : lock_state :=
  mk_state (set_queue (lk w) q x) (mem w) (events w).

Definition set_last (w : lock_state) (q : qid) (p : loc) : lock_state :=
  set_lst w q (mk_list (ll_data (lst w q)) p).

Definition set_head (w : lock_state) (q : qid) (d : option nat) : lock_state :=
  set_lst w q (mk_list d (ll_last (lst w q))).

Definition set_write_lock_count (w : lock_state) (n : Z) : lock_state :=
  mk_state (set_counts (lk w) n (read_no_write_count (lk w))) (mem w) (events w).

Definition set_read_no_write_count (w : lock_state) (n : Z) : lock_state :=
  mk_state (set_counts (lk w) (write_lock_count (lk w)) n) (mem w) (events w).

Definition emit (w : lock_state) (e : event) : lock_state :=
  mk_state (lk w) (mem w) (events w ++ [e]).

(** [*p]. *)
Definition get_loc (w : lock_state) (p : loc) : option nat :=
  match p with LHead q => head w q | LNext d => next (dat w d) end.

(** [*p= v]. *)
Definition set_loc (w : lock_state) (p : loc) (v : option nat) : lock_state :=
  match p with
  | LHead q => set_head w q v
  | LNext d => upd w d (set_next v)
  end.

(** ** List manipulation, as written at each use *)

(** [( *q.last)=data; data->prev= q.last; q.last= &data->next]. *)
Definition append (w : lock_state) (q : qid) (d : nat) : lock_state :=
  let last := ll_last (lst w q) in
  let w := set_loc w last (Some d) in
  let w := upd w d (set_prev last) in
  set_last w q (LNext d).

(** [if (( *data->prev)= data->next) data->next->prev= data->prev;
    else q.last= data->prev]. *)
Definition unlink (w : lock_state) (d : nat) (q : qid) : lock_state :=
  let n := next (dat w d) in
  let p := prev (dat w d) in
  let w := set_loc w p n in
  match n with
  | Some n => upd w n (set_prev p)
  | None => set_last w q p
  end.

(** [if ((data->next= q.data)) data->next->prev= &data->next;
    else q.last= &data->next; data->prev= &q.data; q.data= data]. *)
Definition push_front (w : lock_state) (q : qid) (d : nat) : lock_state :=
  let h := head w q in
  let w := upd w d (set_next h) in
  let w := match h with
           | Some n => upd w n (set_prev (LNext d))
           | None => set_last w q (LNext d)
           end in
  let w := upd w d (set_prev (LHead q)) in
  set_head w q (Some d).

(** [cond= data->cond; data->cond= 0; mysql_cond_signal(cond)]. *)
Definition wake (w : lock_state) (d : nat) : lock_state :=
  let c := cond (dat w d) in
  emit (upd w d (set_cond None)) (EvSignal c).

(** Chains are never longer than the number of lock data records. *)
Definition chain_fuel (w : lock_state) : nat := S (size (mem w)).

(** ** Initialisation *)

Definition thr_lock_init : THR_LOCK :=
  mk_lock (mk_list None (LHead Q_read_wait)) (mk_list None (LHead Q_read))
    (mk_list None (LHead Q_write_wait)) (mk_list None (LHead Q_write))
    0 0 false false false false false false.

Definition thr_lock_data_init (x : THR_LOCK_DATA) (param : nat) : THR_LOCK_DATA :=
  mk_data None (next x) (prev x) None param TL_UNLOCK 0.

Definition thr_lock_owner_equal (rhs lhs : option nat) : bool :=
  bool_decide (rhs = lhs).

(** Follows the chain from [data]. *)
Fixpoint has_old_lock_from (fuel : nat) (w : lock_state) (data : option nat)
    (o : option nat) : bool :=
  match fuel, data with
  | S fuel, Some d =>
      if thr_lock_owner_equal (owner (dat w d)) o then true
      else has_old_lock_from fuel w (next (dat w d)) o
  | _, _ => false
  end.

Definition has_old_lock (w : lock_state) (q : qid) (o : option nat) : bool :=
  has_old_lock_from (chain_fuel w) w (head w q) o.

(** ** Waking up waiters *)

Fixpoint free_read_locks_loop (fuel : nat) (w : lock_state) (d : nat)
    (using_concurrent_insert : bool) : lock_state :=
  match fuel with
  | 0 => w
  | S fuel =>
      let w :=
        if tl_eq (ty w d) TL_READ_NO_INSERT && using_concurrent_insert then
          (* Link lock away from read chain back into read_wait chain *)
          append (unlink w d Q_read) Q_read_wait d
        else
          let w := if tl_eq (ty w d) TL_READ_NO_INSERT
                   then set_read_no_write_count w (u32 (read_no_write_count (lk w) + 1))
                   else w in
          wake w d in
      match next (dat w d) with
      | Some n => free_read_locks_loop fuel w n using_concurrent_insert
      | None => w
      end
  end.

(** Called with a waiting read lock only ([data] is dereferenced). *)
Definition free_all_read_locks (w : lock_state) (using_concurrent_insert : bool)
    : lock_state :=
  match head w Q_read_wait with
  | None => w
  | Some d =>
      let last := ll_last (lst w Q_read) in
      let w := set_loc w last (Some d) in
      let w := upd w d (set_prev last) in
      let w := set_last w Q_read (ll_last (lst w Q_read_wait)) in
      let w := set_last w Q_read_wait (LHead Q_read_wait) in
      let w := free_read_locks_loop (chain_fuel w) w d using_concurrent_insert in
      let w := set_loc w (ll_last (lst w Q_read_wait)) None in
      match head w Q_read_wait with
      | None => set_write_lock_count w 0
      | Some _ => w
      end
  end.

(** [( *lock->check_status)(data->status_param)]. *)
Definition call_check_status (env : environment) (w : lock_state) (d : nat)
    : bool * lock_state :=
  let p := status_param (dat w d) in
  (env_check_status env p, emit w (EvCheckStatus p)).

(** [lock->get_status && ( *lock->get_status)(data->status_param, ci)]. *)
Definition call_get_status (env : environment) (w : lock_state) (d : nat) (ci : bool)
    : bool * lock_state :=
  if get_status (lk w) then
    let p := status_param (dat w d) in
    (env_get_status env p ci, emit w (EvGetStatus p ci))
  else (false, w).

(** Removes [d] from the write_wait list and puts it in the execute list. *)
Definition start_write (w : lock_state) (d : nat) : lock_state :=
  upd (append (unlink w d Q_write_wait) Q_write d) d (set_next None).

(** The [for (;;)] loop that hands out write locks when no lock is in use;
    returns the last lock handed out. *)
Fixpoint free_write_locks (fuel : nat) (env : environment) (w : lock_state) (d : nat)
    : lock_state * nat :=
  match fuel with
  | 0 => (w, d)
  | S fuel =>
      let w := start_write w d in
      let w :=
        if tl_eq (ty w d) TL_WRITE_CONCURRENT_INSERT then
          let '(r, w) := call_check_status env w d in
          if r then upd w d (set_type TL_WRITE) else w
        else w in
      let w := wake w d in
      if negb (tl_eq (ty w d) TL_WRITE_ALLOW_WRITE) then (w, d)
      else match head w Q_write_wait with
      | Some n => if tl_eq (ty w n) TL_WRITE_ALLOW_WRITE
                  then free_write_locks fuel env w n else (w, d)
      | None => (w, d)
      end
  end.

(** The [do ... while] loop that starts write locks together with the running
    read locks. *)
Fixpoint free_write_locks_with_reads (fuel : nat) (w : lock_state) (d : nat)
    (lock_type : thr_lock_type) : lock_state :=
  match fuel with
  | 0 => w
  | S fuel =>
      let w := wake (start_write w d) d in
      if tl_eq lock_type TL_WRITE_ALLOW_WRITE then
        match head w Q_write_wait with
        | Some n => if tl_eq (ty w n) TL_WRITE_ALLOW_WRITE
                    then free_write_locks_with_reads fuel w n lock_type else w
        | None => w
        end
      else w
  end.

Definition concurrent_type (t : thr_lock_type) : bool :=
  tl_eq t TL_WRITE_CONCURRENT_INSERT || tl_eq t TL_WRITE_ALLOW_WRITE.

(** [if (lock->read_wait.data) free_all_read_locks(lock, uci)]. *)
Definition free_waiting_reads (w : lock_state) (uci : bool) : lock_state :=
  match head w Q_read_wait with
  | Some _ => free_all_read_locks w uci
  | None => w
  end.

(** [!lock->read_wait.data || lock->read_wait.data->type < TL_READ_HIGH_PRIORITY]. *)
Definition no_high_priority_read (w : lock_state) : bool :=
  match head w Q_read_wait with
  | None => true
  | Some r => tl_lt (ty w r) TL_READ_HIGH_PRIORITY
  end.

(** The branch of [wake_up_waiters] with no lock in use, from the test of the
    first waiting write lock [d] on. *)
Definition wake_up_no_locks (env : environment) (w : lock_state) (d : nat) : lock_state :=
  if negb (tl_eq (ty w d) TL_WRITE_LOW_PRIORITY) || no_high_priority_read w then
    let count := write_lock_count (lk w) in
    let w := set_write_lock_count w (u64 (count + 1)) in
    let too_many := (max_write_lock_count env <? count)%Z in
    let w := if too_many then set_write_lock_count w 0 else w in
    match too_many, head w Q_read_wait with
    | true, Some _ => free_all_read_locks w false
    | _, _ =>
        let '(w, d) := free_write_locks (chain_fuel w) env w d in
        if tl_le TL_WRITE_LOW_PRIORITY (ty w d) then w
        else free_waiting_reads w (concurrent_type (ty w d))
    end
  else free_waiting_reads w (concurrent_type (ty w d)).

(** The branch with running read locks and the waiting write lock [d] that may
    run together with them. *)
Definition wake_up_with_reads (env : environment) (w : lock_state) (d : nat) : lock_state :=
  let lock_type := ty w d in
  let '(upgrade, w) :=
    if tl_eq lock_type TL_WRITE_CONCURRENT_INSERT then call_check_status env w d
    else (false, w) in
  if upgrade then free_waiting_reads (upd w d (set_type TL_WRITE)) false
  else
    let w := free_write_locks_with_reads (chain_fuel w) w d lock_type in
    free_waiting_reads w (concurrent_type lock_type).

Definition wake_up_waiters (env : environment) (w : lock_state) : lock_state :=
  match head w Q_write with
  | Some _ => w
  | None =>
      match head w Q_read, head w Q_write_wait with
      | None, Some d => wake_up_no_locks env w d
      | None, None => free_waiting_reads w false
      | Some _, Some d =>
          if tl_le (ty w d) TL_WRITE_DELAYED &&
             (negb (concurrent_type (ty w d)) || (read_no_write_count (lk w) =? 0)%Z)
          then wake_up_with_reads env w d else w
      | Some _, None => free_waiting_reads w false
      end
  end.

(** ** Waiting *)

(** [wait_for_lock] up to the first wait on the condition variable [c]. *)
Definition wait_for_lock_start (w : lock_state) (q : qid) (d : nat)
    (in_wait_list : bool) (c : nat) : lock_state :=
  let w := if in_wait_list then w else append w q d in
  upd w d (set_cond (Some c)).

(** [wait_for_lock] from the end of its wait loop on. *)
Definition wait_for_lock_finish (env : environment) (w : lock_state) (q : qid) (d : nat)
    (timed_out : bool) : lock_state * enum_thr_lock_result :=
  match cond (dat w d) with
  | Some _ =>
      let w := unlink w d q in
      let w := upd w d (set_type TL_UNLOCK) in
      (wake_up_waiters env w,
       if timed_out then THR_LOCK_WAIT_TIMEOUT else THR_LOCK_ABORTED)
  | None =>
      if tl_eq (ty w d) TL_UNLOCK then (w, THR_LOCK_ABORTED)
      else
        let '(r, w) := call_get_status env w d
                         (tl_eq (ty w d) TL_WRITE_CONCURRENT_INSERT) in
        (w, if r then THR_LOCK_ABORTED else THR_LOCK_SUCCESS)
  end.

(** ** Requesting a lock *)

(** How [thr_lock] ends: with a result, or in [wait_for_lock] on a queue. *)
Inductive outcome :=
| Return (r : enum_thr_lock_result)
| WaitOn (q : qid).

(** Adds [d] to the running locks of [q] and calls [get_status]. *)
Definition grant (env : environment) (w : lock_state) (q : qid) (d : nat) (ci : bool)
    : lock_state * outcome :=
  let '(r, w) := call_get_status env (append w q d) d ci in
  (w, Return (if r then THR_LOCK_ABORTED else THR_LOCK_SUCCESS)).

(** [data->type= TL_UNLOCK; result= THR_LOCK_ABORTED; goto end]. *)
Definition refuse (w : lock_state) (d : nat) : lock_state * outcome :=
  (upd w d (set_type TL_UNLOCK), Return THR_LOCK_ABORTED).

(** Adds to the running read locks, counting [TL_READ_NO_INSERT]. *)
Definition grant_read (env : environment) (w : lock_state) (d : nat)
    : lock_state * outcome :=
  let w := append w Q_read d in
  let w := if tl_eq (ty w d) TL_READ_NO_INSERT
           then set_read_no_write_count w (u32 (read_no_write_count (lk w) + 1)) else w in
  let '(r, w) := call_get_status env w d false in
  (w, Return (if r then THR_LOCK_ABORTED else THR_LOCK_SUCCESS)).

(** The part of [thr_lock] for a read request. *)
Definition thr_lock_read (env : environment) (w : lock_state) (d : nat)
    : lock_state * outcome :=
  let lock_type := ty w d in
  let me := owner (dat w d) in
  match head w Q_write with
  | Some h =>
      if thr_lock_owner_equal me (owner (dat w h)) ||
         (tl_le (ty w h) TL_WRITE_DELAYED &&
          (tl_le lock_type TL_READ_HIGH_PRIORITY ||
           negb (tl_eq (ty w h) TL_WRITE_CONCURRENT_INSERT)))
      then grant_read env w d
      else if tl_eq (ty w h) TL_WRITE_ONLY then refuse w d
      else (w, WaitOn Q_read_wait)
  | None =>
      if match head w Q_write_wait with
         | None => true
         | Some h => tl_le (ty w h) TL_WRITE_LOW_PRIORITY
         end ||
         tl_eq lock_type TL_READ_HIGH_PRIORITY ||
         has_old_lock w Q_read me
      then grant_read env w d
      else (w, WaitOn Q_read_wait)
  end.

(** The part of [thr_lock] for a write request with a write lock [h] in use. *)
Definition thr_lock_write_locked (env : environment) (w : lock_state) (d h : nat)
    : lock_state * outcome :=
  let lock_type := ty w d in
  let me := owner (dat w d) in
  let no_rnw := (read_no_write_count (lk w) =? 0)%Z in
  if tl_eq (ty w h) TL_WRITE_ONLY && negb (thr_lock_owner_equal me (owner (dat w h)))
  then refuse w d
  else if ((tl_eq lock_type TL_WRITE_ALLOW_WRITE ||
            (tl_eq lock_type TL_WRITE_CONCURRENT_INSERT &&
             allow_multiple_concurrent_insert (lk w) && no_rnw)) &&
           match head w Q_write_wait with None => true | Some _ => false end &&
           tl_eq (ty w h) lock_type && no_rnw) ||
          has_old_lock w Q_write me
  then grant env w Q_write d (tl_eq lock_type TL_WRITE_CONCURRENT_INSERT)
  else (w, WaitOn Q_write_wait).

(** The part of [thr_lock] for a write request with no write lock in use. *)
Definition thr_lock_write_free (env : environment) (w : lock_state) (d : nat)
    : lock_state * outcome :=
  match head w Q_write_wait with
  | Some _ => (w, WaitOn Q_write_wait)
  | None =>
      let '(concurrent_insert, w) :=
        if tl_eq (ty w d) TL_WRITE_CONCURRENT_INSERT then
          let '(r, w) := call_check_status env w d in
          if r then (false, upd w d (set_type (thr_upgraded_concurrent_insert_lock env)))
          else (true, w)
        else (false, w) in
      let lock_type := ty w d in
      if match head w Q_read with None => true | Some _ => false end ||
         (tl_le lock_type TL_WRITE_DELAYED &&
          (negb (concurrent_type lock_type) || (read_no_write_count (lk w) =? 0)%Z))
      then grant env w Q_write d concurrent_insert
      else (w, WaitOn Q_write_wait)
  end.

(** The part of [thr_lock] for a write request. *)
Definition thr_lock_write (env : environment) (w : lock_state) (d c : nat)
    : lock_state * outcome :=
  let in_use := match head w Q_write, head w Q_read with
                | None, None => false | _, _ => true end in
  let write_only := match head w Q_write with
                    | Some h => tl_eq (ty w h) TL_WRITE_ONLY | None => false end in
  if tl_eq (ty w d) TL_WRITE_DELAYED && write_only then refuse w d
  else if tl_eq (ty w d) TL_WRITE_DELAYED && in_use then
    (* Add delayed write lock to write_wait queue, and return at once *)
    (upd (append w Q_write_wait d) d (set_cond (Some c)), Return THR_LOCK_SUCCESS)
  else
    let w := if tl_eq (ty w d) TL_WRITE_CONCURRENT_INSERT && negb (check_status (lk w))
             then upd w d (set_type (thr_upgraded_concurrent_insert_lock env)) else w in
    match head w Q_write with
    | Some h => thr_lock_write_locked env w d h
    | None => thr_lock_write_free env w d
    end.

(** [thr_lock] up to its end or to the call of [wait_for_lock]; [c] is the
    condition variable of the calling thread. *)
Definition thr_lock_start (env : environment) (w : lock_state) (d : nat)
    (o : option nat) (c : nat) : lock_state * outcome :=
  let w := upd w d (fun x => set_priority (Z.ldiff (priority x) THR_LOCK_LATE_PRIV)
                      (set_owner o (set_cond None (set_next None x)))) in
  if tl_lt (ty w d) TL_FIRST_WRITE then thr_lock_read env w d
  else thr_lock_write env w d c.

(** [thr_lock] including the entry into [wait_for_lock]. *)
Definition thr_lock (env : environment) (w : lock_state) (d : nat)
    (o : option nat) (c : nat) : lock_state * outcome :=
  let '(w, out) := thr_lock_start env w d o c in
  match out with
  | Return r => (w, Return r)
  | WaitOn q => (wait_for_lock_start w q d false c, WaitOn q)
  end.

(** ** Releasing a lock *)

Definition thr_unlock (env : environment) (w : lock_state) (d : nat) (unlock_flags : Z)
    : lock_state :=
  let lock_type := ty w d in
  let q :=
    if tl_le lock_type TL_READ_NO_INSERT then Q_read
    else if tl_eq lock_type TL_WRITE_DELAYED && bool_decide (cond (dat w d) <> None)
    then Q_write_wait else Q_write in
  let w := unlink w d q in
  let w :=
    if negb (Z.land unlock_flags THR_UNLOCK_UPDATE_STATUS =? 0)%Z then
      if tl_le TL_WRITE_CONCURRENT_INSERT lock_type then
        if update_status (lk w) then emit w (EvUpdateStatus (status_param (dat w d))) else w
      else
        if restore_status (lk w) then emit w (EvRestoreStatus (status_param (dat w d))) else w
    else w in
  let w := if tl_eq lock_type TL_READ_NO_INSERT
           then set_read_no_write_count w (u32 (read_no_write_count (lk w) - 1)) else w in
  let w := upd w d (set_type TL_UNLOCK) in
  wake_up_waiters env w.

(** ** Aborting *)

Fixpoint abort_chain (fuel : nat) (w : lock_state) (data : option nat) : lock_state :=
  match fuel, data with
  | S fuel, Some d =>
      let w := upd w d (set_type TL_UNLOCK) in
      let w := wake w d in
      abort_chain fuel w (next (dat w d))
  | _, _ => w
  end.

Definition thr_abort_locks (w : lock_state) (upgrade_lock : bool) : lock_state :=
  let w := abort_chain (chain_fuel w) w (head w Q_read_wait) in
  let w := abort_chain (chain_fuel w) w (head w Q_write_wait) in
  let w := set_last w Q_read_wait (LHead Q_read_wait) in
  let w := set_last w Q_write_wait (LHead Q_write_wait) in
  let w := set_head (set_head w Q_write_wait None) Q_read_wait None in
  match upgrade_lock, head w Q_write with
  | true, Some h => upd w h (set_type TL_WRITE_ONLY)
  | _, _ => w
  end.

Fixpoint abort_thread_chain (fuel : nat) (w : lock_state) (q : qid) (data : option nat)
    (is_thread : option nat -> bool) (found : bool) : lock_state * bool :=
  match fuel, data with
  | S fuel, Some d =>
      if is_thread (owner (dat w d)) then
        let w := upd w d (set_type TL_UNLOCK) in
        let w := wake w d in
        let w := unlink w d q in
        abort_thread_chain fuel w q (next (dat w d)) is_thread true
      else abort_thread_chain fuel w q (next (dat w d)) is_thread found
  | _, _ => (w, found)
  end.

(** [is_thread o] tells whether [o->thread_id == thread_id]. *)
Definition thr_abort_locks_for_thread (env : environment) (w : lock_state)
    (is_thread : option nat -> bool) : lock_state * bool :=
  let '(w, found) :=
    abort_thread_chain (chain_fuel w) w Q_read_wait (head w Q_read_wait) is_thread false in
  let '(w, found) :=
    abort_thread_chain (chain_fuel w) w Q_write_wait (head w Q_write_wait) is_thread found in
  (wake_up_waiters env w, found).

(** ** Changing the type of a held lock *)

Definition thr_downgrade_write_lock (w : lock_state) (d : nat) (new_lock_type : thr_lock_type)
    : lock_state := upd w d (set_type new_lock_type).

(** [thr_upgrade_write_delay_lock]: returns, or waits on the write_wait queue
    in which [d] already is; the boolean is the function's result. *)
Inductive upgrade_outcome := UReturn (r : bool) | UWait.

Definition call_start_trans (env : environment) (w : lock_state) (d : nat)
    : bool * lock_state :=
  if start_trans (lk w) then
    let p := status_param (dat w d) in (env_start_trans env p, emit w (EvStartTrans p))
  else (false, w).

Definition thr_upgrade_write_delay_lock (env : environment) (w : lock_state) (d : nat)
    (new_lock_type : thr_lock_type) (c : nat) : lock_state * upgrade_outcome :=
  if tl_eq (ty w d) TL_UNLOCK || tl_le TL_WRITE_LOW_PRIORITY (ty w d)
  then (w, UReturn (tl_eq (ty w d) TL_UNLOCK))
  else
    let w := upd w d (set_type new_lock_type) in
    match cond (dat w d), head w Q_read with
    | None, None =>
        let '(_, w) := call_get_status env w d false in
        let '(_, w) := call_start_trans env w d in
        (w, UReturn false)
    | None, Some _ =>
        let w := push_front (unlink w d Q_write) Q_write_wait d in
        (wait_for_lock_start w Q_write_wait d true c, UWait)
    | Some _, _ => (wait_for_lock_start w Q_write_wait d true c, UWait)
    end.

(** The part of it after the wait. *)
Definition thr_upgrade_write_delay_lock_finish (env : environment) (w : lock_state)
    (d : nat) (timed_out : bool) : lock_state * bool :=
  let '(w, res) := wait_for_lock_finish env w Q_write_wait d timed_out in
  match res with
  | THR_LOCK_SUCCESS => let '(r, w) := call_start_trans env w d in (w, r)
  | _ => (w, false)
  end.

(** [thr_reschedule_write_lock] up to the release of the mutex: the type the
    lock is to get back, if readers were waiting. *)
Definition thr_reschedule_write_lock_start (w : lock_state) (d c : nat)
    : lock_state * option thr_lock_type :=
  match head w Q_read_wait with
  | None => (w, None)
  | Some _ =>
      let write_lock_type := ty w d in
      let w := upd w d (set_type TL_WRITE_DELAYED) in
      let w := if update_status (lk w)
               then emit w (EvUpdateStatus (status_param (dat w d))) else w in
      let w := push_front (unlink w d Q_write) Q_write_wait d in
      let w := upd w d (set_cond (Some c)) in
      (free_all_read_locks w false, Some write_lock_type)
  end.

(** The whole function; [others] is what other threads do to the lock while the
    mutex is free. *)
Definition thr_reschedule_write_lock (env : environment) (others : lock_state -> lock_state)
    (w : lock_state) (d c : nat) : lock_state * upgrade_outcome :=
  let '(w, t) := thr_reschedule_write_lock_start w d c in
  match t with
  | None => (w, UReturn false)
  | Some write_lock_type => thr_upgrade_write_delay_lock env (others w) d write_lock_type c
  end.

End ThrLock.
