(* ===== verification/ThrLockQueues.v ===== *)
(** * The queues of a table lock

    The structure of the intrusive lists of mysys/thr_lock.c: when the pointers
    of a [lock_state] represent four disjoint lists of lock data, and that each
    pointer manipulation of the C code is the list operation it stands for. *)

From S2P Require Import Prelude ThrLock.
Import ThrLock.

Module ThrLockQueues.

(** ** Observations

    What the queue structure depends on: the pointers [get_loc], the back
    pointers [prv], the queue ends [qlast]; and the rest of a lock data record,
    its payload. *)

Definition prv (w : lock_state) (d : nat) : loc := prev (dat w d).
Definition qlast (w : lock_state) (q : qid) : loc := ll_last (lst w q).
Definition own (w : lock_state) (d : nat) : option nat := owner (dat w d).
Definition cnd (w : lock_state) (d : nat) : option nat := cond (dat w d).
Definition par (w : lock_state) (d : nat) : nat := status_param (dat w d).

(** Everything but the queues and the counters. *)
Definition flags (l : THR_LOCK) :=
  (get_status l, update_status l, restore_status l, start_trans l, check_status l,
   allow_multiple_concurrent_insert l).

Lemma dat_upd w d f x : dat (upd w d f) x = if decide (x = d) then f (dat w d) else dat w x.
Proof.
  unfold dat, upd; simpl. case_decide; subst.
  - apply lookup_total_insert_eq.
  - by apply lookup_total_insert_ne.
Qed.

Lemma lst_set_lst w q x q' : lst (set_lst w q x) q' = if decide (q' = q) then x else lst w q'.
Proof. unfold lst, set_lst; simpl. destruct q, q'; done. Qed.

Lemma dat_set_lst w q x d : dat (set_lst w q x) d = dat w d.
Proof. done. Qed.

Lemma lst_upd w d f q : lst (upd w d f) q = lst w q.
Proof. done. Qed.

(** [set_loc] *)
Lemma get_set_loc w p v l : get_loc (set_loc w p v) l = if decide (l = p) then v else get_loc w l.
Proof.
  destruct p as [q|d], l as [q'|d']; cbn [get_loc set_loc]; unfold head, set_head.
  - rewrite lst_set_lst. repeat case_decide; simplify_eq; done.
  - by case_decide.
  - by case_decide.
  - rewrite dat_upd. repeat case_decide; simplify_eq; done.
Qed.

Lemma prv_set_loc w p v d : prv (set_loc w p v) d = prv w d.
Proof.
  destruct p; simpl; [done|]. unfold prv. rewrite dat_upd. by case_decide; subst.
Qed.

Lemma qlast_set_loc w p v q : qlast (set_loc w p v) q = qlast w q.
Proof.
  destruct p; simpl; [|done]. unfold qlast, set_head. rewrite lst_set_lst.
  by case_decide; subst.
Qed.

(** The payload of a record; the queue operations never change it. *)
Record same_payload (w w' : lock_state) : Prop := {
  sp_ty : forall d, ty w' d = ty w d;
  sp_own : forall d, own w' d = own w d;
  sp_cnd : forall d, cnd w' d = cnd w d;
  sp_par : forall d, par w' d = par w d;
  sp_flags : flags (lk w') = flags (lk w);
  sp_wlc : write_lock_count (lk w') = write_lock_count (lk w);
  sp_rnwc : read_no_write_count (lk w') = read_no_write_count (lk w);
  sp_dom : dom (mem w) ⊆ dom (mem w')
}.

Lemma same_payload_refl w : same_payload w w.
Proof. by constructor. Qed.

Lemma same_payload_trans w1 w2 w3 :
  same_payload w1 w2 -> same_payload w2 w3 -> same_payload w1 w3.
Proof. intros [] []. constructor; intros; try congruence. set_solver. Qed.

Lemma same_payload_set_lst w q x : same_payload w (set_lst w q x).
Proof. by constructor. Qed.

Lemma same_payload_upd w d f :
  (forall x, owner (f x) = owner x /\ cond (f x) = cond x /\
             status_param (f x) = status_param x /\ type (f x) = type x) ->
  same_payload w (upd w d f).
Proof.
  intros Hf. destruct (Hf (dat w d)) as (?&?&?&?).
  constructor; intros; unfold ty, own, cnd, par; rewrite ?dat_upd; try case_decide; subst; try done.
  unfold upd; simpl. rewrite dom_insert. apply union_subseteq_r.
Qed.

Lemma same_payload_set_loc w p v : same_payload w (set_loc w p v).
Proof. destruct p; [apply same_payload_set_lst|]. by apply same_payload_upd. Qed.

(** Updates of a record that keep its pointers keep the structure. *)
Lemma get_loc_upd w d f l :
  (forall x, next (f x) = next x) -> get_loc (upd w d f) l = get_loc w l.
Proof.
  intros Hf. destruct l as [q|d']; [done|]. cbn [get_loc]. rewrite dat_upd.
  by case_decide; subst.
Qed.

Lemma prv_upd w d f x : (forall x, prev (f x) = prev x) -> prv (upd w d f) x = prv w x.
Proof. intros Hf. unfold prv. rewrite dat_upd. by case_decide; subst. Qed.

Lemma get_loc_set_prev w d p l : get_loc (upd w d (set_prev p)) l = get_loc w l.
Proof. by apply get_loc_upd. Qed.

Lemma prv_set_prev w d p x :
  prv (upd w d (set_prev p)) x = if decide (x = d) then p else prv w x.
Proof. unfold prv. rewrite dat_upd. by case_decide; subst. Qed.

Lemma qlast_upd w d f q : qlast (upd w d f) q = qlast w q.
Proof. done. Qed.

Lemma get_loc_set_last w q p l : get_loc (set_last w q p) l = get_loc w l.
Proof.
  destruct l as [q'|d']; [|done]. cbn [get_loc]. unfold head, set_last.
  rewrite lst_set_lst. by case_decide; subst.
Qed.

Lemma prv_set_last w q p x : prv (set_last w q p) x = prv w x.
Proof. done. Qed.

Lemma qlast_set_last w q p q' :
  qlast (set_last w q p) q' = if decide (q' = q) then p else qlast w q'.
Proof. unfold qlast, set_last. rewrite lst_set_lst. by case_decide. Qed.

Lemma next_get_loc w d : next (dat w d) = get_loc w (LNext d).
Proof. done. Qed.

Lemma head_get_loc w q : head w q = get_loc w (LHead q).
Proof. done. Qed.

Create Rewrite HintDb obs.
#[local] Hint Rewrite get_set_loc prv_set_loc qlast_set_loc get_loc_set_prev prv_set_prev
  qlast_upd get_loc_set_last prv_set_last qlast_set_last : obs.

(** [append] *)
Lemma get_loc_append w q d l :
  get_loc (append w q d) l = if decide (l = qlast w q) then Some d else get_loc w l.
Proof. unfold append. by autorewrite with obs. Qed.

Lemma prv_append w q d x :
  prv (append w q d) x = if decide (x = d) then qlast w q else prv w x.
Proof. unfold append. by autorewrite with obs. Qed.

Lemma qlast_append w q d q' :
  qlast (append w q d) q' = if decide (q' = q) then LNext d else qlast w q'.
Proof. unfold append. by autorewrite with obs. Qed.

Lemma same_payload_append w q d : same_payload w (append w q d).
Proof.
  unfold append. eapply same_payload_trans; [|apply same_payload_set_lst].
  eapply same_payload_trans; [apply same_payload_set_loc|by apply same_payload_upd].
Qed.

(** [unlink] *)
Lemma get_loc_unlink w d q l :
  get_loc (unlink w d q) l = if decide (l = prv w d) then next (dat w d) else get_loc w l.
Proof. unfold unlink. destruct (next (dat w d)); by autorewrite with obs. Qed.

Lemma prv_unlink w d q x :
  prv (unlink w d q) x = if decide (next (dat w d) = Some x) then prv w d else prv w x.
Proof.
  unfold unlink. destruct (next (dat w d)); autorewrite with obs;
    repeat case_decide; simplify_eq; done.
Qed.

Lemma qlast_unlink w d q q' :
  qlast (unlink w d q) q' =
    if decide (q' = q /\ next (dat w d) = None) then prv w d else qlast w q'.
Proof.
  unfold unlink. destruct (next (dat w d)); autorewrite with obs;
    repeat case_decide; intuition congruence.
Qed.

Lemma same_payload_unlink w d q : same_payload w (unlink w d q).
Proof.
  unfold unlink. destruct (next (dat w d)).
  all: eapply same_payload_trans; [apply same_payload_set_loc|].
  - by apply same_payload_upd.
  - apply same_payload_set_lst.
Qed.

(** [push_front] *)
Lemma get_loc_push_front w q d l :
  get_loc (push_front w q d) l =
    if decide (l = LHead q) then Some d
    else if decide (l = LNext d) then head w q else get_loc w l.
Proof.
  unfold push_front. change (set_head ?w q (Some d)) with (set_loc w (LHead q) (Some d)).
  destruct (head w q) eqn:Eh; autorewrite with obs;
    change (upd w d (set_next ?v)) with (set_loc w (LNext d) v); by autorewrite with obs.
Qed.

Lemma prv_push_front w q d x :
  prv (push_front w q d) x =
    if decide (x = d) then LHead q
    else if decide (head w q = Some x) then LNext d else prv w x.
Proof.
  unfold push_front. change (set_head ?w q (Some d)) with (set_loc w (LHead q) (Some d)).
  destruct (head w q) eqn:Eh; autorewrite with obs;
    change (upd w d (set_next ?v)) with (set_loc w (LNext d) v); autorewrite with obs;
    repeat case_decide; simplify_eq; done.
Qed.

Lemma qlast_push_front w q d q' :
  qlast (push_front w q d) q' =
    if decide (q' = q /\ head w q = None) then LNext d else qlast w q'.
Proof.
  unfold push_front. change (set_head ?w q (Some d)) with (set_loc w (LHead q) (Some d)).
  destruct (head w q) eqn:Eh; autorewrite with obs; repeat case_decide; intuition congruence.
Qed.

Lemma same_payload_push_front w q d : same_payload w (push_front w q d).
Proof.
  unfold push_front. eapply same_payload_trans; [|apply same_payload_set_lst].
  eapply same_payload_trans; [|by apply same_payload_upd].
  apply (same_payload_trans _ (upd w d (set_next (head w q)))).
  - by apply same_payload_upd.
  - destruct (head w q); [by apply same_payload_upd|apply same_payload_set_lst].
Qed.

(** ** Chains

    [seg w p ds]: following the pointers from location [p] leads through the
    elements [ds], each of which points back.  [endl p ds] is the location of
    the pointer after the last of them. *)

Fixpoint seg (w : lock_state) (p : loc) (ds : list nat) : Prop :=
  match ds with
  | [] => True
  | d :: ds => get_loc w p = Some d /\ prv w d = p /\ seg w (LNext d) ds
  end.

Fixpoint endl (p : loc) (ds : list nat) : loc :=
  match ds with [] => p | d :: ds => endl (LNext d) ds end.

(** The locations that [seg] reads. *)
Fixpoint reads (p : loc) (ds : list nat) : list loc :=
  match ds with [] => [] | d :: ds => p :: reads (LNext d) ds end.

Lemma seg_app w p a b : seg w p (a ++ b) <-> seg w p a /\ seg w (endl p a) b.
Proof. revert p. induction a as [|d a IH]; intros p; simpl; [tauto|]. rewrite IH. tauto. Qed.

Lemma endl_app p a b : endl p (a ++ b) = endl (endl p a) b.
Proof. revert p. by induction a; simpl. Qed.

Lemma endl_snoc p a d : endl p (a ++ [d]) = LNext d.
Proof. by rewrite endl_app. Qed.

Lemma reads_app p a b : reads p (a ++ b) = reads p a ++ reads (endl p a) b.
Proof. revert p. induction a as [|d a IH]; intros p; simpl; [done|]. by rewrite IH. Qed.

Lemma endl_cases p ds : endl p ds = p /\ ds = [] \/ exists d, d ∈ ds /\ endl p ds = LNext d.
Proof.
  revert p. induction ds as [|d ds IH]; intros p; simpl; [by left|right].
  destruct (IH (LNext d)) as [[-> ->]|(e & ? & ->)].
  - exists d. set_solver.
  - exists e. set_solver.
Qed.

Lemma elem_of_reads l p ds : l ∈ reads p ds -> l = p \/ exists d, d ∈ ds /\ l = LNext d.
Proof.
  revert p. induction ds as [|d ds IH]; intros p; simpl; [set_solver|].
  rewrite elem_of_cons. intros [->|Hl]; [by left|]. right.
  destruct (IH _ Hl) as [->|(e & ? & ->)]; eexists; (split; [|done]); set_solver.
Qed.

Lemma endl_not_read p ds :
  NoDup ds -> (forall d, d ∈ ds -> p <> LNext d) -> endl p ds ∉ reads p ds.
Proof.
  revert p. induction ds as [|d ds IH]; intros p Hnd Hp; simpl; [set_solver|].
  apply NoDup_cons in Hnd as [Hd Hnd]. rewrite elem_of_cons. intros [E|Hin].
  - destruct (endl_cases (LNext d) ds) as [[E' ->]|(e & He & E')].
    + simpl in *. apply (Hp d); set_solver.
    + apply (Hp e); [set_solver|congruence].
  - apply (IH (LNext d)); [done| |done]. intros e He [= ->]. done.
Qed.

Lemma seg_frame w w' p ds :
  seg w p ds ->
  (forall l, l ∈ reads p ds -> get_loc w' l = get_loc w l) ->
  (forall d, d ∈ ds -> prv w' d = prv w d) -> seg w' p ds.
Proof.
  revert p. induction ds as [|d ds IH]; intros p; simpl; [done|].
  intros (Hg & Hp & Hs) Hl Hd. split_and!.
  - rewrite Hl; set_solver.
  - rewrite Hd; set_solver.
  - apply IH; set_solver.
Qed.

(** ** Representation of the four queues

    [T q] says that the chain of [q] is terminated by a null pointer; inside
    [free_all_read_locks] the read_wait chain is not. *)

Record rep_gen (T : qid -> Prop) (w : lock_state) (L : qid -> list nat) : Prop := {
  rg_seg : forall q, seg w (LHead q) (L q);
  rg_last : forall q, qlast w q = endl (LHead q) (L q);
  rg_term : forall q, T q -> get_loc w (endl (LHead q) (L q)) = None;
  rg_nodup : forall q, NoDup (L q);
  rg_disj : forall q q' d, d ∈ L q -> d ∈ L q' -> q = q';
  rg_dom : forall q d, d ∈ L q -> d ∈ dom (mem w)
}.

Definition rep : lock_state -> (qid -> list nat) -> Prop := rep_gen (fun _ => True).

(** Queues are compared pointwise. *)
#[global] Instance rep_gen_proper T w :
  Proper (pointwise_relation qid eq ==> iff) (rep_gen T w).
Proof.
  assert (H : forall L L', pointwise_relation qid eq L L' -> rep_gen T w L -> rep_gen T w L').
  { intros L L' E HL. constructor; intros q *; rewrite <-!(E _); apply HL. }
  intros L L' E. split; apply H; [done|by symmetry].
Qed.

Definition fupd (L : qid -> list nat) (q : qid) (ds : list nat) : qid -> list nat :=
  fun q' => if decide (q' = q) then ds else L q'.

Lemma fupd_eq L q ds : fupd L q ds q = ds.
Proof. unfold fupd. by rewrite decide_True. Qed.

Lemma fupd_ne L q ds q' : q' <> q -> fupd L q ds q' = L q'.
Proof. intros. unfold fupd. by rewrite decide_False. Qed.

(** The locations that belong to a queue. *)
Definition in_chain (L : qid -> list nat) (q : qid) (l : loc) : Prop :=
  l = LHead q \/ exists d, d ∈ L q /\ l = LNext d.

Section rep.
Context (T : qid -> Prop) (w : lock_state) (L : qid -> list nat).
Context (HL : rep_gen T w L).

Lemma in_chain_unique q q' l : in_chain L q l -> in_chain L q' l -> q = q'.
Proof.
  intros [->|(d & ? & ->)] [E|(e & ? & E)]; simplify_eq; eauto using rg_disj.
Qed.

Lemma endl_in_chain q : in_chain L q (endl (LHead q) (L q)).
Proof. destruct (endl_cases (LHead q) (L q)) as [[-> _]|(d & ? & ->)]; [by left|right; eauto]. Qed.

Lemma reads_in_chain q l : l ∈ reads (LHead q) (L q) -> in_chain L q l.
Proof. intros [->|?]%elem_of_reads; [by left|by right]. Qed.

Lemma endl_not_reads q : endl (LHead q) (L q) ∉ reads (LHead q) (L q).
Proof. apply endl_not_read; [by apply HL|done]. Qed.

(** Changes of pointers outside a queue leave it alone. *)
Lemma seg_other w' q :
  (forall l, in_chain L q l -> l <> endl (LHead q) (L q) -> get_loc w' l = get_loc w l) ->
  (forall d, d ∈ L q -> prv w' d = prv w d) -> seg w' (LHead q) (L q).
Proof.
  intros Hl Hp. eapply seg_frame; [apply (rg_seg _ _ _ HL)| |done].
  intros l Hin. apply Hl; [by apply reads_in_chain|].
  intros ->. by apply endl_not_reads in Hin.
Qed.

(** The parts of [rep_gen] that do not look at pointers. *)
Lemma fupd_nodup q ds : NoDup ds -> forall q', NoDup (fupd L q ds q').
Proof. intros ? q'. unfold fupd. case_decide; [done|apply HL]. Qed.

Lemma fupd_disj q ds :
  (forall e, e ∈ ds -> forall q', q' <> q -> e ∈ L q' -> q = q') ->
  forall q1 q2 e, e ∈ fupd L q ds q1 -> e ∈ fupd L q ds q2 -> q1 = q2.
Proof.
  intros H q1 q2 e. unfold fupd. repeat case_decide; subst; intros; try done.
  - by eapply H.
  - symmetry. by eapply H.
  - by eapply (rg_disj _ _ _ HL).
Qed.

Lemma fupd_dom w' q ds : same_payload w w' ->
  (forall e, e ∈ ds -> e ∈ dom (mem w)) -> forall q' e, e ∈ fupd L q ds q' -> e ∈ dom (mem w').
Proof.
  intros Hsp H q' e. apply sp_dom in Hsp. unfold fupd.
  case_decide; subst; intros He; apply Hsp; [by apply H|by eapply (rg_dom _ _ _ HL)].
Qed.

Lemma append_rep q d :
  (forall q', d ∉ L q') -> d ∈ dom (mem w) -> (T q -> get_loc w (LNext d) = None) ->
  rep_gen T (append w q d) (fupd L q (L q ++ [d])).
Proof.
  intros Hd Hdom Hn.
  assert (Hlast := rg_last _ _ _ HL q).
  assert (Hne : forall q' l, q' <> q -> in_chain L q' l -> l <> qlast w q).
  { intros q' l Hq Hl ->. apply Hq. eapply in_chain_unique; [done|].
    rewrite Hlast. apply endl_in_chain. }
  assert (Hdne : LNext d <> qlast w q).
  { rewrite Hlast. destruct (endl_cases (LHead q) (L q)) as [[-> _]|(e & ? & ->)]; [done|].
    intros [= ->]. by apply (Hd q). }
  constructor.
  - intros q'. unfold fupd. case_decide; subst.
    + apply seg_app. split.
      * apply seg_other; [|intros e He].
        -- intros l _ Hl. rewrite get_loc_append, decide_False by (by rewrite Hlast). done.
        -- rewrite prv_append, decide_False; [done|]. intros ->. by apply (Hd q).
      * simpl. rewrite get_loc_append, prv_append, Hlast, !decide_True by done. done.
    + apply seg_other; [|intros e He].
      * intros l Hl _. rewrite get_loc_append, decide_False by eauto. done.
      * rewrite prv_append, decide_False; [done|]. intros ->. by apply (Hd q').
  - intros q'. rewrite qlast_append. unfold fupd. case_decide; subst.
    + by rewrite endl_snoc.
    + apply HL.
  - intros q' HT. destruct (decide (q' = q)) as [->|Hq].
    + rewrite fupd_eq, endl_snoc, get_loc_append, decide_False by done. auto.
    + rewrite fupd_ne, get_loc_append, decide_False; [by apply HL| |done].
      eapply Hne; [done|apply endl_in_chain].
  - apply fupd_nodup, NoDup_app. split_and!; [apply HL| |apply NoDup_singleton].
    intros e He ->%list_elem_of_singleton. by apply (Hd q).
  - apply fupd_disj. intros e [?| ->%list_elem_of_singleton]%elem_of_app q' ? ?;
      [by eapply (rg_disj _ _ _ HL)|by edestruct Hd].
  - apply (fupd_dom (append w q d)); [apply same_payload_append|].
    intros e [?| ->%list_elem_of_singleton]%elem_of_app; [by eapply (rg_dom _ _ _ HL)|done].
Qed.

(** The element before [d] and the elements around it. *)
Lemma seg_mid q a d b : L q = a ++ d :: b ->
  get_loc w (endl (LHead q) a) = Some d /\ prv w d = endl (LHead q) a /\
  seg w (LHead q) a /\ seg w (LNext d) b.
Proof.
  intros E. pose proof (rg_seg _ _ _ HL q) as Hs. rewrite E, seg_app in Hs. simpl in Hs. tauto.
Qed.

Lemma mid_next q a d b : L q = a ++ d :: b -> T q -> next (dat w d) = list.head b.
Proof.
  intros E HT. destruct (seg_mid _ _ _ _ E) as (_ & _ & _ & Hb). destruct b as [|e b]; simpl in *.
  - pose proof (rg_term _ _ _ HL q HT) as Ht. by rewrite E, endl_snoc in Ht.
  - by destruct Hb.
Qed.

Section unlink.
Context (q : qid) (a : list nat) (d : nat) (b : list nat).
Context (E : L q = a ++ d :: b) (HT : T q).

Lemma mid_nodup : NoDup a /\ (forall x, x ∈ a -> x ∉ d :: b) /\ d ∉ b /\ NoDup b.
Proof.
  pose proof (rg_nodup _ _ _ HL q) as HND. rewrite E in HND.
  apply NoDup_app in HND as (HNa & Hab & (Hdb & HNb)%NoDup_cons). done.
Qed.

Lemma mid_next_in x : next (dat w d) = Some x -> x ∈ b.
Proof. rewrite (mid_next _ _ _ _ E HT). destruct b; simpl; intros; simplify_eq. set_solver. Qed.

(** The location before [d] is none of those after it. *)
Lemma before_not_after l : l = LNext d \/ (exists x, x ∈ b /\ l = LNext x) ->
  l <> endl (LHead q) a.
Proof.
  destruct mid_nodup as (_ & Hab & _).
  destruct (endl_cases (LHead q) a) as [[-> _]|(e' & ? & ->)];
    intros [->|(e'' & ? & ->)]; try done; intros [= ->]; set_solver.
Qed.

Lemma before_other q' l : q' <> q -> in_chain L q' l -> l <> endl (LHead q) a.
Proof.
  intros Hq Hl ->. apply Hq. eapply in_chain_unique; [done|].
  destruct (endl_cases (LHead q) a) as [[-> _]|(e & ? & ->)]; [by left|].
  right. exists e. rewrite E. set_solver.
Qed.

Lemma unlink_seg : seg (unlink w d q) (LHead q) (a ++ b).
Proof.
  pose proof (mid_next _ _ _ _ E HT) as Hn.
  destruct (seg_mid _ _ _ _ E) as (Hp & Hpd & Ha & Hb).
  destruct mid_nodup as (HNa & Hab & Hdb & HNb). pose proof before_not_after as Hbna.
  apply seg_app. split.
  - eapply seg_frame; [exact Ha| |].
    + intros l Hl. rewrite get_loc_unlink, Hpd, decide_False; [done|].
      intros ->. by apply endl_not_read in Hl.
    + intros e He. rewrite prv_unlink, decide_False; [done|].
      intros ?%mid_next_in. set_solver.
  - destruct b as [|e b']; [done|]. simpl in Hb |- *. destruct Hb as (? & ? & Hb).
    rewrite get_loc_unlink, prv_unlink, Hn, !decide_True by (simpl; congruence).
    split_and!; [done|done|].
    eapply seg_frame; [exact Hb| |].
    + intros l Hl. rewrite get_loc_unlink, Hpd, decide_False; [done|].
      apply Hbna. right.
      apply elem_of_reads in Hl as [->|(x & ? & ->)]; set_solver.
    + intros x Hx. rewrite prv_unlink, Hn, decide_False; [done|].
      intros [= ->]. apply NoDup_cons in HNb. tauto.
Qed.

Lemma unlink_rep : rep_gen T (unlink w d q) (fupd L q (a ++ b)).
Proof.
  pose proof (mid_next _ _ _ _ E HT) as Hn.
  destruct (seg_mid _ _ _ _ E) as (Hp & Hpd & Ha & Hb).
  destruct mid_nodup as (HNa & Hab & Hdb & HNb). pose proof before_not_after as Hbna.
  constructor.
  - intros q'. destruct (decide (q' = q)) as [->|Hq].
    { rewrite fupd_eq. apply unlink_seg. }
    rewrite fupd_ne by done. apply seg_other.
    + intros l Hl _. rewrite get_loc_unlink, Hpd, decide_False by eauto using before_other. done.
    + intros e He. rewrite prv_unlink, decide_False; [done|]. intros Hx%mid_next_in. apply Hq.
      apply (rg_disj _ _ _ HL _ _ e); [done|rewrite E; set_solver].
  - intros q'. rewrite qlast_unlink, Hn, Hpd. destruct (decide (q' = q)) as [->|Hq].
    + rewrite fupd_eq. destruct b as [|e b']; simpl.
      * by rewrite decide_True, app_nil_r.
      * rewrite decide_False by naive_solver. by rewrite (rg_last _ _ _ HL), E, !endl_app.
    + rewrite fupd_ne, decide_False by naive_solver. apply HL.
  - intros q' HT'. rewrite get_loc_unlink, Hpd, Hn. destruct (decide (q' = q)) as [->|Hq].
    + rewrite fupd_eq. destruct b as [|e b']; simpl.
      * by rewrite app_nil_r, decide_True.
      * pose proof (rg_term _ _ _ HL q HT) as Ht. rewrite E, endl_app in Ht. simpl in Ht.
        rewrite endl_app. simpl. rewrite decide_False; [done|].
        apply Hbna. right.
        destruct (endl_cases (LNext e) b') as [[-> _]|(e'' & ? & ->)]; set_solver.
    + rewrite fupd_ne, decide_False; [by apply HL| |done].
      eapply before_other; [done|apply endl_in_chain].
  - apply fupd_nodup. apply NoDup_app. set_solver.
  - apply fupd_disj. intros e He q' ? ?. eapply (rg_disj _ _ _ HL); [|done]. rewrite E. set_solver.
  - apply (fupd_dom (unlink w d q)); [apply same_payload_unlink|].
    intros e He. eapply (rg_dom _ _ _ HL q). rewrite E. set_solver.
Qed.

(** The unlinked record still leads to its successor. *)
Lemma unlink_next : next (dat (unlink w d q) d) = list.head b.
Proof.
  rewrite next_get_loc, get_loc_unlink, decide_False, <-next_get_loc; [by eapply mid_next|].
  destruct (seg_mid _ _ _ _ E) as (_ & -> & _). apply before_not_after. by left.
Qed.

End unlink.

Lemma rep_head q : T q -> head w q = list.head (L q).
Proof.
  intros HT. pose proof (rg_seg _ _ _ HL q) as Hs. pose proof (rg_term _ _ _ HL q HT) as Ht.
  destruct (L q); simpl in *; [done|by destruct Hs].
Qed.

Lemma push_front_rep q d :
  (forall q', d ∉ L q') -> d ∈ dom (mem w) -> T q ->
  rep_gen T (push_front w q d) (fupd L q (d :: L q)).
Proof.
  intros Hd Hdom HT. pose proof (rep_head q HT) as Hh.
  assert (Hout : forall q' l, in_chain L q' l -> l <> LNext d).
  { intros q' l [->|(e & He & ->)]; [done|]. intros [= ->]. by apply (Hd q'). }
  assert (Hfirst : forall q' e, e ∈ L q' -> q' <> q -> head w q <> Some e).
  { intros q' e He Hq He'. apply Hq. apply (rg_disj _ _ _ HL _ _ e); [done|].
    rewrite Hh in He'. destruct (L q); simplify_eq/=. set_solver. }
  assert (Hin : forall q' e, e ∈ L q' -> e <> d) by (intros ??? ->; by eapply Hd).
  constructor.
  - intros q'. destruct (decide (q' = q)) as [->|Hq].
    + rewrite fupd_eq. cbn [seg]. rewrite get_loc_push_front, prv_push_front, !decide_True by done.
      split_and!; [done|done|].
      pose proof (rg_seg _ _ _ HL q) as Hs. pose proof (rg_nodup _ _ _ HL q) as HND.
      pose proof (Hd q) as Hdq. destruct (L q) as [|e es]; [done|]. cbn [seg list.head] in *.
      destruct Hs as (? & ? & Hs). apply NoDup_cons in HND as [He ?].
      assert (e <> d) by (intros ->; apply Hdq; left).
      rewrite get_loc_push_front, prv_push_front, (decide_False _ _ (P:=LNext d = _)) by done.
      rewrite (decide_True _ _ (P:=LNext d = _)), (decide_False _ _ (P:=e = d)), decide_True by done.
      split_and!; [done|done|]. eapply seg_frame; [exact Hs| |].
      * intros l Hl. rewrite get_loc_push_front, !decide_False; [done|..];
          apply elem_of_reads in Hl as [->|(x & ? & ->)]; try done; set_solver.
      * intros x Hx. rewrite prv_push_front, Hh, !decide_False; [done|..]; set_solver.
    + rewrite fupd_ne by done. apply seg_other.
      * intros l Hl _. rewrite get_loc_push_front, !decide_False; [done|by eauto|].
        intros ->. destruct Hl as [?|(?&?&?)]; congruence.
      * intros e He. rewrite prv_push_front, !decide_False; eauto.
  - intros q'. rewrite qlast_push_front, Hh. destruct (decide (q' = q)) as [->|Hq].
    + rewrite fupd_eq. simpl. rewrite (rg_last _ _ _ HL).
      destruct (L q); simpl; case_decide; naive_solver.
    + rewrite fupd_ne, decide_False by naive_solver. apply HL.
  - intros q' HT'. rewrite get_loc_push_front. destruct (decide (q' = q)) as [->|Hq].
    + rewrite fupd_eq. cbn [endl]. pose proof (rg_term _ _ _ HL q HT) as Ht.
      pose proof (Hd q) as Hdq. pose proof (Hout q _ (endl_in_chain q)) as Ho. rewrite Hh.
      destruct (L q) as [|e es]; cbn [endl list.head] in *.
      * by rewrite decide_False, decide_True.
      * rewrite !decide_False; [done|done|].
        by destruct (endl_cases (LNext e) es) as [[-> _]|(? & ? & ->)].
    + rewrite fupd_ne, !decide_False; [by apply HL|..|done].
      * apply (Hout q'), endl_in_chain.
      * intros Hl. pose proof (endl_in_chain q') as Hc. rewrite Hl in Hc.
        destruct Hc as [?|(?&?&?)]; congruence.
  - apply fupd_nodup, NoDup_cons. split; [by apply Hd|apply HL].
  - apply fupd_disj. intros e [->|?]%elem_of_cons q' ? ?;
      [by edestruct Hd|by eapply (rg_disj _ _ _ HL)].
  - apply (fupd_dom (push_front w q d)); [apply same_payload_push_front|].
    intros e [->|?]%elem_of_cons; [done|by eapply (rg_dom _ _ _ HL)].
Qed.

End rep.

(** Updates that touch no link. *)
Record same_links (w w' : lock_state) : Prop := {
  sl_get : forall l, get_loc w' l = get_loc w l;
  sl_prv : forall d, prv w' d = prv w d;
  sl_last : forall q, qlast w' q = qlast w q;
  sl_dom : dom (mem w) ⊆ dom (mem w')
}.

Lemma same_links_rep T w w' L : same_links w w' -> rep_gen T w L -> rep_gen T w' L.
Proof.
  intros [Hg Hp Hl Hd] HL. constructor.
  - intros q. eapply seg_frame; [apply HL|auto|auto].
  - intros q. rewrite Hl. apply HL.
  - intros q HT. rewrite Hg. by apply HL.
  - apply HL.
  - apply HL.
  - intros q d He. apply Hd. by eapply HL.
Qed.

Lemma same_links_refl w : same_links w w.
Proof. by constructor. Qed.

Lemma same_links_trans w1 w2 w3 : same_links w1 w2 -> same_links w2 w3 -> same_links w1 w3.
Proof. intros [] []. constructor; intros; try congruence. set_solver. Qed.

Lemma same_links_upd w d f :
  (forall x, next (f x) = next x /\ prev (f x) = prev x) -> same_links w (upd w d f).
Proof.
  intros Hf. constructor; intros.
  - apply get_loc_upd. apply Hf.
  - apply prv_upd. apply Hf.
  - apply qlast_upd.
  - unfold upd; simpl. rewrite dom_insert. apply union_subseteq_r.
Qed.

Lemma same_links_emit w e : same_links w (emit w e).
Proof. by constructor. Qed.

Lemma same_links_wlc w n : same_links w (set_write_lock_count w n).
Proof. constructor; try done; by intros []. Qed.

Lemma same_links_rnwc w n : same_links w (set_read_no_write_count w n).
Proof. constructor; try done; by intros []. Qed.

Lemma same_links_wake w d : same_links w (wake w d).
Proof. eapply same_links_trans; [|apply same_links_emit]. by apply same_links_upd. Qed.

(** ** Following a queue *)

Fixpoint chain_from (fuel : nat) (w : lock_state) (data : option nat) : list nat :=
  match fuel, data with
  | S fuel, Some d => d :: chain_from fuel w (next (dat w d))
  | _, _ => []
  end.

(** The elements of a queue, in order. *)
Definition chain (w : lock_state) (q : qid) : list nat :=
  chain_from (chain_fuel w) w (head w q).

Lemma chain_from_seg w p ds fuel :
  seg w p ds -> get_loc w (endl p ds) = None -> length ds < fuel ->
  chain_from fuel w (get_loc w p) = ds.
Proof.
  revert p fuel. induction ds as [|d ds IH]; intros p [|fuel] Hs He Hf; simpl in *; try lia.
  - by rewrite He.
  - destruct Hs as (-> & _ & Hs). f_equal. rewrite next_get_loc. apply IH; [done..|lia].
Qed.

Lemma rep_length T w L q : rep_gen T w L -> length (L q) <= size (mem w).
Proof.
  intros HL. rewrite <-(size_dom (D:=gset nat)), <-(size_list_to_set (C:=gset nat)) by apply HL.
  apply subseteq_size. intros d Hd%elem_of_list_to_set. by eapply HL.
Qed.

Lemma rep_chain T w L q : rep_gen T w L -> T q -> chain w q = L q.
Proof.
  intros HL HT. unfold chain. rewrite head_get_loc. apply chain_from_seg; [apply HL|by apply HL|].
  unfold chain_fuel. pose proof (rep_length _ _ _ q HL). lia.
Qed.

Lemma rep_unique w L L' : rep w L -> rep w L' -> forall q, L q = L' q.
Proof. intros H H' q. by rewrite <-(rep_chain _ _ _ _ H), (rep_chain _ _ _ _ H'). Qed.

Lemma rep_self w L : rep w L -> rep w (chain w).
Proof.
  intros HL. assert (E : forall q, chain w q = L q) by (intros; by eapply rep_chain).
  constructor; intros q *; rewrite ?E; try apply HL.
Qed.

Lemma has_old_lock_from_spec w p ds fuel o :
  seg w p ds -> get_loc w (endl p ds) = None -> length ds < fuel ->
  has_old_lock_from fuel w (get_loc w p) o = true <-> exists d, d ∈ ds /\ own w d = o.
Proof.
  revert p fuel. induction ds as [|d ds IH]; intros p [|fuel] Hs He Hf; simpl in *; try lia.
  - rewrite He. split; [done|]. intros (? & ?%elem_of_nil & _). done.
  - destruct Hs as (-> & _ & Hs). unfold thr_lock_owner_equal. case_bool_decide as Ho.
    + split; [|done]. intros _. exists d. split; [left|done].
    + rewrite next_get_loc, IH by (done || lia).
      split; intros (x & Hx & <-); exists x.
      * split; [by right|done].
      * apply elem_of_cons in Hx as [->|?]; done.
Qed.

Lemma has_old_lock_spec w L q o : rep w L ->
  has_old_lock w q o = true <-> exists d, d ∈ L q /\ own w d = o.
Proof.
  intros HL. unfold has_old_lock. rewrite head_get_loc.
  apply has_old_lock_from_spec; [apply HL|by apply HL|].
  unfold chain_fuel. pose proof (rep_length _ _ _ q HL). lia.
Qed.

(** ** Releasing the waiting readers *)

(** Whether [free_all_read_locks] grants [d]. *)
Definition freed (uci : bool) (w : lock_state) (d : nat) : bool :=
  negb (tl_eq (ty w d) TL_READ_NO_INSERT && uci).

Definition no_insert (w : lock_state) (d : nat) : bool := tl_eq (ty w d) TL_READ_NO_INSERT.

Definition count (p : nat -> bool) (ds : list nat) : Z := Z.of_nat (length (List.filter p ds)).

Lemma count_app p a b : count p (a ++ b) = (count p a + count p b)%Z.
Proof. unfold count. rewrite List.filter_app, length_app. lia. Qed.

Lemma count_nil p : count p [] = 0%Z.
Proof. done. Qed.

Lemma count_cons p d ds : count p (d :: ds) = ((if p d then 1 else 0) + count p ds)%Z.
Proof. unfold count. simpl. destruct (p d); simpl; lia. Qed.

Lemma count_ext p p' ds : (forall d, d ∈ ds -> p d = p' d) -> count p ds = count p' ds.
Proof.
  intros H. unfold count. f_equal. f_equal. apply List.filter_ext_in.
  intros d Hd. apply H. by apply list_elem_of_In.
Qed.

(** What a release of the readers [g] does to the records: they are no longer
    waiting, they are counted and signalled. *)
Record released (w w' : lock_state) (g : list nat) : Prop := {
  rl_ty : forall d, ty w' d = ty w d;
  rl_own : forall d, own w' d = own w d;
  rl_par : forall d, par w' d = par w d;
  rl_flags : flags (lk w') = flags (lk w);
  rl_cnd : forall d, cnd w' d = if decide (d ∈ g) then None else cnd w d;
  rl_rnwc : forall n, read_no_write_count (lk w) = u32 n ->
    read_no_write_count (lk w') = u32 (n + count (no_insert w) g);
  rl_events : events w' = events w ++ ((fun d => EvSignal (cnd w d)) <$> g)
}.

Lemma released_same w w' :
  same_payload w w' -> events w' = events w -> released w w' [].
Proof.
  intros [] He. constructor; try done.
  - intros n Hn. rewrite count_nil, Z.add_0_r. congruence.
  - by rewrite He, app_nil_r.
Qed.

Lemma released_trans w1 w2 w3 g g' :
  (forall d, d ∈ g -> d ∉ g') ->
  released w1 w2 g -> released w2 w3 g' -> released w1 w3 (g ++ g').
Proof.
  intros Hd [Ht Ho Hp Hf Hc Hr He] [Ht' Ho' Hp' Hf' Hc' Hr' He'].
  constructor; intros; try congruence.
  - rewrite Hc', Hc. repeat case_decide; set_solver.
  - rewrite (Hr' _ (Hr _ H)), count_app. f_equal.
    rewrite (count_ext (no_insert w2) (no_insert w1)); [lia|].
    intros d _. unfold no_insert. by rewrite Ht.
  - rewrite He', He, fmap_app, <-app_assoc. do 2 f_equal.
    apply list_fmap_ext. intros i x Hi. rewrite Hc, decide_False; [done|].
    intros ?%Hd. eauto using list_elem_of_lookup_2.
Qed.

Lemma cnd_wake w d x : cnd (wake w d) x = if decide (x = d) then None else cnd w x.
Proof. unfold cnd, wake, emit. change (dat (mk_state _ ?m _) x) with (m !!! x).
  change (mem (upd w d (set_cond None)) !!! x) with (dat (upd w d (set_cond None)) x).
  rewrite dat_upd. by case_decide. Qed.

(** One granted reader. *)
Definition grant_reader (w : lock_state) (d : nat) : lock_state :=
  wake (if tl_eq (ty w d) TL_READ_NO_INSERT
        then set_read_no_write_count w (u32 (read_no_write_count (lk w) + 1)) else w) d.

Lemma released_grant w d : released w (grant_reader w d) [d].
Proof.
  unfold grant_reader. set (w1 := if tl_eq _ _ then _ else w).
  assert (Hd : forall x, dat w1 x = dat w x) by (unfold w1; by destruct (tl_eq _ _)).
  assert (Hw : forall x, dat (wake w1 d) x =
                 if decide (x = d) then set_cond None (dat w d) else dat w x).
  { intros x. change (dat (wake w1 d) x) with (dat (upd w1 d (set_cond None)) x).
    rewrite dat_upd, !Hd. done. }
  constructor; try (intros x; unfold ty, own, par; rewrite Hw; by case_decide; subst).
  - simpl. unfold w1. by destruct (tl_eq _ _).
  - intros x. unfold cnd. rewrite Hw. repeat case_decide; set_solver.
  - intros n Hn. simpl. unfold w1. rewrite count_cons, count_nil, Z.add_0_r. unfold no_insert.
    destruct (tl_eq _ _); simpl; [by rewrite Hn, u32_add|by rewrite Z.add_0_r].
  - simpl. change (cond (dat w1 d)) with (cnd w1 d). unfold cnd. rewrite Hd.
    unfold w1. by destruct (tl_eq _ _).
Qed.

Lemma same_links_grant w d : same_links w (grant_reader w d).
Proof.
  unfold grant_reader. eapply same_links_trans; [|apply same_links_wake].
  destruct (tl_eq _ _); [apply same_links_rnwc|apply same_links_refl].
Qed.

(** All chains but that of [q0] are closed. *)
Definition open_at (q0 q : qid) : Prop := q <> q0.

Lemma rep_weaken w L q0 : rep w L -> rep_gen (open_at q0) w L.
Proof. intros []. constructor; eauto. Qed.

(** [*q0.last= 0] closes the chain again. *)
Lemma close_rep w L q0 : rep_gen (open_at q0) w L -> rep (set_loc w (qlast w q0) None) L.
Proof.
  intros HL. pose proof (rg_last _ _ _ HL q0) as Hlast.
  assert (Hne : forall q l, in_chain L q l -> q <> q0 -> l <> qlast w q0).
  { intros q l Hl Hq ->. apply Hq. eapply (in_chain_unique _ _ _ HL); [done|].
    rewrite Hlast. eapply endl_in_chain. }
  constructor; try apply HL.
  - intros q. apply (seg_other _ _ _ HL); [|intros; apply prv_set_loc].
    intros l Hl Hl'. rewrite get_set_loc, decide_False; [done|].
    destruct (decide (q = q0)) as [->|]; [congruence|eauto].
  - intros q. rewrite qlast_set_loc. apply HL.
  - intros q _. rewrite get_set_loc. case_decide as Hl; [done|].
    apply HL. intros ->. congruence.
  - intros q d Hd. apply (sp_dom _ _ (same_payload_set_loc w _ _)). by eapply HL.
Qed.

(** The read_wait chain is open while it is being rebuilt. *)
Notation open_rw := (open_at Q_read_wait).

(** The queues after the loop went over [ds]. *)
Definition freed_queues (uci : bool) (w : lock_state) (L : qid -> list nat)
    (a ds : list nat) : qid -> list nat :=
  fupd (fupd L Q_read (a ++ List.filter (freed uci w) ds))
    Q_read_wait (L Q_read_wait ++ List.filter (fun d => negb (freed uci w d)) ds).

Lemma events_append w q d : events (append w q d) = events w.
Proof. unfold append. simpl. by destruct (ll_last (lst w q)). Qed.

Lemma events_unlink w d q : events (unlink w d q) = events w.
Proof. unfold unlink. destruct (next _), (prev _); done. Qed.

(** A reader that has to keep waiting goes from the read to the read_wait
    chain, and its [next] pointer still leads to the readers not yet visited. *)
Lemma keep_waiting w L a d b :
  rep_gen open_rw w L -> L Q_read = a ++ d :: b ->
  let w' := append (unlink w d Q_read) Q_read_wait d in
  rep_gen open_rw w' (fupd (fupd L Q_read (a ++ b)) Q_read_wait (L Q_read_wait ++ [d])) /\
  released w w' [] /\ next (dat w' d) = list.head b.
Proof.
  intros HL E w'.
  pose proof (unlink_rep _ _ _ HL Q_read a d b E ltac:(done)) as H1.
  destruct (mid_nodup _ _ _ HL _ _ _ _ E) as (_ & Hab & Hdb & _).
  assert (Hin : d ∈ L Q_read) by (rewrite E; set_solver).
  assert (Hrw : d ∉ L Q_read_wait) by (intros ?; by discriminate (rg_disj _ _ _ HL _ _ _ Hin H)).
  split_and!.
  - eapply (append_rep _ _ _ H1).
    + intros q'. unfold fupd. case_decide; [set_solver|].
      intros ?. by apply H, (rg_disj _ _ _ HL _ _ d).
    + apply (sp_dom _ _ (same_payload_unlink w d Q_read)). by eapply HL.
    + intros []. done.
  - apply released_same.
    + eapply same_payload_trans; [apply same_payload_unlink|apply same_payload_append].
    + unfold w'. by rewrite events_append, events_unlink.
  - unfold w'. rewrite next_get_loc, get_loc_append, decide_False.
    + rewrite <-next_get_loc. by eapply unlink_next.
    + rewrite (rg_last _ _ _ H1). rewrite fupd_ne by done.
      destruct (endl_cases (LHead Q_read_wait) (L Q_read_wait)) as [[-> _]|(x & ? & ->)]; [done|].
      by intros [= ->].
Qed.

Lemma freed_ext uci w w' ds : (forall d, ty w' d = ty w d) ->
  List.filter (freed uci w') ds = List.filter (freed uci w) ds /\
  List.filter (fun d => negb (freed uci w' d)) ds =
    List.filter (fun d => negb (freed uci w d)) ds.
Proof. intros H. split; apply List.filter_ext; intros d; unfold freed; by rewrite H. Qed.

Lemma elem_of_filter_bool (p : nat -> bool) ds d : d ∈ List.filter p ds <-> p d = true /\ d ∈ ds.
Proof. rewrite !list_elem_of_In, List.filter_In. tauto. Qed.

(** The loop of [free_all_read_locks] visits every reader once. *)
Lemma free_loop_spec uci b : forall fuel w L a d,
  rep_gen open_rw w L -> L Q_read = a ++ d :: b -> length b < fuel ->
  rep_gen open_rw (free_read_locks_loop fuel w d uci) (freed_queues uci w L a (d :: b)) /\
  released w (free_read_locks_loop fuel w d uci) (List.filter (freed uci w) (d :: b)).
Proof.
  induction b as [|e b IH]; intros [|fuel] w L a d HL E Hf; simpl in Hf; try lia.
  all: destruct (mid_nodup _ _ _ HL _ _ _ _ E) as (_ & Hab & Hdb & HNb).
  all: cbn [free_read_locks_loop]; destruct (tl_eq (ty w d) TL_READ_NO_INSERT && uci) eqn:Ek.
  all: assert (Hfd : freed uci w d = negb (tl_eq (ty w d) TL_READ_NO_INSERT && uci)) by done;
    rewrite Ek in Hfd; simpl in Hfd.
  1,3: destruct (keep_waiting w L a d _ HL E) as (H1 & H2 & ->); cbn [list.head];
    unfold freed_queues; cbn [List.filter]; rewrite Hfd; cbn [negb].
  3,4: fold (grant_reader w d);
    pose proof (same_links_rep _ _ _ _ (same_links_grant w d) HL) as H1;
    pose proof (released_grant w d) as H2;
    rewrite (mid_next _ _ _ H1 _ _ _ _ E) by done; cbn [list.head];
    unfold freed_queues; cbn [List.filter]; rewrite Hfd; cbn [negb].
  - split; [|done]. by rewrite (app_nil_r a) in *.
  - set (w1 := append _ _ _) in *. destruct (freed_ext uci w w1 (e :: b) (rl_ty _ _ _ H2)) as [F1 F2].
    edestruct (IH fuel w1 _ a e H1) as [H3 H4]; [by rewrite fupd_ne, fupd_eq by done|lia|].
    unfold freed_queues in H3. rewrite F1, F2 in H3. rewrite F1 in H4. split.
    + eapply rep_gen_proper; [|exact H3]. intros q. unfold fupd.
      repeat case_decide; subst; try done. by rewrite <-app_assoc.
    + eapply (released_trans _ _ _ []); [by intros ? ?%elem_of_nil|done|done].
  - split; [|done]. eapply rep_gen_proper; [|exact H1]. intros q. unfold fupd.
    repeat case_decide; subst; try done; by rewrite ?app_nil_r.
  - set (w1 := grant_reader w d) in *.
    destruct (freed_ext uci w w1 (e :: b) (rl_ty _ _ _ H2)) as [F1 F2].
    edestruct (IH fuel w1 _ (a ++ [d]) e H1) as [H3 H4]; [by rewrite <-app_assoc|lia|].
    unfold freed_queues in H3. rewrite F1, F2 in H3. rewrite F1 in H4. split.
    + eapply rep_gen_proper; [|exact H3]. intros q. unfold fupd.
      repeat case_decide; subst; try done. by rewrite <-app_assoc.
    + eapply (released_trans _ _ _ [d]); [|done|done].
      intros x ->%list_elem_of_singleton. change (d ∉ List.filter (freed uci w) (e :: b)). rewrite elem_of_filter_bool. tauto.
Qed.

(** The whole read_wait chain is spliced to the end of the read chain. *)
Definition splice (w : lock_state) (d : nat) : lock_state :=
  let last := ll_last (lst w Q_read) in
  let w := set_loc w last (Some d) in
  let w := upd w d (set_prev last) in
  let w := set_last w Q_read (ll_last (lst w Q_read_wait)) in
  set_last w Q_read_wait (LHead Q_read_wait).

Section splice.
Context (w : lock_state) (d : nat).

Lemma get_loc_splice l :
  get_loc (splice w d) l = if decide (l = qlast w Q_read) then Some d else get_loc w l.
Proof. unfold splice. by autorewrite with obs. Qed.

Lemma prv_splice x : prv (splice w d) x = if decide (x = d) then qlast w Q_read else prv w x.
Proof. unfold splice. by autorewrite with obs. Qed.

Lemma qlast_splice q : qlast (splice w d) q =
  if decide (q = Q_read_wait) then LHead Q_read_wait
  else if decide (q = Q_read) then qlast w Q_read_wait else qlast w q.
Proof.
  unfold splice. autorewrite with obs.
  change (ll_last (lst ?w' Q_read_wait)) with (qlast w' Q_read_wait). by autorewrite with obs.
Qed.

Lemma same_payload_splice : same_payload w (splice w d).
Proof.
  unfold splice. do 2 (eapply same_payload_trans; [|apply same_payload_set_lst]).
  eapply same_payload_trans; [apply same_payload_set_loc|by apply same_payload_upd].
Qed.

Lemma events_splice : events (splice w d) = events w.
Proof. unfold splice. simpl. by destruct (ll_last _). Qed.

Lemma splice_rep L ds : rep w L -> L Q_read_wait = d :: ds ->
  rep_gen open_rw (splice w d)
    (fupd (fupd L Q_read (L Q_read ++ L Q_read_wait)) Q_read_wait []).
Proof.
  intros HL E. pose proof (rg_last _ _ _ HL Q_read) as Hlast.
  assert (Hne : forall q l, in_chain L q l -> q <> Q_read -> l <> qlast w Q_read).
  { intros q l Hl Hq ->. apply Hq. eapply (in_chain_unique _ _ _ HL); [done|].
    rewrite Hlast. eapply endl_in_chain. }
  assert (Hds : forall q x, x ∈ L q -> q <> Q_read_wait -> x <> d).
  { intros q x Hx Hq ->. apply Hq. apply (rg_disj _ _ _ HL _ _ d); [done|].
    rewrite E. left. }
  assert (Hend : endl (endl (LHead Q_read) (L Q_read)) (L Q_read_wait) =
                 endl (LHead Q_read_wait) (L Q_read_wait)) by (by rewrite E).
  assert (Hfrom : forall q x,
            x ∈ fupd (fupd L Q_read (L Q_read ++ L Q_read_wait)) Q_read_wait [] q ->
            exists p, x ∈ L p /\ q <> Q_read_wait /\ (p = q \/ q = Q_read /\ p = Q_read_wait)).
  { intros q x. unfold fupd. repeat case_decide; subst; [set_solver| |by eauto].
    rewrite elem_of_app. naive_solver. }
  constructor.
  - intros q. unfold fupd. repeat case_decide; subst; [done|..].
    + apply seg_app. split.
      * apply (seg_other _ _ _ HL); [|intros x Hx].
        -- intros l _ Hl. by rewrite get_loc_splice, Hlast, decide_False.
        -- rewrite prv_splice, decide_False; [done|]. by eapply Hds.
      * pose proof (rg_seg _ _ _ HL Q_read_wait) as Hs.
        pose proof (rg_nodup _ _ _ HL Q_read_wait) as HND. rewrite E in *.
        cbn [seg] in *. destruct Hs as (_ & _ & Hs). apply NoDup_cons in HND as [Hd _].
        rewrite get_loc_splice, prv_splice, Hlast, !decide_True by done.
        split_and!; [done..|]. eapply seg_frame; [done| |].
        -- intros l Hl%elem_of_reads. rewrite get_loc_splice, decide_False; [done|].
           apply (Hne Q_read_wait); [|done]. right. rewrite E.
           destruct Hl as [->|(x & ? & ->)]; set_solver.
        -- intros x Hx. rewrite prv_splice, decide_False; [done|]. by intros ->.
    + apply (seg_other _ _ _ HL); [|intros x Hx].
      * intros l Hl _. rewrite get_loc_splice, decide_False by eauto. done.
      * rewrite prv_splice, decide_False by eauto. done.
  - intros q. rewrite qlast_splice. unfold fupd. repeat case_decide; subst; try done.
    + rewrite endl_app, Hend. apply HL.
    + apply HL.
  - intros q Hq. rewrite fupd_ne by done. rewrite get_loc_splice, decide_False.
    + unfold fupd. case_decide; subst; [|by apply HL]. rewrite endl_app, Hend. by apply HL.
    + unfold fupd. case_decide; subst; [rewrite endl_app, Hend; apply (Hne Q_read_wait)|apply (Hne q)];
        try done; by eapply endl_in_chain.
  - intros q. unfold fupd. repeat case_decide; subst; [apply NoDup_nil_2| |apply HL].
    apply NoDup_app. split_and!; [apply HL| |apply HL].
    intros x Hx Hx'. by discriminate (rg_disj _ _ _ HL _ _ x Hx Hx').
  - intros q q' x (p & Hp & Hq)%Hfrom (p' & Hp' & Hq')%Hfrom.
    pose proof (rg_disj _ _ _ HL _ _ _ Hp Hp'). intuition congruence.
  - intros q x (p & Hp & _)%Hfrom. apply (sp_dom _ _ same_payload_splice). by eapply HL.
Qed.

End splice.

(** The queues after [free_all_read_locks]. *)
Definition released_queues (uci : bool) (w : lock_state) (L : qid -> list nat) :=
  fupd (fupd L Q_read (L Q_read ++ List.filter (freed uci w) (L Q_read_wait)))
    Q_read_wait (List.filter (fun d => negb (freed uci w d)) (L Q_read_wait)).

Lemma released_wlc w w' g n : released w w' g -> released w (set_write_lock_count w' n) g.
Proof. intros []. by constructor. Qed.

Lemma events_set_loc w p v : events (set_loc w p v) = events w.
Proof. by destruct p. Qed.

Lemma free_all_spec uci w L : rep w L -> L Q_read_wait <> [] ->
  rep (free_all_read_locks w uci) (released_queues uci w L) /\
  released w (free_all_read_locks w uci) (List.filter (freed uci w) (L Q_read_wait)).
Proof.
  intros HL Hne. destruct (L Q_read_wait) as [|d ds] eqn:E; [done|].
  unfold free_all_read_locks. rewrite (rep_head _ _ _ HL) by done. rewrite E. cbn [list.head].
  fold (splice w d). pose proof (splice_rep w d L ds HL E) as H1.
  pose proof (same_payload_splice w d) as Hsp.
  destruct (freed_ext uci w (splice w d) (d :: ds) (sp_ty _ _ Hsp)) as [F1 F2].
  destruct (free_loop_spec uci ds (chain_fuel (splice w d)) (splice w d) _ (L Q_read) d H1)
    as [H2 H3].
  { by rewrite fupd_ne, fupd_eq, E by done. }
  { pose proof (rep_length _ _ _ Q_read H1) as Hlen. rewrite fupd_ne, fupd_eq, E in Hlen by done.
    rewrite length_app in Hlen. cbn [length] in Hlen. unfold chain_fuel. lia. }
  set (w2 := free_read_locks_loop _ _ _ _) in *.
  pose proof (close_rep _ _ _ H2) as H4. unfold freed_queues in H4. rewrite F1, F2 in H4.
  assert (H5 : rep (set_loc w2 (ll_last (lst w2 Q_read_wait)) None) (released_queues uci w L)).
  { eapply rep_gen_proper; [|exact H4]. intros q. unfold released_queues, fupd.
    repeat case_decide; subst; rewrite ?E; done. }
  assert (H6 : released w (set_loc w2 (ll_last (lst w2 Q_read_wait)) None)
                 (List.filter (freed uci w) (d :: ds))).
  { rewrite <-(app_nil_l (List.filter _ _)).
    eapply released_trans; [by intros ? ?%elem_of_nil| |].
    { apply released_same; [apply Hsp|apply events_splice]. }
    rewrite <-(app_nil_r (List.filter _ _)). rewrite F1 in H3.
    eapply released_trans; [by intros ? _ ?%elem_of_nil|exact H3|].
    apply released_same; [apply same_payload_set_loc|apply events_set_loc]. }
  destruct (head _ Q_read_wait); [done|].
  split; [eapply same_links_rep; [apply same_links_wlc|done]|by apply released_wlc].
Qed.

(** [start_write] moves [d] from the write_wait to the write queue. *)
Lemma start_write_rep w L a d b : rep w L -> L Q_write_wait = a ++ d :: b ->
  rep (start_write w d) (fupd (fupd L Q_write_wait (a ++ b)) Q_write (L Q_write ++ [d])).
Proof.
  intros HL E. pose proof (unlink_rep _ _ _ HL Q_write_wait a d b E ltac:(done)) as H1.
  destruct (mid_nodup _ _ _ HL _ _ _ _ E) as (_ & Hab & Hdb & _).
  assert (Hin : d ∈ L Q_write_wait) by (rewrite E; set_solver).
  pose proof (append_rep _ _ _ (rep_weaken _ _ Q_write H1) Q_write d) as H2.
  unfold start_write. change (upd ?w d (set_next None)) with (set_loc w (LNext d) None).
  set (w1 := append _ _ _) in *.
  replace (LNext d) with (qlast w1 Q_write)
    by (unfold w1; rewrite qlast_append, decide_True; done).
  apply close_rep, H2.
  - intros q. unfold fupd. case_decide; [set_solver|].
    intros ?. by apply H, (rg_disj _ _ _ HL _ _ d).
  - apply (sp_dom _ _ (same_payload_unlink w d Q_write_wait)). by eapply HL.
  - by intros [].
Qed.

Lemma same_payload_start_write w d : same_payload w (start_write w d).
Proof.
  unfold start_write. eapply same_payload_trans; [|by apply same_payload_upd].
  eapply same_payload_trans; [apply same_payload_unlink|apply same_payload_append].
Qed.

(** Taking a record out of a queue and putting it first in another one. *)
Lemma requeue_front_rep w L a d b q q' : q <> q' -> rep w L -> L q = a ++ d :: b ->
  rep (push_front (unlink w d q) q' d) (fupd (fupd L q (a ++ b)) q' (d :: L q')).
Proof.
  intros Hq HL E. pose proof (unlink_rep _ _ _ HL q a d b E ltac:(done)) as H1.
  destruct (mid_nodup _ _ _ HL _ _ _ _ E) as (_ & Hab & Hdb & _).
  assert (Hin : d ∈ L q) by (rewrite E; set_solver).
  pose proof (push_front_rep _ _ _ H1 q' d) as H2. rewrite fupd_ne in H2 by done.
  apply H2; [|apply (sp_dom _ _ (same_payload_unlink w d q)); by eapply HL|done].
  intros q''. unfold fupd. case_decide; [set_solver|].
  intros ?. by apply H, (rg_disj _ _ _ HL _ _ d).
Qed.

(** Records outside the queues can be changed freely. *)
Lemma rep_upd_out w L d f : rep w L -> (forall q, d ∉ L q) -> rep (upd w d f) L.
Proof.
  intros HL Hd.
  assert (Hg : forall q l, in_chain L q l -> get_loc (upd w d f) l = get_loc w l).
  { intros q l [->|(e & He & ->)]; [done|]. cbn [get_loc]. rewrite dat_upd, decide_False; [done|].
    intros ->. by apply (Hd q). }
  constructor; try apply HL.
  - intros q. apply (seg_other _ _ _ HL); [eauto|]. intros e He. unfold prv.
    rewrite dat_upd, decide_False; [done|]. intros ->. by apply (Hd q).
  - intros q _. rewrite (Hg q) by (eapply endl_in_chain). by apply HL.
  - intros q e He. simpl. apply dom_insert, union_subseteq_r. by eapply HL.
Qed.

(** Emptying a queue. *)
Definition clear (w : lock_state) (q : qid) : lock_state :=
  set_head (set_last w q (LHead q)) q None.

Lemma get_loc_clear w q l : get_loc (clear w q) l = if decide (l = LHead q) then None else get_loc w l.
Proof.
  unfold clear. change (set_head ?w q None) with (set_loc w (LHead q) None). by autorewrite with obs.
Qed.

Lemma clear_rep w L q : rep w L -> rep (clear w q) (fupd L q []).
Proof.
  intros HL.
  assert (Hne : forall q' l, q' <> q -> in_chain L q' l -> l <> LHead q).
  { intros q' l Hq [->|(e & _ & ->)]; congruence. }
  assert (Hlast : forall q', qlast (clear w q) q' = if decide (q' = q) then LHead q else qlast w q').
  { intros q'. unfold clear. change (set_head ?w q None) with (set_loc w (LHead q) None).
    by autorewrite with obs. }
  constructor.
  - intros q'. unfold fupd. case_decide as Hq; [done|]. apply (seg_other _ _ _ HL); [|done].
    intros l Hl _. rewrite get_loc_clear, decide_False by eauto. done.
  - intros q'. rewrite Hlast. unfold fupd. case_decide as Hq; [by subst|apply HL].
  - intros q' _. rewrite get_loc_clear. destruct (decide (q' = q)) as [->|Hq].
    + by rewrite fupd_eq, decide_True.
    + rewrite fupd_ne, decide_False; [by apply HL| |done].
      eapply Hne; [done|]. by eapply endl_in_chain.
  - apply (fupd_nodup _ _ _ HL), NoDup_nil_2.
  - apply (fupd_disj _ _ _ HL). by intros ? ?%elem_of_nil.
  - apply (fupd_dom _ _ _ HL); [by constructor|]. by intros ? ?%elem_of_nil.
Qed.

End ThrLockQueues.
