(* ===== verification/ThrLockSafety.v ===== *)
(** * Safety of table locks

    The compatibility rules of the lock types as an invariant of the granted
    locks of a [THR_LOCK], and that every operation of mysys/thr_lock.c keeps
    it: a lock that excludes others is only ever held together with locks of
    the same owner, a concurrent insert never runs next to a foreign
    [TL_READ_NO_INSERT], and no thread is left waiting for a lock nobody holds. *)

From S2P Require Import Prelude ThrLock ThrLockQueues.
Import ThrLock ThrLockQueues.

Module ThrLockSafety.

(** ** Lock types *)

(** The write locks that exclude every other lock. *)
Definition strong (t : thr_lock_type) : bool := tl_lt TL_WRITE_DELAYED t.

Definition read_type (t : thr_lock_type) : bool :=
  tl_le TL_READ_DEFAULT t && tl_le t TL_READ_NO_INSERT.

(** [TL_WRITE_DEFAULT] only exists in the parser. *)
Definition write_type (t : thr_lock_type) : bool :=
  tl_le TL_FIRST_WRITE t && negb (tl_eq t TL_WRITE_DEFAULT).

(** Write locks are granted in the order of this class: exclusive locks first,
    then (without concurrent inserts of several threads) those that only one
    thread holds. *)
Definition cls (a : bool) (t : thr_lock_type) : nat :=
  if strong t then 2
  else if a then 0
  else if tl_eq t TL_WRITE_CONCURRENT_INSERT || tl_eq t TL_WRITE_DELAYED then 1 else 0.

(** ** The granted locks

    [R] and [W] are the read and the write queue, [a] is
    [allow_multiple_concurrent_insert]. *)

Record safe (a : bool) (t : nat -> thr_lock_type) (o : nat -> option nat) (R W : list nat)
    : Prop := {
  sf_strong : forall d, d ∈ W -> strong (t d) = true ->
    forall e, e ∈ R ++ W -> o e = o d;
  sf_order : StronglySorted (fun x y => cls a (t y) <= cls a (t x)) W;
  sf_delayed : forall d, d ∈ W -> t d = TL_WRITE_DELAYED -> W = [d];
  sf_insert : a = false -> forall d, d ∈ W -> t d = TL_WRITE_CONCURRENT_INSERT ->
    forall e, e ∈ W -> o e = o d;
  sf_no_insert : a = false -> forall d, d ∈ W -> t d = TL_WRITE_CONCURRENT_INSERT ->
    forall e, e ∈ R -> t e = TL_READ_NO_INSERT -> o e = o d
}.

Lemma StronglySorted_sublist {A} (P : A -> A -> Prop) l l' :
  sublist l l' -> StronglySorted P l' -> StronglySorted P l.
Proof.
  induction 1 as [|x l l' Hs IH|x l l' Hs IH]; intros H; [done|..];
    apply StronglySorted_inv in H as [H Hx]; [|auto].
  constructor; [auto|]. rewrite Forall_forall in *. intros y Hy. apply Hx.
  by eapply elem_of_sublist.
Qed.

Lemma StronglySorted_snoc {A} (P : A -> A -> Prop) l x :
  StronglySorted P l -> (forall y, y ∈ l -> P y x) -> StronglySorted P (l ++ [x]).
Proof.
  induction 1 as [|y l Hl IH Hy]; intros Hx; simpl; [by repeat constructor|].
  constructor; [apply IH; set_solver|]. rewrite Forall_forall in *.
  intros z [?| ->%list_elem_of_singleton]%elem_of_app; [auto|apply Hx; left].
Qed.

Section safe.
Context (a : bool) (t : nat -> thr_lock_type) (o : nat -> option nat).
Implicit Types (R W : list nat).

Lemma safe_remove R W R' W' :
  safe a t o R W -> (forall e, e ∈ R' -> e ∈ R) -> sublist W' W -> safe a t o R' W'.
Proof.
  intros [H1 H2 H3 H4 H5] HR HW.
  assert (HW' : forall e, e ∈ W' -> e ∈ W) by (intros; by eapply elem_of_sublist).
  constructor; eauto using StronglySorted_sublist.
  - intros d Hd Hs e He. apply H1; auto. rewrite elem_of_app in *. naive_solver.
  - intros d Hd Ht. rewrite (H3 d) in HW by auto. apply sublist_cons_r in HW as [HW|(k & -> & HW)].
    + apply sublist_nil_r in HW as ->. by apply elem_of_nil in Hd.
    + by apply sublist_nil_r in HW as ->.
Qed.

Lemma safe_ext t' o' R W : safe a t o R W ->
  (forall e, e ∈ R ++ W -> t' e = t e /\ o' e = o e) -> safe a t' o' R W.
Proof.
  intros [H1 H2 H3 H4 H5] He.
  assert (HR : forall e, e ∈ R -> t' e = t e /\ o' e = o e) by (intros; apply He; set_solver).
  assert (HW : forall e, e ∈ W -> t' e = t e /\ o' e = o e) by (intros; apply He; set_solver).
  constructor.
  - intros d Hd Hs e Hin. destruct (HW d Hd) as [Ht ->]. destruct (He e Hin) as [_ ->].
    rewrite Ht in Hs. eauto.
  - clear - H2 HW. induction H2 as [|x W HS IH Hx]; constructor.
    + apply IH. intros. apply HW. by right.
    + rewrite Forall_forall in *. intros y Hy. destruct (HW x) as [-> _]; [left|].
      destruct (HW y) as [-> _]; [by right|]. auto.
  - intros d Hd. destruct (HW d Hd) as [-> _]. auto.
  - intros Ha d Hd Ht e Hin. destruct (HW d Hd) as [Ht' ->]. destruct (HW e Hin) as [_ ->].
    rewrite Ht' in Ht. eauto.
  - intros Ha d Hd Ht e Hin. destruct (HW d Hd) as [Ht' ->]. destruct (HR e Hin) as [-> ->].
    rewrite Ht' in Ht. eauto.
Qed.

Lemma safe_nil R : safe a t o R [].
Proof. constructor; try set_solver. constructor. Qed.

Lemma safe_single d : safe a t o [] [d].
Proof.
  constructor; try (intros; set_solver). repeat constructor.
Qed.

(** The first write lock decides for all. *)
Lemma head_cls R W h : safe a t o R (h :: W) ->
  forall d, d ∈ h :: W -> cls a (t d) <= cls a (t h).
Proof.
  intros [_ H _ _ _]. apply StronglySorted_inv in H as [_ H]. rewrite Forall_forall in H.
  intros d [->|?]%elem_of_cons; auto.
Qed.

Lemma head_weak R W h : safe a t o R (h :: W) -> strong (t h) = false ->
  forall d, d ∈ h :: W -> strong (t d) = false.
Proof.
  intros Hs Hh d Hd. pose proof (head_cls _ _ _ Hs d Hd) as H. unfold cls in H.
  rewrite Hh in H. destruct (strong (t d)); [|done]. repeat case_match; lia.
Qed.

(** ** Granting a read lock *)

Definition can_read (d r : nat) : Prop :=
  (strong (t d) = true -> o r = o d) /\
  (a = false -> t d = TL_WRITE_CONCURRENT_INSERT -> t r = TL_READ_NO_INSERT -> o r = o d).

Lemma safe_reads R W N : safe a t o R W ->
  (forall d r, d ∈ W -> r ∈ N -> can_read d r) -> safe a t o (R ++ N) W.
Proof.
  intros [H1 H2 H3 H4 H5] HN. constructor; try done.
  - intros d Hd Hs e. rewrite !elem_of_app. intros [[He|He]|He].
    + apply H1; set_solver.
    + destruct (HN d e Hd He); auto.
    + apply H1; set_solver.
  - intros Ha d Hd Ht e [He|He]%elem_of_app Hr; [by eapply H5|destruct (HN d e Hd He); auto].
Qed.

(** The test of [thr_lock] against the first write lock is enough. *)
Lemma head_can_read R W h r : safe a t o R (h :: W) ->
  o r = o h \/ strong (t h) = false /\
    (t r <> TL_READ_NO_INSERT \/ t h <> TL_WRITE_CONCURRENT_INSERT) ->
  forall d, d ∈ h :: W -> can_read d r.
Proof.
  intros Hs Hr d Hd. split.
  - intros Hst. destruct Hr as [->|[Hw _]]; [|by rewrite (head_weak _ _ _ Hs Hw d Hd) in Hst].
    apply (sf_strong _ _ _ _ _ Hs d Hd Hst). set_solver.
  - intros Ha Hc Hni. destruct Hr as [->|[Hw [?|Hh]]]; [| done |].
    + apply (sf_insert _ _ _ _ _ Hs Ha d Hd Hc). left.
    + pose proof (head_cls _ _ _ Hs d Hd) as Hcl. unfold cls in Hcl. rewrite Hc, Hw, Ha in Hcl.
      simpl in Hcl. unfold tl_eq in Hcl. rewrite (bool_decide_eq_false_2 _ Hh) in Hcl. simpl in Hcl.
      case_bool_decide as Hdl; [|lia].
      pose proof (sf_delayed _ _ _ _ _ Hs h ltac:(left) Hdl) as [= ->].
      apply list_elem_of_singleton in Hd as ->. congruence.
Qed.

(** ** Granting a write lock *)

Lemma safe_write R W x : safe a t o R W ->
  (forall d, d ∈ W -> strong (t d) = true -> o x = o d) ->
  (strong (t x) = true -> forall e, e ∈ R ++ W -> o e = o x) ->
  (forall d, d ∈ W -> cls a (t x) <= cls a (t d)) ->
  (t x = TL_WRITE_DELAYED -> W = []) ->
  (forall d, d ∈ W -> t d <> TL_WRITE_DELAYED) ->
  (a = false -> forall d, d ∈ W -> t d = TL_WRITE_CONCURRENT_INSERT -> o x = o d) ->
  (a = false -> t x = TL_WRITE_CONCURRENT_INSERT ->
     (forall e, e ∈ W -> o e = o x) /\
     (forall e, e ∈ R -> t e = TL_READ_NO_INSERT -> o e = o x)) ->
  safe a t o R (W ++ [x]).
Proof.
  intros [H1 H2 H3 H4 H5] C1 C2 C3 C4 C5 C6 C7. constructor.
  - intros d [Hd| ->%list_elem_of_singleton]%elem_of_app Hs e He;
      rewrite app_assoc, elem_of_app, list_elem_of_singleton in He; destruct He as [He| ->]; eauto.
  - apply StronglySorted_snoc; auto.
  - intros d [Hd| ->%list_elem_of_singleton]%elem_of_app Ht; [by edestruct C5|].
    by rewrite (C4 Ht).
  - intros Ha d Hd Ht e He. apply elem_of_app in Hd, He. rewrite list_elem_of_singleton in *.
    destruct Hd as [Hd| ->], He as [He| ->]; [by eapply H4|by eapply C6| |done].
    by apply (proj1 (C7 Ha Ht)).
  - intros Ha d [Hd| ->%list_elem_of_singleton]%elem_of_app Ht e He Hr;
      [by eapply H5|by apply (proj2 (C7 Ha Ht))].
Qed.

(** The first write lock, next to the running read locks. *)
Lemma safe_write_first R x : (strong (t x) = true -> R = []) ->
  (t x = TL_WRITE_CONCURRENT_INSERT -> forall e, e ∈ R -> t e <> TL_READ_NO_INSERT) ->
  safe a t o R [x].
Proof.
  intros Hs Hc. apply (safe_write R [] x); try (by intros ? ?%elem_of_nil); try done.
  - apply safe_nil.
  - intros Hst e He. rewrite Hs in He by done. by apply elem_of_nil in He.
  - intros _ d Hd. by apply elem_of_nil in Hd.
  - intros _ Ht. split; [by intros ? ?%elem_of_nil|]. intros e He ?. by edestruct Hc.
Qed.

(** A further [TL_WRITE_ALLOW_WRITE] or, where several threads may insert,
    [TL_WRITE_CONCURRENT_INSERT]. *)
Lemma safe_write_same R W h x : safe a t o R (h :: W) -> t h = t x ->
  t x = TL_WRITE_ALLOW_WRITE \/ t x = TL_WRITE_CONCURRENT_INSERT /\ a = true ->
  safe a t o R ((h :: W) ++ [x]).
Proof.
  intros Hs Hh Hx.
  assert (Hw : strong (t h) = false) by (rewrite Hh; by destruct Hx as [->|[-> _]]).
  pose proof (head_weak _ _ _ Hs Hw) as Hall.
  assert (Hc : cls a (t x) = 0) by (by destruct Hx as [->|[-> ->]]; [destruct a|]).
  apply safe_write; try done.
  - intros d Hd Hst. by rewrite Hall in Hst.
  - rewrite <-Hh, Hw. done.
  - intros d Hd. rewrite Hc. lia.
  - intros Ht. rewrite Ht in Hx. by destruct Hx as [?|[? _]].
  - intros d Hd Ht. pose proof (sf_delayed _ _ _ _ _ Hs d Hd Ht) as [= -> ->].
    rewrite Hh in Ht. rewrite Ht in Hx. by destruct Hx as [?|[? _]].
  - intros Ha d Hd Ht. destruct Hx as [Hx|[_ ?]]; [|congruence].
    pose proof (head_cls _ _ _ Hs d Hd) as Hcl. unfold cls in Hcl.
    rewrite Hh, Hx, Ht, Ha in Hcl. simpl in Hcl. lia.
  - intros Ha Ht. destruct Hx as [Hx|[_ ?]]; congruence.
Qed.

(** A thread asks for a lock that is not stronger than those it already has
    (the order in which [sort_locks] puts the requests for one table), and not
    while it has a delayed lock. *)
Definition disciplined (W : list nat) (x : nat) : Prop :=
  forall e, e ∈ W -> o e = o x ->
    (tl_le (t x) (t e) = true \/ t x = TL_WRITE /\ t e = TL_WRITE_LOW_PRIORITY) /\
    t e <> TL_WRITE_DELAYED.

Lemma disciplined_strong W x e : disciplined W x -> e ∈ W -> o e = o x ->
  strong (t x) = true -> strong (t e) = true.
Proof.
  intros HD He Ho Hs. destruct (HD e He Ho) as [[Hle|[Hx ->]] _]; [|done].
  by destruct (t x), (t e).
Qed.

(** A write lock for a thread that already has one. *)
Lemma safe_write_own R W x e : safe a t o R W -> e ∈ W -> o e = o x ->
  disciplined W x -> write_type (t e) = true -> t x <> TL_WRITE_DELAYED -> safe a t o R (W ++ [x]).
Proof.
  intros Hs He Ho HD Hwt Hx.
  assert (Hstrong : strong (t e) = true -> forall e', e' ∈ R ++ W -> o e' = o x).
  { intros. rewrite <-Ho. eapply sf_strong; eauto. }
  assert (Hci : a = false -> t x = TL_WRITE_CONCURRENT_INSERT ->
            t e = TL_WRITE_CONCURRENT_INSERT \/ strong (t e) = true).
  { intros Ha Hc. destruct (HD e He Ho) as [[Hle|[? _]] Hde]; [|congruence].
    rewrite Hc in Hle. destruct (t e); simpl in *; auto; done. }
  assert (Hmine : a = false -> t x = TL_WRITE_CONCURRENT_INSERT -> forall e', e' ∈ W -> o e' = o x).
  { intros Ha Hc e' He'. destruct (Hci Ha Hc) as [Hc'|Hst].
    - rewrite <-Ho. by eapply sf_insert.
    - apply Hstrong; set_solver. }
  apply safe_write; try done.
  - intros d Hd Hst. rewrite <-Ho. eapply sf_strong; [done..|]. set_solver.
  - intros Hst. apply Hstrong. by eapply disciplined_strong.
  - intros d Hd. unfold cls at 1. destruct (strong (t x)) eqn:Hst.
    + unfold cls. rewrite (disciplined_strong _ _ d HD Hd); [done| |done].
      apply Hstrong; [by eapply disciplined_strong|set_solver].
    + destruct a eqn:Ha; [lia|]. destruct (tl_eq (t x) TL_WRITE_DELAYED) eqn:Ed.
      { unfold tl_eq in Ed. by apply bool_decide_eq_true in Ed. }
      rewrite orb_false_r. destruct (tl_eq (t x) TL_WRITE_CONCURRENT_INSERT) eqn:Ec; [|lia].
      unfold tl_eq in Ec. apply bool_decide_eq_true in Ec.
      destruct (HD d Hd (Hmine eq_refl Ec d Hd)) as [[Hle|[? _]] Hde]; [|congruence].
      rewrite Ec in Hle. unfold cls. destruct (t d); simpl in *; try done; lia.
  - intros d Hd Hdl. pose proof (sf_delayed _ _ _ _ _ Hs d Hd Hdl) as ->.
    apply list_elem_of_singleton in He as ->. by destruct (HD d).
  - intros Ha d Hd Hc. rewrite <-Ho. by eapply sf_insert.
  - intros Ha Hc. split; [by apply Hmine|]. intros e' He' Hr.
    destruct (Hci Ha Hc) as [Hc'|Hst].
    + rewrite <-Ho. by eapply sf_no_insert.
    + apply Hstrong; set_solver.
Qed.

(** Changing the type of a granted exclusive lock. *)
Lemma safe_retype R W d t0 t' : safe a t o R W -> d ∈ W -> strong (t d) = true ->
  strong t0 = true \/ W = [d] -> d ∉ R ->
  (forall x, t' x = if decide (x = d) then t0 else t x) -> safe a t' o R W.
Proof.
  intros Hs Hd Hst Ht0 HR Ht'.
  assert (HtR : forall e, e ∈ R -> t' e = t e).
  { intros e He. rewrite Ht', decide_False; [done|]. by intros ->. }
  constructor.
  - intros e He. rewrite Ht'. case_decide; subst; intros; by eapply sf_strong.
  - destruct Ht0 as [Ht0| ->]; [|repeat constructor].
    eapply StronglySorted_weaken; [|apply Hs]. intros x y Hxy.
    assert (E : forall z, cls a (t' z) = cls a (t z)).
    { intros z. rewrite Ht'. case_decide; subst; [|done]. unfold cls. by rewrite Ht0, Hst. }
    by rewrite !E.
  - intros e He. rewrite Ht'. case_decide; subst; [|by apply Hs].
    intros ->. by destruct Ht0 as [?|?].
  - intros Ha e He Hc e' He'. rewrite Ht' in Hc. case_decide; subst.
    + destruct Ht0 as [?| ->]; [done|]. by apply list_elem_of_singleton in He' as ->.
    + by eapply sf_insert.
  - intros Ha e He Hc e' He'. rewrite HtR by done. rewrite Ht' in Hc. case_decide; subst.
    + intros _. eapply sf_strong; [done..|]. set_solver.
    + by eapply sf_no_insert.
Qed.

End safe.

(** ** The state invariant *)

Definition running (q : qid) : bool :=
  match q with Q_read | Q_write => true | _ => false end.

(** The types of the locks in a queue; a concurrent insert needs the engine's
    [check_status]. *)
Definition type_ok (cs : bool) (q : qid) (t : thr_lock_type) : bool :=
  match q with
  | Q_read | Q_read_wait => read_type t
  | Q_write | Q_write_wait => write_type t && (cs || negb (tl_eq t TL_WRITE_CONCURRENT_INSERT))
  end.

(** [D] is the set of lock data records in use. *)
Record base (D : gset nat) (w : lock_state) (L : qid -> list nat) : Prop := {
  b_rep : rep w L;
  b_D : forall q d, d ∈ L q -> d ∈ D;
  b_ty : forall q d, d ∈ L q -> type_ok (check_status (lk w)) q (ty w d) = true;
  b_cnd : forall q d, d ∈ L q -> bool_decide (cnd w d = None) = running q;
  b_rnwc : read_no_write_count (lk w) = u32 (count (no_insert w) (L Q_read))
}.

(** The granted locks, as long as the locks are used with [care] (see
    [ThrLockSteps.step]). *)
Definition safe_st (care : bool) (w : lock_state) (L : qid -> list nat) : Prop :=
  care = true -> safe (allow_multiple_concurrent_insert (lk w)) (ty w) (own w) (L Q_read) (L Q_write).

(** A lock nobody holds has no waiting threads, and readers only wait for a
    writer. *)
Definition live (L : qid -> list nat) : Prop :=
  (L Q_write = [] -> L Q_write_wait = [] -> L Q_read_wait = []) /\
  (L Q_write = [] -> L Q_read = [] -> L Q_write_wait = []).

Lemma flags_inv l l' : flags l' = flags l ->
  check_status l' = check_status l /\
  allow_multiple_concurrent_insert l' = allow_multiple_concurrent_insert l.
Proof. unfold flags. intros [=]. done. Qed.

#[global] Instance base_proper D w : Proper (pointwise_relation qid eq ==> iff) (base D w).
Proof.
  assert (H : forall L L', pointwise_relation qid eq L L' -> base D w L -> base D w L').
  { intros L L' E [H1 H2 H3 H4 H5]. constructor; try (intros q x; rewrite <-(E q); eauto).
    - by eapply rep_gen_proper.
    - by rewrite <-(E Q_read). }
  intros L L' E. split; apply H; [done|by symmetry].
Qed.

Section inv.
Context (D : gset nat) (HD : (Z.of_nat (size D) < 2 ^ 32)%Z) (care : bool).
Implicit Types (w : lock_state) (L : qid -> list nat).

#[local] Notation safe_st := (safe_st care).

Lemma base_length w L q : base D w L -> length (L q) <= size D.
Proof.
  intros HB. rewrite <-(size_list_to_set (C:=gset nat)) by apply (b_rep _ _ _ HB).
  apply subseteq_size. intros d Hd%elem_of_list_to_set. by eapply b_D.
Qed.

(** The counter is not zero modulo 2^32 by accident. *)
Lemma rnwc_zero w L : base D w L -> read_no_write_count (lk w) = 0%Z ->
  forall d, d ∈ L Q_read -> ty w d <> TL_READ_NO_INSERT.
Proof.
  intros HB Hz d Hd Ht. rewrite (b_rnwc _ _ _ HB) in Hz.
  pose proof (base_length w L Q_read HB) as Hlen. unfold count in Hz.
  pose proof (List.filter_length_le (no_insert w) (L Q_read)) as Hf.
  rewrite u32_small in Hz by lia.
  assert (Hin : d ∈ List.filter (no_insert w) (L Q_read)).
  { apply elem_of_filter_bool. split; [|done]. unfold no_insert, tl_eq. by rewrite Ht. }
  destruct (List.filter _ _); simpl in *; [by apply elem_of_nil in Hin|lia].
Qed.

Lemma not_queued_ne w L q d x : base D w L -> (forall q, d ∉ L q) -> x ∈ L q -> x <> d.
Proof. intros _ Hd Hx ->. by apply (Hd q). Qed.

(** ** Releasing readers *)

Lemma base_free_all uci w L : base D w L -> L Q_read_wait <> [] ->
  base D (free_all_read_locks w uci) (released_queues uci w L).
Proof.
  intros HB Hne. destruct (free_all_spec uci w L (b_rep _ _ _ HB) Hne) as [HL [Ht Ho _ Hf Hc Hr _]].
  destruct (flags_inv _ _ Hf) as [Hcs _].
  assert (Hfrom : forall q x, x ∈ released_queues uci w L q ->
            exists p, x ∈ L p /\ (p = q \/ q = Q_read /\ p = Q_read_wait)).
  { intros q x. unfold released_queues, fupd. repeat case_decide; subst; [| |by eauto].
    - rewrite elem_of_filter_bool. naive_solver.
    - rewrite elem_of_app, elem_of_filter_bool. naive_solver. }
  constructor; [done|..].
  - intros q x (p & Hp & _)%Hfrom. by eapply b_D.
  - intros q x (p & Hp & Hq)%Hfrom. rewrite Ht, Hcs. pose proof (b_ty _ _ _ HB _ _ Hp).
    destruct Hq as [->|[-> ->]]; done.
  - intros q x Hx. rewrite Hc. destruct (Hfrom _ _ Hx) as (p & Hp & Hq).
    pose proof (b_cnd _ _ _ HB _ _ Hp) as Hcx. case_decide as Hg.
    + apply elem_of_filter_bool in Hg as [Hfr Hg].
      pose proof (rg_disj _ _ _ (b_rep _ _ _ HB) _ _ _ Hp Hg) as ->.
      destruct Hq as [<-|[-> _]]; [|done]. unfold released_queues in Hx. rewrite fupd_eq in Hx.
      apply elem_of_filter_bool in Hx as [Hx _]. by rewrite Hfr in Hx.
    + destruct Hq as [->|[-> ->]]; [done|]. destruct Hg. apply elem_of_filter_bool.
      split; [|done]. unfold released_queues in Hx. rewrite fupd_ne, fupd_eq in Hx by done.
      apply elem_of_app in Hx as [Hx|Hx]; [|by apply elem_of_filter_bool in Hx as [? _]].
      by discriminate (rg_disj _ _ _ (b_rep _ _ _ HB) _ _ _ Hp Hx).
  - unfold released_queues. rewrite fupd_ne, fupd_eq by done.
    rewrite (Hr _ (b_rnwc _ _ _ HB)), <-count_app. f_equal. apply count_ext.
    intros d _. unfold no_insert. by rewrite Ht.
Qed.

(** [free_all_read_locks] where it is called: beside write locks that tolerate
    the readers it releases. *)
Lemma free_waiting_ok uci w L :
  base D w L -> safe_st w L ->
  (forall d, d ∈ L Q_write -> strong (ty w d) = false /\
     (uci = false -> ty w d <> TL_WRITE_CONCURRENT_INSERT)) ->
  exists L', base D (free_waiting_reads w uci) L' /\ safe_st (free_waiting_reads w uci) L' /\
    L' Q_write = L Q_write /\ L' Q_write_wait = L Q_write_wait /\
    (uci = false -> L' Q_read_wait = [] /\ L' Q_read = L Q_read ++ L Q_read_wait).
Proof.
  intros HB HS HW. unfold free_waiting_reads. rewrite (rep_head _ _ _ (b_rep _ _ _ HB)) by done.
  destruct (L Q_read_wait) as [|r rs] eqn:E; cbn [list.head].
  { exists L. split_and!; try done. intros _. by rewrite app_nil_r. }
  assert (Hne : L Q_read_wait <> []) by (by rewrite E).
  exists (released_queues uci w L). split; [by apply base_free_all|].
  destruct (free_all_spec uci w L (b_rep _ _ _ HB) Hne) as [_ [Ht Ho _ Hf _ _ _]].
  destruct (flags_inv _ _ Hf) as [_ Ha].
  split_and!.
  - intros Hcare. rewrite Ha. apply safe_ext with (t := ty w) (o := own w); [|auto].
    unfold released_queues. rewrite fupd_ne, fupd_eq, !fupd_ne by done.
    apply safe_reads; [by apply HS|]. intros d x Hd [Hx _]%elem_of_filter_bool.
    destruct (HW d Hd) as [Hw Hu]. split; [by rewrite Hw|]. intros _ Hc Hni.
    unfold freed in Hx. rewrite Hni in Hx. destruct uci; [done|]. by destruct Hu.
  - done.
  - done.
  - intros ->. unfold released_queues. rewrite fupd_eq, fupd_ne, fupd_eq, E by done.
    assert (F : forall x, freed false w x = true) by (intros; unfold freed; by rewrite andb_false_r).
    split; [|f_equal]; clear -F; induction (r :: rs) as [|y l IH]; simpl; rewrite ?F; simpl; congruence.
Qed.

(** ** Starting writers *)

(** What changes in the records when [d] becomes running with type [t]. *)
Record started (w w' : lock_state) (d : nat) (t : thr_lock_type) : Prop := {
  st_ty : forall x, ty w' x = if decide (x = d) then t else ty w x;
  st_own : forall x, own w' x = own w x;
  st_flags : flags (lk w') = flags (lk w);
  st_cnd : forall x, cnd w' x = if decide (x = d) then None else cnd w x;
  st_rnwc : read_no_write_count (lk w') = read_no_write_count (lk w)
}.

Lemma dat_wake w d x : dat (wake w d) x = if decide (x = d) then set_cond None (dat w d) else dat w x.
Proof. apply dat_upd. Qed.

Lemma started_wake w w1 d t :
  (forall x, ty w1 x = if decide (x = d) then t else ty w x) ->
  (forall x, own w1 x = own w x) -> (forall x, cnd w1 x = cnd w x) ->
  flags (lk w1) = flags (lk w) -> read_no_write_count (lk w1) = read_no_write_count (lk w) ->
  started w (wake w1 d) d t.
Proof.
  intros Ht Ho Hc Hf Hr. constructor; try done.
  - intros x. rewrite <-Ht. unfold ty. rewrite dat_wake. by case_decide; subst.
  - intros x. rewrite <-Ho. unfold own. rewrite dat_wake. by case_decide; subst.
  - intros x. rewrite <-Hc. apply cnd_wake.
Qed.

Definition moved L (d : nat) (b : list nat) : qid -> list nat :=
  fupd (fupd L Q_write_wait b) Q_write (L Q_write ++ [d]).

Lemma base_started w L w' d b t :
  base D w L -> L Q_write_wait = d :: b -> started w w' d t -> rep w' (moved L d b) ->
  type_ok (check_status (lk w)) Q_write t = true -> base D w' (moved L d b).
Proof.
  intros HB E [Ht Ho Hf Hc Hr] HL Hty. destruct (flags_inv _ _ Hf) as [Hcs _].
  assert (Hd : d ∈ L Q_write_wait) by (rewrite E; left).
  assert (Hfrom : forall q x, x ∈ moved L d b q -> x ∈ L q /\ x <> d \/ x = d /\ q = Q_write).
  { intros q x Hx. destruct (decide (x = d)) as [->|Hxd].
    - right. split; [done|]. apply (rg_disj _ _ _ HL _ _ _ Hx). unfold moved.
      rewrite fupd_eq. set_solver.
    - left. split; [|done]. revert Hx. unfold moved, fupd.
      repeat case_decide; subst; rewrite ?elem_of_app, ?E; set_solver. }
  constructor; [done|..].
  - intros q x [[? _]|[-> _]]%Hfrom; by eapply b_D.
  - intros q x [[Hx ?]|[-> ->]]%Hfrom; rewrite Ht, Hcs.
    + rewrite decide_False by done. by apply HB.
    + by rewrite decide_True.
  - intros q x [[Hx ?]|[-> ->]]%Hfrom; rewrite Hc.
    + rewrite decide_False by done. by apply HB.
    + by rewrite decide_True.
  - rewrite Hr, (b_rnwc _ _ _ HB). f_equal. unfold moved. rewrite !fupd_ne by done.
    apply count_ext. intros x Hx. unfold no_insert. rewrite Ht, decide_False; [done|].
    intros ->. by discriminate (rg_disj _ _ _ (b_rep _ _ _ HB) _ _ _ Hx Hd).
Qed.

(** One round of [free_write_locks]. *)
Definition free_one (env : environment) (w : lock_state) (d : nat) : lock_state :=
  let w := start_write w d in
  let w :=
    if tl_eq (ty w d) TL_WRITE_CONCURRENT_INSERT then
      let '(r, w) := call_check_status env w d in
      if r then upd w d (set_type TL_WRITE) else w
    else w in
  wake w d.

Lemma ty_set_type w d t x : ty (upd w d (set_type t)) x = if decide (x = d) then t else ty w x.
Proof. unfold ty. rewrite dat_upd. by case_decide. Qed.

Lemma free_one_ok env w L d b : base D w L -> L Q_write_wait = d :: b ->
  exists t, started w (free_one env w d) d t /\ base D (free_one env w d) (moved L d b) /\
    (t = ty w d \/ t = TL_WRITE /\ ty w d = TL_WRITE_CONCURRENT_INSERT).
Proof.
  intros HB E. pose proof (same_payload_start_write w d) as Hsp.
  pose proof (start_write_rep w L [] d b (b_rep _ _ _ HB) E) as HL. simpl in HL.
  pose proof (b_ty _ _ _ HB Q_write_wait d ltac:(rewrite E; left)) as Hty.
  assert (Hsame : forall x, ty (start_write w d) x = if decide (x = d) then ty w d else ty w x).
  { intros x. rewrite (sp_ty _ _ Hsp). by case_decide; subst. }
  unfold free_one. destruct (tl_eq (ty (start_write w d) d) TL_WRITE_CONCURRENT_INSERT) eqn:Eci;
    [cbn [call_check_status]; destruct (env_check_status env _)|].
  1: exists TL_WRITE. 2-3: exists (ty w d).
  all: set (w1 := start_write w d) in *.
  - assert (HS : started w (wake (upd (emit w1 (EvCheckStatus (status_param (dat w1 d)))) d
                              (set_type TL_WRITE)) d) d TL_WRITE).
    { apply started_wake; try apply Hsp.
      - intros x. rewrite ty_set_type. case_decide; [done|]. apply (sp_ty _ _ Hsp).
      - intros x. rewrite <-(sp_own _ _ Hsp). unfold own. rewrite dat_upd. by case_decide; subst.
      - intros x. rewrite <-(sp_cnd _ _ Hsp). unfold cnd. rewrite dat_upd. by case_decide; subst. }
    apply bool_decide_eq_true in Eci. rewrite (sp_ty _ _ Hsp) in Eci.
    split_and!; [done| |by right]. eapply base_started; [done..| |].
    + eapply same_links_rep; [|exact HL].
      eapply same_links_trans; [|apply same_links_wake].
      eapply same_links_trans; [apply same_links_emit|]. by apply same_links_upd.
    + simpl. by rewrite orb_true_r.
  - assert (HS : started w (wake (emit w1 (EvCheckStatus (status_param (dat w1 d)))) d) d (ty w d)).
    { apply started_wake; try apply Hsp. apply Hsame. }
    split_and!; [done| |by left]. eapply base_started; [done..| |done].
    eapply same_links_rep; [|exact HL].
    eapply same_links_trans; [apply same_links_emit|apply same_links_wake].
  - assert (HS : started w (wake w1 d) d (ty w d)).
    { apply started_wake; try apply Hsp. apply Hsame. }
    split_and!; [done| |by left]. eapply base_started; [done..| |done].
    eapply same_links_rep; [apply same_links_wake|exact HL].
Qed.

Lemma tl_eq_true t t' : tl_eq t t' = true <-> t = t'.
Proof. apply bool_decide_eq_true. Qed.

Lemma tl_eq_false t t' : tl_eq t t' = false <-> t <> t'.
Proof. apply bool_decide_eq_false. Qed.

(** A started lock among locks of its own kind. *)
Lemma safe_started w L w' d b t : base D w L -> safe_st w L -> started w w' d t ->
  (L Q_write = [] /\ (strong t = true -> L Q_read = []) /\
     (t = TL_WRITE_CONCURRENT_INSERT -> forall e, e ∈ L Q_read -> ty w e <> TL_READ_NO_INSERT)) \/
  (t = TL_WRITE_ALLOW_WRITE /\ ty w d = t /\ forall x, x ∈ L Q_write -> ty w x = t) ->
  L Q_write_wait = d :: b -> safe_st w' (moved L d b).
Proof.
  intros HB HS [Ht Ho Hf _ _] Hc E. destruct (flags_inv _ _ Hf) as [_ Ha].
  intros Hcare. unfold moved. rewrite Ha, fupd_ne, fupd_ne, fupd_eq by done.
  assert (HdR : d ∉ L Q_read).
  { intros Hd. by discriminate (rg_disj _ _ _ (b_rep _ _ _ HB) _ Q_write_wait _ Hd
                                  ltac:(rewrite E; left)). }
  assert (Hfirst : L Q_write = [] -> (strong t = true -> L Q_read = []) ->
     (t = TL_WRITE_CONCURRENT_INSERT -> forall e, e ∈ L Q_read -> ty w e <> TL_READ_NO_INSERT) ->
     safe (allow_multiple_concurrent_insert (lk w)) (ty w') (own w') (L Q_read) (L Q_write ++ [d])).
  { intros -> H1 H2. apply safe_write_first; rewrite Ht, decide_True by done; [done|].
    intros Hci e He. rewrite Ht, decide_False; [auto|]. by intros ->. }
  destruct Hc as [(? & ? & ?)|(-> & Hd & HW)]; [by apply Hfirst|].
  destruct (L Q_write) as [|h W] eqn:EW; [by apply Hfirst|].
  apply safe_ext with (t := ty w) (o := own w).
  - apply safe_write_same; [specialize (HS Hcare); by rewrite EW in HS| |by left].
    rewrite Hd. apply HW. left.
  - intros e _. split; [|done]. rewrite Ht. by case_decide; subst.
Qed.

Lemma free_write_locks_ok env b : forall fuel w L d,
  base D w L -> safe_st w L -> L Q_write_wait = d :: b -> length b < fuel -> L Q_read = [] ->
  L Q_write = [] \/ ty w d = TL_WRITE_ALLOW_WRITE /\
    (forall x, x ∈ L Q_write -> ty w x = TL_WRITE_ALLOW_WRITE) ->
  let '(w', d') := free_write_locks fuel env w d in
  exists L', base D w' L' /\ safe_st w' L' /\ d' ∈ L' Q_write /\
    (forall x, x ∈ L' Q_write -> ty w' x = TL_WRITE_ALLOW_WRITE \/ x = d').
Proof.
  induction b as [|n b IH]; intros [|fuel] w L d HB HS E Hfuel HR HW; simpl in Hfuel; try lia.
  all: cbn [free_write_locks]; fold (free_one env w d).
  all: destruct (free_one_ok env w L d _ HB E) as (t & Hst & HB' & Ht).
  all: assert (HS' : safe_st (free_one env w d) (moved L d _)) by
    (eapply safe_started; [done..| |done]; destruct HW as [HW|[Hd HW]];
     [left; rewrite HR; split_and!; [done..|by intros _ ? ?%elem_of_nil]
     |right; destruct Ht as [->|[-> Hci]]; [rewrite Hd; done|congruence]]).
  all: set (w1 := free_one env w d) in *.
  all: assert (HW1 : forall x, x ∈ moved L d [] Q_write -> ty w1 x = TL_WRITE_ALLOW_WRITE \/ x = d) by
    (intros x; unfold moved; rewrite fupd_eq, elem_of_app, list_elem_of_singleton;
     intros [Hx|Hx]; [|by right]; rewrite (st_ty _ _ _ _ Hst); case_decide; [by right|left];
     destruct HW as [HW|[_ HW]]; [rewrite HW in Hx; by apply elem_of_nil in Hx|auto]).
  all: assert (Hd1 : d ∈ moved L d [] Q_write) by (unfold moved; rewrite fupd_eq; set_solver).
  all: rewrite (rep_head _ _ _ (b_rep _ _ _ HB') Q_write_wait) by done.
  all: destruct (tl_eq (ty w1 d) TL_WRITE_ALLOW_WRITE) eqn:Ed; cbn [negb]; [|by eexists].
  all: unfold moved at 1; rewrite fupd_ne, fupd_eq by done; cbn [list.head].
  - by eexists.
  - destruct (tl_eq (ty w1 n) TL_WRITE_ALLOW_WRITE) eqn:En; [|by eexists].
    apply tl_eq_true in Ed, En. apply (IH fuel w1 _ n HB' HS'); [done|lia|done|right].
    split; [done|]. intros x Hx. by destruct (HW1 x Hx) as [?| ->].
Qed.

Lemma start_wake_ok w L d b : base D w L -> L Q_write_wait = d :: b ->
  started w (wake (start_write w d) d) d (ty w d) /\
  base D (wake (start_write w d) d) (moved L d b).
Proof.
  intros HB E. pose proof (same_payload_start_write w d) as Hsp.
  pose proof (start_write_rep w L [] d b (b_rep _ _ _ HB) E) as HL. simpl in HL.
  assert (HS : started w (wake (start_write w d) d) d (ty w d)).
  { apply started_wake; try apply Hsp. intros x. rewrite (sp_ty _ _ Hsp). by case_decide; subst. }
  split; [done|]. eapply base_started; [done..| |].
  - eapply same_links_rep; [apply same_links_wake|exact HL].
  - apply (b_ty _ _ _ HB Q_write_wait d). rewrite E. left.
Qed.

Lemma free_write_locks_with_reads_ok t b : forall fuel w L d,
  base D w L -> safe_st w L -> L Q_write_wait = d :: b -> length b < fuel ->
  ty w d = t -> strong t = false ->
  (t = TL_WRITE_CONCURRENT_INSERT -> forall e, e ∈ L Q_read -> ty w e <> TL_READ_NO_INSERT) ->
  (forall x, x ∈ L Q_write -> ty w x = t) ->
  L Q_write = [] \/ t = TL_WRITE_ALLOW_WRITE ->
  exists L', base D (free_write_locks_with_reads fuel w d t) L' /\
    safe_st (free_write_locks_with_reads fuel w d t) L' /\ L' Q_write <> [] /\
    (forall x, x ∈ L' Q_write -> ty (free_write_locks_with_reads fuel w d t) x = t).
Proof.
  induction b as [|n b IH]; intros [|fuel] w L d HB HS E Hfuel Hd Hw Hci HWt HW;
    simpl in Hfuel; try lia.
  all: cbn [free_write_locks_with_reads]; destruct (start_wake_ok w L d _ HB E) as [Hst HB'].
  all: assert (HS' : safe_st (wake (start_write w d) d) (moved L d _)) by
    (eapply safe_started; [done..| |done]; rewrite Hd; destruct HW as [HW|HW];
     [left; rewrite Hw; split_and!; done|right; split_and!; done]).
  all: set (w1 := wake (start_write w d) d) in *.
  all: assert (Hty : forall x, ty w1 x = ty w x) by
    (intros x; rewrite (st_ty _ _ _ _ Hst); case_decide; congruence).
  all: assert (HW1 : forall x, x ∈ moved L d [] Q_write -> ty w1 x = t) by
    (intros x; rewrite Hty; unfold moved; rewrite fupd_eq, elem_of_app, list_elem_of_singleton;
     intros [Hx| ->]; auto).
  all: assert (Hne : moved L d [] Q_write <> []) by
    (unfold moved; rewrite fupd_eq; by destruct (L Q_write)).
  all: rewrite (rep_head _ _ _ (b_rep _ _ _ HB') Q_write_wait) by done.
  all: destruct (tl_eq t TL_WRITE_ALLOW_WRITE) eqn:Et; [apply tl_eq_true in Et|by eexists].
  all: change (moved L d ?l Q_write_wait) with l; cbn [list.head].
  - by eexists.
  - destruct (tl_eq (ty w1 n) TL_WRITE_ALLOW_WRITE) eqn:En;
      [|exists (moved L d (n :: b)); split_and!; [done|done|exact Hne|exact HW1]].
    apply tl_eq_true in En.
    apply (IH fuel w1 _ n HB' HS'); [done|lia|congruence|done|congruence|exact HW1|by right].
Qed.

(** ** wake_up_waiters *)

Definition inv (w : lock_state) (L : qid -> list nat) : Prop :=
  base D w L /\ safe_st w L /\ live L.

Lemma live_write L : L Q_write <> [] -> live L.
Proof. done. Qed.

Lemma base_links w w' L : same_links w w' -> same_payload w w' -> base D w L -> base D w' L.
Proof.
  intros Hl [Ht _ Hc _ Hf _ Hr _] HB. destruct (flags_inv _ _ Hf) as [Hcs _].
  constructor; try apply HB.
  - eapply same_links_rep; [done|apply HB].
  - intros q d Hd. rewrite Hcs, Ht. by apply HB.
  - intros q d Hd. rewrite Hc. by apply HB.
  - rewrite Hr, (b_rnwc _ _ _ HB). f_equal. apply count_ext. intros. unfold no_insert. by rewrite Ht.
Qed.

Lemma safe_payload w w' L : same_payload w w' -> safe_st w L -> safe_st w' L.
Proof.
  intros [Ht Ho _ _ Hf _ _ _] HS. destruct (flags_inv _ _ Hf) as [_ Ha].
  intros Hcare. rewrite Ha. eapply safe_ext; [by apply HS|auto].
Qed.

Lemma same_payload_emit w e : same_payload w (emit w e).
Proof. by constructor. Qed.

(** [write_lock_count] takes no part in the invariant. *)
Lemma base_wlc w L n : base D w L -> base D (set_write_lock_count w n) L.
Proof.
  intros HB. constructor; try apply HB. eapply same_links_rep; [apply same_links_wlc|apply HB].
Qed.

Lemma free_all_inv w L uci : base D w L -> L Q_write = [] -> L Q_read_wait <> [] ->
  uci = false -> L Q_write_wait <> [] ->
  exists L', inv (free_all_read_locks w uci) L'.
Proof.
  intros HB HW Hne -> Hww. pose proof (free_waiting_ok false w L HB) as H.
  unfold free_waiting_reads in H. rewrite (rep_head _ _ _ (b_rep _ _ _ HB)) in H by done.
  destruct (L Q_read_wait) as [|r rs] eqn:E; [done|]. cbn [list.head] in H.
  destruct H as (L' & HB' & HS' & HW' & Hww' & Hrw).
  - intros _. rewrite HW. apply safe_nil.
  - rewrite HW. by intros ? ?%elem_of_nil.
  - destruct (Hrw eq_refl) as [Hrw' HR']. exists L'. split_and!; [done..|split].
    + done.
    + intros _ HRn. rewrite HRn in HR'. by destruct (L Q_read).
Qed.

(** The part of [wake_up_no_locks] that starts writers. *)
Definition free_writers (env : environment) (w : lock_state) (d : nat) : lock_state :=
  let '(w, d) := free_write_locks (chain_fuel w) env w d in
  if tl_le TL_WRITE_LOW_PRIORITY (ty w d) then w
  else free_waiting_reads w (concurrent_type (ty w d)).

Lemma free_writers_inv env w L d b : base D w L ->
  L Q_write = [] -> L Q_read = [] -> L Q_write_wait = d :: b ->
  exists L', inv (free_writers env w d) L'.
Proof.
  intros HB HW HR E. unfold free_writers.
  assert (HS : safe_st w L) by (intros _; rewrite HW; apply safe_nil).
  pose proof (free_write_locks_ok env b (chain_fuel w) w L d HB HS E) as H.
  destruct (free_write_locks _ _ _ _) as [w2 d2].
  destruct H as (L2 & HB2 & HS2 & Hd2 & HW2); [|done|by left|].
  { pose proof (rep_length _ _ _ Q_write_wait (b_rep _ _ _ HB)) as Hl. rewrite E in Hl.
    simpl in Hl. unfold chain_fuel. lia. }
  assert (Hne2 : L2 Q_write <> []) by (intros H2; rewrite H2 in Hd2; by apply elem_of_nil in Hd2).
  destruct (tl_le _ _) eqn:El; [exists L2; split_and!; [done..|by apply live_write]|].
  destruct (free_waiting_ok (concurrent_type (ty w2 d2)) w2 L2 HB2 HS2)
    as (L3 & HB3 & HS3 & HW3 & _); [|exists L3; split_and!; [done..|]; apply live_write; congruence].
  pose proof (b_ty _ _ _ HB2 _ _ Hd2) as Hty.
  intros x Hx. destruct (HW2 x Hx) as [->| ->]; [done|].
  unfold concurrent_type. destruct (ty w2 d2); done.
Qed.

Lemma wake_up_no_locks_inv env w L d b : base D w L ->
  L Q_write = [] -> L Q_read = [] -> L Q_write_wait = d :: b ->
  exists L', inv (wake_up_no_locks env w d) L'.
Proof.
  intros HB HW HR E. unfold wake_up_no_locks.
  assert (Hww : L Q_write_wait <> []) by (by rewrite E).
  destruct (negb _ || _) eqn:Eb.
  - destruct (_ <? _)%Z.
    + pose proof (base_wlc _ _ 0 (base_wlc _ _ (u64 (write_lock_count (lk w) + 1)) HB)) as HB1.
      set (w1 := set_write_lock_count _ 0) in *.
      rewrite (rep_head _ _ _ (b_rep _ _ _ HB1)) by done.
      destruct (L Q_read_wait) as [|r rs] eqn:Erw; [by eapply free_writers_inv|].
      apply (free_all_inv _ L); try done. by rewrite Erw.
    + apply (free_writers_inv env _ L _ b); [by apply base_wlc|done..].
  - apply orb_false_elim in Eb as [Et Er]. apply negb_false_iff, tl_eq_true in Et.
    unfold no_high_priority_read, free_waiting_reads in *. rewrite Et in *.
    rewrite (rep_head _ _ _ (b_rep _ _ _ HB)) in * by done.
    destruct (L Q_read_wait) as [|r rs] eqn:Erw; [done|].
    apply (free_all_inv _ L); try done. by rewrite Erw.
Qed.

Lemma base_retype w L d t q : base D w L -> d ∈ L q -> running q = false \/ q = Q_write ->
  type_ok (check_status (lk w)) q t = true -> base D (upd w d (set_type t)) L.
Proof.
  intros HB Hd Hq Ht. constructor; try apply HB.
  - eapply same_links_rep; [by apply same_links_upd|apply HB].
  - intros q' x Hx. rewrite ty_set_type. case_decide; subst; [|by apply HB].
    by rewrite <-(rg_disj _ _ _ (b_rep _ _ _ HB) _ _ _ Hd Hx).
  - intros q' x Hx. unfold cnd. rewrite dat_upd.
    case_decide; subst; by apply (b_cnd _ _ _ HB).
  - etrans; [apply (b_rnwc _ _ _ HB)|]. f_equal. apply count_ext. intros x Hx. unfold no_insert.
    rewrite ty_set_type, decide_False; [done|]. intros ->.
    pose proof (rg_disj _ _ _ (b_rep _ _ _ HB) _ _ _ Hd Hx) as ->. by destruct Hq.
Qed.

Lemma wake_up_with_reads_inv env w L d b : base D w L -> safe_st w L ->
  L Q_write = [] -> L Q_read <> [] -> L Q_write_wait = d :: b ->
  tl_le (ty w d) TL_WRITE_DELAYED = true ->
  (concurrent_type (ty w d) = true -> read_no_write_count (lk w) = 0%Z) ->
  exists L', inv (wake_up_with_reads env w d) L'.
Proof.
  intros HB HS HW HR E Hle Hc. unfold wake_up_with_reads.
  assert (Hd : d ∈ L Q_write_wait) by (rewrite E; left).
  assert (Hty := b_ty _ _ _ HB _ _ Hd). simpl in Hty.
  set (p := if tl_eq (ty w d) _ then _ else _).
  assert (Hp : same_links w p.2 /\ same_payload w p.2).
  { unfold p. destruct (tl_eq _ _); simpl; split; done || apply same_payload_emit. }
  destruct p as [upgrade w1]. destruct Hp as [Hl Hp]. simpl in Hl, Hp.
  pose proof (base_links _ _ _ Hl Hp HB) as HB1. pose proof (safe_payload _ _ _ Hp HS) as HS1.
  destruct upgrade.
  - destruct (free_waiting_ok false (upd w1 d (set_type TL_WRITE)) L) as (L' & ? & ? & HW' & Hww' & Hrw').
    + eapply base_retype; [done..|by left|]. simpl. by rewrite orb_true_r.
    + intros _. rewrite HW. apply safe_nil.
    + rewrite HW. by intros ? ?%elem_of_nil.
    + destruct (Hrw' eq_refl) as [? HR']. exists L'. split_and!; [done..|split]; [done|].
      intros _ HRn. rewrite HRn in HR'. by destruct (L Q_read).
  - rewrite <-(sp_ty _ _ Hp) in *.
    destruct (free_write_locks_with_reads_ok (ty w1 d) b (chain_fuel w1) w1 L d HB1 HS1 E)
      as (L2 & HB2 & HS2 & Hne2 & HW2); try done.
    + pose proof (rep_length _ _ _ Q_write_wait (b_rep _ _ _ HB1)) as Hlen. rewrite E in Hlen.
      simpl in Hlen. unfold chain_fuel. lia.
    + by destruct (ty w1 d).
    + intros Hci e He. apply (rnwc_zero w1 L HB1); [|done]. rewrite (sp_rnwc _ _ Hp). apply Hc.
      by rewrite Hci.
    + rewrite HW. by intros ? ?%elem_of_nil.
    + by left.
    + set (w2 := free_write_locks_with_reads _ _ _ _) in *.
      destruct (free_waiting_ok (concurrent_type (ty w1 d)) w2 L2 HB2 HS2)
        as (L3 & HB3 & HS3 & HW3 & _); [|exists L3; split_and!; [done..|]; apply live_write; congruence].
      intros x Hx. rewrite (HW2 x Hx). unfold concurrent_type. clear -Hle. by destruct (ty w1 d).
Qed.

Lemma wake_up_waiters_inv env w L : base D w L -> safe_st w L ->
  exists L', inv (wake_up_waiters env w) L'.
Proof.
  intros HB HS. unfold wake_up_waiters. pose proof (b_rep _ _ _ HB) as HL.
  rewrite !(rep_head _ _ _ HL) by done.
  destruct (L Q_write) as [|h W] eqn:EW; cbn [list.head].
  2: { exists L. split_and!; [done..|]. apply live_write. by rewrite EW. }
  assert (Hnil : forall d, d ∈ L Q_write ->
            strong (ty w d) = false /\ (false = false -> ty w d <> TL_WRITE_CONCURRENT_INSERT)).
  { rewrite EW. by intros ? ?%elem_of_nil. }
  destruct (L Q_read) as [|r R] eqn:ER, (L Q_write_wait) as [|d b] eqn:Eww; cbn [list.head].
  - destruct (free_waiting_ok false w L HB HS Hnil) as (L' & ? & ? & HW' & Hww' & Hrw').
    destruct (Hrw' eq_refl) as [? ?]. exists L'. split_and!; [done..|split]; [done|congruence].
  - by eapply wake_up_no_locks_inv.
  - destruct (free_waiting_ok false w L HB HS Hnil) as (L' & ? & ? & HW' & Hww' & Hrw').
    destruct (Hrw' eq_refl) as [? ?]. exists L'. split_and!; [done..|split]; [done|congruence].
  - destruct (tl_le _ _ && _) eqn:Eb.
    + apply andb_prop in Eb as [Hle Hc]. eapply wake_up_with_reads_inv; [done..|by rewrite ER|done|done|].
      intros Hct. rewrite Hct in Hc. simpl in Hc. lia.
    + exists L. split_and!; [done..|split]; congruence.
Qed.

(** ** Records outside the queues *)

Lemma base_upd_out w L d f : base D w L -> (forall q, d ∉ L q) -> base D (upd w d f) L.
Proof.
  intros HB Hd.
  assert (Hx : forall q x, x ∈ L q -> dat (upd w d f) x = dat w x).
  { intros q x Hx. rewrite dat_upd, decide_False; [done|]. intros ->. by apply (Hd q). }
  constructor; try apply HB.
  - apply rep_upd_out; [apply HB|done].
  - intros q x Hin. unfold ty. rewrite (Hx q) by done. by apply (b_ty _ _ _ HB).
  - intros q x Hin. unfold cnd. rewrite (Hx q) by done. by apply (b_cnd _ _ _ HB).
  - etrans; [apply (b_rnwc _ _ _ HB)|]. f_equal. apply count_ext. intros x Hin.
    unfold no_insert, ty. by rewrite (Hx Q_read).
Qed.

Lemma safe_upd_out w L d f : safe_st w L -> (forall q, d ∉ L q) -> safe_st (upd w d f) L.
Proof.
  intros HS Hd Hcare. eapply safe_ext; [exact (HS Hcare)|]. intros e He. unfold ty, own.
  rewrite dat_upd, decide_False; [done|]. intros ->.
  apply elem_of_app in He as [He|He]; by eapply Hd.
Qed.

(** ** Entering a queue *)

(** [w'] is [w] with [d] put at the end of queue [q]. *)
Record queued w w' L (q : qid) (d : nat) : Prop := {
  qd_links : same_links (append w q d) w';
  qd_ty : forall x, ty w' x = ty w x;
  qd_own : forall x, own w' x = own w x;
  qd_flags : flags (lk w') = flags (lk w);
  qd_cnd : forall x, x <> d -> cnd w' x = cnd w x;
  qd_cnd_d : bool_decide (cnd w' d = None) = running q;
  qd_rnwc : read_no_write_count (lk w') =
    u32 (count (no_insert w) (fupd L q (L q ++ [d]) Q_read))
}.

Lemma base_queued w w' L q d : base D w L -> queued w w' L q d ->
  (forall q, d ∉ L q) -> d ∈ D -> d ∈ dom (mem w) -> next (dat w d) = None ->
  type_ok (check_status (lk w)) q (ty w d) = true -> base D w' (fupd L q (L q ++ [d])).
Proof.
  intros HB [Hl Ht Ho Hf Hc Hcd Hr] Hd HdD Hdom Hn Hty. destruct (flags_inv _ _ Hf) as [Hcs _].
  assert (Hfrom : forall q' x, x ∈ fupd L q (L q ++ [d]) q' -> x ∈ L q' /\ x <> d \/ x = d /\ q' = q).
  { intros q' x. unfold fupd. case_decide; subst; rewrite ?elem_of_app, ?list_elem_of_singleton.
    - intros [Hx|Hx]; [left|by right]. split; [done|]. intros ->. by apply (Hd q).
    - intros Hx. left. split; [done|]. intros ->. by apply (Hd q'). }
  constructor.
  - eapply same_links_rep; [done|]. apply append_rep; [apply HB|done|done|done].
  - intros q' x [[? _]|[-> _]]%Hfrom; [by eapply b_D|done].
  - intros q' x [[Hx ?]|[-> ->]]%Hfrom; rewrite Ht, Hcs; [by apply HB|done].
  - intros q' x [[Hx ?]|[-> ->]]%Hfrom; [rewrite Hc by done; by apply HB|done].
  - rewrite Hr. f_equal. apply count_ext. intros x _. unfold no_insert. by rewrite Ht.
Qed.

Lemma safe_queued w w' L q d : queued w w' L q d ->
  (care = true -> safe (allow_multiple_concurrent_insert (lk w)) (ty w) (own w)
    (fupd L q (L q ++ [d]) Q_read) (fupd L q (L q ++ [d]) Q_write)) ->
  safe_st w' (fupd L q (L q ++ [d])).
Proof.
  intros [_ Ht Ho Hf _ _ _] HS. destruct (flags_inv _ _ Hf) as [_ Ha].
  intros Hcare. rewrite Ha. eapply safe_ext; [exact (HS Hcare)|auto].
Qed.

(** Waiting adds nothing to the granted locks. *)
Lemma safe_waiting w w' L q d : queued w w' L q d -> running q = false ->
  safe_st w L -> safe_st w' (fupd L q (L q ++ [d])).
Proof.
  intros Hq Hr HS. eapply safe_queued; [done|]. destruct q; try done; by rewrite !fupd_ne.
Qed.

Lemma queued_append w L q d : base D w L ->
  running q = true -> q <> Q_read -> cnd w d = None -> queued w (append w q d) L q d.
Proof.
  intros HB Hrun Hq Hc. pose proof (same_payload_append w q d) as Hsp.
  constructor; try apply Hsp; try (intros; apply Hsp).
  - apply same_links_refl.
  - rewrite (sp_cnd _ _ Hsp), Hc, Hrun. done.
  - rewrite (sp_rnwc _ _ Hsp), fupd_ne by done. apply HB.
Qed.

Lemma queued_wait w L q d c : base D w L -> running q = false ->
  queued w (upd (append w q d) d (set_cond (Some c))) L q d.
Proof.
  intros HB Hrun. pose proof (same_payload_append w q d) as Hsp.
  constructor; try apply Hsp; try (intros; apply Hsp).
  - by apply same_links_upd.
  - intros x. rewrite <-(sp_ty _ _ Hsp). unfold ty. rewrite dat_upd. by case_decide; subst.
  - intros x. rewrite <-(sp_own _ _ Hsp). unfold own. rewrite dat_upd. by case_decide; subst.
  - intros x Hx. rewrite <-(sp_cnd _ _ Hsp). unfold cnd. by rewrite dat_upd, decide_False.
  - unfold cnd. rewrite dat_upd, decide_True by done. by rewrite Hrun.
  - rewrite fupd_ne by (by destruct q). etrans; [apply (sp_rnwc _ _ Hsp)|apply HB].
Qed.

Lemma queued_emit w w' L q d e : queued w w' L q d -> queued w (emit w' e) L q d.
Proof. intros []. constructor; try done. eapply same_links_trans; [done|apply same_links_emit]. Qed.

(** A granted reader is counted. *)
Lemma queued_read w L d : base D w L -> cnd w d = None ->
  queued w (if tl_eq (ty (append w Q_read d) d) TL_READ_NO_INSERT
            then set_read_no_write_count (append w Q_read d)
                   (u32 (read_no_write_count (lk (append w Q_read d)) + 1))
            else append w Q_read d) L Q_read d.
Proof.
  intros HB Hc. pose proof (same_payload_append w Q_read d) as Hsp.
  rewrite (sp_ty _ _ Hsp), (sp_rnwc _ _ Hsp), (b_rnwc _ _ _ HB), u32_add.
  assert (Hcount : count (no_insert w) (fupd L Q_read (L Q_read ++ [d]) Q_read) =
    (count (no_insert w) (L Q_read) +
      (if tl_eq (ty w d) TL_READ_NO_INSERT then 1 else 0))%Z).
  { rewrite fupd_eq, count_app, count_cons, count_nil. unfold no_insert. lia. }
  destruct (tl_eq _ _); constructor; try apply Hsp; try (intros; apply Hsp).
  - apply same_links_rnwc.
  - change (cnd _ d) with (cnd (append w Q_read d) d). by rewrite (sp_cnd _ _ Hsp), Hc.
  - by rewrite Hcount.
  - apply same_links_refl.
  - by rewrite (sp_cnd _ _ Hsp), Hc.
  - rewrite (sp_rnwc _ _ Hsp), Hcount, Z.add_0_r. apply HB.
Qed.

End inv.

End ThrLockSafety.
