(* ===== verification/ThrLockSteps.v ===== *)
(** * The operations on a table lock

    Every operation of mysys/thr_lock.c as a step of a lock shared by any
    number of threads, and what holds in every reachable state. *)

From S2P Require Import Prelude ThrLock ThrLockQueues ThrLockSafety.
Import ThrLock ThrLockQueues ThrLockSafety.

Module ThrLockSteps.

Section ops.
Context (D : gset nat) (HD : (Z.of_nat (size D) < 2 ^ 32)%Z) (care : bool).
Implicit Types (w : lock_state) (L : qid -> list nat) (env : environment).

Notation inv := (inv D care).
Notation safe_st := (safe_st care).
Notation base := (base D).

(** ** thr_lock *)

(** The type a request has once [thr_lock] has looked at it: a concurrent
    insert is upgraded when the engine has no [check_status]. *)
Definition effective env w (d : nat) : thr_lock_type :=
  if tl_eq (ty w d) TL_WRITE_CONCURRENT_INSERT && negb (check_status (lk w))
  then thr_upgraded_concurrent_insert_lock env else ty w d.

(** How the server uses [thr_lock]: on a record that is in no queue and with a
    type that can be requested; with [care], a thread does not ask for more
    than the write locks it has. *)
Record request env w L (d : nat) (o : option nat) : Prop := {
  rq_free : forall q, d ∉ L q;
  rq_D : d ∈ D;
  rq_dom : d ∈ dom (mem w);
  rq_type : read_type (ty w d) = true \/ write_type (ty w d) = true;
  rq_up : thr_upgraded_concurrent_insert_lock env = TL_WRITE \/
          thr_upgraded_concurrent_insert_lock env = TL_WRITE_LOW_PRIORITY;
  rq_order : care = true -> forall e, e ∈ L Q_write -> own w e = o ->
    (tl_le (effective env w d) (ty w e) = true \/
     effective env w d = TL_WRITE /\ ty w e = TL_WRITE_LOW_PRIORITY) /\
    ty w e <> TL_WRITE_DELAYED
}.

(** A record ready to be queued. *)
Record ready w L (d : nat) : Prop := {
  rd_free : forall q, d ∉ L q;
  rd_D : d ∈ D;
  rd_dom : d ∈ dom (mem w);
  rd_next : next (dat w d) = None;
  rd_cnd : cnd w d = None
}.

Lemma call_get_status_queued env w w1 L q d x ci : queued w w1 L q d ->
  queued w (call_get_status env w1 x ci).2 L q d.
Proof. unfold call_get_status. destruct (get_status _); simpl; [apply queued_emit|done]. Qed.

Lemma refuse_inv w L d : inv w L -> ready w L d -> inv (refuse w d).1 L.
Proof.
  intros (HB & HS & Hlive) Hr. split_and!; [|..|done].
  - by apply base_upd_out, Hr.
  - by apply safe_upd_out, Hr.
Qed.

(** The entry into [wait_for_lock]. *)
Lemma wait_inv w L d q c : inv w L -> ready w L d -> running q = false ->
  type_ok (check_status (lk w)) q (ty w d) = true ->
  live (fupd L q (L q ++ [d])) -> inv (wait_for_lock_start w q d false c) (fupd L q (L q ++ [d])).
Proof.
  intros (HB & HS & _) [H1 H2 H3 H4 H5] Hq Ht Hlive.
  pose proof (queued_wait D w L q d c HB Hq) as HQ.
  split_and!; [by eapply base_queued|by eapply safe_waiting|done].
Qed.

Lemma grant_read_inv env w L d : inv w L -> ready w L d -> read_type (ty w d) = true ->
  (care = true -> forall x, x ∈ L Q_write ->
     can_read (allow_multiple_concurrent_insert (lk w)) (ty w) (own w) x d) ->
  exists L', inv (grant_read env w d).1 L'.
Proof.
  intros (HB & HS & Hlive) [H1 H2 H3 H4 H5] Ht Hcan. exists (fupd L Q_read (L Q_read ++ [d])).
  pose proof (queued_read D w L d HB H5) as HQ.
  unfold grant_read. set (w1 := append w Q_read d) in *.
  set (w2 := if tl_eq (ty w1 d) _ then _ else w1) in *.
  pose proof (call_get_status_queued env _ _ _ _ _ d false HQ) as HQ'.
  destruct (call_get_status env w2 d false) as [r w3]. simpl in *.
  split_and!; [by eapply base_queued| |].
  - eapply safe_queued; [done|]. intros Hcare. rewrite fupd_eq, fupd_ne by done. apply safe_reads; [by apply HS|].
    intros x r' Hx ->%list_elem_of_singleton. auto.
  - unfold live. rewrite !(fupd_ne _ _ _ Q_write), !(fupd_ne _ _ _ Q_write_wait),
      (fupd_ne _ _ _ Q_read_wait), fupd_eq by done.
    split; [apply Hlive|]. intros _ Hnil. by destruct (L Q_read).
Qed.

Lemma grant_inv env w L d ci : inv w L -> ready w L d ->
  type_ok (check_status (lk w)) Q_write (ty w d) = true ->
  (care = true -> safe (allow_multiple_concurrent_insert (lk w)) (ty w) (own w) (L Q_read) (L Q_write ++ [d])) ->
  exists L', inv (grant env w Q_write d ci).1 L'.
Proof.
  intros (HB & HS & Hlive) [H1 H2 H3 H4 H5] Ht Hs. exists (fupd L Q_write (L Q_write ++ [d])).
  pose proof (queued_append D w L Q_write d HB ltac:(done) ltac:(done) H5) as HQ.
  unfold grant. pose proof (call_get_status_queued env _ _ _ _ _ d ci HQ) as HQ'.
  destruct (call_get_status _ _ _ _) as [r w3]. simpl in *.
  split_and!; [by eapply base_queued|by eapply safe_queued|].
  apply live_write. rewrite fupd_eq. by destruct (L Q_write).
Qed.

(** What [thr_lock] does with the outcome. *)
Definition finish_request (c d : nat) (p : lock_state * outcome) : lock_state :=
  match p.2 with
  | Return _ => p.1
  | WaitOn q => wait_for_lock_start p.1 q d false c
  end.

Lemma thr_lock_read_inv env w L d c : inv w L -> ready w L d -> read_type (ty w d) = true ->
  exists L', inv (finish_request c d (thr_lock_read env w d)) L'.
Proof.
  intros Hinv Hr Ht. pose proof Hinv as (HB & HS & Hlive). pose proof (b_rep _ _ _ HB) as HL.
  assert (Hgrant : forall w' o, grant_read env w d = (w', o) ->
    finish_request c d (w', o) = w') by
    (unfold grant_read; intros w' o; destruct (call_get_status _ _ _ _); intros [= <- <-]; done).
  unfold thr_lock_read. rewrite !(rep_head _ _ _ HL) by done.
  destruct (L Q_write) as [|h W] eqn:EW; cbn [list.head].
  - destruct (_ || _) eqn:Ec.
    + destruct (grant_read_inv env w L d) as [L' H]; try done.
      { rewrite EW. by intros _ ? ?%elem_of_nil. }
      destruct (grant_read env w d) as [w' o]. rewrite (Hgrant w' o) by done. by exists L'.
    + exists (fupd L Q_read_wait (L Q_read_wait ++ [d])). apply wait_inv; try done.
      unfold live. rewrite !(fupd_ne _ _ _ Q_write), !(fupd_ne _ _ _ Q_write_wait),
        (fupd_ne _ _ _ Q_read) by done.
      split; [|apply Hlive]. intros _ Hww. by rewrite Hww in Ec.
  - destruct (_ || _) eqn:Ec; [|destruct (tl_eq _ TL_WRITE_ONLY)].
    + destruct (grant_read_inv env w L d) as [L' H]; try done.
      { intros Hcare. rewrite EW. eapply head_can_read; [specialize (HS Hcare); by rewrite EW in HS|].
        apply orb_prop in Ec as [Ec|Ec].
        - left. by apply bool_decide_eq_true in Ec.
        - right. apply andb_prop in Ec as [Hw Hni]. split; [by destruct (ty w h)|].
          apply orb_prop in Hni as [Hni|Hni]; [left|right]; [by destruct (ty w d)|].
          by destruct (ty w h). }
      destruct (grant_read env w d) as [w' o]. rewrite (Hgrant w' o) by done. by exists L'.
    + exists L. by apply refuse_inv.
    + exists (fupd L Q_read_wait (L Q_read_wait ++ [d])). apply wait_inv; try done.
      apply live_write. by rewrite fupd_ne, EW.
Qed.

Lemma finish_grant env w L d ci c :
  (exists L', inv (grant env w Q_write d ci).1 L') ->
  exists L', inv (finish_request c d (grant env w Q_write d ci)) L'.
Proof. unfold grant. by destruct (call_get_status _ _ _ _). Qed.

(** Waiting for a write lock behind a lock in use or another writer. *)
Lemma wait_write_inv w L d c : inv w L -> ready w L d ->
  type_ok (check_status (lk w)) Q_write_wait (ty w d) = true ->
  L Q_write <> [] \/ L Q_read <> [] \/ L Q_write_wait <> [] ->
  exists L', inv (wait_for_lock_start w Q_write_wait d false c) L'.
Proof.
  intros Hinv Hr Ht Hne. exists (fupd L Q_write_wait (L Q_write_wait ++ [d])).
  apply wait_inv; try done. destruct Hinv as (_ & _ & Hlive).
  unfold live. rewrite !(fupd_ne _ _ _ Q_write), !fupd_eq, (fupd_ne _ _ _ Q_read) by done.
  split; intros HW Hnil; [by destruct (L Q_write_wait)|].
  destruct Hne as [?|[?|Hne]]; [done..|]. by rewrite (proj2 Hlive) in Hne.
Qed.

Lemma thr_lock_write_locked_inv env w L d h W c : inv w L -> ready w L d -> L Q_write = h :: W ->
  type_ok (check_status (lk w)) Q_write (ty w d) = true ->
  (care = true -> disciplined (ty w) (own w) (L Q_write) d) -> ty w d <> TL_WRITE_DELAYED ->
  exists L', inv (finish_request c d (thr_lock_write_locked env w d h)) L'.
Proof.
  intros Hinv Hr EW Ht Hdis Hnd. pose proof Hinv as (HB & HS & Hlive).
  unfold thr_lock_write_locked.
  destruct (tl_eq (ty w h) TL_WRITE_ONLY && _); [exists L; by apply refuse_inv|].
  destruct (_ || _) eqn:Ec; [|apply (wait_write_inv w L); try done; left; by rewrite EW].
  eapply finish_grant; [done|]. apply (grant_inv env w L); try done. intros Hcare.
  specialize (HS Hcare). specialize (Hdis Hcare). apply orb_prop in Ec as [Ec|Ec].
  - apply andb_prop in Ec as [Ec _]. apply andb_prop in Ec as [Ec Hth].
    apply andb_prop in Ec as [Ec _]. apply tl_eq_true in Hth.
    rewrite EW in *. apply safe_write_same; [done..|].
    apply orb_prop in Ec as [Ec|Ec]; [left; by apply tl_eq_true in Ec|right].
    apply andb_prop in Ec as [Ec _]. apply andb_prop in Ec as [Ec ?]. by apply tl_eq_true in Ec.
  - apply (has_old_lock_spec w L) in Ec as (e & He & Ho); [|apply HB].
    eapply safe_write_own; try done.
    pose proof (b_ty _ _ _ HB Q_write e He) as Hte. simpl in Hte. by apply andb_prop in Hte as [? _].
Qed.

Lemma inv_upd_out w L d f : inv w L -> (forall q, d ∉ L q) -> inv (upd w d f) L.
Proof.
  intros (HB & HS & Hlive) Hd. split_and!; [by apply base_upd_out|by apply safe_upd_out|done].
Qed.

Lemma ready_set_type w L d t : ready w L d -> ready (upd w d (set_type t)) L d.
Proof.
  intros [H1 H2 H3 H4 H5]. constructor; try done.
  - simpl. apply dom_insert. set_solver.
  - by rewrite dat_upd, decide_True.
  - unfold cnd. by rewrite dat_upd, decide_True.
Qed.

Lemma thr_lock_write_free_inv env w L d c : inv w L -> ready w L d -> L Q_write = [] ->
  type_ok (check_status (lk w)) Q_write (ty w d) = true ->
  write_type (thr_upgraded_concurrent_insert_lock env) = true ->
  thr_upgraded_concurrent_insert_lock env <> TL_WRITE_CONCURRENT_INSERT ->
  exists L', inv (finish_request c d (thr_lock_write_free env w d)) L'.
Proof.
  intros Hinv Hr EW Ht Hup Hupc. pose proof Hinv as (HB & HS & Hlive).
  unfold thr_lock_write_free. rewrite (rep_head _ _ _ (b_rep _ _ _ HB)) by done.
  destruct (L Q_write_wait) as [|x ww] eqn:Eww; cbn [list.head].
  2: { apply (wait_write_inv w L); try done. right. right. by rewrite Eww. }
  set (p := if tl_eq (ty w d) _ then _ else _).
  assert (Hp : inv p.2 L /\ ready p.2 L d /\
               type_ok (check_status (lk p.2)) Q_write (ty p.2 d) = true).
  { unfold p. destruct (tl_eq (ty w d) _); [|done].
    cbn [call_check_status]. destruct (env_check_status _ _); simpl.
    - split_and!; [|by apply ready_set_type; destruct Hr|].
      + apply (inv_upd_out (emit w _)); [|apply Hr].
        split_and!; [|done|done]. eapply base_links; [apply same_links_emit|apply same_payload_emit|done].
      + rewrite ty_set_type, decide_True, Hup by done. apply tl_eq_false in Hupc.
        rewrite Hupc. simpl. by rewrite orb_true_r.
    - split_and!; [|by destruct Hr|done].
      split_and!; [|done|done]. eapply base_links; [apply same_links_emit|apply same_payload_emit|done]. }
  destruct p as [ci w1]. simpl in Hp. destruct Hp as (Hinv1 & Hr1 & Ht1).
  pose proof Hinv1 as (HB1 & HS1 & _). rewrite (rep_head _ _ _ (b_rep _ _ _ HB1)) by done.
  destruct (match list.head (L Q_read) with Some _ => false | None => true end || _) eqn:Ec.
  - eapply finish_grant; [done|]. apply (grant_inv env w1 L); try done. intros _. rewrite EW.
    apply orb_prop in Ec as [Ec|Ec].
    + destruct (L Q_read); [apply safe_single|done].
    + apply andb_prop in Ec as [Hle Hc]. apply safe_write_first.
      * by destruct (ty w1 d).
      * intros Hci e He. apply (rnwc_zero D HD w1 L HB1); [|done].
        rewrite Hci in Hc. simpl in Hc. lia.
  - apply (wait_write_inv w1 L); try done. right. left. intros HR. by rewrite HR in Ec.
Qed.

Lemma thr_lock_write_inv env w L d c : inv w L -> ready w L d ->
  write_type (ty w d) = true ->
  thr_upgraded_concurrent_insert_lock env = TL_WRITE \/
    thr_upgraded_concurrent_insert_lock env = TL_WRITE_LOW_PRIORITY ->
  (care = true -> forall e, e ∈ L Q_write -> own w e = own w d ->
    (tl_le (effective env w d) (ty w e) = true \/
     effective env w d = TL_WRITE /\ ty w e = TL_WRITE_LOW_PRIORITY) /\
    ty w e <> TL_WRITE_DELAYED) ->
  exists L', inv (finish_request c d (thr_lock_write env w d c)) L'.
Proof.
  intros Hinv Hr Ht Hup Hord. pose proof Hinv as (HB & HS & Hlive).
  pose proof (b_rep _ _ _ HB) as HL. unfold thr_lock_write.
  destruct (tl_eq (ty w d) TL_WRITE_DELAYED && match head w Q_write with Some _ => _ | _ => _ end)
    eqn:E1; [exists L; by apply refuse_inv|].
  destruct (tl_eq (ty w d) TL_WRITE_DELAYED && match head w Q_write with Some _ => _ | _ => _ end)
    eqn:E2 in |- *.
  { apply andb_prop in E2 as [Ed Hin]. apply tl_eq_true in Ed.
    apply (wait_write_inv w L); try done; [by rewrite Ed; simpl; rewrite orb_true_r|].
    rewrite !(rep_head _ _ _ HL) in Hin by done.
    destruct (L Q_write), (L Q_read); simpl in Hin; auto; done. }
  set (w1 := if _ && _ then upd w d _ else w).
  assert (Hw1 : inv w1 L /\ ready w1 L d /\ ty w1 d = effective env w d /\
    (forall x, x <> d -> ty w1 x = ty w x) /\ (forall x, own w1 x = own w x) /\
    type_ok (check_status (lk w1)) Q_write (ty w1 d) = true).
  { unfold w1, effective.
    destruct (tl_eq (ty w d) TL_WRITE_CONCURRENT_INSERT && _) eqn:Ec.
    - split_and!; [apply inv_upd_out; [done|apply Hr]|by apply ready_set_type|..].
      + by rewrite ty_set_type, decide_True.
      + intros x Hx. by rewrite ty_set_type, decide_False.
      + intros x. unfold own. rewrite dat_upd. by case_decide; subst.
      + rewrite ty_set_type, decide_True by done. destruct Hup as [-> | ->]; simpl;
          by rewrite orb_true_r.
    - split_and!; try done. simpl. rewrite Ht. simpl.
      destruct (check_status _); [done|]. by rewrite andb_true_r in Ec; rewrite Ec. }
  destruct Hw1 as (Hinv1 & Hr1 & Htd & Htx & Hox & Hok).
  pose proof Hinv1 as (HB1 & HS1 & _).
  rewrite (rep_head _ _ _ (b_rep _ _ _ HB1)) by done.
  destruct (L Q_write) as [|h W] eqn:EW; cbn [list.head].
  - apply (thr_lock_write_free_inv env w1 L); try done; by destruct Hup as [-> | ->].
  - apply (thr_lock_write_locked_inv env w1 L d h W); try done.
    + rewrite EW. intros Hcare e He Ho. rewrite !Hox in Ho. rewrite Htd, Htx; [auto|].
      intros ->. apply (rd_free _ _ _ Hr Q_write). by rewrite EW.
    + rewrite Htd. unfold effective.
      destruct (tl_eq (ty w d) TL_WRITE_CONCURRENT_INSERT && _) eqn:Ec.
      * by destruct Hup as [-> | ->].
      * intros Hd. rewrite Hd, (rep_head _ _ _ HL), EW in E2 by done. done.
Qed.

(** Every request keeps the invariant. *)
Lemma thr_lock_inv env w L d o c : inv w L -> request env w L d o ->
  exists L', inv (thr_lock env w d o c).1 L'.
Proof.
  intros Hinv [H1 H2 H3 H4 H5 H6]. unfold thr_lock, thr_lock_start.
  set (w1 := upd w d _).
  assert (Hty : forall x, ty w1 x = ty w x) by (intros x; unfold ty, w1; rewrite dat_upd; by case_decide; subst).
  assert (Hinv1 : inv w1 L) by (by apply inv_upd_out).
  assert (Hr : ready w1 L d).
  { constructor; try done.
    - unfold w1. simpl. apply dom_insert. set_solver.
    - unfold w1. by rewrite dat_upd, decide_True.
    - unfold w1, cnd. by rewrite dat_upd, decide_True. }
  assert (H : exists L', inv (finish_request c d
    (if tl_lt (ty w1 d) TL_FIRST_WRITE then thr_lock_read env w1 d else thr_lock_write env w1 d c)) L').
  { destruct (tl_lt (ty w1 d) TL_FIRST_WRITE) eqn:Elt; rewrite Hty in Elt.
    - apply (thr_lock_read_inv env w1 L); try done. rewrite Hty.
      destruct H4 as [?|H4]; [done|]. by destruct (ty w d).
    - apply (thr_lock_write_inv env w1 L); try done.
      + rewrite Hty. destruct H4 as [H4|?]; [|done]. by destruct (ty w d).
      + intros Hcare e He. unfold effective. rewrite !Hty. intros Ho. apply H6; [done|done|].
        assert (e <> d) by (intros ->; by apply (H1 Q_write)).
        unfold own, w1 in *. rewrite !dat_upd, decide_False, decide_True in Ho by done. done. }
  unfold finish_request in H. destruct (if tl_lt _ _ then _ else _) as [w2 [r|q]]; done.
Qed.

(** ** Leaving a queue *)

Lemma base_removed w w' L q a d b : base w L -> L q = a ++ d :: b ->
  same_links (unlink w d q) w' -> (forall x, ty w' x = ty w x) -> (forall x, cnd w' x = cnd w x) ->
  flags (lk w') = flags (lk w) ->
  read_no_write_count (lk w') = u32 (count (no_insert w) (fupd L q (a ++ b) Q_read)) ->
  base w' (fupd L q (a ++ b)).
Proof.
  intros HB E Hl Ht Hc Hf Hr. destruct (flags_inv _ _ Hf) as [Hcs _].
  assert (Hfrom : forall q' x, x ∈ fupd L q (a ++ b) q' -> x ∈ L q').
  { intros q' x. unfold fupd. case_decide; subst; [|done]. rewrite E. set_solver. }
  constructor.
  - eapply same_links_rep; [done|]. by apply (unlink_rep _ _ _ (b_rep _ _ _ HB) q a d b E).
  - intros q' x ?%Hfrom. by eapply b_D.
  - intros q' x ?%Hfrom. rewrite Ht, Hcs. by apply HB.
  - intros q' x ?%Hfrom. rewrite Hc. by apply HB.
  - rewrite Hr. f_equal. apply count_ext. intros. unfold no_insert. by rewrite Ht.
Qed.

Lemma safe_removed w w' L q a d b : safe_st w L -> L q = a ++ d :: b ->
  (forall x, ty w' x = ty w x) -> (forall x, own w' x = own w x) ->
  flags (lk w') = flags (lk w) -> safe_st w' (fupd L q (a ++ b)).
Proof.
  intros HS E Ht Ho Hf Hcare. destruct (flags_inv _ _ Hf) as [_ Ha]. rewrite Ha.
  apply safe_ext with (t := ty w) (o := own w); [|auto]. eapply safe_remove; [exact (HS Hcare)|..].
  - intros e. unfold fupd. case_decide; subst; [|done]. rewrite E. set_solver.
  - unfold fupd. case_decide; subst; [|done]. rewrite E. apply sublist_app; [done|by constructor].
Qed.

Lemma removed_out w L q a d b : base w L -> L q = a ++ d :: b -> forall q', d ∉ fupd L q (a ++ b) q'.
Proof.
  intros HB E q'. destruct (mid_nodup _ _ _ (b_rep _ _ _ HB) _ _ _ _ E) as (_ & Hab & Hdb & _).
  unfold fupd. case_decide; subst; [set_solver|]. intros Hd. apply H.
  apply (rg_disj _ _ _ (b_rep _ _ _ HB) _ _ d); [done|]. rewrite E. set_solver.
Qed.

(** Taking a waiting record out of its queue. *)
Lemma unlink_waiting w L q a d b : base w L -> safe_st w L -> L q = a ++ d :: b -> q <> Q_read ->
  base (unlink w d q) (fupd L q (a ++ b)) /\ safe_st (unlink w d q) (fupd L q (a ++ b)).
Proof.
  intros HB HS E Hq. pose proof (same_payload_unlink w d q) as [Ht Ho Hc _ Hf _ Hr _].
  split; [|by eapply safe_removed].
  eapply base_removed; [done..|apply same_links_refl|done|done|done|].
  rewrite Hr, fupd_ne by done. apply HB.
Qed.

Lemma wake_up_unlinked env w L d t : base w L -> safe_st w L -> (forall q, d ∉ L q) ->
  exists L', inv (wake_up_waiters env (upd w d (set_type t))) L'.
Proof.
  intros HB HS Hd. eapply wake_up_waiters_inv; [done|by apply base_upd_out|by apply safe_upd_out].
Qed.

(** ** wait_for_lock, after the wait *)

(** [d] still waits in [q], or was woken up. *)
Lemma wait_for_lock_finish_inv env w L q d timed_out : inv w L -> running q = false ->
  (cnd w d <> None -> d ∈ L q) ->
  exists L', inv (wait_for_lock_finish env w q d timed_out).1 L'.
Proof.
  intros (HB & HS & Hlive) Hq Hd. unfold wait_for_lock_finish.
  change (cond (dat w d)) with (cnd w d). destruct (cnd w d) as [c|] eqn:Ec; simpl.
  - apply list_elem_of_split in Hd as (a & b & E); [|done].
    destruct (unlink_waiting w L q a d b HB HS E) as [HB' HS']; [by intros ->|].
    eapply wake_up_unlinked; [done..|]. by eapply removed_out.
  - destruct (tl_eq _ _); [by exists L|]. exists L.
    unfold call_get_status. destruct (get_status _); [|done].
    split_and!; [|done|done]. eapply base_links; [apply same_links_emit|apply same_payload_emit|done].
Qed.

(** ** thr_unlock *)

(** What may be unlocked: a granted lock or a delayed lock that waits. *)
Definition unlockable w L (d : nat) : Prop :=
  d ∈ L Q_read \/ d ∈ L Q_write \/ d ∈ L Q_write_wait /\ ty w d = TL_WRITE_DELAYED.

Lemma unlockable_queue w L d : base w L -> unlockable w L d ->
  d ∈ L (if tl_le (ty w d) TL_READ_NO_INSERT then Q_read
         else if tl_eq (ty w d) TL_WRITE_DELAYED && bool_decide (cond (dat w d) <> None)
         then Q_write_wait else Q_write).
Proof.
  intros HB Hu. rewrite bool_decide_not. change (cond (dat w d)) with (cnd w d).
  destruct Hu as [Hd|[Hd|[Hd Ht]]]; pose proof (b_ty _ _ _ HB _ _ Hd) as Hty;
    pose proof (b_cnd _ _ _ HB _ _ Hd) as ->; simpl in *.
  - by destruct (ty w d).
  - rewrite andb_false_r. by destruct (ty w d).
  - by rewrite Ht.
Qed.

(** [thr_unlock] up to its call of [wake_up_waiters]. *)
Lemma thr_unlock_removed env w L d flags' : base w L -> unlockable w L d ->
  exists q a b w', L q = a ++ d :: b /\
    thr_unlock env w d flags' = wake_up_waiters env (upd w' d (set_type TL_UNLOCK)) /\
    base w' (fupd L q (a ++ b)) /\ flags (lk w') = flags (lk w) /\
    (forall x, ty w' x = ty w x) /\ (forall x, own w' x = own w x) /\ (forall x, cnd w' x = cnd w x).
Proof.
  intros HB Hu. pose proof (unlockable_queue w L d HB Hu) as Hd.
  unfold thr_unlock. set (q := if tl_le _ _ then _ else _) in *.
  assert (Hqr : ty w d = TL_READ_NO_INSERT -> q = Q_read) by (unfold q; by intros ->).
  clearbody q.
  apply list_elem_of_split in Hd as (a & b & E).
  pose proof (same_payload_unlink w d q) as [Ht Ho Hc Hp Hf _ Hr _].
  set (w1 := unlink w d q) in *.
  set (w2 := if negb _ then _ else w1).
  assert (H2 : same_links w1 w2 /\ same_payload w1 w2).
  { unfold w2. repeat case_match; split;
      auto using same_links_refl, same_links_emit, same_payload_refl, same_payload_emit. }
  destruct H2 as [Hl2 [Ht2 Ho2 Hc2 _ Hf2 _ Hr2 _]].
  set (w3 := if tl_eq _ _ then _ else w2).
  assert (H3 : same_links w2 w3) by
    (unfold w3; destruct (tl_eq _ _); [apply same_links_rnwc|apply same_links_refl]).
  assert (H3' : (forall x, ty w3 x = ty w x) /\ (forall x, own w3 x = own w x) /\
                (forall x, cnd w3 x = cnd w x) /\ flags (lk w3) = flags (lk w)).
  { split_and!; [intros x; rewrite <-Ht, <-Ht2|intros x; rewrite <-Ho, <-Ho2|
      intros x; rewrite <-Hc, <-Hc2|rewrite <-Hf, <-Hf2]; unfold w3; by destruct (tl_eq _ _). }
  destruct H3' as (Ht3 & Ho3 & Hc3 & Hf3).
  exists q, a, b, w3. split_and!; try done. eapply base_removed; try done.
  - by eapply same_links_trans.
  - assert (Hr' : read_no_write_count (lk w2) = u32 (count (no_insert w) (L Q_read)))
      by (rewrite Hr2, Hr; apply HB).
    unfold w3. destruct (tl_eq (ty w d) TL_READ_NO_INSERT) eqn:En.
    + pose proof (Hqr (proj1 (tl_eq_true _ _) En)) as Hq.
      simpl. rewrite Hr', u32_sub, Hq, fupd_eq. rewrite Hq in E.
      rewrite E, !count_app, count_cons. unfold no_insert at 2. rewrite En. f_equal. lia.
    + rewrite Hr'. f_equal. unfold fupd. case_decide as Hq; [|done]. rewrite Hq, E.
      rewrite !count_app, count_cons. unfold no_insert at 2. by rewrite En.
Qed.

Lemma thr_unlock_inv env w L d flags' : inv w L -> unlockable w L d ->
  exists L', inv (thr_unlock env w d flags') L'.
Proof.
  intros (HB & HS & _) Hu.
  destruct (thr_unlock_removed env w L d flags' HB Hu) as (q & a & b & w' & E & -> & HB' & Hf & Ht & Ho & _).
  eapply wake_up_unlinked; [done|by eapply safe_removed|]. by eapply removed_out.
Qed.

(** ** Changing the type of a granted lock *)

Lemma retype_inv w L d t : inv w L -> d ∈ L Q_write ->
  (care = true -> strong (ty w d) = true /\ (strong t = true \/ L Q_write = [d])) ->
  type_ok (check_status (lk w)) Q_write t = true -> inv (upd w d (set_type t)) L.
Proof.
  intros (HB & HS & Hlive) Hd Hst Hok. split_and!; [| |done].
  - eapply (base_retype D w _ d _ Q_write); [done|done|by right|done].
  - intros Hcare. destruct (Hst Hcare) as [Hst' Ht]. apply safe_ext with (t := ty (upd w d (set_type t))) (o := own w).
    + eapply safe_retype; [exact (HS Hcare)|done..| |].
      * intros Hx. by discriminate (rg_disj _ _ _ (b_rep _ _ _ HB) _ _ _ Hd Hx).
      * intros x. apply ty_set_type.
    + intros x _. split; [done|]. unfold own. rewrite dat_upd. by case_decide; subst.
Qed.

(** ** Aborting the waiting threads *)

(** What aborting the records [ds] changes: they are of type [TL_UNLOCK], not
    waiting any more, and their threads are signalled. *)
Record aborted w w' (ds : list nat) : Prop := {
  ab_ty : forall x, ty w' x = if decide (x ∈ ds) then TL_UNLOCK else ty w x;
  ab_own : forall x, own w' x = own w x;
  ab_cnd : forall x, cnd w' x = if decide (x ∈ ds) then None else cnd w x;
  ab_flags : flags (lk w') = flags (lk w);
  ab_rnwc : read_no_write_count (lk w') = read_no_write_count (lk w);
  ab_events : events w' = events w ++ ((fun d => EvSignal (cnd w d)) <$> ds)
}.

Lemma aborted_nil w : aborted w w [].
Proof. constructor; try done. by rewrite app_nil_r. Qed.

Lemma aborted_cons w w' d ds : d ∉ ds ->
  aborted (wake (upd w d (set_type TL_UNLOCK)) d) w' ds -> aborted w w' (d :: ds).
Proof.
  clear D HD.
  intros Hd [Ht Ho Hc Hf Hr He]. set (w1 := upd w d (set_type TL_UNLOCK)) in *.
  assert (Hdat : forall x, dat (wake w1 d) x =
            if decide (x = d) then set_cond None (set_type TL_UNLOCK (dat w d)) else dat w x).
  { intros x. rewrite dat_wake. unfold w1. rewrite !dat_upd. by repeat case_decide; subst. }
  assert (Hcd : cnd w1 d = cnd w d) by (unfold cnd, w1; by rewrite dat_upd, decide_True).
  constructor.
  - intros x. rewrite Ht. unfold ty. rewrite Hdat. repeat case_decide; subst; set_solver.
  - intros x. rewrite Ho. unfold own. rewrite Hdat. by case_decide; subst.
  - intros x. rewrite Hc. unfold cnd. rewrite Hdat. repeat case_decide; subst; set_solver.
  - by rewrite Hf.
  - by rewrite Hr.
  - rewrite He. simpl. change (cond (dat w1 d)) with (cnd w1 d). rewrite Hcd, <-app_assoc.
    simpl. do 2 f_equal. apply list_fmap_ext. intros i x Hi. unfold cnd. rewrite Hdat, decide_False; [done|].
    intros ->. apply Hd. eauto using list_elem_of_lookup_2.
Qed.

Lemma same_links_abort_one w d : same_links w (wake (upd w d (set_type TL_UNLOCK)) d).
Proof. eapply same_links_trans; [|apply same_links_wake]. by apply same_links_upd. Qed.

Lemma abort_chain_spec ds : forall fuel w p,
  seg w p ds -> get_loc w (endl p ds) = None -> NoDup ds -> length ds < fuel ->
  same_links w (abort_chain fuel w (get_loc w p)) /\
  aborted w (abort_chain fuel w (get_loc w p)) ds.
Proof.
  clear D HD.
  induction ds as [|d ds IH]; intros [|fuel] w p Hs He Hnd Hf; simpl in *; try lia.
  - rewrite He. split; [apply same_links_refl|apply aborted_nil].
  - destruct Hs as (-> & _ & Hs). apply NoDup_cons in Hnd as [Hd Hnd].
    pose proof (same_links_abort_one w d) as Hl.
    set (w1 := wake (upd w d (set_type TL_UNLOCK)) d) in *.
    rewrite next_get_loc. destruct (IH fuel w1 (LNext d)) as [IH1 IH2]; [|..|done|lia|].
    + eapply seg_frame; [exact Hs|intros; apply Hl|intros; apply Hl].
    + rewrite (sl_get _ _ Hl). done.
    + split; [by eapply same_links_trans|by apply aborted_cons].
Qed.

Lemma abort_queue_spec w L q : rep w L ->
  rep (abort_chain (chain_fuel w) w (head w q)) L /\
  aborted w (abort_chain (chain_fuel w) w (head w q)) (L q).
Proof.
  clear D HD.
  intros HL. rewrite head_get_loc. destruct (abort_chain_spec (L q) (chain_fuel w) w (LHead q)) as [H1 H2].
  - apply HL.
  - by apply HL.
  - apply HL.
  - pose proof (rep_length _ _ _ q HL). unfold chain_fuel. lia.
  - split; [by eapply same_links_rep|done].
Qed.

Lemma clear_queues w :
  set_head (set_head (set_last (set_last w Q_read_wait (LHead Q_read_wait))
    Q_write_wait (LHead Q_write_wait)) Q_write_wait None) Q_read_wait None =
  clear (clear w Q_read_wait) Q_write_wait.
Proof. by destruct w as [[] ? ?]. Qed.

(** The queues of a lock without waiting threads. *)
Definition no_waiters L : qid -> list nat := fupd (fupd L Q_read_wait []) Q_write_wait [].

Lemma thr_abort_locks_spec w L up : rep w L ->
  exists w1, rep w1 (no_waiters L) /\ aborted w w1 (L Q_read_wait ++ L Q_write_wait) /\
    thr_abort_locks w up =
      match up, list.head (L Q_write) with
      | true, Some h => upd w1 h (set_type TL_WRITE_ONLY)
      | _, _ => w1
      end.
Proof.
  clear D HD.
  intros HL. unfold thr_abort_locks.
  destruct (abort_queue_spec w L Q_read_wait HL) as [HL1 HA1].
  set (w1 := abort_chain _ w _) in *.
  destruct (abort_queue_spec w1 L Q_write_wait HL1) as [HL2 HA2].
  set (w2 := abort_chain _ w1 _) in *. rewrite clear_queues.
  pose proof (clear_rep _ _ Q_write_wait (clear_rep _ _ Q_read_wait HL2)) as HL3.
  exists (clear (clear w2 Q_read_wait) Q_write_wait). split_and!; [done| |].
  - assert (HA : aborted w w2 (L Q_read_wait ++ L Q_write_wait)); [|by destruct HA].
    destruct HA1 as [Ht Ho Hc Hf Hr He], HA2 as [Ht' Ho' Hc' Hf' Hr' He'].
    constructor; intros; try congruence.
    + rewrite Ht', Ht. apply decide_elem_app.
    + rewrite Hc', Hc. apply decide_elem_app.
    + rewrite He', He, fmap_app, <-app_assoc. do 2 f_equal. apply list_fmap_ext.
      intros i x Hi%list_elem_of_lookup_2. rewrite Hc, decide_False; [done|].
      intros Hx. by discriminate (rg_disj _ _ _ HL _ _ _ Hi Hx).
  - by rewrite (rep_head _ _ _ HL3).
Qed.

Lemma thr_abort_locks_inv w L up : inv w L ->
  (care = true -> up = true -> forall h, list.head (L Q_write) = Some h -> strong (ty w h) = true) ->
  inv (thr_abort_locks w up) (no_waiters L).
Proof.
  intros (HB & HS & Hlive) Hup. pose proof (b_rep _ _ _ HB) as HL.
  destruct (thr_abort_locks_spec w L up HL) as (w1 & HL1 & [Ht Ho Hc Hf Hr _] & ->).
  destruct (flags_inv _ _ Hf) as [Hcs Ha].
  assert (Hrun : forall q x, x ∈ no_waiters L q ->
            x ∈ L q /\ ty w1 x = ty w x /\ cnd w1 x = cnd w x).
  { intros q x. unfold no_waiters, fupd. repeat case_decide; try (by intros ?%elem_of_nil).
    intros Hx. rewrite Ht, Hc, !decide_False; [done|..];
      (intros [Hx'|Hx']%elem_of_app; pose proof (rg_disj _ _ _ HL _ _ _ Hx Hx'); congruence). }
  assert (HB1 : base w1 (no_waiters L)).
  { constructor; [done|..].
    - intros q x [? _]%Hrun. by eapply b_D.
    - intros q x (? & -> & _)%Hrun. rewrite Hcs. by apply HB.
    - intros q x (? & _ & ->)%Hrun. by apply HB.
    - rewrite Hr, (b_rnwc _ _ _ HB). f_equal. apply count_ext. intros x Hx. unfold no_insert.
      by destruct (Hrun Q_read x Hx) as (_ & -> & _). }
  assert (HS1 : safe_st w1 (no_waiters L)).
  { intros Hcare. rewrite Ha. eapply safe_ext; [exact (HS Hcare)|]. intros x Hx. split; [|done].
    apply elem_of_app in Hx as [Hx|Hx]; by eapply Hrun in Hx as (_ & -> & _). }
  assert (Hl : live (no_waiters L)) by done.
  destruct up, (list.head (L Q_write)) as [h|] eqn:Eh; try done.
  assert (Hh : h ∈ L Q_write) by (destruct (L Q_write); simplify_eq/=; left).
  destruct (Hrun Q_write h Hh) as (_ & Hth & _).
  apply retype_inv; [done|done| |simpl; by rewrite orb_true_r].
  intros Hcare. split; [|by left]. rewrite Hth. by apply Hup.
Qed.

(** One round of [abort_thread_chain] on a record of the thread. *)
Lemma abort_one_spec w L q a d b : base w L -> safe_st w L -> L q = a ++ d :: b ->
  q = Q_read_wait \/ q = Q_write_wait ->
  let w' := unlink (wake (upd w d (set_type TL_UNLOCK)) d) d q in
  base w' (fupd L q (a ++ b)) /\ safe_st w' (fupd L q (a ++ b)) /\
  (forall x, own w' x = own w x) /\ next (dat w' d) = list.head b.
Proof.
  intros HB HS E Hq w'. pose proof (same_links_abort_one w d) as Hl.
  set (w0 := wake (upd w d (set_type TL_UNLOCK)) d) in *.
  pose proof (same_payload_unlink w0 d q) as [Ht Ho Hc _ Hf _ Hr _].
  pose proof (same_links_rep _ _ _ _ Hl (b_rep _ _ _ HB)) as HL0.
  pose proof (removed_out _ _ _ _ _ _ HB E) as Hout.
  assert (Hdat : forall x, x <> d -> dat w0 x = dat w x).
  { intros x Hx. unfold w0. by rewrite dat_wake, decide_False, dat_upd, decide_False. }
  assert (Hfrom : forall q' x, x ∈ fupd L q (a ++ b) q' -> x ∈ L q' /\ x <> d).
  { intros q' x Hx. split; [|intros ->; by eapply Hout]. revert Hx. unfold fupd.
    case_decide; subst; [|done]. rewrite E. rewrite !elem_of_app, elem_of_cons. tauto. }
  assert (Hown : forall x, own w' x = own w x).
  { intros x. etrans; [apply Ho|]. unfold own, w0. rewrite dat_wake, !dat_upd.
    by repeat case_decide; subst. }
  split_and!; [constructor| |done|by eapply (unlink_next _ _ _ HL0)].
  - by apply (unlink_rep _ _ _ HL0 q a d b E).
  - intros q' x [? _]%Hfrom. by eapply b_D.
  - intros q' x [? Hx]%Hfrom. unfold w'. rewrite Ht. unfold ty. rewrite Hdat by done.
    destruct (flags_inv _ _ Hf) as [-> _]. by apply (b_ty _ _ _ HB).
  - intros q' x [? Hx]%Hfrom. unfold w'. rewrite Hc. unfold cnd. rewrite Hdat by done.
    by apply (b_cnd _ _ _ HB).
  - unfold w'. rewrite Hr. etrans; [apply (b_rnwc _ _ _ HB)|]. rewrite fupd_ne by (by destruct Hq as [-> | ->]).
    f_equal. apply count_ext. intros x Hx. unfold no_insert. rewrite Ht. unfold ty.
    rewrite Hdat; [done|]. intros ->. apply (Hout Q_read). by rewrite fupd_ne by (by destruct Hq as [-> | ->]).
  - intros Hcare. unfold w'. destruct (flags_inv _ _ Hf) as [_ ->].
    rewrite !fupd_ne by (by destruct Hq as [-> | ->]). eapply safe_ext; [exact (HS Hcare)|].
    intros x Hx. split; [|apply Hown]. etrans; [apply Ht|]. unfold ty. rewrite Hdat; [done|].
    intros ->. apply elem_of_app in Hx as [Hx|Hx]; [apply (Hout Q_read)|apply (Hout Q_write)];
      by rewrite fupd_ne by (by destruct Hq as [-> | ->]).
Qed.

(** [abort_thread_chain] takes the records of the thread out of the queue. *)
Lemma abort_thread_chain_spec q is_thread ds : q = Q_read_wait \/ q = Q_write_wait ->
  forall fuel w L a found,
  base w L -> safe_st w L -> L q = a ++ ds -> length ds < fuel ->
  let '(w', found') := abort_thread_chain fuel w q (list.head ds) is_thread found in
  base w' (fupd L q (a ++ List.filter (fun d => negb (is_thread (own w d))) ds)) /\
  safe_st w' (fupd L q (a ++ List.filter (fun d => negb (is_thread (own w d))) ds)) /\
  (forall x, own w' x = own w x) /\
  found' = found || existsb (fun d => is_thread (own w d)) ds.
Proof.
  intros Hq. induction ds as [|d ds IH]; intros [|fuel] w L a found HB HS E Hf;
    simpl in Hf; try lia; cbn [abort_thread_chain list.head List.filter existsb].
  - rewrite orb_false_r. split_and!; try done.
    + eapply base_proper; [|exact HB]. intros q'. unfold fupd. case_decide; congruence.
    + unfold safe_st in *. rewrite !fupd_ne by (by destruct Hq as [-> | ->]). done.
  - change (owner (dat w d)) with (own w d). destruct (is_thread (own w d)) eqn:Eth; cbn [negb].
    + destruct (abort_one_spec w L q a d ds HB HS E Hq) as (HB' & HS' & Ho & ->).
      set (w1 := unlink _ d q) in *. specialize (IH fuel w1 _ a true HB' HS').
      rewrite fupd_eq in IH. specialize (IH eq_refl ltac:(lia)).
      destruct (abort_thread_chain _ _ _ _ _ _) as [w' found']. destruct IH as (IH1 & IH2 & IH3 & IH4).
      assert (Hfil : List.filter (fun d => negb (is_thread (own w1 d))) ds =
                     List.filter (fun d => negb (is_thread (own w d))) ds)
        by (apply List.filter_ext; intros x; by rewrite Ho).
      rewrite Hfil in *. split_and!.
      * eapply base_proper; [|exact IH1]. intros q'. unfold fupd. by repeat case_decide.
      * unfold safe_st in *. rewrite !fupd_ne in * by (by destruct Hq as [-> | ->]). done.
      * intros x. by rewrite IH3.
      * by rewrite IH4, orb_true_l, orb_true_r.
    + pose proof (mid_next _ _ _ (b_rep _ _ _ HB) q a d ds E ltac:(done)) as ->.
      specialize (IH fuel w L (a ++ [d]) found HB HS). rewrite <-app_assoc in IH.
      specialize (IH E ltac:(lia)). destruct (abort_thread_chain _ _ _ _ _ _) as [w' found'].
      rewrite <-app_assoc in IH. exact IH.
Qed.

Lemma thr_abort_locks_for_thread_inv env w L is_thread : inv w L ->
  exists L', inv (thr_abort_locks_for_thread env w is_thread).1 L'.
Proof.
  intros (HB & HS & _). unfold thr_abort_locks_for_thread.
  rewrite (rep_head _ _ _ (b_rep _ _ _ HB)) by done.
  pose proof (abort_thread_chain_spec Q_read_wait is_thread (L Q_read_wait) ltac:(auto)
    (chain_fuel w) w L [] false HB HS eq_refl) as H.
  destruct (abort_thread_chain _ _ _ _ _ _) as [w1 f1].
  destruct H as (HB1 & HS1 & _).
  { pose proof (rep_length _ _ _ Q_read_wait (b_rep _ _ _ HB)). unfold chain_fuel. lia. }
  set (L1 := fupd _ _ _) in *. rewrite (rep_head _ _ _ (b_rep _ _ _ HB1)) by done.
  pose proof (abort_thread_chain_spec Q_write_wait is_thread (L1 Q_write_wait) ltac:(auto)
    (chain_fuel w1) w1 L1 [] f1 HB1 HS1 eq_refl) as H.
  destruct (abort_thread_chain _ _ _ _ _ _) as [w2 f2].
  destruct H as (HB2 & HS2 & _).
  { pose proof (rep_length _ _ _ Q_write_wait (b_rep _ _ _ HB1)). unfold chain_fuel. lia. }
  by eapply wake_up_waiters_inv.
Qed.

(** ** Delayed locks *)

(** A granted write lock becomes the first waiting one. *)
Lemma base_requeue w L a d b c : base w L -> L Q_write = a ++ d :: b ->
  base (upd (push_front (unlink w d Q_write) Q_write_wait d) d (set_cond (Some c)))
    (fupd (fupd L Q_write (a ++ b)) Q_write_wait (d :: L Q_write_wait)).
Proof.
  intros HB E. pose proof (requeue_front_rep w L a d b Q_write Q_write_wait ltac:(done)
    (b_rep _ _ _ HB) E) as HL.
  assert (Hsp : same_payload w (push_front (unlink w d Q_write) Q_write_wait d)) by
    (eapply same_payload_trans; [apply same_payload_unlink|apply same_payload_push_front]).
  set (w1 := push_front _ _ _) in *. destruct Hsp as [Ht Ho Hc _ Hf _ Hr _].
  destruct (flags_inv _ _ Hf) as [Hcs _].
  assert (Hd : d ∈ L Q_write) by (rewrite E; set_solver).
  assert (Hfrom : forall q x, x ∈ fupd (fupd L Q_write (a ++ b)) Q_write_wait (d :: L Q_write_wait) q ->
            x ∈ L q /\ x <> d \/ x = d /\ q = Q_write_wait).
  { intros q x Hx. destruct (decide (x = d)) as [->|Hxd].
    - right. split; [done|]. eapply (rg_disj _ _ _ HL); [done|]. rewrite fupd_eq. left.
    - left. split; [|done]. revert Hx. unfold fupd. repeat case_decide; subst; [| |done].
      + intros [?|?]%elem_of_cons; done.
      + rewrite E, !elem_of_app, elem_of_cons. tauto. }
  constructor.
  - eapply same_links_rep; [by apply same_links_upd|done].
  - intros q x [[? _]|[-> _]]%Hfrom; by eapply b_D.
  - intros q x Hx%Hfrom. unfold ty. rewrite dat_upd. cbn [lk upd]. rewrite Hcs.
    destruct Hx as [[? ?]|[-> ->]].
    + rewrite decide_False by done. rewrite <-(b_ty _ _ _ HB q x) by done. f_equal. apply Ht.
    + rewrite decide_True, <-(b_ty _ _ _ HB Q_write d) by done. simpl. unfold ty in Ht. by rewrite Ht.
  - intros q x Hx%Hfrom. unfold cnd. rewrite dat_upd. destruct Hx as [[? ?]|[-> ->]].
    + rewrite decide_False by done. rewrite <-(b_cnd _ _ _ HB q x) by done. unfold cnd in Hc. by rewrite Hc.
    + by rewrite decide_True.
  - cbn [lk upd]. rewrite Hr. etrans; [apply (b_rnwc _ _ _ HB)|]. rewrite !fupd_ne by done.
    f_equal. apply count_ext. intros x Hx. unfold no_insert. f_equal. rewrite <-Ht. unfold ty.
    rewrite dat_upd. by case_decide; subst.
Qed.

Lemma base_set_cond w L d q c : base w L -> d ∈ L q -> running q = false ->
  base (upd w d (set_cond (Some c))) L.
Proof.
  intros HB Hd Hq. constructor; try apply HB.
  - eapply same_links_rep; [by apply same_links_upd|apply HB].
  - intros q' x Hx. unfold ty. rewrite dat_upd. case_decide; subst; by apply (b_ty _ _ _ HB).
  - intros q' x Hx. unfold cnd. rewrite dat_upd. case_decide; subst; [|by apply (b_cnd _ _ _ HB)].
    by rewrite (rg_disj _ _ _ (b_rep _ _ _ HB) _ _ _ Hx Hd), Hq.
  - etrans; [apply (b_rnwc _ _ _ HB)|]. f_equal. apply count_ext. intros x Hx. unfold no_insert, ty.
    rewrite dat_upd. by case_decide; subst.
Qed.

Lemma safe_upd_waiting w L d q f : safe_st w L -> base w L -> d ∈ L q -> running q = false ->
  safe_st (upd w d f) L.
Proof.
  intros HS HB Hd Hq Hcare. eapply safe_ext; [exact (HS Hcare)|]. intros x Hx.
  assert (x <> d).
  { intros ->. apply elem_of_app in Hx as [Hx|Hx];
      pose proof (rg_disj _ _ _ (b_rep _ _ _ HB) _ _ _ Hd Hx) as ->; done. }
  unfold ty, own. rewrite dat_upd, decide_False; done.
Qed.

Lemma inv_emit w L e : inv w L -> inv (emit w e) L.
Proof.
  intros (HB & HS & Hlive). split_and!; [|done|done].
  eapply base_links; [apply same_links_emit|apply same_payload_emit|done].
Qed.

Lemma call_get_status_inv env w L d ci : inv w L -> inv (call_get_status env w d ci).2 L.
Proof. unfold call_get_status. destruct (get_status _); [apply inv_emit|done]. Qed.

Lemma call_start_trans_inv env w L d : inv w L -> inv (call_start_trans env w d).2 L.
Proof. unfold call_start_trans. destruct (start_trans _); [apply inv_emit|done]. Qed.

(** The delayed lock that waits gets its final type. *)
Lemma upgrade_waiting w L d t c : base w L -> safe_st w L -> d ∈ L Q_write_wait ->
  type_ok (check_status (lk w)) Q_write t = true ->
  base (upd (upd w d (set_type t)) d (set_cond (Some c))) L /\
  safe_st (upd (upd w d (set_type t)) d (set_cond (Some c))) L.
Proof.
  intros HB HS Hd Ht.
  assert (HB1 : base (upd w d (set_type t)) L) by (by eapply base_retype; [..|left|]).
  split; [by eapply base_set_cond|]. eapply safe_upd_waiting; [|done..]. by eapply safe_upd_waiting.
Qed.

Lemma thr_upgrade_write_delay_lock_inv env w L d t c : inv w L ->
  (d ∈ L Q_write \/ d ∈ L Q_write_wait) /\ ty w d = TL_WRITE_DELAYED \/
    ty w d = TL_UNLOCK \/ tl_le TL_WRITE_LOW_PRIORITY (ty w d) = true ->
  type_ok (check_status (lk w)) Q_write t = true ->
  exists L', inv (thr_upgrade_write_delay_lock env w d t c).1 L'.
Proof.
  intros Hinv Hd Ht. pose proof Hinv as (HB & HS & Hlive).
  unfold thr_upgrade_write_delay_lock. destruct (_ || _) eqn:Ee; [by exists L|].
  apply orb_false_elim in Ee as [Ee1 Ee2].
  destruct Hd as [[Hd Hty]|[Hty|Hty]]; [|by rewrite Hty in Ee1|by rewrite Hty in Ee2].
  assert (Hc1 : cond (dat (upd w d (set_type t)) d) = cnd w d) by (by rewrite dat_upd, decide_True).
  rewrite Hc1. change (head (upd w d (set_type t)) Q_read) with (head w Q_read).
  rewrite (rep_head _ _ _ (b_rep _ _ _ HB)) by done.
  destruct (cnd w d) as [c0|] eqn:Ec.
  - assert (Hww : d ∈ L Q_write_wait).
    { destruct Hd as [Hd|]; [|done]. pose proof (b_cnd _ _ _ HB _ _ Hd) as H. by rewrite Ec in H. }
    exists L. simpl. destruct (upgrade_waiting w L d t c) as [? ?]; done.
  - assert (HW : d ∈ L Q_write).
    { destruct Hd as [|Hd]; [done|]. pose proof (b_cnd _ _ _ HB _ _ Hd) as H. by rewrite Ec in H. }
    assert (EW : care = true -> L Q_write = [d]) by (intros Hcare; exact (sf_delayed _ _ _ _ _ (HS Hcare) d HW Hty)).
    assert (HB1 : base (upd w d (set_type t)) L) by (by eapply base_retype; [..|right|]).
    destruct (L Q_read) as [|r R] eqn:ER; cbn [list.head].
    + exists L. assert (H1 : inv (upd w d (set_type t)) L).
      { split_and!; [done| |done]. intros Hcare. rewrite EW, ER by done. apply safe_single. }
      pose proof (call_get_status_inv env _ _ d false H1) as H2.
      destruct (call_get_status _ _ _ _) as [? w2].
      pose proof (call_start_trans_inv env _ _ d H2) as H3. by destruct (call_start_trans _ _ _).
    + apply list_elem_of_split in HW as (a & b & E). eexists. split_and!; [by apply (base_requeue _ L a d b)|..].
      * intros Hcare. specialize (EW Hcare). rewrite E in EW.
        destruct a as [|? [|]], b; simplify_eq. rewrite (fupd_ne _ _ _ Q_write), fupd_eq by done. apply safe_nil.
      * split; [done|]. intros _. rewrite !fupd_ne, ER by done. done.
Qed.

(** [thr_reschedule_write_lock] on the only write lock. *)
Lemma thr_reschedule_write_lock_start_inv w L d c : inv w L -> L Q_write = [d] ->
  exists L', inv (thr_reschedule_write_lock_start w d c).1 L'.
Proof.
  intros Hinv EW. pose proof Hinv as (HB & HS & Hlive). unfold thr_reschedule_write_lock_start.
  rewrite (rep_head _ _ _ (b_rep _ _ _ HB)) by done.
  destruct (L Q_read_wait) as [|r rs] eqn:Erw; cbn [list.head]; [by exists L|].
  assert (Hd : d ∈ L Q_write) by (rewrite EW; left).
  assert (HB1 : base (upd w d (set_type TL_WRITE_DELAYED)) L).
  { eapply base_retype; [done|done|by right|]. simpl. by rewrite orb_true_r. }
  set (w1 := upd w d (set_type TL_WRITE_DELAYED)) in *.
  set (w2 := if update_status _ then _ else _).
  assert (H2 : same_links w1 w2 /\ same_payload w1 w2) by
    (unfold w2; destruct (update_status _); auto using same_links_refl, same_links_emit,
      same_payload_refl, same_payload_emit).
  destruct H2 as [Hl2 Hp2]. pose proof (base_links _ _ _ _ Hl2 Hp2 HB1) as HB2.
  pose proof (base_requeue w2 L [] d [] c HB2 EW) as HB3. simpl in HB3.
  set (w3 := upd (push_front _ _ _) d _) in *. set (L3 := fupd _ _ _) in *.
  destruct (free_waiting_ok D care false w3 L3 HB3) as (L4 & HB4 & HS4 & HW4 & Hww4 & Hrw4).
  { intros _. change (L3 Q_write) with ([] : list nat). apply safe_nil. }
  { change (L3 Q_write) with ([] : list nat). by intros ? ?%elem_of_nil. }
  unfold free_waiting_reads in *.
  rewrite (rep_head _ _ _ (b_rep _ _ _ HB3)) in HB4, HS4 by done.
  change (L3 Q_read_wait) with (L Q_read_wait) in *. rewrite Erw in HB4, HS4, Hrw4.
  cbn [list.head] in HB4, HS4.
  destruct (Hrw4 eq_refl) as [Hrw4' HR4]. exists L4. simpl.
  split_and!; [done..|split]; [done|]. intros _ Hnil. rewrite Hnil in HR4. by destruct (L3 Q_read).
Qed.

Lemma thr_upgrade_write_delay_lock_finish_inv env w L d timed_out : inv w L ->
  (cnd w d <> None -> d ∈ L Q_write_wait) ->
  exists L', inv (thr_upgrade_write_delay_lock_finish env w d timed_out).1 L'.
Proof.
  intros Hinv Hd. unfold thr_upgrade_write_delay_lock_finish.
  destruct (wait_for_lock_finish_inv env w L Q_write_wait d timed_out Hinv ltac:(done) Hd) as [L' H].
  destruct (wait_for_lock_finish _ _ _ _ _) as [w1 []]; try by exists L'.
  exists L'. pose proof (call_start_trans_inv env w1 L' d H). by destruct (call_start_trans _ _ _).
Qed.

(** ** Steps

    What the threads of the server may do to a lock; queue contents are read off
    the state by following the pointers.  The premises are those of the
    functions of mysys/thr_lock.c themselves: a record is opened, retyped or
    requested while it is in no queue, unlocked when it is granted, and so on.

    Without [care] this is all.  With [care] the steps are those of threads that
    follow a discipline the functions do not check, and exclusion depends on:
    a thread that has write locks asks for no stronger ones (the server sorts
    its requests, strongest first), and neither [thr_abort_locks] with
    [upgrade_lock] nor [thr_downgrade_write_lock] (which the server never calls)
    turns a lock that others may share into an exclusive one, or an exclusive
    one, beside others of its thread, into one that can be shared. *)

Inductive step (w : lock_state) : lock_state -> Prop :=
| step_data_init d p :
    (forall q, d ∉ chain w q) -> d ∈ D ->
    step w (upd w d (fun x => thr_lock_data_init x p))
| step_set_type d t :
    (forall q, d ∉ chain w q) -> step w (upd w d (set_type t))
| step_lock env d o c :
    request env w (chain w) d o -> step w (thr_lock env w d o c).1
| step_wait_end env q d timed_out :
    running q = false -> (cnd w d <> None -> d ∈ chain w q) ->
    step w (wait_for_lock_finish env w q d timed_out).1
| step_unlock env d unlock_flags :
    unlockable w (chain w) d -> step w (thr_unlock env w d unlock_flags)
| step_abort (up : bool) :
    (care = true -> up = true -> forall h, list.head (chain w Q_write) = Some h -> strong (ty w h) = true) ->
    step w (thr_abort_locks w up)
| step_abort_thread env is_thread :
    step w (thr_abort_locks_for_thread env w is_thread).1
| step_downgrade d t :
    d ∈ chain w Q_write ->
    (care = true -> strong (ty w d) = true /\ (strong t = true \/ chain w Q_write = [d])) ->
    type_ok (check_status (lk w)) Q_write t = true ->
    step w (thr_downgrade_write_lock w d t)
| step_upgrade env d t c :
    (d ∈ chain w Q_write \/ d ∈ chain w Q_write_wait) /\ ty w d = TL_WRITE_DELAYED \/
      ty w d = TL_UNLOCK \/ tl_le TL_WRITE_LOW_PRIORITY (ty w d) = true ->
    type_ok (check_status (lk w)) Q_write t = true ->
    step w (thr_upgrade_write_delay_lock env w d t c).1
| step_upgrade_end env d timed_out :
    (cnd w d <> None -> d ∈ chain w Q_write_wait) ->
    step w (thr_upgrade_write_delay_lock_finish env w d timed_out).1
| step_reschedule d c :
    chain w Q_write = [d] -> step w (thr_reschedule_write_lock_start w d c).1.

(** A lock after [thr_lock_init], with the callbacks the engine sets. *)
Definition initial (gs us rs st cs am : bool) : lock_state :=
  mk_state (mk_lock (read_wait thr_lock_init) (read thr_lock_init) (write_wait thr_lock_init)
    (write thr_lock_init) (write_lock_count thr_lock_init) (read_no_write_count thr_lock_init)
    gs us rs st cs am) ∅ [].

Definition reachable (w : lock_state) : Prop :=
  exists gs us rs st cs am, rtc step (initial gs us rs st cs am) w.

Lemma initial_inv gs us rs st cs am : inv (initial gs us rs st cs am) (fun _ => []).
Proof.
  split_and!; [constructor| |done]; try (by intros ? ? ?%elem_of_nil); [|done|intros _; apply safe_nil].
  constructor; try done; try (by intros []); try (by intros ? ? ? ?%elem_of_nil);
    try (by intros ? ? ?%elem_of_nil). intros. apply NoDup_nil_2.
Qed.

Lemma inv_chain w L : inv w L -> inv w (chain w).
Proof.
  intros (HB & HS & Hlive). assert (E : forall q, chain w q = L q) by
    (intros; eapply rep_chain; [apply HB|done]).
  split_and!.
  - by eapply base_proper.
  - intros Hcare. specialize (HS Hcare). by rewrite !E.
  - unfold live in *. by rewrite !E.
Qed.

Lemma step_inv w w' : inv w (chain w) -> step w w' -> inv w' (chain w').
Proof.
  intros Hinv Hstep. assert (H : exists L', inv w' L'); [|destruct H as [L' H]; by eapply inv_chain].
  destruct Hstep; eauto using thr_lock_inv, wait_for_lock_finish_inv, thr_unlock_inv,
    thr_abort_locks_inv, thr_abort_locks_for_thread_inv, retype_inv,
    thr_upgrade_write_delay_lock_inv, thr_upgrade_write_delay_lock_finish_inv,
    thr_reschedule_write_lock_start_inv, inv_upd_out.
Qed.

Lemma reachable_inv w : reachable w -> inv w (chain w).
Proof.
  intros (gs & us & rs & st & cs & am & H).
  pose proof (inv_chain _ _ (initial_inv gs us rs st cs am)) as H0. revert H0.
  induction H as [|w1 w2 w3 H12 _ IH]; [done|]. intros H0. eapply IH, step_inv; eauto.
Qed.

End ops.

End ThrLockSteps.
