(* ===== verification/ThrLockFrame.v ===== *)
(** * What the operations on a table lock do to the other records

    [kept]: what becomes of a lock data record while another thread, or another
    request of the same thread, works on the lock.  [thr_lock], [thr_unlock] and
    the end of [wait_for_lock] keep every record but their own. *)

From S2P Require Import Prelude ThrLock ThrLockQueues ThrLockSafety ThrLockSteps.
Import ThrLock ThrLockQueues ThrLockSafety ThrLockSteps.

Module ThrLockFrame.

Implicit Types (w : lock_state) (L : qid -> list nat) (env : environment).

(** Where a waiting lock goes when it is granted. *)
Definition granted_queue (q : qid) : qid :=
  match q with Q_read_wait => Q_read | Q_write_wait => Q_write | q => q end.

Definition out L (x : nat) : Prop := forall q, x ∉ L q.

(** A record in no queue is untouched, a granted one stays granted with its
    type, a waiting one waits, is granted or is aborted. *)
Record kept w L w' L' (x : nat) : Prop := {
  kp_own : own w' x = own w x;
  kp_out : out L x -> out L' x /\ ty w' x = ty w x /\ cnd w' x = cnd w x;
  kp_run : forall q, running q = true -> x ∈ L q -> x ∈ L' q /\ ty w' x = ty w x;
  kp_wait : forall q, running q = false -> x ∈ L q ->
    x ∈ L' q \/ x ∈ L' (granted_queue q) \/ out L' x /\ ty w' x = TL_UNLOCK /\ cnd w' x = None
}.

Lemma kept_refl w L x : kept w L w L x.
Proof. constructor; auto. Qed.

Lemma kept_trans w1 L1 w2 L2 w3 L3 x :
  kept w1 L1 w2 L2 x -> kept w2 L2 w3 L3 x -> kept w1 L1 w3 L3 x.
Proof.
  intros [Ho1 Hu1 Hr1 Hw1] [Ho2 Hu2 Hr2 Hw2]. constructor.
  - congruence.
  - intros (H1 & E1 & C1)%Hu1. destruct (Hu2 H1) as (H2 & E2 & C2). split_and!; congruence || done.
  - intros q Hq Hx. destruct (Hr1 q Hq Hx) as [H1 E1]. destruct (Hr2 q Hq H1) as [H2 E2].
    split; [done|congruence].
  - intros q Hq Hx. destruct (Hw1 q Hq Hx) as [H1|[H1|(H1 & E1 & C1)]]; [by apply Hw2| |].
    + right. left. apply Hr2; [by destruct q|done].
    + right. right. destruct (Hu2 H1) as (H2 & E2 & C2). split_and!; congruence || done.
Qed.

(** Only the queue contents matter. *)
Lemma kept_ext w L1 L w' L1' L' x : (forall q, L1 q = L q) -> (forall q, L1' q = L' q) ->
  kept w L w' L' x -> kept w L1 w' L1' x.
Proof.
  intros E E' [H1 H2 H3 H4]. unfold out in *. constructor; [done|..].
  - intros H. destruct H2 as [? ?]; [intros q; by rewrite <-E|]. split; [intros q; by rewrite E'|done].
  - intros q. rewrite E, E'. auto.
  - intros q. rewrite E, !E'. intros Hq Hx. destruct (H4 q Hq Hx) as [?|[?|[? ?]]]; auto.
    right. right. split; [intros q'; by rewrite E'|done].
Qed.

(** The same record and the same queues. *)
Lemma kept_same w w' L x : ty w' x = ty w x -> own w' x = own w x -> cnd w' x = cnd w x ->
  kept w L w' L x.
Proof. constructor; auto. Qed.

Lemma kept_payload w w' L x : same_payload w w' -> kept w L w' L x.
Proof. intros []. by apply kept_same. Qed.

Lemma kept_upd w d f L x : x <> d -> kept w L (upd w d f) L x.
Proof. intros. apply kept_same; unfold ty, own, cnd; by rewrite dat_upd, decide_False. Qed.

(** [d] is added to a queue. *)
Lemma kept_queued w w' L q d x : queued w w' L q d -> x <> d ->
  kept w L w' (fupd L q (L q ++ [d])) x.
Proof.
  intros [_ Ht Ho _ Hc _ _] Hx.
  assert (H : forall q', x ∈ fupd L q (L q ++ [d]) q' <-> x ∈ L q').
  { intros q'. unfold fupd. case_decide; subst; [|done]. set_solver. }
  constructor; [done|..].
  - intros Hout. split_and!; [|done|by apply Hc]. intros q'. by rewrite H.
  - intros q' _. by rewrite H.
  - intros q' _. rewrite H. auto.
Qed.

(** [d] is taken out of a queue. *)
Lemma kept_removed w w' L q a d b x : L q = a ++ d :: b -> x <> d ->
  (forall y, ty w' y = ty w y) -> (forall y, own w' y = own w y) -> (forall y, cnd w' y = cnd w y) ->
  kept w L w' (fupd L q (a ++ b)) x.
Proof.
  intros E Hx Ht Ho Hc.
  assert (H : forall q', x ∈ fupd L q (a ++ b) q' <-> x ∈ L q').
  { intros q'. unfold fupd. case_decide; subst; [|done]. rewrite E. set_solver. }
  constructor; [done|..].
  - intros Hout. split_and!; [|done..]. intros q'. by rewrite H.
  - intros q' _. by rewrite H.
  - intros q' _. rewrite H. auto.
Qed.

Section ops.
Context (D : gset nat) (HD : (Z.of_nat (size D) < 2 ^ 32)%Z).
Notation base := (base D).

(** ** wake_up_waiters *)

(** A waiting writer is started. *)
Lemma kept_started w L w' d b t x : base w L -> L Q_write_wait = d :: b -> started w w' d t ->
  kept w L w' (moved L d b) x.
Proof.
  intros HB E [Ht Ho _ Hc _].
  assert (Hd : d ∈ L Q_write_wait) by (rewrite E; left).
  destruct (decide (x = d)) as [->|Hx].
  - constructor; [done|..].
    + intros Hout. by destruct (Hout Q_write_wait).
    + intros q Hq Hq'. by rewrite (rg_disj _ _ _ (b_rep _ _ _ HB) _ _ _ Hq' Hd) in Hq.
    + intros q Hq Hq'. rewrite (rg_disj _ _ _ (b_rep _ _ _ HB) _ _ _ Hq' Hd). right. left.
      unfold moved. simpl. rewrite fupd_eq. set_solver.
  - assert (H : forall q, x ∈ moved L d b q <-> x ∈ L q).
    { intros q. unfold moved, fupd. repeat case_decide; subst; rewrite ?E; set_solver. }
    assert (Htx : ty w' x = ty w x) by (by rewrite Ht, decide_False).
    constructor; [done|..].
    + intros Hout. split_and!; [intros q; by rewrite H|done|by rewrite Hc, decide_False].
    + intros q _. by rewrite H.
    + intros q _. rewrite H. auto.
Qed.

(** The waiting readers are released. *)
Lemma kept_free_all uci w L x : base w L -> L Q_read_wait <> [] ->
  kept w L (free_all_read_locks w uci) (released_queues uci w L) x.
Proof.
  intros HB Hne. destruct (free_all_spec uci w L (b_rep _ _ _ HB) Hne) as [HL [Ht Ho _ _ Hc _ _]].
  constructor; [done|..].
  - intros Hout. split_and!; [|done|].
    + intros q. unfold released_queues, fupd. repeat case_decide; subst; [| |done].
      * intros [_ ?]%elem_of_filter_bool. by apply (Hout Q_read_wait).
      * intros [?|[_ ?]%elem_of_filter_bool]%elem_of_app; [by apply (Hout Q_read)|by apply (Hout Q_read_wait)].
    + rewrite Hc, decide_False; [done|]. intros [_ ?]%elem_of_filter_bool. by apply (Hout Q_read_wait).
  - intros q Hq Hx. split; [|done]. unfold released_queues, fupd.
    repeat case_decide; subst; [done| |done]. set_solver.
  - intros q Hq Hx. unfold released_queues. destruct q; try done; simpl.
    + rewrite fupd_eq, fupd_ne, fupd_eq by done.
      destruct (freed uci w x) eqn:Ef; [right; left|left].
      * apply elem_of_app. right. by apply elem_of_filter_bool.
      * apply elem_of_filter_bool. by rewrite Ef.
    + left. by rewrite !fupd_ne.
Qed.

Lemma free_waiting_kept uci w L : base w L ->
  exists L', base (free_waiting_reads w uci) L' /\
    forall x, kept w L (free_waiting_reads w uci) L' x.
Proof.
  intros HB. unfold free_waiting_reads. rewrite (rep_head _ _ _ (b_rep _ _ _ HB)) by done.
  destruct (L Q_read_wait) as [|r rs] eqn:E; cbn [list.head].
  { exists L. split; [done|intros; apply kept_refl]. }
  assert (Hne : L Q_read_wait <> []) by (by rewrite E).
  exists (released_queues uci w L). split; [by apply base_free_all|].
  intros x. by apply kept_free_all.
Qed.

(** Two operations in a row. *)
Lemma kept_then w L w1 L1 w2 : (forall x, kept w L w1 L1 x) ->
  (exists L2, base w2 L2 /\ forall x, kept w1 L1 w2 L2 x) ->
  exists L2, base w2 L2 /\ forall x, kept w L w2 L2 x.
Proof.
  intros H1 (L2 & HB & H2). exists L2. split; [done|]. intros x. by eapply kept_trans.
Qed.

Lemma free_write_locks_kept env b : forall fuel w L d,
  base w L -> L Q_write_wait = d :: b -> length b < fuel ->
  let '(w', d') := free_write_locks fuel env w d in
  exists L', base w' L' /\ forall x, kept w L w' L' x.
Proof.
  induction b as [|n b IH]; intros [|fuel] w L d HB E Hfuel; simpl in Hfuel; try lia.
  all: cbn [free_write_locks]; fold (free_one env w d).
  all: destruct (free_one_ok D HD env w L d _ HB E) as (t & Hst & HB' & _).
  all: pose proof (fun x => kept_started w L _ d _ t x HB E Hst) as HK.
  all: set (w1 := free_one env w d) in *.
  all: rewrite (rep_head _ _ _ (b_rep _ _ _ HB') Q_write_wait) by done.
  all: destruct (tl_eq (ty w1 d) TL_WRITE_ALLOW_WRITE); cbn [negb]; [|by eexists].
  all: change (moved L d ?l Q_write_wait) with l; cbn [list.head].
  - by eexists.
  - destruct (tl_eq (ty w1 n) TL_WRITE_ALLOW_WRITE); [|by eexists].
    pose proof (IH fuel w1 _ n HB' eq_refl ltac:(lia)) as H.
    destruct (free_write_locks fuel env w1 n) as [w' d']. by eapply kept_then.
Qed.

Lemma free_write_locks_with_reads_kept t b : forall fuel w L d,
  base w L -> L Q_write_wait = d :: b -> length b < fuel ->
  exists L', base (free_write_locks_with_reads fuel w d t) L' /\
    forall x, kept w L (free_write_locks_with_reads fuel w d t) L' x.
Proof.
  induction b as [|n b IH]; intros [|fuel] w L d HB E Hfuel; simpl in Hfuel; try lia.
  all: cbn [free_write_locks_with_reads]; destruct (start_wake_ok D HD w L d _ HB E) as [Hst HB'].
  all: pose proof (fun x => kept_started w L _ d _ _ x HB E Hst) as HK.
  all: set (w1 := wake (start_write w d) d) in *.
  all: rewrite (rep_head _ _ _ (b_rep _ _ _ HB') Q_write_wait) by done.
  all: destruct (tl_eq t TL_WRITE_ALLOW_WRITE); [|by eexists].
  all: change (moved L d ?l Q_write_wait) with l; cbn [list.head].
  - by eexists.
  - destruct (tl_eq (ty w1 n) TL_WRITE_ALLOW_WRITE); [|by eexists].
    eapply kept_then; [done|]. apply IH; [done|done|lia].
Qed.

(** Long enough for the queue of waiting writers. *)
Lemma chain_fuel_ok w L d b : base w L -> L Q_write_wait = d :: b -> length b < chain_fuel w.
Proof.
  intros HB E. pose proof (rep_length _ _ _ Q_write_wait (b_rep _ _ _ HB)) as Hl. rewrite E in Hl.
  simpl in Hl. unfold chain_fuel. lia.
Qed.

Lemma wake_up_no_locks_kept env w L d b : base w L -> L Q_write_wait = d :: b ->
  exists L', base (wake_up_no_locks env w d) L' /\ forall x, kept w L (wake_up_no_locks env w d) L' x.
Proof.
  intros HB E.
  assert (Hwr : forall n, exists L', base (free_writers env (set_write_lock_count w n) d) L' /\
    forall x, kept w L (free_writers env (set_write_lock_count w n) d) L' x).
  { intros n. unfold free_writers. pose proof (base_wlc D w L n HB) as HB1.
    pose proof (free_write_locks_kept env b _ _ L d HB1 E (chain_fuel_ok _ L d b HB1 E)) as H.
    destruct (free_write_locks _ _ _ _) as [w2 d2]. destruct H as (L2 & HB2 & H2).
    apply (kept_then w L (set_write_lock_count w n) L); [intros x; by apply kept_same|].
    apply (kept_then _ L w2 L2 _ H2).
    destruct (tl_le _ _); [|by apply free_waiting_kept]. exists L2. split; [done|intros; apply kept_refl]. }
  unfold wake_up_no_locks. destruct (negb _ || _); [|by apply free_waiting_kept].
  unfold free_writers in Hwr. cbv zeta.
  destruct (_ <? _)%Z; [|exact (Hwr _)].
  change (set_write_lock_count (set_write_lock_count w ?a) 0) with (set_write_lock_count w 0).
  set (w1 := set_write_lock_count w 0).
  assert (HB1 : base w1 L) by (by apply base_wlc).
  pose proof (free_waiting_kept false w1 L HB1) as Hr. unfold free_waiting_reads in Hr.
  change (head w1 Q_read_wait) with (head w Q_read_wait) in *.
  destruct (head w Q_read_wait);
    [by apply (kept_then w L w1 L); [intros x; apply kept_same|]|]. exact (Hwr 0%Z).
Qed.

Lemma wake_up_with_reads_kept env w L d b : base w L -> L Q_write_wait = d :: b ->
  exists L', base (wake_up_with_reads env w d) L' /\ forall x, kept w L (wake_up_with_reads env w d) L' x.
Proof.
  intros HB E. unfold wake_up_with_reads.
  assert (Hd : d ∈ L Q_write_wait) by (rewrite E; left).
  set (p := if tl_eq (ty w d) _ then _ else _).
  assert (Hp : same_links w p.2 /\ same_payload w p.2).
  { unfold p. destruct (tl_eq _ _); simpl; split; done || apply same_payload_emit. }
  destruct p as [upgrade w1]. destruct Hp as [Hl Hp]. simpl in Hl, Hp.
  pose proof (base_links D _ _ _ Hl Hp HB) as HB1.
  apply (kept_then w L w1 L); [intros x; by apply kept_payload|]. destruct upgrade.
  - apply (kept_then w1 L (upd w1 d (set_type TL_WRITE)) L).
    + intros x. destruct (decide (x = d)) as [->|?]; [|by apply kept_upd].
      constructor; unfold own, cnd; rewrite ?dat_upd, ?decide_True by done; try done.
      * intros Hout. by destruct (Hout Q_write_wait).
      * intros q Hq Hq'. by rewrite (rg_disj _ _ _ (b_rep _ _ _ HB) _ _ _ Hq' Hd) in Hq.
      * auto.
    + apply free_waiting_kept. eapply base_retype; [done..|by left|]. simpl. by rewrite orb_true_r.
  - destruct (free_write_locks_with_reads_kept (ty w d) b (chain_fuel w1) w1 L d HB1 E)
      as (L2 & HB2 & H2); [by eapply chain_fuel_ok|].
    eapply kept_then; [exact H2|]. by apply free_waiting_kept.
Qed.

Lemma wake_up_waiters_kept env w L : base w L ->
  exists L', base (wake_up_waiters env w) L' /\ forall x, kept w L (wake_up_waiters env w) L' x.
Proof.
  intros HB. assert (H0 : exists L', base w L' /\ forall x, kept w L w L' x).
  { exists L. split; [done|intros; apply kept_refl]. }
  unfold wake_up_waiters. rewrite !(rep_head _ _ _ (b_rep _ _ _ HB)) by done.
  destruct (L Q_write), (L Q_read), (L Q_write_wait) as [|d b] eqn:Eww; cbn [list.head]; try done;
    try (by apply free_waiting_kept).
  - by eapply wake_up_no_locks_kept.
  - destruct (_ && _); [by eapply wake_up_with_reads_kept|done].
Qed.

(** ** Leaving a queue *)

(** [d] left its queue and is marked [TL_UNLOCK]; then the waiters are woken up. *)
Lemma wake_up_removed env w w' L q a d b : base w L -> L q = a ++ d :: b ->
  base w' (fupd L q (a ++ b)) ->
  (forall x, ty w' x = ty w x) -> (forall x, own w' x = own w x) -> (forall x, cnd w' x = cnd w x) ->
  let w2 := wake_up_waiters env (upd w' d (set_type TL_UNLOCK)) in
  exists L', base w2 L' /\ out L' d /\ ty w2 d = TL_UNLOCK /\ own w2 d = own w d /\
    forall x, x <> d -> kept w L w2 L' x.
Proof.
  intros HB E HB' Ht Ho Hc. set (L1 := fupd L q (a ++ b)).
  assert (Hout : out L1 d) by (intros q0; by eapply removed_out).
  set (w1 := upd w' d (set_type TL_UNLOCK)).
  assert (HB1 : base w1 L1) by (by apply base_upd_out).
  destruct (wake_up_waiters_kept env w1 L1 HB1) as (L' & HB2 & HK). exists L'.
  destruct (HK d) as [Hod Hd _ _]. destruct (Hd Hout) as (Hout' & Htd & _).
  split_and!; [done|done|..].
  - rewrite Htd. unfold w1. by rewrite ty_set_type, decide_True.
  - rewrite Hod, <-Ho. unfold own, w1. by rewrite dat_upd, decide_True.
  - intros x Hx. eapply kept_trans; [by eapply (kept_removed w w')|].
    eapply kept_trans; [by apply kept_upd|]. apply HK.
Qed.

(** [thr_unlock] frees its record and keeps the others. *)
Lemma thr_unlock_kept env w L d flags' : base w L -> unlockable w L d ->
  exists L', base (thr_unlock env w d flags') L' /\ out L' d /\
    ty (thr_unlock env w d flags') d = TL_UNLOCK /\ own (thr_unlock env w d flags') d = own w d /\
    forall x, x <> d -> kept w L (thr_unlock env w d flags') L' x.
Proof.
  intros HB Hu.
  destruct (thr_unlock_removed D HD env w L d flags' HB Hu) as (q & a & b & w' & E & -> & HB' & Hf & Ht & Ho & Hc).
  by eapply wake_up_removed.
Qed.

(** The end of [wait_for_lock]: on success nothing but the call of [get_status]
    has happened; otherwise the record is free, or it stays granted because
    [get_status] refused. *)
Lemma wait_for_lock_finish_kept env w L q d timed_out : base w L -> running q = false ->
  d ∈ L q \/ d ∈ L (granted_queue q) \/ out L d /\ ty w d = TL_UNLOCK /\ cnd w d = None ->
  let '(w', r) := wait_for_lock_finish env w q d timed_out in
  exists L', base w' L' /\ own w' d = own w d /\ (forall x, x <> d -> kept w L w' L' x) /\
    (d ∈ L' (granted_queue q) \/ r <> THR_LOCK_SUCCESS /\ out L' d /\ ty w' d = TL_UNLOCK).
Proof.
  intros HB Hq Hd. unfold wait_for_lock_finish. change (cond (dat w d)) with (cnd w d).
  assert (Hst : cnd w d <> None /\ d ∈ L q \/
    cnd w d = None /\ (d ∈ L (granted_queue q) \/ out L d /\ ty w d = TL_UNLOCK)).
  { destruct Hd as [Hd|[Hd|(? & ? & ?)]]; [left|right|by right; auto];
      pose proof (b_cnd _ _ _ HB _ _ Hd) as Hc.
    - rewrite Hq in Hc. by apply bool_decide_eq_false in Hc.
    - assert (Hg : running (granted_queue q) = true) by (by destruct q).
      rewrite Hg in Hc. apply bool_decide_eq_true in Hc. auto. }
  destruct Hst as [[Hc Hin]|[Hc Hin]].
  - destruct (cnd w d) as [c|] eqn:Ec; [|done]. apply list_elem_of_split in Hin as (a & b & E).
    pose proof (same_payload_unlink w d q) as Hsp.
    destruct (unlink_waiting D HD false w L q a d b HB ltac:(done) E) as [HB' _]; [by intros ->|].
    destruct (wake_up_removed env w (unlink w d q) L q a d b HB E HB') as (L' & H1 & H2 & H3 & H4 & H5);
      [apply Hsp..|].
    exists L'. split_and!; [done..|]. right. by destruct timed_out.
  - rewrite Hc. destruct (tl_eq (ty w d) TL_UNLOCK) eqn:Et.
    + exists L. split_and!; [done|done|intros; apply kept_refl|].
      destruct Hin as [Hin|[? ?]]; [by left|by right].
    + assert (Hg : d ∈ L (granted_queue q)).
      { destruct Hin as [?|[_ Hu]]; [done|]. apply tl_eq_false in Et. done. }
      unfold call_get_status. destruct (get_status (lk w)); exists L;
        (split_and!; [|done|intros; by apply kept_same|by left]); [|done].
      eapply base_links; [apply same_links_emit|apply same_payload_emit|done].
Qed.

(** ** thr_lock *)

(** What a request for [d] leads to: the other records are kept, and [d] is
    granted or put into a queue of waiting locks.  (A delayed write lock may be
    waiting although the request succeeds.) *)
Definition requested w L w' (d : nat) (r : outcome) : Prop :=
  exists L', base w' L' /\ own w' d = own w d /\ (forall x, x <> d -> kept w L w' L' x) /\
  match r with
  | Return THR_LOCK_SUCCESS => ty w d <> TL_WRITE_DELAYED -> d ∈ L' Q_read \/ d ∈ L' Q_write
  | Return _ => True
  | WaitOn q => running q = false /\ d ∈ L' q
  end.

Notation ready := (ready D).

Lemma requested_queued w L w' q d r : base w L -> ready w L d -> queued w w' L q d ->
  type_ok (check_status (lk w)) q (ty w d) = true ->
  match r with
  | Return THR_LOCK_SUCCESS => ty w d = TL_WRITE_DELAYED \/ running q = true
  | Return _ => True
  | WaitOn q' => running q = false /\ q' = q
  end -> requested w L w' d r.
Proof.
  intros HB [H1 H2 H3 H4 H5] HQ Ht Hr. exists (fupd L q (L q ++ [d])).
  assert (Hd : d ∈ fupd L q (L q ++ [d]) q) by (rewrite fupd_eq; set_solver).
  split_and!; [by eapply base_queued|apply HQ|intros x Hx; by apply kept_queued|].
  destruct r as [[]|q']; try done.
  - intros Hn. destruct Hr as [?|Hr]; [done|]. destruct q; auto; done.
  - by destruct Hr as [? ->].
Qed.

Lemma grant_read_requested env w L d : base w L -> ready w L d -> read_type (ty w d) = true ->
  requested w L (grant_read env w d).1 d (grant_read env w d).2.
Proof.
  intros HB Hr Ht. pose proof (queued_read D w L d HB (rd_cnd _ _ _ _ Hr)) as HQ.
  unfold grant_read. set (w2 := if tl_eq (ty (append w Q_read d) d) _ then _ else _) in *.
  pose proof (call_get_status_queued env _ _ _ _ _ d false HQ) as HQ'.
  destruct (call_get_status _ _ _ _) as [r w3]. simpl in *.
  eapply requested_queued; [done..|]. destruct r; auto.
Qed.

Lemma grant_requested env w L d ci : base w L -> ready w L d ->
  type_ok (check_status (lk w)) Q_write (ty w d) = true ->
  requested w L (grant env w Q_write d ci).1 d (grant env w Q_write d ci).2.
Proof.
  intros HB Hr Ht.
  pose proof (queued_append D w L Q_write d HB ltac:(done) ltac:(done) (rd_cnd _ _ _ _ Hr)) as HQ.
  unfold grant. pose proof (call_get_status_queued env _ _ _ _ _ d ci HQ) as HQ'.
  destruct (call_get_status _ _ _ _) as [r w3]. simpl in *.
  eapply requested_queued; [done..|]. destruct r; auto.
Qed.

Lemma refuse_requested w L d : base w L -> ready w L d ->
  requested w L (refuse w d).1 d (refuse w d).2.
Proof.
  intros HB Hr. exists L. split_and!; [by apply base_upd_out, Hr| | |done].
  - unfold own. simpl. by rewrite dat_upd, decide_True.
  - intros x Hx. by apply kept_upd.
Qed.

Lemma wait_requested w L d q c : base w L -> ready w L d -> running q = false ->
  type_ok (check_status (lk w)) q (ty w d) = true ->
  requested w L (wait_for_lock_start w q d false c) d (WaitOn q).
Proof. intros HB Hr Hq Ht. eapply requested_queued; [done|done|by apply (queued_wait D)|done..]. Qed.

Lemma thr_lock_read_requested env w L d c : base w L -> ready w L d -> read_type (ty w d) = true ->
  let p := thr_lock_read env w d in requested w L (finish_request c d p) d p.2.
Proof.
  intros HB Hr Ht. cbv zeta.
  assert (Hg : requested w L (finish_request c d (grant_read env w d)) d (grant_read env w d).2).
  { pose proof (grant_read_requested env w L d HB Hr Ht) as H. revert H. unfold grant_read.
    by destruct (call_get_status _ _ _ _). }
  assert (Hw : requested w L (finish_request c d (w, WaitOn Q_read_wait)) d (WaitOn Q_read_wait))
    by (by apply wait_requested).
  unfold thr_lock_read. destruct (head w Q_write); destruct (_ || _); try done.
  destruct (tl_eq _ _); [by apply refuse_requested|done].
Qed.

Lemma thr_lock_write_locked_requested env w L d h c : base w L -> ready w L d ->
  type_ok (check_status (lk w)) Q_write (ty w d) = true ->
  let p := thr_lock_write_locked env w d h in requested w L (finish_request c d p) d p.2.
Proof.
  intros HB Hr Ht. cbv zeta. unfold thr_lock_write_locked.
  destruct (tl_eq (ty w h) TL_WRITE_ONLY && _); [by apply refuse_requested|].
  destruct (_ || _); [|by apply wait_requested].
  pose proof (grant_requested env w L d (tl_eq (ty w d) TL_WRITE_CONCURRENT_INSERT) HB Hr Ht) as H.
  revert H. unfold grant. by destruct (call_get_status _ _ _ _).
Qed.

(** The record may have changed before it was queued. *)
Lemma requested_from w w1 L w' d r : (forall x, x <> d -> kept w L w1 L x) ->
  own w1 d = own w d -> (ty w1 d = TL_WRITE_DELAYED -> ty w d = TL_WRITE_DELAYED) ->
  requested w1 L w' d r -> requested w L w' d r.
Proof.
  intros HK Ho Ht (L' & H1 & H2 & H3 & H4). exists L'. split_and!; [done|congruence| |].
  - intros x Hx. eapply kept_trans; [by apply HK|by apply H3].
  - destruct r as [[]|]; auto.
Qed.

Lemma thr_lock_write_free_requested env w L d c : base w L -> ready w L d ->
  type_ok (check_status (lk w)) Q_write (ty w d) = true ->
  thr_upgraded_concurrent_insert_lock env = TL_WRITE \/
    thr_upgraded_concurrent_insert_lock env = TL_WRITE_LOW_PRIORITY ->
  let p := thr_lock_write_free env w d in requested w L (finish_request c d p) d p.2.
Proof.
  intros HB Hr Ht Hup. cbv zeta. unfold thr_lock_write_free.
  destruct (head w Q_write_wait); [by apply wait_requested|].
  set (p := if tl_eq (ty w d) _ then _ else _).
  assert (Hp : base p.2 L /\ ready p.2 L d /\ own p.2 d = own w d /\
    (forall x, x <> d -> kept w L p.2 L x) /\
    (ty p.2 d = TL_WRITE_DELAYED -> ty w d = TL_WRITE_DELAYED) /\
    type_ok (check_status (lk p.2)) Q_write (ty p.2 d) = true).
  { unfold p. destruct (tl_eq (ty w d) _); [|split_and!; auto using kept_refl].
    cbn [call_check_status]. set (e := EvCheckStatus _).
    assert (HB1 : base (emit w e) L) by
      (eapply base_links; [apply same_links_emit|apply same_payload_emit|done]).
    destruct (env_check_status _ _); simpl.
    - split_and!; [by apply base_upd_out, Hr|by apply ready_set_type; destruct Hr|..].
      + unfold own. by rewrite dat_upd, decide_True.
      + intros x Hx. apply (kept_trans w L (emit w e) L); [by apply kept_same|by apply kept_upd].
      + rewrite ty_set_type, decide_True by done. by destruct Hup as [-> | ->].
      + rewrite ty_set_type, decide_True by done. destruct Hup as [-> | ->]; simpl; by rewrite orb_true_r.
    - split_and!; try done; [by destruct Hr|]. intros x Hx. by apply kept_same. }
  destruct p as [ci w1]. simpl in Hp. destruct Hp as (HB1 & Hr1 & Ho1 & HK1 & Hd1 & Ht1).
  apply (requested_from w w1 L); [done..|].
  destruct (match head w1 Q_read with Some _ => false | None => true end || _); [|by apply wait_requested].
  pose proof (grant_requested env w1 L d ci HB1 Hr1 Ht1) as H.
  revert H. unfold grant. by destruct (call_get_status _ _ _ _).
Qed.

Lemma thr_lock_write_requested env w L d c : base w L -> ready w L d -> write_type (ty w d) = true ->
  thr_upgraded_concurrent_insert_lock env = TL_WRITE \/
    thr_upgraded_concurrent_insert_lock env = TL_WRITE_LOW_PRIORITY ->
  let p := thr_lock_write env w d c in requested w L (finish_request c d p) d p.2.
Proof.
  intros HB Hr Ht Hup. cbv zeta. unfold thr_lock_write.
  destruct (tl_eq (ty w d) TL_WRITE_DELAYED && match head w Q_write with Some _ => _ | _ => _ end);
    [by apply refuse_requested|].
  destruct (tl_eq (ty w d) TL_WRITE_DELAYED && match head w Q_write with Some _ => _ | _ => _ end)
    eqn:E2 in |- *.
  { apply andb_prop in E2 as [Ed _]. apply tl_eq_true in Ed.
    eapply requested_queued; [done|done|by apply (queued_wait D)| |by left].
    rewrite Ed. simpl. by rewrite orb_true_r. }
  set (w1 := if _ && _ then upd w d _ else w).
  assert (Hw1 : base w1 L /\ ready w1 L d /\ own w1 d = own w d /\
    (forall x, x <> d -> kept w L w1 L x) /\
    (ty w1 d = TL_WRITE_DELAYED -> ty w d = TL_WRITE_DELAYED) /\
    type_ok (check_status (lk w1)) Q_write (ty w1 d) = true).
  { unfold w1. destruct (tl_eq (ty w d) TL_WRITE_CONCURRENT_INSERT && _) eqn:Ec.
    - rewrite ty_set_type, decide_True by done.
      split_and!; [by apply base_upd_out, Hr|by apply ready_set_type|..].
      + unfold own. by rewrite dat_upd, decide_True.
      + intros x Hx. by apply kept_upd.
      + by destruct Hup as [-> | ->].
      + destruct Hup as [-> | ->]; simpl; by rewrite orb_true_r.
    - split_and!; auto using kept_refl. simpl. rewrite Ht. simpl.
      destruct (check_status _); [done|]. by rewrite andb_true_r in Ec; rewrite Ec. }
  destruct Hw1 as (HB1 & Hr1 & Ho1 & HK1 & Hd1 & Ht1).
  apply (requested_from w w1 L); [done..|].
  destruct (head w1 Q_write); [by apply thr_lock_write_locked_requested|by apply thr_lock_write_free_requested].
Qed.

(** A request keeps the other records, and grants [d] or lets it wait. *)
Lemma thr_lock_requested env w L d o c : base w L -> out L d -> d ∈ D ->
  read_type (ty w d) = true \/ write_type (ty w d) = true ->
  thr_upgraded_concurrent_insert_lock env = TL_WRITE \/
    thr_upgraded_concurrent_insert_lock env = TL_WRITE_LOW_PRIORITY ->
  exists w1, own w1 d = o /\ ty w1 d = ty w d /\ (forall x, x <> d -> kept w L w1 L x) /\
    requested w1 L (thr_lock env w d o c).1 d (thr_lock env w d o c).2.
Proof.
  intros HB Hout HdD Ht Hup. unfold thr_lock, thr_lock_start. set (w1 := upd w d _). exists w1.
  assert (Hty : ty w1 d = ty w d) by (unfold ty, w1; by rewrite dat_upd, decide_True).
  assert (HB1 : base w1 L) by (by apply base_upd_out).
  assert (Hr : ready w1 L d).
  { constructor; try done.
    - unfold w1. simpl. apply dom_insert. set_solver.
    - unfold w1. by rewrite dat_upd, decide_True.
    - unfold w1, cnd. by rewrite dat_upd, decide_True. }
  split_and!; [unfold own, w1; by rewrite dat_upd, decide_True|done|intros x Hx; by apply kept_upd|].
  assert (H : let p := if tl_lt (ty w1 d) TL_FIRST_WRITE then thr_lock_read env w1 d
                       else thr_lock_write env w1 d c in
              requested w1 L (finish_request c d p) d p.2).
  { rewrite Hty. destruct (tl_lt (ty w d) TL_FIRST_WRITE) eqn:Elt.
    - apply thr_lock_read_requested; [done..|]. rewrite Hty. destruct Ht as [?|Ht]; [done|]. by destruct (ty w d).
    - apply thr_lock_write_requested; [done..| |done]. rewrite Hty.
      destruct Ht as [Ht|?]; [|done]. by destruct (ty w d). }
  unfold finish_request in H. destruct (if tl_lt _ _ then _ else _) as [w2 [r|q]]; done.
Qed.

End ops.

End ThrLockFrame.
