(* ===== verification/ThrLockTheorems.v ===== *)
(** * What the table locks guarantee

    The theorems about mysys/thr_lock.c, for a lock used by any number of
    threads in any order ([reachable]), with the scenarios that show how far
    they go. *)

From S2P Require Import Prelude ThrLock ThrLockQueues ThrLockSafety ThrLockSteps.
Import ThrLock ThrLockQueues ThrLockSafety ThrLockSteps.

Module ThrLockTheorems.

(** ** Example runs *)

(** An engine whose callbacks always agree; [c] refuses concurrent inserts. *)
Definition env0 (c : bool) : environment :=
  mk_env (fun _ _ => false) (fun _ => c) (fun _ => false) 1000 TL_WRITE.

(** [thr_lock_data_init], the choice of a lock type, and [thr_lock]. *)
Definition open_lock (w : lock_state) (d : nat) (t : thr_lock_type) : lock_state :=
  upd (upd w d (fun x => thr_lock_data_init x d)) d (set_type t).

Definition acquire (w : lock_state) (d : nat) (t : thr_lock_type) (o : nat) : lock_state :=
  (thr_lock (env0 false) (open_lock w d t) d (Some o) (100 + d)).1.

Definition fresh (w : lock_state) (d : nat) : bool :=
  bool_decide (Forall (fun q => d ∉ chain w q) [Q_read_wait; Q_read; Q_write_wait; Q_write]).

(** The request of [acquire] is one the server may make. *)
Definition request_ok (care : bool) (w : lock_state) (d : nat) (t : thr_lock_type) (o : nat) : bool :=
  let w := open_lock w d t in
  fresh w d && (read_type t || write_type t) &&
  (negb care || bool_decide (Forall (fun e => own w e = Some o ->
    (tl_le (effective (env0 false) w d) (ty w e) = true \/
     effective (env0 false) w d = TL_WRITE /\ ty w e = TL_WRITE_LOW_PRIORITY) /\
    ty w e <> TL_WRITE_DELAYED) (chain w Q_write))).

Lemma all_queues (P : qid -> Prop) :
  Forall P [Q_read_wait; Q_read; Q_write_wait; Q_write] -> forall q, P q.
Proof. rewrite !Forall_cons. intros (?&?&?&?&_) []; done. Qed.

Lemma acquire_reachable D care w d t o : reachable D care w -> d ∈ D ->
  fresh w d && fresh (upd w d (fun x => thr_lock_data_init x d)) d && request_ok care w d t o = true ->
  reachable D care (acquire w d t o).
Proof.
  intros (gs & us & rs & st & cs & am & H) Hd Hok.
  apply andb_prop in Hok as [[Hf1 Hf2]%andb_prop Hrq].
  unfold fresh in Hf1, Hf2. apply bool_decide_eq_true in Hf1, Hf2.
  unfold request_ok in Hrq. apply andb_prop in Hrq as [[H1 H2]%andb_prop H3].
  apply bool_decide_eq_true in H1.
  exists gs, us, rs, st, cs, am. eapply rtc_r; [eapply rtc_r; [eapply rtc_r; [exact H|]|]|].
  - apply step_data_init; [by apply all_queues|done].
  - apply (step_set_type _ _ _ d t). by apply all_queues.
  - apply step_lock. constructor; try done.
    + by apply all_queues.
    + simpl. rewrite !dom_insert. set_solver.
    + unfold open_lock. rewrite ty_set_type, decide_True by done. by apply orb_prop.
    + by left.
    + intros ->. apply bool_decide_eq_true in H3. by rewrite Forall_forall in H3.
Qed.

(** A lock on which one thread writes and reads, with another one waiting. *)
Definition D3 : gset nat := {[1; 2; 3]}.
Definition run0 (am : bool) : lock_state := initial true true true true true am.
Definition run1 : lock_state := acquire (run0 false) 1 TL_WRITE 10.
Definition run2 : lock_state := acquire run1 2 TL_READ_NO_INSERT 10.
Definition run3 : lock_state := acquire run2 3 TL_READ 11.

Lemma run0_reachable care am : reachable D3 care (run0 am).
Proof. exists true, true, true, true, true, am. apply rtc_refl. Qed.

Lemma run3_reachable care : reachable D3 care run3.
Proof.
  repeat (apply acquire_reachable; [|concrete|by destruct care; vm_compute]). apply run0_reachable.
Qed.

(** Concurrent insert next to a plain reader. *)
Definition runc : lock_state :=
  acquire (acquire (acquire (run0 false) 1 TL_WRITE_CONCURRENT_INSERT 10)
    2 TL_READ 11) 3 TL_READ_NO_INSERT 10.

Lemma runc_reachable care : reachable D3 care runc.
Proof.
  repeat (apply acquire_reachable; [|concrete|by destruct care; vm_compute]). apply run0_reachable.
Qed.

Lemma D3_size : (Z.of_nat (size D3) < 2 ^ 32)%Z.
Proof. concrete. Qed.

(** ** Invariants of every reachable state *)

(** C3: whatever the threads do, careful or not, the pointers of a lock represent
    four disjoint doubly linked queues without repetitions, every lock data
    record is in a queue that fits its type, has a condition variable exactly when it
    waits, and [read_no_write_count] counts the granted [TL_READ_NO_INSERT]. *)
Theorem lock_queues_well_formed D care w :
  (Z.of_nat (size D) < 2 ^ 32)%Z -> reachable D care w -> base D w (chain w).
Proof. intros HD Hw. by destruct (reachable_inv D HD care w Hw) as [HB _]. Qed.

Lemma lock_queues_well_formed_witness : base D3 run3 (chain run3).
Proof. apply (lock_queues_well_formed D3 false run3); [apply D3_size|apply run3_reachable]. Defined.





(** C2: no wake-up is lost, whether the threads are careful or not: when nobody
    holds the lock nobody waits for it, and readers wait only while a writer
    holds the lock or waits for it. *)
Theorem no_idle_waiters D care w :
  (Z.of_nat (size D) < 2 ^ 32)%Z -> reachable D care w -> chain w Q_write = [] ->
  (chain w Q_read = [] -> chain w Q_write_wait = [] /\ chain w Q_read_wait = []) /\
  (chain w Q_write_wait = [] -> chain w Q_read_wait = []).
Proof.
  intros HD Hw HW. destruct (reachable_inv D HD care w Hw) as (_ & _ & H1 & H2). split; [|auto].
  intros HR. split; [auto|]. apply H1; auto.
Qed.

(** What happens without the discipline: [thr_abort_locks] with [upgrade_lock]
    makes the concurrent insert of [runc] exclusive beside a foreign reader; *)
Lemma careless_upgrade_shares :
  let w := thr_abort_locks runc true in
  reachable D3 false w /\ chain w Q_write = [1] /\ strong (ty w 1) = true /\
  2 ∈ chain w Q_read /\ own w 2 <> own w 1.
Proof.
  cbv zeta. split; [|split_and!; concrete].
  destruct (runc_reachable false) as (gs & us & rs & st & cs & am & H).
  exists gs, us, rs, st, cs, am. eapply rtc_r; [exact H|].
  apply step_abort. intros Hcare. discriminate Hcare.
Qed.

(** a thread that asks for [TL_WRITE] beside its own [TL_WRITE_ALLOW_WRITE] gets
    it although another thread writes too; *)
Lemma careless_request_shares :
  let w := acquire (acquire (acquire (run0 false) 1 TL_WRITE_ALLOW_WRITE 10)
             2 TL_WRITE_ALLOW_WRITE 11) 3 TL_WRITE 10 in
  reachable D3 false w /\ chain w Q_write = [1; 2; 3] /\ ty w 3 = TL_WRITE /\ own w 2 <> own w 3.
Proof.
  cbv zeta. split; [|split_and!; concrete].
  repeat (apply acquire_reachable; [|concrete|by vm_compute]). apply run0_reachable.
Qed.

(** and [thr_downgrade_write_lock] turns a shared [TL_WRITE_ALLOW_WRITE] into a
    concurrent insert beside a foreign [TL_READ_NO_INSERT]. *)
Lemma careless_downgrade_shares :
  let w := thr_downgrade_write_lock (acquire (acquire (run0 false) 1 TL_WRITE_ALLOW_WRITE 10)
             2 TL_READ_NO_INSERT 11) 1 TL_WRITE_CONCURRENT_INSERT in
  reachable D3 false w /\ chain w Q_write = [1] /\ ty w 1 = TL_WRITE_CONCURRENT_INSERT /\
  chain w Q_read = [2] /\ ty w 2 = TL_READ_NO_INSERT /\ own w 2 <> own w 1.
Proof.
  cbv zeta. split; [|split_and!; concrete].
  assert (H : reachable D3 false (acquire (acquire (run0 false) 1 TL_WRITE_ALLOW_WRITE 10)
             2 TL_READ_NO_INSERT 11)).
  { repeat (apply acquire_reachable; [|concrete|by vm_compute]). apply run0_reachable. }
  destruct H as (gs & us & rs & st & cs & am & H).
  exists gs, us, rs, st, cs, am. eapply rtc_r; [exact H|]. apply step_downgrade; [concrete|done|concrete].
Qed.

(** The writer of [run3] releases its locks. *)
Definition run5 : lock_state :=
  thr_unlock (env0 false) (thr_unlock (env0 false) run3 1 0) 2 0.

Lemma run5_reachable care : reachable D3 care run5.
Proof.
  destruct (run3_reachable care) as (gs & us & rs & st & cs & am & H).
  exists gs, us, rs, st, cs, am. eapply rtc_r; [eapply rtc_r; [exact H|]|].
  - apply (step_unlock D3 care run3 (env0 false) 1 0). right. left. concrete.
  - apply (step_unlock D3 care _ (env0 false) 2 0). left. concrete.
Qed.

Lemma no_idle_waiters_witness :
  chain run5 Q_read = [3] /\ chain run5 Q_write = [] /\ chain run5 Q_read_wait = [].
Proof.
  split; [reflexivity|]. split; [reflexivity|].
  apply (no_idle_waiters D3 false run5); [apply D3_size|apply run5_reachable|reflexivity|reflexivity].
Defined.

(** ** Releasing the waiting readers *)

(** [free_all_read_locks] moves the waiting readers to the end of the
    running ones in their order, keeps back exactly the [TL_READ_NO_INSERT] ones
    when a concurrent insert runs, and signals exactly the threads it grants. *)
Theorem free_all_read_locks_correct w uci :
  rep w (chain w) -> chain w Q_read_wait <> [] ->
  let w' := free_all_read_locks w uci in
  rep w' (chain w') /\
  chain w' Q_read = chain w Q_read ++ List.filter (freed uci w) (chain w Q_read_wait) /\
  chain w' Q_read_wait = List.filter (fun d => negb (freed uci w d)) (chain w Q_read_wait) /\
  chain w' Q_write = chain w Q_write /\ chain w' Q_write_wait = chain w Q_write_wait /\
  (forall d, ty w' d = ty w d) /\
  (forall d, d ∈ List.filter (freed uci w) (chain w Q_read_wait) -> cnd w' d = None) /\
  events w' = events w ++
    ((fun d => EvSignal (cnd w d)) <$> List.filter (freed uci w) (chain w Q_read_wait)).
Proof.
  intros HL Hne. destruct (free_all_spec uci w _ HL Hne) as [HL' [Ht _ _ _ Hc _ He]].
  assert (E : forall q, chain (free_all_read_locks w uci) q = released_queues uci w (chain w) q)
    by (intros; by eapply rep_chain).
  cbv zeta. rewrite !E. split_and!; try done; [by eapply rep_self|].
  intros d Hd. by rewrite Hc, decide_True.
Qed.

(** A writer holds the lock, three readers wait. *)
Definition runw : lock_state :=
  acquire (acquire (acquire (acquire (run0 false) 1 TL_WRITE 10) 2 TL_READ 11)
    3 TL_READ_NO_INSERT 12) 4 TL_READ_HIGH_PRIORITY 13.

Definition D4 : gset nat := {[1; 2; 3; 4]}.

Lemma D4_size : (Z.of_nat (size D4) < 2 ^ 32)%Z.
Proof. concrete. Qed.

Lemma runw_reachable care : reachable D4 care runw.
Proof.
  repeat (apply acquire_reachable; [|concrete|by destruct care; vm_compute]).
  exists true, true, true, true, true, false. apply rtc_refl.
Qed.

Lemma runw_rep : rep runw (chain runw).
Proof. apply (reachable_inv D4 D4_size true runw (runw_reachable true)). Qed.

Lemma free_all_read_locks_correct_witness :
  chain (free_all_read_locks runw true) Q_read = [2; 4] /\
  chain (free_all_read_locks runw true) Q_read_wait = [3].
Proof.
  destruct (free_all_read_locks_correct runw true runw_rep ltac:(vm_compute; discriminate))
    as (_ & -> & -> & _). split; vm_compute; reflexivity.
Defined.

(** ** Aborting *)

Lemma finish_aborted env w q d timed_out : cnd w d = None -> ty w d = TL_UNLOCK ->
  wait_for_lock_finish env w q d timed_out = (w, THR_LOCK_ABORTED).
Proof.
  intros Hc Ht. unfold wait_for_lock_finish. change (cond (dat w d)) with (cnd w d).
  by rewrite Hc, Ht.
Qed.

(** [thr_abort_locks] leaves no thread waiting: both wait queues are empty,
    every thread that waited is signalled, and each of them returns
    [THR_LOCK_ABORTED] from [wait_for_lock] without touching the lock again;
    the granted locks stay granted. *)
Theorem thr_abort_locks_wakes_all D care w up :
  (Z.of_nat (size D) < 2 ^ 32)%Z -> reachable D care w ->
  let w' := thr_abort_locks w up in
  chain w' Q_read_wait = [] /\ chain w' Q_write_wait = [] /\
  chain w' Q_read = chain w Q_read /\ chain w' Q_write = chain w Q_write /\
  forall d, d ∈ chain w Q_read_wait ++ chain w Q_write_wait ->
    EvSignal (cnd w d) ∈ events w' /\
    forall env q timed_out, wait_for_lock_finish env w' q d timed_out = (w', THR_LOCK_ABORTED).
Proof.
  intros HD Hw. destruct (reachable_inv D HD care w Hw) as (HB & _ & _).
  pose proof (b_rep _ _ _ HB) as HL.
  destruct (thr_abort_locks_spec w _ up HL) as (w1 & HL1 & [Ht _ Hc _ _ He] & ->).
  set (w' := match up with true => _ | _ => _ end).
  assert (HL' : rep w' (no_waiters (chain w))).
  { unfold w'. destruct up, (list.head (chain w Q_write)); try done.
    eapply same_links_rep; [by apply same_links_upd|done]. }
  assert (E : forall q, chain w' q = no_waiters (chain w) q) by (intros; by eapply rep_chain).
  assert (Hh : forall h d, list.head (chain w Q_write) = Some h ->
            d ∈ chain w Q_read_wait ++ chain w Q_write_wait -> d <> h).
  { intros h d Hh Hd ->. assert (h ∈ chain w Q_write)
      by (destruct (chain w Q_write); simplify_eq/=; left).
    apply elem_of_app in Hd as [Hd|Hd]; by discriminate (rg_disj _ _ _ HL _ _ h Hd ltac:(done)). }
  cbv zeta. rewrite !E. split_and!; [done..|]. intros d Hd. split.
  - assert (events w' = events w1) as -> by (unfold w'; by destruct up, (list.head (chain w Q_write))).
    rewrite He. apply elem_of_app. right. by apply (list_elem_of_fmap_2 (fun d => EvSignal (cnd w d))).
  - intros env q timed_out. apply finish_aborted.
    + transitivity (cnd w1 d); [|by rewrite Hc, decide_True].
      unfold w', cnd. destruct up, (list.head (chain w Q_write)) as [h|] eqn:Eh; try done.
      rewrite dat_upd, decide_False; eauto.
    + transitivity (ty w1 d); [|by rewrite Ht, decide_True].
      unfold w'. destruct up, (list.head (chain w Q_write)) as [h|] eqn:Eh; try done.
      rewrite ty_set_type, decide_False; eauto.
Qed.

Lemma thr_abort_locks_wakes_all_witness :
  chain runw Q_read_wait = [2; 3; 4] /\ chain (thr_abort_locks runw true) Q_read_wait = [] /\
  EvSignal (Some 103) ∈ events (thr_abort_locks runw true).
Proof.
  destruct (thr_abort_locks_wakes_all D4 false runw true D4_size (runw_reachable false))
    as (H1 & _ & _ & _ & H2).
  split; [vm_compute; reflexivity|]. split; [exact H1|].
  destruct (H2 3 ltac:(concrete)) as [H3 _]. exact H3.
Defined.

(** ** Limits of the guarantees *)

(** A lock whose queues are empty, while the next reader is to be linked from the
    record [d] that is in none of them. *)
Definition read_end_lost (w : lock_state) (d : nat) : Prop :=
  (forall q, head w q = None) /\ qlast w Q_read = LNext d.

Lemma head_None_chain w q : head w q = None -> chain w q = [].
Proof. unfold chain. by intros ->. Qed.

Lemma heads_emptied w : (forall q, head w q = None) -> forall env, wake_up_waiters env w = w.
Proof. intros H env. unfold wake_up_waiters, free_waiting_reads. by rewrite !H. Qed.

Lemma thr_unlock_skip_locked env w d unlock_flags :
  rep w (chain w) -> chain w Q_read = [d] ->
  (forall q, q <> Q_read -> chain w q = []) -> ty w d = TL_READ_SKIP_LOCKED ->
  read_end_lost (thr_unlock env w d unlock_flags) d /\
  forall e, e <> d -> ty (thr_unlock env w d unlock_flags) e = ty w e.
Proof.
  intros HL ER EN Ht. pose proof (rg_seg _ _ _ HL Q_read) as Hseg.
  pose proof (rg_term _ _ _ HL Q_read I) as Hend. pose proof (rg_last _ _ _ HL Q_read) as Hlast.
  rewrite ER in Hseg, Hend, Hlast. simpl in Hseg, Hend, Hlast. destruct Hseg as (_ & Hprev & _).
  assert (Hheads : forall q, q <> Q_read -> head w q = None).
  { intros q Hq. rewrite (rep_head _ _ _ HL q I), EN by done. done. }
  assert (Hu : unlink w d Q_write = set_last (set_head w Q_read None) Q_write (LHead Q_read)).
  { unfold unlink. unfold prv in Hprev. by rewrite Hend, Hprev. }
  assert (H0 : read_end_lost (set_last (set_head w Q_read None) Q_write (LHead Q_read)) d).
  { split; [|done]. intros []; [exact (Hheads Q_read_wait ltac:(done))|reflexivity|
      exact (Hheads Q_write_wait ltac:(done))|exact (Hheads Q_write ltac:(done))]. }
  unfold thr_unlock. rewrite Ht. cbv zeta.
  change (tl_le TL_READ_SKIP_LOCKED TL_READ_NO_INSERT) with false.
  change (tl_eq TL_READ_SKIP_LOCKED TL_WRITE_DELAYED) with false.
  change (tl_le TL_WRITE_CONCURRENT_INSERT TL_READ_SKIP_LOCKED) with false.
  change (tl_eq TL_READ_SKIP_LOCKED TL_READ_NO_INSERT) with false. cbn [andb].
  rewrite Hu.
  set (w1 := set_last _ _ _) in *.
  assert (Hty : forall e, ty w1 e = ty w e) by done.
  clearbody w1.
  destruct (negb _); [destruct (restore_status (lk w1))|]; simpl;
    rewrite heads_emptied by apply H0; (split; [apply H0|]); intros e He;
    rewrite ty_set_type, decide_False by done; apply Hty.
Qed.

Lemma thr_lock_read_lost env w d e o c :
  read_end_lost w d -> e <> d -> tl_lt (ty w e) TL_FIRST_WRITE = true ->
  (forall p ci, env_get_status env p ci = false) ->
  (thr_lock env w e o c).2 = Return THR_LOCK_SUCCESS /\
  forall q, head (thr_lock env w e o c).1 q = None.
Proof.
  intros [Hh Hl] He Ht Hok. unfold thr_lock, thr_lock_start. cbv zeta.
  set (w1 := upd w e _).
  assert (ty w1 e = ty w e) as -> by (unfold ty, w1; by rewrite dat_upd, decide_True).
  rewrite Ht. unfold thr_lock_read, grant_read, call_get_status.
  change (head w1 Q_write) with (head w Q_write).
  change (head w1 Q_write_wait) with (head w Q_write_wait). rewrite !Hh. cbn [orb].
  assert (Ha : append w1 Q_read e =
    set_last (upd (upd w1 d (set_next (Some e))) e (set_prev (LNext d))) Q_read (LNext e)).
  { unfold append. change (ll_last (lst w1 Q_read)) with (qlast w Q_read). by rewrite Hl. }
  rewrite Ha. set (w2 := set_last _ _ _).
  assert (H2 : forall q, head w2 q = None) 
    by (intros []; [exact (Hh Q_read_wait)|exact (Hh Q_read)|exact (Hh Q_write_wait)|exact (Hh Q_write)]).
  clearbody w2. destruct (tl_eq (ty w2 e) TL_READ_NO_INSERT); simpl;
    destruct (get_status (lk w2)); simpl; rewrite ?Hok; (split; [done|]); intros q;
    specialize (H2 q); by destruct q.
Qed.

(** C39: unlocking the only lock of a table corrupts the read queue when it is of
    type [TL_READ_SKIP_LOCKED]: [thr_unlock] takes the record for a write lock
    and repairs the wrong queue end, so that the end of the read queue stays in
    the released record; whichever reader comes next is linked from there, and is
    told it has the lock without being in any queue. *)
Theorem unlock_skip_locked_corrupts w d env unlock_flags env' e o c :
  rep w (chain w) -> chain w Q_read = [d] ->
  (forall q, q <> Q_read -> chain w q = []) -> ty w d = TL_READ_SKIP_LOCKED ->
  e <> d -> tl_lt (ty w e) TL_FIRST_WRITE = true ->
  (forall p ci, env_get_status env' p ci = false) ->
  let w' := thr_unlock env w d unlock_flags in
  let p := thr_lock env' w' e o c in
  qlast w' Q_read = LNext d /\ p.2 = Return THR_LOCK_SUCCESS /\ forall q, chain p.1 q = [].
Proof.
  intros HL ER EN Ht He Hte Hok. cbv zeta.
  destruct (thr_unlock_skip_locked env w d unlock_flags HL ER EN Ht) as [Hlost Hty].
  split; [apply Hlost|].
  destruct (thr_lock_read_lost env' _ d e o c Hlost He ltac:(by rewrite Hty) Hok) as [H1 H2].
  split; [done|]. intros q. by apply head_None_chain.
Qed.

(** A thread reads with [TL_READ_SKIP_LOCKED]; the record 2 is opened for
    another one. *)
Definition runs : lock_state := open_lock (acquire (run0 false) 1 TL_READ_SKIP_LOCKED 10) 2 TL_READ.

Lemma runs_rep : rep runs (chain runs).
Proof.
  assert (Hc : forall q, chain runs q = if decide (q = Q_read) then [1] else [])
    by (intros []; reflexivity).
  constructor; intros q; rewrite ?Hc.
  - destruct q; vm_compute; auto.
  - destruct q; reflexivity.
  - intros _. destruct q; reflexivity.
  - destruct q; simpl; repeat constructor; set_solver.
  - intros q' x. rewrite Hc. destruct q, q'; simpl; set_solver.
  - intros x. destruct q; simpl; set_solver.
Qed.

Lemma unlock_skip_locked_corrupts_witness :
  let p := thr_lock (env0 false) (thr_unlock (env0 false) runs 1 0) 2 (Some 11) 0 in
  chain runs Q_read = [1] /\ p.2 = Return THR_LOCK_SUCCESS /\ chain p.1 Q_read = [].
Proof.
  cbv zeta. split; [reflexivity|].
  destruct (unlock_skip_locked_corrupts runs 1 (env0 false) 0 (env0 false) 2 (Some 11) 0 runs_rep)
    as (_ & H1 & H2);
    [reflexivity|intros []; intros; try reflexivity; congruence|reflexivity|lia|reflexivity|reflexivity|].
  split; [exact H1|apply H2].
Defined.

(** with several concurrent inserts [TL_READ_NO_INSERT] is only compared
    with the first of them: the owner of the first gets the lock although
    another thread is inserting, and the owner of the second has to wait, and
    still waits, for its own lock, when the first inserter is done. *)
Theorem multiple_inserts_no_insert :
  let w := acquire (acquire (run0 true) 1 TL_WRITE_CONCURRENT_INSERT 10)
             2 TL_WRITE_CONCURRENT_INSERT 11 in
  let wa := acquire w 3 TL_READ_NO_INSERT 10 in
  let wb := acquire w 3 TL_READ_NO_INSERT 11 in
  chain w Q_write = [1; 2] /\ chain wa Q_read = [3] /\ own wa 3 <> own wa 2 /\
  chain wb Q_read_wait = [3] /\
  chain (thr_unlock (env0 false) wb 1 0) Q_read_wait = [3].
Proof. cbv zeta. split_and!; vm_compute; (reflexivity || discriminate). Qed.

(** [thr_upgrade_write_delay_lock] reports success (0) when its wait was
    aborted or timed out: the caller continues without the lock. *)
Theorem upgrade_aborted_reports_success env w d timed_out :
  (wait_for_lock_finish env w Q_write_wait d timed_out).2 <> THR_LOCK_SUCCESS ->
  (thr_upgrade_write_delay_lock_finish env w d timed_out).2 = false.
Proof.
  unfold thr_upgrade_write_delay_lock_finish.
  by destruct (wait_for_lock_finish _ _ _ _ _) as [w1 []].
Qed.

(** A delayed insert waits for a reader and is aborted. *)
Definition rund : lock_state :=
  thr_abort_locks
    (thr_upgrade_write_delay_lock (env0 false)
       (acquire (acquire (run0 false) 1 TL_READ 10) 2 TL_WRITE_DELAYED 11)
       2 TL_WRITE 102).1 false.

Lemma upgrade_aborted_reports_success_witness :
  (thr_upgrade_write_delay_lock_finish (env0 false) rund 2 false).2 = false /\
  chain rund Q_write = [].
Proof.
  split; [|vm_compute; reflexivity].
  apply (upgrade_aborted_reports_success (env0 false) rund 2 false). vm_compute. discriminate.
Defined.

End ThrLockTheorems.
