(* ===== verification/ThrLockMulti.v ===== *)
(** * Locking several tables (mysys/thr_lock.c)

    [sort_locks], [thr_multi_lock], [thr_merge_locks] and [thr_multi_unlock]: a
    statement's locks are requested in one global order, each with the [thr_lock]
    of ThrLock.v on the lock of its table.  Other threads may act on all tables
    before every call and while a request waits. *)

From S2P Require Import Prelude ThrLock ThrLockQueues ThrLockSafety ThrLockSteps ThrLockFrame.
Import ThrLock ThrLockQueues ThrLockSafety ThrLockSteps ThrLockFrame.

Module ThrLockMulti.

(** What [sort_locks] and the callbacks look at in a [THR_LOCK_DATA]; [md_lock]
    is the address of the lock. *)
Record multi_data := mk_multi {
  md_id : nat;
  md_lock : Z;
  md_type : thr_lock_type;
  md_priority : Z;
  md_status_param : nat
}.

#[global] Instance multi_data_eq_dec : EqDecision multi_data.
Proof. solve_decision. Defined.

Definition LOCK_CMP (a b : multi_data) : bool :=
  if negb (md_lock a =? md_lock b)%Z then (md_lock a <? md_lock b)%Z
  else if negb (tl_val (md_type a) =? tl_val (md_type b))%Z
  then (tl_val (md_type b) <? tl_val (md_type a))%Z
  else (md_priority a <? md_priority b)%Z.

(** The [do ... while] loop of [sort_locks] with [prev = data + i]; then
    [prev[0]= tmp]. *)
Fixpoint sort_shift (data : list multi_data) (i : nat) (tmp : multi_data)
    : option (list multi_data) :=
  match i with
  | 0 => None
  | S j =>
      x ← data !! j;
      let data := <[i := x]> data in
      match j with
      | 0 => Some (<[j := tmp]> data)
      | S k =>
          y ← data !! k;
          if LOCK_CMP tmp y then sort_shift data j tmp else Some (<[j := tmp]> data)
      end
  end.

(** The [for] loop, [n] rounds from [pos] on. *)
Fixpoint sort_rounds (n : nat) (data : list multi_data) (pos : nat) : option (list multi_data) :=
  match n with
  | 0 => Some data
  | S n =>
      tmp ← data !! pos;
      prev ← data !! (pos - 1);
      data ← (if LOCK_CMP tmp prev then sort_shift data pos tmp else Some data);
      sort_rounds n data (pos + 1)
  end.

Definition sort_locks (data : list multi_data) : option (list multi_data) :=
  sort_rounds (length data - 1) data 1.

(** The callbacks called for several tables. *)
Inductive multi_event :=
| MStartTrans (param : nat)
| MCopyStatus (to from : nat)
| MFixStatus (first : nat) (next : option nat).

Definition set_md_priority (p : Z) (d : multi_data) : multi_data :=
  mk_multi (md_id d) (md_lock d) (md_type d) p (md_status_param d).

(** The locks of all tables, by address, and a pointer to a lock data record. *)
Definition tables : Type := Z -> lock_state.
Definition data_ptr : Type := Z * nat.

Definition set_table (T : tables) (l : Z) (w : lock_state) : tables :=
  fun l' => if decide (l' = l) then w else T l'.

(** The fields of a record. *)
Definition look (T : tables) (p : data_ptr) : multi_data :=
  mk_multi p.2 p.1 (ty (T p.1) p.2) (priority (dat (T p.1) p.2)) (status_param (dat (T p.1) p.2)).

Definition ptr_of (d : multi_data) : data_ptr := (md_lock d, md_id d).

(** What happens around the [k]-th call: the answers of the engines, what the
    other threads do before it and while it waits, whether the wait times out,
    and what they do before the [k]-th [thr_unlock]. *)
Record schedule := mk_schedule {
  sc_env : nat -> Z -> environment;
  sc_before : nat -> tables -> tables;
  sc_during : nat -> tables -> tables;
  sc_timed_out : nat -> bool;
  sc_unlock : nat -> tables -> tables
}.

(** [thr_lock], with the wait. *)
Definition thr_lock_wait (sc : schedule) (o : option nat) (c k : nat) (T : tables) (p : data_ptr)
    : tables * enum_thr_lock_result :=
  let '(l, d) := p in
  let '(w, out) := thr_lock (sc_env sc k l) (T l) d o c in
  let T := set_table T l w in
  match out with
  | Return r => (T, r)
  | WaitOn q =>
      let T := sc_during sc k T in
      let '(w, r) := wait_for_lock_finish (sc_env sc k l) (T l) q d (sc_timed_out sc k) in
      (set_table T l w, r)
  end.

(** [thr_multi_unlock] on the records of [data]. *)
Fixpoint thr_multi_unlock (sc : schedule) (k : nat) (T : tables) (data : list data_ptr)
    (unlock_flags : Z) : tables :=
  match data with
  | [] => T
  | (l, d) :: data =>
      let T := sc_unlock sc k T in
      let T := if tl_eq (ty (T l) d) TL_UNLOCK then T
               else set_table T l (thr_unlock (sc_env sc k l) (T l) d unlock_flags) in
      thr_multi_unlock sc (k + 1) T data unlock_flags
  end.

(** [for ( ; pos < end ; pos++) ( *pos)->type= TL_UNLOCK]. *)
Fixpoint mark_unlocked (T : tables) (data : list data_ptr) : tables :=
  match data with
  | [] => T
  | (l, d) :: data => mark_unlocked (set_table T l (upd (T l) d (set_type TL_UNLOCK))) data
  end.

(** The loop over the sorted records; [got] are those locked so far. *)
Fixpoint lock_all (sc : schedule) (o : option nat) (c : nat) (T : tables) (got rest : list data_ptr)
    : tables * enum_thr_lock_result :=
  match rest with
  | [] => (T, THR_LOCK_SUCCESS)
  | p :: rest =>
      let k := length got in
      match thr_lock_wait sc o c k (sc_before sc k T) p with
      | (T, THR_LOCK_SUCCESS) => lock_all sc o c T (got ++ [p]) rest
      | (T, result) => (mark_unlocked (thr_multi_unlock sc 0 T got 0) (p :: rest), result)
      end
  end.

(** The callbacks a table sets. *)
Record callbacks := mk_callbacks {
  has_start_trans : Z -> bool;
  has_copy_status : Z -> bool;
  has_fix_status : Z -> bool
}.

(** The calls of [start_trans] and [copy_status]; [prev] and [first] are the
    record before and the first one of the same table. *)
Fixpoint start_rest (cb : callbacks) (prev first : multi_data) (data : list multi_data)
    : list multi_event :=
  match data with
  | [] => []
  | d :: data =>
      (if has_start_trans cb (md_lock d) then [MStartTrans (md_status_param d)] else []) ++
      if (md_lock d =? md_lock prev)%Z && has_copy_status cb (md_lock d)
      then MCopyStatus (md_status_param d) (md_status_param first) :: start_rest cb d first data
      else start_rest cb d d data
  end.

Definition start_all (cb : callbacks) (data : list multi_data) : list multi_event :=
  match data with
  | [] => []
  | d :: data =>
      (if has_start_trans cb (md_lock d) then [MStartTrans (md_status_param d)] else []) ++
      start_rest cb d d data
  end.

Definition thr_multi_lock (cb : callbacks) (sc : schedule) (o : option nat) (c : nat)
    (T : tables) (data : list data_ptr)
    : option (tables * list data_ptr * list multi_event * enum_thr_lock_result) :=
  sorted ← (if decide (1 < length data) then sort_locks (look T <$> data) else Some (look T <$> data));
  let data := ptr_of <$> sorted in
  match data with
  | [] => Some (T, [], [], THR_LOCK_SUCCESS)
  | _ =>
      match lock_all sc o c T [] data with
      | (T, THR_LOCK_SUCCESS) => Some (T, data, start_all cb (look T <$> data), THR_LOCK_SUCCESS)
      | (T, result) => Some (T, data, [], result)
      end
  end.

(** [thr_merge_locks]: the calls of [fix_status], [first] being [first_lock]. *)
Fixpoint fix_all (cb : callbacks) (first : option multi_data) (data : list multi_data)
    : list multi_event :=
  match data with
  | [] => []
  | d :: data =>
      if tl_eq (md_type d) TL_UNLOCK || negb (has_fix_status cb (md_lock d))
      then fix_all cb first data
      else match first with
      | Some f =>
          if (md_lock d =? md_lock f)%Z
          then MFixStatus (md_status_param f) (Some (md_status_param d)) :: fix_all cb first data
          else MFixStatus (md_status_param d) None :: fix_all cb (Some d) data
      | None => MFixStatus (md_status_param d) None :: fix_all cb (Some d) data
      end
  end.

Definition thr_merge_locks (cb : callbacks) (data : list multi_data) (old_count : nat)
    : option (list multi_data * list multi_event) :=
  let old := (fun d => set_md_priority (Z.ldiff (md_priority d) THR_LOCK_LATE_PRIV) d)
               <$> take old_count data in
  let new := (fun d => set_md_priority (Z.lor (md_priority d) THR_LOCK_LATE_PRIV) d)
               <$> drop old_count data in
  data ← sort_locks (old ++ new);
  Some (data, fix_all cb None data).

(** ** The order *)

(** [a] may come before [b]. *)
Definition lock_le (a b : multi_data) : Prop := LOCK_CMP b a = false.

Lemma LOCK_CMP_spec a b : LOCK_CMP a b = true <->
  (md_lock a < md_lock b)%Z \/ md_lock a = md_lock b /\
    ((tl_val (md_type b) < tl_val (md_type a))%Z \/
     tl_val (md_type a) = tl_val (md_type b) /\ (md_priority a < md_priority b)%Z).
Proof.
  unfold LOCK_CMP. destruct (Z.eqb_spec (md_lock a) (md_lock b)),
    (Z.eqb_spec (tl_val (md_type a)) (tl_val (md_type b))); simpl; rewrite Z.ltb_lt; lia.
Qed.

Lemma lock_le_trans a b c : lock_le a b -> lock_le b c -> lock_le a c.
Proof. unfold lock_le. rewrite <-!not_true_iff_false, !LOCK_CMP_spec. lia. Qed.

Lemma lock_le_total a b : LOCK_CMP a b = true -> lock_le a b.
Proof. unfold lock_le. rewrite <-not_true_iff_false, !LOCK_CMP_spec. lia. Qed.

#[export] Hint Resolve lock_le_total : core.

Lemma insert_mid {A} (a : list A) (x y : A) b i : i = length a -> <[i := y]> (a ++ x :: b) = a ++ y :: b.
Proof. intros ->. rewrite insert_app_r_alt, Nat.sub_diag by lia. done. Qed.

(** The same with the list written as it appears. *)
Lemma insert_mid' {A} (a : list A) (x y : A) b l i :
  l = a ++ x :: b -> i = length a -> <[i := y]> l = a ++ y :: b.
Proof. intros ->. apply insert_mid. Qed.

Lemma lookup_mid {A} (a : list A) (x : A) b l i : l = a ++ x :: b -> i = length a -> l !! i = Some x.
Proof. intros -> ->. by rewrite lookup_app_r, Nat.sub_diag. Qed.

Lemma sort_shift_SS data k tmp : sort_shift data (S (S k)) tmp =
  x ← data !! S k;
  y ← <[S (S k) := x]> data !! k;
  if LOCK_CMP tmp y then sort_shift (<[S (S k) := x]> data) (S k) tmp
  else Some (<[S k := tmp]> (<[S (S k) := x]> data)).
Proof. done. Qed.

(** [sort_shift] inserts [tmp] where it belongs. *)
Lemma sort_shift_spec tmp a : forall z x b,
  StronglySorted lock_le (a ++ [x]) -> LOCK_CMP tmp x = true ->
  exists a1 a2, a ++ [x] = a1 ++ a2 /\
    sort_shift (a ++ x :: z :: b) (length a + 1) tmp = Some (a1 ++ tmp :: a2 ++ b) /\
    (forall y, y ∈ a1 -> lock_le y tmp) /\ (forall y, y ∈ a2 -> lock_le tmp y).
Proof.
  induction a as [|y a IH] using rev_ind; intros z x b Hs Hx.
  - exists [], [x]. split_and!; try done; [by intros ? ?%elem_of_nil|].
    intros y ->%list_elem_of_singleton. auto.
  - replace (length (a ++ [y]) + 1) with (S (S (length a))) by (rewrite length_app; simpl; lia).
    rewrite <-app_assoc, sort_shift_SS. cbn [app].
    rewrite (lookup_mid (a ++ [y]) x (z :: b)) by (rewrite <-?app_assoc; done || rewrite length_app; simpl; lia).
    cbn [mbind option_bind].
    rewrite (insert_mid' (a ++ [y; x]) z x b) by (rewrite <-?app_assoc; done || rewrite length_app; simpl; lia).
    rewrite <-app_assoc. cbn [app].
    rewrite (lookup_mid a y (x :: x :: b)) by done. cbn [mbind option_bind].
    destruct (LOCK_CMP tmp y) eqn:Ey.
    + destruct (IH x y (x :: b)) as (a1 & a2 & E & Hsh & H1 & H2); [|done|].
      { eapply StronglySorted_app_1_l. exact Hs. }
      replace (S (length a)) with (length a + 1) by lia. rewrite Hsh.
      exists a1, (a2 ++ [x]). split_and!; [by rewrite (app_assoc a1), <-E, <-app_assoc|by rewrite <-app_assoc|done|].
      intros w [?| ->%list_elem_of_singleton]%elem_of_app; auto.
    + exists (a ++ [y]), [x]. split_and!; [by rewrite <-app_assoc| | |].
      * f_equal. apply (insert_mid' (a ++ [y]) x tmp (x :: b));
          [by rewrite <-app_assoc|rewrite length_app; simpl; lia].
      * intros w Hw. apply StronglySorted_app_1_l in Hs.
        apply elem_of_app in Hw as [Hw| ->%list_elem_of_singleton]; [|done].
        eapply lock_le_trans; [|exact Ey].
        eapply (StronglySorted_app_1_elem_of _ a [y]); [done..|left].
      * intros w ->%list_elem_of_singleton. auto.
Qed.

Lemma sort_rounds_spec n : forall pos data, 1 <= pos -> pos + n = length data ->
  StronglySorted lock_le (take pos data) ->
  exists data', sort_rounds n data pos = Some data' /\ data' ≡ₚ data /\ StronglySorted lock_le data'.
Proof.
  induction n as [|n IH]; intros pos data Hp Hlen Hs.
  - exists data. split_and!; [done..|]. by rewrite take_ge in Hs by lia.
  - assert (Ed : exists a x y b, data = a ++ x :: y :: b /\ length a = pos - 1).
    { exists (take (pos - 1) data). pose proof (take_drop (pos - 1) data) as E.
      destruct (drop (pos - 1) data) as [|x [|y b]] eqn:Edr.
      - apply (f_equal length) in Edr. rewrite length_drop in Edr. simpl in Edr. lia.
      - apply (f_equal length) in Edr. rewrite length_drop in Edr. simpl in Edr. lia.
      - exists x, y, b. rewrite length_take. split; [done|lia]. }
    destruct Ed as (a & x & y & b & -> & Hla).
    assert (Htk : forall l, take pos (a ++ x :: l) = a ++ [x]).
    { intros l. rewrite take_app_ge by lia. replace (pos - length a) with 1 by lia. done. }
    rewrite Htk in Hs. cbn [sort_rounds].
    rewrite (lookup_app_r a _ pos) by lia. replace (pos - length a) with 1 by lia.
    rewrite (lookup_app_r a _ (pos - 1)) by lia. replace (pos - 1 - length a) with 0 by lia.
    cbn [lookup list_lookup mbind option_bind].
    assert (Hnext : forall l, StronglySorted lock_le l -> l ≡ₚ a ++ [x; y] ->
      exists data', sort_rounds n (l ++ b) (pos + 1) = Some data' /\
        data' ≡ₚ a ++ x :: y :: b /\ StronglySorted lock_le data').
    { intros l Hl Hperm. pose proof (Permutation_length Hperm) as Hll.
      rewrite length_app in Hll. simpl in Hll. rewrite length_app in Hlen. simpl in Hlen.
      destruct (IH (pos + 1) (l ++ b)) as (d' & -> & Hd' & Hs'); [lia|rewrite length_app; lia| |].
      { rewrite take_app_le, take_ge by lia. done. }
      exists d'. split_and!; [done| |done]. rewrite Hd', Hperm, <-app_assoc. done. }
    destruct (LOCK_CMP y x) eqn:Ec.
    + destruct (sort_shift_spec y a y x b Hs Ec) as (a1 & a2 & E & Hsh & H1 & H2).
      assert (pos = length a + 1) as -> by lia. rewrite Hsh. cbn [mbind option_bind].
      rewrite (app_comm_cons a2 b y), (app_assoc a1). apply Hnext.
      * rewrite E in Hs. apply StronglySorted_app in Hs as (H3 & H4 & H5).
        apply StronglySorted_app. split_and!; [|done|].
        -- intros u v Hu [->|Hv]%elem_of_cons; auto.
        -- constructor; [done|]. by apply Forall_forall.
      * rewrite <-Permutation_middle, <-E, <-!Permutation_middle. rewrite app_nil_r. apply Permutation_swap.
    + cbn [mbind option_bind]. specialize (Hnext (a ++ [x; y])).
      rewrite <-app_assoc in Hnext. apply Hnext; [|done].
      rewrite (app_assoc a [x] [y] : a ++ [x; y] = _). apply StronglySorted_app_2; [|done|repeat constructor].
      intros u v Hu ->%list_elem_of_singleton.
      apply elem_of_app in Hu as [Hu| ->%list_elem_of_singleton]; [|done].
      eapply lock_le_trans; [|exact Ec]. eapply (StronglySorted_app_1_elem_of _ a [x]); [done..|left].
Qed.

(** [sort_locks] never reads or writes outside the array, and sorts. *)
Lemma sort_locks_spec data : exists data', sort_locks data = Some data' /\ data' ≡ₚ data /\
  StronglySorted lock_le data'.
Proof.
  unfold sort_locks. destruct data as [|d data].
  - exists []. split_and!; [done..|constructor].
  - apply sort_rounds_spec; simpl; [lia..|repeat constructor].
Qed.

End ThrLockMulti.
