(* ===== verification/ThrLockMultiProofs.v ===== *)
(** * What locking several tables guarantees

    [thr_multi_lock] gets all locks of a statement or none, whatever the other
    threads do meanwhile, and statements that lock their tables with it never
    all wait for each other. *)

From S2P Require Import Prelude ThrLock ThrLockQueues ThrLockSafety ThrLockSteps ThrLockFrame ThrLockTheorems ThrLockMulti.
Import ThrLock ThrLockQueues ThrLockSafety ThrLockSteps ThrLockFrame ThrLockTheorems ThrLockMulti.

Module ThrLockMultiProofs.

Section multi.
Context (D : Z -> gset nat) (HD : forall l, (Z.of_nat (size (D l)) < 2 ^ 32)%Z).
Implicit Types (T : tables) (p : data_ptr).

(** All locks are well formed. *)
Definition good T : Prop := forall l, base (D l) (T l) (chain (T l)).

Definition keeps T T' p : Prop :=
  kept (T p.1) (chain (T p.1)) (T' p.1) (chain (T' p.1)) p.2.

(** What a statement relies on: the other threads leave the locks well formed
    and its own records [mine] alone, except that they may grant or abort those
    that wait. *)
Definition rely (mine : list data_ptr) (others : tables -> tables) : Prop :=
  forall T, good T -> good (others T) /\ forall p, p ∈ mine -> keeps T (others T) p.

Record fair (mine : list data_ptr) (sc : schedule) : Prop := {
  fr_env : forall k l, thr_upgraded_concurrent_insert_lock (sc_env sc k l) = TL_WRITE \/
             thr_upgraded_concurrent_insert_lock (sc_env sc k l) = TL_WRITE_LOW_PRIORITY;
  fr_before : forall k, rely mine (sc_before sc k);
  fr_during : forall k, rely mine (sc_during sc k);
  fr_unlock : forall k, rely mine (sc_unlock sc k)
}.

(** ** The states of a record *)

Definition held (o : option nat) T p : Prop :=
  own (T p.1) p.2 = o /\ (p.2 ∈ chain (T p.1) Q_read \/ p.2 ∈ chain (T p.1) Q_write).

(** Ready to be requested. *)
Definition idle T p : Prop :=
  p.2 ∈ D p.1 /\ out (chain (T p.1)) p.2 /\ ty (T p.1) p.2 <> TL_WRITE_DELAYED /\
  (read_type (ty (T p.1) p.2) = true \/ write_type (ty (T p.1) p.2) = true).

Definition free T p : Prop := out (chain (T p.1)) p.2 /\ ty (T p.1) p.2 = TL_UNLOCK.

Lemma keeps_refl T p : keeps T T p.
Proof. apply kept_refl. Qed.

Lemma keeps_trans T1 T2 T3 p : keeps T1 T2 p -> keeps T2 T3 p -> keeps T1 T3 p.
Proof. apply kept_trans. Qed.

Lemma keeps_held o T T' p : keeps T T' p -> held o T p -> held o T' p.
Proof.
  intros [Ho _ Hr _] [Hp Hq]. split; [congruence|].
  destruct Hq as [Hq|Hq]; [left|right]; by apply Hr.
Qed.

Lemma keeps_idle T T' p : keeps T T' p -> idle T p -> idle T' p.
Proof.
  intros [_ Hu _ _] (H1 & H2 & H3 & H4). destruct (Hu H2) as (H5 & H6 & _).
  unfold idle. rewrite H6. done.
Qed.

Lemma keeps_free T T' p : keeps T T' p -> free T p -> free T' p.
Proof. intros [_ Hu _ _] [H1 H2]. destruct (Hu H1) as (H3 & H4 & _). split; [done|congruence]. Qed.

(** ** Changing one table *)

Lemma base_chain l w L : base (D l) w L -> base (D l) w (chain w) /\ forall q, chain w q = L q.
Proof.
  intros HB. assert (E : forall q, chain w q = L q) by (intros q; eapply rep_chain; [apply HB|done]).
  split; [|done]. by eapply base_proper.
Qed.

Lemma set_table_eq T l w : set_table T l w l = w.
Proof. unfold set_table. by rewrite decide_True. Qed.

Lemma set_table_good T l w L : good T -> base (D l) w L -> good (set_table T l w).
Proof.
  intros HT HB l'. unfold set_table. case_decide as E; subst; [by eapply base_chain|apply HT].
Qed.

Lemma set_table_keeps T l w L p : base (D l) w L ->
  (p.1 = l -> kept (T l) (chain (T l)) w L p.2) -> keeps T (set_table T l w) p.
Proof.
  intros HB HK. unfold keeps, set_table. case_decide as E; [|apply kept_refl].
  rewrite E. eapply kept_ext; [done|by apply (base_chain l)|by apply HK].
Qed.

(** The other records of [mine]. *)
Lemma set_table_keeps_ne T l d w L p : base (D l) w L ->
  (forall x, x <> d -> kept (T l) (chain (T l)) w L x) -> p <> (l, d) ->
  keeps T (set_table T l w) p.
Proof.
  intros HB HK Hp. eapply set_table_keeps; [done|]. intros E. apply HK. intros Hd.
  destruct p; simpl in *; congruence.
Qed.

Section run.
Context (mine : list data_ptr) (sc : schedule) (Hsc : fair mine sc) (o : option nat) (c : nat).

(** ** One request *)

Lemma thr_lock_wait_spec k T l d : good T -> idle T (l, d) -> (l, d) ∈ mine ->
  let '(T', r) := thr_lock_wait sc o c k T (l, d) in
  good T' /\ (forall p, p ∈ mine -> p <> (l, d) -> keeps T T' p) /\
  (r = THR_LOCK_SUCCESS -> held o T' (l, d)).
Proof.
  intros HT (HdD & Hout & Hnd & Hty) Hm. simpl in *. unfold thr_lock_wait.
  destruct (thr_lock_requested (D l) (HD l) (sc_env sc k l) (T l) _ d o c (HT l) Hout HdD Hty)
    as (w1 & Ho1 & Ht1 & HK1 & L' & HB' & Ho' & HK' & Hr); [apply Hsc|].
  destruct (thr_lock _ _ _ _ _) as [w' out]. simpl in *.
  assert (HK : forall x, x <> d -> kept (T l) (chain (T l)) w' L' x)
    by (intros x Hx; eapply kept_trans; [by apply HK1|by apply HK']).
  pose proof (set_table_good T l w' L' HT HB') as HT'.
  pose proof (fun p => set_table_keeps_ne T l d w' L' p HB' HK) as HKT.
  destruct (base_chain l w' L' HB') as [_ E].
  destruct out as [r|q].
  - split_and!; [done|auto|]. intros ->. split; simpl; rewrite set_table_eq; [congruence|].
    rewrite !E. apply Hr. congruence.
  - destruct Hr as [Hq Hd]. set (T1 := set_table T l w') in *.
    assert (ET : T1 l = w') by apply set_table_eq.
    destruct (fr_during _ _ Hsc k T1 HT') as [HT2 HK2]. set (T2 := sc_during sc k T1) in *.
    pose proof (HK2 _ Hm) as [Ho2 _ _ Hw2]. simpl in Ho2, Hw2. rewrite ET in Ho2, Hw2.
    pose proof (wait_for_lock_finish_kept (D l) (HD l) (sc_env sc k l) (T2 l) _ q d
      (sc_timed_out sc k) (HT2 l) Hq) as Hf.
    destruct (wait_for_lock_finish _ _ _ _ _) as [w3 r].
    destruct Hf as (L3 & HB3 & Ho3 & HK3 & Hd3); [apply Hw2; [done|by rewrite E]|].
    split_and!.
    + by eapply set_table_good.
    + intros p Hp Hpd. apply (keeps_trans T T1); [by apply HKT|].
      apply (keeps_trans T1 T2); [by apply HK2|]. by eapply set_table_keeps_ne.
    + intros ->. destruct Hd3 as [Hd3|[? _]]; [|done]. destruct (base_chain l w3 L3 HB3) as [_ E3].
      split; simpl; rewrite set_table_eq; [congruence|]. rewrite !E3. destruct q; simpl in *; auto; done.
Qed.

(** ** thr_multi_unlock *)

Lemma thr_multi_unlock_spec data : forall k T, good T -> NoDup data -> data ⊆ mine ->
  (forall p, p ∈ data -> held o T p) ->
  let T' := thr_multi_unlock sc k T data 0 in
  good T' /\ (forall p, p ∈ data -> free T' p) /\
  (forall p, p ∈ mine -> p ∉ data -> keeps T T' p).
Proof.
  induction data as [|[l d] data IH]; intros k T HT Hnd Hm Hh; cbn [thr_multi_unlock].
  { split_and!; [done|by intros ? ?%elem_of_nil|intros; apply keeps_refl]. }
  apply NoDup_cons in Hnd as [Hd Hnd].
  destruct (fr_unlock _ _ Hsc k T HT) as [HT1 HK1]. set (T1 := sc_unlock sc k T) in *.
  assert (Hh1 : forall p, p ∈ (l, d) :: data -> held o T1 p).
  { intros p Hp. eapply keeps_held; [apply HK1; set_solver|auto]. }
  destruct (Hh1 (l, d) ltac:(left)) as [Ho Hq]. simpl in Ho, Hq.
  assert (Ht : tl_eq (ty (T1 l) d) TL_UNLOCK = false).
  { apply tl_eq_false. intros Ht. destruct Hq as [Hq|Hq]; apply (b_ty _ _ _ (HT1 l)) in Hq;
      by rewrite Ht in Hq. }
  rewrite Ht.
  destruct (thr_unlock_kept (D l) (HD l) (sc_env sc k l) (T1 l) _ d 0 (HT1 l))
    as (L2 & HB2 & Hout2 & Ht2 & _ & HK2); [destruct Hq; [by left|by right; left]|].
  set (T2 := set_table T1 l _).
  assert (HT2 : good T2) by (by eapply set_table_good).
  assert (HKT : forall p, p <> (l, d) -> keeps T1 T2 p) by (intros; by eapply set_table_keeps_ne).
  assert (Hf : free T2 (l, d)).
  { destruct (base_chain l _ L2 HB2) as [_ E]. unfold T2. split; simpl; rewrite set_table_eq; [|done].
    intros q. by rewrite E. }
  destruct (IH (k + 1) T2 HT2 Hnd) as (HT3 & Hf3 & HK3); [set_solver| |].
  { intros p Hp. apply (keeps_held o T1); [|apply Hh1; by right]. apply HKT. by intros ->. }
  split_and!; [done|..].
  - intros p [->|Hp]%elem_of_cons; [|auto]. eapply keeps_free; [apply HK3|done]; [apply Hm; left|done].
  - intros p Hp [Hne Hp']%not_elem_of_cons. eapply keeps_trans; [by apply HK1|].
    eapply keeps_trans; [by apply HKT|]. by apply HK3.
Qed.

(** ** Marking the other records *)

Lemma mark_unlocked_spec data : forall T, (forall l, rep (T l) (chain (T l))) ->
  (forall l q, chain (mark_unlocked T data l) q = chain (T l) q) /\
  (forall p, p ∈ data -> ty (mark_unlocked T data p.1) p.2 = TL_UNLOCK) /\
  (forall p, ty (T p.1) p.2 = TL_UNLOCK -> ty (mark_unlocked T data p.1) p.2 = TL_UNLOCK).
Proof.
  induction data as [|[l d] data IH]; intros T HT; cbn [mark_unlocked].
  { split_and!; [done|by intros ? ?%elem_of_nil|done]. }
  set (w := upd (T l) d (set_type TL_UNLOCK)). set (T1 := set_table T l w).
  assert (HL : rep w (chain (T l))) by (eapply same_links_rep; [by apply same_links_upd|apply HT]).
  assert (E : forall l' q, chain (T1 l') q = chain (T l') q).
  { intros l' q. unfold T1, set_table. case_decide; subst; [by eapply rep_chain|done]. }
  assert (Ht1 : forall p, ty (T p.1) p.2 = TL_UNLOCK \/ p = (l, d) -> ty (T1 p.1) p.2 = TL_UNLOCK).
  { intros p Hp. unfold T1, set_table, w. case_decide as El; [|destruct Hp as [?| ->]; done].
    rewrite ty_set_type. case_decide; [done|]. rewrite El in Hp. destruct Hp as [?| ->]; done. }
  destruct (IH T1) as (H1 & H2 & H3).
  { intros l'. eapply rep_gen_proper; [intros q; apply E|].
    unfold T1, set_table. case_decide; subst; [done|apply HT]. }
  split_and!.
  - intros l' q. by rewrite H1, E.
  - intros p [->|Hp]%elem_of_cons; [|auto]. apply H3, Ht1. by right.
  - intros p Hp. apply H3, Ht1. by left.
Qed.

(** ** thr_multi_lock *)

(** After a failed request for [f]. *)
Lemma release_all T got f rest : good T -> NoDup got ->
  (forall p, p ∈ got -> p ∉ f :: rest) -> got ++ f :: rest ⊆ mine ->
  (forall p, p ∈ got -> held o T p) -> (forall p, p ∈ rest -> idle T p) ->
  let T' := mark_unlocked (thr_multi_unlock sc 0 T got 0) (f :: rest) in
  (forall p, p ∈ got ++ f :: rest -> ty (T' p.1) p.2 = TL_UNLOCK) /\
  exists f', f' ∈ f :: rest /\
    forall p, p ∈ got ++ f :: rest -> p <> f' -> out (chain (T' p.1)) p.2.
Proof.
  intros HT Hng Hgr Hm Hh Hi.
  destruct (thr_multi_unlock_spec got 0 T HT Hng) as (HT3 & Hf3 & HK3); [set_solver|done|].
  set (T3 := thr_multi_unlock sc 0 T got 0) in *.
  destruct (mark_unlocked_spec (f :: rest) T3) as (E4 & Ht4 & Hu4); [intros l'; apply (HT3 l')|].
  cbv zeta. set (T4 := mark_unlocked T3 _) in *. split.
  - intros p [Hp|Hp]%elem_of_app; [apply Hu4, (Hf3 p Hp)|by apply Ht4].
  - exists f. split; [left|]. intros p Hp Hne q. rewrite E4.
    apply elem_of_app in Hp as [Hp|[->|Hp]%elem_of_cons]; [by apply Hf3|done|].
    assert (Hi3 : idle T3 p).
    { eapply keeps_idle; [apply HK3; [set_solver|]|by apply Hi].
      intros Hg. apply (Hgr p Hg). by right. }
    apply Hi3.
Qed.

Lemma lock_all_spec rest : forall got T, good T -> NoDup (got ++ rest) -> got ++ rest ⊆ mine ->
  (forall p, p ∈ got -> held o T p) -> (forall p, p ∈ rest -> idle T p) ->
  let '(T', r) := lock_all sc o c T got rest in
  r = THR_LOCK_SUCCESS /\ good T' /\ (forall p, p ∈ got ++ rest -> held o T' p) \/
  r <> THR_LOCK_SUCCESS /\ (forall p, p ∈ got ++ rest -> ty (T' p.1) p.2 = TL_UNLOCK) /\
  exists f, f ∈ rest /\ forall p, p ∈ got ++ rest -> p <> f -> out (chain (T' p.1)) p.2.
Proof.
  induction rest as [|[l d] rest IH]; intros got T HT Hnd Hm Hh Hi; cbn [lock_all].
  { left. split_and!; [done..|]. by rewrite app_nil_r. }
  set (k := length got). destruct (fr_before _ _ Hsc k T HT) as [HT1 HK1].
  set (T1 := sc_before sc k T) in *.
  assert (Hi1 : forall p, p ∈ (l, d) :: rest -> idle T1 p)
    by (intros p Hp; eapply keeps_idle; [apply HK1; set_solver|auto]).
  assert (Hh1 : forall p, p ∈ got -> held o T1 p)
    by (intros p Hp; eapply keeps_held; [apply HK1; set_solver|auto]).
  apply NoDup_app in Hnd as (Hng & Hgr & [Hdr Hnr]%NoDup_cons).
  assert (Hdg : (l, d) ∉ got) by (intros ?; by apply (Hgr (l, d)); [|left]).
  pose proof (thr_lock_wait_spec k T1 l d HT1 (Hi1 _ ltac:(left)) ltac:(set_solver)) as Hw.
  destruct (thr_lock_wait sc o c k T1 (l, d)) as [T2 r]. destruct Hw as (HT2 & HK2 & Hd2).
  assert (Hh2 : forall p, p ∈ got -> held o T2 p)
    by (intros p Hp; eapply keeps_held; [apply HK2; [set_solver|by intros ->]|auto]).
  assert (Hi2 : forall p, p ∈ rest -> idle T2 p)
    by (intros p Hp; eapply keeps_idle; [apply HK2; [set_solver|by intros ->]|apply Hi1; by right]).
  destruct r; try (right; split; [done|]; by apply release_all).
  assert (Happ : (got ++ [(l, d)]) ++ rest = got ++ (l, d) :: rest) by (by rewrite <-app_assoc).
  specialize (IH (got ++ [(l, d)]) T2 HT2). rewrite Happ in IH.
  assert (Hnd' : NoDup (got ++ (l, d) :: rest)) by (apply NoDup_app; split_and!; [done..|by apply NoDup_cons]).
  assert (Hh' : forall p, p ∈ got ++ [(l, d)] -> held o T2 p)
    by (intros p [Hp| ->%list_elem_of_singleton]%elem_of_app; auto).
  pose proof (IH Hnd' Hm Hh' Hi2) as IH'. clear IH.
  match goal with |- context [lock_all sc o c T2 ?g rest] =>
    change (lock_all sc o c T2 (got ++ [(l, d)]) rest) with (lock_all sc o c T2 g rest) in IH'
  end.
  destruct (lock_all sc o c T2 _ rest) as [T' r].
  destruct IH' as [?|(Hr & Ht & f & Hf & Hp)]; [by left|].
  right. split_and!; [done..|]. exists f. split; [by right|done].
Qed.

End run.
End multi.

(** ** What the other threads may do *)

Section others.
Context (D : Z -> gset nat) (HD : forall l, (Z.of_nat (size (D l)) < 2 ^ 32)%Z).
Implicit Types (T : tables) (p : data_ptr) (mine : list data_ptr).

(** Another thread opens a record, requests it, ends its wait or releases it. *)
Inductive other_step (mine : list data_ptr) T : tables -> Prop :=
| other_open l d f : (l, d) ∉ mine -> out (chain (T l)) d ->
    other_step mine T (set_table T l (upd (T l) d f))
| other_lock env l d o c : (l, d) ∉ mine -> d ∈ D l -> out (chain (T l)) d ->
    read_type (ty (T l) d) = true \/ write_type (ty (T l) d) = true ->
    thr_upgraded_concurrent_insert_lock env = TL_WRITE \/
      thr_upgraded_concurrent_insert_lock env = TL_WRITE_LOW_PRIORITY ->
    other_step mine T (set_table T l (thr_lock env (T l) d o c).1)
| other_wait_end env l q d timed_out : (l, d) ∉ mine -> running q = false ->
    d ∈ chain (T l) q \/ d ∈ chain (T l) (granted_queue q) \/
      out (chain (T l)) d /\ ty (T l) d = TL_UNLOCK /\ cnd (T l) d = None ->
    other_step mine T (set_table T l (wait_for_lock_finish env (T l) q d timed_out).1)
| other_unlock env l d unlock_flags : (l, d) ∉ mine -> unlockable (T l) (chain (T l)) d ->
    other_step mine T (set_table T l (thr_unlock env (T l) d unlock_flags)).

Lemma set_table_step mine T l d w L : good D T -> (l, d) ∉ mine -> base (D l) w L ->
  (forall x, x <> d -> kept (T l) (chain (T l)) w L x) ->
  good D (set_table T l w) /\ forall p, p ∈ mine -> keeps T (set_table T l w) p.
Proof.
  intros HT Hm HB HK. split; [by eapply set_table_good|].
  intros p Hp. eapply set_table_keeps_ne; [done..|]. by intros ->.
Qed.

Lemma other_step_keeps mine T T' : good D T -> other_step mine T T' ->
  good D T' /\ forall p, p ∈ mine -> keeps T T' p.
Proof.
  intros HT Hs. destruct Hs as [l d f Hm Ho|env l d o c Hm HdD Ho Ht Hup|
    env l q d timed_out Hm Hq Hd|env l d fl Hm Hu].
  - eapply set_table_step; [done..|by apply base_upd_out|]. intros x Hx. by apply kept_upd.
  - destruct (thr_lock_requested (D l) (HD l) env (T l) _ d o c (HT l) Ho HdD Ht Hup)
      as (w1 & _ & _ & HK1 & L' & HB' & _ & HK' & _).
    eapply set_table_step; [done..|]. intros x Hx. eapply kept_trans; [by apply HK1|by apply HK'].
  - pose proof (wait_for_lock_finish_kept (D l) (HD l) env (T l) _ q d timed_out (HT l) Hq Hd) as H.
    destruct (wait_for_lock_finish _ _ _ _ _) as [w r]. destruct H as (L' & HB' & _ & HK' & _).
    by eapply set_table_step.
  - destruct (thr_unlock_kept (D l) (HD l) env (T l) _ d fl (HT l) Hu) as (L' & HB' & _ & _ & _ & HK').
    by eapply set_table_step.
Qed.

(** Threads that only do this can be relied on. *)
Lemma other_steps_rely mine others :
  (forall T, good D T -> rtc (other_step mine) T (others T)) -> rely D mine others.
Proof.
  intros H T HT. specialize (H T HT). revert HT. induction H as [T|T1 T2 T3 Hs _ IH]; intros HT.
  - split; [done|]. intros p _. apply keeps_refl.
  - destruct (other_step_keeps mine T1 T2 HT Hs) as [HT2 HK]. destruct (IH HT2) as [HT3 HK3].
    split; [done|]. intros p Hp. eapply keeps_trans; [by apply HK|by apply HK3].
Qed.

End others.

(** ** The order of the requests *)

Lemma ptr_of_look T (data : list data_ptr) : ptr_of <$> (look T <$> data) = data.
Proof.
  rewrite <-list_fmap_compose. rewrite <-(list_fmap_id data) at 2. apply list_fmap_ext.
  intros _ [l d] _. done.
Qed.

(** [thr_multi_lock] sorts its requests. *)
Lemma multi_sorted T data : exists sorted,
  (if decide (1 < length data) then sort_locks (look T <$> data) else Some (look T <$> data)) =
    Some (look T <$> sorted) /\
  sorted ≡ₚ data /\ StronglySorted lock_le (look T <$> sorted).
Proof.
  assert (H : exists s, (if decide (1 < length data) then sort_locks (look T <$> data)
      else Some (look T <$> data)) = Some s /\ s ≡ₚ look T <$> data /\ StronglySorted lock_le s).
  { case_decide as Hl; [apply sort_locks_spec|]. exists (look T <$> data). split_and!; [done..|].
    destruct data as [|d [|]]; simpl in Hl; [constructor|repeat constructor|lia]. }
  destruct H as (s & -> & Hp & Hs). exists (ptr_of <$> s).
  assert (E : look T <$> (ptr_of <$> s) = s).
  { rewrite <-list_fmap_compose. rewrite <-(list_fmap_id s) at 2. apply list_fmap_ext.
    intros i m Hm%list_elem_of_lookup_2. rewrite Hp in Hm. by apply list_elem_of_fmap in Hm as ([l d] & -> & _). }
  rewrite E. split_and!; [done| |done]. rewrite Hp. by rewrite ptr_of_look.
Qed.


(** A thread reads table 5; another one wants to write it and to read table 7,
    waits, and is granted both when the reader is done. *)
Definition tables0 : tables := fun l =>
  if decide (l = 5%Z) then open_lock (acquire (run0 false) 3 TL_READ 11) 2 TL_WRITE
  else open_lock (run0 false) 1 TL_READ.

Definition reader_leaves (T : tables) : tables :=
  if decide (3 ∈ chain (T 5%Z) Q_read) then set_table T 5 (thr_unlock (env0 false) (T 5%Z) 3 0) else T.

Definition schedule0 : schedule :=
  mk_schedule (fun _ _ => env0 false) (fun _ T => T) (fun _ => reader_leaves) (fun _ => false)
    (fun _ T => T).

Definition ptrs0 : list data_ptr := [(7%Z, 1); (5%Z, 2)].

Lemma tables0_good : good (fun _ => D3) tables0.
Proof.
  intros l. unfold tables0, open_lock.
  assert (Hb : forall w d t, reachable D3 false w -> fresh w d = true ->
    base D3 (upd (upd w d (fun x => thr_lock_data_init x d)) d (set_type t))
      (chain (upd (upd w d (fun x => thr_lock_data_init x d)) d (set_type t)))).
  { intros w d t Hw Hf. apply bool_decide_eq_true in Hf. pose proof (all_queues _ Hf) as Hout.
    destruct (reachable_inv D3 D3_size false w Hw) as [HB _].
    apply (base_chain (fun _ => D3) 0 _ (chain w)).
    apply (base_upd_out D3); [|exact Hout]. apply (base_upd_out D3); [exact HB|exact Hout]. }
  case_decide; apply Hb; try (vm_compute; reflexivity); [|apply run0_reachable].
  apply acquire_reachable; [apply run0_reachable|concrete|vm_compute; reflexivity].
Qed.

Lemma schedule0_fair : fair (fun _ => D3) ptrs0 schedule0.
Proof.
  assert (Hid : rely (fun _ => D3) ptrs0 (fun T => T)) by (intros T HT; split; [done|intros; apply keeps_refl]).
  constructor; [by left|done| |done]. intros k. apply other_steps_rely; [intros; apply D3_size|].
  intros T HT. simpl. unfold reader_leaves. case_decide as H3; [|done]. apply rtc_once.
  apply other_unlock; [unfold ptrs0; set_solver|by left].
Qed.


(** The record whose request failed may stay in the read queue although it is
    marked [TL_UNLOCK]: here the engine's [get_status] refuses the reader of
    table 7, after [thr_lock] has granted it. *)
Lemma refused_record_stays_queued :
  let sc := mk_schedule (fun _ _ => mk_env (fun _ _ => true) (fun _ => false) (fun _ => false) 1000 TL_WRITE)
    (fun _ T => T) (fun _ T => T) (fun _ => false) (fun _ T => T) in
  match thr_multi_lock (mk_callbacks (fun _ => true) (fun _ => true) (fun _ => true)) sc
    (Some 10) 20 tables0 [(7%Z, 1)] with
  | Some (T', _, _, r) => r = THR_LOCK_ABORTED /\ chain (T' 7%Z) Q_read = [1] /\ ty (T' 7%Z) 1 = TL_UNLOCK
  | None => False
  end.
Proof. vm_compute. auto. Qed.

(** ** Waiting for each other *)

(** A statement in [thr_multi_lock] or after it: the locks it has, the one it
    waits for, if any, and those it has still to request. *)
Record statement := mk_statement {
  st_data : list multi_data;
  st_held : list multi_data;
  st_wanted : option multi_data;
  st_rest : list multi_data
}.

(** It got that far in the order of [sort_locks]. *)
Definition in_order (s : statement) : Prop :=
  sort_locks (st_data s) = Some (st_held s ++ option_list (st_wanted s) ++ st_rest s).

(** [sts] are the statements at work on the locks: every granted lock is held by
    one of them, and those that wait are in a queue of waiting locks. *)
Record snapshot (T : tables) (sts : list statement) : Prop := {
  sn_order : forall s, s ∈ sts -> in_order s;
  sn_wait : forall s m, s ∈ sts -> st_wanted s = Some m ->
    md_id m ∈ chain (T (md_lock m)) Q_read_wait \/ md_id m ∈ chain (T (md_lock m)) Q_write_wait;
  sn_held : forall l q d, running q = true -> d ∈ chain (T l) q ->
    exists s h, s ∈ sts /\ h ∈ st_held s /\ md_lock h = l /\ md_id h = d
}.

Lemma held_before_wanted s h m : in_order s -> h ∈ st_held s -> st_wanted s = Some m ->
  (md_lock h <= md_lock m)%Z.
Proof.
  intros E Hh Hm. destruct (sort_locks_spec (st_data s)) as (l & El & _ & Hs).
  unfold in_order in E. rewrite E in El. injection El as <-.
  apply StronglySorted_app in Hs as (H & _ & _). rewrite Hm in H.
  specialize (H h m Hh ltac:(left)). unfold lock_le in H.
  rewrite <-not_true_iff_false, LOCK_CMP_spec in H. lia.
Qed.

(** If all statements wait, one of them waits for the last table. *)
Lemma last_wanted sts : sts <> [] -> (forall s, s ∈ sts -> st_wanted s <> None) ->
  exists s m, s ∈ sts /\ st_wanted s = Some m /\
    forall s' m', s' ∈ sts -> st_wanted s' = Some m' -> (md_lock m' <= md_lock m)%Z.
Proof.
  induction sts as [|s sts IH]; intros Hne Hw; [done|].
  destruct (st_wanted s) as [m|] eqn:Em; [|by destruct (Hw s ltac:(left))].
  destruct sts as [|s1 sts].
  { exists s, m. split_and!; [left|done|]. intros s' m' ->%list_elem_of_singleton. rewrite Em. by intros [= ->]. }
  destruct IH as (s2 & m2 & Hs2 & Em2 & Hmax); [done|intros s' Hs'; apply Hw; by right|].
  destruct (Z.le_gt_cases (md_lock m) (md_lock m2)).
  - exists s2, m2. split_and!; [by right|done|]. intros s' m' [->|Hs']%elem_of_cons Em'; [|eauto].
    rewrite Em in Em'. by injection Em' as <-.
  - exists s, m. split_and!; [left|done|]. intros s' m' [->|Hs']%elem_of_cons Em'.
    + rewrite Em in Em'. by injection Em' as <-.
    + specialize (Hmax s' m' Hs' Em'). lia.
Qed.

(** C37: no deadlock: when statements lock their tables with [thr_multi_lock],
    and none of those that wait has another lock on the table it waits for, they
    never all wait.  The locks are in any state the threads can reach, and a
    statement may wait behind granted locks and behind other requests. *)
Theorem no_deadlock D care T sts :
  (forall l, (Z.of_nat (size (D l)) < 2 ^ 32)%Z) -> (forall l, reachable (D l) care (T l)) ->
  snapshot T sts -> sts <> [] ->
  (forall s m h, s ∈ sts -> st_wanted s = Some m -> h ∈ st_held s -> md_lock h <> md_lock m) ->
  exists s, s ∈ sts /\ st_wanted s = None.
Proof.
  intros HD HT [Hord Hwait Hheld] Hne Honce.
  destruct (decide (Exists (fun s => st_wanted s = None) sts)) as [(s & Hs & E)%Exists_exists|Hall];
    [by exists s|exfalso].
  destruct (last_wanted sts Hne) as (s & m & Hs & Em & Hmax).
  { intros s Hs E. apply Hall, Exists_exists. eauto. }
  destruct (reachable_inv (D (md_lock m)) (HD _) care _ (HT _)) as (_ & _ & Hl1 & Hl2).
  assert (Hg : exists q d, running q = true /\ d ∈ chain (T (md_lock m)) q).
  { destruct (chain (T (md_lock m)) Q_write) as [|d W] eqn:EW;
      [|exists Q_write, d; split; [done|rewrite EW; left]].
    destruct (chain (T (md_lock m)) Q_read) as [|d R] eqn:ER;
      [|exists Q_read, d; split; [done|rewrite ER; left]].
    pose proof (Hl2 eq_refl eq_refl) as E1. pose proof (Hl1 eq_refl E1) as E2.
    destruct (Hwait s m Hs Em) as [H|H]; [rewrite E2 in H|rewrite E1 in H]; by apply elem_of_nil in H. }
  destruct Hg as (q & d & Hq & Hd). destruct (Hheld _ q d Hq Hd) as (s' & h & Hs' & Hh & El & _).
  destruct (st_wanted s') as [m'|] eqn:Em'; [|apply Hall, Exists_exists; eauto].
  pose proof (held_before_wanted s' h m' (Hord s' Hs') Hh Em') as H1.
  pose proof (Hmax s' m' Hs' Em') as H2. apply (Honce s' m' h Hs' Em' Hh). lia.
Qed.

(** The thread 10 has written table 5 and reads table 7; thread 11 has a lock on
    table 3 and waits for table 5, and thread 12 waits behind it. *)
Definition tables1 : tables := fun l =>
  if decide (l = 3%Z) then acquire (run0 false) 1 TL_READ 11
  else if decide (l = 5%Z)
  then acquire (acquire (acquire (run0 false) 1 TL_WRITE 10) 2 TL_WRITE 11) 3 TL_READ 12
  else if decide (l = 7%Z) then acquire (run0 false) 1 TL_READ 10 else run0 false.

Definition statements1 : list statement :=
  [mk_statement [mk_multi 1 7 TL_READ 0 0; mk_multi 1 5 TL_WRITE 0 0]
     [mk_multi 1 5 TL_WRITE 0 0; mk_multi 1 7 TL_READ 0 0] None [];
   mk_statement [mk_multi 2 5 TL_WRITE 0 0; mk_multi 1 3 TL_READ 0 0; mk_multi 2 7 TL_READ 0 0]
     [mk_multi 1 3 TL_READ 0 0] (Some (mk_multi 2 5 TL_WRITE 0 0)) [mk_multi 2 7 TL_READ 0 0];
   mk_statement [mk_multi 3 5 TL_READ 0 0] [] (Some (mk_multi 3 5 TL_READ 0 0)) []].

Lemma snapshot1 : snapshot tables1 statements1.
Proof.
  constructor.
  - apply Forall_forall. repeat constructor.
  - intros s m Hs. unfold statements1 in Hs. rewrite !elem_of_cons in Hs.
    destruct Hs as [->|[->|[->|Hs%elem_of_nil]]]; simpl; [done|intros [= <-]..|done];
      [right|left]; concrete.
  - intros l q d Hq Hd. unfold tables1 in Hd.
    destruct (decide (l = 3%Z)) as [->|]; [|destruct (decide (l = 5%Z)) as [->|];
      [|destruct (decide (l = 7%Z)) as [->|]]]; destruct q; try done; vm_compute in Hd;
      try (by apply elem_of_nil in Hd); apply list_elem_of_singleton in Hd as ->.
    + eexists _, (mk_multi 1 3 TL_READ 0 0). split; [right; left|]. split; [left|done].
    + eexists _, (mk_multi 1 5 TL_WRITE 0 0). split; [left|]. split; [left|done].
    + eexists _, (mk_multi 1 7 TL_READ 0 0). split; [left|]. split; [right; left|done].
Qed.

Lemma no_deadlock_witness : exists s, s ∈ statements1 /\ st_wanted s = None.
Proof.
  apply (no_deadlock (fun _ => D3) false tables1 statements1).
  - intros l. apply D3_size.
  - intros l. unfold tables1. repeat case_decide;
      repeat (apply acquire_reachable; [|concrete|vm_compute; reflexivity]); apply run0_reachable.
  - apply snapshot1.
  - discriminate.
  - intros s m h Hs Hm Hh. unfold statements1 in Hs. rewrite !elem_of_cons in Hs.
    destruct Hs as [->|[->|[->|Hs%elem_of_nil]]]; simpl in Hm, Hh; [discriminate Hm|..|destruct Hs].
    + injection Hm as <-. apply list_elem_of_singleton in Hh as ->. discriminate.
    + by apply elem_of_nil in Hh.
Defined.

End ThrLockMultiProofs.
