(* ===== verification/RBTree.v ===== *)
(** * Balanced binary trees (mysys/tree.c, include/my_tree.h)

    The red-black trees of mysys, as algebraic trees.  The array
    [tree->parents] of pointers into the tree is a list of frames, nearest
    first: what is left of the tree when the subtree below is taken out.
    Following [parent[-1]] or [parent[-2]] past the root, or a pointer of the
    sentinel [null_element], is an error ([None]). *)

From S2P Require Import Prelude.

Module RBTree.

Inductive colour := RED | BLACK.

#[global] Instance colour_eq_dec : EqDecision colour.
Proof. solve_decision. Defined.

Section tree.
Context {K : Type}.

(** The key and the 31-bit [count] of an element. *)
Record item := mk_item { key : K; count : Z }.

(** [Null] is [&null_element]. *)
Inductive tree :=
| Null
| Node (c : colour) (left : tree) (e : item) (right : tree).

Inductive side := L | R.

(** The element above, of which the subtree below is the left or right child,
    with its other child. *)
Record frame := mk_frame { f_side : side; f_colour : colour; f_item : item; f_other : tree }.

(** [null_element] is black. *)
Definition colour_of (t : tree) : colour :=
  match t with Null => BLACK | Node c _ _ _ => c end.

(** [t->colour= c]; on the sentinel the code only ever stores BLACK. *)
Definition set_colour (c : colour) (t : tree) : tree :=
  match t with Null => Null | Node _ l e r => Node c l e r end.

Definition put (f : frame) (t : tree) : tree :=
  match f_side f with
  | L => Node (f_colour f) t (f_item f) (f_other f)
  | R => Node (f_colour f) (f_other f) (f_item f) t
  end.

Fixpoint plug (t : tree) (p : list frame) : tree :=
  match p with [] => t | f :: p => plug (put f t) p end.

Definition is_null (t : tree) : bool := match t with Null => true | _ => false end.

(** ** Rotations *)

Definition left_rotate (leaf : tree) : option tree :=
  match leaf with
  | Node c a e (Node c' b e' d) => Some (Node c' (Node c a e b) e' d)
  | _ => None
  end.

Definition right_rotate (leaf : tree) : option tree :=
  match leaf with
  | Node c (Node c' a e' b) e d => Some (Node c' a e' (Node c b e d))
  | _ => None
  end.

(** ** Rebalancing after an insert *)

(** The [while] loop of [rb_insert]; [leaf] is red. *)
Fixpoint rb_insert_loop (leaf : tree) (parent : list frame) : option tree :=
  match parent with
  | [] => Some leaf
  | par :: up =>
      if decide (f_colour par = BLACK) then Some (plug leaf parent)
      else match up with
      | [] => None
      | par2 :: up2 =>
          let y := f_other par2 in
          if decide (colour_of y = RED) then
            let par := mk_frame (f_side par) BLACK (f_item par) (f_other par) in
            let par2 := mk_frame (f_side par2) RED (f_item par2) (set_colour BLACK y) in
            rb_insert_loop (put par2 (put par leaf)) up2
          else
            match f_side par2 with
            | L =>
                par ← (match f_side par with
                       | R => left_rotate (put par leaf)
                       | L => Some (put par leaf)
                       end);
                let par := set_colour BLACK par in
                let par2 := mk_frame L RED (f_item par2) y in
                t ← right_rotate (put par2 par);
                Some (plug t up2)
            | R =>
                par ← (match f_side par with
                       | L => right_rotate (put par leaf)
                       | R => Some (put par leaf)
                       end);
                let par := set_colour BLACK par in
                let par2 := mk_frame R RED (f_item par2) y in
                t ← left_rotate (put par2 par);
                Some (plug t up2)
            end
      end
  end.

Definition rb_insert (parent : list frame) (leaf : tree) : option tree :=
  t ← rb_insert_loop (set_colour RED leaf) parent;
  Some (set_colour BLACK t).

(** ** Rebalancing after a delete *)

(** One round of the loop of [rb_delete_fixup]: goes on with a new [x] and
    [parent], or leaves the loop with the whole tree. *)
Inductive fixup_result := Continue (x : tree) (parent : list frame) | Break (t : tree).

(** [x == par->left]: also true when [x] is the right child and both are the
    sentinel. *)
Definition is_left_child (par : frame) (x : tree) : bool :=
  match f_side par with L => true | R => is_null x && is_null (f_other par) end.

(** [x] is the left child of [par], [w] the right one. *)
Definition fixup_left (x : tree) (par : colour * item) (w : tree) (up : list frame)
    : option fixup_result :=
  (* w->colour == RED *)
  '(pc, w, up) ← (match w with
    | Node RED wl we wr => Some (RED, wl, mk_frame L BLACK we wr :: up)
    | _ => Some (par.1, w, up)
    end);
  match w with
  | Null => None
  | Node wc wl we wr =>
      if decide (colour_of wl = BLACK /\ colour_of wr = BLACK)
      then Some (Continue (Node pc x par.2 (set_colour RED w)) up)
      else
        w ← (if decide (colour_of wr = BLACK)
             then right_rotate (Node RED (set_colour BLACK wl) we wr) else Some w);
        match w with
        | Null => None
        | Node _ wl we wr =>
            t ← left_rotate (Node BLACK x par.2 (Node pc wl we (set_colour BLACK wr)));
            Some (Break (plug t up))
        end
  end.

(** [x] is the right child of [par], [w] the left one. *)
Definition fixup_right (x : tree) (par : colour * item) (w : tree) (up : list frame)
    : option fixup_result :=
  '(pc, w, up) ← (match w with
    | Node RED wl we wr => Some (RED, wr, mk_frame R BLACK we wl :: up)
    | _ => Some (par.1, w, up)
    end);
  match w with
  | Null => None
  | Node wc wl we wr =>
      if decide (colour_of wr = BLACK /\ colour_of wl = BLACK)
      then Some (Continue (Node pc (set_colour RED w) par.2 x) up)
      else
        w ← (if decide (colour_of wl = BLACK)
             then left_rotate (Node RED wl we (set_colour BLACK wr)) else Some w);
        match w with
        | Null => None
        | Node _ wl we wr =>
            t ← right_rotate (Node BLACK (Node pc (set_colour BLACK wl) we wr) par.2 x);
            Some (Break (plug t up))
        end
  end.

Fixpoint rb_delete_fixup_loop (fuel : nat) (x : tree) (parent : list frame) : option tree :=
  match fuel with
  | 0 => None
  | S fuel =>
      match parent with
      | [] => Some (set_colour BLACK x)
      | par :: up =>
          if decide (colour_of x = RED) then Some (plug (set_colour BLACK x) parent)
          else
            r ← (if is_left_child par x
                 then fixup_left x (f_colour par, f_item par) (f_other par) up
                 else fixup_right x (f_colour par, f_item par) (f_other par) up);
            match r with
            | Continue x parent => rb_delete_fixup_loop fuel x parent
            | Break t => Some (set_colour BLACK t)
            end
      end
  end.

Definition rb_delete_fixup (parent : list frame) (x : tree) : option tree :=
  rb_delete_fixup_loop (length parent + 2) x parent.

(** [test_rb_tree]: the black height, or -1. *)
Fixpoint test_rb_tree (element : tree) : Z :=
  match element with
  | Null => 0
  | Node c l e r =>
      if decide (c = RED /\ (colour_of l = RED \/ colour_of r = RED)) then -1
      else
        let count_l := test_rb_tree l in
        let count_r := test_rb_tree r in
        if decide (0 <= count_l /\ 0 <= count_r)%Z then
          if decide (count_l = count_r) then count_l + (if decide (c = BLACK) then 1 else 0) else -1
        else -1
  end%Z.

(** The keys and counts in order. *)
Fixpoint elements (t : tree) : list item :=
  match t with Null => [] | Node _ l e r => elements l ++ e :: elements r end.

(** ** Red-black trees *)

(** Colour and black height. *)
Inductive rbt : colour -> nat -> tree -> Prop :=
| rbt_null : rbt BLACK 0 Null
| rbt_red n l e r : rbt BLACK n l -> rbt BLACK n r -> rbt RED n (Node RED l e r)
| rbt_black n cl cr l e r : rbt cl n l -> rbt cr n r -> rbt BLACK (S n) (Node BLACK l e r).

Definition top_black (p : list frame) : Prop :=
  match p with [] => False | f :: _ => f_colour f = BLACK end.

(** A context with a hole of black height [n]; its root is black. *)
Inductive ctx : nat -> list frame -> Prop :=
| ctx_nil n : ctx n []
| ctx_red n s e o p : rbt BLACK n o -> ctx n p -> top_black p -> ctx n (mk_frame s RED e o :: p)
| ctx_black n c s e o p : rbt c n o -> ctx (S n) p -> ctx n (mk_frame s BLACK e o :: p).

Lemma rbt_colour c n t : rbt c n t -> colour_of t = c.
Proof. by destruct 1. Qed.

Lemma rbt_black_inv n t : rbt BLACK n t ->
  t = Null /\ n = 0 \/ exists m cl cr l e r, t = Node BLACK l e r /\ n = S m /\ rbt cl m l /\ rbt cr m r.
Proof. inversion 1; subst; [by left|right]. eauto 10. Qed.

Lemma rbt_red_inv n t : rbt RED n t ->
  exists l e r, t = Node RED l e r /\ rbt BLACK n l /\ rbt BLACK n r.
Proof. inversion 1; subst. eauto 10. Qed.

Lemma rbt_set_black c n t : rbt c n t -> exists m, rbt BLACK m (set_colour BLACK t).
Proof. destruct 1; simpl; eauto using rbt. Qed.

Lemma rbt_put s e o t n c co : rbt c n t -> rbt co n o ->
  rbt BLACK (S n) (put (mk_frame s BLACK e o) t).
Proof. intros. destruct s; simpl; econstructor; eauto. Qed.

Lemma rbt_put_red s e o t n : rbt BLACK n t -> rbt BLACK n o ->
  rbt RED n (put (mk_frame s RED e o) t).
Proof. intros. destruct s; simpl; econstructor; eauto. Qed.

(** Filling the hole. *)
Lemma plug_rbt p : forall n c t, rbt c n t -> ctx n p -> (c = RED -> p = [] \/ top_black p) ->
  exists c' m, rbt c' m (plug t p) /\ (p <> [] -> c' = BLACK) /\ (p = [] -> c' = c).
Proof.
  induction p as [|f p IH]; intros n c t Ht Hp Hc; simpl.
  - exists c, n. done.
  - inversion Hp; subst; simpl in Hc.
    + assert (c = BLACK) as -> by (destruct c; [destruct Hc|]; done).
      destruct (IH n RED (put (mk_frame s RED e o) t)) as (c' & m & ? & IH1 & _).
      { by apply rbt_put_red. }
      { done. }
      { by right. }
      exists c', m. split_and!; [done| |done]. intros _. apply IH1. by intros ->.
    + destruct (IH (S n) BLACK (put (mk_frame s BLACK e o) t)) as (c' & m & ? & IH1 & IH2); try done.
      { by eapply rbt_put. }
      exists c', m. split_and!; [done| |done]. intros _. destruct p; [by apply IH2|by apply IH1].
Qed.

Lemma plug_root n c t p : rbt c n t -> ctx n p -> (c = RED -> p = [] \/ top_black p) ->
  exists m, rbt BLACK m (set_colour BLACK (plug t p)).
Proof. intros Ht Hp Hc. destruct (plug_rbt p n c t Ht Hp Hc) as (c' & m & H & _). by eapply rbt_set_black. Qed.

(** ** The order of the elements *)

Fixpoint before (p : list frame) : list item :=
  match p with
  | [] => []
  | f :: p => before p ++ match f_side f with L => [] | R => elements (f_other f) ++ [f_item f] end
  end.

Fixpoint after (p : list frame) : list item :=
  match p with
  | [] => []
  | f :: p => match f_side f with L => f_item f :: elements (f_other f) | R => [] end ++ after p
  end.

Lemma elements_plug p : forall t, elements (plug t p) = before p ++ elements t ++ after p.
Proof.
  induction p as [|f p IH]; intros t; simpl; [by rewrite app_nil_r|].
  rewrite IH. unfold put. destruct (f_side f); simpl; rewrite <-?app_assoc; simpl; by rewrite <-?app_assoc.
Qed.

Lemma elements_set_colour c t : elements (set_colour c t) = elements t.
Proof. by destruct t. Qed.

Lemma elements_left_rotate t t' : left_rotate t = Some t' -> elements t' = elements t.
Proof.
  destruct t as [|c a e [|c' b e' d]]; simpl; intros [= <-]. simpl. by rewrite <-app_assoc.
Qed.

Lemma elements_right_rotate t t' : right_rotate t = Some t' -> elements t' = elements t.
Proof.
  destruct t as [|c [|c' a e' b] e d]; simpl; intros [= <-]. simpl. by rewrite <-app_assoc.
Qed.

Lemma elements_put f t : elements (put f t) =
  match f_side f with
  | L => elements t ++ f_item f :: elements (f_other f)
  | R => elements (f_other f) ++ f_item f :: elements t
  end.
Proof. unfold put. by destruct (f_side f). Qed.

(** ** rb_insert *)

Lemma rb_insert_loop_elements p : forall leaf t, rb_insert_loop leaf p = Some t ->
  elements t = before p ++ elements leaf ++ after p.
Proof.
  induction p as [p IH] using (induction_ltof1 _ length). unfold ltof in IH.
  intros leaf t. rewrite <-elements_plug. destruct p as [|[s c e o] [|[s2 c2 e2 o2] up]];
    cbn [rb_insert_loop f_colour f_side f_item f_other plug].
  - by intros [= <-].
  - case_decide; by intros [= <-].
  - case_decide; [by intros [= <-]|].
    rewrite elements_plug, elements_put. cbn [f_side f_item f_other]. case_decide.
    + intros Ht. apply IH in Ht; [|simpl; lia]. rewrite Ht, elements_put.
      cbn [f_side f_item f_other]. by rewrite elements_set_colour, !elements_put.
    + destruct s2, s, leaf as [|lc ll le lr];
        cbn [f_side put f_colour f_item f_other left_rotate right_rotate mbind option_bind set_colour];
        intros [= <-]; rewrite elements_plug; cbn [elements];
        norm_app; done.
Qed.

Lemma rb_insert_loop_rbt p : forall n leaf, rbt RED n leaf -> ctx n p ->
  exists t c m, rb_insert_loop leaf p = Some t /\ rbt c m t.
Proof.
  induction p as [p IH] using (induction_ltof1 _ length). unfold ltof in IH.
  intros n leaf Hl Hp. destruct p as [|f up]; [by exists leaf, RED, n|].
  inversion Hp as [|? s e o ? Ho Hup Htop|? co s e o ? Ho Hup]; subst; cbn [rb_insert_loop f_colour].
  2: { rewrite decide_True by done.
       destruct (plug_rbt (mk_frame s BLACK e o :: up) n RED leaf Hl Hp) as (c' & m & ? & _); [by right|].
       by eexists _, _, _. }
  rewrite decide_False by done. destruct up as [|f2 up2]; [done|].
  inversion Hup as [|? s2 e2 o2 ? Ho2 Hup2 Htop2|? co2 s2 e2 o2 ? Ho2 Hup2]; subst; [done|].
  apply rbt_red_inv in Hl as (ll & le & lr & -> & Hll & Hlr).
  cbn [f_other f_side f_item]. case_decide as Hc.
  - rewrite (rbt_colour _ _ _ Ho2) in Hc. subst co2.
    apply rbt_red_inv in Ho2 as (yl & ye & yr & -> & ? & ?).
    apply (IH up2 ltac:(simpl; lia) (S n)); [|done].
    apply rbt_put_red; [|econstructor; done]. eapply rbt_put; [econstructor; done|done].
  - rewrite (rbt_colour _ _ _ Ho2) in Hc. assert (co2 = BLACK) as -> by (by destruct co2).
    assert (Hfin : forall t, rbt BLACK (S n) t -> exists t' c m, Some (plug t up2) = Some t' /\ rbt c m t').
    { intros t Ht. destruct (plug_rbt up2 _ _ _ Ht Hup2) as (c' & m & ? & _); [done|].
      by eexists _, _, _. }
    destruct s2, s; cbn [f_side put f_colour f_item f_other left_rotate right_rotate mbind option_bind set_colour];
      apply Hfin; econstructor; econstructor; done.
Qed.

(** [rb_insert] never leaves the tree, keeps the order and balances it. *)
Lemma rb_insert_spec p e : ctx 0 p ->
  exists t m, rb_insert p (Node BLACK Null e Null) = Some t /\ rbt BLACK m t /\
    elements t = before p ++ [e] ++ after p.
Proof.
  intros Hp. unfold rb_insert. cbn [set_colour].
  destruct (rb_insert_loop_rbt p 0 (Node RED Null e Null)) as (t & c & m & E & Ht); [repeat constructor|done|].
  rewrite E. cbn [mbind option_bind]. destruct (rbt_set_black _ _ _ Ht) as [m' Ht'].
  exists (set_colour BLACK t), m'. split_and!; [done..|].
  rewrite elements_set_colour. by apply rb_insert_loop_elements in E.
Qed.

(** ** rb_delete_fixup *)

(** Where a round of the loop leads, for an [x] whose subtree has lost a black
    node: [n] is its black height, that of its place is one more. *)
Definition fixup_ok (n : nat) (whole : list item) (r : fixup_result) (len : nat) : Prop :=
  match r with
  | Break t => exists c m, rbt c m t /\ elements t = whole
  | Continue x up =>
      elements (plug x up) = whole /\
      (rbt BLACK (S n) x /\ ctx (S (S n)) up /\ length up <= len \/
       colour_of x = RED /\ rbt BLACK (S n) (set_colour BLACK x) /\ ctx (S n) up /\ top_black up)
  end.

Lemma plug_ok n c t up : rbt c n t -> ctx n up -> (c = RED -> top_black up) ->
  exists c' m, rbt c' m (plug t up).
Proof. intros H1 H2 H3. destruct (plug_rbt up n c t H1 H2) as (c' & m & ? & _); eauto. Qed.

(** The part after the sibling is black. *)
Lemma fixup_left_ok n x pc e w up : rbt BLACK n x ->
  (forall w' we wr, w = Node RED w' we wr -> pc = BLACK /\ rbt BLACK (S n) w' /\ rbt BLACK (S n) wr /\
     ctx (S (S n)) up) ->
  (colour_of w = BLACK -> rbt BLACK (S n) w /\
     (pc = RED /\ ctx (S n) up /\ top_black up \/ pc = BLACK /\ ctx (S (S n)) up)) ->
  exists r, fixup_left x (pc, e) w up = Some r /\
    fixup_ok n (elements (plug (Node pc x e w) up)) r (length up).
Proof.
  intros Hx Hred Hblack. unfold fixup_left. cbn [fst snd].
  assert (Hstep : exists pc' w1 up1,
    (match w with Node RED wl we wr => Some (RED, wl, mk_frame L BLACK we wr :: up) | _ => Some (pc, w, up) end)
      = Some (pc', w1, up1) /\ rbt BLACK (S n) w1 /\
    elements (plug (Node pc x e w) up) = elements (plug (Node pc' x e w1) up1) /\
    (pc' = RED /\ ctx (S n) up1 /\ top_black up1 \/
     pc' = BLACK /\ ctx (S (S n)) up1 /\ length up1 <= length up)).
  { destruct w as [|[] w' we wr].
    - destruct Hblack as [H _]; [done|]. inversion H.
    - destruct (Hred _ _ _ eq_refl) as (-> & ? & ? & ?). eexists _, _, _. split_and!; [done|done| |].
      + cbn [plug]. rewrite !elements_plug. unfold put. simpl. norm_app. done.
      + left. split_and!; [done| |done]. by econstructor.
    - destruct Hblack as [H1 H2]; [done|]. eexists _, _, _. split_and!; [done..|].
      destruct H2 as [?|(? & ?)]; [by left|right]. split_and!; [done|done|lia]. }
  destruct Hstep as (pc' & w1 & up1 & -> & Hw1 & -> & Hup). cbn [mbind option_bind].
  apply rbt_black_inv in Hw1 as [[_ ?]|(m & cl & cr & wl & we & wr & -> & [= <-] & Hwl & Hwr)]; [done|].
  rewrite (rbt_colour _ _ _ Hwl), (rbt_colour _ _ _ Hwr).
  assert (Hplug : forall t, (rbt RED (S n) t /\ pc' = RED) \/ (rbt BLACK (S (S n)) t /\ pc' = BLACK) ->
    exists c m, rbt c m (plug t up1)).
  { intros t [[Ht ->]|[Ht ->]]; destruct Hup as [(? & ? & ?)|(? & ? & ?)]; try done;
      by eapply plug_ok. }
  rewrite elements_plug.
  destruct (decide (cl = BLACK /\ cr = BLACK)) as [[-> ->]|Hne].
  - eexists. split; [done|]. cbn [fixup_ok]. split; [by rewrite elements_plug|].
    destruct Hup as [(-> & ? & ?)|(-> & ? & ?)]; [right|left]; split_and!; try done;
      econstructor; eauto using rbt.
  - destruct (decide (cr = BLACK)) as [->|Hcr].
    + assert (cl = RED) as -> by (destruct cl; [done|by destruct Hne]).
      apply rbt_red_inv in Hwl as (ll & le & lr & -> & ? & ?).
      cbn [set_colour right_rotate left_rotate mbind option_bind]. eexists. split; [done|].
      cbn [fixup_ok].
      destruct (Hplug (Node pc' (Node BLACK x e ll) le (Node BLACK lr we wr))) as (c & m & Ht).
      { destruct pc'; [left|right]; split; try done; repeat (econstructor; eauto). }
      exists c, m. split; [done|]. rewrite elements_plug. cbn [elements]. norm_app. done.
    + assert (cr = RED) as -> by (by destruct cr).
      apply rbt_red_inv in Hwr as (rl & re & rr & -> & ? & ?).
      cbn [set_colour right_rotate left_rotate mbind option_bind]. eexists. split; [done|].
      cbn [fixup_ok].
      destruct (Hplug (Node pc' (Node BLACK x e wl) we (Node BLACK rl re rr))) as (c & m & Ht).
      { destruct pc'; [left|right]; split; try done; repeat (econstructor; eauto). }
      exists c, m. split; [done|]. rewrite elements_plug. cbn [elements]. norm_app. done.
Qed.

Lemma fixup_right_ok n x pc e w up : rbt BLACK n x ->
  (forall wl we w', w = Node RED wl we w' -> pc = BLACK /\ rbt BLACK (S n) w' /\ rbt BLACK (S n) wl /\
     ctx (S (S n)) up) ->
  (colour_of w = BLACK -> rbt BLACK (S n) w /\
     (pc = RED /\ ctx (S n) up /\ top_black up \/ pc = BLACK /\ ctx (S (S n)) up)) ->
  exists r, fixup_right x (pc, e) w up = Some r /\
    fixup_ok n (elements (plug (Node pc w e x) up)) r (length up).
Proof.
  intros Hx Hred Hblack. unfold fixup_right. cbn [fst snd].
  assert (Hstep : exists pc' w1 up1,
    (match w with Node RED wl we wr => Some (RED, wr, mk_frame R BLACK we wl :: up) | _ => Some (pc, w, up) end)
      = Some (pc', w1, up1) /\ rbt BLACK (S n) w1 /\
    elements (plug (Node pc w e x) up) = elements (plug (Node pc' w1 e x) up1) /\
    (pc' = RED /\ ctx (S n) up1 /\ top_black up1 \/
     pc' = BLACK /\ ctx (S (S n)) up1 /\ length up1 <= length up)).
  { destruct w as [|[] wl we w'].
    - destruct Hblack as [H _]; [done|]. inversion H.
    - destruct (Hred _ _ _ eq_refl) as (-> & ? & ? & ?). eexists _, _, _. split_and!; [done|done| |].
      + cbn [plug]. rewrite !elements_plug. unfold put. simpl. norm_app. done.
      + left. split_and!; [done| |done]. by econstructor.
    - destruct Hblack as [H1 H2]; [done|]. eexists _, _, _. split_and!; [done..|].
      destruct H2 as [?|(? & ?)]; [by left|right]. split_and!; [done|done|lia]. }
  destruct Hstep as (pc' & w1 & up1 & -> & Hw1 & -> & Hup). cbn [mbind option_bind].
  apply rbt_black_inv in Hw1 as [[_ ?]|(m & cl & cr & wl & we & wr & -> & [= <-] & Hwl & Hwr)]; [done|].
  rewrite (rbt_colour _ _ _ Hwl), (rbt_colour _ _ _ Hwr).
  assert (Hplug : forall t, (rbt RED (S n) t /\ pc' = RED) \/ (rbt BLACK (S (S n)) t /\ pc' = BLACK) ->
    exists c m, rbt c m (plug t up1)).
  { intros t [[Ht ->]|[Ht ->]]; destruct Hup as [(? & ? & ?)|(? & ? & ?)]; try done;
      by eapply plug_ok. }
  rewrite elements_plug.
  destruct (decide (cr = BLACK /\ cl = BLACK)) as [[-> ->]|Hne].
  - eexists. split; [done|]. cbn [fixup_ok]. split; [by rewrite elements_plug|].
    destruct Hup as [(-> & ? & ?)|(-> & ? & ?)]; [right|left]; split_and!; try done;
      econstructor; eauto using rbt.
  - destruct (decide (cl = BLACK)) as [->|Hcl].
    + assert (cr = RED) as -> by (destruct cr; [done|by destruct Hne]).
      apply rbt_red_inv in Hwr as (rl & re & rr & -> & ? & ?).
      cbn [set_colour right_rotate left_rotate mbind option_bind]. eexists. split; [done|].
      cbn [fixup_ok].
      destruct (Hplug (Node pc' (Node BLACK wl we rl) re (Node BLACK rr e x))) as (c & m & Ht).
      { destruct pc'; [left|right]; split; try done; repeat (econstructor; eauto). }
      exists c, m. split; [done|]. rewrite elements_plug. cbn [elements]. norm_app. done.
    + assert (cl = RED) as -> by (by destruct cl).
      apply rbt_red_inv in Hwl as (ll & le & lr & -> & ? & ?).
      cbn [set_colour right_rotate left_rotate mbind option_bind]. eexists. split; [done|].
      cbn [fixup_ok].
      destruct (Hplug (Node pc' (Node BLACK ll le lr) we (Node BLACK wr e x))) as (c & m & Ht).
      { destruct pc'; [left|right]; split; try done; repeat (econstructor; eauto). }
      exists c, m. split; [done|]. rewrite elements_plug. cbn [elements]. norm_app. done.
Qed.

(** The loop ends with a balanced tree of the same elements. *)
Lemma rb_delete_fixup_loop_ok fuel : forall x p n c,
  rbt c n x -> ctx (S n) p -> length p + 2 <= fuel ->
  exists t m, rb_delete_fixup_loop fuel x p = Some t /\ rbt BLACK m t /\
    elements t = elements (plug x p).
Proof.
  induction fuel as [|fuel IH]; intros x p n c Hx Hp Hf; [lia|]. cbn [rb_delete_fixup_loop].
  destruct p as [|f up].
  { destruct (rbt_set_black _ _ _ Hx) as [m Hm]. exists (set_colour BLACK x), m.
    split_and!; [done..|apply elements_set_colour]. }
  simpl in Hf. rewrite (rbt_colour _ _ _ Hx). case_decide as Hc.
  { subst c. apply rbt_red_inv in Hx as (l & e & r & -> & Hl & Hr).
    destruct (plug_rbt (f :: up) (S n) BLACK (Node BLACK l e r)) as (c' & m & Ht & Hc' & _); [by econstructor|done|done|].
    rewrite Hc' in Ht by done. exists (plug (Node BLACK l e r) (f :: up)), m.
    split_and!; [done|done|]. by rewrite !elements_plug. }
  assert (c = BLACK) as -> by (by destruct c).
  assert (Hside : is_left_child f x = match f_side f with L => true | R => false end).
  { unfold is_left_child. destruct (f_side f); [done|]. inversion Hp as [|? s e o ? Ho|? co s e o ? Ho];
      subst; simpl; inversion Ho; subst; by rewrite andb_false_r. }
  assert (Hstep : exists r, (if is_left_child f x
      then fixup_left x (f_colour f, f_item f) (f_other f) up
      else fixup_right x (f_colour f, f_item f) (f_other f) up) = Some r /\
    fixup_ok n (elements (plug x (f :: up))) r (length up)).
  { rewrite Hside. inversion Hp as [|? s e o ? Ho Hup Ht|? co s e o ? Ho Hup]; subst;
      cbn [f_side f_colour f_item f_other plug];
      destruct s; (apply fixup_left_ok || apply fixup_right_ok); try done.
    all: try (intros; subst; by inversion Ho).
    all: try (intros; subst; inversion Ho; subst; split_and!; done).
    all: intros; split; [|by auto].
    all: rewrite (rbt_colour _ _ _ Ho) in *; by subst. }
  destruct Hstep as (r & -> & Hr). cbn [mbind option_bind]. destruct r as [x' up'|t]; cbn [fixup_ok] in Hr.
  - destruct Hr as [<- [(Hx' & Hup' & Hlen)|(Hcol & Hx' & Hup' & Htop)]].
    + eapply IH; [done|done|lia].
    + destruct fuel as [|fuel]; [lia|]. cbn [rb_delete_fixup_loop]. destruct up' as [|f' up']; [done|].
      rewrite decide_True by done.
      destruct (plug_rbt (f' :: up') (S n) BLACK (set_colour BLACK x')) as (c' & m & Ht & Hc' & _); [done..|].
      rewrite Hc' in Ht by done. exists (plug (set_colour BLACK x') (f' :: up')), m.
      split_and!; [done|done|]. by rewrite !elements_plug, elements_set_colour.
  - destruct Hr as (c & m & Ht & <-). destruct (rbt_set_black _ _ _ Ht) as [m' Ht'].
    exists (set_colour BLACK t), m'. split_and!; [done..|apply elements_set_colour].
Qed.

(** ** The consistency test *)

Lemma rbt_test c n t : rbt c n t -> test_rb_tree t = Z.of_nat n.
Proof.
  induction 1 as [|n l e r Hl IHl Hr IHr|n cl cr l e r Hl IHl Hr IHr]; cbn [test_rb_tree]; [done|..].
  - apply rbt_colour in Hl, Hr. rewrite decide_False by (rewrite Hl, Hr; naive_solver).
    rewrite IHl, IHr, !decide_True by lia. rewrite decide_False by done. lia.
  - rewrite decide_False by naive_solver. rewrite IHl, IHr, !decide_True by lia.
    rewrite decide_True by done. lia.
Qed.

Lemma test_rbt t : (0 <= test_rb_tree t)%Z -> rbt (colour_of t) (Z.to_nat (test_rb_tree t)) t.
Proof.
  induction t as [|c l IHl e r IHr]; cbn [test_rb_tree]; [constructor|].
  case_decide as Hc; [lia|]. case_decide as Hlr; [destruct Hlr as [Hl Hr]|lia]. case_decide as He; [|lia].
  specialize (IHl Hl). specialize (IHr Hr). rewrite <-He in IHr. intros _. simpl. destruct c.
  - rewrite decide_False by done. rewrite Z.add_0_r.
    assert (colour_of l = BLACK) as El by (destruct (colour_of l); naive_solver).
    assert (colour_of r = BLACK) as Er by (destruct (colour_of r); naive_solver).
    rewrite El in IHl. rewrite Er in IHr. by constructor.
  - rewrite decide_True by done.
    replace (Z.to_nat (test_rb_tree l + 1)) with (S (Z.to_nat (test_rb_tree l))) by lia.
    by econstructor.
Qed.

(** the self-test [test_rb_tree] accepts a tree exactly when it satisfies
    the red-black rules, and then returns its black height. *)
Theorem test_rb_tree_correct t n :
  test_rb_tree t = Z.of_nat n <-> exists c, rbt c n t.
Proof.
  split; [|by intros [c H%rbt_test]]. intros H. exists (colour_of t).
  pose proof (test_rbt t ltac:(lia)) as Ht. by rewrite H, Nat2Z.id in Ht.
Qed.

End tree.

Arguments item K : clear implicits.
Arguments tree K : clear implicits.
Arguments frame K : clear implicits.

End RBTree.
