(* ===== verification/TreeOps.v ===== *)
(** * Operations on balanced trees (mysys/tree.c)

    [TREE] with its counters and limits, and every operation on it.  The
    comparison callback is [compare element_key key]; the callback [free] is
    recorded in the list of events an operation returns, its results are an
    argument; a failing allocation is an argument too. *)

From S2P Require Import Prelude RBTree.
Import RBTree.

Module TreeOps.

Definition TREE_NO_DUPS : Z := 1.
Definition TREE_ONLY_DUPS : Z := 2.
Definition MAX_TREE_HEIGHT : nat := 64.

(** [sizeof(TREE_ELEMENT)] and [sizeof(void* )] on 64-bit platforms. *)
Definition SIZEOF_TREE_ELEMENT : Z := 24.
Definition SIZEOF_PTR : Z := 8.

Inductive ha_rkey_function :=
| HA_READ_KEY_EXACT | HA_READ_KEY_OR_NEXT | HA_READ_KEY_OR_PREV | HA_READ_AFTER_KEY
| HA_READ_BEFORE_KEY | HA_READ_PREFIX | HA_READ_PREFIX_LAST | HA_READ_PREFIX_LAST_OR_PREV
| HA_READ_MBR_CONTAIN | HA_READ_MBR_INTERSECT | HA_READ_MBR_WITHIN | HA_READ_MBR_DISJOINT
| HA_READ_MBR_EQUAL.

Inductive TREE_WALK := left_root_right | right_root_left.

Section ops.
Context {K : Type} (compare : K -> K -> Z).

Record TREE := mk_TREE {
  root : tree K;
  elements_in_tree : Z;
  size_of_element : Z;
  memory_limit : Z;
  allocated : Z;
  offset_to_key : bool;
  with_delete : bool;
  has_free : bool;
  flag : Z
}.

(** Calls of [tree->free], and [my_free] and [free_root] of the memory. *)
Inductive tree_event := FreeInit | FreeFree (k : K) | FreeEnd | MyFree (e : item K) | FreeRoot.

Definition set_root (t : TREE) (r : tree K) : TREE :=
  mk_TREE r (elements_in_tree t) (size_of_element t) (memory_limit t) (allocated t)
    (offset_to_key t) (with_delete t) (has_free t) (flag t).

Definition set_allocated (t : TREE) (n : Z) : TREE :=
  mk_TREE (root t) (elements_in_tree t) (size_of_element t) (memory_limit t) n
    (offset_to_key t) (with_delete t) (has_free t) (flag t).

Definition set_elements_in_tree (t : TREE) (n : Z) : TREE :=
  mk_TREE (root t) n (size_of_element t) (memory_limit t) (allocated t)
    (offset_to_key t) (with_delete t) (has_free t) (flag t).

(** The flag is set by the caller afterwards. *)
Definition init_tree (limit size : Z) (free_element my_tree_with_delete : bool) : TREE :=
  let size_of_element := if (0 <? size)%Z then size else 0%Z in
  let in_element := negb free_element && (0 <=? size)%Z &&
                    ((size <=? SIZEOF_PTR)%Z || negb (Z.land size (SIZEOF_PTR - 1) =? 0)%Z) in
  mk_TREE Null 0 (if in_element then size_of_element else (size_of_element + SIZEOF_PTR)%Z)
    limit 0 in_element my_tree_with_delete free_element 0.

(** ** Emptying *)

(** [free_element k] is what [tree->free] returns for the key [k]. *)
Fixpoint delete_tree_element (has_free with_delete : bool) (free_element : K -> Z)
    (element : tree K) (abort : bool) : Z * list tree_event :=
  match element with
  | Null => (0%Z, [])
  | Node _ l e r =>
      let '(first_error, ev1) := delete_tree_element has_free with_delete free_element l abort in
      let abort := if decide (first_error <> 0%Z) then true else abort in
      let '(first_error, abort, ev2) :=
        if negb abort && has_free then
          let error := free_element (key e) in
          if decide (error <> 0%Z)
          then (if decide (first_error <> 0%Z) then first_error else error, true, [FreeFree (key e)])
          else (first_error, abort, [FreeFree (key e)])
        else (first_error, abort, []) in
      let '(error, ev3) := delete_tree_element has_free with_delete free_element r abort in
      (if decide (error <> 0%Z) then if decide (first_error <> 0%Z) then first_error else error
       else first_error,
       ev1 ++ ev2 ++ ev3 ++ if with_delete then [MyFree e] else [])
  end.

Definition free_tree (free_element : K -> Z) (t : TREE) (abort : bool)
    : TREE * Z * list tree_event :=
  let '(first_error, ev) :=
    if with_delete t then delete_tree_element (has_free t) true free_element (root t) abort
    else
      let '(error, ev) :=
        if has_free t then
          let '(error, ev) := delete_tree_element true false free_element (root t) abort in
          let limit := negb (memory_limit t =? 0)%Z in
          (error, (if limit then [FreeInit] else []) ++ ev ++ (if limit then [FreeEnd] else []))
        else (0%Z, []) in
      (error, ev ++ [FreeRoot]) in
  (set_allocated (set_elements_in_tree (set_root t Null) 0) 0, first_error, ev).

Definition delete_tree (free_element : K -> Z) (t : TREE) (abort : bool) :=
  free_tree free_element t abort.

Definition reset_tree (free_element : K -> Z) (t : TREE) := free_tree free_element t false.

(** ** Searching a place *)

(** The loop shared by [tree_insert] and [tree_delete]: the element equal to
    [k], or the sentinel where it belongs, with the way to it. *)
Fixpoint descend (t : tree K) (k : K) (parent : list (frame K)) : tree K * list (frame K) :=
  match t with
  | Null => (Null, parent)
  | Node c l e r =>
      let cmp := compare (key e) k in
      if (cmp =? 0)%Z then (t, parent)
      else if (cmp <? 0)%Z then descend r k (mk_frame R c e l :: parent)
      else descend l k (mk_frame L c e r :: parent)
  end.

(** ** Insert *)

(** NULL, [TREE_ELEMENT_UNIQUE], or the element. *)
Inductive insert_result := Insert_null | Insert_unique | Insert_element (e : item K).

(** The 31-bit counter stops at its maximum. *)
Definition incr_count (e : item K) : item K :=
  let count' := ((count e + 1) mod 2 ^ 31)%Z in
  mk_item (key e) (if (count' =? 0)%Z then ((count' - 1) mod 2 ^ 31)%Z else count').

(** [alloc] tells whether the allocation succeeds.  The recursive call happens
    on an emptied tree and is never nested. *)
Fixpoint tree_insert (fuel : nat) (alloc : bool) (free_element : K -> Z) (t : TREE) (k : K)
    (key_size : Z) : option (TREE * insert_result * list tree_event) :=
  match fuel with
  | 0 => None
  | S fuel =>
      let '(element, parent) := descend (root t) k [] in
      match element with
      | Null =>
          if negb (Z.land (flag t) TREE_ONLY_DUPS =? 0)%Z then Some (t, Insert_unique, [])
          else
            let alloc_size := u32 (SIZEOF_TREE_ELEMENT + key_size + size_of_element t) in
            let t := set_allocated t (u64 (allocated t + alloc_size)) in
            if negb (memory_limit t =? 0)%Z && negb (elements_in_tree t =? 0)%Z &&
               (memory_limit t <? allocated t)%Z
            then
              let '(t, _, ev) := reset_tree free_element t in
              '(t, r, ev') ← tree_insert fuel alloc free_element t k key_size;
              Some (t, r, ev ++ ev')
            else if negb alloc then Some (t, Insert_null, [])
            else
              let e := mk_item k 1 in
              let t := set_elements_in_tree t (u32 (elements_in_tree t + 1)) in
              r ← rb_insert parent (Node BLACK Null e Null);
              Some (set_root t r, Insert_element e, [])
      | Node c l e r =>
          if negb (Z.land (flag t) TREE_NO_DUPS =? 0)%Z then Some (t, Insert_null, [])
          else
            let e := incr_count e in
            Some (set_root t (plug (Node c l e r) parent), Insert_element e, [])
      end
  end.

(** ** Delete *)

(** The leftmost element of [nod], with what is left of it and the way there. *)
Fixpoint leftmost (c : colour) (l : tree K) (e : item K) (r : tree K) (parent : list (frame K))
    : colour * item K * tree K * list (frame K) :=
  match l with
  | Null => (c, e, r, parent)
  | Node c' l' e' r' => leftmost c' l' e' r' (mk_frame L c e r :: parent)
  end.

(** Unlinks the element found: what takes its place at the end of the way, the
    way, and the colour that was removed. *)
Definition unlink_element (c : colour) (l : tree K) (r : tree K) (parent : list (frame K))
    : tree K * list (frame K) * colour :=
  match l, r with
  | Null, _ => (r, parent, c)
  | _, Null => (l, parent, c)
  | _, Node rc rl re rr =>
      (* the frame of the element itself holds nod's key once nod is found *)
      let '(nc, ne, nr, down) := leftmost rc rl re rr [] in
      (nr, down ++ mk_frame R c ne l :: parent, nc)
  end.

Definition tree_delete (t : TREE) (k : K) (key_size : Z) : option (TREE * Z * list tree_event) :=
  if negb (with_delete t) then Some (t, 1%Z, [])
  else
    let '(element, parent) := descend (root t) k [] in
    match element with
    | Null => Some (t, 1%Z, [])
    | Node c l e r =>
        let '(x, parent, remove_colour) := unlink_element c l r parent in
        new_root ← (if decide (remove_colour = BLACK) then rb_delete_fixup parent x
                    else Some (plug x parent));
        let t := set_root t new_root in
        let t := set_allocated t
          (u64 (allocated t - (SIZEOF_TREE_ELEMENT + size_of_element t + key_size))) in
        let t := set_elements_in_tree t (u32 (elements_in_tree t - 1)) in
        Some (t, 0%Z, (if has_free t then [FreeFree (key e)] else []) ++ [MyFree e])
    end.

(** ** Search *)

Fixpoint search (element : tree K) (k : K) : option (item K) :=
  match element with
  | Null => None
  | Node _ l e r =>
      let cmp := compare (key e) k in
      if (cmp =? 0)%Z then Some e
      else if (cmp <? 0)%Z then search r k else search l k
  end.

Definition tree_search (t : TREE) (k : K) : option (item K) := search (root t) k.

(** A position in the tree: the current element first, then the elements above
    it, each with the side on which it hangs below the next one; the sentinel
    at the bottom of [parents] is the end of the list. *)
Definition position := list (tree K * side).

Definition item_of (p : position) : option (item K) :=
  match p with (Node _ _ e _, _) :: _ => Some e | _ => None end.

(** What an equal element counts as while searching, and whether it is
    remembered; [None] for flags that are not supported. *)
Definition equal_as (flag : ha_rkey_function) : option (bool * Z) :=
  match flag with
  | HA_READ_KEY_EXACT | HA_READ_KEY_OR_NEXT | HA_READ_BEFORE_KEY | HA_READ_KEY_OR_PREV =>
      Some (true, 1%Z)
  | HA_READ_AFTER_KEY => Some (false, (-1)%Z)
  | HA_READ_PREFIX_LAST | HA_READ_PREFIX_LAST_OR_PREV => Some (true, (-1)%Z)
  | _ => None
  end.

(** The loop of [tree_search_key]: the last elements at which it went left,
    right, and that were equal; [None] when it returns NULL at once. *)
Fixpoint search_key_loop (element : tree K) (s : side) (parents : position) (k : K)
    (flag : ha_rkey_function) (last_left last_right last_equal : option position)
    : option (option position * option position * option position) :=
  match element with
  | Null => Some (last_left, last_right, last_equal)
  | Node _ l e r =>
      let parents := (element, s) :: parents in
      let cmp := compare (key e) k in
      '(cmp, last_equal) ← (if (cmp =? 0)%Z then
          match equal_as flag with
          | Some (true, c) => Some (c, Some parents)
          | Some (false, c) => Some (c, last_equal)
          | None => None
          end
        else Some (cmp, last_equal));
      if (cmp <? 0)%Z
      then search_key_loop r R parents k flag last_left (Some parents) last_equal
      else search_key_loop l L parents k flag (Some parents) last_right last_equal
  end.

Definition or_else (a b : option position) : option position :=
  match a with Some _ => a | None => b end.

Definition tree_search_key (t : TREE) (k : K) (flag : ha_rkey_function) : option position :=
  '(last_left, last_right, last_equal) ← search_key_loop (root t) L [] k flag None None None;
  match flag with
  | HA_READ_KEY_EXACT | HA_READ_PREFIX_LAST => last_equal
  | HA_READ_KEY_OR_NEXT => or_else last_equal last_left
  | HA_READ_AFTER_KEY => last_left
  | HA_READ_PREFIX_LAST_OR_PREV | HA_READ_KEY_OR_PREV => or_else last_equal last_right
  | HA_READ_BEFORE_KEY => last_right
  | _ => None
  end.

(** [ELEMENT_CHILD]. *)
Definition child (s : side) (t : tree K) : tree K :=
  match t, s with Null, _ => Null | Node _ l _ _, L => l | Node _ _ _ r, R => r end.

Definition other_side (s : side) : side := match s with L => R | R => L end.

(** Down to the last element on side [s]. *)
Fixpoint go_down (s : side) (t : tree K) (from : side) (parents : position) : position :=
  match t with
  | Null => parents
  | Node _ l _ r =>
      go_down s (match s with L => l | R => r end) s ((t, from) :: parents)
  end.

Definition tree_search_edge (t : TREE) (s : side) : position := go_down s (root t) L [].

(** Up while coming from side [s]. *)
Fixpoint go_up (s : side) (from : side) (parents : position) : position :=
  match parents with
  | [] => []
  | (y, s') :: up =>
      match from, s with
      | L, L | R, R => go_up s s' up
      | _, _ => parents
      end
  end.

(** The next element towards side [s] ([r_offs]). *)
Definition tree_search_next (s : side) (p : position) : position :=
  match p with
  | [] => []
  | (x, from) :: up =>
      match child s x with
      | Null => go_up s from up
      | y => go_down (other_side s) y s p
      end
  end.

(** ** Walking *)

Section walk.
Context {S : Type} (action : K -> Z -> S -> Z * S).

Fixpoint tree_walk_left_root_right (element : tree K) (argument : S) : Z * S :=
  match element with
  | Null => (0%Z, argument)
  | Node _ l e r =>
      let '(error, argument) := tree_walk_left_root_right l argument in
      if (error =? 0)%Z then
        let '(error, argument) := action (key e) (count e) argument in
        if (error =? 0)%Z then tree_walk_left_root_right r argument else (error, argument)
      else (error, argument)
  end.

Fixpoint tree_walk_right_root_left (element : tree K) (argument : S) : Z * S :=
  match element with
  | Null => (0%Z, argument)
  | Node _ l e r =>
      let '(error, argument) := tree_walk_right_root_left r argument in
      if (error =? 0)%Z then
        let '(error, argument) := action (key e) (count e) argument in
        if (error =? 0)%Z then tree_walk_right_root_left l argument else (error, argument)
      else (error, argument)
  end.

Definition tree_walk (t : TREE) (argument : S) (visit : TREE_WALK) : Z * S :=
  match visit with
  | left_root_right => tree_walk_left_root_right (root t) argument
  | right_root_left => tree_walk_right_root_left (root t) argument
  end.
End walk.

End ops.

End TreeOps.
