(* ===== verification/TreeProofs.v ===== *)
(** * Correctness of the balanced trees

    A [TREE] is an ordered sequence of distinct keys with counts; every
    operation of mysys/tree.c does on it what its name says, keeps the tree
    balanced, and never follows a pointer out of it. *)

From S2P Require Import Prelude RBTree TreeOps.
Import RBTree TreeOps.

Module TreeProofs.

Section proofs.
Context {K : Type} (compare : K -> K -> Z) `{!CmpOrder compare}.

Notation descend := (descend compare).
Notation search := (search compare).

(** ** Invariant *)

Definition item_lt (a b : item K) : Prop := (compare (key a) (key b) < 0)%Z.

Record tree_inv (t : TREE) : Prop := {
  ti_rbt : exists m, rbt BLACK m (root t);
  ti_sorted : StronglySorted item_lt (elements (root t));
  ti_count : elements_in_tree t = Z.of_nat (length (elements (root t)));
  ti_bound : (elements_in_tree t < 2 ^ 32)%Z
}.

(** All of [lo] is below and all of [hi] above the key [k]. *)
Definition separates (lo : list (item K)) (k : K) (hi : list (item K)) : Prop :=
  (forall e, e ∈ lo -> compare (key e) k < 0)%Z /\ (forall e, e ∈ hi -> 0 < compare (key e) k)%Z.

Lemma separates_nil k : separates [] k [].
Proof. split; by intros ? ?%elem_of_nil. Qed.

Lemma sorted_lo lo e hi k : StronglySorted item_lt (lo ++ e :: hi) -> (compare (key e) k <= 0)%Z ->
  forall x, x ∈ lo -> (compare (key x) k < 0)%Z.
Proof.
  intros Hs He x Hx. pose proof (StronglySorted_app_1_elem_of _ _ _ x e Hs Hx ltac:(left)) as Hlt.
  by apply (cmp_lt_le compare _ (key e)).
Qed.

Lemma sorted_hi lo e hi k : StronglySorted item_lt (lo ++ e :: hi) -> (0 <= compare (key e) k)%Z ->
  forall x, x ∈ hi -> (0 < compare (key x) k)%Z.
Proof.
  intros Hs He x Hx. apply StronglySorted_app_1_r, StronglySorted_inv in Hs as [_ Hs].
  rewrite Forall_forall in Hs. specialize (Hs x Hx). apply cmp_anti.
  apply (cmp_le_lt compare _ (key e)); [by apply cmp_flip|done].
Qed.

(** ** The way to a key *)

Lemma descend_spec k t : forall p, StronglySorted item_lt (elements t) ->
  exists t' lo hi q, descend t k p = (t', q ++ p) /\ before (q ++ p) = before p ++ lo /\
    after (q ++ p) = hi ++ after p /\ elements t = lo ++ elements t' ++ hi /\ separates lo k hi /\
    match t' with
    | Null => search t k = None
    | Node _ _ e _ => search t k = Some e /\ compare (key e) k = 0%Z
    end.
Proof.
  induction t as [|c l IHl e r IHr]; intros p Hs; cbn [TreeOps.descend TreeOps.search elements].
  - exists Null, [], [], []. split_and!; try done; [by rewrite app_nil_r|apply separates_nil].
  - cbn [elements] in Hs. pose proof (StronglySorted_app_1_l _ _ _ Hs) as Hsl.
    pose proof (StronglySorted_app_1_r _ _ _ Hs) as [Hsr _]%StronglySorted_inv.
    destruct (compare (key e) k =? 0)%Z eqn:E0; [|destruct (compare (key e) k <? 0)%Z eqn:E1]; breflect.
    + exists (Node c l e r), [], [], []. cbn [elements]. split_and!; try done;
        [by rewrite app_nil_r|by rewrite app_nil_r|apply separates_nil].
    + destruct (IHr (mk_frame R c e l :: p) Hsr) as (t' & lo & hi & q & -> & Hb & Ha & He & [Hlo Hhi] & Ht).
      exists t', (elements l ++ e :: lo), hi, (q ++ [mk_frame R c e l]).
      rewrite <-!(app_assoc q). cbn [app]. split_and!; [done| | | | |done].
      * rewrite Hb. simpl. norm_app. done.
      * rewrite Ha. done.
      * rewrite He. norm_app. done.
      * split; [|done]. intros x [Hx|[->|Hx]%elem_of_cons]%elem_of_app; [|done|by apply Hlo].
        eapply sorted_lo; [exact Hs|lia|done].
    + destruct (IHl (mk_frame L c e r :: p) Hsl) as (t' & lo & hi & q & -> & Hb & Ha & He & [Hlo Hhi] & Ht).
      exists t', lo, (hi ++ e :: elements r), (q ++ [mk_frame L c e r]).
      rewrite <-!(app_assoc q). cbn [app]. split_and!; [done| | | | |done].
      * rewrite Hb. simpl. by rewrite app_nil_r.
      * rewrite Ha. simpl. norm_app. done.
      * rewrite He. norm_app. done.
      * split; [done|]. intros x [Hx|[->|Hx]%elem_of_cons]%elem_of_app; [by apply Hhi|lia|].
        eapply sorted_hi; [exact Hs|lia|done].
Qed.

Lemma descend_ctx k t : forall p n c t' p', rbt c n t -> ctx n p -> (c = RED -> top_black p) ->
  descend t k p = (t', p') ->
  exists c' n', rbt c' n' t' /\ ctx n' p' /\ (c' = RED -> top_black p').
Proof.
  induction t as [|ct l IHl e r IHr]; intros p n c t' p' Ht Hp Hc; cbn [TreeOps.descend].
  - intros [= <- <-]. by eexists _, _.
  - destruct (compare (key e) k =? 0)%Z; [intros [= <- <-]; by eexists _, _|].
    inversion Ht as [|n0 l0 e0 r0 Hl Hr|n0 cl cr l0 e0 r0 Hl Hr]; subst.
    + destruct (compare (key e) k <? 0)%Z; [eapply IHr|eapply IHl]; try done; constructor; auto.
    + destruct (compare (key e) k <? 0)%Z; [eapply IHr|eapply IHl]; try done; econstructor; eauto.
Qed.

(** The elements around the place of [k] in the tree. *)
Lemma descend_root k t m : rbt BLACK m t -> StronglySorted item_lt (elements t) ->
  exists t' p lo hi c n, descend t k [] = (t', p) /\ before p = lo /\ after p = hi /\
    elements t = lo ++ elements t' ++ hi /\ separates lo k hi /\
    rbt c n t' /\ ctx n p /\ (c = RED -> top_black p) /\
    match t' with
    | Null => search t k = None
    | Node _ _ e _ => search t k = Some e /\ compare (key e) k = 0%Z
    end.
Proof.
  intros Ht Hs. destruct (descend_spec k t [] Hs) as (t' & lo & hi & q & E & Hb & Ha & He & Hsep & Hse).
  rewrite app_nil_r in *. destruct (descend_ctx k t [] m BLACK t' q Ht (ctx_nil _) ltac:(done) E)
    as (c & n & ? & ? & ?).
  exists t', q, lo, hi, c, n. split_and!; try done; by rewrite ?Hb, ?Ha, ?app_nil_r.
Qed.

(** ** Search *)

Lemma search_in t k : StronglySorted item_lt (elements t) ->
  match search t k with
  | Some e => e ∈ elements t /\ compare (key e) k = 0%Z
  | None => forall e, e ∈ elements t -> compare (key e) k <> 0%Z
  end.
Proof.
  intros Hs. destruct (descend_spec k t [] Hs) as (t' & lo & hi & q & E & _ & _ & He & [Hlo Hhi] & Ht).
  destruct t' as [|c l e r].
  - rewrite Ht. intros x Hx. rewrite He in Hx. simpl in Hx.
    apply elem_of_app in Hx as [Hx%Hlo|Hx%Hhi]; lia.
  - destruct Ht as [-> Hc]. split; [|done]. rewrite He. simpl. rewrite !elem_of_app, elem_of_cons. tauto.
Qed.

(** Inserting between the smaller and the larger ones keeps the order. *)
Lemma sorted_insert lo e hi k : StronglySorted item_lt (lo ++ hi) -> separates lo k hi ->
  compare (key e) k = 0%Z -> StronglySorted item_lt (lo ++ e :: hi).
Proof.
  intros Hs [Hlo Hhi] He. apply StronglySorted_app in Hs as (H1 & H2 & H3).
  assert (He' : compare k (key e) = 0%Z) by (by apply cmp_zero_sym).
  assert (HL : forall x, x ∈ lo -> item_lt x e).
  { intros x Hx%Hlo. apply (cmp_lt_le compare _ k); [done|lia]. }
  assert (HH : forall x, x ∈ hi -> item_lt e x).
  { intros x Hx%Hhi. apply (cmp_le_lt compare _ k); [lia|by apply cmp_anti]. }
  apply StronglySorted_app. split_and!; [|done|].
  - intros x y Hx [->|Hy]%elem_of_cons; auto.
  - constructor; [done|]. by apply Forall_forall.
Qed.

Lemma sorted_replace lo e e' hi : StronglySorted item_lt (lo ++ e :: hi) -> key e' = key e ->
  StronglySorted item_lt (lo ++ e' :: hi).
Proof.
  intros Hs Hk. apply StronglySorted_app in Hs as (H1 & H2 & H3).
  apply StronglySorted_inv in H3 as [H3 H4]. apply StronglySorted_app. split_and!; [|done|].
  - intros x y Hx [->|Hy]%elem_of_cons.
    + unfold item_lt. rewrite Hk. apply H1; [done|left].
    + apply H1; [done|by right].
  - constructor; [done|]. rewrite Forall_forall in *. intros y Hy. unfold item_lt. rewrite Hk. by apply H4.
Qed.

Lemma sorted_remove lo mid hi : StronglySorted item_lt (lo ++ mid ++ hi) -> StronglySorted item_lt (lo ++ hi).
Proof.
  intros Hs. apply StronglySorted_app in Hs as (H1 & H2 & H3).
  apply StronglySorted_app in H3 as (H4 & H5 & H6). apply StronglySorted_app. split_and!; [|done|done].
  intros x y Hx Hy. apply H1; [done|]. apply elem_of_app. by right.
Qed.

(** ** Height *)

Fixpoint height (t : tree K) : nat :=
  match t with Null => 0 | Node _ l _ r => S (Nat.max (height l) (height r)) end.

Lemma rbt_height c n (t : tree K) : rbt c n t -> height t <= 2 * n + match c with RED => 1 | BLACK => 0 end.
Proof.
  induction 1 as [|n l e r Hl IHl Hr IHr|n cl cr l e r Hl IHl Hr IHr]; simpl; [lia|lia|].
  destruct cl, cr; lia.
Qed.

Lemma rbt_size c n (t : tree K) : rbt c n t -> 2 ^ n <= S (length (elements t)).
Proof.
  induction 1; simpl elements; rewrite ?length_app; simpl; lia.
Qed.

Lemma descend_length k t : forall p, length (descend t k p).2 <= length p + height t.
Proof.
  induction t as [|c l IHl e r IHr]; intros p; cbn [TreeOps.descend height]; simpl; [lia|].
  destruct (_ =? 0)%Z; simpl; [lia|]. destruct (_ <? 0)%Z; [rewrite IHr|rewrite IHl]; simpl; lia.
Qed.

Lemma inv_height t : tree_inv t -> (elements_in_tree t < 2 ^ 32 - 1)%Z -> height (root t) <= 62.
Proof.
  intros [[m Hm] _ Hc _] Hn. pose proof (rbt_height _ _ _ Hm) as Hh. pose proof (rbt_size _ _ _ Hm) as Hs.
  assert (m < 32); [|simpl in Hh; lia]. apply (Nat.pow_lt_mono_r_iff 2); [lia|].
  apply (Nat.le_lt_trans _ _ _ Hs). apply Nat2Z.inj_lt. rewrite Nat2Z.inj_pow. simpl Z.of_nat. lia.
Qed.

(** ** Insert *)

Definition no_dups (t : @TREE K) : bool := negb (Z.land (flag t) TREE_NO_DUPS =? 0)%Z.
Definition only_dups (t : @TREE K) : bool := negb (Z.land (flag t) TREE_ONLY_DUPS =? 0)%Z.

(** The new element would take the tree over its memory limit. *)
Definition over_limit (t : @TREE K) (key_size : Z) : bool :=
  negb (memory_limit t =? 0)%Z && negb (elements_in_tree t =? 0)%Z &&
  (memory_limit t <? u64 (allocated t + u32 (SIZEOF_TREE_ELEMENT + key_size + size_of_element t)))%Z.

(** What [tree_insert] does to the sequence of elements. *)
Definition insert_post (alloc : bool) (t : TREE) (k : K) (key_size : Z) (t' : TREE)
    (r : insert_result) : Prop :=
  match search (root t) k with
  | Some e =>
      if no_dups t then t' = t /\ r = Insert_null
      else exists lo hi, elements (root t) = lo ++ e :: hi /\
        elements (root t') = lo ++ incr_count e :: hi /\ r = Insert_element (incr_count e)
  | None =>
      if only_dups t then t' = t /\ r = Insert_unique
      else if over_limit t key_size then
        if alloc then elements (root t') = [mk_item k 1] /\ r = Insert_element (mk_item k 1)
        else elements (root t') = [] /\ r = Insert_null
      else if alloc then exists lo hi, elements (root t) = lo ++ hi /\ separates lo k hi /\
        elements (root t') = lo ++ mk_item k 1 :: hi /\ r = Insert_element (mk_item k 1)
      else elements (root t') = elements (root t) /\ r = Insert_null
  end.

Lemma tree_inv_root t r m : tree_inv t -> rbt BLACK m r -> StronglySorted item_lt (elements r) ->
  length (elements r) = length (elements (root t)) -> tree_inv (set_root t r).
Proof.
  intros [_ _ Hc Hb] Hr Hs Hl. constructor; simpl; eauto. by rewrite Hl.
Qed.

Lemma tree_inv_allocated t n : tree_inv t -> tree_inv (set_allocated t n).
Proof. intros []. by constructor. Qed.

(** The insert of a new element. *)
Lemma tree_insert_fresh alloc fe t k ks : tree_inv t -> (elements_in_tree t < 2 ^ 32 - 1)%Z ->
  search (root t) k = None -> only_dups t = false -> over_limit t ks = false ->
  forall fuel, exists t' r, tree_insert compare (S fuel) alloc fe t k ks = Some (t', r, []) /\
    tree_inv t' /\
    if alloc then exists lo hi, elements (root t) = lo ++ hi /\ separates lo k hi /\
        elements (root t') = lo ++ mk_item k 1 :: hi /\ r = Insert_element (mk_item k 1)
    else elements (root t') = elements (root t) /\ r = Insert_null.
Proof.
  intros Hinv Hn Hse Hod Hov fuel. pose proof Hinv as [[m Hm] Hs Hc Hb].
  destruct (descend_root k (root t) m Hm Hs)
    as (t0 & p & lo & hi & c & n & E & Eb & Ea & He & Hsep & Ht0 & Hp & _ & Hm').
  cbn [tree_insert]. rewrite E. destruct t0 as [|c0 l0 e0 r0]; [|by destruct Hm' as [? _]; congruence].
  unfold only_dups in Hod. rewrite Hod.
  change (memory_limit (set_allocated t ?n)) with (memory_limit t).
  change (elements_in_tree (set_allocated t ?n)) with (elements_in_tree t).
  change (allocated (set_allocated t ?n)) with n.
  unfold over_limit in Hov. rewrite Hov. destruct alloc; cbn [negb].
  - inversion Ht0; subst n. destruct (rb_insert_spec p (mk_item k 1) Hp) as (r & m' & -> & Hr & Her).
    cbn [mbind option_bind]. cbn [elements app] in He. rewrite Eb, Ea in Her.
    eexists _, _. split_and!; [done| |exists lo, hi; done].
    assert (Hlen : length (elements r) = S (length (elements (root t))))
      by (rewrite Her, He, !length_app; simpl; lia).
    constructor; simpl.
    + by exists m'.
    + rewrite Her. eapply sorted_insert; [by rewrite <-He|done|]. simpl. by apply cmp_refl.
    + rewrite Hlen, Hc, u32_small by lia. lia.
    + rewrite u32_small by lia. lia.
  - eexists _, _. split_and!; [done| |done|done]. by apply tree_inv_allocated.
Qed.

(** A key that is already there. *)
Lemma tree_insert_dup alloc fe t k ks e fuel : tree_inv t -> search (root t) k = Some e ->
  exists t' r, tree_insert compare (S fuel) alloc fe t k ks = Some (t', r, []) /\ tree_inv t' /\
    if no_dups t then t' = t /\ r = Insert_null
    else exists lo hi, elements (root t) = lo ++ e :: hi /\
      elements (root t') = lo ++ incr_count e :: hi /\ r = Insert_element (incr_count e).
Proof.
  intros Hinv Hse. pose proof Hinv as [[m Hm] Hs _ _].
  destruct (descend_root k (root t) m Hm Hs)
    as (t0 & p & lo & hi & c & n & E & Eb & Ea & He & Hsep & Ht0 & Hp & Hcp & Hm').
  cbn [tree_insert]. rewrite E. destruct t0 as [|c0 l0 e0 r0]; [congruence|].
  destruct Hm' as [Hm' _]. assert (e0 = e) as -> by congruence. unfold no_dups.
  destruct (negb _); [by eexists _, _|]. cbn [elements] in He.
  assert (He' : elements (root t) = (lo ++ elements l0) ++ e :: elements r0 ++ hi)
    by (rewrite He; norm_app; done).
  assert (Hpl : elements (plug (Node c0 l0 (incr_count e) r0) p) =
                (lo ++ elements l0) ++ incr_count e :: elements r0 ++ hi)
    by (rewrite elements_plug, Eb, Ea; cbn [elements]; norm_app; done).
  eexists _, _. split_and!; [done| |by exists (lo ++ elements l0), (elements r0 ++ hi)].
  assert (Hnode : rbt c n (Node c0 l0 (incr_count e) r0)) by (inversion Ht0; subst; econstructor; eauto).
  destruct (plug_rbt p n c _ Hnode Hp) as (c' & m' & Hr & H1 & H2); [auto|].
  assert (c' = BLACK) as ->.
  { destruct p; [|by apply H1]. rewrite H2 by done. simpl in Hcp. by destruct c; [destruct Hcp|]. }
  eapply tree_inv_root; [done|exact Hr|..]; rewrite Hpl.
  - rewrite He' in Hs. by eapply sorted_replace.
  - rewrite He', !length_app. done.
Qed.

(** A tree over its memory limit is emptied first. *)
Lemma tree_insert_reset alloc fe t k ks : tree_inv t -> search (root t) k = None ->
  only_dups t = false -> over_limit t ks = true ->
  exists t' r ev, tree_insert compare 2 alloc fe t k ks = Some (t', r, ev) /\ tree_inv t' /\
    if alloc then elements (root t') = [mk_item k 1] /\ r = Insert_element (mk_item k 1)
    else elements (root t') = [] /\ r = Insert_null.
Proof.
  intros Hinv Hse Hod Hov. pose proof Hinv as [[m Hm] Hs _ _].
  destruct (descend_root k (root t) m Hm Hs) as (t0 & p & lo & hi & c & n & E & _ & _ & _ & _ & _ & _ & _ & Hm').
  remember 1 as one eqn:Eone. cbn [tree_insert]. rewrite E.
  destruct t0 as [|c0 l0 e0 r0]; [|by destruct Hm' as [? _]; congruence].
  pose proof Hod as Hod'. unfold only_dups in Hod'. unfold over_limit in Hov.
  rewrite Hod'. change (memory_limit (set_allocated t ?n)) with (memory_limit t).
  change (elements_in_tree (set_allocated t ?n)) with (elements_in_tree t).
  change (allocated (set_allocated t ?n)) with n. rewrite Hov. unfold reset_tree, free_tree.
  set (t1 := set_allocated t _). destruct (if with_delete t1 then _ else _) as [err ev].
  set (t2 := set_allocated (set_elements_in_tree (set_root t1 Null) 0) 0).
  assert (Hinv2 : tree_inv t2) by (constructor; simpl; [by exists 0; constructor|constructor|done|done]).
  assert (Hov2 : over_limit t2 ks = false) by (unfold over_limit; simpl; by rewrite andb_false_r).
  destruct (tree_insert_fresh alloc fe t2 k ks Hinv2 ltac:(simpl; lia) eq_refl Hod Hov2 0)
    as (t' & r & Et & Hinv' & Hpost).
  subst one. rewrite Et. cbn [mbind option_bind]. eexists _, _, _. split_and!; [done|done|].
  destruct alloc; [|done]. destruct Hpost as (lo' & hi' & H1 & _ & H2 & H3).
  simpl in H1. symmetry in H1. apply app_nil in H1 as [-> ->]. done.
Qed.

Lemma tree_insert_only_dups alloc fe t k ks fuel : tree_inv t -> search (root t) k = None ->
  only_dups t = true -> tree_insert compare (S fuel) alloc fe t k ks = Some (t, Insert_unique, []).
Proof.
  intros [[m Hm] Hs _ _] Hse Hod.
  destruct (descend_root k (root t) m Hm Hs) as (t0 & p & lo & hi & c & n & E & _ & _ & _ & _ & _ & _ & _ & Hm').
  cbn [tree_insert]. rewrite E. destruct t0 as [|c0 l0 e0 r0]; [|by destruct Hm' as [? _]; congruence].
  unfold only_dups in Hod. by rewrite Hod.
Qed.

(** C29: [tree_insert] on a balanced ordered tree ends, stays inside the tree and
    yields a balanced ordered tree: a new key is put in its place with count 1,
    the count of an existing one is incremented (up to its maximum), and the
    flags TREE_NO_DUPS and TREE_ONLY_DUPS, the memory limit and a failing
    allocation have exactly the documented effect. *)
Theorem tree_insert_correct alloc free_element t k key_size :
  tree_inv t -> (elements_in_tree t < 2 ^ 32 - 1)%Z ->
  exists t' r ev, tree_insert compare 2 alloc free_element t k key_size = Some (t', r, ev) /\
    tree_inv t' /\ insert_post alloc t k key_size t' r.
Proof.
  intros Hinv Hn. unfold insert_post. destruct (search (root t) k) as [e|] eqn:Hse.
  - destruct (tree_insert_dup alloc free_element t k key_size e 1 Hinv Hse) as (t' & r & H).
    by exists t', r, [].
  - destruct (only_dups t) eqn:Hod.
    { exists t, Insert_unique, []. split_and!; [by apply tree_insert_only_dups|done..]. }
    destruct (over_limit t key_size) eqn:Hov; [by apply tree_insert_reset|].
    destruct (tree_insert_fresh alloc free_element t k key_size Hinv Hn Hse Hod Hov 1)
      as (t' & r & Et & Hinv' & Hpost).
    exists t', r, []. split_and!; [exact Et|done|]. by destruct alloc.
Qed.

(** ** Delete *)

Lemma leftmost_elements c l (e : item K) r : forall down nc ne nr down',
  before down = [] -> leftmost c l e r down = (nc, ne, nr, down') ->
  elements (plug (Node c l e r) down) = ne :: elements (plug nr down') /\ before down' = [].
Proof.
  revert c e r. induction l as [|c' l' IH e' r' _]; intros c e r down nc ne nr down' Hb; simpl.
  - intros [= <- <- <- <-]. rewrite !elements_plug, Hb. done.
  - intros H. apply IH in H; [|simpl; by rewrite Hb]. done.
Qed.

Lemma leftmost_ctx c l (e : item K) r p : forall down n nc ne nr down',
  rbt c n (Node c l e r) -> ctx n (down ++ p) -> (c = RED -> top_black (down ++ p)) ->
  leftmost c l e r down = (nc, ne, nr, down') ->
  exists m cn, rbt cn m nr /\
    (nc = BLACK /\ ctx (S m) (down' ++ p) \/
     nc = RED /\ cn = BLACK /\ ctx m (down' ++ p) /\ top_black (down' ++ p)).
Proof.
  revert c e r. induction l as [|c' l' IH e' r' _]; intros c e r down n nc ne nr down' Ht Hp Hc; simpl.
  - intros [= <- <- <- <-]. inversion Ht as [|n0 l0 e0 r0 Hl Hr|n0 cl cr l0 e0 r0 Hl Hr]; subst.
    + exists n, BLACK. split; [done|]. right. auto.
    + inversion Hl; subst. exists 0, cr. split; [done|]. by left.
  - intros H. inversion Ht as [|n0 l0 e0 r0 Hl Hr|n0 cl cr l0 e0 r0 Hl Hr]; subst.
    + pose proof (rbt_colour _ _ _ Hl) as Hcl. simpl in Hcl. subst c'.
      eapply (IH _ _ _ (mk_frame L RED e r :: down) n); [done| |done|exact H].
      simpl. constructor; auto.
    + pose proof (rbt_colour _ _ _ Hl) as Hcl. simpl in Hcl. subst cl.
      eapply (IH _ _ _ (mk_frame L BLACK e r :: down) n0); [done| |done|exact H].
      simpl. econstructor; eauto.
Qed.

(** What is left after unlinking: short of one black node if that was removed. *)
Lemma unlink_element_spec c l (e : item K) r p n : rbt c n (Node c l e r) -> ctx n p -> (c = RED -> top_black p) ->
  exists x q rc, unlink_element c l r p = (x, q, rc) /\
    elements (plug x q) = before p ++ (elements l ++ elements r) ++ after p /\
    exists m cx, rbt cx m x /\
      (rc = BLACK /\ ctx (S m) q \/ rc = RED /\ cx = BLACK /\ ctx m q /\ top_black q).
Proof.
  intros Ht Hp Hc.
  assert (Hone : forall x : tree K, (exists cx, rbt cx (match c with RED => n | BLACK => pred n end) x /\
      (c = RED -> cx = BLACK)) -> exists m cx, rbt cx m x /\
      (c = BLACK /\ ctx (S m) p \/ c = RED /\ cx = BLACK /\ ctx m p /\ top_black p)).
  { intros x (cx & Hx & Hcx). destruct c; [exists n, cx|exists (pred n), cx]; (split; [done|]); [right; auto|left].
    split; [done|]. inversion Ht; subst. done. }
  assert (Hchild : (exists cx, rbt cx (match c with RED => n | BLACK => pred n end) l /\ (c = RED -> cx = BLACK)) /\
    (exists cx, rbt cx (match c with RED => n | BLACK => pred n end) r /\ (c = RED -> cx = BLACK))).
  { inversion Ht; subst; split; eexists; (split; [eassumption|done]). }
  destruct Hchild as [Hl Hr]. unfold unlink_element.
  destruct l as [|cl ll el rl]; [|destruct r as [|rc0 rl0 re0 rr0]].
  - eexists _, _, _. split_and!; [done|by rewrite elements_plug|auto].
  - eexists _, _, _. split_and!; [done|by rewrite elements_plug, app_nil_r|auto].
  - set (l := Node cl ll el rl) in *.
    destruct (leftmost rc0 rl0 re0 rr0 []) as [[[nc ne] nr] down] eqn:El.
    destruct (leftmost_elements _ _ _ _ [] _ _ _ _ eq_refl El) as [He Hb]. cbn [plug] in He.
    eexists _, _, _. split_and!; [done| |].
    + rewrite elements_plug in He. rewrite elements_plug, He, Hb. cbn [app].
      assert (Hba : forall f q, before (down ++ f :: q) =
                before (f :: q) /\ after (down ++ f :: q) = after down ++ after (f :: q)).
      { intros f q. clear -Hb. induction down as [|g down IH]; [done|]. cbn [app before after].
        cbn [before] in Hb. apply app_nil in Hb as [Hb1 Hb2]. destruct (IH Hb1) as [-> ->].
        rewrite Hb2, app_nil_r. split; [done|]. norm_app. done. }
      destruct (Hba (mk_frame R c ne l) p) as [-> ->]. simpl. norm_app. done.
    + assert (Hframe : exists k c0, rbt c0 k (Node rc0 rl0 re0 rr0) /\ c0 = rc0 /\
                ctx k (mk_frame R c ne l :: p) /\ (c0 = RED -> c = BLACK)).
      { inversion Ht as [|n0 l1 e1 r1 Hl1 Hr1|n0 cl1 cr1 l1 e1 r1 Hl1 Hr1]; subst.
        - exists n, BLACK. pose proof (rbt_colour _ _ _ Hr1). split_and!; try done. constructor; auto.
        - exists n0, cr1. pose proof (rbt_colour _ _ _ Hr1). split_and!; try done. econstructor; eauto. }
      destruct Hframe as (k & c0 & Hk & -> & Hctx & Hcol).
      eapply (leftmost_ctx rc0 rl0 re0 rr0 (mk_frame R c ne l :: p) [] k); [done|done| |exact El].
      intros Hrc. simpl. auto.
Qed.

(** C30: [tree_delete] on a balanced ordered tree ends, stays inside the tree and
    removes exactly the element with the given key, hands it to the free function
    and frees its memory, or reports that there is none; the tree stays balanced and ordered. *)
Theorem tree_delete_correct t k key_size : tree_inv t -> with_delete t = true ->
  exists t' r ev, tree_delete compare t k key_size = Some (t', r, ev) /\ tree_inv t' /\
    match search (root t) k with
    | None => t' = t /\ r = 1%Z /\ ev = []
    | Some e => r = 0%Z /\ ev = (if has_free t then [FreeFree (key e)] else []) ++ [MyFree e] /\
        exists lo hi, elements (root t) = lo ++ e :: hi /\ elements (root t') = lo ++ hi
    end.
Proof.
  intros Hinv Hwd. pose proof Hinv as [[m Hm] Hs Hc Hb]. unfold tree_delete. rewrite Hwd. cbn [negb].
  destruct (descend_root k (root t) m Hm Hs)
    as (t0 & p & lo & hi & c & n & E & Eb & Ea & He & Hsep & Ht0 & Hp & Hcp & Hm').
  rewrite E. destruct t0 as [|c0 l e r].
  { rewrite Hm'. by eexists _, _, _. }
  destruct Hm' as [-> _]. pose proof (rbt_colour _ _ _ Ht0) as Hcol. simpl in Hcol. subst c0.
  destruct (unlink_element_spec c l e r p n Ht0 Hp Hcp) as (x & q & rc & -> & Hq & k0 & cx & Hx & Hrc).
  rewrite Eb, Ea in Hq. cbn [elements] in He.
  assert (Hnew : exists r', (if decide (rc = BLACK) then rb_delete_fixup q x else Some (plug x q)) = Some r' /\
            (exists m', rbt BLACK m' r') /\ elements r' = elements (plug x q)).
  { destruct Hrc as [[-> Hq']|(-> & -> & Hq' & Htop)]; [rewrite decide_True by done|rewrite decide_False by done].
    - destruct (rb_delete_fixup_loop_ok (length q + 2) x q k0 cx Hx Hq' ltac:(lia)) as (r' & m' & ? & ? & ?).
      exists r'. eauto.
    - destruct (plug_rbt q k0 BLACK x Hx Hq' ltac:(done)) as (c' & m' & Hr & H1 & _).
      exists (plug x q). rewrite H1 in Hr by (by destruct q). eauto. }
  destruct Hnew as (r' & -> & [m' Hr'] & Her'). cbn [mbind option_bind]. rewrite Hq in Her'.
  assert (He1 : elements (root t) = (lo ++ elements l) ++ e :: elements r ++ hi) by (rewrite He; norm_app; done).
  assert (He2 : elements r' = (lo ++ elements l) ++ elements r ++ hi) by (rewrite Her'; norm_app; done).
  eexists _, _, _. split_and!; [done| |done|done|by exists (lo ++ elements l), (elements r ++ hi)].
  assert (Hlen : length (elements (root t)) = S (length (elements r')))
    by (rewrite He1, He2, !length_app; simpl; rewrite length_app; lia).
  constructor; simpl.
  - by exists m'.
  - rewrite He2. rewrite He1 in Hs. by apply (sorted_remove _ [e]) in Hs.
  - rewrite Hc, Hlen, u32_small by lia. lia.
  - rewrite u32_small by lia. lia.
Qed.

(** [tree_search] finds an element with the given key exactly when there is
    one. *)
Theorem tree_search_correct t k : tree_inv t ->
  match tree_search compare t k with
  | Some e => e ∈ elements (root t) /\ compare (key e) k = 0%Z
  | None => forall e, e ∈ elements (root t) -> compare (key e) k <> 0%Z
  end.
Proof. intros [_ Hs _ _]. by apply search_in. Qed.

(** The way to the element that takes the place of a removed one. *)
Lemma leftmost_length c l (e : item K) r : forall down,
  length (leftmost c l e r down).2 <= length down + Nat.max (height l) (height r).
Proof.
  revert c e r. induction l as [|c' l' IH e' r' _]; intros c e r down; simpl; [lia|].
  rewrite IH. simpl. lia.
Qed.

Lemma descend_height k t : forall p, length (descend t k p).2 + height (descend t k p).1 <= length p + height t.
Proof.
  induction t as [|c l IHl e r IHr]; intros p; cbn [TreeOps.descend]; simpl; [lia|].
  destruct (_ =? 0)%Z; simpl; [lia|]. destruct (_ <? 0)%Z; [rewrite IHr|rewrite IHl]; simpl; lia.
Qed.

(** the array [tree->parents] is large enough: with fewer than 2^32-1
    elements (more do not fit [elements_in_tree]) the way of [tree_insert] and
    [tree_delete] into the tree has at most 62 steps, so that its end and the
    one further entry [rb_delete_fixup] may add are inside the array. *)
Theorem parents_fit t k : tree_inv t -> (elements_in_tree t < 2 ^ 32 - 1)%Z ->
  length (descend (root t) k []).2 + 1 < MAX_TREE_HEIGHT /\
  match descend (root t) k [] with
  | (Node c l e r, p) => length (unlink_element c l r p).1.2 + 1 < MAX_TREE_HEIGHT
  | _ => True
  end.
Proof.
  intros Hinv Hn. pose proof (inv_height t Hinv Hn) as Hh. pose proof (descend_height k (root t) []) as Hd.
  unfold MAX_TREE_HEIGHT. destruct (descend (root t) k []) as [[|c l e r] p]; simpl in Hd |- *; [lia|].
  split; [lia|]. unfold unlink_element. destruct l as [|cl ll el rl]; simpl; [lia|].
  destruct r as [|rc rl0 re rr]; simpl; [lia|].
  pose proof (leftmost_length rc rl0 re rr []) as Hl.
  destruct (leftmost rc rl0 re rr []) as [[[nc ne] nr] down]. simpl in Hl, Hd |- *.
  rewrite length_app. simpl. lia.
Qed.

End proofs.

(** ** An example tree *)

Definition example_tree : @TREE Z :=
  mk_TREE (Node BLACK (Node BLACK Null (mk_item 1 1) Null) (mk_item 2 5)
             (Node BLACK Null (mk_item 3 1) (Node RED Null (mk_item 4 2) Null)))%Z
    4 8 0 0 true true true 0.

Lemma example_tree_inv : tree_inv Z.sub example_tree.
Proof.
  constructor; [exists 2; repeat econstructor| |done|simpl; lia].
  repeat constructor; unfold item_lt; simpl; lia.
Qed.

Lemma tree_insert_correct_witness :
  exists t' r ev, tree_insert Z.sub 2 true (fun _ => 0%Z) example_tree 7%Z 8 = Some (t', r, ev) /\
    tree_inv Z.sub t' /\ insert_post Z.sub true example_tree 7%Z 8 t' r.
Proof. apply tree_insert_correct; [apply _|apply example_tree_inv|simpl; lia]. Defined.

Lemma tree_delete_correct_witness :
  exists t' r ev, tree_delete Z.sub example_tree 2%Z 8 = Some (t', r, ev) /\ tree_inv Z.sub t' /\
    match search Z.sub (root example_tree) 2%Z with
    | None => t' = example_tree /\ r = 1%Z /\ ev = []
    | Some e => r = 0%Z /\ ev = (if has_free example_tree then [FreeFree (key e)] else []) ++ [MyFree e] /\
        exists lo hi, elements (root example_tree) = lo ++ e :: hi /\ elements (root t') = lo ++ hi
    end.
Proof. apply tree_delete_correct; [apply _|apply example_tree_inv|reflexivity]. Defined.

Lemma tree_search_correct_witness :
  match tree_search Z.sub example_tree 3%Z with
  | Some e => e ∈ elements (root example_tree) /\ (key e - 3)%Z = 0%Z
  | None => forall e, e ∈ elements (root example_tree) -> (key e - 3)%Z <> 0%Z
  end.
Proof. apply (tree_search_correct Z.sub example_tree 3%Z). apply example_tree_inv. Defined.

Lemma parents_fit_witness :
  length (descend Z.sub (root example_tree) 2%Z []).2 + 1 < MAX_TREE_HEIGHT /\
  match descend Z.sub (root example_tree) 2%Z [] with
  | (Node c l e r, p) => length (unlink_element c l r p).1.2 + 1 < MAX_TREE_HEIGHT
  | _ => True
  end.
Proof. apply (parents_fit Z.sub example_tree 2%Z); [apply example_tree_inv|simpl; lia]. Defined.

End TreeProofs.
