(* ===== verification/TreeScan.v ===== *)
(** * Searching, scanning and freeing balanced trees

    Keyed searches with the read modes of the handler interface, moving to the
    neighbouring element, walking over all elements and freeing them
    (mysys/tree.c), each against its meaning on the ordered sequence of
    elements. *)

From S2P Require Import Prelude RBTree TreeOps TreeProofs.
Import RBTree TreeOps TreeProofs.

Module TreeScan.

Section scan.
Context {K : Type}.
Implicit Types (t : tree K) (p : @position K).

(** The elements in the order in which one meets them going towards side [s]. *)
Definition els (s : side) t : list (item K) :=
  match s with R => elements t | L => rev (elements t) end.

Lemma els_node s c l e r :
  els s (Node c l e r) =
    els s (child (other_side s) (Node c l e r)) ++ e :: els s (child s (Node c l e r)).
Proof. destruct s; simpl; [|done]. rewrite rev_app_distr. simpl. by rewrite <-app_assoc. Qed.

(** ** Positions *)

(** The elements further towards side [s], above and beyond a position. *)
Fixpoint rest_up (s : side) (from : side) p : list (item K) :=
  match p with
  | [] => []
  | (y, from') :: up =>
      match from, s with
      | L, L | R, R => rest_up s from' up
      | _, _ => match y with Null => [] | Node _ _ e _ => [e] end ++ els s (child s y) ++ rest_up s from' up
      end
  end.

Definition rest (s : side) p : list (item K) :=
  match p with [] => [] | (x, from) :: up => els s (child s x) ++ rest_up s from up end.

(** A path of elements of [rt], from some element up to the root. *)
Fixpoint path_of (rt : tree K) p : Prop :=
  match p with
  | [] => False
  | (x, s) :: up =>
      x <> Null /\
      match up with
      | [] => x = rt
      | (y, _) :: _ => x = child s y /\ path_of rt up
      end
  end.

Lemma path_item rt p : path_of rt p -> exists e, item_of p = Some e.
Proof. destruct p as [|[[|c l e r] s] up]; [done|by intros [? _]|]. by exists e. Qed.

(** A position splits the tree's sequence in two. *)
Lemma path_elements s rt p : path_of rt p -> exists e, item_of p = Some e /\
  els s rt = rev (rest (other_side s) p) ++ e :: rest s p.
Proof.
  assert (Hgen : forall p x f, path_of rt ((x, f) :: p) ->
    els s rt = rev (rest_up (other_side s) f p) ++ els s x ++ rest_up s f p).
  { clear p. intros p. induction p as [|[y f'] up IH]; intros x f Hp; destruct Hp as [Hx Hp].
    - subst. simpl. by rewrite app_nil_r.
    - destruct Hp as [-> Hp]. rewrite (IH y f' Hp). destruct y as [|c l e r]; [by destruct Hp|].
      rewrite els_node. assert (Hrev : forall t, rev (els (other_side s) t) = els s t)
        by (intros t; destruct s; simpl; [done|by rewrite rev_involutive]).
      destruct f, s; simpl; rewrite ?app_nil_r, ?rev_app_distr; simpl; rewrite ?rev_app_distr; simpl;
        rewrite ?rev_involutive; norm_app; rewrite ?app_nil_r; done. }
  intros Hp. destruct p as [|[[|c l e r] f] up]; [done|by destruct Hp|]. exists e. split; [done|].
  rewrite (Hgen _ _ _ Hp), els_node. unfold rest. rewrite rev_app_distr.
  assert (Hrev : forall t, rev (els (other_side s) t) = els s t)
    by (intros t; destruct s; simpl; [done|by rewrite rev_involutive]).
  rewrite Hrev. norm_app. done.
Qed.

(** ** Moving *)

Lemma go_down_spec s rt y : forall f up,
  path_of rt ((y, f) :: up) ->
  let p := go_down (other_side s) y f up in
  path_of rt p /\ exists e es, els s y = e :: es /\ item_of p = Some e /\ rest s p = es ++ rest_up s f up.
Proof.
  assert (Hend : forall c l e r f up, child (other_side s) (Node c l e r) = Null ->
    exists e' es, els s (Node c l e r) = e' :: es /\
      item_of ((Node c l e r, f) :: up) = Some e' /\
      rest s ((Node c l e r, f) :: up) = es ++ rest_up s f up).
  { intros c l e r f up Hc. rewrite els_node, Hc. exists e, (els s (child s (Node c l e r))).
    split_and!; [by destruct s|done|done]. }
  induction y as [|c l IHl e r IHr]; intros f up Hp; [by destruct Hp|]. cbn [go_down].
  assert (Hgo : forall y', y' = child (other_side s) (Node c l e r) ->
    (forall f up, path_of rt ((y', f) :: up) ->
      path_of rt (go_down (other_side s) y' f up) /\ exists e es, els s y' = e :: es /\
        item_of (go_down (other_side s) y' f up) = Some e /\
        rest s (go_down (other_side s) y' f up) = es ++ rest_up s f up) ->
    path_of rt (go_down (other_side s) y' (other_side s) ((Node c l e r, f) :: up)) /\
    exists e' es, els s (Node c l e r) = e' :: es /\
      item_of (go_down (other_side s) y' (other_side s) ((Node c l e r, f) :: up)) = Some e' /\
      rest s (go_down (other_side s) y' (other_side s) ((Node c l e r, f) :: up)) = es ++ rest_up s f up).
  { intros y' Hy' IH. destruct y' as [|c' l' e' r'].
    - cbn [go_down]. split; [done|]. by apply Hend.
    - destruct (IH (other_side s) ((Node c l e r, f) :: up)) as (H1 & e0 & es & H2 & H3 & H4).
      { split; [done|]. split; [done|]. exact Hp. }
      split; [done|]. rewrite els_node, <-Hy', H2.
      eexists e0, (es ++ e :: els s (child s (Node c l e r))). split_and!; [by norm_app|done|].
      rewrite H4. destruct s; norm_app; simpl; norm_app; done. }
  destruct s; cbn [other_side] in *; apply Hgo; try done; auto.
Qed.

Lemma go_up_spec s rt up : forall f, (up = [] \/ path_of rt up) ->
  match rest_up s f up with
  | [] => go_up s f up = []
  | e :: es => path_of rt (go_up s f up) /\ item_of (go_up s f up) = Some e /\ rest s (go_up s f up) = es
  end.
Proof.
  induction up as [|[y f'] up IH]; intros f Hp; [done|]. destruct Hp as [?|Hp]; [done|].
  assert (Hup : up = [] \/ path_of rt up).
  { destruct Hp as [_ Hp]. destruct up as [|[z f''] up]; [by left|right]. by destruct Hp. }
  assert (Hy : exists c l e r, y = Node c l e r) by (destruct y; [by destruct Hp|eauto]).
  destruct Hy as (c & l & e & r & ->). destruct f, s; simpl; try (by apply IH); done.
Qed.

Lemma search_next_spec s rt p : path_of rt p ->
  match rest s p with
  | [] => tree_search_next s p = []
  | e :: es => path_of rt (tree_search_next s p) /\
      item_of (tree_search_next s p) = Some e /\ rest s (tree_search_next s p) = es
  end.
Proof.
  intros Hp. destruct p as [|[x f] up]; [done|]. cbn [tree_search_next rest].
  assert (Hup : up = [] \/ path_of rt up).
  { destruct Hp as [_ Hp]. destruct up as [|[z f''] up]; [by left|right]. by destruct Hp. }
  destruct (child s x) as [|c l e r] eqn:Ec.
  - replace (els s Null) with ([] : list (item K)) by (by destruct s). by apply go_up_spec.
  - destruct (go_down_spec s rt (Node c l e r) s ((x, f) :: up)) as (H1 & e' & es & H2 & H3 & H4).
    { split; [done|]. split; [by rewrite Ec|done]. }
    rewrite H2. cbn [app]. split_and!; [done|done|]. rewrite H4. by destruct s.
Qed.

(** [tree_search_next] moves to the neighbouring element: from any element
    of the tree it goes to the next one on the side asked for, and reports the
    end of the tree exactly at its last element. *)
Theorem tree_search_next_correct s (t : TREE) p e : path_of (root t) p -> item_of p = Some e ->
  let q := tree_search_next s p in
  exists lo hi, els s (root t) = lo ++ e :: hi /\
    match hi with
    | [] => q = []
    | e' :: _ => path_of (root t) q /\ item_of q = Some e' /\ rest s q = tail hi
    end.
Proof.
  intros Hp He. destruct (path_elements s (root t) p Hp) as (e0 & He0 & Hels).
  assert (e0 = e) as -> by congruence. eexists _, (rest s p). split; [exact Hels|].
  pose proof (search_next_spec s (root t) p Hp) as H. by destruct (rest s p).
Qed.

(** A full scan: from the edge on, [n] steps of [tree_search_next]. *)
Fixpoint scan (s : side) (n : nat) p : list (item K) :=
  match n, item_of p with
  | S n, Some e => e :: scan s n (tree_search_next s p)
  | _, _ => []
  end.

Lemma scan_spec s rt n : forall p e, path_of rt p -> item_of p = Some e -> length (rest s p) < n ->
  scan s n p = e :: rest s p.
Proof.
  induction n as [|n IH]; intros p e Hp He Hn; [lia|]. cbn [scan]. rewrite He. f_equal.
  pose proof (search_next_spec s rt p Hp) as H. destruct (rest s p) as [|e' es]; simpl in Hn.
  - rewrite H. by destruct n.
  - destruct H as (H1 & H2 & H3). rewrite (IH _ e'); [by rewrite H3|done|done|]. rewrite H3. lia.
Qed.

(** C38: a scan that starts at one edge of the tree with [tree_search_edge] and
    goes on with [tree_search_next] visits every element once, in order, and
    then ends. *)
Theorem tree_scan_correct s (t : @TREE K) n : length (elements (root t)) < n ->
  scan s n (tree_search_edge t (other_side s)) = els s (root t).
Proof.
  intros Hn. unfold tree_search_edge. destruct (root t) as [|c l e r] eqn:E.
  - destruct s; by destruct n.
  - destruct (go_down_spec s (root t) (Node c l e r) L []) as (H1 & e' & es & H2 & H3 & H4).
    { by rewrite E. }
    rewrite E in H1. rewrite app_nil_r in H4. rewrite (scan_spec s _ n _ e' H1 H3); [by rewrite H2, H4|].
    rewrite H4. apply (f_equal length) in H2. simpl in H2.
    assert (length (els s (Node c l e r)) = length (elements (Node c l e r)))
      by (destruct s; [apply length_rev|done]). lia.
Qed.

(** ** Walking *)

Section walk.
Context {S : Type} (action : K -> Z -> S -> Z * S).

(** The action on a sequence of elements, up to the first error. *)
Fixpoint walk_list (es : list (item K)) (argument : S) : Z * S :=
  match es with
  | [] => (0%Z, argument)
  | e :: es =>
      let '(error, argument) := action (key e) (count e) argument in
      if (error =? 0)%Z then walk_list es argument else (error, argument)
  end.

Lemma walk_list_app a b arg : walk_list (a ++ b) arg =
  let '(error, arg) := walk_list a arg in
  if (error =? 0)%Z then walk_list b arg else (error, arg).
Proof.
  revert arg. induction a as [|e a IH]; intros arg; simpl; [done|].
  destruct (action _ _ _) as [error arg']. destruct (error =? 0)%Z eqn:E; [apply IH|].
  simpl. by rewrite E.
Qed.

(** [tree_walk] calls the action for every element in the order asked for,
    with its key and count, and stops at the first error, which it returns. *)
Theorem tree_walk_correct (t : TREE) arg visit :
  tree_walk action t arg visit =
    walk_list (els (match visit with left_root_right => R | right_root_left => L end) (root t)) arg.
Proof.
  destruct visit; simpl.
  - revert arg. induction (root t) as [|c l IHl e r IHr]; intros arg; simpl; [done|].
    rewrite walk_list_app, IHl. destruct (walk_list (elements l) arg) as [error arg'].
    destruct (error =? 0)%Z; [|done]. simpl. destruct (action _ _ _) as [error' arg''].
    destruct (error' =? 0)%Z; [apply IHr|done].
  - revert arg. induction (root t) as [|c l IHl e r IHr]; intros arg; simpl; [done|].
    rewrite rev_app_distr. simpl. rewrite <-app_assoc. rewrite walk_list_app, IHr.
    destruct (walk_list (rev (elements r)) arg) as [error arg'].
    destruct (error =? 0)%Z; [|done]. simpl. destruct (action _ _ _) as [error' arg''].
    destruct (error' =? 0)%Z; [apply IHl|done].
Qed.
End walk.

End scan.

(** ** Searching with a read mode *)

Section key.
Context {K : Type} (compare : K -> K -> Z) `{!CmpOrder compare}.
Implicit Types (p : @position K).

Notation search := (search compare).
Notation item_lt := (item_lt compare).

Lemma find_skip (P : item K -> bool) a b : (forall x, x ∈ a -> P x = false) ->
  List.find P (a ++ b) = List.find P b.
Proof.
  induction a as [|x a IH]; intros H; simpl; [done|]. rewrite (H x) by left.
  apply IH. intros y Hy. apply H. by right.
Qed.

Lemma find_none (P : item K -> bool) a : (forall x, x ∈ a -> P x = false) -> List.find P a = None.
Proof. intros H. rewrite <-(app_nil_r a), find_skip by done. done. Qed.

Lemma find_app (P : item K -> bool) a b :
  List.find P (a ++ b) = match List.find P a with Some x => Some x | None => List.find P b end.
Proof. induction a as [|x a IH]; simpl; [done|]. by destruct (P x). Qed.

(** [o] is a position of [rt] at the element [e]. *)
Definition at_item (rt : tree K) (o : option position) (e : item K) : Prop :=
  exists q, o = Some q /\ path_of rt q /\ item_of q = Some e.

(** [o] is at the element given, or unchanged from [o0]. *)
Definition at_or (rt : tree K) (o : option position) (e : option (item K)) (o0 : option position) : Prop :=
  match e with Some e => at_item rt o e | None => o = o0 end.

(** The comparison the search goes by. *)
Definition cmp_as (c : Z) (k : K) (e : item K) : Z :=
  let cmp := compare (key e) k in if (cmp =? 0)%Z then c else cmp.

Definition goes_left (c : Z) (k : K) (e : item K) : bool := negb (cmp_as c k e <? 0)%Z.

Section loop.
Context (rt : tree K) (k : K) (flag : ha_rkey_function) (rem : bool) (c : Z).
Context (Hflag : equal_as flag = Some (rem, c)).

Lemma goes_left_lo lo e hi x : StronglySorted item_lt (lo ++ e :: hi) -> goes_left c k e = false ->
  x ∈ lo -> goes_left c k x = false.
Proof.
  intros Hs He Hx. unfold goes_left, cmp_as in *. breflect.
  assert (compare (key e) k <= 0)%Z by (destruct (Z.eqb_spec (compare (key e) k) 0); lia).
  pose proof (sorted_lo compare lo e hi k Hs H x Hx) as Hlt.
  apply negb_false_iff, Z.ltb_lt. destruct (Z.eqb_spec (compare (key x) k) 0); lia.
Qed.

Lemma goes_left_hi lo e hi x : StronglySorted item_lt (lo ++ e :: hi) -> goes_left c k e = true ->
  x ∈ hi -> goes_left c k x = true.
Proof.
  intros Hs He Hx. unfold goes_left, cmp_as in *. breflect.
  assert (0 <= compare (key e) k)%Z by (destruct (Z.eqb_spec (compare (key e) k) 0); lia).
  pose proof (sorted_hi compare lo e hi k Hs H x Hx) as Hlt.
  apply negb_true_iff, Z.ltb_ge. destruct (Z.eqb_spec (compare (key x) k) 0); lia.
Qed.

Lemma search_key_loop_spec t : forall s up ll lr le,
  StronglySorted item_lt (elements t) -> t = Null \/ path_of rt ((t, s) :: up) ->
  exists ll' lr' le', search_key_loop compare t s up k flag ll lr le = Some (ll', lr', le') /\
    at_or rt ll' (List.find (goes_left c k) (elements t)) ll /\
    at_or rt lr' (List.find (fun e => negb (goes_left c k e)) (rev (elements t))) lr /\
    at_or rt le' (if rem then search t k else None) le.
Proof.
  induction t as [|col l IHl e r IHr]; intros s up ll lr le Hs Hp.
  { exists ll, lr, le. by destruct rem. }
  destruct Hp as [?|Hp]; [done|]. cbn [search_key_loop TreeOps.search elements] in *.
  set (here := (Node col l e r, s) :: up) in *.
  assert (Hhere : at_item rt (Some here) e) by (by exists here).
  pose proof (StronglySorted_app_1_l _ _ _ Hs) as Hsl.
  pose proof (StronglySorted_app_1_r _ _ _ Hs) as [Hsr _]%StronglySorted_inv.
  assert (Hl : l = Null \/ path_of rt ((l, L) :: here)) by (destruct l; [by left|right]; done).
  assert (Hr : r = Null \/ path_of rt ((r, R) :: here)) by (destruct r; [by left|right]; done).
  assert (Hle1 : exists le1 : option position,
    le1 = if (compare (key e) k =? 0)%Z && rem then Some here else le) by eauto.
  destruct Hle1 as [le1 Hle1].
  match goal with |- context [mbind _ ?X] => assert (HX : X = Some (cmp_as c k e, le1)) end.
  { rewrite Hflag, Hle1. unfold cmp_as. destruct (_ =? 0)%Z; [destruct rem|]; done. }
  rewrite HX. cbn [mbind option_bind].
  rewrite rev_app_distr. cbn [rev]. rewrite <-app_assoc. cbn [app].
  destruct (cmp_as c k e <? 0)%Z eqn:Ec.
  - assert (He : goes_left c k e = false) by (unfold goes_left; by rewrite Ec).
    destruct (IHr R here ll (Some here) le1 Hsr Hr) as (ll' & lr' & le' & -> & H1 & H2 & H3).
    exists ll', lr', le'. split_and!; [done|..].
    + rewrite find_skip by (intros; by eapply goes_left_lo). cbn [List.find]. by rewrite He.
    + rewrite find_app. destruct (List.find _ (rev (elements r))); [done|].
      cbn [List.find]. rewrite He. cbn [negb]. simpl in H2. by subst.
    + destruct rem; [|by rewrite andb_false_r in Hle1; subst].
      destruct (compare (key e) k =? 0)%Z eqn:E0; simpl in Hle1; breflect; subst.
      * pose proof (search_in compare r k Hsr) as Hse. destruct (search r k) as [e'|]; [|by simpl in H3; subst].
        destruct Hse as [Hin Hz]. pose proof (sorted_hi compare _ e _ k Hs ltac:(lia) e' Hin). lia.
      * unfold cmp_as in Ec. rewrite (proj2 (Z.eqb_neq _ _) E0) in Ec. by rewrite (proj2 (Z.ltb_lt _ _) Ec).
  - assert (He : goes_left c k e = true) by (unfold goes_left; by rewrite Ec).
    destruct (IHl L here (Some here) lr le1 Hsl Hl) as (ll' & lr' & le' & -> & H1 & H2 & H3).
    exists ll', lr', le'. split_and!; [done|..].
    + rewrite find_app. destruct (List.find _ (elements l)); [done|].
      cbn [List.find]. rewrite He. simpl in H1. by subst.
    + rewrite find_skip.
      * cbn [List.find]. rewrite He. cbn [negb]. done.
      * intros x Hx. apply list_elem_of_In, in_rev, list_elem_of_In in Hx.
        by rewrite (goes_left_hi _ _ _ _ Hs He Hx).
    + destruct rem; [|by rewrite andb_false_r in Hle1; subst].
      destruct (compare (key e) k =? 0)%Z eqn:E0; simpl in Hle1; breflect; subst.
      * pose proof (search_in compare l k Hsl) as Hse. destruct (search l k) as [e'|]; [|by simpl in H3; subst].
        destruct Hse as [Hin Hz]. pose proof (sorted_lo compare _ e _ k Hs ltac:(lia) e' Hin). lia.
      * unfold cmp_as in Ec. rewrite (proj2 (Z.eqb_neq _ _) E0) in Ec. by rewrite (proj2 (Z.ltb_ge _ _) Ec).
Qed.

End loop.

(** The elements below, equal to and above a key. *)
Lemma split_at_key t k : StronglySorted item_lt (elements t) ->
  exists lo hi, separates compare lo k hi /\
    match search t k with
    | Some e => elements t = lo ++ e :: hi /\ compare (key e) k = 0%Z
    | None => elements t = lo ++ hi
    end.
Proof.
  intros Hs. destruct (descend_spec compare k t [] Hs) as (t' & lo & hi & q & _ & _ & _ & He & [Hlo Hhi] & Ht).
  destruct t' as [|c l e r]; [by rewrite Ht; exists lo, hi|]. destruct Ht as [-> Hz].
  cbn [elements] in He. assert (He' : elements t = (lo ++ elements l) ++ e :: elements r ++ hi)
    by (rewrite He; norm_app; done).
  rewrite He' in Hs. exists (lo ++ elements l), (elements r ++ hi). split; [split|done].
  - apply (sorted_lo compare _ e _ k Hs). lia.
  - apply (sorted_hi compare _ e _ k Hs). lia.
Qed.

(** The element a read mode asks for, on the ordered sequence. *)
Definition key_spec (t : tree K) (k : K) (flag : ha_rkey_function) : option (item K) :=
  match flag with
  | HA_READ_KEY_EXACT | HA_READ_PREFIX_LAST =>
      List.find (fun e => compare (key e) k =? 0)%Z (elements t)
  | HA_READ_KEY_OR_NEXT => List.find (fun e => 0 <=? compare (key e) k)%Z (elements t)
  | HA_READ_AFTER_KEY => List.find (fun e => 0 <? compare (key e) k)%Z (elements t)
  | HA_READ_KEY_OR_PREV | HA_READ_PREFIX_LAST_OR_PREV =>
      List.find (fun e => compare (key e) k <=? 0)%Z (rev (elements t))
  | HA_READ_BEFORE_KEY => List.find (fun e => compare (key e) k <? 0)%Z (rev (elements t))
  | _ => None
  end.

Lemma find_ext (P Q : item K -> bool) l :
  (forall x, x ∈ l -> P x = Q x) -> List.find P l = List.find Q l.
Proof.
  induction l as [|x l IH]; intros H; simpl; [done|].
  rewrite (H x) by left. destruct (Q x); [done|]. apply IH. intros y Hy. apply H. by right.
Qed.

Lemma elem_of_rev' (x : item K) l : x ∈ rev l -> x ∈ l.
Proof. by rewrite !list_elem_of_In, <-in_rev. Qed.

(** How the three results of the loop combine. *)
Lemma at_or_else rt le ll e1 e2 : at_or rt le e1 None -> at_or rt ll e2 None ->
  at_or rt (or_else le ll) (match e1 with Some e => Some e | None => e2 end) None.
Proof. destruct e1; simpl; [by intros (q & -> & ?); exists q|by intros ->]. Qed.

Lemma key_spec_search t k flag : StronglySorted item_lt (elements t) ->
  match flag with
  | HA_READ_KEY_EXACT | HA_READ_PREFIX_LAST => key_spec t k flag = search t k
  | HA_READ_KEY_OR_NEXT => key_spec t k flag =
      match search t k with Some e => Some e | None => List.find (goes_left 1 k) (elements t) end
  | HA_READ_AFTER_KEY => key_spec t k flag = List.find (goes_left (-1) k) (elements t)
  | HA_READ_KEY_OR_PREV => key_spec t k flag =
      match search t k with Some e => Some e
      | None => List.find (fun e => negb (goes_left 1 k e)) (rev (elements t)) end
  | HA_READ_PREFIX_LAST_OR_PREV => key_spec t k flag =
      match search t k with Some e => Some e
      | None => List.find (fun e => negb (goes_left (-1) k e)) (rev (elements t)) end
  | HA_READ_BEFORE_KEY =>
      key_spec t k flag = List.find (fun e => negb (goes_left 1 k e)) (rev (elements t))
  | _ => True
  end.
Proof.
  intros Hs. destruct (split_at_key t k Hs) as (lo & hi & [Hlo Hhi] & Ht).
  assert (Hgl : forall c x, goes_left c k x =
            if (compare (key x) k =? 0)%Z then negb (c <? 0)%Z else (0 <? compare (key x) k)%Z).
  { intros c x. unfold goes_left, cmp_as. destruct (Z.eqb_spec (compare (key x) k) 0); [done|].
    destruct (Z.ltb_spec (compare (key x) k) 0), (Z.ltb_spec 0 (compare (key x) k)); simpl; lia. }
  destruct flag; try done; unfold key_spec.
  all: try (apply find_ext; intros x _; rewrite Hgl; destruct (Z.eqb_spec (compare (key x) k) 0); simpl; lia).
  all: destruct (search t k) as [e|]; [destruct Ht as [Ht Hz]|]; rewrite ?Ht, ?rev_app_distr; cbn [rev].
  all: rewrite <-?app_assoc; cbn [app].
  all: try (rewrite find_skip; [cbn [List.find]; rewrite Hz; done|]; intros x Hx;
    try apply elem_of_rev' in Hx; first [specialize (Hlo x Hx)|specialize (Hhi x Hx)]; lia).
  all: try (rewrite find_none; [done|]; intros x Hx; apply elem_of_app in Hx as [Hx|Hx];
    [specialize (Hlo x Hx)|specialize (Hhi x Hx)]; lia).
  all: apply find_ext; intros x Hx; rewrite Hgl; apply elem_of_app in Hx as [Hx|Hx];
    try apply elem_of_rev' in Hx; first [specialize (Hlo x Hx)|specialize (Hhi x Hx)];
    destruct (Z.eqb_spec (compare (key x) k) 0); simpl; lia.
Qed.

(** [tree_search_key] finds, for every supported read mode, exactly the
    element the mode asks for (the equal one, the first not below, the first
    above, the last not above, the last below the key), as a position from which
    the scan can go on, and nothing if there is no such element. *)
Theorem tree_search_key_correct t k flag : tree_inv compare t ->
  match key_spec (root t) k flag with
  | Some e => exists p, tree_search_key compare t k flag = Some p /\ path_of (root t) p /\ item_of p = Some e
  | None => tree_search_key compare t k flag = None
  end.
Proof.
  intros [_ Hs _ _].
  assert (Hres : at_or (root t) (tree_search_key compare t k flag) (key_spec (root t) k flag) None);
    [|by destruct (key_spec _ _ _)].
  unfold tree_search_key. pose proof (key_spec_search (root t) k flag Hs) as Hspec.
  assert (Hp : root t = Null \/ path_of (root t) [(root t, L)]) by (by destruct (root t); [left|right]).
  destruct (equal_as flag) as [[rem c]|] eqn:Ef.
  - destruct (search_key_loop_spec (root t) k flag rem c Ef (root t) L [] None None None Hs Hp)
      as (ll & lr & le & -> & H1 & H2 & H3). cbn [mbind option_bind].
    destruct flag; simplify_eq/=; rewrite ?Hspec; try done; by apply at_or_else.
  - replace (key_spec (root t) k flag) with (@None (item K)) by (by destruct flag).
    destruct (search_key_loop _ _ _ _ _ _ _ _ _) as [[[ll lr] le]|]; [|done].
    by destruct flag.
Qed.

End key.

(** ** Freeing *)

Section free.
Context {K : Type} (free_element : K -> Z).

(** The calls of the free function up to and including the first error. *)
Fixpoint free_list (es : list (item K)) : Z * list K :=
  match es with
  | [] => (0%Z, [])
  | e :: es =>
      let error := free_element (key e) in
      if decide (error <> 0%Z) then (error, [key e])
      else let '(r, ks) := free_list es in (r, key e :: ks)
  end.

(** The keys passed to the free function and the elements given back. *)
Fixpoint freed_keys (ev : list (@tree_event K)) : list K :=
  match ev with
  | [] => []
  | FreeFree k :: ev => k :: freed_keys ev
  | _ :: ev => freed_keys ev
  end.

Fixpoint freed_elements (ev : list (@tree_event K)) : list (item K) :=
  match ev with
  | [] => []
  | MyFree e :: ev => e :: freed_elements ev
  | _ :: ev => freed_elements ev
  end.

Lemma freed_keys_app a b : freed_keys (a ++ b) = freed_keys a ++ freed_keys b.
Proof. induction a as [|[] a IH]; simpl; by rewrite ?IH. Qed.

Lemma freed_elements_app a b : freed_elements (a ++ b) = freed_elements a ++ freed_elements b.
Proof. induction a as [|[] a IH]; simpl; by rewrite ?IH. Qed.

Lemma free_list_app a b : free_list (a ++ b) =
  let '(r, ks) := free_list a in
  if decide (r <> 0%Z) then (r, ks) else let '(r', ks') := free_list b in (r', ks ++ ks').
Proof.
  induction a as [|e a IH]; simpl; [by destruct (free_list b)|].
  case_decide; [by rewrite decide_True|]. rewrite IH. destruct (free_list a) as [r ks].
  case_decide; [done|]. by destruct (free_list b).
Qed.

Lemma delete_tree_element_abort hf wd (t : tree K) :
  let '(r, ev) := delete_tree_element hf wd free_element t true in r = 0%Z /\ freed_keys ev = [].
Proof.
  induction t as [|c l IHl e r IHr]; simpl; [done|].
  destruct (delete_tree_element _ _ _ l _) as [el evl]. destruct IHl as [-> Hl]. simpl.
  destruct (delete_tree_element _ _ _ r _) as [er evr]. destruct IHr as [-> Hr].
  split; [done|]. rewrite !freed_keys_app, Hl, Hr. by destruct wd.
Qed.

Lemma delete_tree_element_elements hf (t : tree K) : forall abort,
  freed_elements (delete_tree_element hf true free_element t abort).2 ≡ₚ elements t.
Proof.
  induction t as [|c l IHl e r IHr]; intros abort; simpl; [done|].
  specialize (IHl abort). destruct (delete_tree_element _ _ _ l _) as [el evl]. simpl in IHl.
  set (abort1 := if decide (el <> 0%Z) then true else abort).
  assert (Hx : forall (fe : Z) abort2 ev2, freed_elements ev2 = [] ->
    freed_elements (let '(error, ev3) := delete_tree_element hf true free_element r abort2 in
      (if decide (error <> 0%Z) then if decide (fe <> 0%Z) then fe else error else fe,
       evl ++ ev2 ++ ev3 ++ [MyFree e])).2 ≡ₚ elements l ++ e :: elements r).
  { intros fe a2 ev2 He2. specialize (IHr a2). destruct (delete_tree_element _ _ _ r _) as [er evr].
    simpl in *. rewrite !freed_elements_app, He2, IHl, IHr. simpl.
    by rewrite <-Permutation_cons_append. }
  destruct (negb abort1 && hf); [case_decide|]; by apply Hx.
Qed.

Lemma delete_tree_element_free wd (t : tree K) :
  let '(r, ev) := delete_tree_element true wd free_element t false in
  (r, freed_keys ev) = free_list (elements t).
Proof.
  induction t as [|c l IHl e r IHr]; simpl; [done|]. rewrite free_list_app.
  pose proof (delete_tree_element_abort true wd r) as Hab.
  destruct (delete_tree_element _ _ _ l _) as [fe ev]. rewrite <-IHl.
  assert (Hwd : freed_keys (if wd then [MyFree e] else []) = []) by (by destruct wd).
  case_decide as H1; simpl.
  - destruct (delete_tree_element true wd free_element r true) as [fr evr]. destruct Hab as [-> Hab].
    rewrite !freed_keys_app, Hab, Hwd. simpl. by rewrite !app_nil_r.
  - assert (fe = 0%Z) as -> by lia. case_decide as H2; simpl.
    + destruct (delete_tree_element true wd free_element r true) as [fr evr]. destruct Hab as [-> Hab].
      rewrite freed_keys_app. simpl. by rewrite freed_keys_app, Hab, Hwd.
    + clear Hab. destruct (delete_tree_element true wd free_element r false) as [fr evr]. rewrite <-IHr.
      rewrite freed_keys_app. simpl. rewrite freed_keys_app, Hwd, app_nil_r. f_equal. case_decide; lia.
Qed.

(** [delete_tree] calls the free function for the keys in order, each once,
    up to and including the first one that returns an error, and returns that
    error.  The tree is empty afterwards in any case, and, if its elements were
    allocated one by one, each of them has been freed once. *)
Theorem delete_tree_correct (t : TREE) : has_free t = true ->
  let '(t', r, ev) := delete_tree free_element t false in
  root t' = Null /\ elements_in_tree t' = 0%Z /\ allocated t' = 0%Z /\
  (r, freed_keys ev) = free_list (elements (root t)) /\
  if with_delete t then freed_elements ev ≡ₚ elements (root t) else List.In FreeRoot ev.
Proof.
  intros Hf. unfold delete_tree, free_tree. rewrite Hf.
  destruct (with_delete t).
  - pose proof (delete_tree_element_free true (root t)) as H.
    pose proof (delete_tree_element_elements true (root t) false) as He.
    by destruct (delete_tree_element _ _ _ _ _) as [r ev].
  - pose proof (delete_tree_element_free false (root t)) as H.
    destruct (delete_tree_element _ _ _ _ _) as [r ev]. rewrite <-H. simpl.
    split_and!; try done; [|apply in_or_app; right; by left].
    rewrite !freed_keys_app. destruct (negb _); simpl; by rewrite !app_nil_r.
Qed.

End free.

(** ** The theorems at the example tree *)

Lemma tree_search_next_correct_witness :
  let p := [(root example_tree, L)] in
  let q := tree_search_next R p in
  exists lo hi, els R (root example_tree) = lo ++ mk_item 2%Z 5%Z :: hi /\
    match hi with
    | [] => q = []
    | e' :: _ => path_of (root example_tree) q /\ item_of q = Some e' /\ rest R q = tail hi
    end.
Proof. apply (tree_search_next_correct R example_tree [(root example_tree, L)]); [done|reflexivity]. Defined.

Lemma tree_scan_correct_witness :
  scan L 5 (tree_search_edge example_tree (other_side L)) = els L (root example_tree).
Proof. apply (tree_scan_correct L example_tree 5). simpl. lia. Defined.

Lemma tree_search_key_correct_witness :
  match key_spec Z.sub (root example_tree) 5%Z HA_READ_KEY_OR_PREV with
  | Some e => exists p, tree_search_key Z.sub example_tree 5%Z HA_READ_KEY_OR_PREV = Some p /\
      path_of (root example_tree) p /\ item_of p = Some e
  | None => tree_search_key Z.sub example_tree 5%Z HA_READ_KEY_OR_PREV = None
  end.
Proof. apply (tree_search_key_correct Z.sub example_tree 5%Z). apply example_tree_inv. Defined.

Lemma delete_tree_correct_witness :
  let free_element k := (if k =? 3 then 7 else 0)%Z in
  let '(t', r, ev) := delete_tree free_element example_tree false in
  root t' = Null /\ elements_in_tree t' = 0%Z /\ allocated t' = 0%Z /\
  (r, freed_keys ev) = free_list free_element (elements (root example_tree)) /\
  if with_delete example_tree then freed_elements ev ≡ₚ elements (root example_tree)
  else List.In FreeRoot ev.
Proof. apply (delete_tree_correct (fun k => (if k =? 3 then 7 else 0)%Z) example_tree). reflexivity. Defined.

End TreeScan.
