(* ===== verification/DynArray.v ===== *)
(** * Dynamic arrays (mysys/array.c)

    A [DYNAMIC_ARRAY] is a growable buffer of equally sized cells.  The buffer
    is a list of cells (a null buffer is the empty one); a cell that was
    allocated and never written holds [None].  The operations return [None]
    where the C code would touch memory outside the buffer.  Every call that
    allocates takes a boolean: does the allocation succeed. *)

From S2P Require Import Prelude.

Module DynArray.

Section dynarray.
Context {E : Type} (zero : E).

#[local] Notation cell := (option E).

Record DYNAMIC_ARRAY := mk_array {
  buffer : list cell;
  elements : nat;
  max_element : nat;
  alloc_increment : nat;
  init_buffer_used : bool        (* MY_INIT_BUFFER_USED of malloc_flags *)
}.

Definition set_elements (a : DYNAMIC_ARRAY) (n : nat) : DYNAMIC_ARRAY :=
  mk_array (buffer a) n (max_element a) (alloc_increment a) (init_buffer_used a).

Definition set_buffer (a : DYNAMIC_ARRAY) (b : list cell) : DYNAMIC_ARRAY :=
  mk_array b (elements a) (max_element a) (alloc_increment a) (init_buffer_used a).

(** ** Memory *)

(** A new block of [n] cells, and one that starts with the cells of [b]. *)
Definition malloc (n : nat) : list cell := replicate n None.

Definition realloc (b : list cell) (n : nat) : list cell := take n b ++ malloc (n - length b).

(** [memcpy] and [bzero] to the cells from [pos] on. *)
Definition memcpy (b : list cell) (pos : nat) (src : list cell) : option (list cell) :=
  if decide (pos + length src <= length b)
  then Some (take pos b ++ src ++ drop (pos + length src) b) else None.

Definition bzero (b : list cell) (pos n : nat) : option (list cell) :=
  memcpy b pos (replicate n (Some zero)).

(** ** Operations *)

Definition MALLOC_OVERHEAD : nat := 8.

Definition init_dynamic_array2 (element_size : nat) (init_buffer : option (list cell))
    (init_alloc increment : nat) (alloc : bool) : DYNAMIC_ARRAY :=
  let increment :=
    if decide (increment = 0) then
      let inc := Nat.max ((8192 - MALLOC_OVERHEAD) / element_size) 16 in
      if decide (8 < init_alloc /\ init_alloc * 2 < inc) then init_alloc * 2 else inc
    else increment in
  match init_buffer with
  | Some b => mk_array b 0 init_alloc increment true
  | None =>
      if decide (init_alloc <> 0) then
        if alloc then mk_array (malloc init_alloc) 0 init_alloc increment false
        else mk_array [] 0 0 increment false
      else mk_array [] 0 init_alloc increment false
  end.

(** The index of the new cell, or null. *)
Definition alloc_dynamic (alloc : bool) (a : DYNAMIC_ARRAY) : option (DYNAMIC_ARRAY * option nat) :=
  let bump a := (set_elements a (elements a + 1), Some (elements a)) in
  if decide (elements a = max_element a) then
    let size := max_element a + alloc_increment a in
    if init_buffer_used a then
      if negb alloc then Some (a, None) else
      new_ptr ← (if decide (elements a <> 0) then memcpy (malloc size) 0 (take (elements a) (buffer a))
                 else Some (malloc size));
      Some (bump (mk_array new_ptr (elements a) size (alloc_increment a) false))
    else if negb alloc then Some (a, None)
    else Some (bump (mk_array (realloc (buffer a) size) (elements a) size (alloc_increment a) false))
  else Some (bump a).

(** [true] is an error. *)
Definition insert_dynamic (alloc : bool) (a : DYNAMIC_ARRAY) (element : cell)
    : option (DYNAMIC_ARRAY * bool) :=
  '(a, p) ← (if decide (elements a = max_element a) then alloc_dynamic alloc a
             else Some (set_elements a (elements a + 1), Some (elements a)));
  match p with
  | None => Some (a, true)
  | Some i => b ← memcpy (buffer a) i [element]; Some (set_buffer a b, false)
  end.

Definition pop_dynamic (a : DYNAMIC_ARRAY) : DYNAMIC_ARRAY * option nat :=
  if decide (elements a <> 0) then (set_elements a (elements a - 1), Some (elements a - 1))
  else (a, None).

Definition allocate_dynamic (alloc : bool) (a : DYNAMIC_ARRAY) (max_elements : nat)
    : option (DYNAMIC_ARRAY * bool) :=
  if decide (max_element a <= max_elements) then
    let size := (max_elements + alloc_increment a) / alloc_increment a * alloc_increment a in
    if init_buffer_used a then
      if negb alloc then Some (a, false) else
      new_ptr ← memcpy (malloc size) 0 (take (elements a) (buffer a));
      Some (mk_array new_ptr (elements a) size (alloc_increment a) false, false)
    else if negb alloc then Some (a, true)
    else Some (mk_array (realloc (buffer a) size) (elements a) size (alloc_increment a) false, false)
  else Some (a, false).

Definition set_dynamic (alloc : bool) (a : DYNAMIC_ARRAY) (element : cell) (idx : nat)
    : option (DYNAMIC_ARRAY * bool) :=
  '(a, failed) ←
    (if decide (elements a <= idx) then
       '(a, failed) ← (if decide (max_element a <= idx) then allocate_dynamic alloc a idx
                       else Some (a, false));
       if (failed : bool) then Some (a, true) else
       b ← bzero (buffer a) (elements a) (idx - elements a);
       Some (set_elements (set_buffer a b) (idx + 1), false)
     else Some (a, false));
  if (failed : bool) then Some (a, true) else
  b ← memcpy (buffer a) idx [element];
  Some (set_buffer a b, false).

Definition get_dynamic (a : DYNAMIC_ARRAY) (idx : nat) : option cell :=
  if decide (elements a <= idx) then Some (Some zero) else buffer a !! idx.

Definition delete_dynamic (a : DYNAMIC_ARRAY) : DYNAMIC_ARRAY :=
  mk_array [] 0 0 (alloc_increment a) (init_buffer_used a).

(** [memmove] of the cells behind [idx]. *)
Definition delete_dynamic_element (a : DYNAMIC_ARRAY) (idx : nat) : option DYNAMIC_ARRAY :=
  if decide (elements a = 0) then None else
  let n := elements a - 1 in
  if decide (idx <= n) then
    b ← memcpy (buffer a) idx (take (n - idx) (drop (idx + 1) (buffer a)));
    Some (set_elements (set_buffer a b) n)
  else None.

(** The cells the callback is called with. *)
Definition delete_dynamic_with_callback (a : DYNAMIC_ARRAY) : DYNAMIC_ARRAY * list cell :=
  (delete_dynamic a, take (elements a) (buffer a)).

Definition freeze_size (alloc : bool) (a : DYNAMIC_ARRAY) : DYNAMIC_ARRAY :=
  if init_buffer_used a then a else
  let n := Nat.max (elements a) 1 in
  if decide (buffer a <> [] /\ n < max_element a) then
    mk_array (if alloc then realloc (buffer a) n else []) (elements a) n (alloc_increment a) false
  else a.

Definition reset_dynamic (a : DYNAMIC_ARRAY) : DYNAMIC_ARRAY := set_elements a 0.

(** ** What an array holds *)

Record arr_ok (a : DYNAMIC_ARRAY) : Prop := {
  ao_length : length (buffer a) = max_element a;
  ao_elements : elements a <= max_element a;
  ao_increment : 0 < alloc_increment a
}.

Definition contents (a : DYNAMIC_ARRAY) : list cell := take (elements a) (buffer a).

Lemma length_contents a : arr_ok a -> length (contents a) = elements a.
Proof. intros [H1 H2 _]. unfold contents. rewrite length_take. lia. Qed.

Lemma init_dynamic_array2_ok size init_alloc inc alloc : 0 < size ->
  arr_ok (init_dynamic_array2 size None init_alloc inc alloc) /\
  contents (init_dynamic_array2 size None init_alloc inc alloc) = [].
Proof.
  intros Hs. unfold init_dynamic_array2, malloc.
  set (inc0 := if decide (inc = 0) then _ else _).
  assert (0 < inc0) by (unfold inc0; repeat case_decide; lia). clearbody inc0.
  case_decide; [destruct alloc|]; (split; [constructor; simpl; rewrite ?length_replicate; lia|done]).
Qed.

Lemma memcpy_ok b pos src : pos + length src <= length b ->
  memcpy b pos src = Some (take pos b ++ src ++ drop (pos + length src) b).
Proof. intros H. unfold memcpy. by rewrite decide_True. Qed.

Lemma length_realloc b n : length (realloc b n) = n.
Proof. unfold realloc, malloc. rewrite length_app, length_take, length_replicate. lia. Qed.

Lemma take_realloc b n m : m <= n -> m <= length b -> take m (realloc b n) = take m b.
Proof.
  intros Hn Hb. unfold realloc. rewrite take_app_le by (rewrite length_take; lia).
  by rewrite take_take, Nat.min_l by lia.
Qed.

(** A bigger buffer with the same cells. *)
Definition grown (a a' : DYNAMIC_ARRAY) (size : nat) : Prop :=
  arr_ok a' /\ elements a' = elements a /\ contents a' = contents a /\ max_element a' = size.

Lemma grow_realloc a size : arr_ok a -> max_element a <= size ->
  grown a (mk_array (realloc (buffer a) size) (elements a) size (alloc_increment a) false) size.
Proof.
  intros [H1 H2 H3] Hs. unfold grown, contents. simpl. split_and!; try done.
  - constructor; simpl; [apply length_realloc|lia|done].
  - apply take_realloc; lia.
Qed.

Lemma grow_static a size : arr_ok a -> max_element a <= size ->
  exists b, memcpy (malloc size) 0 (take (elements a) (buffer a)) = Some b /\
    grown a (mk_array b (elements a) size (alloc_increment a) false) size.
Proof.
  intros Hok Hs. pose proof (length_contents a Hok) as Hl. unfold contents in Hl. destruct Hok as [H1 H2 H3].
  rewrite memcpy_ok by (unfold malloc; rewrite length_replicate; lia). eexists. split; [done|].
  unfold grown, contents. simpl. rewrite Hl. split_and!; try done.
  - constructor; simpl; try lia. unfold malloc. rewrite length_app, length_drop, length_replicate. lia.
  - rewrite take_app_le by lia. apply take_ge. lia.
Qed.

(** [alloc_dynamic] appends one cell. *)
Lemma alloc_dynamic_spec alloc a : arr_ok a ->
  (alloc = false /\ alloc_dynamic alloc a = Some (a, None)) \/
  exists a', alloc_dynamic alloc a = Some (a', Some (elements a)) /\ arr_ok a' /\
    elements a' = elements a + 1 /\ take (elements a) (buffer a') = contents a.
Proof.
  intros Hok. unfold alloc_dynamic. case_decide as He.
  - destruct alloc; [right|left; by destruct (init_buffer_used a)]. cbn [negb].
    assert (Hg : forall b, grown a (mk_array b (elements a) (max_element a + alloc_increment a)
                                      (alloc_increment a) false) (max_element a + alloc_increment a) ->
      exists a', Some (set_elements (mk_array b (elements a) (max_element a + alloc_increment a)
                   (alloc_increment a) false) (elements a + 1), Some (elements a)) =
                 Some (a', Some (elements a)) /\ arr_ok a' /\
        elements a' = elements a + 1 /\ take (elements a) (buffer a') = contents a).
    { intros b ([H1 H2 H3] & _ & Hc & _). eexists. split; [done|].
      pose proof (ao_increment a Hok). split; [constructor; simpl in *; lia|]. done. }
    destruct (init_buffer_used a).
    + destruct (grow_static a (max_element a + alloc_increment a) Hok ltac:(lia)) as (b & Hb & Hgr).
      case_decide; [rewrite Hb; simpl; eauto|]. simpl. apply Hg.
      destruct Hok as [H1 H2 H3]. unfold grown, contents. simpl. rewrite H, !take_0. split_and!; try done.
      constructor; simpl; unfold malloc; rewrite ?length_replicate; lia.
    + apply Hg, grow_realloc; [done|lia].
  - right. eexists. split; [done|]. destruct Hok as [H1 H2 H3]. split; [constructor; simpl; lia|]. done.
Qed.

Lemma memcpy_cell a i e : arr_ok a -> i < elements a ->
  exists b, memcpy (buffer a) i [e] = Some b /\ arr_ok (set_buffer a b) /\
    contents (set_buffer a b) = <[i:=e]> (contents a).
Proof.
  intros [H1 H2 H3] Hi. rewrite memcpy_ok by (simpl; lia). eexists. split; [done|]. simpl.
  rewrite Nat.add_1_r, <-insert_take_drop by lia. split.
  - constructor; simpl; rewrite ?length_insert; lia.
  - unfold contents. simpl. by rewrite take_insert_lt.
Qed.

Lemma insert_dynamic_spec alloc a e : arr_ok a ->
  exists a' failed, insert_dynamic alloc a e = Some (a', failed) /\ arr_ok a' /\
    if (failed : bool) then a' = a /\ alloc = false else contents a' = contents a ++ [e].
Proof.
  intros Hok. pose proof (length_contents a Hok) as Hl.
  assert (Hw : forall a1, arr_ok a1 -> elements a1 = elements a + 1 ->
    take (elements a) (buffer a1) = contents a ->
    exists a' failed, (b ← memcpy (buffer a1) (elements a) [e]; Some (set_buffer a1 b, false)) = Some (a', failed) /\
      arr_ok a' /\ if (failed : bool) then a' = a /\ alloc = false else contents a' = contents a ++ [e]).
  { intros a1 Hok1 He1 Ht1. destruct (memcpy_cell a1 (elements a) e Hok1 ltac:(lia)) as (b & -> & Hb & Hc).
    simpl. eexists _, false. split_and!; [done..|]. rewrite Hc. unfold contents at 1. rewrite He1.
    destruct Hok1 as [H1 H2 _].
    destruct (lookup_lt_is_Some_2 (buffer a1) (elements a)) as [x Hx]; [lia|].
    rewrite Nat.add_1_r, (take_S_r _ _ x) by done. rewrite Ht1, insert_app_r_alt by lia.
    rewrite Hl, Nat.sub_diag. done. }
  unfold insert_dynamic. case_decide as He.
  - destruct (alloc_dynamic_spec alloc a Hok) as [[-> ->]|(a1 & -> & Hok1 & He1 & Ht1)]; simpl.
    + by eexists _, true.
    + by apply Hw.
  - simpl. apply (Hw (set_elements a (elements a + 1))); [|done..]. destruct Hok as [H1 H2 H3]. constructor; simpl; lia.
Qed.

Lemma allocate_dynamic_spec alloc a n : arr_ok a -> init_buffer_used a = false \/ alloc = true ->
  exists a' failed, allocate_dynamic alloc a n = Some (a', failed) /\ arr_ok a' /\
    if (failed : bool) then a' = a /\ alloc = false
    else elements a' = elements a /\ contents a' = contents a /\ n < max_element a'.
Proof.
  intros Hok Hst. unfold allocate_dynamic. case_decide as Hn; [|eexists _, false; split_and!; try done; lia].
  set (size := _ / _ * _). pose proof (ao_increment a Hok) as Hi.
  assert (Hsz : n < size).
  { unfold size. pose proof (Nat.div_mod_eq (n + alloc_increment a) (alloc_increment a)).
    pose proof (Nat.mod_upper_bound (n + alloc_increment a) (alloc_increment a)). lia. }
  destruct (init_buffer_used a).
  - destruct Hst as [?| ->]; [done|]. cbn [negb].
    destruct (grow_static a size Hok ltac:(lia)) as (b & -> & Hg1 & Hg2 & Hg3 & Hg4). simpl.
    eexists _, false. split_and!; [done..|]. simpl. lia.
  - destruct alloc; cbn [negb]; [|by eexists _, true].
    destruct (grow_realloc a size Hok ltac:(lia)) as (Hg1 & Hg2 & Hg3 & Hg4).
    eexists _, false. split_and!; [done..|]. simpl. lia.
Qed.

Lemma set_dynamic_spec alloc a e i : arr_ok a -> init_buffer_used a = false \/ alloc = true ->
  exists a' failed, set_dynamic alloc a e i = Some (a', failed) /\ arr_ok a' /\
    if (failed : bool) then a' = a /\ alloc = false
    else contents a' = <[i:=e]> (contents a ++ replicate (i + 1 - elements a) (Some zero)).
Proof.
  intros Hok Hst. unfold set_dynamic. case_decide as Hi.
  - assert (Hgrow : exists a1 failed, (if decide (max_element a <= i) then allocate_dynamic alloc a i
                     else Some (a, false)) = Some (a1, failed) /\ arr_ok a1 /\
        if (failed : bool) then a1 = a /\ alloc = false
        else elements a1 = elements a /\ contents a1 = contents a /\ i < max_element a1).
    { case_decide; [by apply allocate_dynamic_spec|]. eexists _, false. split_and!; try done. lia. }
    destruct Hgrow as (a1 & failed & -> & Hok1 & Ha1). cbn [mbind option_bind].
    destruct failed; [by destruct Ha1 as [-> ->]; eexists _, true|]. destruct Ha1 as (He & Hc & Hm).
    destruct Hok1 as [H1 H2 H3]. unfold bzero.
    rewrite memcpy_ok by (rewrite length_replicate; lia). cbn [mbind option_bind].
    set (b := take _ _ ++ _). set (a2 := set_elements (set_buffer a1 b) (i + 1)).
    assert (Hb : length b = max_element a1).
    { unfold b. rewrite !length_app, length_take, length_drop, length_replicate. lia. }
    assert (Hok2 : arr_ok a2) by (constructor; simpl; lia).
    destruct (memcpy_cell a2 i e Hok2) as (b' & -> & Hb' & Hc'); [simpl; lia|].
    eexists _, false. split_and!; [done..|]. rewrite Hc'. unfold contents at 1, a2, b. simpl.
    rewrite <-Hc. unfold contents. rewrite length_replicate, He.
    destruct (lookup_lt_is_Some_2 (buffer a1) i) as [x Hx]; [lia|].
    rewrite (drop_S _ x) by (by replace (elements a + (i - elements a)) with i by lia).
    replace (i + 1 - elements a) with (i - elements a + 1) by lia.
    rewrite replicate_add, !app_assoc. set (X := take _ _ ++ replicate _ _).
    assert (HX : length X = i) by (unfold X; rewrite length_app, length_take, length_replicate; lia).
    rewrite take_app_ge by lia. replace (i + 1 - length X) with 1 by lia.
    rewrite !insert_app_r_alt by lia. rewrite HX, Nat.sub_diag. done.
  - cbn [mbind option_bind]. destruct (memcpy_cell a i e Hok ltac:(lia)) as (b & -> & Hb & Hc). simpl.
    eexists _, false. split_and!; [done..|]. rewrite Hc.
    replace (i + 1 - elements a) with 0 by lia. by rewrite app_nil_r.
Qed.

Lemma pop_dynamic_spec a : arr_ok a ->
  arr_ok (pop_dynamic a).1 /\ contents (pop_dynamic a).1 = take (elements a - 1) (contents a) /\
  (pop_dynamic a).2 = if decide (contents a = []) then None else Some (length (contents a) - 1).
Proof.
  intros Hok. pose proof (length_contents a Hok) as Hl. destruct Hok as [H1 H2 H3].
  unfold pop_dynamic. case_decide as He; simpl.
  - split_and!; [constructor; simpl; lia| |].
    + unfold contents. simpl. by rewrite take_take, Nat.min_l by lia.
    + rewrite decide_False, Hl; [done|]. intros Hn. rewrite Hn in Hl. simpl in Hl. lia.
  - assert (contents a = []) as Hn by (apply length_zero_iff_nil; lia).
    split_and!; [done| |by rewrite decide_True]. rewrite Hn. by destruct (elements a - 1).
Qed.

Lemma delete_dynamic_element_spec a i : arr_ok a -> i < elements a ->
  exists a', delete_dynamic_element a i = Some a' /\ arr_ok a' /\ contents a' = delete i (contents a).
Proof.
  intros [H1 H2 H3] Hi. unfold delete_dynamic_element. rewrite decide_False, decide_True by lia.
  set (m := take _ (drop _ _)).
  assert (Hm : length m = elements a - 1 - i) by (unfold m; rewrite length_take, length_drop; lia).
  rewrite memcpy_ok by lia. eexists. split; [done|]. split.
  - constructor; simpl; rewrite ?length_app, ?length_take, ?length_drop; lia.
  - unfold contents. simpl. rewrite Hm, app_assoc, take_app_le, take_ge
      by (rewrite length_app, length_take; lia).
    rewrite delete_take_drop, take_take, Nat.min_l by lia. f_equal.
    unfold m. rewrite skipn_firstn_comm, Nat.add_1_r. f_equal. lia.
Qed.

Lemma freeze_size_spec a : arr_ok a -> arr_ok (freeze_size true a) /\ contents (freeze_size true a) = contents a.
Proof.
  intros [H1 H2 H3]. unfold freeze_size. destruct (init_buffer_used a); [done|].
  case_decide as Hc; [|done]. unfold contents. simpl. split.
  - constructor; simpl; [apply length_realloc|lia|done].
  - apply take_realloc; lia.
Qed.

(** ** Refinement: an array is a list *)

Inductive command :=
| Insert (element : cell)
| Set_ (element : cell) (idx : nat)
| Pop
| Delete_element (idx : nat)
| Reset
| Freeze.

(** One call; the result is the error it returns. *)
Definition call (alloc : bool) (a : DYNAMIC_ARRAY) (c : command) : option (DYNAMIC_ARRAY * bool) :=
  match c with
  | Insert e => insert_dynamic alloc a e
  | Set_ e i => set_dynamic alloc a e i
  | Pop => Some ((pop_dynamic a).1, false)
  | Delete_element i => a' ← delete_dynamic_element a i; Some (a', false)
  | Reset => Some (reset_dynamic a, false)
  | Freeze => Some (freeze_size true a, false)
  end.

(** The same on lists. *)
Definition list_call (l : list cell) (c : command) : list cell :=
  match c with
  | Insert e => l ++ [e]
  | Set_ e i => <[i:=e]> (l ++ replicate (i + 1 - length l) (Some zero))
  | Pop => take (length l - 1) l
  | Delete_element i => delete i l
  | Reset => []
  | Freeze => l
  end.

Definition legal (l : list cell) (c : command) : Prop :=
  match c with Delete_element i => i < length l | _ => True end.

Lemma call_refines alloc a c : arr_ok a -> init_buffer_used a = false \/ alloc = true ->
  legal (contents a) c ->
  exists a' failed, call alloc a c = Some (a', failed) /\ arr_ok a' /\
    if (failed : bool) then a' = a /\ alloc = false else contents a' = list_call (contents a) c.
Proof.
  intros Hok Hst Hleg. pose proof (length_contents a Hok) as Hl.
  destruct c as [e|e i| |i| |]; simpl in *; rewrite ?Hl in *.
  - by apply insert_dynamic_spec.
  - by apply set_dynamic_spec.
  - destruct (pop_dynamic_spec a Hok) as (H1 & H2 & _). by eexists _, false.
  - destruct (delete_dynamic_element_spec a i Hok Hleg) as (a' & -> & H1 & H2). by eexists _, false.
  - eexists _, false. destruct Hok. split_and!; try done. constructor; simpl; lia.
  - destruct (freeze_size_spec a Hok). by eexists _, false.
Qed.

Lemma call_static alloc a c a' failed : init_buffer_used a = false ->
  call alloc a c = Some (a', failed) -> init_buffer_used a' = false.
Proof.
  intros Ha. destruct c; simpl; unfold insert_dynamic, set_dynamic, alloc_dynamic, allocate_dynamic,
    pop_dynamic, delete_dynamic_element, freeze_size, bzero, memcpy; rewrite ?Ha; intros Hc;
    repeat (case_decide || case_match || simplify_option_eq); done.
Qed.

(** The arrays that calls of the operations produce, with the list each stands
    for: what the calls that succeeded made of it. *)
Inductive array_reach : DYNAMIC_ARRAY -> list cell -> Prop :=
| reach_init element_size init_alloc increment alloc : 0 < element_size ->
    array_reach (init_dynamic_array2 element_size None init_alloc increment alloc) []
| reach_call a l c alloc a' failed : array_reach a l -> legal l c ->
    call alloc a c = Some (a', failed) ->
    array_reach a' (if failed : bool then l else list_call l c).

Lemma array_reach_inv a l : array_reach a l ->
  arr_ok a /\ contents a = l /\ init_buffer_used a = false.
Proof.
  induction 1 as [size n inc alloc Hs|a l c alloc a' failed _ (Hok & Hc & Hst) Hleg Hcall].
  - destruct (init_dynamic_array2_ok size n inc alloc Hs). split_and!; [done..|].
    unfold init_dynamic_array2. case_decide; [by destruct alloc|done].
  - pose proof (call_static _ _ _ _ _ Hst Hcall). subst l.
    destruct (call_refines alloc a c Hok (or_introl Hst) Hleg) as (a1 & f1 & Hcall1 & Hok1 & Hres).
    rewrite Hcall in Hcall1. injection Hcall1 as <- <-. split_and!; [done| |done].
    destruct failed; [by destruct Hres as [-> _]|done].
Qed.

(** a dynamic array behaves as a list.  After any sequence of operations it
    holds exactly the list these operations make on lists, where a failed call
    changes nothing; any further operation stays inside the buffer and fails
    only if its allocation fails. *)
Theorem dynamic_array_is_list a l c alloc : array_reach a l -> legal l c ->
  contents a = l /\
  exists a' failed, call alloc a c = Some (a', failed) /\ (failed = true -> alloc = false /\ a' = a) /\
    (failed = false -> contents a' = list_call l c).
Proof.
  intros Hr Hleg. destruct (array_reach_inv a l Hr) as (Hok & <- & Hst). split; [done|].
  destruct (call_refines alloc a c Hok (or_introl Hst) Hleg) as (a1 & f1 & Hcall1 & Hok1 & Hres).
  exists a1, f1. destruct f1; split_and!; naive_solver.
Qed.

(** ** Failed allocations that are not reported *)

(** With a static buffer [allocate_dynamic] reports success when the memory for
    the bigger buffer is missing, and [set_dynamic] then writes behind the
    static one. *)
Lemma set_dynamic_static_overflow a e i : arr_ok a -> init_buffer_used a = true ->
  max_element a <= i ->
  allocate_dynamic false a i = Some (a, false) /\ set_dynamic false a e i = None.
Proof.
  intros [H1 H2 H3] Hst Hi. assert (Hal : allocate_dynamic false a i = Some (a, false)).
  { unfold allocate_dynamic. by rewrite decide_True, Hst. }
  split; [done|]. unfold set_dynamic. rewrite !decide_True by lia. rewrite Hal. cbn [mbind option_bind].
  unfold bzero, memcpy. case_decide as Hd; [|done]. cbn [mbind option_bind]. rewrite length_replicate in Hd.
  unfold set_elements, set_buffer. cbn [buffer]. rewrite decide_False; [done|].
  rewrite !length_app, length_take, length_drop, length_replicate. simpl. lia.
Qed.

(** When it cannot shrink the buffer, [freeze_size] loses it and keeps the
    number of elements. *)
Lemma freeze_size_lost_buffer a : arr_ok a -> init_buffer_used a = false ->
  0 < elements a < max_element a ->
  let a' := freeze_size false a in elements a' = elements a /\ buffer a' = [] /\ get_dynamic a' 0 = None.
Proof.
  intros [H1 H2 H3] Hst He. unfold freeze_size. rewrite Hst, decide_True; simpl.
  - unfold get_dynamic. simpl. by rewrite decide_False by lia.
  - split; [|lia]. intros Hb. rewrite Hb in H1. simpl in H1. lia.
Qed.

End dynarray.

Lemma dynamic_array_is_list_witness :
  let a := mk_array [Some 7%Z; None] 1 2 2 false in
  contents a = [Some 7%Z] /\
  exists a' failed, call 0%Z true a (Set_ (Some 9%Z) 4) = Some (a', failed) /\
    (failed = true -> true = false /\ a' = a) /\
    (failed = false -> contents a' = list_call 0%Z [Some 7%Z] (Set_ (Some 9%Z) 4)).
Proof.
  apply (dynamic_array_is_list 0%Z _ _ (Set_ (Some 9%Z) 4) true); [|exact I].
  apply (reach_call 0%Z (init_dynamic_array2 8 None 0 2 true) [] (Insert (Some 7%Z)) true _ false);
    [|exact I|reflexivity].
  apply (reach_init 0%Z 8 0 2 true). lia.
Defined.

End DynArray.
