(* ===== verification/Hash.v ===== *)
(** * Hash tables (mysys/hash.c)

    A [HASH] grows and shrinks by one bucket at a time (linear hashing).  All
    records sit in one dynamic array of links; the records of a bucket are
    chained through their [next] fields, and the first of them is at the index
    of the bucket.  A link is a [uint32]; its value [NO_RECORD] is [None], and an
    index is narrowed ([uint_of], [link_to]) where the code narrows it.

    A record is a pointer; [memory] gives the bytes behind it, which change
    between calls, and [get_key] selects the key in these bytes.  The hash
    function, whose values are [uint32], and the collation are arguments.  A
    function returns [None] where
    the C code would read or write outside the array or a link never written. *)

From S2P Require Import Prelude DynArray.
Import DynArray.

Module Hash.

Definition HASH_UNIQUE : Z := 1.

Definition NO_RECORD : Z := 2 ^ 32 - 1.

(** An index cast to [uint], and as the value of a link. *)
Definition uint_of (i : nat) : nat := Z.to_nat (u32 (Z.of_nat i)).

Definition link_to (i : nat) : option nat :=
  if (u32 (Z.of_nat i) =? NO_RECORD)%Z then None else Some (uint_of i).

(** The state of the two new chains while a bucket is split. *)
Definition LOWFIND : Z := 1.
Definition LOWUSED : Z := 2.
Definition HIGHFIND : Z := 4.
Definition HIGHUSED : Z := 8.

Section hash.
Context {R : Type} `{!EqDecision R}.
Context (hash_function : list Z -> Z) (my_strnncoll : list Z -> list Z -> Z).

Definition memory := R -> list Z.

Record HASH_LINK := mk_link { next : option nat; hash_nr : Z; data : R }.

Record HASH := mk_hash {
  key_offset : nat;
  key_length : nat;
  blength : Z;
  records : nat;
  flags : Z;
  array : @DYNAMIC_ARRAY HASH_LINK;
  get_key : option (list Z -> list Z);
  has_free : bool
}.

Definition set_array (hash : HASH) (blength : Z) (records : nat) (a : DYNAMIC_ARRAY) : HASH :=
  mk_hash (key_offset hash) (key_length hash) blength records (flags hash) a (get_key hash)
    (has_free hash).

(** ** Links *)

#[local] Notation links := (list (option HASH_LINK)).

Definition get (d : links) (i : nat) : option HASH_LINK := mjoin (d !! i).

Definition put (d : links) (i : nat) (l : HASH_LINK) : option links :=
  if decide (i < length d) then Some (<[i := Some l]> d) else None.

Definition set_next (d : links) (i : nat) (n : option nat) : option links :=
  l ← get d i; put d i (mk_link n (hash_nr l) (data l)).

(** ** Keys *)

Definition my_hash_key (hash : HASH) (mem : memory) (record : R) : list Z :=
  match get_key hash with
  | Some f => f (mem record)
  | None => take (key_length hash) (drop (key_offset hash) (mem record))
  end.

(** A hash number is below [2^32], so the casts to [uint] change nothing. *)
Definition my_hash_mask (hashnr buffmax : Z) (maxlength : nat) : nat :=
  if (Z.land hashnr (buffmax - 1) <? Z.of_nat maxlength)%Z
  then Z.to_nat (Z.land hashnr (buffmax - 1))
  else Z.to_nat (Z.land hashnr (u64 (Z.shiftr buffmax 1 - 1))).

Definition my_hash_rec_mask (pos : HASH_LINK) (buffmax : Z) (maxlength : nat) : nat :=
  my_hash_mask (hash_nr pos) buffmax maxlength.

Definition rec_hashnr (hash : HASH) (mem : memory) (record : R) : Z :=
  hash_function (my_hash_key hash mem record).

(** [true] is "different". *)
Definition hashcmp (hash : HASH) (mem : memory) (pos : HASH_LINK) (key : list Z) (len : nat) : bool :=
  let rec_key := my_hash_key hash mem (data pos) in
  negb (len =? length rec_key) ||
  negb (my_strnncoll rec_key (take (length rec_key) key) =? 0)%Z.

(** ** Creating and emptying *)

Definition my_hash_init2 (growth_size size key_offset key_length : nat)
    (get_key : option (list Z -> list Z)) (has_free : bool) (flags : Z) (alloc : bool) : HASH :=
  mk_hash key_offset key_length 1 0 flags (init_dynamic_array2 24 None size growth_size alloc)
    get_key has_free.

(** The records given to [hash->free]. *)
Definition my_hash_free_elements (hash : HASH) : option (HASH * list R) :=
  if decide (records hash = 0) then Some (hash, []) else
  freed ← (if has_free hash then mapM (option_map data) (take (records hash) (buffer (array hash)))
           else Some []);
  Some (set_array hash (blength hash) 0 (array hash), freed).

Definition my_hash_free (hash : HASH) : option (HASH * list R) :=
  '(hash, freed) ← my_hash_free_elements hash;
  Some (mk_hash (key_offset hash) (key_length hash) 0 (records hash) (flags hash)
          (delete_dynamic (array hash)) (get_key hash) false, freed).

Definition my_hash_reset (hash : HASH) : option (HASH * list R) :=
  '(hash, freed) ← my_hash_free_elements hash;
  Some (set_array hash 1 (records hash) (reset_dynamic (array hash)), freed).

(** ** Searching *)

(** Along a chain; in the first step ([flag]) the link must be in its bucket. *)
Fixpoint search_loop (fuel : nat) (hash : HASH) (mem : memory) (key : list Z) (len : nat)
    (flag : bool) (idx : nat) : option (option nat) :=
  match fuel with
  | 0 => None
  | S fuel =>
      pos ← get (buffer (array hash)) idx;
      if negb (hashcmp hash mem pos key len) then Some (Some idx)
      else if flag && negb (my_hash_rec_mask pos (blength hash) (records hash) =? idx) then Some None
      else match next pos with
           | None => Some None
           | Some idx => search_loop fuel hash mem key len false idx
           end
  end.

(** The record found and its index. *)
Definition found_at (hash : HASH) (r : option nat) : option (option (nat * R)) :=
  match r with
  | Some i => l ← get (buffer (array hash)) i; Some (Some (i, data l))
  | None => Some None
  end.

Definition my_hash_first_from_hash_value (hash : HASH) (mem : memory) (hash_value : Z)
    (key : list Z) (len : nat) : option (option (nat * R)) :=
  if decide (records hash <> 0) then
    let idx := my_hash_mask hash_value (blength hash) (records hash) in
    let len := if decide (len = 0) then key_length hash else len in
    r ← search_loop (records hash) hash mem key len true idx;
    found_at hash r
  else Some None.

Definition my_hash_first (hash : HASH) (mem : memory) (key : list Z) (len : nat)
    : option (option (nat * R)) :=
  my_hash_first_from_hash_value hash mem
    (hash_function (take (if decide (len <> 0) then len else key_length hash) key)) key len.

Definition my_hash_search (hash : HASH) (mem : memory) (key : list Z) (len : nat) : option (option R) :=
  r ← my_hash_first hash mem key len; Some (option_map snd r).

Definition my_hash_search_using_hash_value (hash : HASH) (mem : memory) (hash_value : Z)
    (key : list Z) (len : nat) : option (option R) :=
  r ← my_hash_first_from_hash_value hash mem hash_value key len; Some (option_map snd r).

Definition my_hash_next (hash : HASH) (mem : memory) (key : list Z) (len : nat)
    (current_record : option nat) : option (option (nat * R)) :=
  match current_record with
  | Some i =>
      let len := if decide (len = 0) then key_length hash else len in
      pos ← get (buffer (array hash)) i;
      match next pos with
      | None => Some None
      | Some idx => r ← search_loop (records hash) hash mem key len false idx; found_at hash r
      end
  | None => Some None
  end.

(** ** Inserting *)

(** Changes the link to [find] into [newlink]. *)
Fixpoint movelink (fuel : nat) (d : links) (find : option nat) (next_link : nat) (newlink : option nat)
    : option links :=
  match fuel with
  | 0 => None
  | S fuel =>
      old_link ← get d next_link;
      if decide (next old_link = find) then set_next d next_link newlink
      else match next old_link with
           | Some n => movelink fuel d find n newlink
           | None => None
           end
  end.

(** [gpos] with [rec_hash_nr] and [rec_data], [gpos2] with [rec2_hash_nr] and
    [rec2_data], each [None] before it is set. *)
Record split := mk_split {
  s_data : links;
  s_flag : Z;
  s_empty : nat;
  s_low : option (nat * (Z * R));
  s_high : option (nat * (Z * R))
}.

Definition write_link (d : links) (g : option (nat * (Z * R))) (n : option nat) : option links :=
  '(gpos, (h, r)) ← g; put d gpos (mk_link n h r).

Definition has (flag bit : Z) : bool := negb (Z.land flag bit =? 0)%Z.

Definition here (d : links) (idx : nat) : option (nat * (Z * R)) :=
  pos ← get d idx; Some (idx, (hash_nr pos, data pos)).

Definition split_step (halfbuff : Z) (st : split) (idx : nat) : option split :=
  let '(mk_split d flag empty low high) := st in
  pos ← get d idx;
  if (Z.land (hash_nr pos) halfbuff =? 0)%Z then      (* key will not move *)
    if negb (has flag LOWFIND) then
      if has flag HIGHFIND then
        Some (mk_split d (Z.lor LOWFIND HIGHFIND) idx (Some (empty, (hash_nr pos, data pos))) high)
      else Some (mk_split d (Z.lor LOWFIND LOWUSED) empty (here d idx) high)
    else if negb (has flag LOWUSED) then
      d ← write_link d low (link_to idx);
      Some (mk_split d (Z.lor (Z.land flag HIGHFIND) (Z.lor LOWFIND LOWUSED)) empty (here d idx) high)
    else Some (mk_split d flag empty (here d idx) high)
  else                                                  (* key will be moved *)
    if negb (has flag HIGHFIND) then
      Some (mk_split d (Z.lor (Z.land flag LOWFIND) HIGHFIND) idx low
              (Some (empty, (hash_nr pos, data pos))))
    else if negb (has flag HIGHUSED) then
      d ← write_link d high (link_to idx);
      Some (mk_split d (Z.lor (Z.land flag LOWFIND) (Z.lor HIGHFIND HIGHUSED)) empty low (here d idx))
    else Some (mk_split d flag empty low (here d idx)).

Fixpoint split_loop (fuel : nat) (halfbuff blen : Z) (nrec first_index : nat) (st : split) (idx : nat)
    : option split :=
  match fuel with
  | 0 => None
  | S fuel =>
      pos ← get (s_data st) idx;
      if (s_flag st =? 0)%Z && negb (my_hash_mask (hash_nr pos) blen nrec =? first_index) then Some st
      else
        st ← split_step halfbuff st idx;
        pos ← get (s_data st) idx;
        match next pos with
        | None => Some st
        | Some idx => split_loop fuel halfbuff blen nrec first_index st idx
        end
  end.

(** The ends of the new chains. *)
Definition split_end (st : split) : option (links * nat) :=
  d ← (if (Z.land (s_flag st) (Z.lor LOWFIND LOWUSED) =? LOWFIND)%Z
       then write_link (s_data st) (s_low st) None else Some (s_data st));
  d ← (if (Z.land (s_flag st) (Z.lor HIGHFIND HIGHUSED) =? HIGHFIND)%Z
       then write_link d (s_high st) None else Some d);
  Some (d, s_empty st).

(** The array and the index left free by the split. *)
Definition split_bucket (blen : Z) (nrec : nat) (d : links) (empty : nat) : option (links * nat) :=
  let halfbuff := Z.shiftr blen 1 in
  let first_index := Z.to_nat (Z.of_nat nrec - halfbuff) in
  if decide (first_index <> nrec) then
    st ← split_loop nrec halfbuff blen nrec first_index (mk_split d 0 empty None None) first_index;
    split_end st
  else Some (d, empty).

(** Puts a link into its bucket, using the free index. *)
Definition insert_link (blen : Z) (nrec : nat) (d : links) (empty : nat) (h : Z) (record : R)
    : option links :=
  let idx := my_hash_mask h blen (nrec + 1) in
  if decide (idx = empty) then put d idx (mk_link None h record)
  else
    pos ← get d idx;
    d ← put d empty pos;
    let gpos := my_hash_rec_mask pos blen (nrec + 1) in
    if decide (idx = gpos) then put d idx (mk_link (link_to empty) h record)
    else
      d ← set_next d idx None;
      d ← movelink (nrec + 1) d (link_to idx) (uint_of gpos) (link_to empty);
      put d idx (mk_link None h record).

(** After the check for duplicates. *)
Definition insert_record (alloc : bool) (info : HASH) (record : R) (current_hash_nr : Z)
    : option (HASH * bool) :=
  '(a, e) ← alloc_dynamic alloc (array info);
  match e with
  | None => Some (set_array info (blength info) (records info) a, true)
  | Some empty =>
      '(d, empty) ← split_bucket (blength info) (records info) (buffer a) empty;
      d ← insert_link (blength info) (records info) d empty current_hash_nr record;
      let nrec := records info + 1 in
      let blen := if (Z.of_nat nrec =? blength info)%Z then (blength info + blength info)%Z
                  else blength info in
      Some (set_array info blen nrec (set_buffer a d), false)
  end.

(** [true] is an error: a duplicate key or no memory. *)
Definition my_hash_insert (alloc : bool) (mem : memory) (info : HASH) (record : R)
    : option (HASH * bool) :=
  let key := my_hash_key info mem record in
  let current_hash_nr := hash_function key in
  dup ← (if has (flags info) HASH_UNIQUE
         then my_hash_search_using_hash_value info mem current_hash_nr key (length key) else Some None);
  if (dup : option R) then Some (info, true) else insert_record alloc info record current_hash_nr.

(** ** Deleting *)

(** The index of the record and of the link before it. *)
Fixpoint find_record (fuel : nat) (d : links) (record : R) (gpos : option nat) (idx : nat)
    : option (option (option nat * nat)) :=
  match fuel with
  | 0 => None
  | S fuel =>
      pos ← get d idx;
      if decide (data pos = record) then Some (Some (gpos, idx))
      else match next pos with
           | None => Some None
           | Some n => find_record fuel d record (Some idx) n
           end
  end.

(** Takes the link out of its chain; the index that becomes free. *)
Definition remove_link (d : links) (gpos : option nat) (idx : nat) : option (links * nat) :=
  pos ← get d idx;
  match gpos with
  | Some g => d ← set_next d g (next pos); Some (d, idx)
  | None =>
      match next pos with
      | Some n => l ← get d n; d ← put d idx l; Some (d, n)
      | None => Some (d, idx)
      end
  end.

(** Moves the link at the last index, [nrec], away; [blen0] is the size before
    the record was removed, [blen] the size afterwards.  The code keeps
    [empty_index], a [uint], beside the pointer [empty]. *)
Definition move_last (blen0 blen : Z) (nrec : nat) (d : links) (empty : nat) : option links :=
  if decide (empty = nrec) then Some d else
  lastpos ← get d nrec;
  let p := my_hash_mask (hash_nr lastpos) blen nrec in
  if decide (p = empty) then put d empty lastpos else
  pos ← get d p;
  let pos3 := my_hash_mask (hash_nr pos) blen nrec in
  if decide (p <> pos3) then
    d ← put d empty pos;
    d ← put d p lastpos;
    movelink (nrec + 1) d (link_to p) (uint_of pos3) (link_to empty)
  else
    let pos2 := my_hash_mask (hash_nr lastpos) blen0 (nrec + 1) in
    let same := pos2 =? my_hash_mask (hash_nr pos) blen0 (nrec + 1) in
    if same && negb (pos2 =? nrec) then
      d ← put d empty lastpos;
      movelink (nrec + 1) d (link_to nrec) (uint_of p) (link_to empty)
    else
      let idx := if same then link_to p else None in
      d ← put d empty lastpos;
      d ← (pos ← get d p; movelink (nrec + 1) d idx (uint_of empty) (next pos));
      set_next d p (link_to empty).

(** [true] is an error: no such record.  The records given to [hash->free]. *)
Definition my_hash_delete (mem : memory) (hash : HASH) (record : R) : option (HASH * bool * list R) :=
  if decide (records hash = 0) then Some (hash, true, []) else
  let d := buffer (array hash) in
  let idx := my_hash_mask (rec_hashnr hash mem record) (blength hash) (records hash) in
  f ← find_record (records hash) d record None idx;
  match f with
  | None => Some (hash, true, [])
  | Some (gpos, idx) =>
      let nrec := records hash - 1 in
      let blen := if (Z.of_nat nrec <? Z.shiftr (blength hash) 1)%Z then Z.shiftr (blength hash) 1
                  else blength hash in
      '(d, empty) ← remove_link d gpos idx;
      d ← move_last (blength hash) blen nrec d empty;
      let a := (pop_dynamic (set_buffer (array hash) d)).1 in
      Some (set_array hash blen nrec a, false, if has_free hash then [record] else [])
  end.

(** ** Updating *)

(** Is there a record other than [record] with this key? *)
Fixpoint other_with_key (fuel : nat) (hash : HASH) (mem : memory) (key : list Z) (record : R)
    (found : option (nat * R)) : option bool :=
  match found with
  | None => Some false
  | Some (i, r) =>
      if decide (r <> record) then Some true else
      match fuel with
      | 0 => None
      | S fuel =>
          found ← my_hash_next hash mem key (length key) (Some i);
          other_with_key fuel hash mem key record found
      end
  end.

(** Puts the link [org] with the hash number [h] into the bucket [new_index],
    using the free index [empty]. *)
Definition relink (blen : Z) (nrec : nat) (d : links) (empty new_index : nat) (org : HASH_LINK) (h : Z)
    : option links :=
  if decide (new_index = empty) then put d empty (mk_link None h (data org)) else
  pos ← get d new_index;
  let new_pos_index := my_hash_rec_mask pos blen nrec in
  if decide (new_index <> new_pos_index) then
    d ← put d empty pos;
    d ← movelink nrec d (link_to new_index) new_pos_index (link_to empty);
    put d new_index (mk_link None h (data org))
  else
    d ← put d empty (mk_link (next pos) h (data org));
    set_next d new_index (link_to empty).

Definition my_hash_update (mem : memory) (hash : HASH) (record : R) (old_key : list Z) (old_len : nat)
    : option (HASH * bool) :=
  let new_key := my_hash_key hash mem record in
  let h := hash_function new_key in
  dup ← (if has (flags hash) HASH_UNIQUE then
           found ← my_hash_first_from_hash_value hash mem h new_key (length new_key);
           other_with_key (records hash) hash mem new_key record found
         else Some false);
  if (dup : bool) then Some (hash, true) else
  let d := buffer (array hash) in
  let blen := blength hash in
  let nrec := uint_of (records hash) in
  let org_index :=
    my_hash_mask (hash_function (take (if decide (old_len <> 0) then old_len else key_length hash) old_key))
      blen nrec in
  let new_index := my_hash_mask h blen nrec in
  f ← find_record nrec d record None org_index;
  match f with
  | None => Some (hash, true)
  | Some (previous, idx) =>
      org ← get d idx;
      let finish d := Some (set_array hash blen (records hash) (set_buffer (array hash) d), false) in
      if decide (org_index = new_index) then
        d ← put d idx (mk_link (next org) h (data org)); finish d
      else
        '(d, empty) ← remove_link d previous idx;
        d ← relink blen nrec d empty new_index org h;
        finish d
  end.

(** ** Access by position *)

Definition my_hash_element (hash : HASH) (idx : nat) : option (option R) :=
  if decide (idx < records hash) then l ← get (buffer (array hash)) idx; Some (Some (data l))
  else Some None.

Definition my_hash_replace (hash : HASH) (current_record : option nat) (new_row : R) : option HASH :=
  match current_record with
  | Some i =>
      l ← get (buffer (array hash)) i;
      d ← put (buffer (array hash)) i (mk_link (next l) (hash_nr l) new_row);
      Some (set_array hash (blength hash) (records hash) (set_buffer (array hash) d))
  | None => Some hash
  end.

(** [n] records from index [i] on. *)
Fixpoint iterate_from {S} (action : R -> S -> bool * S) (d : links) (i n : nat) (argument : S)
    : option (bool * S) :=
  match n with
  | 0 => Some (false, argument)
  | S n =>
      l ← get d i;
      let '(stop, argument) := action (data l) argument in
      if (stop : bool) then Some (true, argument) else iterate_from action d (i + 1) n argument
  end.

Definition my_hash_iterate {S} (action : R -> S -> bool * S) (hash : HASH) (argument : S)
    : option (bool * S) :=
  iterate_from action (buffer (array hash)) 0 (uint_of (records hash)) argument.

(** ** The consistency check *)

(** One chain: is there an error, and the records found so far.  The counters
    of the check are [uint]. *)
Fixpoint check_chain (fuel : nat) (d : links) (blen : Z) (nrec i : nat) (error : bool) (found : nat)
    (idx : option nat) : option (bool * nat) :=
  match fuel with
  | 0 => None
  | S fuel =>
      match idx with
      | None => Some (error, found)
      | Some x =>
          if decide (found < uint_of (nrec + 1)) then
            let error := error || bool_decide (nrec <= x) in
            l ← get d x;
            if decide (my_hash_rec_mask l blen nrec <> i)
            then check_chain fuel d blen nrec i true found (next l)
            else check_chain fuel d blen nrec i error (uint_of (found + 1)) (next l)
          else Some (error, found)
      end
  end.

Fixpoint check_from (fuel : nat) (hash : HASH) (mem : memory) (i n : nat) (error : bool) (found : nat)
    : option (bool * nat) :=
  match n with
  | 0 => Some (error, found)
  | S n =>
      let d := buffer (array hash) in
      let nrec := uint_of (records hash) in
      l ← get d i;
      let error := error || negb (hash_nr l =? rec_hashnr hash mem (data l))%Z in
      '(error, found) ←
        (if decide (my_hash_rec_mask l (blength hash) nrec = i)
         then check_chain fuel d (blength hash) nrec i error (uint_of (found + 1)) (next l)
         else Some (error, found));
      check_from fuel hash mem (i + 1) n error found
  end.

Definition my_hash_check (hash : HASH) (mem : memory) : option bool :=
  let nrec := uint_of (records hash) in
  '(error, found) ← check_from (nrec + 2) hash mem 0 nrec false 0;
  Some (error || negb (found =? nrec)).

End hash.

Arguments HASH R : clear implicits.
Arguments HASH_LINK R : clear implicits.
Arguments memory R : clear implicits.

Notation links R := (list (option (HASH_LINK R))).

End Hash.
