(* ===== verification/HashChains.v ===== *)
(** * The chains of a hash table

    A table is an array of links whose live positions are divided into chains,
    one for each bucket that is not empty.  The lemmas give the effect on these
    chains of every way in which mysys/hash.c writes to the array. *)

From stdpp Require Import functions.
From S2P Require Import Prelude DynArray Hash.
Import DynArray Hash.

Module HashChains.

Section chains.
Context {R : Type}.
Implicit Types (d : links R) (l : HASH_LINK R) (C : nat -> list nat) (M : list (Z * R)).

(** ** Reading and writing links *)

Lemma put_ok d i l : i < length d -> put d i l = Some (<[i := Some l]> d).
Proof. intros H. unfold put. by rewrite decide_True. Qed.

Lemma get_insert d i l j : i < length d ->
  get (<[i := Some l]> d) j = if decide (j = i) then Some l else get d j.
Proof.
  intros H. unfold get. case_decide; subst.
  - by rewrite list_lookup_insert_eq.
  - by rewrite list_lookup_insert_ne.
Qed.

Lemma get_lt d i l : get d i = Some l -> i < length d.
Proof. unfold get. intros H. destruct (d !! i) eqn:E; [|done]. by apply lookup_lt_Some in E. Qed.

Definition nx d (i : nat) : option (option nat) := next <$> get d i.
Definition entry (l : HASH_LINK R) : Z * R := (hash_nr l, data l).
Definition rec_at d (i : nat) : option (Z * R) := entry <$> get d i.
Definition bk (m : Z -> nat) d (i : nat) : option nat := (fun l => m (hash_nr l)) <$> get d i.

Lemma bk_rec m d d' i j : rec_at d i = rec_at d' j -> bk m d i = bk m d' j.
Proof.
  unfold bk, rec_at. intros H. destruct (get d i) as [[]|], (get d' j) as [[]|]; simplify_eq/=; done.
Qed.

(** ** Chain segments *)

(** From the link [o] one reaches the positions [xs] and then the link [e]. *)
Fixpoint seg d (o : option nat) (xs : list nat) (e : option nat) : Prop :=
  match xs with
  | [] => o = e
  | x :: xs => o = Some x /\ exists n, nx d x = Some n /\ seg d n xs e
  end.

Lemma seg_links_app d xs : forall o ys e,
  seg d o (xs ++ ys) e <-> exists m, seg d o xs m /\ seg d m ys e.
Proof.
  induction xs as [|x xs IH]; intros o ys e; simpl; [naive_solver|].
  setoid_rewrite IH. naive_solver.
Qed.

Lemma seg_ext d d' xs : forall o e,
  (forall x, x ∈ xs -> nx d' x = nx d x) -> seg d o xs e -> seg d' o xs e.
Proof.
  induction xs as [|x xs IH]; intros o e Hext; simpl; [done|].
  intros (-> & n & Hn & Hs). split; [done|]. exists n. split; [rewrite Hext; [done|left]|].
  apply IH; [|done]. intros y Hy. apply Hext. by right.
Qed.

Lemma seg_head d o x xs e : seg d o (x :: xs) e -> o = Some x.
Proof. by intros [-> _]. Qed.

(** A position in the middle of a chain and the one before it. *)
Lemma seg_links_mid d o xs p x ys e :
  seg d o (xs ++ p :: x :: ys) e <->
  seg d o xs (Some p) /\ nx d p = Some (Some x) /\ exists n, nx d x = Some n /\ seg d n ys e.
Proof.
  rewrite seg_links_app. simpl. split.
  - intros (m & H1 & -> & n & H2 & -> & H3). done.
  - intros (H1 & H2 & H3). exists (Some p). split; [done|]. split; [done|]. eauto.
Qed.

Record chain_ok d (m : Z -> nat) (b : nat) (xs : list nat) : Prop := {
  co_seg : seg d (head xs) xs None;
  co_head : forall x, head xs = Some x -> x = b;
  co_nodup : NoDup xs;
  co_bucket : forall x, x ∈ xs -> bk m d x = Some b
}.

Lemma chain_ok_nil d m b : chain_ok d m b [].
Proof. split; simpl; try done; [constructor|]. intros x Hx. by apply elem_of_nil in Hx. Qed.

Lemma chain_ok_ext d d' m b xs :
  (forall x, x ∈ xs -> get d' x = get d x) -> chain_ok d m b xs -> chain_ok d' m b xs.
Proof.
  intros Hext [H1 H2 H3 H4]. split; try done.
  - eapply seg_ext; [|done]. intros x Hx. unfold nx. by rewrite Hext.
  - intros x Hx. unfold bk. rewrite Hext by done. by apply H4.
Qed.

Lemma chain_ok_cons d m b x xs : chain_ok d m b (x :: xs) -> x = b.
Proof. intros [_ H _ _]. by apply H. Qed.

(** ** Contents *)

(** The entries at the live positions, in some order. *)
Definition holds d (P : nat -> Prop) M : Prop :=
  exists ps : list nat, NoDup ps /\ (forall i, i ∈ ps <-> P i) /\ omap (rec_at d) ps ≡ₚ M.

Lemma holds_perm d P M M' : M ≡ₚ M' -> holds d P M -> holds d P M'.
Proof. intros HM (ps & H1 & H2 & H3). exists ps. split_and!; try done. by rewrite H3. Qed.

Lemma omap_ext d d' (ps : list nat) : (forall i, i ∈ ps -> rec_at d' i = rec_at d i) ->
  omap (rec_at d') ps = omap (rec_at d) ps.
Proof.
  induction ps as [|x ps IH]; intros H; [done|]. cbn [omap list_omap]. rewrite (H x) by left.
  rewrite IH; [done|]. intros i Hi. apply H. by right.
Qed.

Lemma holds_ext d d' (P P' : nat -> Prop) M :
  (forall i, P i <-> P' i) -> (forall i, P i -> rec_at d' i = rec_at d i) ->
  holds d P M -> holds d' P' M.
Proof.
  intros HP Hd (ps & H1 & H2 & H3). exists ps. split_and!; try done.
  - intros i. by rewrite H2.
  - rewrite (omap_ext d d'); [done|]. intros i Hi. by apply Hd, H2.
Qed.

Lemma holds_add d (P P' : nat -> Prop) M e r : ~ P e -> (forall i, P' i <-> P i \/ i = e) ->
  rec_at d e = Some r -> holds d P M -> holds d P' (r :: M).
Proof.
  intros He HP Hr (ps & H1 & H2 & H3). exists (e :: ps). split_and!.
  - constructor; [|done]. by rewrite H2.
  - intros i. rewrite elem_of_cons, H2, HP. naive_solver.
  - cbn [omap list_omap]. rewrite Hr. by rewrite H3.
Qed.

Lemma holds_remove d (P P' : nat -> Prop) M x r : P x -> (forall i, P' i <-> P i /\ i <> x) ->
  rec_at d x = Some r -> holds d P M -> exists M', M ≡ₚ r :: M' /\ holds d P' M'.
Proof.
  intros Hx HP Hr (ps & H1 & H2 & H3). apply H2 in Hx.
  apply list_elem_of_split in Hx as (l1 & l2 & ->).
  assert (Hperm : l1 ++ x :: l2 ≡ₚ x :: l1 ++ l2) by (by rewrite Permutation_middle).
  rewrite Hperm in H1. apply NoDup_cons in H1 as [Hn H1].
  exists (omap (rec_at d) (l1 ++ l2)). split.
  - rewrite <-H3, Hperm. cbn [omap list_omap]. by rewrite Hr.
  - exists (l1 ++ l2). split_and!; [done| |done]. intros i. rewrite HP, <-H2.
    rewrite elem_of_app, (elem_of_app l1 (x :: l2)), elem_of_cons.
    split; [|naive_solver]. intros Hi. split; [naive_solver|].
    intros ->. by apply Hn, elem_of_app.
Qed.

(** The entry of [x] goes to the free position [e]. *)
Lemma holds_move d d' (P P' : nat -> Prop) M x e : P x -> ~ P e ->
  (forall i, P' i <-> (P i /\ i <> x) \/ i = e) ->
  rec_at d' e = rec_at d x -> is_Some (rec_at d x) ->
  (forall i, P i -> i <> x -> rec_at d' i = rec_at d i) ->
  holds d P M -> holds d' P' M.
Proof.
  intros Hx He HP Hr [r Hrx] Hd HM.
  destruct (holds_remove d P (fun i => P i /\ i <> x) M x r Hx ltac:(done) Hrx HM) as (M' & HM' & Hh).
  apply (holds_perm _ _ (r :: M')); [done|].
  apply (holds_add _ (fun i => P i /\ i <> x) _ _ e).
  - naive_solver.
  - done.
  - by rewrite Hr.
  - apply (holds_ext d d' (fun i => P i /\ i <> x)); [done| |done]. naive_solver.
Qed.

(** ** Tables *)

Record table d (P : nat -> Prop) (m : Z -> nat) C M : Prop := {
  t_chain : forall b, chain_ok d m b (C b);
  t_dom : forall i, P i <-> exists b, i ∈ C b;
  t_holds : holds d P M
}.

Definition add (P : nat -> Prop) (e i : nat) : Prop := P i \/ i = e.
Definition rem (P : nat -> Prop) (x i : nat) : Prop := P i /\ i <> x.

Lemma table_P d (P P' : nat -> Prop) m C M : (forall i, P i <-> P' i) -> table d P m C M -> table d P' m C M.
Proof.
  intros HP [H1 H2 H3]. split; [done| |by eapply holds_ext].
  intros i. by rewrite <-HP, H2.
Qed.

Lemma table_M d P m C M M' : M ≡ₚ M' -> table d P m C M -> table d P m C M'.
Proof. intros HM [H1 H2 H3]. split; [done..|]. by eapply holds_perm. Qed.

Section table.
Context d (P : nat -> Prop) (m : Z -> nat) C M (T : table d P m C M).

Lemma table_live b i : i ∈ C b -> P i.
Proof. intros Hi. apply (t_dom _ _ _ _ _ T). eauto. Qed.

Lemma table_bucket b i : i ∈ C b -> bk m d i = Some b.
Proof. apply (t_chain _ _ _ _ _ T b). Qed.

Lemma table_disj b b' i : i ∈ C b -> i ∈ C b' -> b = b'.
Proof. intros H1%table_bucket H2%table_bucket. congruence. Qed.

Lemma table_get i : P i -> exists l, get d i = Some l /\ i ∈ C (m (hash_nr l)).
Proof.
  intros [b Hi]%(t_dom _ _ _ _ _ T). pose proof (table_bucket b i Hi) as Hb. unfold bk in Hb.
  destruct (get d i) as [l|]; simplify_eq/=. eauto.
Qed.

Lemma table_lt i : P i -> i < length d.
Proof. intros (l & Hl & _)%table_get. by eapply get_lt. Qed.

Lemma table_in i l : P i -> get d i = Some l -> i ∈ C (m (hash_nr l)).
Proof. intros (l' & Hl & Hi)%table_get ?. by simplify_eq. Qed.

Lemma table_cons b x xs : C b = x :: xs -> x = b.
Proof. intros Hb. pose proof (t_chain _ _ _ _ _ T b) as Hc. rewrite Hb in Hc. by eapply chain_ok_cons. Qed.

Lemma table_free b : ~ P b -> C b = [].
Proof.
  intros Hb. destruct (C b) as [|x xs] eqn:E; [done|]. pose proof (table_cons b x xs E) as ->.
  destruct Hb. apply (table_live b). rewrite E. left.
Qed.

(** A position that is in the chain of its own index is the first of it. *)
Lemma table_own b : b ∈ C b -> exists ys, C b = b :: ys.
Proof.
  intros Hb. destruct (C b) as [|x xs] eqn:E; [by apply elem_of_nil in Hb|].
  pose proof (table_cons b x xs E) as ->. eauto.
Qed.

(** Any other position has one before it. *)
Lemma table_other b x : x ∈ C b -> x <> b -> exists xs p ys, C b = xs ++ p :: x :: ys.
Proof.
  intros Hx Hne. apply list_elem_of_split in Hx as (l1 & l2 & E).
  destruct l1 as [|p l1 _] using rev_ind; [by apply table_cons in E|].
  exists l1, p, l2. rewrite E. by rewrite <-app_assoc.
Qed.

Lemma table_wrong b l : get d b = Some l -> P b -> m (hash_nr l) <> b -> C b = [].
Proof.
  intros Hl Hb Hne. destruct (C b) as [|x xs] eqn:E; [done|]. pose proof (table_cons b x xs E) as ->.
  assert (Hin : b ∈ C b) by (rewrite E; left). apply table_bucket in Hin. unfold bk in Hin.
  rewrite Hl in Hin. by simplify_eq/=.
Qed.

(** Replacing one chain. *)
Lemma table_change d' (P' : nat -> Prop) b xs M' :
  chain_ok d' m b xs ->
  (forall b' i, b' <> b -> i ∈ C b' -> get d' i = get d i) ->
  (forall i, P' i <-> i ∈ xs \/ (P i /\ i ∉ C b)) ->
  holds d' P' M' -> table d' P' m (<[b:=xs]> C) M'.
Proof.
  intros Hxs Hother HP HM. split; [| |done].
  - intros b'. destruct (decide (b = b')) as [<-|Hne]; [by rewrite fn_lookup_insert|].
    rewrite fn_lookup_insert_ne by done. eapply chain_ok_ext; [|apply (t_chain _ _ _ _ _ T)].
    intros x Hx. by apply (Hother b').
  - intros i. rewrite HP. split.
    + intros [Hi|[Hi Hni]]; [exists b; by rewrite fn_lookup_insert|].
      apply (t_dom _ _ _ _ _ T) in Hi as [b' Hi]. exists b'. rewrite fn_lookup_insert_ne; [done|].
      by intros ->.
    + intros [b' Hi]. destruct (decide (b = b')) as [<-|Hne]; [rewrite fn_lookup_insert in Hi; by left|].
      rewrite fn_lookup_insert_ne in Hi by done. right. split; [by eapply table_live|].
      intros Hb. by apply Hne, (table_disj _ _ i).
Qed.

(** ** Steps *)

(** A record alone in its bucket. *)
Lemma table_add_single d' p l : ~ P p -> next l = None -> m (hash_nr l) = p -> get d' p = Some l ->
  (forall i, P i -> get d' i = get d i) ->
  table d' (add P p) m (<[p:=[p]]> C) (entry l :: M).
Proof.
  intros Hp Hn Hm Hl Hd. apply table_change.
  - split; simpl.
    + split; [done|]. exists None. unfold nx. rewrite Hl. simpl. by rewrite Hn.
    + by intros x [= ->].
    + apply NoDup_singleton.
    + intros x ->%list_elem_of_singleton. unfold bk. rewrite Hl. simpl. by rewrite Hm.
  - intros b' i _ Hi. by apply Hd, (table_live b').
  - intros i. rewrite (table_free p Hp), list_elem_of_singleton. unfold add.
    split; [intros [?| ->]; [right; split; [done|apply not_elem_of_nil]|by left]|intros [-> |[? _]]; auto].
  - apply (holds_add d' P _ _ p); [done|done|by unfold rec_at; rewrite Hl|].
    apply (holds_ext d d' P); [done| |apply (t_holds _ _ _ _ _ T)].
    intros i Hi. unfold rec_at. by rewrite Hd.
Qed.

(** A record that is not the first of its chain goes to a free position. *)
Lemma table_move d' g xs p x ys e : C g = xs ++ p :: x :: ys -> ~ P e ->
  get d' e = get d x -> nx d' p = Some (Some e) -> rec_at d' p = rec_at d p ->
  (forall i, P i -> i <> p -> i <> x -> get d' i = get d i) ->
  table d' (add (rem P x) e) m (<[g := xs ++ p :: e :: ys]> C) M.
Proof.
  intros Hg He Hde Hnp Hrp Hd. pose proof (t_chain _ _ _ _ _ T g) as [Hs Hh Hnd Hb]. rewrite Hg in *.
  apply NoDup_app in Hnd as (Hnd1 & Hnd2 & Hnd3).
  apply NoDup_cons in Hnd3 as [Hp Hnd3]. apply NoDup_cons in Hnd3 as [Hx Hnd3].
  assert (Hlive : forall i, i ∈ xs ++ p :: x :: ys -> P i) by (rewrite <-Hg; apply table_live).
  assert (Hxl : P x) by (apply Hlive; set_solver).
  assert (Hsame : forall i, i ∈ xs \/ i ∈ ys -> get d' i = get d i).
  { intros i Hi. apply Hd; [apply Hlive; set_solver|..].
    - intros ->. destruct Hi as [Hi|Hi]; [by apply (Hnd2 p Hi); left|by apply Hp; right].
    - intros ->. destruct Hi as [Hi|Hi]; [by apply (Hnd2 x Hi); right; left|done]. }
  apply table_change.
  - split.
    + apply seg_links_mid in Hs as (H1 & H2 & n & H3 & H4). apply seg_links_mid. split_and!; [|done|].
      * replace (head (xs ++ p :: e :: ys)) with (head (xs ++ p :: x :: ys)) by (by destruct xs).
        eapply seg_ext; [|done]. intros i Hi. unfold nx. by rewrite Hsame by auto.
      * exists n. unfold nx in *. rewrite Hde. split; [done|].
        eapply seg_ext; [|done]. intros i Hi. unfold nx. by rewrite Hsame by auto.
    + intros y Hy. apply Hh. by destruct xs.
    + apply NoDup_app. split_and!; [done| |].
      * intros i Hi [->|[->|Hi']%elem_of_cons]%elem_of_cons.
        -- by apply (Hnd2 p Hi); left.
        -- apply He, Hlive. set_solver.
        -- apply (Hnd2 i Hi). by do 2 right.
      * constructor; [|constructor; [|done]].
        -- intros [->|Hi]%elem_of_cons; [apply He, Hlive; set_solver|by apply Hp; right].
        -- intros Hi. apply He, Hlive. set_solver.
    + intros i Hi. apply elem_of_app in Hi as [Hi|[->|[->|Hi]%elem_of_cons]%elem_of_cons].
      * unfold bk. rewrite Hsame by auto. apply Hb. set_solver.
      * rewrite (bk_rec m d' d p p Hrp). apply Hb. set_solver.
      * unfold bk. rewrite Hde. apply Hb. set_solver.
      * unfold bk. rewrite Hsame by auto. apply Hb. set_solver.
  - intros b' i Hne Hi. apply Hd; [by eapply table_live|..]; intros ->.
    + apply Hne, (table_disj _ _ p); [done|]. rewrite Hg. set_solver.
    + apply Hne, (table_disj _ _ x); [done|]. rewrite Hg. set_solver.
  - intros i. unfold add, rem. rewrite Hg, !elem_of_app, !elem_of_cons. split.
    + intros [[Hi Hne]| ->]; [|auto]. destruct (decide (i ∈ xs ++ p :: x :: ys)) as [Hin|Hin].
      * apply elem_of_app in Hin as [?|[?|[?|?]%elem_of_cons]%elem_of_cons]; (done || auto).
      * right. split; [done|]. intros Hin'. apply Hin. rewrite elem_of_app, !elem_of_cons. naive_solver.
    + intros [[Hi|[->|[->|Hi]]]|[Hi Hni]]; auto.
      * left. split; [apply Hlive; set_solver|]. intros ->. apply (Hnd2 x Hi). right. left.
      * left. split; [apply Hlive; set_solver|]. intros ->. apply Hp. left.
      * left. split; [apply Hlive; set_solver|]. by intros ->.
      * left. split; [done|]. intros ->. apply Hni. auto.
  - apply (holds_move d d' P _ _ x e); try done.
    + unfold rec_at. by rewrite Hde.
    + destruct (table_get x Hxl) as (l & Hl & _). unfold rec_at. rewrite Hl. eauto.
    + intros i Hi Hne. destruct (decide (i = p)) as [->|]; [done|]. unfold rec_at. by rewrite Hd.
    + apply (t_holds _ _ _ _ _ T).
Qed.

Lemma chain_facts g (l1 l2 : list nat) : C g = l1 ++ l2 ->
  (forall i, i ∈ l1 -> P i) /\ (forall i, i ∈ l2 -> P i) /\ NoDup l1 /\ NoDup l2 /\
  (forall i, i ∈ l1 -> i ∉ l2) /\ forall i, i ∈ l1 ++ l2 -> bk m d i = Some g.
Proof.
  intros Hg. pose proof (t_chain _ _ _ _ _ T g) as [_ _ Hnd Hb]. rewrite Hg in *.
  apply NoDup_app in Hnd as (H1 & H2 & H3). split_and!; try done;
    intros i Hi; apply (table_live g); rewrite Hg; set_solver.
Qed.

(** The live positions when [x] leaves the chain [g]. *)
Lemma rem_dom g (l1 : list nat) x (l2 : list nat) i : C g = l1 ++ x :: l2 ->
  rem P x i <-> i ∈ l1 ++ l2 \/ (P i /\ i ∉ C g).
Proof.
  intros Hg. destruct (chain_facts g _ _ Hg) as (H1 & H2 & _ & Hnd & H3 & _).
  apply NoDup_cons in Hnd as [Hx _]. unfold rem. rewrite Hg, !elem_of_app, elem_of_cons. split.
  - intros [Hi Hne]. destruct (decide (i ∈ l1)); [by left; left|].
    destruct (decide (i ∈ l2)); [by left; right|]. right. naive_solver.
  - intros [[Hi|Hi]|[Hi Hni]].
    + split; [by apply H1|]. intros ->. apply (H3 _ Hi). left.
    + split; [apply H2; by right|]. by intros ->.
    + split; [done|]. intros ->. apply Hni. auto.
Qed.

Lemma table_remove_holds (d' : links R) (P' : nat -> Prop) x r : P x -> rec_at d x = Some r ->
  (forall i, P' i <-> rem P x i) -> (forall i, rem P x i -> rec_at d' i = rec_at d i) ->
  exists M', M ≡ₚ r :: M' /\ holds d' P' M'.
Proof.
  intros Hx Hr HP Hd. destruct (holds_remove d P (rem P x) M x r Hx ltac:(done) Hr (t_holds _ _ _ _ _ T))
    as (M' & HM & Hh).
  exists M'. split; [done|]. apply (holds_ext d d' (rem P x)); [|done|done]. intros i. by rewrite HP.
Qed.

(** A record that is not the first of its chain is taken out. *)
Lemma table_unlink d' g xs p x ys l : C g = xs ++ p :: x :: ys -> get d x = Some l ->
  nx d' p = Some (next l) -> rec_at d' p = rec_at d p ->
  (forall i, P i -> i <> p -> i <> x -> get d' i = get d i) ->
  exists M', M ≡ₚ entry l :: M' /\ table d' (rem P x) m (<[g := xs ++ p :: ys]> C) M'.
Proof.
  intros Hg Hl Hnp Hrp Hd. pose proof (t_chain _ _ _ _ _ T g) as [Hs Hh _ _]. rewrite Hg in Hs, Hh.
  destruct (chain_facts g (xs ++ [p]) (x :: ys)) as (L1 & L2 & N1 & N2 & D & B); [by rewrite Hg, <-app_assoc|].
  apply NoDup_cons in N2 as [Hx N2]. apply NoDup_app in N1 as (N1 & Dp & _).
  assert (Hsame : forall i, i ∈ xs \/ i ∈ ys -> get d' i = get d i).
  { intros i Hi. apply Hd.
    - destruct Hi; [apply L1|apply L2]; set_solver.
    - intros ->. destruct Hi as [Hi|Hi]; [apply (Dp p Hi); set_solver|apply (D p); set_solver].
    - intros ->. destruct Hi as [Hi|Hi]; [apply (D x); set_solver|done]. }
  destruct (table_remove_holds d' (rem P x) x (entry l)) as (M' & HM & HM'); [apply L2; left| |done| |].
  { unfold rec_at. by rewrite Hl. }
  { intros i [Hi Hne]. destruct (decide (i = p)) as [->|]; [done|]. unfold rec_at. by rewrite Hd. }
  exists M'. split; [done|]. apply table_change; [split| | |done].
  - apply seg_links_mid in Hs as (H1 & H2 & n & H3 & H4). apply seg_links_app. exists (Some p). split.
    + replace (head (xs ++ p :: ys)) with (head (xs ++ p :: x :: ys)) by (by destruct xs).
      eapply seg_ext; [|done]. intros i Hi. unfold nx. by rewrite Hsame by auto.
    + simpl. split; [done|]. exists n. unfold nx in H3. rewrite Hl in H3. simplify_eq/=. split; [done|].
      eapply seg_ext; [|done]. intros i Hi. unfold nx. by rewrite Hsame by auto.
  - intros y Hy. apply Hh. by destruct xs.
  - apply NoDup_app. split_and!; [done|intros i Hi [->|Hi']%elem_of_cons|constructor; [|done]].
    + apply (Dp p Hi). left.
    + apply (D i); set_solver.
    + intros Hp. apply (D p); set_solver.
  - intros i Hi. destruct (decide (i = p)) as [->|Hne].
    + rewrite (bk_rec m d' d p p Hrp). apply B. set_solver.
    + unfold bk. rewrite Hsame by set_solver. apply B. set_solver.
  - intros b' i Hne Hi. apply Hd; [by eapply table_live|..]; intros ->; apply Hne;
      [apply (table_disj _ _ p)|apply (table_disj _ _ x)]; try done; rewrite Hg; set_solver.
  - intros i. rewrite (rem_dom g (xs ++ [p]) x ys) by (by rewrite Hg, <-app_assoc). by rewrite <-app_assoc.
Qed.

(** The first record of a chain is taken out: the second one takes its place. *)
Lemma table_unlink_first d' b y ys l : C b = b :: y :: ys -> get d b = Some l -> get d' b = get d y ->
  (forall i, P i -> i <> b -> i <> y -> get d' i = get d i) ->
  exists M', M ≡ₚ entry l :: M' /\ table d' (rem P y) m (<[b := b :: ys]> C) M'.
Proof.
  intros Hb Hl Hdb Hd. pose proof (t_chain _ _ _ _ _ T b) as [Hs _ _ _]. rewrite Hb in Hs.
  destruct (chain_facts b [b; y] ys) as (L1 & L2 & N1 & N2 & D & B); [done|].
  apply NoDup_cons in N1 as [Hne _]. rewrite list_elem_of_singleton in Hne.
  assert (Hsame : forall i, i ∈ ys -> get d' i = get d i).
  { intros i Hi. apply Hd; [by apply L2|..]; intros ->; eapply D; [|done|  |done]; set_solver. }
  assert (Hbl : P b) by (apply L1; left).
  assert (Hyl : P y) by (apply L1; right; left).
  destruct (holds_remove d P (rem P b) M b (entry l)) as (M' & HM & HM');
    [done|done|by unfold rec_at; rewrite Hl|apply (t_holds _ _ _ _ _ T)|].
  exists M'. split; [done|]. apply table_change; [split| | |].
  - simpl in *. destruct Hs as (_ & n & Hn & -> & n' & Hn' & Hs). split; [done|].
    exists n'. split; [unfold nx in *; by rewrite Hdb|].
    eapply seg_ext; [|done]. intros i Hi. unfold nx. by rewrite Hsame.
  - by intros x [= ->].
  - constructor; [|done]. intros Hi. eapply D; [left|done].
  - intros i [->|Hi]%elem_of_cons.
    + unfold bk. rewrite Hdb. apply B. set_solver.
    + unfold bk. rewrite Hsame by done. apply B. set_solver.
  - intros b' i Hne' Hi. apply Hd; [by eapply table_live|..]; intros ->; apply Hne';
      [apply (table_disj _ _ b)|apply (table_disj _ _ y)]; try done; rewrite Hb; set_solver.
  - intros i. by rewrite (rem_dom b [b] y ys).
  - apply (holds_move d d' (rem P b) _ _ y b).
    + split; [done|]. congruence.
    + by intros [_ ?].
    + intros i. unfold rem. split; [|naive_solver]. intros [Hi Hiy]. destruct (decide (i = b)); auto.
    + unfold rec_at. by rewrite Hdb.
    + destruct (table_get y Hyl) as (l' & Hl' & _). unfold rec_at. rewrite Hl'. eauto.
    + intros i [Hi Hib] Hiy. unfold rec_at. by rewrite Hd.
    + done.
Qed.

Lemma table_unlink_only b l : C b = [b] -> get d b = Some l ->
  exists M', M ≡ₚ entry l :: M' /\ table d (rem P b) m (<[b := []]> C) M'.
Proof.
  intros Hb Hl. destruct (table_remove_holds d (rem P b) b (entry l)) as (M' & HM & HM').
  { apply (table_live b). rewrite Hb. left. }
  { unfold rec_at. by rewrite Hl. }
  { done. }
  { done. }
  exists M'. split; [done|]. apply table_change; [apply chain_ok_nil|done| |done].
  intros i. by rewrite (rem_dom b [] b []).
Qed.

(** A record goes behind the first one of its bucket, or before it with the
    first one moved to the free position. *)
Lemma table_add_second d' b ys e l r : C b = b :: ys -> ~ P e -> get d b = Some l ->
  nx d' e = Some (next l) -> nx d' b = Some (Some e) -> bk m d' e = Some b -> bk m d' b = Some b ->
  (rec_at d' b = Some (entry l) /\ rec_at d' e = Some r \/
   rec_at d' e = Some (entry l) /\ rec_at d' b = Some r) ->
  (forall i, P i -> i <> b -> get d' i = get d i) ->
  table d' (add P e) m (<[b := b :: e :: ys]> C) (r :: M).
Proof.
  intros Hb He Hl Hne Hnb Hbe Hbb Hr Hd. pose proof (t_chain _ _ _ _ _ T b) as [Hs _ _ _]. rewrite Hb in Hs.
  destruct (chain_facts b [b] ys) as (L1 & L2 & N1 & N2 & D & B); [done|].
  assert (Hbl : P b) by (apply L1; left).
  assert (Hsame : forall i, i ∈ ys -> get d' i = get d i).
  { intros i Hi. apply Hd; [by apply L2|]. intros ->. eapply D; [left|done]. }
  assert (Hdr : forall i, P i -> i <> b -> rec_at d' i = rec_at d i).
  { intros i Hi Hib. unfold rec_at. by rewrite Hd. }
  apply table_change; [split| | |].
  - simpl in *. destruct Hs as (_ & n & Hn & Hs). split; [done|]. exists (Some e). split; [done|].
    split; [done|]. exists n. unfold nx in Hn. rewrite Hl in Hn. simplify_eq/=. split; [done|].
    eapply seg_ext; [|done]. intros i Hi. unfold nx. by rewrite Hsame.
  - by intros x [= ->].
  - constructor; [|constructor; [|done]].
    + intros [->|Hi]%elem_of_cons; [done|]. eapply D; [left|done].
    + intros Hi. by apply He, L2.
  - intros i [->|[->|Hi]%elem_of_cons]%elem_of_cons; [done..|].
    unfold bk. rewrite Hsame by done. apply B. set_solver.
  - intros b' i Hne' Hi. apply Hd; [by eapply table_live|]. intros ->.
    apply Hne', (table_disj _ _ b); [done|]. rewrite Hb. left.
  - intros i. unfold add. rewrite Hb, !elem_of_cons. split.
    + intros [Hi| ->]; [|auto]. destruct (decide (i = b)), (decide (i ∈ ys)); naive_solver.
    + intros [[->|[->|Hi]]|[Hi _]]; auto.
  - destruct (holds_remove d P (rem P b) M b (entry l)) as (M' & HM & HM');
      [done|done|by unfold rec_at; rewrite Hl|apply (t_holds _ _ _ _ _ T)|].
    assert (Hh : holds d' (rem P b) M').
    { apply (holds_ext d d' (rem P b)); [done| |done]. intros i [Hi Hib]. by apply Hdr. }
    assert (Hadd : forall r1 r2, rec_at d' b = Some r1 -> rec_at d' e = Some r2 ->
              holds d' (add P e) (r2 :: r1 :: M')).
    { intros r1 r2 H1 H2. apply (holds_add d' P _ _ e); [done|done|done|].
      apply (holds_add d' (rem P b) _ _ b); [by intros [_ ?]| |done|done].
      intros i. unfold rem. destruct (decide (i = b)); naive_solver. }
    destruct Hr as [[H1 H2]|[H1 H2]].
    + apply (holds_perm _ _ (r :: entry l :: M')); [by rewrite HM|]. by apply Hadd.
    + apply (holds_perm _ _ (entry l :: r :: M')); [by rewrite HM, perm_swap|]. by apply Hadd.
Qed.

End table.

End chains.

End HashChains.
