(* ===== verification/HashSteps.v ===== *)
(** * The operations on the array of a hash table

    Each part of the operations of mysys/hash.c that changes the array of links,
    with its effect on the chains: putting a link into its bucket, taking one
    out, splitting a bucket when the table grows and merging two when it
    shrinks. *)

From stdpp Require Import functions.
From S2P Require Import Prelude DynArray Hash HashChains.
Import DynArray Hash HashChains.

Module HashSteps.

(** ** Buckets *)

Section mask.

(** [n] records in a table of size [b]. *)
Definition size_ok (b : Z) (n : nat) : Prop :=
  exists k, b = (2 ^ k)%Z /\ (0 <= k)%Z /\ (b <= 2 * Z.of_nat n + 1)%Z /\ (Z.of_nat n < b)%Z.

Lemma land_mask h k : (0 <= k)%Z -> Z.land h (2 ^ k - 1) = (h mod 2 ^ k)%Z.
Proof. intros Hk. rewrite <-Z.land_ones by done. by rewrite Z.ones_equiv, Z.sub_1_r. Qed.

Lemma land_pow2 h j : (0 <= j)%Z -> (Z.land h (2 ^ j) =? 0)%Z = negb (Z.testbit h j).
Proof.
  intros Hj. destruct (Z.testbit h j) eqn:E; simpl.
  - apply Z.eqb_neq. intros H. assert (Z.testbit (Z.land h (2 ^ j)) j = true).
    { by rewrite Z.land_spec, E, Z.pow2_bits_true. }
    rewrite H, Z.bits_0 in *. done.
  - apply Z.eqb_eq, Z.bits_inj'. intros i Hi. rewrite Z.land_spec, Z.bits_0, Z.pow2_bits_eqb by done.
    destruct (Z.eqb_spec j i) as [->|]; [by rewrite E|by rewrite andb_false_r].
Qed.

Lemma mod_double h j : (0 <= j)%Z ->
  (h mod 2 ^ (j + 1) = h mod 2 ^ j + (if Z.testbit h j then 2 ^ j else 0))%Z.
Proof.
  intros Hj. pose proof (Z.pow_pos_nonneg 2 j ltac:(lia) Hj) as Hp.
  rewrite Z.pow_add_r by lia. change (2 ^ 1)%Z with 2%Z. rewrite Z.rem_mul_r by lia.
  pose proof (Z.testbit_spec' h j Hj) as Hb. destruct (Z.testbit h j); simpl in Hb; lia.
Qed.

(** The mask with a table of size [2^(j+1)] and [n] records, as arithmetic. *)
Lemma mask_eq h j n : (0 <= j < 64)%Z ->
  my_hash_mask h (2 ^ (j + 1)) n =
    if (h mod 2 ^ (j + 1) <? Z.of_nat n)%Z then Z.to_nat (h mod 2 ^ (j + 1)) else Z.to_nat (h mod 2 ^ j).
Proof.
  intros Hj. unfold my_hash_mask. rewrite land_mask by lia.
  rewrite Z.shiftr_div_pow2, Z.pow_add_r by lia. rewrite Z.div_mul by done.
  pose proof (Z.pow_pos_nonneg 2 j ltac:(lia) ltac:(lia)) as Hp.
  assert (2 ^ j < 2 ^ 64)%Z by (apply Z.pow_lt_mono_r; lia).
  rewrite u64_small by lia. by rewrite land_mask by lia.
Qed.

(** The bucket that is split when a table of [n > 0] records grows. *)
Definition buddy (b : Z) (n : nat) : nat := Z.to_nat (Z.of_nat n - Z.shiftr b 1).

Lemma size_ok_pow b n : size_ok b n -> 0 < n -> (b < 2 ^ 64)%Z ->
  exists j, b = (2 ^ (j + 1))%Z /\ (0 <= j < 64)%Z /\ Z.shiftr b 1 = (2 ^ j)%Z /\
    (2 ^ j <= Z.of_nat n < 2 ^ (j + 1))%Z /\ Z.of_nat (buddy b n) = (Z.of_nat n - 2 ^ j)%Z /\
    (2 ^ (j + 1) = 2 * 2 ^ j)%Z.
Proof.
  intros (k & -> & Hk & Hb1 & Hb2) Hn Hb. assert (k <> 0)%Z by (intros ->; simpl in *; lia).
  exists (k - 1)%Z. replace (k - 1 + 1)%Z with k by lia.
  assert (Hsh : Z.shiftr (2 ^ k) 1 = (2 ^ (k - 1))%Z).
  { rewrite Z.shiftr_div_pow2 by lia. change (2 ^ 1)%Z with 2%Z.
    replace k with (1 + (k - 1))%Z at 1 by lia. rewrite Z.pow_add_r by lia.
    rewrite Z.mul_comm. by apply Z.div_mul. }
  assert (Hd : (2 ^ k = 2 * 2 ^ (k - 1))%Z).
  { replace k with (1 + (k - 1))%Z at 1 by lia. rewrite Z.pow_add_r by lia. done. }
  split; [done|]. split; [split; [lia|]|split_and!; try done; try lia].
  - destruct (Z.lt_ge_cases (k - 1) 64); [done|].
    assert (2 ^ 64 <= 2 ^ k)%Z by (apply Z.pow_le_mono_r; lia). lia.
  - unfold buddy. rewrite Hsh. lia.
Qed.

Lemma buddy_lt b n : size_ok b n -> 0 < n -> (b < 2 ^ 64)%Z -> buddy b n < n.
Proof.
  intros Hs Hn Hb. destruct (size_ok_pow b n Hs Hn Hb) as (j & _ & Hj & _ & _ & Hbd & _).
  pose proof (Z.pow_pos_nonneg 2 j ltac:(lia) ltac:(lia)). lia.
Qed.

Lemma mask_lt h b n : size_ok b n -> 0 < n -> (b < 2 ^ 64)%Z -> my_hash_mask h b n < n.
Proof.
  intros Hs Hn Hb. destruct (size_ok_pow b n Hs Hn Hb) as (j & -> & Hj & _ & Hjn & _ & Hd).
  rewrite mask_eq by done. pose proof (Z.mod_pos_bound h (2 ^ j) ltac:(lia)).
  pose proof (Z.mod_pos_bound h (2 ^ (j + 1)) ltac:(lia)).
  destruct (Z.ltb_spec (h mod 2 ^ (j + 1)) (Z.of_nat n)); lia.
Qed.

(** Growing by one record moves, of the bucket that is split, the records with
    the next bit of the hash number set to the new bucket [n]. *)
Lemma mask_grow h b n : size_ok b n -> 0 < n -> (b < 2 ^ 64)%Z ->
  my_hash_mask h b (n + 1) =
    if (my_hash_mask h b n =? buddy b n) && negb (Z.land h (Z.shiftr b 1) =? 0)%Z
    then n else my_hash_mask h b n.
Proof.
  intros Hs Hn Hb. destruct (size_ok_pow b n Hs Hn Hb) as (j & -> & Hj & -> & Hjn & Hbd & Hd).
  rewrite land_pow2 by lia. rewrite negb_involutive, !mask_eq by done.
  pose proof (mod_double h j ltac:(lia)) as Hm. pose proof (Z.mod_pos_bound h (2 ^ j) ltac:(lia)).
  pose proof (Z.mod_pos_bound h (2 ^ (j + 1)) ltac:(lia)).
  destruct (Z.ltb_spec (h mod 2 ^ (j + 1)) (Z.of_nat n)), (Z.ltb_spec (h mod 2 ^ (j + 1)) (Z.of_nat (n + 1)));
    destruct (Z.testbit h j); rewrite ?andb_true_r, ?andb_false_r; try lia;
    match goal with |- context [?a =? ?b] => destruct (Nat.eqb_spec a b) end; lia.
Qed.

(** Doubling the size leaves the buckets as they are. *)
Lemma mask_double h b : (exists k, b = 2 ^ k /\ 0 <= k < 63)%Z ->
  my_hash_mask h (b + b) (Z.to_nat b) = my_hash_mask h b (Z.to_nat b).
Proof.
  intros (k & -> & Hk). pose proof (Z.pow_pos_nonneg 2 k ltac:(lia) ltac:(lia)) as Hp.
  replace (2 ^ k + 2 ^ k)%Z with (2 ^ (k + 1))%Z by (rewrite Z.pow_add_r; lia).
  rewrite mask_eq by lia. unfold my_hash_mask at 1. rewrite land_mask by lia.
  pose proof (mod_double h k ltac:(lia)). pose proof (Z.mod_pos_bound h (2 ^ k) ltac:(lia)).
  rewrite (proj2 (Z.ltb_lt (h mod 2 ^ k) _)) by lia.
  destruct (Z.testbit h k), (Z.ltb_spec (h mod 2 ^ (k + 1)) (Z.of_nat (Z.to_nat (2 ^ k)))); lia.
Qed.

End mask.

(** ** Moving links *)

Lemma uint_of_small i : (Z.of_nat i < 2 ^ 32)%Z -> uint_of i = i.
Proof. intros Hi. unfold uint_of. rewrite u32_small by lia. apply Nat2Z.id. Qed.

Lemma link_to_small i : (Z.of_nat i < NO_RECORD)%Z -> link_to i = Some i.
Proof.
  unfold NO_RECORD. intros Hi. unfold link_to. rewrite u32_small, uint_of_small by lia.
  by rewrite (proj2 (Z.eqb_neq _ NO_RECORD)) by (unfold NO_RECORD; lia).
Qed.

(** The index [2^32 - 1] cannot be linked to: it reads as the end of a chain. *)
Lemma link_to_lost i : Z.of_nat i = NO_RECORD -> link_to i = None.
Proof. intros Hi. unfold link_to. rewrite Hi, u32_small by (unfold NO_RECORD; lia). by rewrite Z.eqb_refl. Qed.

(** Indices below a bound a [uint] holds. *)
Ltac narrow := rewrite ?link_to_small, ?uint_of_small by (unfold NO_RECORD in *; lia).

Section steps.
Context {R : Type}.
Implicit Types (d : links R) (l : HASH_LINK R) (C : nat -> list nat) (M : list (Z * R)).

Lemma NoDup_bounded (xs : list nat) n : NoDup xs -> (forall x, x ∈ xs -> x < n) -> length xs <= n.
Proof.
  intros Hnd Hlt. rewrite <-(length_seq n 0). apply submseteq_length, NoDup_submseteq; [done|].
  intros x Hx%Hlt. apply elem_of_seq. lia.
Qed.

Lemma set_next_ok d i n l : get d i = Some l ->
  set_next d i n = Some (<[i := Some (mk_link n (hash_nr l) (data l))]> d).
Proof. intros Hl. unfold set_next. rewrite Hl. simpl. rewrite put_ok; [done|]. by eapply get_lt. Qed.

Lemma movelink_spec d p find new l xs : forall fuel start,
  seg d (Some start) (xs ++ [p]) find -> (forall x, x ∈ xs ++ [p] -> find <> Some x) ->
  length xs < fuel -> get d p = Some l ->
  movelink fuel d find start new = Some (<[p := Some (mk_link new (hash_nr l) (data l))]> d).
Proof.
  induction xs as [|x xs IH]; intros [|fuel] start Hs Hf Hlen Hl; simpl in Hlen; try lia.
  - simpl in Hs. destruct Hs as ([= ->] & n & Hn & ->). simpl. unfold nx in Hn. rewrite Hl in *. simplify_eq/=.
    rewrite decide_True by done. by apply set_next_ok.
  - simpl in Hs. destruct Hs as ([= ->] & n & Hn & Hs). simpl. unfold nx in Hn.
    destruct (get d x) as [lx|]; simplify_eq/=.
    assert (exists y, next lx = Some y /\ y ∈ xs ++ [p]) as (y & Hy & Hyin).
    { destruct xs as [|y xs]; destruct Hs as [-> _]; eexists; (split; [done|]); set_solver. }
    rewrite Hy in *. rewrite decide_False by (intros Heq; apply (Hf y); [by right|done]).
    apply IH; [done| |lia|done]. intros z Hz. apply Hf. by right.
Qed.

Section table.
Context d (P : nat -> Prop) (m : Z -> nat) C M (T : table d P m C M) (N : nat) (HN : forall i, P i -> i < N).

Lemma chain_length b : length (C b) <= N.
Proof.
  apply NoDup_bounded; [apply (t_chain _ _ _ _ _ T b)|]. intros x Hx. by apply HN, (table_live _ _ _ _ _ T b).
Qed.

(** The record at [idx] belongs to another bucket; it goes to the free
    position [e] (where [d2] has it already) and [idx] becomes free. *)
Lemma relocate d2 idx l e : P idx -> get d idx = Some l -> m (hash_nr l) <> idx -> ~ P e ->
  get d2 e = Some l -> (forall i, P i -> i <> idx -> get d2 i = get d i) ->
  exists d3 C1, movelink N d2 (Some idx) (m (hash_nr l)) (Some e) = Some d3 /\ length d3 = length d2 /\
    table d3 (add (rem P idx) e) m C1 M /\
    (forall b, b <> m (hash_nr l) -> C1 b = C b) /\
    (forall i, i ∉ C (m (hash_nr l)) \/ i = idx -> get d3 i = get d2 i).
Proof.
  intros Hidx Hl Hne He Hde Hd. set (g := m (hash_nr l)).
  pose proof (table_in _ _ _ _ _ T idx l Hidx Hl) as Hin. fold g in Hin.
  destruct (table_other _ _ _ _ _ T g idx Hin ltac:(done)) as (xs & p & ys & Hg).
  destruct (chain_facts _ _ _ _ _ T g (xs ++ [p]) (idx :: ys)) as (L1 & L2 & N1 & N2 & D & B);
    [by rewrite Hg, <-app_assoc|].
  assert (Hpl : P p) by (apply L1; set_solver). destruct (table_get _ _ _ _ _ T p Hpl) as (lp & Hlp & _).
  assert (Hpi : p <> idx) by (intros ->; apply (D idx); set_solver).
  assert (Hlp2 : get d2 p = Some lp) by (by rewrite Hd).
  pose proof (get_lt _ _ _ Hlp2) as Hlen.
  assert (Hml : movelink N d2 (Some idx) g (Some e) =
            Some (<[p := Some (mk_link (Some e) (hash_nr lp) (data lp))]> d2)).
  { apply (movelink_spec _ _ _ _ _ xs).
    - pose proof (t_chain _ _ _ _ _ T g) as [Hs Hh _ _]. rewrite Hg in Hs, Hh.
      apply seg_links_mid in Hs as (Hs & Hn & _).
      assert (head (xs ++ p :: idx :: ys) = Some g) as Hhd.
      { destruct (xs ++ p :: idx :: ys) as [|z zs] eqn:E; [by destruct xs|]. simpl. by rewrite (Hh z). }
      rewrite Hhd in Hs. apply seg_links_app. exists (Some p). split.
      + eapply seg_ext; [|done]. intros x Hx. unfold nx. rewrite Hd; [done|apply L1; set_solver|].
        intros ->. apply (D idx); set_solver.
      + simpl. split; [done|]. exists (Some idx). unfold nx in *. rewrite Hd by done. by rewrite Hn.
    - intros x Hx [= ->]. apply (D x Hx). left.
    - pose proof (chain_length g) as Hc. rewrite Hg, length_app in Hc. simpl in Hc. lia.
    - done. }
  eexists _, _. split; [exact Hml|]. split; [by rewrite length_insert|]. split_and!.
  - apply (table_move _ _ _ _ _ T _ g xs p idx ys e Hg He).
    + rewrite get_insert by done. rewrite decide_False by (intros ->; by apply He). by rewrite Hde, Hl.
    + unfold nx. rewrite get_insert by done. by rewrite decide_True.
    + unfold rec_at. rewrite get_insert, decide_True by done. by rewrite Hlp.
    + intros i Hi Hip Hix. rewrite get_insert, decide_False by done. by apply Hd.
  - intros b Hb. by rewrite fn_lookup_insert_ne.
  - intros i Hi. rewrite get_insert, decide_False; [done| |done]. intros ->.
    destruct Hi as [Hi|Hi]; [|done]. apply Hi. rewrite Hg. set_solver.
Qed.

End table.

(** ** Putting a link into its bucket *)

Lemma filled P e n i : (forall i, P i <-> i < n /\ i <> e) -> e < n -> add P e i <-> i < n.
Proof. intros HP He. unfold add. rewrite HP. destruct (decide (i = e)); naive_solver lia. Qed.

Lemma insert_link_spec blen n d P C M e h r :
  (Z.of_nat n < NO_RECORD)%Z ->
  (forall h, my_hash_mask h blen (n + 1) < n + 1) -> e < n + 1 -> n < length d ->
  (forall i, P i <-> i < n + 1 /\ i <> e) -> table d P (fun h => my_hash_mask h blen (n + 1)) C M ->
  exists d' C', insert_link blen n d e h r = Some d' /\ length d' = length d /\
    table d' (fun i => i < n + 1) (fun h => my_hash_mask h blen (n + 1)) C' ((h, r) :: M).
Proof.
  intros Hn Hm He Hlen HP T. set (m := fun h => my_hash_mask h blen (n + 1)) in *.
  assert (HPe : ~ P e) by (rewrite HP; naive_solver).
  unfold insert_link. change (my_hash_mask h blen (n + 1)) with (m h). set (idx := m h).
  assert (Hidx : idx < n + 1) by apply Hm. narrow.
  case_decide as Hie.
  { rewrite put_ok by lia. eexists _, _. split; [done|]. rewrite length_insert. split; [done|].
    eapply table_P; [intros i; by apply filled|].
    rewrite <-Hie in *. eapply (table_add_single _ _ _ _ _ T _ idx (mk_link None h r)); try done.
    - rewrite get_insert by lia. by rewrite decide_True.
    - intros i Hi. rewrite get_insert by lia. rewrite decide_False; [done|]. by intros ->. }
  assert (HPi : P idx) by (apply HP; done).
  destruct (table_get _ _ _ _ _ T idx HPi) as (l & Hl & Hin). rewrite Hl. cbn [mbind option_bind].
  rewrite put_ok by lia. cbn [mbind option_bind]. set (d1 := <[e := Some l]> d).
  assert (Hd1 : length d1 = length d) by apply length_insert.
  assert (Hg1 : forall i, get d1 i = if decide (i = e) then Some l else get d i) by (intros; apply get_insert; lia).
  unfold my_hash_rec_mask. change (my_hash_mask (hash_nr l) blen (n + 1)) with (m (hash_nr l)).
  pose proof (Hm (hash_nr l) : m (hash_nr l) < n + 1) as Hgl. narrow.
  case_decide as Hig.
  - rewrite <-Hig in Hin. destruct (table_own _ _ _ _ _ T idx Hin) as [ys Hys].
    rewrite put_ok by lia. eexists _, _. split; [done|]. rewrite length_insert. split; [done|].
    eapply table_P; [intros i; by apply filled|].
    eapply (table_add_second _ _ _ _ _ T _ idx ys e l (h, r) Hys HPe Hl).
    all: unfold nx, bk, rec_at.
    + rewrite get_insert by lia. by rewrite decide_False, Hg1, decide_True by done.
    + rewrite get_insert by lia. by rewrite decide_True by done.
    + rewrite get_insert by lia. rewrite decide_False, Hg1, decide_True by done. simpl. by f_equal.
    + rewrite get_insert by lia. by rewrite decide_True by done.
    + right. rewrite !get_insert by lia. by rewrite decide_False, Hg1, !decide_True by done.
    + intros i Hi Hii. rewrite get_insert by lia. rewrite decide_False, Hg1, decide_False; try done.
      by intros ->.
  - rewrite (set_next_ok d1 idx None l) by (by rewrite Hg1, decide_False).
    cbn [mbind option_bind]. set (d2 := <[idx := _]> d1).
    destruct (relocate _ _ _ _ _ T (n + 1) ltac:(naive_solver) d2 idx l e) as (d3 & C1 & Hml & Hl3 & T3 & _ & _);
      try done.
    { unfold d2. rewrite get_insert by lia. by rewrite decide_False, Hg1, decide_True by done. }
    { intros i Hi Hii. unfold d2. rewrite get_insert by lia. rewrite decide_False, Hg1, decide_False; try done.
      by intros ->. }
    rewrite Hml. cbn [mbind option_bind]. assert (length d2 = length d) by (unfold d2; by rewrite length_insert).
    rewrite put_ok by lia. eexists _, _. split; [done|]. rewrite length_insert. split; [lia|].
    eapply table_P; [|eapply (table_add_single _ _ _ _ _ T3 _ idx (mk_link None h r)); try done].
    + intros i. unfold add, rem. rewrite HP. destruct (decide (i = idx)), (decide (i = e)); naive_solver lia.
    + unfold add, rem. naive_solver.
    + rewrite get_insert by lia. by rewrite decide_True.
    + intros i Hi. rewrite get_insert by lia. rewrite decide_False; [done|]. intros ->.
      unfold add, rem in Hi. naive_solver.
Qed.

(** The same when a record changes its key. *)
Lemma relink_spec blen n d P C M e h org :
  (Z.of_nat n <= NO_RECORD)%Z ->
  (forall h, my_hash_mask h blen n < n) -> e < n -> n <= length d ->
  (forall i, P i <-> i < n /\ i <> e) -> table d P (fun h => my_hash_mask h blen n) C M ->
  exists d' C', relink blen n d e (my_hash_mask h blen n) org h = Some d' /\ length d' = length d /\
    table d' (fun i => i < n) (fun h => my_hash_mask h blen n) C' ((h, data org) :: M).
Proof.
  intros Hn Hm He Hlen HP T. set (m := fun h => my_hash_mask h blen n) in *.
  assert (HPe : ~ P e) by (rewrite HP; naive_solver).
  unfold relink. change (my_hash_mask h blen n) with (m h). set (idx := m h).
  assert (Hidx : idx < n) by apply Hm. narrow.
  case_decide as Hie.
  { rewrite put_ok by lia. eexists _, _. split; [done|]. rewrite length_insert. split; [done|].
    eapply table_P; [intros i; by apply filled|].
    rewrite <-Hie in *. eapply (table_add_single _ _ _ _ _ T _ idx (mk_link None h (data org))); try done.
    - rewrite get_insert by lia. by rewrite decide_True.
    - intros i Hi. rewrite get_insert by lia. rewrite decide_False; [done|]. by intros ->. }
  assert (HPi : P idx) by (apply HP; done).
  destruct (table_get _ _ _ _ _ T idx HPi) as (l & Hl & Hin). rewrite Hl. cbn [mbind option_bind].
  unfold my_hash_rec_mask. change (my_hash_mask (hash_nr l) blen n) with (m (hash_nr l)).
  case_decide as Hig.
  - rewrite put_ok by lia. cbn [mbind option_bind]. set (d2 := <[e := Some l]> d).
    assert (Hg2 : forall i, get d2 i = if decide (i = e) then Some l else get d i) by (intros; apply get_insert; lia).
    destruct (relocate _ _ _ _ _ T n ltac:(naive_solver) d2 idx l e) as (d3 & C1 & Hml & Hl3 & T3 & _ & _); try done.
    { by rewrite Hg2, decide_True. }
    { intros i Hi Hii. rewrite Hg2, decide_False; [done|]. by intros ->. }
    rewrite Hml. cbn [mbind option_bind]. assert (length d2 = length d) by (unfold d2; by rewrite length_insert).
    rewrite put_ok by lia. eexists _, _. split; [done|]. rewrite length_insert. split; [lia|].
    eapply table_P; [|eapply (table_add_single _ _ _ _ _ T3 _ idx (mk_link None h (data org))); try done].
    + intros i. unfold add, rem. rewrite HP. destruct (decide (i = idx)), (decide (i = e)); naive_solver lia.
    + unfold add, rem. naive_solver.
    + rewrite get_insert by lia. by rewrite decide_True.
    + intros i Hi. rewrite get_insert by lia. rewrite decide_False; [done|]. intros ->.
      unfold add, rem in Hi. naive_solver.
  - rewrite <-Hig in Hin. destruct (table_own _ _ _ _ _ T idx Hin) as [ys Hys].
    rewrite put_ok by lia. cbn [mbind option_bind]. set (d1 := <[e := _]> d).
    assert (Hg1 : forall i, get d1 i = if decide (i = e) then Some (mk_link (next l) h (data org)) else get d i)
      by (intros; apply get_insert; lia).
    assert (length d1 = length d) by (unfold d1; by rewrite length_insert).
    rewrite (set_next_ok d1 idx _ l) by (by rewrite Hg1, decide_False).
    eexists _, _. split; [done|]. rewrite length_insert. split; [done|].
    eapply table_P; [intros i; by apply filled|].
    eapply (table_add_second _ _ _ _ _ T _ idx ys e l (h, data org) Hys HPe Hl).
    all: unfold nx, bk, rec_at.
    + rewrite get_insert by lia. by rewrite decide_False, Hg1, decide_True by done.
    + rewrite get_insert by lia. by rewrite decide_True by done.
    + rewrite get_insert by lia. by rewrite decide_False, Hg1, decide_True by done.
    + rewrite get_insert by lia. rewrite decide_True by done. simpl. by f_equal.
    + left. rewrite !get_insert by lia. by rewrite decide_True, decide_False, Hg1, decide_True by done.
    + intros i Hi Hii. rewrite get_insert by lia. rewrite decide_False, Hg1, decide_False; try done.
      by intros ->.
Qed.

(** ** Finding a record and taking it out *)

(** From any live position one gets to the end of a chain. *)
Lemma walk d P m C M N idx : table d P m C M -> (forall i, P i -> i < N) -> P idx ->
  exists xs, seg d (Some idx) xs None /\ length xs <= N /\ (forall x, x ∈ xs -> P x) /\
    (C idx <> [] -> xs = C idx).
Proof.
  intros T HN Hidx. destruct (table_get _ _ _ _ _ T idx Hidx) as (l & Hl & Hin).
  set (g := m (hash_nr l)) in *. apply list_elem_of_split in Hin as (l1 & l2 & Hg).
  exists (idx :: l2). pose proof (t_chain _ _ _ _ _ T g) as [Hs _ Hnd _].
  pose proof (chain_length _ _ _ _ _ T N HN g) as Hlen. rewrite Hg in Hs, Hnd, Hlen.
  rewrite length_app in Hlen. simpl in Hlen. split; [|split; [simpl; lia|split]].
  - apply seg_links_app in Hs as (o & _ & Hs). pose proof (seg_head _ _ _ _ _ Hs) as ->. exact Hs.
  - intros x Hx. apply (table_live _ _ _ _ _ T g). rewrite Hg. set_solver.
  - intros Hne. destruct (C idx) as [|y ys] eqn:E; [done|].
    pose proof (table_cons _ _ _ _ _ T idx y ys E) as ->.
    assert (g = idx) as Hgi.
    { apply (table_disj _ _ _ _ _ T g idx idx); [rewrite Hg; set_solver|rewrite E; left]. }
    rewrite <-Hgi, Hg in E. destruct l1 as [|z l1]; simpl in E; [congruence|].
    exfalso. rewrite <-Hgi in *. injection E as -> _. apply NoDup_cons in Hnd as [Hnd _]. set_solver.
Qed.

Lemma find_record_spec `{!EqDecision R} d (record : R) xs : forall fuel gpos idx,
  seg d (Some idx) xs None -> length xs <= fuel ->
  (find_record fuel d record gpos idx = Some None /\
   forall x l, x ∈ xs -> get d x = Some l -> data l <> record) \/
  exists pre x post l, xs = pre ++ x :: post /\ get d x = Some l /\ data l = record /\
    find_record fuel d record gpos idx = Some (Some (match last pre with Some g => Some g | None => gpos end, x)).
Proof.
  induction xs as [|x xs IH]; intros [|fuel] gpos idx Hs Hlen; simpl in Hlen; try lia; [done..|].
  destruct Hs as ([= ->] & n & Hn & Hs). unfold nx in Hn. simpl.
  destruct (get d x) as [lx|] eqn:Hlx; simplify_eq/=. case_decide as Hr.
  { right. by exists [], x, xs, lx. }
  destruct xs as [|y xs].
  { simpl in Hs. rewrite Hs. left. split; [done|]. intros z lz ->%list_elem_of_singleton Hz. congruence. }
  pose proof (seg_head _ _ _ _ _ Hs) as Hy. rewrite Hy in *.
  destruct (IH fuel (Some x) y Hs ltac:(lia)) as [[Hf Hnot]|(pre & z & post & l & Hxs & Hl & Hd & Hf)].
  - left. split; [done|]. intros z lz [->|Hz]%elem_of_cons Hlz; [congruence|by eapply Hnot].
  - right. exists (x :: pre), z, post, l. rewrite Hxs. split_and!; try done. rewrite Hf. do 3 f_equal.
    destruct pre as [|p pre _] using rev_ind; [done|]. by rewrite app_comm_cons, !last_snoc.
Qed.

Lemma remove_link_spec d P m C M b pre x post l : table d P m C M ->
  C b = pre ++ x :: post -> get d x = Some l ->
  exists d' e C' M', remove_link d (last pre) x = Some (d', e) /\ length d' = length d /\ P e /\
    M ≡ₚ entry l :: M' /\ table d' (rem P e) m C' M'.
Proof.
  intros T Hb Hl. unfold remove_link. rewrite Hl. cbn [mbind option_bind].
  destruct pre as [|p pre _] using rev_ind.
  - simpl in Hb. pose proof (table_cons _ _ _ _ _ T b x post Hb) as ->. cbn [last].
    pose proof (t_chain _ _ _ _ _ T b) as [Hs _ _ _]. rewrite Hb in Hs. destruct Hs as (_ & n & Hn & Hs).
    unfold nx in Hn. rewrite Hl in Hn. simplify_eq/=. destruct post as [|y ys].
    + simpl in Hs. rewrite Hs. destruct (table_unlink_only _ _ _ _ _ T b l Hb Hl) as (M' & HM & T').
      eexists _, _, _, _. split_and!; [done|done| |done|done]. apply (table_live _ _ _ _ _ T b). rewrite Hb. left.
    + rewrite (seg_head _ _ _ _ _ Hs).
      assert (Hyl : P y) by (apply (table_live _ _ _ _ _ T b); rewrite Hb; set_solver).
      destruct (table_get _ _ _ _ _ T y Hyl) as (ly & Hly & _). rewrite Hly. cbn [mbind option_bind].
      pose proof (get_lt _ _ _ Hl). rewrite put_ok by done. cbn [mbind option_bind].
      destruct (table_unlink_first _ _ _ _ _ T (<[b := Some ly]> d) b y ys l Hb Hl) as (M' & HM & T').
      * by rewrite get_insert, decide_True.
      * intros i Hi Hib Hiy. by rewrite get_insert, decide_False.
      * eexists _, _, _, _. by rewrite length_insert.
  - rewrite last_snoc. rewrite <-app_assoc in Hb. simpl in Hb.
    assert (Hpl : P p) by (apply (table_live _ _ _ _ _ T b); rewrite Hb; set_solver).
    assert (Hxl : P x) by (apply (table_live _ _ _ _ _ T b); rewrite Hb; set_solver).
    destruct (table_get _ _ _ _ _ T p Hpl) as (lp & Hlp & _). pose proof (get_lt _ _ _ Hlp).
    rewrite (set_next_ok _ _ _ _ Hlp). cbn [mbind option_bind].
    destruct (table_unlink _ _ _ _ _ T (<[p := Some (mk_link (next l) (hash_nr lp) (data lp))]> d)
                b pre p x post l Hb Hl) as (M' & HM & T').
    + unfold nx. by rewrite get_insert, decide_True.
    + unfold rec_at. rewrite get_insert, decide_True by done. by rewrite Hlp.
    + intros i Hi Hip Hix. by rewrite get_insert, decide_False.
    + eexists _, _, _, _. by rewrite length_insert.
Qed.

End steps.

End HashSteps.
