(* ===== verification/HashSplit.v ===== *)
(** * Splitting a bucket

    When a hash table grows, the chain of one bucket is divided into two in a
    single pass over it, with at most two records moved and each link written at
    most once.  The invariant of that loop, and its result. *)

From stdpp Require Import functions.
From S2P Require Import Prelude DynArray Hash HashChains HashSteps.
Import DynArray Hash HashChains HashSteps.

Module HashSplit.

Section split.
Context {R : Type}.
Implicit Types (d : links R) (l : HASH_LINK R) (C : nat -> list nat) (M : list (Z * R)).

(** ** Flags *)

Definition flags_of (lf lu hf hu : bool) : Z :=
  ((if lf then 1 else 0) + (if lu then 2 else 0) + (if hf then 4 else 0) + (if hu then 8 else 0))%Z.

Lemma has_flags lf lu hf hu :
  has (flags_of lf lu hf hu) LOWFIND = lf /\ has (flags_of lf lu hf hu) LOWUSED = lu /\
  has (flags_of lf lu hf hu) HIGHFIND = hf /\ has (flags_of lf lu hf hu) HIGHUSED = hu.
Proof. by destruct lf, lu, hf, hu. Qed.

(** ** One of the two new chains *)

(** The positions the records of [S] end at: the first one at [start], the
    others where they are. *)
Definition pos_of (S : list nat) (start : nat) : list nat :=
  match S with [] => [] | _ :: t => start :: t end.

Section side.
Context (d0 : links R).

Definition recs_at d (ps : list nat) (rs : list (Z * R)) : Prop :=
  Forall2 (fun i r => rec_at d i = Some r) ps rs.

(** All but the last record are in place.  The last one, [r], belongs to [q];
    if [used] it is there, with its old link. *)
Definition side_some d (S : list nat) (start : nat) (used : bool) (g : option (nat * (Z * R)))
    (suf : list nat) : Prop :=
  exists ps q rs r, g = Some (q, r) /\ pos_of S start = ps ++ [q] /\ recs_at d0 S (rs ++ [r]) /\
    seg d (Some start) ps (Some q) /\ recs_at d ps rs /\
    (used = true -> nx d q = Some (head suf) /\ rec_at d q = Some r).

Definition side_ok d (S : list nat) (start : nat) (found used : bool) (g : option (nat * (Z * R)))
    (suf : list nat) : Prop :=
  if found then side_some d S start used g suf else S = [] /\ used = false.

Lemma recs_ext d d' ps rs : (forall i, i ∈ ps -> get d' i = get d i) -> recs_at d ps rs -> recs_at d' ps rs.
Proof.
  intros Hext H. induction H as [|i r ps rs Hi _ IH]; constructor.
  - unfold rec_at in *. rewrite Hext; [done|left].
  - apply IH. intros j Hj. apply Hext. by right.
Qed.

Lemma recs_snoc d ps rs i r : recs_at d ps rs -> rec_at d i = Some r -> recs_at d (ps ++ [i]) (rs ++ [r]).
Proof. intros H Hi. apply Forall2_app; [done|]. by repeat constructor. Qed.

(** The other side writes. *)
Lemma side_frame d d' S start found used g suf suf' :
  (forall i, i ∈ pos_of S start -> get d' i = get d i) ->
  side_ok d S start found used g suf -> side_ok d' S start found false g suf'.
Proof.
  intros Hext. destruct found; [|by intros [-> ->]].
  intros (ps & q & rs & r & -> & Hpos & HS & Hseg & Hrs & _). exists ps, q, rs, r. rewrite Hpos in Hext.
  split_and!; try done.
  - eapply seg_ext; [|done]. intros i Hi. unfold nx. rewrite Hext; [done|]. set_solver.
  - eapply recs_ext; [|done]. intros i Hi. apply Hext. set_solver.
Qed.

Lemma pos_of_snoc S start x : S <> [] -> pos_of (S ++ [x]) start = pos_of S start ++ [x].
Proof. by destruct S. Qed.

Lemma side_some_nonempty d S start used g suf : side_some d S start used g suf -> S <> [].
Proof. by intros (ps & q & rs & r & _ & Hpos & _) ->; destruct ps. Qed.

(** The first record of a side, at its place or to be moved. *)
Lemma side_first d x start (used : bool) l suf : get d0 x = Some l ->
  (used = true -> start = x /\ get d x = get d0 x /\ next l = head suf) ->
  side_ok d [x] start true used (Some (start, entry l)) suf.
Proof.
  intros Hl Hu. exists [], start, [], (entry l). split_and!; try done.
  - constructor; [|done]. unfold rec_at. by rewrite Hl.
  - constructor.
  - intros Hut. destruct (Hu Hut) as (-> & Hg & Hn). unfold nx, rec_at. rewrite Hg, Hl. simpl. by rewrite Hn.
Qed.

(** A further record when the last one is in place. *)
Lemma side_next_used d S start g x l suf : get d0 x = Some l -> get d x = Some l -> next l = head suf ->
  side_ok d S start true true g (x :: suf) ->
  side_ok d (S ++ [x]) start true true (Some (x, entry l)) suf.
Proof.
  intros Hl0 Hl Hn Hside. pose proof (side_some_nonempty _ _ _ _ _ _ Hside) as Hne.
  destruct Hside as (ps & q & rs & r & _ & Hpos & HS & Hseg & Hrs & Hu).
  destruct (Hu eq_refl) as [Hnq Hrq].
  exists (ps ++ [q]), x, (rs ++ [r]), (entry l). split_and!; try done.
  - by rewrite pos_of_snoc, Hpos.
  - apply recs_snoc; [done|]. unfold rec_at. by rewrite Hl0.
  - apply seg_links_app. exists (Some q). split; [done|]. simpl. split; [done|]. eauto.
  - by apply recs_snoc.
  - intros _. unfold nx, rec_at. rewrite Hl. simpl. by rewrite Hn.
Qed.

(** The last record is written to its place. *)
Lemma side_write d S start used g suf o : NoDup (pos_of S start) ->
  (forall i, i ∈ pos_of S start -> i < length d) -> side_ok d S start true used g suf ->
  exists d' q r, g = Some (q, r) /\ q ∈ pos_of S start /\ write_link d g o = Some d' /\ length d' = length d /\
    (forall i, i <> q -> get d' i = get d i) /\
    exists rs, recs_at d0 S rs /\ seg d' (Some start) (pos_of S start) o /\ recs_at d' (pos_of S start) rs.
Proof.
  intros Hnd Hlen (ps & q & rs & [h rec] & -> & Hpos & HS & Hseg & Hrs & _). rewrite Hpos in *.
  apply NoDup_app in Hnd as (_ & Hnd & _).
  assert (Hq : q < length d) by (apply Hlen; set_solver).
  assert (Hps : forall i, i ∈ ps -> get (<[q := Some (mk_link o h rec)]> d) i = get d i).
  { intros i Hi. rewrite get_insert, decide_False; [done| |done]. intros ->. apply (Hnd q Hi). left. }
  exists (<[q := Some (mk_link o h rec)]> d), q, (h, rec). split_and!; try done.
  - set_solver.
  - simpl. by rewrite put_ok.
  - by rewrite length_insert.
  - intros i Hi. by rewrite get_insert, decide_False.
  - exists (rs ++ [(h, rec)]). split; [done|]. split.
    + apply seg_links_app. exists (Some q). split.
      * eapply seg_ext; [|done]. intros i Hi. unfold nx. by rewrite Hps.
      * simpl. split; [done|]. exists o. unfold nx. by rewrite get_insert, decide_True.
    + apply recs_snoc; [by eapply recs_ext|]. unfold rec_at. by rewrite get_insert, decide_True.
Qed.

Lemma side_next_write d S start used g x l suf : get d0 x = Some l -> get d x = Some l ->
  next l = head suf -> NoDup (pos_of S start) -> (forall i, i ∈ pos_of S start -> i < length d) ->
  x ∉ pos_of S start -> side_ok d S start true used g (x :: suf) ->
  exists d' q, write_link d g (Some x) = Some d' /\ length d' = length d /\ q ∈ pos_of S start /\
    (forall i, i <> q -> get d' i = get d i) /\
    side_ok d' (S ++ [x]) start true true (Some (x, entry l)) suf.
Proof.
  intros Hl0 Hl Hn Hnd Hlen Hx Hside. pose proof (side_some_nonempty _ _ _ _ _ _ Hside) as Hne.
  destruct (side_write d S start used g (x :: suf) (Some x) Hnd Hlen Hside)
    as (d' & q & r & -> & Hq & Hw & Hl' & Hget & rs & HS & Hseg & Hrs).
  exists d', q. split_and!; try done. exists (pos_of S start), x, rs, (entry l). split_and!; try done.
  - by apply pos_of_snoc.
  - apply recs_snoc; [done|]. unfold rec_at. by rewrite Hl0.
  - intros _. unfold nx, rec_at. rewrite Hget by (by intros ->). rewrite Hl. simpl. by rewrite Hn.
Qed.

(** At the end of the pass. *)
Lemma side_end d S start used g : NoDup (pos_of S start) ->
  (forall i, i ∈ pos_of S start -> i < length d) -> side_ok d S start true used g [] ->
  exists d' rs, (if used then Some d else write_link d g None) = Some d' /\ length d' = length d /\
    (forall i, i ∉ pos_of S start -> get d' i = get d i) /\
    recs_at d0 S rs /\ seg d' (Some start) (pos_of S start) None /\ recs_at d' (pos_of S start) rs.
Proof.
  intros Hnd Hlen Hside. destruct used.
  - destruct Hside as (ps & q & rs & r & -> & Hpos & HS & Hseg & Hrs & Hu). destruct (Hu eq_refl) as [Hnq Hrq].
    exists d, (rs ++ [r]). rewrite Hpos. split_and!; try done; [|by apply recs_snoc].
    apply seg_links_app. exists (Some q). split; [done|]. simpl. split; [done|]. eauto.
  - destruct (side_write d S start false g [] None Hnd Hlen Hside)
      as (d' & q & r & -> & Hq & Hw & Hl' & Hget & rs & HS & Hseg & Hrs).
    exists d', rs. split_and!; try done. intros i Hi. apply Hget. by intros ->.
Qed.

End side.

(** ** The pass over the chain *)

Section loop.
Context (d0 : links R) (n : nat) (half : Z) (f : nat) (t : list nat).
Context (Hchain : seg d0 (Some f) (f :: t) None) (Hnodup : NoDup (f :: t)).
Context (Hlt : forall i, i ∈ f :: t -> i < n) (Hn : n < length d0).

Definition is_low (i : nat) : bool :=
  match get d0 i with Some l => (Z.land (hash_nr l) half =? 0)%Z | None => false end.

Definition lows (pre : list nat) : list nat := filter (fun i => is_low i = true) pre.
Definition highs (pre : list nat) : list nat := filter (fun i => is_low i = false) pre.

Lemma snoc_low pre x : is_low x = true -> lows (pre ++ [x]) = lows pre ++ [x] /\ highs (pre ++ [x]) = highs pre.
Proof.
  intros Hx. unfold lows, highs. rewrite !filter_app, (filter_cons_True _ x), (filter_cons_False _ x).
  - by rewrite !filter_nil, app_nil_r.
  - congruence.
  - done.
Qed.

Lemma snoc_high pre x : is_low x = false -> lows (pre ++ [x]) = lows pre /\ highs (pre ++ [x]) = highs pre ++ [x].
Proof.
  intros Hx. unfold lows, highs. rewrite !filter_app, (filter_cons_False _ x), (filter_cons_True _ x).
  - by rewrite !filter_nil, app_nil_r.
  - done.
  - congruence.
Qed.

Lemma pos_of_in (S : list nat) s i : i ∈ pos_of S s -> i = s \/ i ∈ tail S.
Proof. destruct S; simpl; [by intros ?%elem_of_nil|]. by rewrite elem_of_cons. Qed.

Lemma tail_in (S : list nat) i : i ∈ tail S -> i ∈ S.
Proof. destruct S; simpl; [done|]. by right. Qed.

Lemma tail_filter (Q : nat -> bool) (b : bool) pre : NoDup (f :: pre) ->
  f ∉ tail (filter (fun i => Q i = b) (f :: pre)).
Proof.
  intros [Hf _]%NoDup_cons Hin. destruct (decide (Q f = b)) as [E|E].
  - rewrite filter_cons_True in Hin by done. simpl in Hin. apply list_elem_of_filter in Hin as [_ ?]. done.
  - rewrite filter_cons_False in Hin by done. apply tail_in, list_elem_of_filter in Hin as [_ ?]. done.
Qed.

(** The facts about a prefix of the chain. *)
Section prefix.
Context (pre suf : list nat) (Hpre : f :: t = (f :: pre) ++ suf).

Lemma pre_nodup : NoDup (f :: pre).
Proof. rewrite Hpre in Hnodup. by apply NoDup_app in Hnodup as [? _]. Qed.

Lemma pre_lt i : i ∈ f :: pre -> i < n.
Proof. intros Hi. apply Hlt. rewrite Hpre. apply elem_of_app. by left. Qed.

Lemma pos_low_in i : i ∈ pos_of (lows (f :: pre)) f -> i ∈ f :: pre.
Proof.
  intros [->|Hi]%pos_of_in; [left|]. by apply tail_in, list_elem_of_filter in Hi as [_ ?].
Qed.

Lemma pos_high_in i : i ∈ pos_of (highs (f :: pre)) n -> i ∈ n :: f :: pre.
Proof.
  intros [->|Hi]%pos_of_in; [left|]. right. by apply tail_in, list_elem_of_filter in Hi as [_ ?].
Qed.

Lemma pos_disj i : i ∈ pos_of (lows (f :: pre)) f -> i ∈ pos_of (highs (f :: pre)) n -> False.
Proof.
  intros Hl Hh. pose proof (pre_lt i (pos_low_in i Hl)) as Hi.
  apply pos_of_in in Hh as [->|Hh]; [lia|]. apply pos_of_in in Hl as [->|Hl].
  - by apply (tail_filter is_low false pre pre_nodup).
  - apply tail_in, list_elem_of_filter in Hl as [H1 _]. apply tail_in, list_elem_of_filter in Hh as [H2 _].
    congruence.
Qed.

Lemma NoDup_tail (S : list nat) : NoDup S -> NoDup (tail S).
Proof. destruct S; [done|]. by intros [_ ?]%NoDup_cons. Qed.

Lemma pos_low_nodup : NoDup (pos_of (lows (f :: pre)) f).
Proof.
  pose proof (tail_filter is_low true pre pre_nodup) as Hf.
  pose proof (NoDup_tail _ (NoDup_filter (fun i => is_low i = true) _ pre_nodup)) as Ht.
  unfold lows. destruct (filter _ (f :: pre)); simpl in *; by constructor.
Qed.

Lemma pos_high_nodup : NoDup (pos_of (highs (f :: pre)) n).
Proof.
  assert (Hnn : n ∉ tail (highs (f :: pre))).
  { intros Hi. apply tail_in, list_elem_of_filter in Hi as [_ Hi]. apply pre_lt in Hi. lia. }
  pose proof (NoDup_tail _ (NoDup_filter (fun i => is_low i = false) _ pre_nodup)) as Ht.
  unfold highs in *. destruct (filter _ (f :: pre)); simpl in *; by constructor.
Qed.
End prefix.

Record loop_inv (st : @split R) (pre suf : list nat) (lf lu hf hu : bool) : Prop := {
  li_len : length (s_data st) = length d0;
  li_flag : s_flag st = flags_of lf lu hf hu;
  li_excl : lu && hu = false;
  li_same : forall i, i ∉ n :: pre -> get (s_data st) i = get d0 i;
  li_low : side_ok d0 (s_data st) (lows pre) f lf lu (s_low st) suf;
  li_high : side_ok d0 (s_data st) (highs pre) n hf hu (s_high st) suf;
  li_dom : forall i, i ∈ n :: pre <->
    i = s_empty st \/ i ∈ pos_of (lows pre) f \/ i ∈ pos_of (highs pre) n;
  li_elow : s_empty st ∉ pos_of (lows pre) f;
  li_ehigh : s_empty st ∉ pos_of (highs pre) n;
  li_e1 : lows pre = [] -> s_empty st = f;
  li_e2 : highs pre = [] -> s_empty st = n
}.

Lemma chain_next pre x suf : f :: t = pre ++ x :: suf ->
  exists l, get d0 x = Some l /\ next l = head suf.
Proof.
  intros Hc. rewrite Hc in Hchain. apply seg_links_app in Hchain as (o & _ & Hs). destruct Hs as (_ & nn & Hnn & Hs).
  unfold nx in Hnn. destruct (get d0 x) as [l|]; simplify_eq/=. exists l. split; [done|].
  by destruct suf; [|apply seg_head in Hs].
Qed.

Context (Hlink : (Z.of_nat n <= NO_RECORD)%Z).

Section step.
Context (st : @split R) (pre : list nat) (x : nat) (suf : list nat) (lf lu hf hu : bool) (l : HASH_LINK R).
Context (Hpre : f :: t = (f :: pre) ++ x :: suf) (Hl : get d0 x = Some l) (Hnext : next l = head suf).
Context (Hinv : loop_inv st (f :: pre) (x :: suf) lf lu hf hu).

Lemma x_fresh : x ∉ n :: f :: pre.
Proof.
  rewrite Hpre in Hnodup. apply NoDup_app in Hnodup as (_ & Hd & _).
  intros [->|Hx]%elem_of_cons; [|by apply (Hd x Hx); left].
  assert (n < n); [|lia]. apply Hlt. rewrite Hpre. apply elem_of_app. right. left.
Qed.

Lemma x_link : link_to x = Some x.
Proof.
  apply link_to_small. assert (x < n); [|lia]. apply Hlt. rewrite Hpre. apply elem_of_app. right. left.
Qed.

Lemma x_get : get (s_data st) x = Some l.
Proof. rewrite (li_same _ _ _ _ _ _ _ Hinv); [done|apply x_fresh]. Qed.

Lemma low_bound i : i ∈ pos_of (lows (f :: pre)) f -> i < length (s_data st).
Proof.
  intros Hi%pos_low_in. rewrite (li_len _ _ _ _ _ _ _ Hinv). pose proof (pre_lt pre _ Hpre i Hi). lia.
Qed.

Lemma high_bound i : i ∈ pos_of (highs (f :: pre)) n -> i < length (s_data st).
Proof.
  intros Hi%pos_high_in. rewrite (li_len _ _ _ _ _ _ _ Hinv).
  apply elem_of_cons in Hi as [->|Hi]; [done|]. pose proof (pre_lt pre _ Hpre i Hi). lia.
Qed.

Lemma x_not_low : x ∉ pos_of (lows (f :: pre)) f.
Proof. intros Hx%pos_low_in. apply x_fresh. by right. Qed.

Lemma x_not_high : x ∉ pos_of (highs (f :: pre)) n.
Proof. intros Hx%pos_high_in. by apply x_fresh. Qed.

Lemma same_snoc d' (q : nat) : (q ∈ n :: f :: pre) ->
  (forall i, i <> q -> get d' i = get (s_data st) i) ->
  forall i, i ∉ n :: (f :: pre) ++ [x] -> get d' i = get d0 i.
Proof.
  intros Hq Hd i Hi. rewrite Hd, (li_same _ _ _ _ _ _ _ Hinv); [done|..].
  - set_solver.
  - intros ->. set_solver.
Qed.

Lemma side_found d S start found used g s : side_ok d0 d S start found used g s -> S <> [] -> found = true.
Proof. destruct found; [done|]. by intros [-> _]. Qed.

(** A record that stays. *)
Lemma step_low : is_low x = true ->
  exists st' lf' lu' hf' hu', split_step half st x = Some st' /\
    loop_inv st' ((f :: pre) ++ [x]) suf lf' lu' hf' hu' /\ get (s_data st') x = Some l.
Proof.
  intros Hx. pose proof x_link as Hxk. pose proof x_get as Hxg. pose proof x_fresh as Hxf. pose proof low_bound as Hbound.
  pose proof same_snoc as Hsnoc. pose proof x_not_low as Hxl. pose proof x_not_high as Hxh.
  assert (Hland : (Z.land (hash_nr l) half =? 0)%Z = true) by (unfold is_low in Hx; by rewrite Hl in Hx).
  destruct (snoc_low (f :: pre) x Hx) as [Elow Ehigh].
  pose proof (side_frame d0 (s_data st) (s_data st) _ _ _ _ _ _ suf ltac:(done) (li_high _ _ _ _ _ _ _ Hinv)) as Hhigh0.
  destruct Hinv as [Hlen Hflag Hexcl Hsame Hlow Hhigh Hdom He1 He2 He3 He4].
  destruct st as [d flag empty low high]. cbn [s_data s_flag s_empty s_low s_high] in *.
  unfold split_step. rewrite Hxg, Hxk. cbn [mbind option_bind]. rewrite Hland, Hflag.
  destruct (has_flags lf lu hf hu) as (-> & -> & -> & _). unfold here. rewrite Hxg. cbn [mbind option_bind].
  assert (Hdom' : forall i, i ∈ n :: (f :: pre) ++ [x] <-> i ∈ n :: f :: pre \/ i = x).
  { intros i. rewrite app_comm_cons, elem_of_app, list_elem_of_singleton. done. }
  destruct lf; cbn [negb].
  - pose proof (side_some_nonempty _ _ _ _ _ _ _ Hlow) as Hne.
    assert (Hnew : forall d' hu', length d' = length d0 ->
      (forall i, i ∉ n :: (f :: pre) ++ [x] -> get d' i = get d0 i) -> hu' = false ->
      side_ok d0 d' (lows (f :: pre) ++ [x]) f true true (Some (x, entry l)) suf ->
      side_ok d0 d' (highs (f :: pre)) n hf hu' high suf ->
      loop_inv (mk_split d' (flags_of true true hf hu') empty (Some (x, entry l)) high)
        ((f :: pre) ++ [x]) suf true true hf hu').
    { intros d' hu' H1 H2 -> H3 H4. constructor; cbn [s_data s_flag s_empty s_low s_high];
        rewrite ?Elow, ?Ehigh, ?pos_of_snoc by done; try done.
      - intros i. rewrite Hdom', Hdom, elem_of_app, list_elem_of_singleton. naive_solver.
      - rewrite elem_of_app, list_elem_of_singleton. intros [?| ->]; [done|]. apply Hxf, Hdom. by left.
      - intros Hnil. by destruct (lows (f :: pre)). }
    destruct lu; cbn [negb].
    + assert (hu = false) as -> by (by destruct hu).
      eexists _, _, _, _, _. split; [done|]. split; [|done]. rewrite Hflag. apply Hnew; try done.
      * intros i Hi. apply Hsame. set_solver.
      * by eapply side_next_used.
    + destruct (side_next_write d0 d (lows (f :: pre)) f false low x l suf) as (d' & q & -> & Hl' & Hq & Hd' & Hs'); try done.
      { exact (pos_low_nodup pre _ Hpre). } 
      assert (Hxd : get d' x = Some l) by (rewrite Hd'; [done|]; intros ->; done).
      cbn [mbind option_bind]. rewrite Hxd. cbn [mbind option_bind].
      eexists _, true, true, hf, false. split; [done|].
      assert (Z.lor (Z.land (flags_of true false hf hu) HIGHFIND) (Z.lor LOWFIND LOWUSED) =
                flags_of true true hf false) as -> by (by destruct hf, hu). split.
      * apply Hnew; try done; [congruence| |].
        -- apply (Hsnoc _ q); [right; by eapply pos_low_in|done].
        -- eapply side_frame; [|exact Hhigh]. intros i Hi. apply Hd'. intros ->. by apply (pos_disj pre _ Hpre q).
      * done.
  - destruct Hlow as [Hnil ->]. assert (hf = true) as ->.
    { apply (side_found _ _ _ _ _ _ _ Hhigh). intros Hnil'. unfold lows, highs in *.
      destruct (is_low f) eqn:Ef; [by rewrite filter_cons_True in Hnil|by rewrite filter_cons_True in Hnil']. }
    rewrite (He3 Hnil) in *. rewrite Hnil in *.
    eexists _, true, false, true, false. split; [done|]. split; [|done].
    constructor; cbn [s_data s_flag s_empty s_low s_high]; rewrite ?Elow, ?Ehigh; try done.
    + intros i Hi. apply Hsame. set_solver.
    + by apply side_first.
    + intros i. rewrite Hdom', Hdom. cbn [app pos_of]. rewrite list_elem_of_singleton.
      split; [|naive_solver]. intros [[?|[?%elem_of_nil|?]]|?]; auto; done.
    + cbn [app pos_of]. rewrite list_elem_of_singleton. intros ->. apply Hxf. right. left.
    + intros Hh. by destruct (side_some_nonempty _ _ _ _ _ _ _ Hhigh).
Qed.

(** A record that goes to the new bucket. *)
Lemma step_high : is_low x = false ->
  exists st' lf' lu' hf' hu', split_step half st x = Some st' /\
    loop_inv st' ((f :: pre) ++ [x]) suf lf' lu' hf' hu' /\ get (s_data st') x = Some l.
Proof.
  intros Hx. pose proof x_link as Hxk. pose proof x_get as Hxg. pose proof x_fresh as Hxf. pose proof high_bound as Hbound.
  pose proof same_snoc as Hsnoc. pose proof x_not_low as Hxl. pose proof x_not_high as Hxh.
  assert (Hland : (Z.land (hash_nr l) half =? 0)%Z = false) by (unfold is_low in Hx; by rewrite Hl in Hx).
  destruct (snoc_high (f :: pre) x Hx) as [Elow Ehigh].
  pose proof (side_frame d0 (s_data st) (s_data st) _ _ _ _ _ _ suf ltac:(done) (li_low _ _ _ _ _ _ _ Hinv)) as Hlow0.
  destruct Hinv as [Hlen Hflag Hexcl Hsame Hlow Hhigh Hdom He1 He2 He3 He4].
  destruct st as [d flag empty low high]. cbn [s_data s_flag s_empty s_low s_high] in *.
  unfold split_step. rewrite Hxg, Hxk. cbn [mbind option_bind]. rewrite Hland, Hflag.
  destruct (has_flags lf lu hf hu) as (_ & _ & -> & ->). unfold here. rewrite Hxg. cbn [mbind option_bind].
  assert (Hdom' : forall i, i ∈ n :: (f :: pre) ++ [x] <-> i ∈ n :: f :: pre \/ i = x).
  { intros i. rewrite app_comm_cons, elem_of_app, list_elem_of_singleton. done. }
  destruct hf; cbn [negb].
  - pose proof (side_some_nonempty _ _ _ _ _ _ _ Hhigh) as Hne.
    assert (Hnew : forall d' lu', length d' = length d0 ->
      (forall i, i ∉ n :: (f :: pre) ++ [x] -> get d' i = get d0 i) -> lu' = false ->
      side_ok d0 d' (highs (f :: pre) ++ [x]) n true true (Some (x, entry l)) suf ->
      side_ok d0 d' (lows (f :: pre)) f lf lu' low suf ->
      loop_inv (mk_split d' (flags_of lf lu' true true) empty low (Some (x, entry l)))
        ((f :: pre) ++ [x]) suf lf lu' true true).
    { intros d' lu' H1 H2 -> H3 H4. constructor; cbn [s_data s_flag s_empty s_low s_high];
        rewrite ?Elow, ?Ehigh, ?pos_of_snoc by done; try done.
      - intros i. rewrite Hdom', Hdom, elem_of_app, list_elem_of_singleton. naive_solver.
      - rewrite elem_of_app, list_elem_of_singleton. intros [?| ->]; [done|]. apply Hxf, Hdom. by left.
      - intros Hnil. by destruct (highs (f :: pre)). }
    destruct hu; cbn [negb].
    + assert (lu = false) as -> by (by destruct lu).
      eexists _, _, _, _, _. split; [done|]. split; [|done]. rewrite Hflag. apply Hnew; try done.
      * intros i Hi. apply Hsame. set_solver.
      * by eapply side_next_used.
    + destruct (side_next_write d0 d (highs (f :: pre)) n false high x l suf)
        as (d' & q & -> & Hl' & Hq & Hd' & Hs'); try done.
      { exact (pos_high_nodup pre _ Hpre). }
      assert (Hxd : get d' x = Some l) by (rewrite Hd'; [done|]; intros ->; done).
      cbn [mbind option_bind]. rewrite Hxd. cbn [mbind option_bind].
      eexists _, lf, false, true, true. split; [done|].
      assert (Z.lor (Z.land (flags_of lf lu true false) LOWFIND) (Z.lor HIGHFIND HIGHUSED) =
                flags_of lf false true true) as -> by (by destruct lf, lu). split; [|done].
      apply Hnew; try done; [congruence| |].
      * apply (Hsnoc _ q); [by eapply pos_high_in|done].
      * eapply side_frame; [|exact Hlow]. intros i Hi. apply Hd'. intros ->. by apply (pos_disj pre _ Hpre q).
  - destruct Hhigh as [Hnil ->]. rewrite (He4 Hnil) in *. rewrite Hnil in *.
    eexists _, lf, false, true, false. split; [done|]. split; [|done].
    assert (Hlf : lows (f :: pre) <> []).
    { intros Hnil'. unfold lows, highs in *.
      destruct (is_low f) eqn:Ef; [by rewrite filter_cons_True in Hnil'|by rewrite filter_cons_True in Hnil]. }
    constructor; cbn [s_data s_flag s_empty s_low s_high]; rewrite ?Elow, ?Ehigh; try done.
    + by destruct lf, lu.
    + intros i Hi. apply Hsame. set_solver.
    + by apply side_first.
    + intros i. rewrite Hdom', Hdom. cbn [app pos_of]. rewrite list_elem_of_singleton.
      split; [|naive_solver]. intros [[?|[?|?%elem_of_nil]]|?]; auto; done.
    + cbn [app pos_of]. rewrite list_elem_of_singleton. intros ->. apply Hxf. left.
Qed.

End step.

Lemma loop_step st pre x suf lf lu hf hu l : f :: t = (f :: pre) ++ x :: suf -> get d0 x = Some l ->
  next l = head suf -> loop_inv st (f :: pre) (x :: suf) lf lu hf hu ->
  exists st' lf' lu' hf' hu', split_step half st x = Some st' /\
    loop_inv st' ((f :: pre) ++ [x]) suf lf' lu' hf' hu' /\ get (s_data st') x = Some l.
Proof.
  intros Hpre Hl Hnext Hinv. destruct (is_low x) eqn:Hx.
  - by eapply (step_low st pre x suf lf lu hf hu).
  - by eapply (step_high st pre x suf lf lu hf hu).
Qed.

Lemma some_side pre : lows (f :: pre) = [] -> highs (f :: pre) = [] -> False.
Proof.
  unfold lows, highs. intros H1 H2.
  destruct (is_low f) eqn:Ef; [by rewrite filter_cons_True in H1|by rewrite filter_cons_True in H2].
Qed.

Lemma split_loop_rest blen nrec suf : forall pre x st lf lu hf hu fuel,
  f :: t = (f :: pre) ++ x :: suf -> loop_inv st (f :: pre) (x :: suf) lf lu hf hu ->
  length (x :: suf) <= fuel ->
  exists st' lf' lu' hf' hu', split_loop fuel half blen nrec f st x = Some st' /\
    loop_inv st' (f :: t) [] lf' lu' hf' hu'.
Proof.
  induction suf as [|y suf IH]; intros pre x st lf lu hf hu [|fuel] Hpre Hinv Hlen; simpl in Hlen; try lia.
  all: destruct (chain_next (f :: pre) x _ Hpre) as (l & Hl & Hnext).
  all: cbn [split_loop]; rewrite (x_get st pre x _ lf lu hf hu l Hpre Hl Hinv); cbn [mbind option_bind].
  all: assert (Hfl : (s_flag st =? 0)%Z = false) by
    (rewrite (li_flag _ _ _ _ _ _ _ Hinv); destruct lf, hf; [by destruct lu, hu..|];
     destruct (some_side pre); [apply (li_low _ _ _ _ _ _ _ Hinv)|apply (li_high _ _ _ _ _ _ _ Hinv)]).
  all: rewrite Hfl; cbn [andb].
  all: destruct (loop_step st pre x _ lf lu hf hu l Hpre Hl Hnext Hinv) as (st' & lf' & lu' & hf' & hu' & Hst & Hinv' & Hx'); rewrite Hst;
    cbn [mbind option_bind]; rewrite Hx'; cbn [mbind option_bind]; rewrite Hnext; cbn [head].
  - exists st', lf', lu', hf', hu'. split; [done|]. by rewrite <-Hpre in Hinv'.
  - apply (IH (pre ++ [x]) y st' lf' lu' hf' hu'); [by rewrite Hpre; norm_app|done|simpl; lia].
Qed.

Lemma split_loop_spec blen nrec fuel l : get d0 f = Some l -> my_hash_mask (hash_nr l) blen nrec = f ->
  length (f :: t) <= fuel ->
  exists st' lf' lu' hf' hu',
    split_loop fuel half blen nrec f (mk_split d0 0 n None None) f = Some st' /\
    loop_inv st' (f :: t) [] lf' lu' hf' hu'.
Proof.
  intros Hl Hm Hlen. destruct fuel as [|fuel]; [simpl in Hlen; lia|]. cbn [split_loop s_data s_flag].
  destruct (chain_next [] f t eq_refl) as (l' & Hl' & Hnext). simplify_eq.
  rewrite Hl. cbn [mbind option_bind]. rewrite Hm, Nat.eqb_refl. cbn [negb andb].
  assert (Hfn : f < n) by (apply Hlt; left).
  assert (exists st lf lu hf hu, split_step half (mk_split d0 0 n None None) f = Some st /\
    loop_inv st [f] t lf lu hf hu /\ get (s_data st) f = Some l) as (st & lf & lu & hf & hu & Hst & Hinv & Hg).
  { unfold split_step. rewrite Hl. cbn [mbind option_bind].
    destruct (is_low f) eqn:Hf; unfold is_low in Hf; rewrite Hl in Hf; rewrite Hf.
    - change (has 0 LOWFIND) with false. change (has 0 HIGHFIND) with false. cbn [negb]. unfold here. rewrite Hl.
      cbn [mbind option_bind]. eexists _, true, true, false, false. split; [done|]. split; [|done].
      assert (Elow : lows [f] = [f]) by (unfold lows; by rewrite filter_cons_True by (unfold is_low; by rewrite Hl)).
      assert (Ehigh : highs [f] = []).
      { unfold highs. rewrite filter_cons_False; [done|]. unfold is_low. rewrite Hl. congruence. }
      constructor; cbn [s_data s_flag s_empty s_low s_high]; rewrite ?Elow, ?Ehigh; cbn [pos_of]; try done.
      + by apply side_first.
      + intros i. rewrite !elem_of_cons, elem_of_nil. naive_solver.
      + rewrite list_elem_of_singleton. lia.
      + apply not_elem_of_nil.
    - change (has 0 HIGHFIND) with false. cbn [negb]. eexists _, false, false, true, false.
      split; [done|]. split; [|done].
      assert (Ehigh : highs [f] = [f]) by (unfold highs; by rewrite filter_cons_True by (unfold is_low; by rewrite Hl)).
      assert (Elow : lows [f] = []).
      { unfold lows. rewrite filter_cons_False; [done|]. unfold is_low. rewrite Hl. congruence. }
      constructor; cbn [s_data s_flag s_empty s_low s_high]; rewrite ?Elow, ?Ehigh; cbn [pos_of]; try done.
      + by apply side_first.
      + intros i. rewrite !elem_of_cons, elem_of_nil. naive_solver.
      + apply not_elem_of_nil.
      + rewrite list_elem_of_singleton. lia. }
  rewrite Hst. cbn [mbind option_bind]. rewrite Hg. cbn [mbind option_bind]. rewrite Hnext.
  assert (t = [] \/ exists x suf, t = x :: suf) as [Et|(x & suf & Et)] by (destruct t; eauto).
  - assert (head t = None) as -> by (by rewrite Et). exists st, lf, lu, hf, hu. by rewrite Et in *.
  - assert (head t = Some x) as -> by (by rewrite Et). simpl in Hlen. rewrite Et in Hlen.
    eapply (split_loop_rest blen nrec suf [] x st lf lu hf hu); [by rewrite Et|by rewrite <-Et|simpl in *; lia].
Qed.

Lemma split_end_flags lf lu hf hu :
  (Z.land (flags_of lf lu hf hu) (Z.lor LOWFIND LOWUSED) =? LOWFIND)%Z = lf && negb lu /\
  (Z.land (flags_of lf lu hf hu) (Z.lor HIGHFIND HIGHUSED) =? HIGHFIND)%Z = hf && negb hu.
Proof. by destruct lf, lu, hf, hu. Qed.

(** What one side looks like in the end. *)
Definition side_done d (S : list nat) (start : nat) : Prop :=
  exists rs, recs_at d0 S rs /\ seg d (head (pos_of S start)) (pos_of S start) None /\
    recs_at d (pos_of S start) rs.

Lemma side_done_ext d d' S start : (forall i, i ∈ pos_of S start -> get d' i = get d i) ->
  side_done d S start -> side_done d' S start.
Proof.
  intros Hd (rs & H1 & H2 & H3). exists rs. split_and!; [done| |by eapply recs_ext].
  eapply seg_ext; [|done]. intros i Hi. unfold nx. by rewrite Hd.
Qed.

Lemma side_finish d S start found used g : NoDup (pos_of S start) ->
  (forall i, i ∈ pos_of S start -> i < length d) -> side_ok d0 d S start found used g [] ->
  exists d', (if found && negb used then write_link d g None else Some d) = Some d' /\
    length d' = length d /\ (forall i, i ∉ pos_of S start -> get d' i = get d i) /\ side_done d' S start.
Proof.
  intros Hnd Hlen Hside. destruct found.
  - destruct (side_end d0 d S start used g Hnd Hlen Hside) as (d' & rs & Hw & H1 & H2 & H3 & H4 & H5).
    exists d'. split_and!; [by destruct used|done|done|]. exists rs. split_and!; try done.
    pose proof (side_some_nonempty _ _ _ _ _ _ _ Hside) as Hne. by destruct S.
  - destruct Hside as [-> ->]. exists d. split_and!; try done. exists []. repeat constructor.
Qed.

(** The result of the pass. *)
Lemma split_end_spec st lf lu hf hu : loop_inv st (f :: t) [] lf lu hf hu ->
  exists d', split_end st = Some (d', s_empty st) /\ length d' = length d0 /\
    (forall i, i ∉ n :: f :: t -> get d' i = get d0 i) /\
    side_done d' (lows (f :: t)) f /\ side_done d' (highs (f :: t)) n.
Proof.
  intros Hinv. assert (Hpre : f :: t = (f :: t) ++ []) by (by rewrite app_nil_r).
  pose proof (pos_low_nodup t [] Hpre) as Hnl. pose proof (pos_high_nodup t [] Hpre) as Hnh.
  assert (Hbl : forall i, i ∈ pos_of (lows (f :: t)) f -> i < length (s_data st)).
  { intros i Hi%pos_low_in. rewrite (li_len _ _ _ _ _ _ _ Hinv). pose proof (Hlt i Hi). lia. }
  assert (Hbh : forall i, i ∈ pos_of (highs (f :: t)) n -> i < length (s_data st)).
  { intros i Hi%pos_high_in. rewrite (li_len _ _ _ _ _ _ _ Hinv).
    apply elem_of_cons in Hi as [->|Hi]; [done|]. pose proof (Hlt i Hi). lia. }
  unfold split_end. rewrite (li_flag _ _ _ _ _ _ _ Hinv).
  destruct (split_end_flags lf lu hf hu) as [-> ->].
  destruct (side_finish _ _ _ lf lu (s_low st) Hnl Hbl (li_low _ _ _ _ _ _ _ Hinv)) as (d1 & -> & L1 & G1 & D1).
  cbn [mbind option_bind].
  assert (Hhigh : side_ok d0 d1 (highs (f :: t)) n hf hu (s_high st) []).
  { pose proof (li_high _ _ _ _ _ _ _ Hinv) as Hh. destruct hf; [|done].
    destruct Hh as (ps & q & rs & r & Eg & Hpos & HS & Hseg & Hrs & Hu).
    assert (Hg : forall i, i ∈ ps ++ [q] -> get d1 i = get (s_data st) i).
    { intros i Hi. apply G1. intros Hl. rewrite <-Hpos in Hi. by apply (pos_disj t [] Hpre i). }
    exists ps, q, rs, r. split_and!; try done.
    - eapply seg_ext; [|done]. intros i Hi. unfold nx. rewrite Hg; [done|]. set_solver.
    - eapply recs_ext; [|done]. intros i Hi. apply Hg. set_solver.
    - unfold nx, rec_at. rewrite Hg by set_solver. done. }
  rewrite <-L1 in Hbh.
  destruct (side_finish _ _ _ hf hu (s_high st) Hnh Hbh Hhigh) as (d2 & -> & L2 & G2 & D2).
  cbn [mbind option_bind]. exists d2. split_and!; [done| | | |done].
  - rewrite L2, L1. apply (li_len _ _ _ _ _ _ _ Hinv).
  - intros i Hi. rewrite G2, G1; [by apply (li_same _ _ _ _ _ _ _ Hinv)|..].
    + intros Hp%pos_low_in. apply Hi. by right.
    + intros Hp%pos_high_in. by apply Hi.
  - apply (side_done_ext d1); [|done]. intros i Hi. apply G2. intros Hh. by apply (pos_disj t [] Hpre i).
Qed.

End loop.

(** ** The bucket split *)

Lemma table_mask d P (m m' : Z -> nat) C M : table d P m C M ->
  (forall b i l, i ∈ C b -> get d i = Some l -> m (hash_nr l) = b -> m' (hash_nr l) = b) ->
  table d P m' C M.
Proof.
  intros T Hm. split; [|apply T..]. intros b. pose proof (t_chain _ _ _ _ _ T b) as [H1 H2 H3 H4]. split; try done.
  intros x Hx. pose proof (H4 x Hx) as Hb. unfold bk in *. destruct (get d x) as [l|] eqn:E; simplify_eq/=.
  by rewrite (Hm _ x l Hx).
Qed.

Lemma recs_omap d ps rs : recs_at d ps rs -> omap (rec_at d) ps = rs.
Proof. induction 1 as [|i r ps rs Hi _ IH]; [done|]. cbn [omap list_omap]. rewrite Hi. by rewrite IH. Qed.

Lemma recs_in d ps rs i : recs_at d ps rs -> i ∈ ps -> exists r, rec_at d i = Some r /\ r ∈ rs.
Proof.
  induction 1 as [|j r ps rs Hj _ IH]; [by intros ?%elem_of_nil|].
  intros [->|Hi]%elem_of_cons; [exists r; split; [done|left]|].
  destruct (IH Hi) as (r' & ? & ?). exists r'. split; [done|by right].
Qed.

Lemma recs_back d ps rs r : recs_at d ps rs -> r ∈ rs -> exists i, i ∈ ps /\ rec_at d i = Some r.
Proof.
  induction 1 as [|j r' ps rs Hj _ IH]; [by intros ?%elem_of_nil|].
  intros [->|Hi]%elem_of_cons; [exists j; split; [left|done]|].
  destruct (IH Hi) as (i & ? & ?). exists i. split; [by right|done].
Qed.

(** One of the new chains, in the table that has grown. *)
Lemma side_chain d0 d (m : Z -> nat) S start : side_done d0 d S start -> NoDup (pos_of S start) ->
  (forall i l, i ∈ S -> get d0 i = Some l -> m (hash_nr l) = start) ->
  chain_ok d m start (pos_of S start).
Proof.
  intros (rs & HS & Hseg & Hrs) Hnd Hm. split; try done.
  - intros x. destruct S; simpl; congruence.
  - intros x Hx. destruct (recs_in _ _ _ x Hrs Hx) as (r & Hr & Hin).
    destruct (recs_back _ _ _ r HS Hin) as (i & Hi & Hri).
    rewrite (bk_rec m d d0 x i) by congruence. unfold bk, rec_at in *.
    destruct (get d0 i) as [l|] eqn:El; simplify_eq/=. by rewrite (Hm i l).
Qed.

Section grow.
Context (b : Z) (n : nat) (d : links R) (C : nat -> list nat) (M : list (Z * R)).
Context (Hlink : (Z.of_nat n <= NO_RECORD)%Z) (Hsize : size_ok b n) (Hb64 : (b < 2 ^ 64)%Z) (Hpos : 0 < n) (Hlen : n < length d).
Context (T : table d (fun i => i < n) (fun h => my_hash_mask h b n) C M).
Let f := buddy b n.
Let half := Z.shiftr b 1.
Let m' := fun h => my_hash_mask h b (n + 1).

Lemma other_bucket h : my_hash_mask h b n <> f -> m' h = my_hash_mask h b n.
Proof.
  intros Hne. unfold m'. rewrite mask_grow by done. fold f. by rewrite (proj2 (Nat.eqb_neq _ _) Hne).
Qed.

Lemma split_bucket_holds t d' e :
  C f = f :: t -> (forall i, i ∉ n :: f :: t -> get d' i = get d i) ->
  side_done d d' (lows d half (f :: t)) f -> side_done d d' (highs d half (f :: t)) n ->
  NoDup (pos_of (lows d half (f :: t)) f) -> NoDup (pos_of (highs d half (f :: t)) n) ->
  (forall i, i ∈ pos_of (lows d half (f :: t)) f -> i ∈ pos_of (highs d half (f :: t)) n -> False) ->
  (forall i, i ∈ n :: f :: t <->
    i = e \/ i ∈ pos_of (lows d half (f :: t)) f \/ i ∈ pos_of (highs d half (f :: t)) n) ->
  e ∉ pos_of (lows d half (f :: t)) f -> e ∉ pos_of (highs d half (f :: t)) n ->
  holds d' (fun i => i < n + 1 /\ i <> e) M.
Proof.
  intros Hf Hd (rl & Hl1 & _ & Hl2) (rh & Hh1 & _ & Hh2) Hnl Hnh Hdisj Hdom Hel Heh.
  set (Lw := lows d half (f :: t)) in *. set (Hg := highs d half (f :: t)) in *.
  set (others := filter (fun i => i ∉ f :: t) (seq 0 n)).
  assert (Hoth : forall i, i ∈ others <-> i < n /\ i ∉ f :: t).
  { intros i. unfold others. rewrite list_elem_of_filter, elem_of_seq. naive_solver lia. }
  assert (Hno : NoDup others) by (apply NoDup_filter, NoDup_seq).
  assert (Hft : forall i, i ∈ f :: t -> i < n).
  { intros i. rewrite <-Hf. apply (table_live _ _ _ _ _ T). }
  assert (Hndft : NoDup (f :: t)) by (rewrite <-Hf; apply (t_chain _ _ _ _ _ T)).
  destruct (t_holds _ _ _ _ _ T) as (ps & Hps1 & Hps2 & Hps3).
  exists (pos_of Lw f ++ pos_of Hg n ++ others). split_and!.
  - apply NoDup_app. split_and!; [done| |apply NoDup_app; split_and!; [done| |done]].
    + intros i Hi [Hi'|Hi']%elem_of_app; [by eapply Hdisj|]. apply Hoth in Hi' as [Hin Hnt].
      assert (i ∈ n :: f :: t) as [->|?]%elem_of_cons by (apply Hdom; auto); [lia|done].
    + intros i Hi Hi'. apply Hoth in Hi' as [Hin Hnt].
      assert (i ∈ n :: f :: t) as [->|?]%elem_of_cons by (apply Hdom; auto); [lia|done].
  - intros i. rewrite !elem_of_app, Hoth. split.
    + intros Hi. assert (i ∈ n :: f :: t \/ i < n /\ i ∉ f :: t) as Hi'.
      { destruct Hi as [?|[?|?]]; [left; apply Hdom; auto..|by right]. }
      split.
      * destruct Hi' as [[->|?%Hft]%elem_of_cons|[? _]]; lia.
      * intros ->. destruct Hi as [?|[?|[Hen Hent]]]; try done.
        assert (e ∈ n :: f :: t) as [->|?]%elem_of_cons by (apply Hdom; auto); [lia|done].
    + intros [Hi Hie]. destruct (decide (i ∈ n :: f :: t)) as [Hin|Hin].
      * apply Hdom in Hin. naive_solver.
      * right. right. apply not_elem_of_cons in Hin as [? ?]. split; [lia|done].
  - rewrite !omap_app, (recs_omap _ _ _ Hl2), (recs_omap _ _ _ Hh2).
    rewrite <-(recs_omap _ _ _ Hl1), <-(recs_omap _ _ _ Hh1), (HashChains.omap_ext d d' others).
    + rewrite <-!omap_app, <-Hps3. apply omap_Permutation. apply NoDup_Permutation; [|done|].
      * apply NoDup_app. split_and!; [by apply NoDup_filter| |apply NoDup_app; split_and!; [by apply NoDup_filter| |done]].
        -- intros i [Hi1 Hi2]%list_elem_of_filter [[Hi3 _]%list_elem_of_filter|[_ ?]%Hoth]%elem_of_app; [congruence|done].
        -- intros i [Hi1 Hi2]%list_elem_of_filter [_ ?]%Hoth. done.
      * intros i. rewrite !elem_of_app, Hoth, Hps2. unfold Lw, Hg, lows, highs. rewrite !list_elem_of_filter.
        split; [intros [[_ Hi]|[[_ Hi]|[Hi _]]]; auto|]. intros Hi.
        destruct (decide (i ∈ f :: t)), (is_low d half i) eqn:E; auto.
    + intros i [Hi1 Hi2]%Hoth. unfold rec_at. rewrite Hd; [done|].
      intros [->|?]%elem_of_cons; [lia|done].
Qed.

(** The chain of [f] is split. *)
Lemma split_chain_spec t : C f = f :: t ->
  exists d' e C', split_bucket b n d n = Some (d', e) /\ length d' = length d /\ e < n + 1 /\
    table d' (fun i => i < n + 1 /\ i <> e) m' C' M.
Proof.
  intros Hf. pose proof (buddy_lt b n Hsize Hpos Hb64 : f < n) as Hfn.
  pose proof (t_chain _ _ _ _ _ T f) as [Hseg _ Hnd Hbk]. rewrite Hf in Hseg, Hnd, Hbk. cbn [head] in Hseg.
  assert (Hlt : forall i, i ∈ f :: t -> i < n) by (intros i; rewrite <-Hf; apply (table_live _ _ _ _ _ T)).
  destruct (table_get _ _ _ _ _ T f Hfn) as (l & Hl & _).
  assert (Hml : my_hash_mask (hash_nr l) b n = f).
  { pose proof (Hbk f ltac:(left)) as Hb. unfold bk in Hb. rewrite Hl in Hb. by simplify_eq/=. }
  pose proof (chain_length _ _ _ _ _ T n ltac:(done) f) as Hcl. rewrite Hf in Hcl.
  destruct (split_loop_spec d n half f t Hseg Hnd Hlt Hlen Hlink b n n l Hl Hml Hcl) as (st & lf & lu & hf & hu & Hloop & Hinv).
  destruct (split_end_spec d n half f t Hseg Hnd Hlt Hlen Hlink st lf lu hf hu Hinv) as (d' & Hend & Hl' & Hd' & Hlow & Hhigh).
  assert (Hpre : f :: t = (f :: t) ++ []) by (by rewrite app_nil_r).
  pose proof (pos_low_nodup d half f t Hnd t [] Hpre) as Hnl.
  pose proof (pos_high_nodup d n half f t Hnd Hlt Hlen t [] Hpre) as Hnh.
  pose proof (pos_disj d n half f t Hnd Hlt Hlen t [] Hpre) as Hdisj.
  destruct Hinv as [_ _ _ _ _ _ Hdom Hel Heh _ _].
  exists d', (s_empty st), (<[n := pos_of (highs d half (f :: t)) n]> (<[f := pos_of (lows d half (f :: t)) f]> C)).
  split_and!; [|done| |split; [| |by eapply split_bucket_holds]].
  - unfold split_bucket. fold (buddy b n). fold f half. rewrite decide_True by lia. by rewrite Hloop.
  - assert (s_empty st ∈ n :: f :: t) as [->|?%Hlt]%elem_of_cons by (apply Hdom; auto); lia.
  - intros b'. destruct (decide (n = b')) as [<-|Hne]; [|destruct (decide (f = b')) as [<-|Hnf]].
    + rewrite fn_lookup_insert. apply (side_chain d); [done..|]. intros i li Hi Hli.
      apply list_elem_of_filter in Hi as [Hi1 Hi2]. unfold is_low in Hi1. rewrite Hli in Hi1.
      pose proof (Hbk i Hi2) as Hb. unfold bk in Hb. rewrite Hli in Hb. simpl in Hb. injection Hb as Hb.
      unfold m'. rewrite mask_grow by done. fold f half. by rewrite Hi1, Hb, Nat.eqb_refl.
    + rewrite fn_lookup_insert_ne, fn_lookup_insert by done. apply (side_chain d); [done..|]. intros i li Hi Hli.
      apply list_elem_of_filter in Hi as [Hi1 Hi2]. unfold is_low in Hi1. rewrite Hli in Hi1.
      pose proof (Hbk i Hi2) as Hb. unfold bk in Hb. rewrite Hli in Hb. simpl in Hb. injection Hb as Hb.
      unfold m'. rewrite mask_grow by done. fold f half. by rewrite Hi1, andb_false_r.
    + rewrite !fn_lookup_insert_ne by done. pose proof (t_chain _ _ _ _ _ T b') as [H1 H2 H3 H4].
      assert (Hsame : forall i, i ∈ C b' -> get d' i = get d i).
      { intros i Hi. apply Hd'. intros [->|Hif]%elem_of_cons.
        - apply (table_live _ _ _ _ _ T) in Hi. lia.
        - rewrite <-Hf in Hif. apply Hnf. by apply (table_disj _ _ _ _ _ T f b' i). }
      split; try done.
      * eapply seg_ext; [|done]. intros x Hx. unfold nx. by rewrite Hsame.
      * intros x Hx. pose proof (H4 x Hx) as Hb. unfold bk in *. rewrite Hsame by done.
        destruct (get d x) as [lx|]; [|done]. simpl in *. injection Hb as Hb.
        rewrite other_bucket; [by rewrite Hb|]. rewrite Hb. congruence.
  - intros i. split.
    + intros [Hi Hie]. destruct (decide (i ∈ n :: f :: t)) as [Hin|Hin].
      * apply Hdom in Hin as [?|[Hin|Hin]]; [done|exists f|exists n].
        -- by rewrite fn_lookup_insert_ne, fn_lookup_insert by lia.
        -- by rewrite fn_lookup_insert.
      * apply not_elem_of_cons in Hin as [Hin Hif].
        assert (i < n) as [b' Hib]%(t_dom _ _ _ _ _ T) by lia. exists b'.
        rewrite fn_lookup_insert_ne, fn_lookup_insert_ne; [done|..].
        -- intros <-. by rewrite Hf in Hib.
        -- intros <-. rewrite (table_free _ _ _ _ _ T n) in Hib by lia. by apply elem_of_nil in Hib.
    + intros [b' Hib]. destruct (decide (n = b')) as [<-|Hne]; [|destruct (decide (f = b')) as [<-|Hnf]].
      * rewrite fn_lookup_insert in Hib. split; [|by intros ->].
        assert (i ∈ n :: f :: t) as [->|?%Hlt]%elem_of_cons by (apply Hdom; auto); lia.
      * rewrite fn_lookup_insert_ne, fn_lookup_insert in Hib by done. split; [|by intros ->].
        assert (i ∈ n :: f :: t) as [->|?%Hlt]%elem_of_cons by (apply Hdom; auto); lia.
      * rewrite !fn_lookup_insert_ne in Hib by done. pose proof (table_live _ _ _ _ _ T _ _ Hib) as Hin. simpl in Hin.
        split; [lia|]. intros ->.
        assert (s_empty st ∈ n :: f :: t) as [?|Hif]%elem_of_cons by (apply Hdom; auto); [lia|].
        rewrite <-Hf in Hif. apply Hnf. by apply (table_disj _ _ _ _ _ T f b' (s_empty st)).
Qed.

(** The bucket is empty. *)
Lemma split_empty_spec : C f = [] ->
  split_bucket b n d n = Some (d, n) /\ table d (fun i => i < n + 1 /\ i <> n) m' C M.
Proof.
  intros Hf. pose proof (buddy_lt b n Hsize Hpos Hb64 : f < n) as Hfn. destruct (table_get _ _ _ _ _ T f Hfn) as (l & Hl & Hin).
  assert (Hml : my_hash_mask (hash_nr l) b n <> f).
  { intros Hm. simpl in Hin. rewrite Hm, Hf in Hin. by apply elem_of_nil in Hin. }
  split.
  - unfold split_bucket. fold (buddy b n). fold f half. rewrite decide_True by lia.
    destruct n as [|n'] eqn:En; [lia|]. cbn [split_loop s_data s_flag]. rewrite Hl. cbn [mbind option_bind].
    rewrite <-En in *. by rewrite (proj2 (Nat.eqb_neq _ _) Hml).
  - eapply table_P; [|eapply table_mask; [exact T|]].
    + intros i. simpl. lia.
    + intros b' i li Hi Hli Hb. simpl in Hb. rewrite other_bucket; [done|]. intros Hff.
      rewrite <-Hb, Hff, Hf in Hi. by apply elem_of_nil in Hi.
Qed.

End grow.

(** [split_bucket] makes room for one more record: the chains are those of a
    table with one more bucket, and one position is free. *)
Lemma split_bucket_spec b n d C M :
  (Z.of_nat n <= NO_RECORD)%Z -> size_ok b n -> (b < 2 ^ 64)%Z -> n < length d ->
  table d (fun i => i < n) (fun h => my_hash_mask h b n) C M ->
  exists d' e C', split_bucket b n d n = Some (d', e) /\ length d' = length d /\ e < n + 1 /\
    table d' (fun i => i < n + 1 /\ i <> e) (fun h => my_hash_mask h b (n + 1)) C' M.
Proof.
  intros Hlk Hsize Hb Hlen T. destruct (decide (n = 0)) as [->|Hn].
  - destruct Hsize as (k & Hbk & Hk & Hs1 & Hs2). simpl in Hs1, Hs2. assert (b = 1)%Z as -> by lia.
    exists d, 0, C. split_and!; [done|done|lia|].
    eapply table_P; [|eapply table_mask; [exact T|]].
    + intros i. simpl. lia.
    + intros b' i l Hi. apply (table_live _ _ _ _ _ T) in Hi. simpl in Hi. lia.
  - destruct (C (buddy b n)) as [|x t] eqn:Hf.
    + destruct (split_empty_spec b n d C M Hlk Hsize Hb ltac:(lia) Hlen T Hf) as [H1 H2].
      exists d, n, C. split_and!; [done|done|lia|done].
    + pose proof (table_cons _ _ _ _ _ T _ x t Hf) as ->.
      eapply split_chain_spec; [done|done|done|lia|done|done|exact Hf].
Qed.

End split.

End HashSplit.
