(* ===== verification/HashMerge.v ===== *)
(** * Merging two buckets

    When a hash table shrinks, the records of the last bucket go to the bucket
    they were split from, and the record at the last position goes to the free
    one. *)

From stdpp Require Import functions.
From S2P Require Import Prelude DynArray Hash HashChains HashSteps HashSplit.
Import DynArray Hash HashChains HashSteps HashSplit.

Module HashMerge.

Section merge.
Context {R : Type}.
Implicit Types (d : links R) (l : HASH_LINK R) (C : nat -> list nat) (M : list (Z * R)).

(** The last bucket [n] is merged with [f]. *)
Section shrink.
Context (m0 m1 : Z -> nat) (n f : nat) (Hfn : f < n).
Context (Hrel : forall h, m0 h = m1 h /\ m1 h < n \/ m0 h = n /\ m1 h = f).
Context (d : links R) (P : nat -> Prop) (C : nat -> list nat) (M : list (Z * R)) (T : table d P m0 C M).

Lemma to_m1 i b : b <> n -> bk m0 d i = Some b -> bk m1 d i = Some b.
Proof.
  unfold bk. destruct (get d i) as [l|]; [|done]. simpl. intros Hb [= <-].
  destruct (Hrel (hash_nr l)) as [[E _]|[E _]]; congruence.
Qed.

Lemma bk_last i : bk m0 d i = Some n -> bk m1 d i = Some f.
Proof.
  unfold bk. destruct (get d i) as [l|]; [|done]. simpl. intros [= Hn].
  destruct (Hrel (hash_nr l)) as [[? ?]|[_ ->]]; [lia|done].
Qed.

(** The last bucket is empty. *)
Lemma shrink_empty : ~ P n -> table d P m1 C M.
Proof.
  intros Hn. eapply table_mask; [exact T|]. intros b i l Hi Hl <-.
  destruct (Hrel (hash_nr l)) as [[-> _]|[Hm _]]; [done|].
  rewrite Hm, (table_free _ _ _ _ _ T n Hn) in Hi. by apply elem_of_nil in Hi.
Qed.

Lemma table_shrink d' (P' : nat -> Prop) zs : chain_ok d' m1 f zs ->
  (forall b i, b <> n -> b <> f -> i ∈ C b -> get d' i = get d i) ->
  (forall i, P' i <-> i ∈ zs \/ (P i /\ i ∉ C n /\ i ∉ C f)) ->
  holds d' P' M -> table d' P' m1 (<[n := []]> (<[f := zs]> C)) M.
Proof.
  intros Hz Hd HP HM. assert (Hnf : n <> f) by lia. split; [| |done].
  - intros b. destruct (decide (n = b)) as [<-|Hbn]; [rewrite fn_lookup_insert; apply chain_ok_nil|].
    rewrite fn_lookup_insert_ne by done.
    destruct (decide (f = b)) as [<-|Hbf]; [by rewrite fn_lookup_insert|]. rewrite fn_lookup_insert_ne by done.
    pose proof (t_chain _ _ _ _ _ T b) as [H1 H2 H3 H4].
    assert (Hsame : forall i, i ∈ C b -> get d' i = get d i) by (intros i Hi; by apply (Hd b)).
    split; try done.
    + eapply seg_ext; [|done]. intros x Hx. unfold nx. by rewrite Hsame.
    + intros x Hx. assert (bk m1 d' x = bk m1 d x) as -> by (unfold bk; by rewrite Hsame).
      by apply to_m1; [congruence|apply H4].
  - intros i. rewrite HP. split.
    + intros [Hi|(Hi & Hin & Hif)]; [exists f; by rewrite fn_lookup_insert_ne, fn_lookup_insert by done|].
      apply (t_dom _ _ _ _ _ T) in Hi as [b Hi]. exists b.
      rewrite !fn_lookup_insert_ne; [done|by intros ->|by intros ->].
    + intros [b Hi]. destruct (decide (n = b)) as [<-|Hbn].
      { rewrite fn_lookup_insert in Hi. by apply elem_of_nil in Hi. }
      rewrite fn_lookup_insert_ne in Hi by done.
      destruct (decide (f = b)) as [<-|Hbf]; [rewrite fn_lookup_insert in Hi; by left|].
      rewrite fn_lookup_insert_ne in Hi by done. right. split; [by eapply table_live|].
      split; intros Hi'; [apply Hbn|apply Hbf]; by eapply table_disj.
Qed.

(** [f] is free: the chain of [n] moves there. *)
Lemma merge_free d' t : C n = n :: t -> ~ P f -> get d' f = get d n ->
  (forall i, P i -> i <> n -> get d' i = get d i) ->
  table d' (add (rem P n) f) m1 (<[n := []]> (<[f := f :: t]> C)) M.
Proof.
  intros Hn Hf Hdf Hd. pose proof (table_free _ _ _ _ _ T f Hf) as Hcf.
  destruct (chain_facts _ _ _ _ _ T n [n] t Hn) as (L1 & L2 & _ & N2 & D & B).
  assert (Hnl : P n) by (apply L1; left).
  assert (Hnt : n ∉ t) by (apply D; left).
  assert (Hsame : forall i, i ∈ t -> get d' i = get d i).
  { intros i Hi. apply Hd; [by apply L2|]. by intros ->. }
  pose proof (t_chain _ _ _ _ _ T n) as [Hs _ _ _]. rewrite Hn in Hs. destruct Hs as (_ & o & Ho & Hs).
  apply table_shrink.
  - split.
    + split; [done|]. exists o. split; [unfold nx in *; by rewrite Hdf|].
      eapply seg_ext; [|done]. intros i Hi. unfold nx. by rewrite Hsame.
    + by intros x [= ->].
    + constructor; [|done]. intros Hi. by apply Hf, L2.
    + intros x [->|Hx]%elem_of_cons.
      * assert (bk m1 d' f = bk m1 d n) as -> by (unfold bk; by rewrite Hdf). apply bk_last, B. set_solver.
      * assert (bk m1 d' x = bk m1 d x) as -> by (unfold bk; by rewrite Hsame). apply bk_last, B. set_solver.
  - intros b i Hbn Hbf Hi. apply Hd; [by eapply table_live|]. intros ->.
    apply Hbn, (table_disj _ _ _ _ _ T b n n); [done|]. rewrite Hn. left.
  - intros i. unfold add, rem. rewrite Hcf, Hn, !elem_of_cons. pose proof (not_elem_of_nil i). split.
    + intros [[Hi Hin]| ->]; [|auto]. destruct (decide (i ∈ t)); [auto|]. right. naive_solver.
    + intros [[->|Hi]|(Hi & Hin & _)]; [auto| |left; split; [done|naive_solver]].
      left. split; [by apply L2|]. by intros ->.
  - apply (holds_move d d' P _ _ n f); try done.
    + unfold rec_at. by rewrite Hdf.
    + destruct (table_get _ _ _ _ _ T n Hnl) as (l & Hl & _). unfold rec_at. rewrite Hl. eauto.
    + intros i Hi Hin. unfold rec_at. by rewrite Hd.
    + apply T.
Qed.

(** The chain of [n], with its first record moved to the free position [e],
    goes between the first record of [f] and the others. *)
Lemma merge_second d' e xs ys : ~ P e -> P n -> P f -> NoDup ((n :: xs) ++ f :: ys) ->
  (forall i, i ∈ (n :: xs) ++ f :: ys <-> i ∈ C n \/ i ∈ C f) ->
  seg d' (Some f) (f :: e :: xs ++ ys) None ->
  rec_at d' e = rec_at d n -> (forall i, P i -> i <> n -> rec_at d' i = rec_at d i) ->
  (forall i, P i -> i ∉ C n -> i ∉ C f -> get d' i = get d i) ->
  (exists b, n ∈ C b /\ (b = n \/ b = f)) ->
  table d' (add (rem P n) e) m1 (<[n := []]> (<[f := f :: e :: xs ++ ys]> C)) M.
Proof.
  intros He Hn Hf Hnd Hin Hseg Hre Hr Hd Hbn.
  assert (Hlive : forall i, i ∈ (n :: xs) ++ f :: ys -> P i).
  { intros i [Hi|Hi]%Hin; by eapply table_live. }
  assert (Hb1 : forall i, i ∈ C n \/ i ∈ C f -> bk m1 d i = Some f).
  { intros i [Hi|Hi]; [by apply bk_last, (table_bucket _ _ _ _ _ T)|].
    apply to_m1; [lia|by apply (table_bucket _ _ _ _ _ T)]. }
  assert (Hne : forall i, i ∈ f :: xs ++ ys -> i <> n /\ i ∈ (n :: xs) ++ f :: ys).
  { intros i Hi. simpl in Hnd. apply NoDup_cons in Hnd as [Hnd _]. split; [|set_solver].
    intros ->. apply Hnd. set_solver. }
  apply table_shrink.
  - split; [done|by intros x [= ->]| |].
    + assert (Hnd' : NoDup (f :: xs ++ ys)).
      { simpl in Hnd. apply NoDup_cons in Hnd as [_ Hnd]. by rewrite Permutation_middle. }
      apply NoDup_cons in Hnd' as [H1 H2]. constructor; [|constructor; [|done]].
      * intros [->|?]%elem_of_cons; [by apply He|done].
      * intros Hi. apply He, Hlive. set_solver.
    + intros i Hi. destruct (decide (i = e)) as [->|Hie].
      * rewrite (bk_rec m1 d' d e n Hre). apply Hb1, Hin. set_solver.
      * destruct (Hne i) as [H1 H2]; [set_solver|]. rewrite (bk_rec m1 d' d i i); [by apply Hb1, Hin|].
        apply Hr; [by apply Hlive|done].
  - intros b i Hbn' Hbf Hi. apply Hd; [by eapply table_live|..]; intros Hi'; [apply Hbn'|apply Hbf];
      by eapply table_disj.
  - intros i. unfold add, rem. split.
    + intros [[Hi Hi']| ->]; [|left; right; left].
      destruct (decide (i ∈ (n :: xs) ++ f :: ys)) as [Hii|Hii]; [left; set_solver|].
      right. rewrite Hin in Hii. naive_solver.
    + intros [Hi|(Hi & H1 & H2)].
      * destruct (decide (i = e)) as [->|Hie]; [by right|]. left.
        destruct (Hne i) as [H1 H2]; [set_solver|]. split; [by apply Hlive|done].
      * left. split; [done|]. intros ->. destruct Hbn as (b & Hb & [-> | ->]); done.
  - apply (holds_move d d' P _ _ n e); try done.
    + destruct (table_get _ _ _ _ _ T n Hn) as (l & Hl & _). unfold rec_at. rewrite Hl. eauto.
    + apply T.
Qed.

End shrink.

(** ** The last record *)

(** A chain [e :: xs] is put between [p] and the records behind it. *)
Lemma splice_spec d e xs find p lp ys N : seg d (Some e) (e :: xs) find -> NoDup (e :: xs) ->
  p ∉ e :: xs -> (forall i, find = Some i -> i = p) -> get d p = Some lp -> length xs < N ->
  seg d (next lp) ys None -> (forall i, i ∈ ys -> i <> p /\ i ∉ e :: xs) ->
  exists d', (d2 ← movelink N d find e (next lp); set_next d2 p (Some e)) = Some d' /\
    length d' = length d /\ seg d' (Some p) (p :: e :: xs ++ ys) None /\
    (forall i, rec_at d' i = rec_at d i) /\ (forall i, i ∉ p :: e :: xs -> get d' i = get d i).
Proof.
  intros Hse Hnd Hp Hf Hlp HN Hs Hys.
  assert (exists zs q, e :: xs = zs ++ [q]) as (zs & q & Hq).
  { destruct (exists_last (l := e :: xs)) as (zs & q & ?); [done|eauto]. }
  rewrite app_comm_cons, Hq in *.
  assert (exists lq, get d q = Some lq) as [lq Hlq].
  { apply seg_links_app in Hse as (o & _ & Hse2). destruct Hse2 as (_ & o' & Ho & _). unfold nx in Ho.
    destruct (get d q); [eauto|done]. }
  assert (Hqp : q <> p) by (intros ->; apply Hp; set_solver).
  pose proof (get_lt _ _ _ Hlq) as Hqb.
  rewrite (movelink_spec d q find (next lp) lq zs N e Hse).
  2:{ intros i Hi Hfi. apply Hp. by rewrite <-(Hf i). }
  2:{ apply (f_equal length) in Hq. rewrite length_app in Hq. simpl in Hq. lia. }
  2:{ done. }
  cbn [mbind option_bind]. set (d2 := <[q := _]> d).
  assert (Hd2 : forall i, get d2 i = if decide (i = q) then Some (mk_link (next lp) (hash_nr lq) (data lq)) else get d i)
    by (intros i; by apply get_insert).
  assert (Hlp2 : get d2 p = Some lp) by (by rewrite Hd2, decide_False by done).
  rewrite (set_next_ok d2 p (Some e) lp Hlp2). set (d3 := <[p := _]> d2).
  assert (Hd3 : forall i, get d3 i = if decide (i = p) then Some (mk_link (Some e) (hash_nr lp) (data lp)) else get d2 i)
    by (intros i; apply get_insert; by eapply get_lt).
  assert (Hsame : forall i, i <> p -> i <> q -> get d3 i = get d i).
  { intros i H1 H2. by rewrite Hd3, decide_False, Hd2, decide_False by done. }
  exists d3. split_and!; [done|unfold d3, d2; by rewrite !length_insert| | |].
  - split; [done|]. exists (Some e). unfold nx at 1. rewrite Hd3, decide_True by done. split; [done|].
    apply seg_links_app. exists (next lp). split.
    + apply seg_links_app in Hse as (o & Hse1 & Hse2). destruct Hse2 as (-> & _). apply seg_links_app. exists (Some q). split.
      * eapply seg_ext; [|done]. intros i Hi. unfold nx. rewrite Hsame; [done|..]; intros ->.
        -- apply Hp. set_solver.
        -- apply NoDup_app in Hnd as (_ & Hx & _). apply (Hx q Hi). left.
      * simpl. split; [done|]. exists (next lp). unfold nx. by rewrite Hd3, decide_False, Hd2, decide_True by done.
    + eapply seg_ext; [|done]. intros i Hi. destruct (Hys i Hi) as [H1 H2]. unfold nx.
      rewrite Hsame; [done|done|]. intros ->. set_solver.
  - intros i. unfold rec_at. rewrite Hd3. case_decide as Hip; [subst i; by rewrite Hlp|].
    rewrite Hd2. case_decide as Hiq; [subst i; by rewrite Hlq|done].
  - intros i Hi. apply Hsame; intros ->; set_solver.
Qed.

Section move_last.
Context (b0 b : Z) (n f e : nat) (d : links R) (P : nat -> Prop) (C : nat -> list nat) (M : list (Z * R)).
Let m0 := fun h => my_hash_mask h b0 (n + 1).
Let m1 := fun h => my_hash_mask h b n.
Context (Hfn : f < n) (Hrel : forall h, m0 h = m1 h /\ m1 h < n \/ m0 h = n /\ m1 h = f).
Context (HP : forall i, P i <-> i < n + 1 /\ i <> e) (Hlen : n < length d) (He : e < n).
Context (T : table d P m0 C M).
Context (ll : HASH_LINK R) (Hll : get d n = Some ll).
Let p := m1 (hash_nr ll).

Lemma last_live : P n.
Proof. apply HP. lia. Qed.

Lemma free_e : ~ P e.
Proof. rewrite HP. naive_solver. Qed.

Lemma m1_lt h : m1 h < n.
Proof. destruct (Hrel h) as [[_ ?]|[_ ->]]; done. Qed.

Lemma last_filled i : add (rem P n) e i <-> i < n.
Proof. unfold add, rem. rewrite HP. destruct (decide (i = e)); naive_solver lia. Qed.

(** The last record is in the last bucket unless it is behind the first record
    of another one. *)
Lemma last_bucket : (forall lp, get d p = Some lp -> m0 (hash_nr lp) <> p) \/ ~ P p ->
  m0 (hash_nr ll) = n /\ p = f /\ exists t, C n = n :: t.
Proof.
  intros Hp. pose proof (table_in _ _ _ _ _ T n ll last_live Hll) as Hin. simpl in Hin.
  destruct (Hrel (hash_nr ll)) as [[Hm Hlt]|[Hm Hf]].
  - exfalso. rewrite Hm in Hin. fold p in Hin. destruct (C p) as [|x xs] eqn:Ep; [by apply elem_of_nil in Hin|].
    pose proof (table_cons _ _ _ _ _ T p x xs Ep) as ->.
    assert (Hpin : p ∈ C p) by (rewrite Ep; left).
    destruct Hp as [Hp|Hp]; [|by apply Hp, (table_live _ _ _ _ _ T p)].
    pose proof (table_bucket _ _ _ _ _ T p p Hpin) as Hb. unfold bk in Hb.
    destruct (get d p) as [lp|]; [|done]. simpl in Hb. injection Hb as Hb. by apply (Hp lp).
  - split; [done|]. split; [done|]. rewrite Hm in Hin. by apply (table_own _ _ _ _ _ T).
Qed.

Lemma get_e i l : get (<[e := Some l]> d) i = if decide (i = e) then Some l else get d i.
Proof. apply get_insert. lia. Qed.

(** Its bucket starts at the free position. *)
Lemma move_last_free : p = e ->
  exists d' C', put d e ll = Some d' /\ length d' = length d /\ table d' (fun i => i < n) m1 C' M.
Proof.
  intros Hpe. destruct last_bucket as (Hm & Hpf & t & Hn); [right; rewrite Hpe; apply free_e|].
  rewrite put_ok by lia. eexists _, _. split; [done|]. rewrite length_insert. split; [done|].
  eapply table_P; [exact last_filled|]. assert (Hef : e = f) by congruence.
  replace (add (rem P n) e) with (add (rem P n) f) by (by rewrite Hef).
  eapply (merge_free m0 m1 n f); try done.
  - rewrite <-Hef. apply free_e.
  - by rewrite get_e, decide_True.
  - intros i Hi Hin. rewrite get_e, decide_False; [done|]. intros ->. by apply free_e.
Qed.

(** The start of its bucket holds a record of another one. *)
Lemma move_last_wrong lp : p <> e -> get d p = Some lp -> p <> m1 (hash_nr lp) ->
  exists d' C', (d1 ← put d e lp; d2 ← put d1 p ll; movelink (n + 1) d2 (Some p) (m1 (hash_nr lp)) (Some e)) = Some d' /\
    length d' = length d /\ table d' (fun i => i < n) m1 C' M.
Proof.
  intros Hpe Hlp Hne. pose proof (m1_lt (hash_nr ll)) as Hpn. fold p in Hpn.
  assert (Hm0 : m0 (hash_nr lp) <> p).
  { intros Hm. destruct (Hrel (hash_nr lp)) as [[? _]|[? _]]; [congruence|lia]. }
  destruct last_bucket as (Hm & Hpf & t & Hn); [left; naive_solver|].
  assert (Hg : m0 (hash_nr lp) = m1 (hash_nr lp)).
  { destruct (Hrel (hash_nr lp)) as [[-> _]|[_ ?]]; [done|congruence]. }
  rewrite put_ok by lia. cbn [mbind option_bind]. rewrite put_ok by (rewrite length_insert; lia).
  cbn [mbind option_bind]. set (d2 := <[p := Some ll]> _). rewrite <-Hg.
  assert (Hd2 : forall i, get d2 i = if decide (i = p) then Some ll else if decide (i = e) then Some lp else get d i).
  { intros i. unfold d2. rewrite get_insert by (rewrite length_insert; lia). by rewrite get_e. }
  destruct (relocate _ _ _ _ _ T (n + 1) ltac:(naive_solver) d2 p lp e) as (d3 & C1 & Hml & Hl3 & T3 & HC1 & Hg3).
  { apply HP. lia. } { done. } { done. } { apply free_e. }
  { rewrite Hd2, decide_False, decide_True by done. done. }
  { intros i Hi Hii. rewrite Hd2, !decide_False; [done| |done]. intros ->. by apply free_e. }
  rewrite Hml. eexists _, _. split; [done|]. split; [rewrite Hl3; unfold d2; by rewrite !length_insert|].
  assert (HCn : C1 n = n :: t).
  { rewrite HC1; [done|]. pose proof (m1_lt (hash_nr lp)). fold m0. lia. }
  assert (Hin : n ∉ C (m0 (hash_nr lp))).
  { intros Hi. assert (n = m0 (hash_nr lp)); [|pose proof (m1_lt (hash_nr lp)); lia].
    apply (table_disj _ _ _ _ _ T n _ n); [rewrite Hn; left|done]. }
  eapply table_P; [|eapply (merge_free m0 m1 n f Hfn Hrel d3 _ _ _ T3 d3 t HCn)].
  - intros i. unfold add, rem. rewrite HP. destruct (decide (i = e)), (decide (i = f)); naive_solver lia.
  - unfold add, rem. rewrite <-Hpf. naive_solver.
  - rewrite <-Hpf, Hg3, Hd2, decide_True by auto. rewrite Hg3, Hd2, !decide_False by (auto; lia). done.
  - done.
Qed.

(** It is behind the first record of its bucket already. *)
Lemma move_last_same : p <> e -> m0 (hash_nr ll) <> n ->
  exists d' C', (d1 ← put d e ll; movelink (n + 1) d1 (Some n) p (Some e)) = Some d' /\
    length d' = length d /\ table d' (fun i => i < n) m1 C' M.
Proof.
  intros Hpe Hne.
  assert (Hm : m0 (hash_nr ll) = p) by (destruct (Hrel (hash_nr ll)) as [[-> _]|[? _]]; done).
  rewrite put_ok by lia. cbn [mbind option_bind]. rewrite <-Hm.
  destruct (relocate _ _ _ _ _ T (n + 1) ltac:(naive_solver) (<[e := Some ll]> d) n ll e)
    as (d3 & C1 & Hml & Hl3 & T3 & _ & _); try done.
  { apply last_live. } { apply free_e. }
  { by rewrite get_e, decide_True. }
  { intros i Hi Hin. rewrite get_e, decide_False; [done|]. intros ->. by apply free_e. }
  rewrite Hml. eexists _, _. split; [done|]. split; [by rewrite Hl3, length_insert|].
  eapply table_P; [exact last_filled|]. eapply (shrink_empty m0 m1 n f); [done|exact T3|].
  unfold add, rem. naive_solver lia.
Qed.

(** The two chains, as the code sees them: the records behind the last one up
    to [find], and those behind the first one of the other bucket. *)
Lemma two_chains lp : p <> e -> get d p = Some lp -> p = m1 (hash_nr lp) ->
  m0 (hash_nr ll) = n \/ m0 (hash_nr ll) <> m0 (hash_nr lp) ->
  exists xs ys, p = f /\ P p /\ NoDup ((n :: xs) ++ p :: ys) /\ n ∈ C n /\
    (forall i, i ∈ (n :: xs) ++ p :: ys <-> i ∈ C n \/ i ∈ C p) /\
    seg d (Some n) (n :: xs) (if m0 (hash_nr ll) =? m0 (hash_nr lp) then Some p else None) /\
    seg d (next lp) ys None.
Proof.
  intros Hpe Hlp Hp1 Hm. pose proof (m1_lt (hash_nr ll)) as Hpn. fold p in Hpn.
  assert (HPp : P p) by (apply HP; lia). pose proof (table_in _ _ _ _ _ T p lp HPp Hlp) as Hpin. simpl in Hpin.
  assert (Hlast : m0 (hash_nr ll) = n).
  { destruct Hm as [?|Hm]; [done|]. destruct (Hrel (hash_nr ll)) as [[Hm1 _]|[? _]]; [|done]. exfalso.
    fold p in Hm1. assert (Hpn' : m0 (hash_nr lp) = n).
    { destruct (Hrel (hash_nr lp)) as [[? _]|[? _]]; [congruence|done]. }
    pose proof (table_in _ _ _ _ _ T n ll last_live Hll) as Hin. simpl in Hin. rewrite Hm1 in Hin.
    rewrite (table_wrong _ _ _ _ _ T p lp Hlp HPp) in Hin by lia. by apply elem_of_nil in Hin. }
  assert (Hpf : p = f) by (destruct (Hrel (hash_nr ll)) as [[? ?]|[_ ?]]; [lia|done]).
  pose proof (table_in _ _ _ _ _ T n ll last_live Hll) as Hnin. simpl in Hnin. rewrite Hlast in Hnin.
  destruct (table_own _ _ _ _ _ T n Hnin) as [t Ht].
  pose proof (t_chain _ _ _ _ _ T n) as [Hsn _ Hndn _]. rewrite Ht in Hsn, Hndn. cbn [head] in Hsn.
  rewrite Hlast. destruct (Nat.eqb_spec n (m0 (hash_nr lp))) as [Heq|Hneq].
  - rewrite <-Heq, Ht in Hpin. apply elem_of_cons in Hpin as [?|Hpin]; [lia|].
    apply list_elem_of_split in Hpin as (xs & ys & ->). exists xs, ys.
    assert (HCp : C p = []) by (apply (table_wrong _ _ _ _ _ T p lp Hlp HPp); lia).
    rewrite app_comm_cons in Hsn, Hndn, Ht. apply seg_links_app in Hsn as (o & Hs1 & Hs2).
    destruct Hs2 as (-> & o' & Ho & Hs2). unfold nx in Ho. rewrite Hlp in Ho. injection Ho as Ho. rewrite <-Ho in Hs2.
    split_and!; try done.
    intros i. rewrite Ht, HCp. pose proof (not_elem_of_nil i). naive_solver.
  - assert (Hmp : m0 (hash_nr lp) = p) by (destruct (Hrel (hash_nr lp)) as [[? _]|[? _]]; [congruence|lia]).
    rewrite Hmp in Hpin. destruct (table_own _ _ _ _ _ T p Hpin) as [u Hu].
    pose proof (t_chain _ _ _ _ _ T p) as [Hsp _ Hndp _]. rewrite Hu in Hsp, Hndp.
    destruct Hsp as (_ & o & Ho & Hsp). unfold nx in Ho. rewrite Hlp in Ho. injection Ho as Ho. rewrite <-Ho in Hsp.
    exists t, u. rewrite Ht, Hu. split_and!; try done.
    + apply NoDup_app. split_and!; try done. intros i Hi Hi'. rewrite <-Ht in Hi. rewrite <-Hu in Hi'.
      assert (n = p); [by eapply table_disj|lia].
    + left.
    + intros i. by rewrite elem_of_app.
Qed.

(** The two buckets are merged. *)
Lemma move_last_merge lp : p <> e -> get d p = Some lp -> p = m1 (hash_nr lp) ->
  m0 (hash_nr ll) = n \/ m0 (hash_nr ll) <> m0 (hash_nr lp) ->
  exists d' C', (d1 ← put d e ll;
      d2 ← (pos ← get d1 p;
            movelink (n + 1) d1 (if m0 (hash_nr ll) =? m0 (hash_nr lp) then Some p else None) e (next pos));
      set_next d2 p (Some e)) = Some d' /\
    length d' = length d /\ table d' (fun i => i < n) m1 C' M.
Proof.
  intros Hpe Hlp Hp1 Hm. pose proof (m1_lt (hash_nr ll)) as Hpn. fold p in Hpn.
  destruct (two_chains lp Hpe Hlp Hp1 Hm) as (xs & ys & Hpf & HPp & Hnd & Hnin & Hin & Hs1 & Hs2).
  set (find := if _ =? _ then Some p else None) in *.
  rewrite put_ok by lia. cbn [mbind option_bind]. set (d1 := <[e := Some ll]> d).
  assert (Hd1 : forall i, get d1 i = if decide (i = e) then Some ll else get d i) by (intros; apply get_e).
  assert (Hlp1 : get d1 p = Some lp) by (by rewrite Hd1, decide_False). rewrite Hlp1. cbn [mbind option_bind].
  assert (Hlive : forall i, i ∈ (n :: xs) ++ p :: ys -> P i) by (intros i [Hi|Hi]%Hin; by eapply table_live).
  assert (HeP : forall i, P i -> get d1 i = get d i).
  { intros i Hi. rewrite Hd1, decide_False; [done|]. intros ->. by apply free_e. }
  assert (Hex : forall i, i ∈ xs ++ p :: ys -> i <> e).
  { intros i Hi ->. apply free_e, Hlive. set_solver. }
  pose proof Hnd as (N1 & D & N2)%NoDup_app.
  apply NoDup_cons in N1 as [Hnx N1]. apply NoDup_cons in N2 as [Hpy N2].
  destruct (splice_spec d1 e xs find p lp ys (n + 1)) as (d3 & Hw & Hl3 & Hseg & Hrec & Hget); try done.
  - destruct Hs1 as (_ & o & Ho & Hs1). split; [done|]. exists o. unfold nx in *.
    rewrite Hd1, decide_True by done. rewrite Hll in Ho. split; [done|].
    eapply seg_ext; [|done]. intros i Hi. unfold nx. rewrite HeP; [done|]. apply Hlive. set_solver.
  - constructor; [|done]. intros Hi. apply (Hex e); set_solver.
  - intros [?|Hi]%elem_of_cons; [done|]. apply (D p); set_solver.
  - intros i Hf. unfold find in Hf. destruct (_ =? _); [injection Hf as <-|done]. done.
  - assert (length (n :: xs) <= n + 1); [|simpl in *; lia].
    apply NoDup_bounded; [by constructor|]. intros i Hi. apply HP, Hlive. set_solver.
  - eapply seg_ext; [|done]. intros i Hi. unfold nx. rewrite HeP; [done|]. apply Hlive. set_solver.
  - intros i Hi. split; [by intros ->|]. intros [->|Hi']%elem_of_cons; [apply (Hex e); set_solver|].
    apply (D i); set_solver.
  - rewrite Hw. eexists _, _. split; [done|]. split; [rewrite Hl3; apply length_insert|].
    eapply table_P; [exact last_filled|].
    eapply (merge_second m0 m1 n f Hfn Hrel d P C M T d3 e xs ys free_e last_live).
    all: rewrite <-?Hpf; try done.
    + rewrite Hrec. unfold rec_at. by rewrite Hd1, decide_True, Hll.
    + intros i Hi _. rewrite Hrec. unfold rec_at. by rewrite HeP.
    + intros i Hi H1 H2. rewrite Hget; [by apply HeP|]. intros Hi'.
      assert (i ∈ C n \/ i ∈ C p) as [?|?]; [|done..]. apply Hin.
      destruct (decide (i = e)) as [->|]; [by destruct free_e|set_solver].
    + exists n. auto.
Qed.

End move_last.

(** The size before a record was removed from a table of [n + 1]. *)
Definition size_before (b0 b : Z) (n : nat) : Prop :=
  b0 = b \/ (b0 = b + b /\ Z.of_nat (n + 1) = b)%Z.

Lemma buckets_shrink b0 b n h : size_ok b n -> (b0 < 2 ^ 64)%Z -> size_before b0 b n -> 0 < n ->
  my_hash_mask h b0 (n + 1) = my_hash_mask h b n /\ my_hash_mask h b n < n \/
  my_hash_mask h b0 (n + 1) = n /\ my_hash_mask h b n = buddy b n.
Proof.
  intros Hs Hb64 Hb0 Hn.
  assert (Hb : (0 < b < 2 ^ 64)%Z).
  { destruct Hs as (k & -> & Hk & _ & _). pose proof (Z.pow_pos_nonneg 2 k ltac:(lia) Hk).
    destruct Hb0 as [->|[-> _]]; lia. }
  assert (Hm : my_hash_mask h b0 (n + 1) = my_hash_mask h b (n + 1)).
  { destruct Hb0 as [->|[-> Hnb]]; [done|]. replace (n + 1) with (Z.to_nat b) by lia. apply mask_double.
    destruct Hs as (k & -> & Hk & _ & _). exists k. split; [done|]. split; [done|].
    destruct (Z.lt_ge_cases k 63); [done|].
    assert (2 ^ 63 <= 2 ^ k)%Z by (apply Z.pow_le_mono_r; lia). lia. }
  rewrite Hm, mask_grow by (done || lia). pose proof (mask_lt h b n Hs Hn ltac:(lia)).
  destruct (Nat.eqb_spec (my_hash_mask h b n) (buddy b n)), (Z.land h (Z.shiftr b 1) =? 0)%Z; simpl; auto.
Qed.

(** [move_last] makes a table with a free position one record smaller. *)
Lemma move_last_spec b0 b n d P C M e :
  (Z.of_nat n < NO_RECORD)%Z -> size_ok b n -> (b0 < 2 ^ 64)%Z -> size_before b0 b n ->
  (forall i, P i <-> i < n + 1 /\ i <> e) -> e < n + 1 -> n < length d ->
  table d P (fun h => my_hash_mask h b0 (n + 1)) C M ->
  exists d' C', move_last b0 b n d e = Some d' /\ length d' = length d /\
    table d' (fun i => i < n) (fun h => my_hash_mask h b n) C' M.
Proof.
  intros Hlk Hs Hb64 Hb0 HP He Hlen T. unfold move_last. case_decide as Hen.
  { exists d, C. split_and!; [done..|]. apply (table_P _ P); [intros i; rewrite HP; lia|].
    destruct (decide (n = 0)) as [Hn|Hn].
    - eapply table_mask; [exact T|]. intros b' i l Hi. apply (table_live _ _ _ _ _ T), HP in Hi. lia.
    - eapply (shrink_empty _ _ n (buddy b n)); [|exact T|rewrite HP; lia].
      intros h. apply buckets_shrink; [done..|lia]. }
  assert (Hn : 0 < n) by lia. assert (Hf : buddy b n < n).
  { apply (buddy_lt b n Hs); [done|]. destruct Hs as (k & -> & Hk & _). destruct Hb0 as [->|[-> ?]]; [done|lia]. }
  pose proof (fun h => buckets_shrink b0 b n h Hs Hb64 Hb0 Hn) as Hrel.
  assert (Hnl : P n) by (apply HP; lia). destruct (table_get _ _ _ _ _ T n Hnl) as (ll & Hll & _).
  rewrite Hll. cbn [mbind option_bind]. assert (He' : e < n) by lia.
  case_decide as Hpe; [eapply (move_last_free b0 b n (buddy b n)); done|].
  assert (Hpl : my_hash_mask (hash_nr ll) b n < n) by (destruct (Hrel (hash_nr ll)) as [[_ ?]|[_ ->]]; done).
  assert (HPp : P (my_hash_mask (hash_nr ll) b n)) by (apply HP; lia).
  destruct (table_get _ _ _ _ _ T _ HPp) as (lp & Hlp & _). rewrite Hlp. cbn [mbind option_bind].
  assert (Hp3l : my_hash_mask (hash_nr lp) b n < n) by (destruct (Hrel (hash_nr lp)) as [[_ ?]|[_ ->]]; done).
  narrow.
  case_decide as Hp3; [eapply (move_last_wrong b0 b n (buddy b n) e d P C M Hf Hrel HP Hlen He' T ll Hll lp); done|].
  destruct (Nat.eqb_spec (my_hash_mask (hash_nr ll) b0 (n + 1)) (my_hash_mask (hash_nr lp) b0 (n + 1))) as [Heq|Hneq];
    [destruct (Nat.eqb_spec (my_hash_mask (hash_nr ll) b0 (n + 1)) n) as [Hl|Hl]|]; cbn [negb andb].
  - destruct (move_last_merge b0 b n (buddy b n) e d P C M Hf Hrel HP Hlen He' T ll Hll lp) as (d' & C' & Hw & H1 & H2);
      [done|done|done|by left|]. rewrite Heq, Nat.eqb_refl in Hw. eauto.
  - eapply (move_last_same b0 b n (buddy b n)); done.
  - destruct (move_last_merge b0 b n (buddy b n) e d P C M Hf Hrel HP Hlen He' T ll Hll lp) as (d' & C' & Hw & H1 & H2);
      [done|done|done|by right|]. rewrite (proj2 (Nat.eqb_neq _ _) Hneq) in Hw. eauto.
Qed.

End merge.

End HashMerge.
