(* ===== verification/HashTheorems.v ===== *)
(** * Correctness of the hash tables

    A [HASH] represents a multiset of records.  Searching finds exactly the
    records with a key, and inserting, deleting and updating do to the multiset
    what their names say; none of them ever leaves the array. *)

From stdpp Require Import functions.
From S2P Require Import Prelude DynArray Hash HashChains HashSteps HashSplit HashMerge.
Import DynArray Hash HashChains HashSteps HashSplit HashMerge.

Module HashTheorems.

(** What a hash table relies on: keys that the collation takes for equal have
    the same hash number. *)
Class HashLaw (hash_function : list Z -> Z) (my_strnncoll : list Z -> list Z -> Z) : Prop :=
  hash_coll : forall a b, length a = length b -> my_strnncoll a b = 0%Z -> hash_function a = hash_function b.

Section theorems.
Context {R : Type} `{!EqDecision R}.
Context (hash_function : list Z -> Z) (my_strnncoll : list Z -> list Z -> Z).
Context `{!HashLaw hash_function my_strnncoll}.
Implicit Types (mem : memory R) (rs : list R) (d : links R).

Notation rec_hashnr := (rec_hashnr hash_function).
Notation hashcmp := (hashcmp my_strnncoll).
Notation search_loop := (search_loop my_strnncoll).
Notation my_hash_next := (my_hash_next my_strnncoll).
Notation my_hash_first_from_hash_value := (my_hash_first_from_hash_value my_strnncoll).

(** ** Representation *)

Definition entries (hash : HASH R) mem rs : list (Z * R) := (fun r => (rec_hashnr hash mem r, r)) <$> rs.

(** The table of [hash], with the chains [C], holds the entries [M].  It has at
    most [2^32 - 1] records, so that a [uint32] link reaches each of them. *)
Record table_of (hash : HASH R) (C : nat -> list nat) (M : list (Z * R)) : Prop := {
  to_arr : arr_ok (array hash);
  to_elements : elements (array hash) = records hash;
  to_size : size_ok (blength hash) (records hash);
  to_records : (Z.of_nat (records hash) <= NO_RECORD)%Z;
  to_table : table (buffer (array hash)) (fun i => i < records hash)
    (fun h => my_hash_mask h (blength hash) (records hash)) C M
}.

Lemma to_blength hash C M : table_of hash C M -> (blength hash < 2 ^ 63)%Z.
Proof. intros [_ _ (k & -> & _ & H1 & _) H2 _]. unfold NO_RECORD in H2. lia. Qed.

(** [hash] is well formed and contains exactly the records [rs]. *)
Definition represents mem (hash : HASH R) rs : Prop :=
  exists C, table_of hash C (entries hash mem rs).

Lemma table_of_perm hash C M M' : M ≡ₚ M' -> table_of hash C M -> table_of hash C M'.
Proof. intros HM [? ? ? ? ?]. split; [done..|]. by eapply table_M. Qed.

Lemma represents_perm mem hash rs rs' : rs ≡ₚ rs' -> represents mem hash rs -> represents mem hash rs'.
Proof. intros Hrs [C T]. exists C. eapply table_of_perm; [|done]. unfold entries. by rewrite Hrs. Qed.

#[export] Instance represents_proper mem hash : Proper ((≡ₚ) ==> iff) (represents mem hash).
Proof. intros rs rs' H. split; by apply represents_perm. Qed.

(** ** Matching positions *)

(** The key the caller means: [len] bytes, or the fixed length of the table. *)
Definition key_len (hash : HASH R) (len : nat) : nat := if decide (len = 0) then key_length hash else len.

Definition has_key (hash : HASH R) mem (key : list Z) (len : nat) (r : R) : bool :=
  (key_len hash len =? length (my_hash_key hash mem r)) &&
  (my_strnncoll (my_hash_key hash mem r) (take (length (my_hash_key hash mem r)) key) =? 0)%Z.

Definition key_at (hash : HASH R) mem (key : list Z) (len : nat) (i : nat) : bool :=
  match get (buffer (array hash)) i with Some l => has_key hash mem key len (data l) | None => false end.

Lemma hashcmp_has_key hash mem l key len :
  negb (hashcmp hash mem l key (key_len hash len)) = has_key hash mem key len (data l).
Proof. unfold Hash.hashcmp, has_key. by rewrite negb_orb, !negb_involutive. Qed.

Section search.
Context (hash : HASH R) (mem : memory R) (key : list Z) (len : nat).
Notation d := (buffer (array hash)).
Notation matches := (key_at hash mem key len).

(** Along a chain the first match is found. *)
Lemma search_loop_spec xs : forall fuel idx, seg d (Some idx) xs None -> length xs <= fuel ->
  search_loop fuel hash mem key (key_len hash len) false idx = Some (List.find matches xs).
Proof.
  induction xs as [|x xs IH]; intros [|fuel] idx Hs Hlen; simpl in Hlen; try lia; [done..|].
  destruct Hs as ([= ->] & o & Ho & Hs). cbn [Hash.search_loop]. unfold nx in Ho.
  destruct (get d x) as [l|] eqn:Hl; simplify_eq/=. rewrite hashcmp_has_key.
  assert (Hmx : key_at hash mem key len x = has_key hash mem key len (data l)).
  { unfold key_at. by rewrite Hl. }
  rewrite Hmx. destruct (has_key _ _ _ _ _); [done|].
  destruct xs as [|y xs]; [simpl in Hs; by rewrite Hs|].
  pose proof (seg_head _ _ _ _ _ Hs) as Hy. rewrite Hy in *. apply IH; [done|lia].
Qed.

(** The first step also looks whether the position is in its own bucket. *)
Lemma search_first_spec xs fuel idx l : seg d (Some idx) (idx :: xs) None -> get d idx = Some l ->
  length (idx :: xs) <= fuel ->
  search_loop fuel hash mem key (key_len hash len) true idx =
    Some (if decide (my_hash_mask (hash_nr l) (blength hash) (records hash) = idx)
          then List.find matches (idx :: xs) else if matches idx then Some idx else None).
Proof.
  intros Hs Hl Hlen. destruct fuel as [|fuel]; [simpl in Hlen; lia|]. simpl in Hlen.
  destruct Hs as (_ & o & Ho & Hs). cbn [Hash.search_loop List.find]. rewrite Hl. cbn [mbind option_bind].
  unfold nx in Ho. rewrite Hl in Ho. simplify_eq/=. rewrite hashcmp_has_key.
  assert (Hmx : key_at hash mem key len idx = has_key hash mem key len (data l)).
  { unfold key_at. by rewrite Hl. }
  rewrite Hmx. destruct (has_key _ _ _ _ _); [by case_decide|]. unfold my_hash_rec_mask.
  case_decide as Hm; [rewrite Hm, Nat.eqb_refl|by rewrite (proj2 (Nat.eqb_neq _ _) Hm)]. cbn [negb].
  destruct xs as [|y xs]; [simpl in Hs; by rewrite Hs|].
  pose proof (seg_head _ _ _ _ _ Hs) as Hy. rewrite Hy in *. apply search_loop_spec; [done|lia].
Qed.

Lemma found_at_spec (o : option nat) : (forall i, o = Some i -> is_Some (get d i)) ->
  exists r, found_at hash o = Some r /\ fst <$> r = o /\
    forall i x, r = Some (i, x) -> exists l, get d i = Some l /\ data l = x.
Proof.
  intros Ho. unfold found_at. destruct o as [i|]; [|by exists None].
  destruct (Ho i eq_refl) as [l Hl]. rewrite Hl. exists (Some (i, data l)). split_and!; try done.
  intros j x [= <- <-]. eauto.
Qed.

(** [my_hash_next] finds the next match of the chain. *)
Lemma my_hash_next_spec i l xs : get d i = Some l -> seg d (next l) xs None -> length xs <= records hash ->
  my_hash_next hash mem key len (Some i) = found_at hash (List.find matches xs).
Proof.
  intros Hl Hs Hlen. unfold Hash.my_hash_next. fold (key_len hash len). rewrite Hl. cbn [mbind option_bind].
  destruct xs as [|x xs]; [simpl in Hs; by rewrite Hs|]. pose proof (seg_head _ _ _ _ _ Hs) as Hy. rewrite Hy in *.
  by rewrite (search_loop_spec (x :: xs)).
Qed.

(** All matches, the first one being [cur]. *)
Fixpoint search_rest (fuel : nat) (cur : option (nat * R)) : option (list R) :=
  match cur with
  | None => Some []
  | Some (i, r) =>
      match fuel with
      | 0 => None
      | S fuel =>
          cur ← my_hash_next hash mem key len (Some i);
          rest ← search_rest fuel cur;
          Some (r :: rest)
      end
  end.

Definition rows_at d (xs : list nat) : list R := omap (fun x => option_map data (get d x)) xs.

Lemma rows_at_cons d' x xs l : get d' x = Some l -> rows_at d' (x :: xs) = data l :: rows_at d' xs.
Proof. intros Hl. unfold rows_at. cbn [omap list_omap]. by rewrite Hl. Qed.

Lemma rest_spec xs : forall o fuel, seg d o xs None -> length xs <= fuel -> length xs <= records hash ->
  exists cur, found_at hash (List.find matches xs) = Some cur /\
    search_rest fuel cur = Some (rows_at d (filter (fun x => matches x = true) xs)).
Proof.
  induction xs as [|x xs IH]; intros o fuel Hs Hf Hr; simpl in Hf, Hr.
  { exists None. split; [done|]. by destruct fuel. }
  destruct Hs as (-> & n & Hn & Hs). unfold nx in Hn. destruct (get d x) as [l|] eqn:Hl; simplify_eq/=.
  destruct (matches x) eqn:Hm.
  - exists (Some (x, data l)). cbn [found_at]. rewrite Hl. split; [done|].
    rewrite filter_cons_True, (rows_at_cons _ _ _ l) by done. destruct fuel as [|fuel]; [lia|]. cbn [search_rest].
    rewrite (my_hash_next_spec x l xs Hl Hs) by lia.
    destruct (IH (next l) fuel Hs ltac:(lia) ltac:(lia)) as (cur & -> & Hrest). cbn [mbind option_bind].
    by rewrite Hrest.
  - rewrite filter_cons_False by congruence. apply (IH (next l)); [done|lia|lia].
Qed.

Lemma other_spec record fuel : forall cur l, search_rest fuel cur = Some l ->
  len = length key ->
  other_with_key my_strnncoll fuel hash mem key record cur =
    Some (existsb (fun r => bool_decide (r <> record)) l).
Proof.
  induction fuel as [|fuel IH]; intros [[i r]|] l Hl Hlen; cbn [search_rest other_with_key] in *; simplify_eq; try done.
  rewrite <-Hlen. destruct (my_hash_next hash mem key len (Some i)) as [cur|]; [|done].
  cbn [mbind option_bind] in *. destruct (search_rest fuel cur) as [rest|] eqn:Hrest; [|done].
  cbn [mbind option_bind] in Hl. simplify_eq. cbn [existsb]. case_decide as Hr.
  - by rewrite bool_decide_true.
  - rewrite bool_decide_false by naive_solver. by apply IH.
Qed.

(** ** Searching in a table *)

Section table.
Context (C : nat -> list nat) (M : list (Z * R)) (T : table_of hash C M).
Context (h : Z) (Hne : records hash <> 0).
Let idx := my_hash_mask h (blength hash) (records hash).

Lemma idx_lt : idx < records hash.
Proof. apply mask_lt; [apply T|lia|]. pose proof (to_blength _ _ _ T). lia. Qed.

Lemma chain_short b : length (C b) <= records hash.
Proof. eapply chain_length; [apply T|done]. Qed.

Lemma first_spec :
  my_hash_first_from_hash_value hash mem h key len =
    found_at hash (match C idx with
                   | [] => if matches idx then Some idx else None
                   | _ => List.find matches (C idx)
                   end).
Proof.
  unfold Hash.my_hash_first_from_hash_value. rewrite decide_True by done. fold (key_len hash len).
  change (my_hash_mask h (blength hash) (records hash)) with idx.
  pose proof (to_table _ _ _ T) as Tb. pose proof idx_lt as Hlt.
  destruct (walk _ _ _ _ _ (records hash) idx Tb ltac:(done) Hlt) as (xs & Hs & Hlen & _ & Hxs).
  destruct (table_get _ _ _ _ _ Tb idx Hlt) as (l & Hl & Hin). simpl in Hin.
  destruct xs as [|x xs]; [done|]. pose proof (seg_head _ _ _ _ _ Hs) as [= <-].
  rewrite (search_first_spec xs _ idx l Hs Hl Hlen). cbn [mbind option_bind].
  f_equal. case_decide as Hm.
  - rewrite Hm in Hin. destruct (C idx) as [|y ys] eqn:E; [by apply elem_of_nil in Hin|]. rewrite Hxs; done.
  - rewrite (table_wrong _ _ _ _ _ Tb idx l Hl Hlt) by done. done.
Qed.

Lemma entry_in i l : i < records hash -> get d i = Some l -> entry l ∈ M.
Proof.
  intros Hi Hl. destruct (t_holds _ _ _ _ _ (to_table _ _ _ T)) as (ps & _ & Hps & Hperm).
  rewrite <-Hperm. apply list_elem_of_omap. exists i. split; [by apply Hps|]. unfold rec_at. by rewrite Hl.
Qed.

Lemma in_entries e : e ∈ M -> exists i l, i < records hash /\ get d i = Some l /\ entry l = e.
Proof.
  destruct (t_holds _ _ _ _ _ (to_table _ _ _ T)) as (ps & _ & Hps & Hperm).
  rewrite <-Hperm. intros (i & Hi & He)%list_elem_of_omap. apply Hps in Hi. unfold rec_at in He.
  destruct (get d i) as [l|] eqn:Hl; simplify_eq/=. eauto.
Qed.

Context (Hkl : key_len hash len <= length key) (Hh : h = hash_function (take (key_len hash len) key)).

(** A matching record whose hash number is up to date is in the bucket. *)
Lemma match_bucket i l : i < records hash -> get d i = Some l ->
  hash_nr l = rec_hashnr hash mem (data l) -> matches i = true -> i ∈ C idx.
Proof.
  intros Hi Hl Hr Hm. pose proof (table_in _ _ _ _ _ (to_table _ _ _ T) i l Hi Hl) as Hin. simpl in Hin.
  replace idx with (my_hash_mask (hash_nr l) (blength hash) (records hash)); [done|].
  unfold idx. f_equal. rewrite Hr, Hh. unfold key_at, has_key in Hm. rewrite Hl in Hm.
  apply andb_prop in Hm as [Hm1 Hm2]. apply Nat.eqb_eq in Hm1. apply Z.eqb_eq in Hm2.
  rewrite <-Hm1 in Hm2. apply (hash_coll (HashLaw := HashLaw0)); [|done]. rewrite length_take. lia.
Qed.

Lemma rows_filter xs : filter (fun r => has_key hash mem key len r = true) (rows_at d xs) =
  rows_at d (filter (fun x => matches x = true) xs).
Proof.
  induction xs as [|x xs IH]; [done|]. unfold rows_at in *. cbn [omap list_omap].
  destruct (get d x) as [l|] eqn:Hl; cbn [option_map].
  - assert (Hm : matches x = has_key hash mem key len (data l)) by (unfold key_at; by rewrite Hl).
    destruct (has_key hash mem key len (data l)) eqn:Hk.
    + rewrite !filter_cons_True by done. cbn [omap list_omap]. rewrite Hl. cbn [option_map]. by rewrite IH.
    + rewrite !filter_cons_False by congruence. done.
  - rewrite filter_cons_False; [done|]. unfold key_at. by rewrite Hl.
Qed.

Lemma rows_all : exists ps, NoDup ps /\ (forall i, i ∈ ps <-> i < records hash) /\ rows_at d ps ≡ₚ M.*2.
Proof.
  destruct (t_holds _ _ _ _ _ (to_table _ _ _ T)) as (ps & Hnd & Hps & Hperm).
  exists ps. split_and!; [done..|]. rewrite <-Hperm. clear.
  induction ps as [|p ps IH]; [done|]. unfold rows_at in *. cbn [omap list_omap]. unfold rec_at at 1.
  destruct (get d p); simpl; by rewrite IH.
Qed.

(** The records of the bucket that match are all that match. *)
Lemma bucket_matches rs : M = entries hash mem rs ->
  rows_at d (filter (fun x => matches x = true) (C idx)) ≡ₚ filter (fun r => has_key hash mem key len r = true) rs.
Proof.
  intros HM. destruct rows_all as (ps & Hnd & Hps & Hrows).
  assert (rs = M.*2) as ->.
  { rewrite HM. unfold entries. rewrite <-list_fmap_compose. by rewrite list_fmap_id. }
  rewrite <-Hrows, rows_filter. apply omap_Permutation, NoDup_Permutation.
  - apply NoDup_filter, (t_chain _ _ _ _ _ (to_table _ _ _ T)).
  - by apply NoDup_filter.
  - intros x. rewrite !list_elem_of_filter. split; intros [Hm Hx]; (split; [done|]).
    + apply Hps. by apply (table_live _ _ _ _ _ (to_table _ _ _ T) idx).
    + apply Hps in Hx. destruct (table_get _ _ _ _ _ (to_table _ _ _ T) x Hx) as (l & Hl & _).
      apply (match_bucket x l); try done.
      pose proof (entry_in x l Hx Hl) as Hent. rewrite HM in Hent.
      apply list_elem_of_fmap in Hent as (r & Hr & _). by injection Hr as Hr1 <-.
Qed.

(** First and next find all records with the key, each once. *)
Lemma first_all rs : M = entries hash mem rs ->
  exists cur l, my_hash_first_from_hash_value hash mem h key len = Some cur /\
    search_rest (records hash) cur = Some l /\ l ≡ₚ filter (fun r => has_key hash mem key len r = true) rs.
Proof.
  intros HM. rewrite first_spec. pose proof (bucket_matches rs HM) as Hb.
  destruct (C idx) as [|x xs] eqn:E.
  - assert (matches idx = false) as ->.
    { destruct (matches idx) eqn:Hm; [|done]. exfalso.
      destruct (table_get _ _ _ _ _ (to_table _ _ _ T) idx idx_lt) as (l & Hl & _).
      pose proof (entry_in idx l idx_lt Hl) as Hent. rewrite HM in Hent.
      apply list_elem_of_fmap in Hent as (r & Hr & _). injection Hr as Hr1 <-.
      assert (idx ∈ C idx) as Hin by (by apply (match_bucket idx l idx_lt Hl)). rewrite E in Hin. by apply elem_of_nil in Hin. }
    exists None, []. split; [done|]. split; [by destruct (records hash)|]. by rewrite <-Hb.
  - rewrite <-E in *. pose proof (t_chain _ _ _ _ _ (to_table _ _ _ T) idx) as [Hs _ _ _].
    destruct (rest_spec (C idx) _ (records hash) Hs (chain_short idx) (chain_short idx)) as (cur & H1 & H2). eauto.
Qed.

(** The check of [my_hash_update] for another record with the key.  The hash
    number of [record] itself need not be up to date. *)
Lemma dup_check record : len = length key ->
  (forall g r, (g, r) ∈ M -> r <> record -> g = rec_hashnr hash mem r) ->
  exists cur dup, my_hash_first_from_hash_value hash mem h key len = Some cur /\
    other_with_key my_strnncoll (records hash) hash mem key record cur = Some dup /\
    (dup = true <-> exists r, r ∈ M.*2 /\ r <> record /\ has_key hash mem key len r = true).
Proof.
  intros Hlen Hfresh. rewrite first_spec. pose proof (to_table _ _ _ T) as Tb.
  assert (Hin : forall i l, i < records hash -> get d i = Some l -> data l <> record ->
            matches i = true -> i ∈ C idx).
  { intros i l Hi Hl Hr Hm. apply (match_bucket i l Hi Hl); [|done]. apply (Hfresh _ (data l)); [|done].
    by apply (entry_in i l). }
  assert (Hout : forall r, r ∈ M.*2 -> r <> record -> has_key hash mem key len r = true ->
            exists i l, i ∈ C idx /\ get d i = Some l /\ data l = r /\ matches i = true).
  { intros r Hr Hne' Hk. apply list_elem_of_fmap in Hr as ([g r'] & -> & Hr).
    destruct (in_entries _ Hr) as (i & l & Hi & Hl & He). injection He as <- <-. cbn [snd] in *.
    assert (Hm : matches i = true) by (unfold key_at; by rewrite Hl). exists i, l. split_and!; try done. by eapply Hin. }
  destruct (C idx) as [|x xs] eqn:E.
  - destruct (walk _ _ _ _ _ (records hash) idx Tb ltac:(done) idx_lt) as (xs & Hs & Hxl & Hlive & _).
    assert (Hno : ~ exists r, r ∈ M.*2 /\ r <> record /\ has_key hash mem key len r = true).
    { intros (r & H1 & H2 & H3). destruct (Hout r H1 H2 H3) as (i & l & Hi & _). by apply elem_of_nil in Hi. }
    destruct (matches idx) eqn:Hm.
    + destruct xs as [|y xs]; [done|]. pose proof (seg_head _ _ _ _ _ Hs) as [= <-].
      destruct (rest_spec (idx :: xs) _ (records hash) Hs Hxl Hxl) as (cur & H1 & H2).
      cbn [List.find] in H1. rewrite Hm in H1. rewrite H1.
      eexists _, _. split; [done|]. rewrite (other_spec record _ _ _ H2 Hlen). split; [done|].
      split; [|done]. intros Hex. exfalso. apply existsb_exists in Hex as (r & Hr & Hrr%bool_decide_eq_true).
      apply list_elem_of_In, list_elem_of_omap in Hr as (i & Hi & Hri). apply list_elem_of_filter in Hi as [Him Hi].
      destruct (get d i) as [l|] eqn:Hl; [|done]. injection Hri as <-.
      by apply Hin, elem_of_nil in Hl; try apply Hlive.
    + exists None, false. split; [done|]. split; [by destruct (records hash)|]. by split.
  - rewrite <-E in *. pose proof (t_chain _ _ _ _ _ Tb idx) as [Hs _ _ _].
    destruct (rest_spec (C idx) _ (records hash) Hs (chain_short idx) (chain_short idx)) as (cur & -> & H2).
    eexists _, _. split; [done|]. rewrite (other_spec record _ _ _ H2 Hlen). split; [done|].
    rewrite existsb_exists. setoid_rewrite <-list_elem_of_In. unfold rows_at. setoid_rewrite list_elem_of_omap.
    setoid_rewrite list_elem_of_filter. setoid_rewrite bool_decide_eq_true. split.
    + intros (r & (i & [Hm Hi] & Hr) & Hne'). destruct (get d i) as [l|] eqn:Hl; [|done]. injection Hr as <-.
      exists (data l). split_and!; [|done|unfold key_at in Hm; by rewrite Hl in Hm].
      apply list_elem_of_fmap. exists (entry l). split; [done|]. apply (entry_in i l); [|done].
      by apply (table_live _ _ _ _ _ Tb idx).
    + intros (r & H3 & H4 & H5). destruct (Hout r H3 H4 H5) as (i & l & Hi & Hl & Hr & Hm).
      exists r. split; [|done]. exists i. rewrite Hl. cbn [option_map]. by rewrite Hr.
Qed.

End table.

End search.

(** ** Empty tables *)

Lemma no_records hash C M : table_of hash C M -> records hash = 0 -> M = [].
Proof.
  intros T H0. destruct (t_holds _ _ _ _ _ (to_table _ _ _ T)) as (ps & _ & Hps & Hperm).
  destruct ps as [|p ps]; [by apply Permutation_nil_l in Hperm|].
  assert (p < records hash) by (apply Hps; left). lia.
Qed.

Lemma entries_nil hash mem rs : entries hash mem rs = [] -> rs = [].
Proof. by destruct rs. Qed.

Lemma empty_table d (m : Z -> nat) : table d (fun i => i < 0) m (fun _ => []) [].
Proof.
  split.
  - intros b. apply chain_ok_nil.
  - intros i. split; [lia|]. by intros [b ?%elem_of_nil].
  - exists []. split_and!; [constructor| |done]. intros i. rewrite elem_of_nil. lia.
Qed.

Lemma my_hash_init2_represents mem growth size ko kl gk hf fl alloc :
  represents mem (my_hash_init2 growth size ko kl gk hf fl alloc) [].
Proof.
  exists (fun _ => []). destruct (@init_dynamic_array2_ok (HASH_LINK R) 24 size growth alloc ltac:(lia)) as [Hok _].
  split; cbn [my_hash_init2 array blength records]; [exact Hok| | |done|apply empty_table].
  - unfold init_dynamic_array2. case_decide; [by destruct alloc|reflexivity].
  - exists 0%Z. lia.
Qed.

(** ** Searching *)

Lemma search_nothing (hash : HASH R) mem key len h : records hash = 0 ->
  my_hash_first_from_hash_value hash mem h key len = Some None.
Proof. intros H0. unfold Hash.my_hash_first_from_hash_value. by rewrite decide_False by lia. Qed.

(** C25: [my_hash_first] and [my_hash_next] together find exactly the records
    with the given key, each as often as it was inserted, and then report the
    end. *)
Theorem my_hash_search_all mem hash rs key len : represents mem hash rs -> key_len hash len <= length key ->
  exists cur l, my_hash_first hash_function my_strnncoll hash mem key len = Some cur /\
    search_rest hash mem key len (records hash) cur = Some l /\
    l ≡ₚ filter (fun r => has_key hash mem key len r = true) rs.
Proof.
  intros [C T] Hkl. unfold my_hash_first.
  replace (if decide (len <> 0) then len else key_length hash) with (key_len hash len)
    by (unfold key_len; repeat case_decide; done).
  destruct (decide (records hash = 0)) as [H0|H0].
  - rewrite search_nothing by done. exists None, []. split; [done|]. rewrite H0. split; [done|].
    by rewrite (entries_nil hash mem rs (no_records _ _ _ T H0)).
  - by apply (first_all hash mem key len C _ T _ H0 Hkl eq_refl).
Qed.

(** ** Inserting *)

Lemma insert_dup_check (hash : HASH R) mem rs record : represents mem hash rs ->
  let key := my_hash_key hash mem record in
  key_len hash (length key) = length key ->
  exists o, my_hash_search_using_hash_value my_strnncoll hash mem (hash_function key) key (length key) = Some o /\
    (is_Some o <-> exists r, r ∈ rs /\ has_key hash mem key (length key) r = true).
Proof.
  intros [C T] key Hkl. unfold my_hash_search_using_hash_value.
  destruct (decide (records hash = 0)) as [H0|H0].
  - rewrite search_nothing by done. exists None. split; [done|].
    rewrite (entries_nil hash mem rs (no_records _ _ _ T H0)). split; [by intros []|].
    by intros (r & ?%elem_of_nil & _).
  - assert (Hh : hash_function key = hash_function (take (key_len hash (length key)) key)).
    { by rewrite Hkl, firstn_all. }
    destruct (first_all hash mem key (length key) C _ T _ H0 ltac:(lia) Hh rs eq_refl) as (cur & l & -> & Hl & Hperm).
    cbn [mbind option_bind]. eexists. split; [done|].
    assert (Hcur : is_Some (option_map snd cur) <-> l <> []).
    { destruct cur as [[i r]|]; cbn [option_map]; split; intros Hc; try done.
      - intros ->. destruct (records hash); [done|]. cbn [search_rest] in Hl.
        destruct (my_hash_next _ _ _ _ _); [|done]. cbn [mbind option_bind] in Hl.
        by destruct (search_rest _ _ _ _ _ _).
      - destruct (records hash); cbn [search_rest] in Hl; congruence. }
    rewrite Hcur. split.
    + intros Hne. destruct l as [|r l]; [done|]. exists r.
      assert (r ∈ filter (fun r => has_key hash mem key (length key) r = true) rs) as Hr by (rewrite <-Hperm; left).
      apply list_elem_of_filter in Hr as [? ?]. done.
    + intros (r & Hr & Hk) ->. apply Permutation_nil_l in Hperm.
      assert (r ∈ filter (fun r => has_key hash mem key (length key) r = true) rs) as Hin by (by apply list_elem_of_filter).
      rewrite <-Hperm in Hin. by apply elem_of_nil in Hin.
Qed.

Lemma grown_size b n : size_ok b n -> (b < 2 ^ 63)%Z ->
  size_ok (if (Z.of_nat (n + 1) =? b)%Z then (b + b)%Z else b) (n + 1).
Proof.
  intros (k & -> & Hk & H1 & H2) Hb. destruct (Z.eqb_spec (Z.of_nat (n + 1)) (2 ^ k)).
  - exists (k + 1)%Z. rewrite Z.pow_add_r by lia. lia.
  - exists k. lia.
Qed.

Lemma grown_mask b n h : size_ok b n -> (b < 2 ^ 63)%Z ->
  my_hash_mask h (if (Z.of_nat (n + 1) =? b)%Z then (b + b)%Z else b) (n + 1) = my_hash_mask h b (n + 1).
Proof.
  intros (k & -> & Hk & H1 & H2) Hb. destruct (Z.eqb_spec (Z.of_nat (n + 1)) (2 ^ k)); [|done].
  replace (n + 1) with (Z.to_nat (2 ^ k)) by lia. apply mask_double. exists k. split; [done|].
  split; [done|]. destruct (Z.lt_ge_cases k 63); [done|].
  assert (2 ^ 63 <= 2 ^ k)%Z by (apply Z.pow_le_mono_r; lia). lia.
Qed.

(** The part of [my_hash_insert] that changes the array. *)
Lemma insert_entry (hash : HASH R) C M a h r : table_of hash C M ->
  (Z.of_nat (records hash) < NO_RECORD)%Z -> arr_ok a -> elements a = records hash + 1 ->
  take (records hash) (buffer a) = take (records hash) (buffer (array hash)) ->
  exists d e d2 C', split_bucket (blength hash) (records hash) (buffer a) (records hash) = Some (d, e) /\
    insert_link (blength hash) (records hash) d e h r = Some d2 /\
    table_of (set_array hash (if (Z.of_nat (records hash + 1) =? blength hash)%Z
                              then (blength hash + blength hash)%Z else blength hash)
                (records hash + 1) (set_buffer a d2)) C' ((h, r) :: M).
Proof.
  intros T Hr [Ha1 Ha2 Ha3] He Hbuf. pose proof (to_blength _ _ _ T) as Hb. destruct T as [_ _ Hsize _ Tb]. set (b := blength hash) in *. set (n := records hash) in *.
  assert (Ta : table (buffer a) (fun i => i < n) (fun h => my_hash_mask h b n) C M).
  { assert (Hget : forall i, i < n -> get (buffer a) i = get (buffer (array hash)) i).
    { intros i Hi. unfold get. rewrite <-(lookup_take_lt (buffer a) n i), Hbuf, lookup_take_lt by done. done. }
    destruct Tb as [T1 T2 T3]. split; [|done|].
    - intros b'. eapply chain_ok_ext; [|apply T1]. intros x Hx. apply Hget, T2. eauto.
    - apply (holds_ext (buffer (array hash)) _ (fun i => i < n)); [done| |done]. intros i Hi. unfold rec_at. by rewrite Hget. }
  destruct (split_bucket_spec b n (buffer a) C M ltac:(lia) Hsize ltac:(lia) ltac:(lia) Ta) as (d & e & C1 & Hsp & Hl1 & Hen & T1).
  assert (Hmask : forall h, my_hash_mask h b (n + 1) < n + 1).
  { intros h'. destruct (decide (n = 0)) as [H0|H0].
    - destruct Hsize as (k & Hbk & Hk & Hs1 & Hs2). rewrite H0 in *. simpl in Hs1, Hs2. assert (b = 1)%Z as -> by lia.
      unfold my_hash_mask. simpl. rewrite Z.land_0_r. simpl. lia.
    - rewrite mask_grow by (done || lia). pose proof (mask_lt h' b n Hsize ltac:(lia) ltac:(lia)).
      destruct (_ && _); lia. }
  destruct (insert_link_spec b n d (fun i => i < n + 1 /\ i <> e) C1 M e h r Hr Hmask Hen ltac:(lia) ltac:(done) T1)
    as (d2 & C2 & Hin & Hl2 & T2).
  exists d, e, d2, C2. split_and!; [done..|]. split; simpl; try done.
  - constructor; simpl; lia.
  - by apply grown_size.
  - lia.
  - eapply table_mask; [exact T2|]. intros b' i l _ _ Hm. by rewrite grown_mask.
Qed.

Lemma insert_record_spec alloc mem hash rs record : represents mem hash rs ->
  (Z.of_nat (records hash) < NO_RECORD)%Z ->
  exists hash' error, insert_record alloc hash record (rec_hashnr hash mem record) = Some (hash', error) /\
    if (error : bool) then alloc = false /\ represents mem hash' rs else represents mem hash' (record :: rs).
Proof.
  intros [C T] Hb. unfold insert_record. pose proof (to_arr _ _ _ T) as Harr. pose proof (to_elements _ _ _ T) as Hel.
  destruct (alloc_dynamic_spec alloc (array hash) Harr) as [[-> ->]|(a & -> & Hok & Hea & Hta)]; cbn [mbind option_bind].
  { eexists _, true. split; [done|]. split; [done|]. exists C. by destruct T. }
  unfold contents in Hta. rewrite Hel in *.
  destruct (insert_entry hash C _ a (rec_hashnr hash mem record) record T Hb Hok Hea Hta) as (d & e & d2 & C' & -> & Hins & T').
  cbn [mbind option_bind]. rewrite Hins. cbn [mbind option_bind]. eexists _, false. split; [done|]. by exists C'.
Qed.

(** C14: [my_hash_insert] refuses a record exactly if the table is HASH_UNIQUE
    and has a record with its key, or if memory is missing, and then leaves the
    table as it is; otherwise it adds the record, once.  The bucket split is
    part of it; no access leaves the array.  The table has fewer than [2^32 - 1]
    records: a link is a [uint32], and the index [2^32 - 1] is NO_RECORD. *)
Theorem my_hash_insert_correct alloc mem hash rs record : represents mem hash rs ->
  let key := my_hash_key hash mem record in
  key_len hash (length key) = length key -> (Z.of_nat (records hash) < NO_RECORD)%Z ->
  exists hash' error, my_hash_insert hash_function my_strnncoll alloc mem hash record = Some (hash', error) /\
    if has (flags hash) HASH_UNIQUE && existsb (has_key hash mem key (length key)) rs
    then error = true /\ hash' = hash
    else if (error : bool) then alloc = false /\ represents mem hash' rs
    else represents mem hash' (record :: rs).
Proof.
  intros Hrep key Hkl Hb. unfold my_hash_insert. fold key.
  assert (exists dup, (if has (flags hash) HASH_UNIQUE
      then my_hash_search_using_hash_value my_strnncoll hash mem (hash_function key) key (length key) else Some None) = Some dup /\
    (is_Some dup <-> has (flags hash) HASH_UNIQUE && existsb (has_key hash mem key (length key)) rs = true))
    as (dup & -> & Hdup).
  { destruct (has (flags hash) HASH_UNIQUE); cbn [andb].
    - destruct (insert_dup_check hash mem rs record Hrep Hkl) as (o & Ho & Hiff). exists o. split; [done|].
      rewrite Hiff, existsb_exists. by setoid_rewrite list_elem_of_In.
    - exists None. split; [done|]. split; [by intros []|done]. }
  cbn [mbind option_bind]. destruct dup as [r|].
  { exists hash, true. split; [done|]. rewrite (proj1 Hdup); [done|eauto]. }
  destruct (_ && _) eqn:Hd; [destruct (proj2 Hdup eq_refl); done|]. by apply insert_record_spec.
Qed.

(** ** Deleting *)

Lemma shrunk_size b n : size_ok b (n + 1) ->
  let b' := if (Z.of_nat n <? Z.shiftr b 1)%Z then Z.shiftr b 1 else b in
  size_ok b' n /\ size_before b b' n.
Proof.
  intros (k & -> & Hk & H1 & H2). assert (k <> 0)%Z by (intros ->; simpl in *; lia).
  assert (Hd : (2 ^ k = 2 * 2 ^ (k - 1))%Z).
  { replace k with (1 + (k - 1))%Z at 1 by lia. rewrite Z.pow_add_r by lia. done. }
  assert (Hsh : Z.shiftr (2 ^ k) 1 = (2 ^ (k - 1))%Z).
  { rewrite Z.shiftr_div_pow2 by lia. change (2 ^ 1)%Z with 2%Z. rewrite Hd, Z.mul_comm. by apply Z.div_mul. }
  rewrite Hsh. destruct (Z.ltb_spec (Z.of_nat n) (2 ^ (k - 1))); simpl.
  - split; [exists (k - 1)%Z; lia|]. right. lia.
  - split; [exists k; lia|]. by left.
Qed.

(** A record is found in its bucket, if it is there at all. *)
Lemma find_in_bucket (hash : HASH R) C M record h : table_of hash C M -> records hash <> 0 ->
  (forall g, (g, record) ∈ M -> g = h) ->
  let d := buffer (array hash) in
  let idx := my_hash_mask h (blength hash) (records hash) in
  (find_record (records hash) d record None idx = Some None /\ record ∉ M.*2) \/
  exists pre x post l, C idx = pre ++ x :: post /\ get d x = Some l /\ entry l = (h, record) /\
    find_record (records hash) d record None idx = Some (Some (last pre, x)).
Proof.
  clear HashLaw0. intros T Hn Hh d idx. pose proof (to_table _ _ _ T) as Tb. pose proof (idx_lt hash C M T h Hn) as Hlt.
  destruct (walk _ _ _ _ _ (records hash) idx Tb ltac:(done) Hlt) as (xs & Hs & Hlen & Hlive & Hxs).
  assert (Hbk : forall x l, x < records hash -> get d x = Some l -> data l = record ->
                  entry l = (h, record) /\ x ∈ C idx).
  { intros x l Hx Hl Hr. pose proof (entry_in hash C M T x l Hx Hl) as He. unfold entry in He. rewrite Hr in He.
    pose proof (Hh _ He) as Hg. split; [unfold entry; congruence|].
    pose proof (table_in _ _ _ _ _ Tb x l Hx Hl) as Hin. simpl in Hin. by rewrite Hg in Hin. }
  destruct (find_record_spec d record xs (records hash) None idx Hs Hlen) as [[Hf Hnot]|(pre & x & post & l & -> & Hl & Hr & Hf)].
  - left. split; [done|]. intros Hin. apply list_elem_of_fmap in Hin as ([g r] & -> & Hin).
    destruct (in_entries hash C M T Hn _ Hin) as (x & l & Hx & Hl & He). unfold entry in He. simplify_eq/=.
    destruct (Hbk x l Hx Hl eq_refl) as [_ Hxi]. apply (Hnot x l); [|done|done].
    rewrite Hxs; [done|]. intros Hnil. rewrite Hnil in Hxi. by apply elem_of_nil in Hxi.
  - right. destruct (Hbk x l) as [He Hxi]; [apply Hlive; set_solver|done..|].
    exists pre, x, post, l. split_and!; [|done|done|by destruct (last pre)].
    symmetry. apply Hxs. intros Hnil. rewrite Hnil in Hxi. by apply elem_of_nil in Hxi.
Qed.

Lemma entries_in hash mem rs g r : (g, r) ∈ entries hash mem rs -> g = rec_hashnr hash mem r /\ r ∈ rs.
Proof. intros (r' & [= -> ->] & Hr)%list_elem_of_fmap. done. Qed.

Lemma entries_snd hash mem rs : (entries hash mem rs).*2 = rs.
Proof. unfold entries. rewrite <-list_fmap_compose. by rewrite list_fmap_id. Qed.

Lemma entries_cons_inv hash mem rs g r M : entries hash mem rs ≡ₚ (g, r) :: M ->
  exists rs', rs ≡ₚ r :: rs' /\ M ≡ₚ entries hash mem rs'.
Proof.
  intros HM. assert (Hin : (g, r) ∈ entries hash mem rs) by (rewrite HM; left).
  apply entries_in in Hin as [-> Hr]. apply list_elem_of_split in Hr as (l1 & l2 & ->).
  exists (l1 ++ l2). split; [by rewrite Permutation_middle|].
  assert (Hp : entries hash mem (l1 ++ r :: l2) ≡ₚ (rec_hashnr hash mem r, r) :: entries hash mem (l1 ++ l2)).
  { unfold entries. by rewrite <-Permutation_middle. }
  rewrite Hp in HM. by apply Permutation_cons_inv in HM.
Qed.

(** C21: [my_hash_delete] removes exactly one occurrence of the record and hands
    it to the free function, or reports that the table does not have it and
    leaves it as it is.  Merging two buckets is part of it; no access leaves the
    array. *)
Theorem my_hash_delete_correct mem hash rs record : represents mem hash rs ->
  exists hash' error freed, my_hash_delete hash_function mem hash record = Some (hash', error, freed) /\
    if decide (record ∈ rs) then
      error = false /\ freed = (if has_free hash then [record] else []) /\
      exists rs', rs ≡ₚ record :: rs' /\ represents mem hash' rs'
    else error = true /\ freed = [] /\ hash' = hash.
Proof.
  intros [C T]. unfold my_hash_delete. case_decide as Hn.
  { exists hash, true, []. rewrite (entries_nil hash mem rs (no_records _ _ _ T Hn)), decide_False; [done|].
    apply not_elem_of_nil. }
  destruct (find_in_bucket hash C _ record (rec_hashnr hash mem record) T Hn) as
    [[-> Hnot]|(pre & x & post & l & HC & Hl & He & ->)].
  { intros g Hg. by apply entries_in in Hg as [-> _]. }
  { cbn [mbind option_bind]. exists hash, true, []. rewrite entries_snd in Hnot. by rewrite decide_False. }
  cbn [mbind option_bind]. pose proof (to_blength _ _ _ T) as Hb. destruct T as [Ha Hel Hsize Hlk Tb]. set (n := records hash - 1).
  assert (Hrec : records hash = n + 1) by lia.
  destruct (remove_link_spec _ _ _ _ _ _ pre x post l Tb HC Hl) as (d1 & e & C1 & M1 & -> & Hl1 & He1 & HM1 & T1).
  rewrite He in HM1. destruct (entries_cons_inv _ _ _ _ _ _ HM1) as (rs' & Hrs & HM).
  cbn [mbind option_bind]. rewrite Hrec in Hsize, T1, He1. pose proof (ao_length _ Ha). pose proof (ao_elements _ Ha).
  destruct (shrunk_size (blength hash) n Hsize) as [Hs1 Hs2].
  set (b' := if (_ <? _)%Z then _ else _) in *.
  destruct (move_last_spec (blength hash) b' n d1 (rem (fun i => i < n + 1) e) C1 M1 e ltac:(lia) Hs1 ltac:(lia) Hs2 ltac:(done) He1 ltac:(lia) T1) as (d2 & C2 & -> & Hl2 & T2).
  cbn [mbind option_bind]. eexists _, false, _. split; [done|].
  rewrite decide_True by (rewrite Hrs; left). split_and!; [done..|].
  exists rs'. split; [done|]. exists C2.
  destruct Ha as [Ha1 Ha2 Ha3]. unfold pop_dynamic. rewrite decide_True by (simpl; lia). split; simpl.
  - constructor; simpl; lia.
  - lia.
  - done.
  - lia.
  - eapply table_M; [exact HM|exact T2].
Qed.

(** ** Updating *)

(** A record keeps its position but not its hash number. *)
Lemma table_rehash d (P : nat -> Prop) (m : Z -> nat) C M x l h : table d P m C M -> P x -> get d x = Some l ->
  m h = m (hash_nr l) ->
  exists M', M ≡ₚ entry l :: M' /\
    table (<[x := Some (mk_link (next l) h (data l))]> d) P m C ((h, data l) :: M').
Proof.
  intros T Hx Hl Hm. pose proof (get_lt _ _ _ Hl) as Hlt. set (d' := <[x := _]> d).
  assert (Hd' : forall i, get d' i = if decide (i = x) then Some (mk_link (next l) h (data l)) else get d i).
  { intros i. by apply get_insert. }
  destruct (holds_remove d P (rem P x) M x (entry l)) as (M' & HM & HM'); [done|done|by unfold rec_at; rewrite Hl|apply T|].
  exists M'. split; [done|]. split.
  - intros b. destruct (t_chain _ _ _ _ _ T b) as [H1 H2 H3 H4]. split; try done.
    + eapply seg_ext; [|done]. intros i Hi. unfold nx. rewrite Hd'. case_decide; [subst; by rewrite Hl|done].
    + intros i Hi. pose proof (H4 i Hi) as Hb. unfold bk in *. rewrite Hd'. case_decide; [subst|done].
      rewrite Hl in Hb. simpl in *. congruence.
  - apply T.
  - apply (holds_add d' (rem P x) _ _ x).
    + by intros [_ ?].
    + intros i. unfold rem. destruct (decide (i = x)); naive_solver.
    + unfold rec_at. by rewrite Hd', decide_True.
    + apply (holds_ext d d' (rem P x)); [done| |done]. intros i [_ Hi]. unfold rec_at. by rewrite Hd', decide_False.
Qed.

Lemma set_buffer_table (hash : HASH R) C0 M0 C M d : table_of hash C0 M0 -> length d = length (buffer (array hash)) ->
  table d (fun i => i < records hash) (fun h => my_hash_mask h (blength hash) (records hash)) C M ->
  table_of (set_array hash (blength hash) (records hash) (set_buffer (array hash) d)) C M.
Proof. intros [[H1 H2 H3] H4 H5 H6 _] Hl T. split; simpl; try done. constructor; simpl; lia. Qed.

Lemma entries_same_keys (hash : HASH R) mem mem' rs :
  (forall r, r ∈ rs -> my_hash_key hash mem' r = my_hash_key hash mem r) -> entries hash mem' rs = entries hash mem rs.
Proof.
  intros Hk. apply list_fmap_ext. intros i r Hr. apply list_elem_of_lookup_2 in Hr.
  unfold Hash.rec_hashnr. by rewrite Hk.
Qed.

(** The array after the record has been moved to its new bucket. *)
Lemma update_moves (hash : HASH R) C M pre x post l h : table_of hash C M ->
  C (my_hash_mask (hash_nr l) (blength hash) (records hash)) = pre ++ x :: post ->
  get (buffer (array hash)) x = Some l ->
  exists d2 C' M', M ≡ₚ entry l :: M' /\
    ('(d1, e) ← remove_link (buffer (array hash)) (last pre) x;
     relink (blength hash) (records hash) d1 e (my_hash_mask h (blength hash) (records hash)) l h) = Some d2 /\
    length d2 = length (buffer (array hash)) /\
    table d2 (fun i => i < records hash) (fun h => my_hash_mask h (blength hash) (records hash)) C' ((h, data l) :: M').
Proof.
  intros T HC Hl. pose proof (to_blength _ _ _ T) as Hb. pose proof T as [[Ha1 Ha2 _] Hel Hsize Hlk Tb].
  destruct (remove_link_spec _ _ _ _ _ _ pre x post l Tb HC Hl) as (d1 & e & C1 & M1 & -> & Hl1 & He1 & HM1 & T1).
  cbn [mbind option_bind].
  assert (Hmask : forall h, my_hash_mask h (blength hash) (records hash) < records hash).
  { intros h'. apply mask_lt; [done|lia|lia]. }
  destruct (relink_spec (blength hash) (records hash) d1 (rem (fun i => i < records hash) e) C1 M1 e h l
              Hlk Hmask He1 ltac:(lia) ltac:(done) T1) as (d2 & C2 & Hr & Hl2 & T2).
  exists d2, C2, M1. split_and!; [done|done|lia|done].
Qed.

(** C26: [my_hash_update] refuses a new key exactly if the table is HASH_UNIQUE
    and another record has it; otherwise the record is found again under its new
    key, and every other record stays as it was. *)
Theorem my_hash_update_correct mem0 mem hash rs record old_key old_len :
  represents mem0 hash (record :: rs) -> record ∉ rs ->
  (forall r, r ∈ rs -> my_hash_key hash mem r = my_hash_key hash mem0 r) ->
  take (key_len hash old_len) old_key = my_hash_key hash mem0 record ->
  let key := my_hash_key hash mem record in
  key_len hash (length key) = length key ->
  exists hash' error, my_hash_update hash_function my_strnncoll mem hash record old_key old_len = Some (hash', error) /\
    if has (flags hash) HASH_UNIQUE && existsb (has_key hash mem key (length key)) rs
    then error = true /\ hash' = hash else error = false /\ represents mem hash' (record :: rs).
Proof.
  intros [C T] Hnot Hsame Hold key Hkl. unfold my_hash_update. fold key.
  rewrite (uint_of_small (records hash)) by (pose proof (to_records _ _ _ T) as Hlk; unfold NO_RECORD in Hlk; lia).
  assert (Hn : records hash <> 0) by (intros Hn; by apply (no_records _ _ _ T) in Hn).
  set (unique := has (flags hash) HASH_UNIQUE).
  assert (exists dup, (if unique then
        found ← my_hash_first_from_hash_value hash mem (hash_function key) key (length key);
        other_with_key my_strnncoll (records hash) hash mem key record found
      else Some false) = Some dup /\
      dup = unique && existsb (has_key hash mem key (length key)) rs) as (dup & -> & ->).
  { destruct unique; [|by exists false]. cbn [andb].
    destruct (dup_check hash mem key (length key) C _ T (hash_function key) Hn) with (record := record)
      as (cur & dup & -> & Hdup & Hiff); [lia|by rewrite Hkl, firstn_all|done| |].
    { intros g r [-> Hr]%entries_in Hne. apply elem_of_cons in Hr as [?|Hr]; [done|].
      unfold Hash.rec_hashnr. by rewrite Hsame. }
    exists dup. split; [done|]. apply eq_true_iff_eq. rewrite Hiff, existsb_exists, entries_snd.
    setoid_rewrite <-list_elem_of_In. setoid_rewrite elem_of_cons. naive_solver. }
  cbn [mbind option_bind]. destruct (unique && _); [by exists hash, true|].
  replace (if decide (old_len <> 0) then old_len else key_length hash) with (key_len hash old_len)
    by (unfold key_len; repeat case_decide; done).
  rewrite Hold. fold (rec_hashnr hash mem0 record).
  destruct (find_in_bucket hash C _ record (rec_hashnr hash mem0 record) T Hn) as
    [[-> Hno]|(pre & x & post & l & HC & Hl & He & ->)].
  { intros g Hg. by apply entries_in in Hg as [-> _]. }
  { exfalso. apply Hno. rewrite entries_snd. left. }
  cbn [mbind option_bind]. rewrite Hl. cbn [mbind option_bind]. injection He as Hh Hr. rewrite <-Hh in HC |- *.
  assert (Hfin : forall d2 C' M', entries hash mem0 (record :: rs) ≡ₚ entry l :: M' ->
    length d2 = length (buffer (array hash)) ->
    table d2 (fun i => i < records hash) (fun h => my_hash_mask h (blength hash) (records hash)) C'
      ((hash_function key, data l) :: M') ->
    represents mem (set_array hash (blength hash) (records hash) (set_buffer (array hash) d2)) (record :: rs)).
  { intros d2 C' M' HM Hlen T2. exists C'. eapply set_buffer_table; [exact T|done|].
    eapply table_M; [|exact T2]. unfold entry in HM. rewrite Hr, Hh in HM. cbn [entries fmap list_fmap] in HM.
    apply Permutation_cons_inv in HM. rewrite Hr, <-HM. fold (entries hash mem0 rs).
    by rewrite <-(entries_same_keys hash mem0 mem rs Hsame). }
  case_decide as Hidx.
  - destruct (table_rehash _ _ _ _ _ x l (hash_function key) (to_table _ _ _ T)) as (M' & HM & T2).
    + eapply (table_live _ _ _ _ _ (to_table _ _ _ T)). rewrite HC. set_solver.
    + done.
    + done.
    + rewrite put_ok by (by eapply get_lt). cbn [mbind option_bind]. eexists _, false. split; [done|]. split; [done|].
      eapply Hfin; [exact HM|by rewrite length_insert|exact T2].
  - destruct (update_moves hash C _ pre x post l (hash_function key) T HC Hl) as (d2 & C' & M' & HM & Hw & Hlen & T2).
    destruct (remove_link _ _ _) as [[d1 e]|]; [|done]. cbn [mbind option_bind] in *. rewrite Hw. cbn [mbind option_bind].
    eexists _, false. split; [done|]. split; [done|]. by eapply Hfin.
Qed.

(** ** Emptying and walking *)

Lemma rows_positions (hash : HASH R) mem rs : represents mem hash rs ->
  rows_at (buffer (array hash)) (seq 0 (records hash)) ≡ₚ rs /\
  forall i, i < records hash -> exists l, get (buffer (array hash)) i = Some l.
Proof.
  intros [C T]. destruct (rows_all hash C _ T) as (ps & Hnd & Hps & Hrows). split.
  - rewrite entries_snd in Hrows. rewrite <-Hrows. apply omap_Permutation, NoDup_Permutation; [apply NoDup_seq|done|].
    intros i. rewrite elem_of_seq, Hps. lia.
  - intros i Hi. destruct (table_get _ _ _ _ _ (to_table _ _ _ T) i Hi) as (l & Hl & _). eauto.
Qed.

Lemma take_mapM d n : (forall i, i < n -> exists l, get d i = Some l) ->
  mapM (option_map data) (take n d) = Some (rows_at d (seq 0 n)).
Proof.
  intros Hd. apply mapM_Some_2. induction n as [|n IH]; [constructor|].
  destruct (Hd n) as [l Hl]; [lia|]. unfold get in Hl. destruct (d !! n) as [c|] eqn:Hc; [|done].
  change (c = Some l) in Hl. subst c.
  rewrite (take_S_r _ _ (Some l)) by done. rewrite seq_S. unfold rows_at. rewrite omap_app.
  apply Forall2_app; [apply IH; auto with lia|]. cbn [omap list_omap Nat.add]. unfold get. rewrite Hc.
  by repeat constructor.
Qed.

(** [my_hash_reset] hands every record to the free function and leaves an empty
    table. *)
Lemma my_hash_reset_correct mem (hash : HASH R) rs : represents mem hash rs ->
  exists hash' freed, my_hash_reset hash = Some (hash', freed) /\ represents mem hash' [] /\
    if has_free hash then freed ≡ₚ rs else freed = [].
Proof.
  intros Hrep. destruct (rows_positions hash mem rs Hrep) as [Hrows Hget]. destruct Hrep as [C T].
  pose proof T as [[Ha1 Ha2 Ha3] Hel Hsize Hb Tb].
  assert (Hempty : forall n, n = 0 ->
    represents mem (set_array hash 1 n (reset_dynamic (array hash))) []).
  { intros n ->. exists (fun _ => []). split; simpl; [constructor; simpl; lia|done| |done|apply empty_table].
    exists 0%Z. lia. }
  unfold my_hash_reset, my_hash_free_elements. case_decide as H0; cbn [mbind option_bind].
  - eexists _, _. split; [done|]. split; [by apply Hempty|].
    rewrite (entries_nil hash mem rs (no_records _ _ _ T H0)). by destruct (has_free hash).
  - destruct (has_free hash); cbn [mbind option_bind].
    + rewrite (take_mapM _ _ Hget). cbn [mbind option_bind]. eexists _, _. split; [done|].
      split; [by apply Hempty|done].
    + eexists _, _. split; [done|]. by split; [apply Hempty|].
Qed.

(** [my_hash_iterate] calls the action for every record until it asks to stop. *)
Fixpoint iterate_list {S} (action : R -> S -> bool * S) (l : list R) (s : S) : bool * S :=
  match l with
  | [] => (false, s)
  | r :: l => let '(stop, s) := action r s in if (stop : bool) then (true, s) else iterate_list action l s
  end.

Lemma my_hash_iterate_correct {S} (action : R -> S -> bool * S) mem (hash : HASH R) rs s :
  represents mem hash rs ->
  exists l, l ≡ₚ rs /\ my_hash_iterate action hash s = Some (iterate_list action l s).
Proof.
  intros Hrep. destruct (rows_positions hash mem rs Hrep) as [Hrows Hget].
  exists (rows_at (buffer (array hash)) (seq 0 (records hash))). split; [done|].
  unfold my_hash_iterate. clear Hrows. destruct Hrep as [C T]. pose proof (to_records _ _ _ T) as Hlk.
  unfold NO_RECORD in Hlk. rewrite uint_of_small by lia. clear C T Hlk.
  assert (Hgen : forall n i s, (forall j, i <= j < i + n -> exists l, get (buffer (array hash)) j = Some l) ->
    iterate_from action (buffer (array hash)) i n s =
      Some (iterate_list action (rows_at (buffer (array hash)) (seq i n)) s)).
  { induction n as [|n IH]; intros i s' Hj; [done|]. destruct (Hj i) as [l Hl]; [lia|].
    cbn [iterate_from seq]. rewrite Hl, (rows_at_cons _ _ _ l Hl). cbn [mbind option_bind iterate_list].
    destruct (action (data l) s') as [[] s1]; [done|]. rewrite IH; [by rewrite Nat.add_1_r|]. intros j Hj'. apply Hj. lia. }
  apply Hgen. intros j Hj. apply Hget. lia.
Qed.

(** ** The consistency check *)

Lemma check_chain_spec d blen nrec i xs : forall fuel found o, seg d o xs None ->
  (forall x, x ∈ xs -> x < nrec /\ exists l, get d x = Some l /\ my_hash_mask (hash_nr l) blen nrec = i) ->
  found + length xs <= nrec -> length xs < fuel -> (Z.of_nat nrec < NO_RECORD)%Z ->
  check_chain fuel d blen nrec i false found o = Some (false, found + length xs).
Proof.
  induction xs as [|x xs IH]; intros [|fuel] found o Hs Hx Hf Hlen Hk; simpl in Hlen; try lia.
  - simpl in Hs. subst o. simpl. by rewrite Nat.add_0_r.
  - destruct Hs as (-> & n & Hn & Hs). simpl in Hf. cbn [check_chain]. unfold NO_RECORD in Hk.
    rewrite !uint_of_small, decide_True by lia.
    destruct (Hx x ltac:(left)) as (Hlt & l & Hl & Hm). rewrite Hl. cbn [mbind option_bind].
    rewrite decide_False by (unfold my_hash_rec_mask; naive_solver). rewrite bool_decide_false by lia. cbn [orb].
    unfold nx in Hn. rewrite Hl in Hn. simplify_eq/=. rewrite IH; [f_equal; f_equal; lia|done| |lia|lia|done].
    intros y Hy. apply Hx. by right.
Qed.

Section check.
Context (hash : HASH R) (mem : memory R) (rs : list R) (C : nat -> list nat).
Context (T : table_of hash C (entries hash mem rs)) (Hk : (Z.of_nat (records hash) < NO_RECORD)%Z).
Notation n := (records hash).

Definition counted (i : nat) : nat := length (concat (map C (seq 0 i))).

Lemma counted_S i : counted (S i) = counted i + length (C i).
Proof. unfold counted. rewrite seq_S, map_app, concat_app, length_app. simpl. by rewrite app_nil_r. Qed.

Lemma chains_nodup i : NoDup (concat (map C (seq 0 i))) /\
  forall x, x ∈ concat (map C (seq 0 i)) <-> exists b, b < i /\ x ∈ C b.
Proof.
  induction i as [|i [IH1 IH2]]; [split; [constructor|]; intros x; rewrite elem_of_nil; split; [done|naive_solver lia]|].
  rewrite seq_S, map_app, concat_app. simpl. rewrite app_nil_r. split.
  - apply NoDup_app. split_and!; [done| |apply (t_chain _ _ _ _ _ (to_table _ _ _ T))].
    intros x (b & Hb & Hx)%IH2 Hx'. assert (b = i) by (by eapply (table_disj _ _ _ _ _ (to_table _ _ _ T))). lia.
  - intros x. rewrite elem_of_app, IH2. split.
    + intros [(b & Hb & Hx)|Hx]; [exists b|exists i]; (split; [lia|done]).
    + intros (b & Hb & Hx). destruct (decide (b = i)) as [->|]; [by right|]. left. exists b. split; [lia|done].
Qed.

Lemma counted_le i : counted i <= n.
Proof.
  destruct (chains_nodup i) as [H1 H2]. apply NoDup_bounded; [done|]. intros x (b & _ & Hx)%H2.
  by apply (table_live _ _ _ _ _ (to_table _ _ _ T) b).
Qed.

Lemma counted_all : counted n = n.
Proof.
  destruct (chains_nodup n) as [H1 H2]. apply Nat.le_antisymm; [apply counted_le|]. unfold counted.
  rewrite <-(length_seq n 0) at 1. apply submseteq_length, NoDup_submseteq; [apply NoDup_seq|].
  intros x Hx%elem_of_seq. apply H2.
  destruct (table_get _ _ _ _ _ (to_table _ _ _ T) x ltac:(simpl; lia)) as (l & _ & Hin).
  eexists. split; [|exact Hin]. apply mask_lt; [apply T|lia|]. pose proof (to_blength _ _ _ T). lia.
Qed.

Lemma check_from_spec k : forall i, i + k = n ->
  check_from hash_function (n + 2) hash mem i k false (counted i) = Some (false, counted n).
Proof.
  pose proof (to_table _ _ _ T) as Tb.
  induction k as [|k IH]; intros i Hi; [by rewrite Nat.add_0_r in Hi; subst i|]. cbn [check_from].
  pose proof Hk as Hk'. unfold NO_RECORD in Hk'. pose proof (counted_le i) as Hci.
  rewrite (uint_of_small n), (uint_of_small (counted i + 1)) by lia.
  destruct (table_get _ _ _ _ _ Tb i ltac:(simpl; lia)) as (l & Hl & Hin). rewrite Hl. cbn [mbind option_bind]. simpl in Hin.
  assert (hash_nr l = rec_hashnr hash mem (data l)) as Hh.
  { pose proof (entry_in hash C _ T i l ltac:(lia) Hl) as He. by apply entries_in in He as [-> _]. }
  rewrite (proj2 (Z.eqb_eq _ _) Hh). cbn [negb orb].
  assert (Hcount : (if decide (my_hash_rec_mask l (blength hash) n = i)
            then check_chain (n + 2) (buffer (array hash)) (blength hash) n i false (counted i + 1) (next l)
            else Some (false, counted i)) = Some (false, counted (i + 1))).
  { replace (i + 1) with (S i) by lia. rewrite counted_S. case_decide as Hm; unfold my_hash_rec_mask in Hm.
    - rewrite Hm in Hin. destruct (table_own _ _ _ _ _ Tb i Hin) as [t Ht].
      pose proof (t_chain _ _ _ _ _ Tb i) as [Hs _ _ Hb]. rewrite Ht in Hs, Hb. destruct Hs as (_ & o & Ho & Hs).
      unfold nx in Ho. rewrite Hl in Ho. simplify_eq/=.
      pose proof (counted_le (S (my_hash_mask (hash_nr l) (blength hash) n))) as Hle. rewrite counted_S, Ht in Hle. simpl in Hle.
      rewrite (check_chain_spec _ _ _ _ t); [rewrite Ht; simpl; f_equal; f_equal; lia|done| |lia|lia|done].
      intros x Hx. assert (Hxl : x < n) by (apply (table_live _ _ _ _ _ Tb (my_hash_mask (hash_nr l) (blength hash) n)); rewrite Ht; by right).
      split; [done|]. destruct (table_get _ _ _ _ _ Tb x Hxl) as (lx & Hlx & _). exists lx. split; [done|].
      pose proof (Hb x ltac:(by right)) as Hbx. unfold bk in Hbx. rewrite Hlx in Hbx. by simplify_eq/=.
    - rewrite (table_wrong _ _ _ _ _ Tb i l Hl) by (simpl; lia || done). by rewrite Nat.add_0_r. }
  rewrite Hcount. cbn [mbind option_bind]. apply IH. lia.
Qed.

End check.

(** The debug check of the code accepts every table that represents something.
    At [2^32 - 1] records its bound [records + 1] wraps to 0. *)
Lemma my_hash_check_correct mem hash rs : represents mem hash rs ->
  (Z.of_nat (records hash) < NO_RECORD)%Z -> my_hash_check hash_function hash mem = Some false.
Proof.
  intros [C T] Hk. unfold my_hash_check. pose proof Hk as Hk'. unfold NO_RECORD in Hk'.
  rewrite uint_of_small by lia. change 0 with (counted C 0) at 2.
  rewrite (check_from_spec hash mem rs C T Hk) by done. cbn [mbind option_bind]. rewrite (counted_all hash mem rs C T).
  by rewrite Nat.eqb_refl.
Qed.

End theorems.

(** ** An example table

    Keys are single bytes; the records 1, 9, 2 and 17 with their numbers as keys
    give a chain of three in one bucket. *)

Section example.

Definition example_hash_function (k : list Z) : Z := foldr Z.add 0%Z k.
Definition example_coll (a b : list Z) : Z := if decide (a = b) then 0%Z else 1%Z.

#[local] Instance example_law : HashLaw example_hash_function example_coll.
Proof. intros a b _. unfold example_coll. by case_decide as H; [rewrite H|]. Qed.

Definition example_mem : memory Z := fun r => [r].

Fixpoint insert_records (hash : HASH Z) (rs : list Z) : option (HASH Z) :=
  match rs with
  | [] => Some hash
  | r :: rs =>
      '(hash, _) ← insert_record true hash r (example_hash_function [r]);
      insert_records hash rs
  end.

Definition example_empty : HASH Z := my_hash_init2 4 4 0 1 None true HASH_UNIQUE true.
Definition example_hash : HASH Z := default example_empty (insert_records example_empty [17; 2; 9; 1]%Z).

Lemma insert_records_spec rs : forall hash rs0, represents example_hash_function example_mem hash rs0 ->
  key_offset hash = 0 -> key_length hash = 1 -> get_key hash = None ->
  (Z.of_nat (records hash + length rs) < NO_RECORD)%Z ->
  exists hash', insert_records hash rs = Some hash' /\
    represents example_hash_function example_mem hash' (reverse rs ++ rs0).
Proof.
  induction rs as [|r rs IH]; intros hash rs0 Hrep Ho Hl Hg Hn; [by exists hash|]. simpl in Hn.
  destruct (insert_record_spec example_hash_function true example_mem hash rs0 r Hrep ltac:(lia))
    as (hash' & error & Hins & Hres).
  assert (Hh : rec_hashnr example_hash_function hash example_mem r = example_hash_function [r]).
  { unfold rec_hashnr, my_hash_key. by rewrite Hg, Ho, Hl. }
  rewrite Hh in Hins. cbn [insert_records]. rewrite Hins. cbn [mbind option_bind].
  destruct error; [by destruct Hres|].
  assert (Hsame : key_offset hash' = 0 /\ key_length hash' = 1 /\ get_key hash' = None /\ records hash' = records hash + 1).
  { unfold insert_record in Hins. repeat (case_match || simplify_option_eq); done. }
  destruct Hsame as (H1 & H2 & H3 & H4).
  destruct (IH hash' (r :: rs0) Hres H1 H2 H3) as (hash2 & H5 & H6).
  - lia.
  - exists hash2. split; [done|]. by rewrite reverse_cons, <-app_assoc.
Qed.

Lemma example_represents : represents example_hash_function example_mem example_hash [1; 9; 2; 17]%Z.
Proof.
  destruct (insert_records_spec [17; 2; 9; 1]%Z example_empty []) as (h & Hh & Hrep); try done.
  - apply my_hash_init2_represents.
  - unfold example_hash. by rewrite Hh.
Qed.

Lemma my_hash_search_all_witness :
  exists cur l, my_hash_first example_hash_function example_coll example_hash example_mem [9%Z] 0 = Some cur /\
    search_rest example_coll example_hash example_mem [9%Z] 0 (records example_hash) cur = Some l /\
    l ≡ₚ filter (fun r => has_key example_coll example_hash example_mem [9%Z] 0 r = true) [1; 9; 2; 17]%Z.
Proof. apply (my_hash_search_all example_hash_function example_coll); [apply example_represents|vm_compute; lia]. Defined.

Lemma my_hash_insert_correct_witness :
  let key := my_hash_key example_hash example_mem 25%Z in
  exists hash' error,
    my_hash_insert example_hash_function example_coll true example_mem example_hash 25%Z = Some (hash', error) /\
    if has (flags example_hash) HASH_UNIQUE &&
       existsb (has_key example_coll example_hash example_mem key (length key)) [1; 9; 2; 17]%Z
    then error = true /\ hash' = example_hash
    else if (error : bool) then true = false /\ represents example_hash_function example_mem hash' [1; 9; 2; 17]%Z
    else represents example_hash_function example_mem hash' [25; 1; 9; 2; 17]%Z.
Proof.
  apply (my_hash_insert_correct example_hash_function example_coll true example_mem example_hash [1; 9; 2; 17]%Z 25%Z).
  - apply example_represents.
  - vm_compute. reflexivity.
  - vm_compute. reflexivity.
Defined.

Lemma my_hash_delete_correct_witness :
  exists hash' error freed,
    my_hash_delete example_hash_function example_mem example_hash 9%Z = Some (hash', error, freed) /\
    if decide (9%Z ∈ [1; 9; 2; 17]%Z) then
      error = false /\ freed = (if has_free example_hash then [9%Z] else []) /\
      exists rs', [1; 9; 2; 17]%Z ≡ₚ 9%Z :: rs' /\ represents example_hash_function example_mem hash' rs'
    else error = true /\ freed = [] /\ hash' = example_hash.
Proof. apply my_hash_delete_correct, example_represents. Defined.

(** Record 1 gets the key 5. *)
Lemma my_hash_update_correct_witness :
  let mem : memory Z := fun r => if decide (r = 1%Z) then [5%Z] else [r] in
  let key := my_hash_key example_hash mem 1%Z in
  exists hash' error,
    my_hash_update example_hash_function example_coll mem example_hash 1%Z [1%Z] 1 = Some (hash', error) /\
    if has (flags example_hash) HASH_UNIQUE && existsb (has_key example_coll example_hash mem key (length key)) [9; 2; 17]%Z
    then error = true /\ hash' = example_hash
    else error = false /\ represents example_hash_function mem hash' [1; 9; 2; 17]%Z.
Proof.
  apply (my_hash_update_correct example_hash_function example_coll example_mem
           (fun r => if decide (r = 1%Z) then [5%Z] else [r]) example_hash [9; 2; 17]%Z 1%Z [1%Z] 1).
  - apply example_represents.
  - apply (bool_decide_unpack _). vm_compute. exact I.
  - intros r Hr. repeat (apply elem_of_cons in Hr as [->|Hr]; [vm_compute; reflexivity|]). by apply elem_of_nil in Hr.
  - vm_compute. reflexivity.
  - vm_compute. reflexivity.
Defined.

End example.

End HashTheorems.
