(* ===== verification/Base64.v ===== *)
(** * Base64 (mysys/base64.c)

    The encoder with its line breaks and padding, the decoder with its
    character classes and its group state, and the two length functions.
    Characters and bytes are integers below 256.  The destination is a buffer
    that is given; a step that would read behind the source or write behind
    the destination makes the whole call [None]. *)

From Stdlib Require Import Ascii String.
From S2P Require Import Prelude.

#[local] Open Scope Z_scope.

Module Base64.

(** ** Tables and lengths *)

Definition base64_table : list Z :=
  map (fun a => Z.of_N (N_of_ascii a))
    (list_ascii_of_string
       "ABCDEFGHIJKLMNOPQRSTUVWXYZabcdefghijklmnopqrstuvwxyz0123456789+/"%string).

Definition from_base64_table : list Z :=
  [ -1;-1;-1;-1;-1;-1;-1;-1;-1;-2;-2;-2;-2;-2;-1;-1;
    -1;-1;-1;-1;-1;-1;-1;-1;-1;-1;-1;-1;-1;-1;-1;-1;
    -2;-1;-1;-1;-1;-1;-1;-1;-1;-1;-1;62;-1;-1;-1;63;
    52;53;54;55;56;57;58;59;60;61;-1;-1;-1;-1;-1;-1;
    -1; 0; 1; 2; 3; 4; 5; 6; 7; 8; 9;10;11;12;13;14;
    15;16;17;18;19;20;21;22;23;24;25;-1;-1;-1;-1;-1;
    -1;26;27;28;29;30;31;32;33;34;35;36;37;38;39;40;
    41;42;43;44;45;46;47;48;49;50;51;-1;-1;-1;-1;-1;
    -1;-1;-1;-1;-1;-1;-1;-1;-1;-1;-1;-1;-1;-1;-1;-1;
    -1;-1;-1;-1;-1;-1;-1;-1;-1;-1;-1;-1;-1;-1;-1;-1;
    -2;-1;-1;-1;-1;-1;-1;-1;-1;-1;-1;-1;-1;-1;-1;-1;
    -1;-1;-1;-1;-1;-1;-1;-1;-1;-1;-1;-1;-1;-1;-1;-1;
    -1;-1;-1;-1;-1;-1;-1;-1;-1;-1;-1;-1;-1;-1;-1;-1;
    -1;-1;-1;-1;-1;-1;-1;-1;-1;-1;-1;-1;-1;-1;-1;-1;
    -1;-1;-1;-1;-1;-1;-1;-1;-1;-1;-1;-1;-1;-1;-1;-1;
    -1;-1;-1;-1;-1;-1;-1;-1;-1;-1;-1;-1;-1;-1;-1;-1].

Definition my_base64_encode_max_arg_length : Z := 0x5EC0D4C6.

(** The value of the expression in unbounded integers; C divides towards
    zero. *)
Definition my_base64_needed_encoded_length (length_of_data : Z) : Z :=
  let nb_base64_chars := Z.quot (length_of_data + 2) 3 * 4 in
  nb_base64_chars + Z.quot (nb_base64_chars - 1) 76 + 1.

Definition my_base64_decode_max_arg_length : Z := 0x7FFFFFFF.

(** The conversion to [int] of a wider value. *)
Definition to_int (z : Z) : Z := (z + 2 ^ 31) mod 2 ^ 32 - 2 ^ 31.

(** The cast binds to the sum, not to the quotient. *)
Definition my_base64_needed_decoded_length (length_of_encoded_data : Z) : Z :=
  Z.quot (to_int (length_of_encoded_data + 3)) 4 * 3.

(** ** Encoder *)

(** [*dst++= c] with [dst] at offset [d]. *)
Definition put (dst : list Z) (d : nat) (c : Z) : option (list Z * nat) :=
  if decide (d < length dst)%nat then Some (<[d := c]> dst, S d) else None.

Definition digit (c : Z) (shift : Z) : option Z :=
  base64_table !! Z.to_nat (Z.land (Z.shiftr c shift) 0x3f).

(** [if (i < src_len) c += s[i];] *)
Definition add_byte (s : list Z) (i : nat) (c : Z) : option Z :=
  if decide (i < length s)%nat then x ← s !! i; Some (u32 (c + x)) else Some c.

Fixpoint encode_loop (fuel : nat) (s : list Z) (i len : nat) (dst : list Z) (d : nat) :
    option (list Z * nat) :=
  match fuel with
  | O => None
  | S fuel =>
      if decide (i < length s)%nat then
        '(dst, d, len) ←
          (if decide (len = 76%nat)
           then '(dst, d) ← put dst d 10; Some (dst, d, 0%nat)
           else Some (dst, d, len));
        c ← s !! i;
        let i := S i in
        let c := u32 (Z.shiftl c 8) in
        c ← add_byte s i c;
        let c := u32 (Z.shiftl c 8) in
        let i := S i in
        c ← add_byte s i c;
        let i := S i in
        c1 ← digit c 18; '(dst, d) ← put dst d c1;
        c2 ← digit c 12; '(dst, d) ← put dst d c2;
        c3 ← (if decide (length s + 1 < i)%nat then Some 61 else digit c 6);
        '(dst, d) ← put dst d c3;
        c4 ← (if decide (length s < i)%nat then Some 61 else digit c 0);
        '(dst, d) ← put dst d c4;
        encode_loop fuel s i (len + 4) dst d
      else Some (dst, d)
  end.

(** Returns the destination and the offset of the NUL that ends it. *)
Definition my_base64_encode (s dst : list Z) : option (list Z * nat) :=
  '(dst, d) ← encode_loop (S (length s)) s 0 0 dst 0;
  '(dst, _) ← put dst d 0;
  Some (dst, d).

(** ** Decoder *)

Record MY_BASE64_DECODER := mk_decoder {
  src : nat;              (* offset of the current input position *)
  c : Z;
  error : bool;
  state : nat;
  mark : nat
}.

Section decoder.
Variable inp : list Z.    (* the input, [end] is its end *)

Definition from_table (ch : Z) : option Z := from_base64_table !! Z.to_nat ch.

Fixpoint skip_loop (fuel : nat) (decoder : MY_BASE64_DECODER) :
    option (bool * MY_BASE64_DECODER) :=
  match fuel with
  | O => None
  | S fuel =>
      if decide (src decoder < length inp)%nat then
        ch ← inp !! src decoder;
        v ← from_table ch;
        if decide (v = -2)
        then skip_loop fuel (mk_decoder (S (src decoder)) (c decoder) (error decoder)
                               (state decoder) (mark decoder))
        else Some (false, decoder)
      else
        Some (true, if decide (0 < state decoder)%nat
                    then mk_decoder (src decoder) (c decoder) true (state decoder)
                           (mark decoder)
                    else decoder)
  end.

Definition my_base64_decoder_skip_spaces (decoder : MY_BASE64_DECODER) :
    option (bool * MY_BASE64_DECODER) :=
  skip_loop (S (length inp)) decoder.

Definition my_base64_add (decoder : MY_BASE64_DECODER) : option (bool * MY_BASE64_DECODER) :=
  let c1 := u32 (Z.shiftl (c decoder) 6) in
  ch ← inp !! src decoder;
  res ← from_table ch;
  if decide (res < 0)
  then Some (true, mk_decoder (S (src decoder)) c1 true (state decoder) (mark decoder))
  else Some (false, mk_decoder (S (src decoder)) (u32 (c1 + res)) (error decoder)
                      (state decoder) (mark decoder)).

Definition my_base64_decoder_getch (decoder : MY_BASE64_DECODER) :
    option (bool * MY_BASE64_DECODER) :=
  '(eof, decoder) ← my_base64_decoder_skip_spaces decoder;
  if (eof : bool) then Some (true, decoder) else
  '(bad, decoder) ← my_base64_add decoder;
  if negb bad then
    if decide (mark decoder ≠ 0%nat)
    then Some (true, mk_decoder (src decoder - 1) (c decoder) true (state decoder)
                       (mark decoder))
    else Some (false, mk_decoder (src decoder) (c decoder) (error decoder)
                        (S (state decoder)) (mark decoder))
  else
    match state decoder with
    | 0%nat | 1%nat =>
        Some (true, mk_decoder (src decoder - 1) (c decoder) (error decoder)
                      (state decoder) (mark decoder))
    | 2%nat | 3%nat =>
        ch ← inp !! (src decoder - 1)%nat;
        if decide (ch = 61)
        then Some (false, mk_decoder (src decoder) (c decoder) false
                            (S (state decoder)) (S (mark decoder)))
        else Some (true, mk_decoder (src decoder - 1) (c decoder) (error decoder)
                           (state decoder) (mark decoder))
    | _ => Some (true, decoder)
    end.

(** [n] calls of [my_base64_decoder_getch] joined by [||]. *)
Fixpoint getch_or (n : nat) (decoder : MY_BASE64_DECODER) : option (bool * MY_BASE64_DECODER) :=
  match n with
  | O => Some (false, decoder)
  | S n =>
      '(stop, decoder) ← my_base64_decoder_getch decoder;
      if (stop : bool) then Some (true, decoder) else getch_or n decoder
  end.

Definition byte_at (v shift : Z) : Z := Z.land (Z.shiftr v shift) 0xff.

Fixpoint decode_loop (multiple_chunks : bool) (fuel : nat) (decoder : MY_BASE64_DECODER)
    (dst : list Z) (d : nat) : option (MY_BASE64_DECODER * list Z * nat) :=
  match fuel with
  | O => None
  | S fuel =>
      let decoder := mk_decoder (src decoder) 0 (error decoder) 0 (mark decoder) in
      '(stop, decoder) ← getch_or 4 decoder;
      if (stop : bool) then Some (decoder, dst, d) else
      '(dst, d) ← put dst d (byte_at (c decoder) 16);
      '(dst, d) ← put dst d (byte_at (c decoder) 8);
      '(dst, d) ← put dst d (byte_at (c decoder) 0);
      if decide (mark decoder ≠ 0%nat) then
        let d := (d - mark decoder)%nat in
        if negb multiple_chunks then Some (decoder, dst, d) else
        decode_loop multiple_chunks fuel
          (mk_decoder (src decoder) (c decoder) (error decoder) (state decoder) 0) dst d
      else decode_loop multiple_chunks fuel decoder dst d
  end.

Definition MY_BASE64_DECODE_ALLOW_MULTIPLE_CHUNKS : Z := 1.

(** Returns the value of the call, the destination and [*end_ptr]. *)
Definition my_base64_decode (dst : list Z) (flags : Z) : option (Z * list Z * nat) :=
  let multiple_chunks :=
    negb (Z.land flags MY_BASE64_DECODE_ALLOW_MULTIPLE_CHUNKS =? 0) in
  '(decoder, dst, d) ←
    decode_loop multiple_chunks (S (length inp)) (mk_decoder 0 0 false 0 0) dst 0;
  let decoder := mk_decoder (src decoder) (c decoder) (error decoder) 0 (mark decoder) in
  '(eof, decoder) ← my_base64_decoder_skip_spaces decoder;
  let err := if negb eof then true else error decoder in
  Some (if (err : bool) then -1 else to_int (Z.of_nat d), dst, src decoder).

End decoder.

(** ** What the format is

    Three bytes are the four base-64 digits of the number they make; a last
    group of one or two bytes is padded; the encoder breaks lines after 76
    characters, the decoder drops blanks wherever they are. *)

Definition char64 (v : Z) : Z := nth (Z.to_nat v) base64_table 0.

(** The line break before a group, and the length of its line. *)
Definition break (len : nat) : list Z := if decide (len = 76%nat) then [10] else [].

Definition column (len : nat) : nat := if decide (len = 76%nat) then 0%nat else len.

Fixpoint encoded (len : nat) (s : list Z) : list Z :=
  match s with
  | [] => []
  | [x] => break len ++ [char64 (x / 4); char64 (x mod 4 * 16); 61; 61]
  | [x; y] => break len ++ [char64 (x / 4); char64 (x mod 4 * 16 + y / 16); char64 (y mod 16 * 4); 61]
  | x :: y :: z :: r =>
      break len ++ [char64 (x / 4); char64 (x mod 4 * 16 + y / 16);
             char64 (y mod 16 * 4 + z / 64); char64 (z mod 64)] ++ encoded (column len + 4) r
  end.

Definition is_blank (ch : Z) : Prop := from_table ch = Some (-2).

#[global] Instance is_blank_dec ch : Decision (is_blank ch).
Proof. unfold is_blank. apply _. Defined.

Definition digit_of (ch : Z) : option Z :=
  v ← from_table ch; if decide (v < 0) then None else Some v.

(** The characters that count, and the bytes they stand for. *)
Definition strip (inp : list Z) : list Z := filter (fun ch => ~ is_blank ch) inp.

Definition after_pad (multiple_chunks : bool) (tail : option (list Z)) (rest : list Z) :
    option (list Z) :=
  if multiple_chunks then tail else match rest with [] => Some [] | _ => None end.

Fixpoint decoded (multiple_chunks : bool) (cs : list Z) : option (list Z) :=
  match cs with
  | [] => Some []
  | a :: b :: x :: y :: rest =>
      va ← digit_of a; vb ← digit_of b;
      match digit_of x, digit_of y with
      | Some vx, Some vy =>
          t ← decoded multiple_chunks rest;
          Some (va * 4 + vb / 16 :: vb mod 16 * 16 + vx / 4 :: vx mod 4 * 64 + vy :: t)
      | Some vx, None =>
          if decide (y = 61) then
            t ← after_pad multiple_chunks (decoded multiple_chunks rest) rest;
            Some (va * 4 + vb / 16 :: vb mod 16 * 16 + vx / 4 :: t)
          else None
      | None, None =>
          if decide (x = 61 /\ y = 61) then
            t ← after_pad multiple_chunks (decoded multiple_chunks rest) rest;
            Some (va * 4 + vb / 16 :: t)
          else None
      | None, Some _ => None
      end
  | _ => None
  end.

Definition is_byte (x : Z) : Prop := 0 <= x < 256.

(** ** Destination buffers *)

(** The first [d] of the [n] cells of [dst] hold [out]. *)
Definition written (out : list Z) (n : nat) (dst : list Z) (d : nat) : Prop :=
  take d dst = out /\ d = length out /\ length dst = n.

Lemma written_put out n dst d x :
  written out n dst d -> (length out < n)%nat ->
  exists dst', put dst d x = Some (dst', S d) /\ written (out ++ [x]) n dst' (S d).
Proof.
  intros (Ht & Hd & Hn) Hlt. exists (<[d := x]> dst). unfold put.
  rewrite decide_True by lia. split; [done|]. repeat split.
  - rewrite (take_S_r _ _ x) by (apply list_lookup_insert_eq; lia).
    rewrite take_insert_ge by lia. by rewrite Ht.
  - rewrite length_app. simpl. lia.
  - by rewrite length_insert.
Qed.

Lemma written_start dst : written [] (length dst) dst 0.
Proof. by repeat split. Qed.

(** ** Digits *)

Lemma add_byte_at s i v x : s !! i = Some x -> add_byte s i v = Some (u32 (v + x)).
Proof.
  intros Hx. unfold add_byte. rewrite decide_True by by eapply lookup_lt_Some.
  by rewrite Hx.
Qed.

Lemma add_byte_past s i v : (length s <= i)%nat -> add_byte s i v = Some v.
Proof. intros ?. unfold add_byte. by rewrite decide_False by lia. Qed.

Lemma digit_eq v k : 0 <= v -> 0 <= k -> digit v k = Some (char64 (v / 2 ^ k mod 64)).
Proof.
  intros Hv Hk. unfold digit, char64. change 0x3f with (Z.ones 6).
  rewrite Z.shiftr_div_pow2, Z.land_ones by lia. change (2 ^ 6) with 64.
  destruct (nth_lookup_or_length base64_table (Z.to_nat (v / 2 ^ k mod 64)) 0) as [|Hl];
    [done|].
  pose proof (Z.mod_pos_bound (v / 2 ^ k) 64 eq_refl). cbn in Hl. lia.
Qed.

(** The number a group makes; a missing byte counts zero. *)
Definition group (x y z : Z) : Z := x * 65536 + y * 256 + z.

Lemma group_digits x y z :
  is_byte x -> is_byte y -> is_byte z ->
  digit (group x y z) 18 = Some (char64 (x / 4)) /\
  digit (group x y z) 12 = Some (char64 (x mod 4 * 16 + y / 16)) /\
  digit (group x y z) 6 = Some (char64 (y mod 16 * 4 + z / 64)) /\
  digit (group x y z) 0 = Some (char64 (z mod 64)).
Proof.
  unfold is_byte, group. intros Hx Hy Hz.
  repeat split; (rewrite digit_eq by lia); do 2 f_equal.
  - change (2 ^ 18) with 262144. Z.div_mod_to_equations. lia.
  - change (2 ^ 12) with 4096. Z.div_mod_to_equations. lia.
  - change (2 ^ 6) with 64. Z.div_mod_to_equations. lia.
  - change (2 ^ 0) with 1. Z.div_mod_to_equations. lia.
Qed.

Lemma shift8 v : 0 <= v < 2 ^ 24 -> u32 (Z.shiftl v 8) = v * 256.
Proof. intros ?. rewrite Z.shiftl_mul_pow2 by lia. apply u32_small. lia. Qed.

(** ** The encoder *)

Ltac step_put H :=
  match goal with
  | |- context [put ?dst ?d ?x] =>
      let dst' := fresh "dst" in let E := fresh "E" in let H' := fresh "W" in
      destruct (written_put _ _ dst d x H) as (dst' & E & H');
      [rewrite ?length_app; simpl; lia|];
      rewrite E; cbn [mbind option_bind]; clear E H; rename H' into H
  end.

Lemma encode_break len dst d out n :
  written out n dst d -> (length out + length (break len) <= n)%nat ->
  exists dst' d',
    (if decide (len = 76%nat) then '(dst, d) ← put dst d 10; Some (dst, d, 0%nat)
     else Some (dst, d, len)) = Some (dst', d', column len) /\
    written (out ++ break len) n dst' d'.
Proof.
  intros W Hn. unfold break, column in *. case_decide; simpl in Hn.
  - step_put W. by eauto.
  - rewrite app_nil_r. by eauto.
Qed.

(** Bytes [x], [y], [z] are read at [i]; [k] says how many of them there are
    in the source. *)
Definition reads (s : list Z) (i k : nat) (x y z : Z) : Prop :=
  s !! i = Some x /\ (i + k <= length s)%nat /\ (k <= 2 -> length s = i + k)%nat /\
  (if decide (2 <= k)%nat then s !! S i = Some y else y = 0) /\
  (if decide (3 <= k)%nat then s !! S (S i) = Some z else z = 0).

Lemma reads_group s i k x y z :
  reads s i k x y z -> (1 <= k <= 3)%nat -> is_byte x -> is_byte y -> is_byte z ->
  add_byte s (S i) (u32 (Z.shiftl x 8)) = Some (x * 256 + y) /\
  add_byte s (S (S i)) (u32 (Z.shiftl (x * 256 + y) 8)) = Some (group x y z).
Proof.
  unfold is_byte, group. intros (Hx & Hle & Hl & Hy & Hz) Hk ? ? ?.
  rewrite !shift8 by lia. split.
  - destruct (decide (2 <= k)%nat).
    + rewrite (add_byte_at _ _ _ y) by done. f_equal. apply u32_small. lia.
    + subst y. rewrite add_byte_past by lia. f_equal. lia.
  - destruct (decide (3 <= k)%nat).
    + rewrite (add_byte_at _ _ _ z) by done. f_equal. rewrite u32_small; lia.
    + subst z. rewrite add_byte_past by lia. f_equal. lia.
Qed.

Definition group_chars (k : nat) (x y z : Z) : list Z :=
  [char64 (x / 4); char64 (x mod 4 * 16 + y / 16);
   (if decide (k = 1%nat) then 61 else char64 (y mod 16 * 4 + z / 64));
   (if decide (k <= 2)%nat then 61 else char64 (z mod 64))].

Lemma encode_group fuel s i len dst d out n x y z k :
  reads s i k x y z -> (1 <= k <= 3)%nat -> is_byte x -> is_byte y -> is_byte z ->
  written out n dst d -> (length out + length (break len) + 4 <= n)%nat ->
  exists dst' d',
    encode_loop (S fuel) s i len dst d =
      encode_loop fuel s (S (S (S i))) (column len + 4) dst' d' /\
    written (out ++ break len ++ group_chars k x y z) n dst' d'.
Proof.
  intros Hr Hk Bx By Bz W Hn.
  destruct (group_digits x y z Bx By Bz) as (D1 & D2 & D3 & D4).
  destruct (reads_group _ _ _ _ _ _ Hr Hk Bx By Bz) as [A1 A2].
  destruct Hr as (Hx & Hle & Hl & _).
  cbn [encode_loop]. rewrite decide_True by by eapply lookup_lt_Some.
  destruct (encode_break len dst d out n W) as (dst0 & d0 & E0 & W0); [lia|].
  rewrite E0. cbn [mbind option_bind]. rewrite Hx. cbn [mbind option_bind].
  rewrite A1. cbn [mbind option_bind]. rewrite A2. cbn [mbind option_bind].
  clear E0 W. rewrite D1. cbn [mbind option_bind]. step_put W0.
  rewrite D2. cbn [mbind option_bind]. step_put W0.
  assert ((if decide (length s + 1 < S (S (S i)))%nat then Some 61 else digit (group x y z) 6)
    = Some (if decide (k = 1%nat) then 61 else char64 (y mod 16 * 4 + z / 64))) as ->.
  { rewrite D3. repeat case_decide; done || lia. }
  cbn [mbind option_bind]. step_put W0.
  assert ((if decide (length s < S (S (S i)))%nat then Some 61 else digit (group x y z) 0)
    = Some (if decide (k <= 2)%nat then 61 else char64 (z mod 64))) as ->.
  { rewrite D4. repeat case_decide; done || lia. }
  cbn [mbind option_bind]. step_put W0.
  eexists _, _. split; [done|]. unfold group_chars. by rewrite <- !app_assoc in W0.
Qed.

Lemma encoded_group s i len r :
  drop i s = r -> r ≠ [] -> Forall is_byte r ->
  exists k x y z,
    (1 <= k <= 3)%nat /\ is_byte x /\ is_byte y /\ is_byte z /\ reads s i k x y z /\
    encoded len r = break len ++ group_chars k x y z ++ encoded (column len + 4) (drop 3 r).
Proof.
  intros Hr Hne Hb.
  assert (is_byte 0) as B0 by (unfold is_byte; lia).
  assert (length s - i = length r)%nat as Hlen by (rewrite <- Hr; by rewrite length_drop).
  assert (forall j, s !! (i + j)%nat = r !! j) as Hat by (intros j; by rewrite <- Hr, lookup_drop).
  pose proof (Hat 0%nat) as H0. pose proof (Hat 1%nat) as H1. pose proof (Hat 2%nat) as H2.
  replace (i + 0)%nat with i in H0 by lia. replace (i + 1)%nat with (S i) in H1 by lia.
  replace (i + 2)%nat with (S (S i)) in H2 by lia. clear Hat.
  destruct r as [|x [|y [|z r]]]; [done| | |]; simpl in Hlen, H0, H1, H2;
    decompose_Forall_hyps.
  - exists 1%nat, x, 0, 0. do 5 (split; [done || lia || (repeat split; done || lia)|]).
    cbn [encoded drop]. unfold group_chars. simpl. by rewrite Z.add_0_r.
  - exists 2%nat, x, y, 0. do 5 (split; [done || lia || (repeat split; done || lia)|]).
    cbn [encoded drop]. unfold group_chars. simpl. by rewrite Z.add_0_r.
  - exists 3%nat, x, y, z. do 5 (split; [done || lia || (repeat split; done || lia)|]). done.
Qed.

(** The loop as steps over the bytes left to encode. *)
Lemma encode_loop_correct fuel : forall s i len dst d out n r,
  drop i s = r -> (length r < fuel)%nat -> Forall is_byte r ->
  written out n dst d -> (length out + length (encoded len r) <= n)%nat ->
  exists dst' d',
    encode_loop fuel s i len dst d = Some (dst', d') /\
    written (out ++ encoded len r) n dst' d'.
Proof.
  induction fuel as [|fuel IH]; intros s i len dst d out n r Hr Hf Hb W Hn; [lia|].
  destruct (decide (r = [])) as [->|Hne].
  { exists dst, d. apply (f_equal length) in Hr. rewrite length_drop in Hr. simpl in Hr. cbn [encode_loop]. rewrite decide_False by lia.
    split; [done|]. cbn [encoded]. by rewrite app_nil_r. }
  destruct (encoded_group s i len r Hr Hne Hb) as (k & x & y & z & Hk & Bx & By & Bz & HR & E).
  rewrite E in Hn |- *. rewrite !length_app in Hn. simpl in Hn.
  destruct (encode_group fuel s i len dst d out n x y z k HR Hk Bx By Bz W ltac:(lia))
    as (dst' & d' & -> & W').
  destruct (IH s (S (S (S i))) (column len + 4)%nat dst' d'
    (out ++ break len ++ group_chars k x y z) n (drop 3 r)) as
    (dst'' & d'' & E' & W''); [| | |exact W'| |].
  - rewrite <- Hr, drop_drop. f_equal. lia.
  - rewrite length_drop. destruct r; [done|]. simpl in *. lia.
  - by apply Forall_drop.
  - rewrite !length_app. simpl. lia.
  - exists dst'', d''. split; [done|]. by rewrite <- !app_assoc in W''.
Qed.

Lemma length_encoded_from n : forall s len,
  (length s <= n)%nat -> (len <= 76)%nat -> (len mod 4 = 0)%nat ->
  let q := ((length s + 2) / 3 * 4)%nat in
  length (encoded len s) = if decide (q = 0)%nat then 0%nat else (q + (len + q - 1) / 76)%nat.
Proof.
  induction n as [|n IH]; intros s len Hs Hl Hm q.
  { destruct s; [done|simpl in Hs; lia]. }
  assert (len = 4 * (len / 4))%nat as Hl4 by lia.
  destruct s as [|x [|y [|z r]]]; [done| | |].
  1,2: cbn [encoded]; rewrite length_app; unfold break; subst q; simpl length;
    change ((1 + 2) / 3 * 4)%nat with 4%nat; change ((2 + 2) / 3 * 4)%nat with 4%nat;
    rewrite (decide_False (P := 4%nat = 0%nat)) by lia; case_decide; simpl; lia.
  cbn [encoded]. rewrite !length_app. simpl in Hs.
  rewrite IH; [|lia|unfold column; case_decide; lia|].
  2: { unfold column. case_decide; [done|]. by rewrite <- Nat.Div0.add_mod_idemp_r, Nat.add_0_r. }
  assert (q = (length r + 2) / 3 * 4 + 4)%nat as Hq.
  { subst q. simpl length. replace (S (S (S (length r))) + 2)%nat with (length r + 2 + 1 * 3)%nat by lia.
    rewrite Nat.div_add by lia. lia. }
  rewrite Hq. clearbody q. set (q' := ((length r + 2) / 3 * 4)%nat) in *. clearbody q'.
  rewrite (decide_False (P := (q' + 4 = 0)%nat)) by lia.
  unfold break, column. repeat case_decide; simpl; lia.
Qed.

(** The length the callers reserve is exact, the terminator included. *)
Lemma needed_encoded_exact s :
  Z.of_nat (S (length (encoded 0 s))) = my_base64_needed_encoded_length (Z.of_nat (length s)).
Proof.
  rewrite (length_encoded_from (length s)) by (done || lia).
  unfold my_base64_needed_encoded_length.
  rewrite (Z.quot_div_nonneg (Z.of_nat (length s) + 2)) by lia.
  case_decide as Hq.
  - destruct s; [done|]. simpl in Hq. lia.
  - rewrite Z.quot_div_nonneg by lia. lia.
Qed.

(** The largest length the callers pass is the largest one whose encoded
    length is an [int]; below it no intermediate result overflows. *)
Lemma encode_max_arg_length_tight n :
  0 <= n -> n + 2 < 2 ^ 31 ->
  (n <= my_base64_encode_max_arg_length <-> my_base64_needed_encoded_length n < 2 ^ 31) /\
  (n <= my_base64_encode_max_arg_length -> Z.quot (n + 2) 3 * 4 < 2 ^ 31).
Proof.
  intros Hn Hn'. unfold my_base64_encode_max_arg_length, my_base64_needed_encoded_length.
  rewrite (Z.quot_div_nonneg (n + 2)) by lia.
  destruct (decide (n = 0)) as [->|]; [by vm_compute|].
  rewrite Z.quot_div_nonneg by lia. lia.
Qed.

(** ** The decoder *)

Lemma from_table_byte ch :
  is_byte ch -> exists v, from_table ch = Some v /\ -2 <= v < 64.
Proof.
  intros Hc. destruct (lookup_lt_is_Some_2 from_base64_table (Z.to_nat ch)) as [v Hv].
  { change (length from_base64_table) with 256%nat. unfold is_byte in Hc. lia. }
  exists v. split; [done|].
  assert (Forall (fun v => -2 <= v < 64) from_base64_table) as HF
    by (apply (bool_decide_unpack _); by vm_compute).
  by apply (Forall_lookup_1 _ _ _ _ HF Hv).
Qed.

Lemma digit_of_range ch v : is_byte ch -> digit_of ch = Some v -> 0 <= v < 64.
Proof.
  intros (w & Hw & ?)%from_table_byte. unfold digit_of. rewrite Hw. simpl.
  case_decide; [done|]. intros [= <-]. lia.
Qed.

Section decoding.
Context (inp : list Z) (Hinp : Forall is_byte inp).

(** The decoder stands before the characters [cs]. *)
Definition at_chars (pos : nat) (cs : list Z) : Prop :=
  (pos <= length inp)%nat /\ strip (drop pos inp) = cs.

Definition set_src (dec : MY_BASE64_DECODER) (pos : nat) : MY_BASE64_DECODER :=
  mk_decoder pos (c dec) (error dec) (state dec) (mark dec).

Definition set_error (dec : MY_BASE64_DECODER) (e : bool) : MY_BASE64_DECODER :=
  mk_decoder (src dec) (c dec) e (state dec) (mark dec).

Lemma drop_inp_cons pos : (pos < length inp)%nat ->
  exists ch, inp !! pos = Some ch /\ is_byte ch /\ drop pos inp = ch :: drop (S pos) inp.
Proof.
  intros Hl. destruct (lookup_lt_is_Some_2 inp pos Hl) as [ch Hch]. exists ch.
  split; [done|]. split; [by eapply Forall_lookup_1|by apply drop_S].
Qed.

Lemma skip_loop_correct fuel : forall dec cs,
  at_chars (src dec) cs -> (length inp < src dec + fuel)%nat ->
  exists pos, at_chars pos cs /\ (src dec <= pos)%nat /\
    match cs with
    | [] => pos = length inp /\
        skip_loop inp fuel dec =
          Some (true, if decide (0 < state dec)%nat then set_error (set_src dec pos) true
                      else set_src dec pos)
    | ch :: cs' => inp !! pos = Some ch /\ is_byte ch /\ ~ is_blank ch /\
        at_chars (S pos) cs' /\ skip_loop inp fuel dec = Some (false, set_src dec pos)
    end.
Proof.
  induction fuel as [|fuel IH]; intros dec cs [Hle Hcs] Hf; [lia|]. cbn [skip_loop].
  case_decide as Hlt.
  - destruct (drop_inp_cons _ Hlt) as (ch & Hch & Bch & Hd). rewrite Hch. simpl.
    destruct (from_table_byte ch Bch) as (v & Hv & _). rewrite Hv. simpl.
    unfold strip in Hcs. rewrite Hd, filter_cons in Hcs.
    destruct (decide (v = -2)) as [Hv2|Hv2].
    + rewrite decide_False in Hcs by (unfold is_blank; rewrite Hv, Hv2; tauto).
      destruct (IH (set_src dec (S (src dec))) cs) as (pos & Hat & Hp & Hm);
        [by split; simpl; [lia|]|simpl; lia|].
      exists pos. split; [done|]. simpl in *. split; [lia|]. done.
    + assert (~ is_blank ch) by (unfold is_blank; rewrite Hv; congruence).
      rewrite decide_True in Hcs by done. subst cs. exists (src dec).
      split; [split; [done|]; unfold strip; by rewrite Hd, filter_cons, decide_True|].
      split; [lia|]. do 3 (split; [done|]). split; [by split; [lia|]|]. by destruct dec.
  - assert (src dec = length inp) as Hs by lia.
    rewrite Hs, drop_all in Hcs. subst cs. exists (length inp). simpl.
    split; [split; [lia|]; by rewrite drop_all|]. split; [lia|]. split; [done|].
    destruct dec. simpl in *. by subst.
Qed.

Lemma skip_spaces_eof dec :
  at_chars (src dec) [] ->
  my_base64_decoder_skip_spaces inp dec =
    Some (true, if decide (0 < state dec)%nat
                then set_error (set_src dec (length inp)) true
                else set_src dec (length inp)).
Proof.
  intros Hat. destruct (skip_loop_correct (S (length inp)) dec [] Hat) as (pos & _ & _ & -> & E);
    [lia|done].
Qed.

Lemma skip_spaces_char dec ch cs :
  at_chars (src dec) (ch :: cs) ->
  exists pos, inp !! pos = Some ch /\ is_byte ch /\ ~ is_blank ch /\
    at_chars pos (ch :: cs) /\ at_chars (S pos) cs /\ (src dec <= pos)%nat /\
    my_base64_decoder_skip_spaces inp dec = Some (false, set_src dec pos).
Proof.
  intros Hat. destruct (skip_loop_correct (S (length inp)) dec _ Hat)
    as (pos & ? & ? & ? & ? & ? & ? & ?); [lia|]. by exists pos.
Qed.

Lemma add_correct dec ch :
  inp !! src dec = Some ch -> is_byte ch ->
  my_base64_add inp dec = Some match digit_of ch with
    | Some v => (false, mk_decoder (S (src dec)) (u32 (u32 (Z.shiftl (c dec) 6) + v))
                          (error dec) (state dec) (mark dec))
    | None => (true, mk_decoder (S (src dec)) (u32 (Z.shiftl (c dec) 6)) true
                       (state dec) (mark dec))
    end.
Proof.
  intros Hch (v & Hv & _)%from_table_byte. unfold my_base64_add, digit_of.
  rewrite Hch. simpl. rewrite Hv. simpl. by case_decide.
Qed.

(** *** One character *)

Lemma getch_eof dec :
  at_chars (src dec) [] -> (state dec = 0)%nat ->
  my_base64_decoder_getch inp dec = Some (true, set_src dec (length inp)).
Proof.
  intros Hat Hs. unfold my_base64_decoder_getch. rewrite skip_spaces_eof by done. simpl.
  by rewrite decide_False by lia.
Qed.

Lemma getch_short dec :
  at_chars (src dec) [] -> (0 < state dec)%nat ->
  exists dec', my_base64_decoder_getch inp dec = Some (true, dec') /\
    error dec' = true /\ (src dec' <= length inp)%nat.
Proof.
  intros Hat Hs. unfold my_base64_decoder_getch. rewrite skip_spaces_eof by done. simpl.
  rewrite decide_True by lia. by eexists.
Qed.

Lemma getch_digit dec ch cs v :
  at_chars (src dec) (ch :: cs) -> digit_of ch = Some v -> mark dec = 0%nat ->
  exists pos, at_chars pos cs /\ my_base64_decoder_getch inp dec =
    Some (false, mk_decoder pos (u32 (u32 (Z.shiftl (c dec) 6) + v)) (error dec)
                   (S (state dec)) 0).
Proof.
  intros Hat Hd Hm. destruct (skip_spaces_char dec ch cs Hat)
    as (pos & Hp & Hb & _ & _ & Hat' & _ & E).
  exists (S pos). split; [done|]. unfold my_base64_decoder_getch. rewrite E. simpl.
  rewrite (add_correct _ ch) by done. rewrite Hd. simpl. by rewrite Hm.
Qed.

Lemma getch_digit' dec ch cs v :
  at_chars (src dec) (ch :: cs) -> digit_of ch = Some v -> mark dec = 0%nat ->
  0 <= c dec < 2 ^ 18 ->
  exists pos, at_chars pos cs /\ my_base64_decoder_getch inp dec =
    Some (false, mk_decoder pos (c dec * 64 + v) (error dec) (S (state dec)) 0) /\ 0 <= v < 64.
Proof.
  intros Hat Hd Hm Hc. destruct (getch_digit dec ch cs v) as (pos & Hp & E); [done..|].
  destruct (skip_spaces_char dec ch cs Hat) as (_ & _ & Hb & _).
  pose proof (digit_of_range ch v Hb Hd). exists pos. split; [done|]. split; [|done].
  rewrite E. do 3 f_equal. rewrite Z.shiftl_mul_pow2 by lia.
  rewrite (u32_small (c dec * 2 ^ 6)) by lia. rewrite u32_small; lia.
Qed.

Lemma getch_pad dec cs :
  at_chars (src dec) (61 :: cs) -> (2 <= state dec <= 3)%nat -> 0 <= c dec < 2 ^ 18 ->
  exists pos, at_chars pos cs /\ my_base64_decoder_getch inp dec =
    Some (false, mk_decoder pos (c dec * 64) false (S (state dec)) (S (mark dec))).
Proof.
  intros Hat Hs Hc. destruct (skip_spaces_char dec 61 cs Hat)
    as (pos & Hp & Hb & _ & _ & Hat' & _ & E).
  exists (S pos). split; [done|]. unfold my_base64_decoder_getch. rewrite E. simpl.
  rewrite (add_correct _ 61) by done. simpl. rewrite Nat.sub_0_r, Hp. simpl.
  rewrite Z.shiftl_mul_pow2, u32_small by lia. change (2 ^ 6) with 64.
  by destruct (state dec) as [|[|[|[|]]]]; try lia.
Qed.

(** A character that cannot stand here: a base-64 digit behind a padding
    mark, or another character, [=] allowed in the last two places. *)
Definition misplaced (dec : MY_BASE64_DECODER) (ch : Z) : Prop :=
  match digit_of ch with
  | Some _ => mark dec ≠ 0%nat
  | None => (state dec < 2)%nat \/ ((state dec <= 3)%nat /\ ch ≠ 61)
  end.

Lemma getch_misplaced dec ch cs :
  at_chars (src dec) (ch :: cs) -> misplaced dec ch ->
  exists dec', my_base64_decoder_getch inp dec = Some (true, dec') /\
    error dec' = true /\ (src dec' <= length inp)%nat.
Proof.
  intros Hat Hm. destruct (skip_spaces_char dec ch cs Hat)
    as (pos & Hp & Hb & _ & [? _] & [? _] & _ & E).
  unfold my_base64_decoder_getch. rewrite E. simpl.
  rewrite (add_correct _ ch) by done. unfold misplaced in Hm. simpl.
  destruct (digit_of ch) as [v|]; simpl.
  - rewrite decide_True by done. eexists. split; [done|]. simpl. split; [done|lia].
  - rewrite Nat.sub_0_r, Hp. simpl.
    destruct (state dec) as [|[|[|[|]]]]; try lia; rewrite ?decide_False by lia;
      (eexists; split; [done|]; simpl; split; [done|lia]).
Qed.

(** *** One group *)

(** [m] characters make the number, the padding marks and the rest [g]. *)
Definition group_read (m : nat) (dec : MY_BASE64_DECODER) (g : option (Z * nat * list Z)) : Prop :=
  match g with
  | Some (v, k, rest) =>
      exists pos s, getch_or inp m dec = Some (false, mk_decoder pos v false s k) /\
        at_chars pos rest
  | None =>
      exists dec', getch_or inp m dec = Some (true, dec') /\
        error dec' = true /\ (src dec' <= length inp)%nat
  end.

Lemma group_read_fail dec m :
  (exists dec', my_base64_decoder_getch inp dec = Some (true, dec') /\
     error dec' = true /\ (src dec' <= length inp)%nat) ->
  group_read (S m) dec None.
Proof. intros (dec' & E & ? & ?). exists dec'. cbn [getch_or]. by rewrite E. Qed.

Lemma group_read_step dec dec' m g :
  my_base64_decoder_getch inp dec = Some (false, dec') ->
  group_read m dec' g -> group_read (S m) dec g.
Proof. intros E. unfold group_read. cbn [getch_or]. by rewrite E. Qed.

(** The last character of a group, behind [k] padding marks. *)
Definition last_of (v : Z) (k : nat) (cs : list Z) : option (Z * nat * list Z) :=
  match cs with
  | [] => None
  | y :: rest =>
      match digit_of y with
      | Some vy => if decide (k = 0%nat) then Some (v * 64 + vy, 0%nat, rest) else None
      | None => if decide (y = 61) then Some (v * 64, S k, rest) else None
      end
  end.

Lemma read_last pos v k cs :
  at_chars pos cs -> 0 <= v < 2 ^ 18 -> group_read 1 (mk_decoder pos v false 3 k) (last_of v k cs).
Proof.
  intros Hat Hv. set (dec := mk_decoder pos v false 3 k). unfold last_of.
  destruct cs as [|y cs]; [apply group_read_fail, getch_short; [done|simpl; lia]|].
  assert (misplaced dec y -> group_read 1 dec None) as Hbad.
  { intros ?. apply group_read_fail. by eapply getch_misplaced. }
  unfold misplaced in Hbad. simpl in Hbad.
  destruct (digit_of y) as [vy|] eqn:Hy; case_decide; try (apply Hbad; lia || done).
  - destruct (getch_digit' dec y cs vy) as (p & Hp & E & ?); [done..|].
    eapply group_read_step; [done|]. by eexists _, _.
  - subst y. destruct (getch_pad dec cs) as (p & Hp & E); [done|simpl; lia..|].
    eapply group_read_step; [done|]. by eexists _, _.
Qed.

(** The last two characters of a group. *)
Definition pair_of (v : Z) (cs : list Z) : option (Z * nat * list Z) :=
  match cs with
  | [] => None
  | x :: cs =>
      match digit_of x with
      | Some vx => last_of (v * 64 + vx) 0 cs
      | None => if decide (x = 61) then last_of (v * 64) 1 cs else None
      end
  end.

Lemma read_pair pos v cs :
  at_chars pos cs -> 0 <= v < 2 ^ 12 -> group_read 2 (mk_decoder pos v false 2 0) (pair_of v cs).
Proof.
  intros Hat Hv. set (dec := mk_decoder pos v false 2 0). unfold pair_of.
  destruct cs as [|x cs]; [apply group_read_fail, getch_short; [done|simpl; lia]|].
  destruct (digit_of x) as [vx|] eqn:Hx; [|case_decide].
  - destruct (getch_digit' dec x cs vx) as (p & Hp & E & ?); [done..|simpl; lia|].
    eapply group_read_step; [done|]. apply read_last; [done|simpl; lia].
  - subst x. destruct (getch_pad dec cs) as (p & Hp & E); [done|simpl; lia..|].
    eapply group_read_step; [done|]. apply read_last; [done|simpl; lia].
  - apply group_read_fail, (getch_misplaced _ x cs); [done|].
    unfold misplaced. rewrite Hx. simpl. lia.
Qed.

(** The number the next group makes, its padding marks and what follows. *)
Definition group_of (cs : list Z) : option (Z * nat * list Z) :=
  match cs with
  | a :: b :: cs => va ← digit_of a; vb ← digit_of b; pair_of (va * 64 + vb) cs
  | _ => None
  end.

Lemma read_group pos cs :
  at_chars pos cs -> cs ≠ [] -> group_read 4 (mk_decoder pos 0 false 0 0) (group_of cs).
Proof.
  intros Hat Hne. set (dec := mk_decoder pos 0 false 0 0).
  destruct cs as [|a cs]; [done|]. unfold group_of.
  destruct (digit_of a) as [va|] eqn:Ha.
  2: { assert (group_read 4 dec None); [|by destruct cs].
       apply group_read_fail, (getch_misplaced _ a cs); [done|].
       unfold misplaced. rewrite Ha. simpl. lia. }
  destruct (getch_digit' dec a cs va) as (p & Hp & E & ?); [done..|].
  eapply group_read_step; [done|]. simpl. set (dec1 := mk_decoder _ _ _ _ _).
  destruct cs as [|b cs]; [apply group_read_fail, getch_short; [done|simpl; lia]|].
  destruct (digit_of b) as [vb|] eqn:Hb.
  2: { apply group_read_fail, (getch_misplaced _ b cs); [done|].
       unfold misplaced. rewrite Hb. simpl. lia. }
  destruct (getch_digit' dec1 b cs vb) as (p2 & Hp2 & E2 & ?); [done..|simpl; lia|].
  eapply group_read_step; [done|]. apply read_pair; [done|simpl; lia].
Qed.

End decoding.

Lemma byte_at_eq v k : 0 <= k -> byte_at v k = v / 2 ^ k mod 256.
Proof.
  intros ?. unfold byte_at. change 0xff with (Z.ones 8).
  by rewrite Z.shiftr_div_pow2, Z.land_ones by lia.
Qed.

Definition group_bytes (v : Z) : list Z := [byte_at v 16; byte_at v 8; byte_at v 0].

Lemma group_bytes_digits va vb vx vy :
  0 <= va < 64 -> 0 <= vb < 64 -> 0 <= vx < 64 -> 0 <= vy < 64 ->
  group_bytes (((va * 64 + vb) * 64 + vx) * 64 + vy) =
    [va * 4 + vb / 16; vb mod 16 * 16 + vx / 4; vx mod 4 * 64 + vy].
Proof.
  intros. unfold group_bytes. rewrite !byte_at_eq by lia.
  change (2 ^ 16) with 65536. change (2 ^ 8) with 256. change (2 ^ 0) with 1.
  repeat f_equal; Z.div_mod_to_equations; lia.
Qed.

(** The format, a group at a time. *)
Lemma decoded_group multi cs :
  Forall is_byte cs -> cs ≠ [] ->
  decoded multi cs =
    '(v, k, rest) ← group_of cs;
    t ← (if decide (k = 0%nat) then decoded multi rest
         else after_pad multi (decoded multi rest) rest);
    Some (take (3 - k) (group_bytes v) ++ t).
Proof.
  intros HF Hne. destruct cs as [|a [|b [|x [|y rest]]]]; [done|cbn..].
  - done.
  - by destruct (digit_of a), (digit_of b).
  - destruct (digit_of a), (digit_of b); try done. cbn.
    by destruct (digit_of x); repeat case_decide.
  - decompose_Forall_hyps.
    destruct (digit_of a) as [va|] eqn:Ha; [|done].
    destruct (digit_of b) as [vb|] eqn:Hb; [|done].
    apply digit_of_range in Ha, Hb; [|done..]. cbn.
    destruct (digit_of x) as [vx|] eqn:Hx, (digit_of y) as [vy|] eqn:Hy;
      cbn [last_of mbind option_bind];
      repeat match goal with H : digit_of _ = Some _ |- _ => apply digit_of_range in H; [|done] end.
    + cbn [mbind option_bind]. by rewrite group_bytes_digits.
    + case_decide; [|done]. cbn [mbind option_bind].
      rewrite <- (Z.add_0_r (_ * 64)), group_bytes_digits by lia. done.
    + by repeat case_decide.
    + repeat case_decide; try tauto. cbn [mbind option_bind].
      replace ((va * 64 + vb) * 64 * 64) with (((va * 64 + vb) * 64 + 0) * 64 + 0) by lia.
      rewrite group_bytes_digits by lia. done.
Qed.

Lemma group_of_shape cs v k rest :
  group_of cs = Some (v, k, rest) ->
  (k <= 2)%nat /\ length cs = (4 + length rest)%nat /\ exists g, cs = g ++ rest.
Proof.
  destruct cs as [|a [|b [|x [|y r]]]]; cbn; try done.
  - by destruct (digit_of a), (digit_of b).
  - destruct (digit_of a), (digit_of b); cbn; try done. by destruct (digit_of x); repeat case_decide.
  - destruct (digit_of a), (digit_of b); cbn; try done.
    destruct (digit_of x), (digit_of y); cbn; repeat case_decide; intros; simplify_eq;
      (split; [lia|]; split; [done|]; by eexists [_; _; _; _]).
Qed.

Lemma written_back out x n dst d k :
  written (out ++ x) n dst d -> (k <= length x)%nat ->
  written (out ++ take (length x - k) x) n dst (d - k).
Proof.
  intros (Ht & Hd & Hn) Hk. repeat split; [|rewrite length_app, length_take in *; lia|done].
  replace (d - k)%nat with ((d - k) `min` d)%nat by lia. rewrite <- take_take, Ht.
  rewrite take_app, firstn_all2 by (rewrite length_app in Hd; lia).
  f_equal. f_equal. rewrite length_app in Hd. lia.
Qed.

Section decoding_loop.
Context (inp : list Z) (Hinp : Forall is_byte inp) (multi : bool).

Lemma at_chars_bytes pos cs : at_chars inp pos cs -> Forall is_byte cs.
Proof.
  intros [_ <-]. pose proof (Forall_drop _ pos _ Hinp) as HF.
  apply Forall_forall. intros x [_ Hx]%list_elem_of_filter. by eapply Forall_forall in HF.
Qed.

(** One round of the loop. *)
Lemma decode_step fuel pos v0 s cs dst d out n v k rest :
  at_chars inp pos cs -> cs ≠ [] -> group_of cs = Some (v, k, rest) ->
  written out n dst d -> (length out + 3 <= n)%nat ->
  exists pos' s' dst' d',
    at_chars inp pos' rest /\ written (out ++ take (3 - k) (group_bytes v)) n dst' d' /\
    decode_loop inp multi (S fuel) (mk_decoder pos v0 false s 0) dst d =
      if decide (k ≠ 0%nat) then
        if negb multi then Some (mk_decoder pos' v false s' k, dst', d')
        else decode_loop inp multi fuel (mk_decoder pos' v false s' 0) dst' d'
      else decode_loop inp multi fuel (mk_decoder pos' v false s' 0) dst' d'.
Proof.
  intros Hat Hne Hg W Hn. pose proof (read_group inp Hinp pos cs Hat Hne) as Hrd.
  rewrite Hg in Hrd. destruct Hrd as (pos' & s' & E & Hat').
  apply group_of_shape in Hg as [Hk _].
  cbn [decode_loop src error mark]. rewrite E. cbn [mbind option_bind c mark src error state].
  step_put W. step_put W. step_put W. rewrite <- !app_assoc in W. simpl in W.
  exists pos', s'. apply (written_back _ _ _ _ _ k) in W; [|simpl; lia].
  case_decide.
  - eexists _, _. split; [done|]. split; [exact W|]. done.
  - assert (k = 0%nat) as -> by lia. rewrite Nat.sub_0_r in W. by eexists _, _.
Qed.

(** The loop decodes the characters it stands before, or leaves the error
    flag or unread characters behind. *)
Lemma decode_loop_correct fuel : forall pos v0 s cs dst d out n,
  at_chars inp pos cs -> (length cs < fuel)%nat ->
  written out n dst d -> (length out + 3 * (length cs / 4) <= n)%nat ->
  exists dec dst' d' left,
    decode_loop inp multi fuel (mk_decoder pos v0 false s 0) dst d = Some (dec, dst', d') /\
    (error dec = false -> at_chars inp (src dec) left) /\ (src dec <= length inp)%nat /\
    match decoded multi cs with
    | Some bytes => error dec = false /\ left = [] /\ written (out ++ bytes) n dst' d'
    | None => error dec = true \/ left ≠ []
    end.
Proof.
  induction fuel as [|fuel IH]; intros pos v0 s cs dst d out n Hat Hf W Hn; [lia|].
  destruct (decide (cs = [])) as [->|Hne].
  { exists (mk_decoder (length inp) 0 false 0 0), dst, d, [].
    cbn [decode_loop getch_or src error mark]. rewrite getch_eof by done.
    split; [done|]. split; [|split; [done|]; cbn; by rewrite app_nil_r].
    intros _. split; [done|]. by rewrite drop_all. }
  rewrite (decoded_group multi cs (at_chars_bytes _ _ Hat) Hne).
  pose proof (read_group inp Hinp pos cs Hat Hne) as Hrd.
  destruct (group_of cs) as [[[v k] rest]|] eqn:Hg.
  2: { destruct Hrd as (dec & E & He & Hl). exists dec, dst, d, [].
       cbn [decode_loop src error mark]. rewrite E. split; [done|].
       split; [congruence|]. split; [done|]. by left. }
  clear Hrd. pose proof (group_of_shape _ _ _ _ Hg) as (Hk & Hlen & _).
  assert (length cs / 4 = S (length rest / 4))%nat as Hq.
  { rewrite Hlen. replace (4 + length rest)%nat with (length rest + 1 * 4)%nat by lia.
    rewrite Nat.div_add by lia. lia. }
  destruct (decode_step fuel pos v0 s cs dst d out n v k rest Hat Hne Hg W ltac:(lia))
    as (pos' & s' & dst' & d' & Hat' & W' & ->).
  assert (length (out ++ take (3 - k) (group_bytes v)) <= length out + 3)%nat as Hl3.
  { rewrite length_app, length_take. simpl. lia. }
  destruct (IH pos' v s' rest dst' d' _ n Hat' ltac:(lia) W' ltac:(lia))
    as (dec & dst2 & d2 & left & E & HL & Hs & HD).
  cbn [mbind option_bind].
  assert (match (t ← decoded multi rest; Some (take (3 - k) (group_bytes v) ++ t)) with
    | Some bytes => error dec = false /\ left = [] /\ written (out ++ bytes) n dst2 d2
    | None => error dec = true \/ left ≠ [] end) as HD'.
  { destruct (decoded multi rest); cbn [mbind option_bind]; [by rewrite app_assoc|done]. }
  destruct (decide (k = 0%nat)) as [->|Hk0].
  { rewrite decide_False by lia. by exists dec, dst2, d2, left. }
  rewrite (decide_True (P := k ≠ 0%nat)) by done. unfold after_pad.
  destruct multi; cbn [negb]; [by exists dec, dst2, d2, left|].
  eexists _, dst', d', rest. split; [done|]. cbn [error src].
  split; [done|]. split; [by destruct Hat'|].
  destruct rest; cbn [mbind option_bind]; [|by right]. by rewrite app_nil_r.
Qed.

End decoding_loop.

Lemma length_strip inp pos cs : at_chars inp pos cs -> (length cs <= length inp)%nat.
Proof.
  intros [? <-]. unfold strip. etrans; [apply length_filter|]. rewrite length_drop. lia.
Qed.

Lemma length_decoded n : forall multi cs bytes,
  (length cs <= n)%nat -> Forall is_byte cs -> decoded multi cs = Some bytes ->
  (length bytes <= length cs)%nat.
Proof.
  induction n as [|n IH]; intros multi cs bytes Hn HF Hd.
  { destruct cs; [by simplify_eq/=|simpl in Hn; lia]. }
  destruct (decide (cs = [])) as [->|Hne]; [by simplify_eq/=|].
  rewrite decoded_group in Hd by done.
  destruct (group_of cs) as [[[v k] rest]|] eqn:Hg; [|done]. cbn [mbind option_bind] in Hd.
  apply group_of_shape in Hg as (Hk & Hl & g & ->). apply Forall_app in HF as [_ HF].
  destruct (if decide (k = 0%nat) then _ else _) as [t|] eqn:Ht; [|done].
  cbn [mbind option_bind] in Hd. injection Hd as <-.
  assert (length t <= length rest)%nat; [|rewrite length_app, length_take; simpl; lia].
  unfold after_pad in Ht.
  case_decide; [by eapply IH; [lia|..]|]. destruct multi; [by eapply IH; [lia|..]|].
  by destruct rest; simplify_eq.
Qed.

Lemma multiple_chunks_bit flags :
  negb (Z.land flags MY_BASE64_DECODE_ALLOW_MULTIPLE_CHUNKS =? 0) = Z.testbit flags 0.
Proof.
  unfold MY_BASE64_DECODE_ALLOW_MULTIPLE_CHUNKS. change 1 with (Z.ones 1).
  rewrite Z.land_ones, Z.bit0_odd, Zodd_mod by lia. change (2 ^ 1) with 2.
  pose proof (Z.mod_pos_bound flags 2 eq_refl).
  destruct (Z.eqb_spec (flags mod 2) 0), (Z.eqb_spec (flags mod 2) 1); simpl; done || lia.
Qed.

Lemma to_int_small z : - 2 ^ 31 <= z < 2 ^ 31 -> to_int z = z.
Proof. intros ?. unfold to_int. rewrite Z.mod_small; lia. Qed.

Lemma decode_correct inp dst flags :
  Forall is_byte inp -> Z.of_nat (length inp) + 3 < 2 ^ 31 ->
  my_base64_needed_decoded_length (Z.of_nat (length inp)) <= Z.of_nat (length dst) ->
  exists ret dst' end_ptr,
    my_base64_decode inp dst flags = Some (ret, dst', end_ptr) /\
    (end_ptr <= length inp)%nat /\
    match decoded (Z.testbit flags 0) (strip inp) with
    | Some bytes => ret = Z.of_nat (length bytes) /\ take (length bytes) dst' = bytes /\
                    end_ptr = length inp
    | None => ret = -1
    end.
Proof.
  intros HF Hlen Hdst. unfold my_base64_decode. rewrite multiple_chunks_bit.
  set (multi := Z.testbit flags 0). clearbody multi.
  assert (at_chars inp 0 (strip inp)) as Hat by (split; [lia|done]).
  pose proof (length_strip _ _ _ Hat) as Hls.
  unfold my_base64_needed_decoded_length in Hdst.
  rewrite to_int_small, Z.quot_div_nonneg in Hdst by lia.
  destruct (decode_loop_correct inp HF multi (S (length inp)) 0 0 0 (strip inp) dst 0 [] (length dst)
    Hat ltac:(lia) (written_start dst)) as (dec & dst' & d' & left & -> & HL & Hs & HD).
  { simpl. assert (length (strip inp) / 4 <= length inp / 4)%nat by (apply Nat.Div0.div_le_mono; lia).
    lia. }
  cbn [mbind option_bind]. set (dec0 := mk_decoder _ _ _ _ _).
  destruct (decoded multi (strip inp)) as [bytes|] eqn:Hdec.
  - destruct HD as (He & -> & W). rewrite skip_spaces_eof by auto.
    cbn [mbind option_bind]. rewrite decide_False by (simpl; lia).
    cbn [negb error src set_src dec0]. rewrite He.
    eexists _, _, _. split; [done|]. split; [done|].
    destruct W as (Ht & Hd & _). simpl in Ht, Hd. split; [|split; [by rewrite <- Hd|done]].
    rewrite to_int_small; [by rewrite Hd|].
    apply (length_decoded (length (strip inp))) in Hdec; [lia|lia|by eapply at_chars_bytes].
  - destruct (error dec) eqn:He.
    + assert (exists cs, at_chars inp (src dec0) cs) as [cs Hcs] by (eexists; by split).
      destruct (skip_loop_correct inp HF (S (length inp)) dec0 cs Hcs ltac:(lia))
        as (pos & [Hp _] & _ & Hm).
      unfold my_base64_decoder_skip_spaces.
      destruct cs as [|ch cs]; [destruct Hm as [_ ->]|destruct Hm as (_ & _ & _ & _ & ->)];
        (eexists _, _, _; split; [done|]; split; [simpl; lia|]; simpl; by rewrite ?He).
    + destruct HD as [?|Hleft]; [done|]. destruct left as [|ch left]; [done|].
      destruct (skip_spaces_char inp HF dec0 ch left) as (pos & _ & _ & _ & [? _] & _ & _ & ->);
        [by apply HL|].
      eexists _, _, _. split; [done|]. simpl. split; [lia|done].
Qed.

(** C32: The decoder on an input of bytes writes inside a destination of the
    length the callers reserve for it and returns; it accepts exactly the
    inputs whose characters, blanks left out, are groups of four base-64
    digits with padding where the format allows it, stores their bytes,
    returns their number and stops at the end of the input; it returns -1
    for every other input. *)
Theorem my_base64_decode_correct inp dst flags :
  Forall is_byte inp -> Z.of_nat (length inp) + 3 < 2 ^ 31 ->
  my_base64_needed_decoded_length (Z.of_nat (length inp)) <= Z.of_nat (length dst) ->
  exists ret dst' end_ptr,
    my_base64_decode inp dst flags = Some (ret, dst', end_ptr) /\
    (end_ptr <= length inp)%nat /\
    match decoded (Z.testbit flags 0) (strip inp) with
    | Some bytes => ret = Z.of_nat (length bytes) /\ take (length bytes) dst' = bytes /\
                    end_ptr = length inp
    | None => ret = -1
    end.
Proof. apply decode_correct. Qed.

(** The reserved length for the three largest arguments the callers pass is
    negative: the sum is converted to [int] before it is divided. *)
Lemma needed_decoded_length_overflow n :
  2 ^ 31 - 3 <= n <= my_base64_decode_max_arg_length -> my_base64_needed_decoded_length n < 0.
Proof.
  unfold my_base64_decode_max_arg_length. intros Hn.
  assert (n = 2147483645 \/ n = 2147483646 \/ n = 2147483647) as [->|[->| ->]] by lia;
    by vm_compute.
Qed.

(** ** Round trip *)

Lemma encode_correct s dst :
  Forall is_byte s ->
  my_base64_needed_encoded_length (Z.of_nat (length s)) <= Z.of_nat (length dst) ->
  exists dst', my_base64_encode s dst = Some (dst', length (encoded 0 s)) /\
    take (S (length (encoded 0 s))) dst' = encoded 0 s ++ [0].
Proof.
  intros Hb Hn. rewrite <- needed_encoded_exact in Hn. unfold my_base64_encode.
  destruct (encode_loop_correct (S (length s)) s 0 0 dst 0 [] (length dst) s)
    as (dst' & d' & -> & W); [done|lia|done|apply written_start|simpl; lia|].
  cbn [mbind option_bind]. simpl in W. pose proof W as (_ & Hd & _).
  step_put W. exists dst0. rewrite Hd. split; [done|].
  destruct W as (Ht & _). by rewrite <- Hd.
Qed.

Lemma char64_digit v :
  0 <= v < 64 -> is_byte (char64 v) /\ ~ is_blank (char64 v) /\ digit_of (char64 v) = Some v.
Proof.
  intros Hv. set (P v := bool_decide (0 <= char64 v < 256 /\ ~ is_blank (char64 v) /\
    digit_of (char64 v) = Some v)).
  assert (Forall (fun v => P v = true) (map Z.of_nat (seq 0 64))) as HF
    by (repeat constructor).
  eapply Forall_forall in HF; [exact (bool_decide_eq_true_1 _ HF)|].
  apply list_elem_of_fmap. exists (Z.to_nat v). split; [lia|]. apply elem_of_seq. lia.
Qed.

Lemma strip_digit v l : 0 <= v < 64 -> strip (char64 v :: l) = char64 v :: strip l.
Proof. intros (_ & Hb & _)%char64_digit. unfold strip. by rewrite filter_cons, decide_True. Qed.

Lemma strip_pad l : strip (61 :: l) = 61 :: strip l.
Proof. done. Qed.

Lemma strip_break len l : strip (break len ++ l) = strip l.
Proof. unfold break. by case_decide. Qed.

Lemma digit_char64 v : 0 <= v < 64 -> digit_of (char64 v) = Some v.
Proof. apply char64_digit. Qed.

(** What the encoder writes decodes to what it read. *)
Lemma decoded_encoded n : forall multi len s,
  (length s <= n)%nat -> Forall is_byte s -> decoded multi (strip (encoded len s)) = Some s.
Proof.
  assert (digit_of 61 = None) as D61 by done.
  assert (forall multi, after_pad multi (Some []) [] = Some []) as AP by by intros [].
  induction n as [|n IH]; intros multi len s Hn HF.
  { destruct s; [done|simpl in Hn; lia]. }
  destruct s as [|x [|y [|z r]]]; [done|..]; decompose_Forall_hyps;
    cbn [encoded]; rewrite ?strip_break; cbn [app]; unfold is_byte in *;
    rewrite !strip_digit, ?strip_pad by (Z.div_mod_to_equations; lia);
    cbn [decoded strip filter list_filter];
    rewrite !digit_char64, ?D61 by (Z.div_mod_to_equations; lia); cbn [mbind option_bind].
  - rewrite decide_True, AP by done. cbn. do 2 f_equal. Z.div_mod_to_equations. lia.
  - rewrite decide_True, AP by done. cbn. do 2 f_equal; [|f_equal]; Z.div_mod_to_equations; lia.
  - simpl in Hn. rewrite IH by (done || lia). cbn.
    do 2 f_equal; [|f_equal; [|f_equal]]; Z.div_mod_to_equations; lia.
Qed.

Lemma encoded_bytes n : forall len s,
  (length s <= n)%nat -> Forall is_byte s -> Forall is_byte (encoded len s).
Proof.
  assert (is_byte 10 /\ is_byte 61) as [B10 B61] by (unfold is_byte; lia).
  assert (forall v, 0 <= v < 64 -> is_byte (char64 v)) as Bc by (intros; by apply char64_digit).
  assert (forall len, Forall is_byte (break len)) as Bb by (intros; unfold break; case_decide; auto).
  induction n as [|n IH]; intros len s Hn HF.
  { destruct s; [done|simpl in Hn; lia]. }
  destruct s as [|x [|y [|z r]]]; [done|..]; simpl in Hn; decompose_Forall_hyps;
    cbn [encoded]; repeat (apply Forall_app; split);
    [done| |done| |done|]; repeat (apply Forall_cons; split);
    try (apply Bc; unfold is_byte in *; Z.div_mod_to_equations; lia);
    try (apply IH; [lia|]); done.
Qed.

(** The encoder writes the text of its input, lines of 76 characters and
    a terminating NUL, into exactly the number of cells the length function
    returns for it, reading and writing inside its buffers. *)
Theorem my_base64_encode_correct s dst :
  Forall is_byte s ->
  my_base64_needed_encoded_length (Z.of_nat (length s)) <= Z.of_nat (length dst) ->
  Z.of_nat (S (length (encoded 0 s))) = my_base64_needed_encoded_length (Z.of_nat (length s)) /\
  exists dst', my_base64_encode s dst = Some (dst', length (encoded 0 s)) /\
    take (S (length (encoded 0 s))) dst' = encoded 0 s ++ [0].
Proof. intros ? ?. split; [apply needed_encoded_exact|by apply encode_correct]. Qed.

(** C31: Decoding what the encoder wrote gives the bytes that were encoded,
    for every input whose encoded length is an [int] the decoder accepts,
    with either value of the flag. *)
Theorem my_base64_roundtrip s dst out flags :
  Forall is_byte s ->
  my_base64_needed_encoded_length (Z.of_nat (length s)) + 2 < 2 ^ 31 ->
  my_base64_needed_encoded_length (Z.of_nat (length s)) <= Z.of_nat (length dst) ->
  my_base64_needed_decoded_length (my_base64_needed_encoded_length (Z.of_nat (length s)) - 1)
    <= Z.of_nat (length out) ->
  exists dst' d out',
    my_base64_encode s dst = Some (dst', d) /\
    my_base64_decode (take d dst') out flags = Some (Z.of_nat (length s), out', d) /\
    take (length s) out' = s.
Proof.
  intros Hb Hmax Hdst Hout. destruct (encode_correct s dst Hb Hdst) as (dst' & E & Ht).
  rewrite <- needed_encoded_exact in Hmax, Hout.
  set (e := encoded 0 s) in *. exists dst', (length e).
  assert (take (length e) dst' = e) as Ht'.
  { replace (length e) with (length e `min` S (length e))%nat by lia.
    by rewrite <- take_take, Ht, take_app_length. }
  rewrite Ht'.
  destruct (decode_correct e out flags) as (ret & out' & p & ED & _ & HD).
  - by apply (encoded_bytes (length s)).
  - lia.
  - by replace (Z.of_nat (S (length e)) - 1) with (Z.of_nat (length e)) in Hout by lia.
  - unfold e in HD. rewrite (decoded_encoded (length s)) in HD by done.
    destruct HD as (-> & Ho & ->). by exists out'.
Qed.

(** ** Witnesses *)

Lemma my_base64_decode_correct_witness :
  exists dst' end_ptr,
    my_base64_decode [84; 81; 61; 61; 10] (replicate 6 0) 0 = Some (1, dst', end_ptr) /\
    take 1 dst' = [77].
Proof.
  destruct (my_base64_decode_correct [84; 81; 61; 61; 10] (replicate 6 0) 0)
    as (ret & dst' & p & E & _ & HD).
  - repeat constructor; unfold is_byte; lia.
  - vm_compute. reflexivity.
  - vm_compute. discriminate.
  - assert (decoded (Z.testbit 0 0) (strip [84; 81; 61; 61; 10]) = Some [77]) as Hd
      by (vm_compute; reflexivity).
    rewrite Hd in HD. destruct HD as (Hr & Ht & Hp). subst ret. exists dst', p. by split.
Defined.

Lemma my_base64_encode_correct_witness :
  exists dst', my_base64_encode [77; 97; 110; 33] (replicate 9 7) = Some (dst', 8%nat) /\
    take 9 dst' = [84; 87; 70; 117; 73; 81; 61; 61; 0].
Proof.
  destruct (my_base64_encode_correct [77; 97; 110; 33] (replicate 9 7)) as (_ & dst' & E & Ht).
  - repeat constructor; unfold is_byte; lia.
  - vm_compute. discriminate.
  - exists dst'. split; [exact E|exact Ht].
Defined.

Lemma my_base64_roundtrip_witness :
  exists dst' d out',
    my_base64_encode [0; 255; 16; 77] (replicate 9 7) = Some (dst', d) /\
    my_base64_decode (take d dst') (replicate 6 7) 0 = Some (4, out', d) /\
    take 4 out' = [0; 255; 16; 77].
Proof.
  apply (my_base64_roundtrip [0; 255; 16; 77] (replicate 9 7) (replicate 6 7) 0).
  - repeat constructor; unfold is_byte; lia.
  - vm_compute. reflexivity.
  - vm_compute. discriminate.
  - vm_compute. discriminate.
Defined.

End Base64.
