(* ===== verification/MyBit.v ===== *)
(** * Bit tricks (include/my_bit.h, mysys/my_bit.c)

    The inline functions on machine words that the rest of the server counts,
    rounds and reverses bits with.  A [w]-bit unsigned value is a [Z]; every
    shift left, sum and product is cut to its width where C cuts it. *)

From S2P Require Import Prelude.

#[local] Open Scope Z_scope.

Module MyBit.

(** A C condition: a value other than zero. *)
Definition nonzero (v : Z) : bool := negb (v =? 0).

Definition u8 (v : Z) : Z := v mod 2 ^ 8.
Definition u16 (v : Z) : Z := v mod 2 ^ 16.

(** ** Logarithms *)

Definition my_bit_log2_hex_digit (value : Z) : Z :=
  if nonzero (Z.land value 0x0C)
  then (if nonzero (Z.land value 0x08) then 3 else 2)
  else (if nonzero (Z.land value 0x02) then 1 else 0).

Definition my_bit_log2_uint8 (value : Z) : Z :=
  if nonzero (Z.land value 0xF0)
  then my_bit_log2_hex_digit (u8 (Z.shiftr value 4)) + 4
  else my_bit_log2_hex_digit value.

Definition my_bit_log2_uint16 (value : Z) : Z :=
  if nonzero (Z.land value 0xFF00)
  then my_bit_log2_uint8 (u8 (Z.shiftr value 8)) + 8
  else my_bit_log2_uint8 (u8 value).

Definition my_bit_log2_uint32 (value : Z) : Z :=
  if nonzero (Z.land value 0xFFFF0000)
  then my_bit_log2_uint16 (u16 (Z.shiftr value 16)) + 16
  else my_bit_log2_uint16 (u16 value).

Definition my_bit_log2_uint64 (value : Z) : Z :=
  if nonzero (Z.land value 0xFFFFFFFF00000000)
  then my_bit_log2_uint32 (u32 (Z.shiftr value 32)) + 32
  else my_bit_log2_uint32 (u32 value).

Definition my_bit_log2_size_t (value : Z) : Z := my_bit_log2_uint64 value.

(** ** Counting *)

Definition my_count_bits_uint32 (v : Z) : Z :=
  let v := u32 (v - Z.land (Z.shiftr v 1) 0x55555555) in
  let v := u32 (Z.land v 0x33333333 + Z.land (Z.shiftr v 2) 0x33333333) in
  Z.shiftr (u32 (Z.land (u32 (v + Z.shiftr v 4)) 0xF0F0F0F * 0x1010101)) 24.

Definition my_count_bits (x : Z) : Z :=
  my_count_bits_uint32 (u32 x) + my_count_bits_uint32 (u32 (Z.shiftr x 32)).

(** ** Powers of two *)

(** [v|= v >> n] *)
Definition or_shr (v n : Z) : Z := Z.lor v (Z.shiftr v n).

Definition my_round_up_to_next_power (v : Z) : Z :=
  let v := u32 (v - 1) in
  let v := or_shr v 1 in
  let v := or_shr v 2 in
  let v := or_shr v 4 in
  let v := or_shr v 8 in
  let v := or_shr v 16 in
  u32 (v + 1).

Definition my_clear_highest_bit (v : Z) : Z :=
  let w := Z.shiftr v 1 in
  let w := or_shr w 1 in
  let w := or_shr w 2 in
  let w := or_shr w 4 in
  let w := or_shr w 8 in
  let w := or_shr w 16 in
  Z.land v w.

(** ** Reversal *)

Definition _my_bits_reverse_table : list Z :=
  [ 0x00;0x80;0x40;0xC0;0x20;0xA0;0x60;0xE0;0x10;0x90;0x50;0xD0;0x30;0xB0;0x70;0xF0;
     0x08;0x88;0x48;0xC8;0x28;0xA8;0x68;0xE8;0x18;0x98;0x58;0xD8;0x38;0xB8;0x78;0xF8;
     0x04;0x84;0x44;0xC4;0x24;0xA4;0x64;0xE4;0x14;0x94;0x54;0xD4;0x34;0xB4;0x74;0xF4;
     0x0C;0x8C;0x4C;0xCC;0x2C;0xAC;0x6C;0xEC;0x1C;0x9C;0x5C;0xDC;0x3C;0xBC;0x7C;0xFC;
     0x02;0x82;0x42;0xC2;0x22;0xA2;0x62;0xE2;0x12;0x92;0x52;0xD2;0x32;0xB2;0x72;0xF2;
     0x0A;0x8A;0x4A;0xCA;0x2A;0xAA;0x6A;0xEA;0x1A;0x9A;0x5A;0xDA;0x3A;0xBA;0x7A;0xFA;
     0x06;0x86;0x46;0xC6;0x26;0xA6;0x66;0xE6;0x16;0x96;0x56;0xD6;0x36;0xB6;0x76;0xF6;
     0x0E;0x8E;0x4E;0xCE;0x2E;0xAE;0x6E;0xEE;0x1E;0x9E;0x5E;0xDE;0x3E;0xBE;0x7E;0xFE;
     0x01;0x81;0x41;0xC1;0x21;0xA1;0x61;0xE1;0x11;0x91;0x51;0xD1;0x31;0xB1;0x71;0xF1;
     0x09;0x89;0x49;0xC9;0x29;0xA9;0x69;0xE9;0x19;0x99;0x59;0xD9;0x39;0xB9;0x79;0xF9;
     0x05;0x85;0x45;0xC5;0x25;0xA5;0x65;0xE5;0x15;0x95;0x55;0xD5;0x35;0xB5;0x75;0xF5;
     0x0D;0x8D;0x4D;0xCD;0x2D;0xAD;0x6D;0xED;0x1D;0x9D;0x5D;0xDD;0x3D;0xBD;0x7D;0xFD;
     0x03;0x83;0x43;0xC3;0x23;0xA3;0x63;0xE3;0x13;0x93;0x53;0xD3;0x33;0xB3;0x73;0xF3;
     0x0B;0x8B;0x4B;0xCB;0x2B;0xAB;0x6B;0xEB;0x1B;0x9B;0x5B;0xDB;0x3B;0xBB;0x7B;0xFB;
     0x07;0x87;0x47;0xC7;0x27;0xA7;0x67;0xE7;0x17;0x97;0x57;0xD7;0x37;0xB7;0x77;0xF7;
     0x0F;0x8F;0x4F;0xCF;0x2F;0xAF;0x6F;0xEF;0x1F;0x9F;0x5F;0xDF;0x3F;0xBF;0x7F;0xFF].

Definition reversed (key : Z) : option Z := _my_bits_reverse_table !! Z.to_nat key.

Definition my_reverse_bits (key : Z) : option Z :=
  b0 ← reversed (Z.land key 255);
  b1 ← reversed (Z.land (Z.shiftr key 8) 255);
  b2 ← reversed (Z.land (Z.shiftr key 16) 255);
  b3 ← reversed (Z.shiftr key 24);
  Some (Z.lor (Z.lor (Z.lor (u32 (Z.shiftl b0 24)) (u32 (Z.shiftl b1 16)))
                     (u32 (Z.shiftl b2 8))) b3).

(** ** Masks *)

Definition my_set_bits (n : Z) : Z :=
  Z.lor (u64 (Z.shiftl (u64 (u64 (Z.shiftl 1 (n - 1)) - 1)) 1)) 1.

Definition last_byte_mask (bits : Z) : Z :=
  let used := Z.land (u32 (bits - 1)) 7 in
  u8 (u32 (Z.shiftl 2 used) - 1).

(** ** The lowest bit, the portable code *)

Definition last_bit : list Z := [32; 0; 1; 0; 2; 0; 1; 0; 3; 0; 1; 0; 2; 0; 1; 0].

Fixpoint first_bit_loop (fuel : nat) (n shift : Z) : option Z :=
  match fuel with
  | O => None
  | S fuel =>
      bit ← last_bit !! Z.to_nat (Z.land (Z.shiftr n shift) 0xF);
      if decide (bit = 32) then first_bit_loop fuel n (shift + 4) else Some (shift + bit)
  end.

(** A shift by 64 or more does not happen, 16 digits are enough. *)
Definition my_find_first_bit (n : Z) : option Z :=
  if decide (n = 0) then Some 64 else first_bit_loop 16 n 0.

(** ** Finite checks *)

Lemma forall_below n (P : Z -> Prop) `{forall v, Decision (P v)} :
  forallb (fun i => bool_decide (P (Z.of_nat i))) (seq 0 n) = true ->
  forall v, 0 <= v < Z.of_nat n -> P v.
Proof.
  rewrite forallb_forall. intros HP v Hv. specialize (HP (Z.to_nat v)).
  rewrite Z2Nat.id in HP by lia. eapply bool_decide_eq_true_1, HP, in_seq. lia.
Qed.

(** Proves a goal on a variable below [n] by evaluating it everywhere. *)
Ltac below n v :=
  pattern v;
  match goal with |- ?F v => refine (forall_below n F _ v _); [vm_compute; reflexivity|lia] end.

(** ** Logarithms are logarithms *)

Lemma bits_above v n i : 0 <= n <= i -> 0 <= v < 2 ^ n -> Z.testbit v i = false.
Proof. intros ? [? Hv]. eapply Z.bounded_iff_bits_nonneg; [..|exact Hv|]; lia. Qed.

Lemma land_high v n : 0 <= n -> 0 <= v < 2 ^ (2 * n) ->
  nonzero (Z.land v (Z.shiftl (Z.ones n) n)) = bool_decide (2 ^ n <= v).
Proof.
  intros Hn Hv. assert (0 < 2 ^ n) by (apply Z.pow_pos_nonneg; lia).
  assert (Z.land v (Z.shiftl (Z.ones n) n) = Z.shiftl (Z.shiftr v n) n) as ->.
  { apply Z.bits_inj'. intros i Hi. rewrite Z.land_spec, !Z.shiftl_spec by lia.
    destruct (Z.lt_ge_cases i n).
    - rewrite !(Z.testbit_neg_r _ (i - n)) by lia. by rewrite andb_false_r.
    - rewrite Z.shiftr_spec by lia. replace (i - n + n) with i by lia.
      destruct (Z.lt_ge_cases i (2 * n)).
      + rewrite Z.ones_spec_low by lia. by rewrite andb_true_r.
      + rewrite (bits_above v (2 * n)) by lia. done. }
  rewrite Z.shiftl_mul_pow2, Z.shiftr_div_pow2 by lia. unfold nonzero.
  case_bool_decide as Hle.
  - assert (1 <= v / 2 ^ n) by (apply Z.div_le_lower_bound; lia).
    destruct (Z.eqb_spec (v / 2 ^ n * 2 ^ n) 0); [nia|done].
  - rewrite Z.div_small by lia. done.
Qed.

(** The step from half a word to a word. *)
Lemma log2_halves (f : Z -> Z) v n :
  0 < n -> 0 <= v < 2 ^ (2 * n) ->
  (forall w, 0 <= w < 2 ^ n -> f w = Z.log2 w) ->
  (if nonzero (Z.land v (Z.shiftl (Z.ones n) n))
   then f (Z.shiftr v n mod 2 ^ n) + n else f (v mod 2 ^ n)) = Z.log2 v.
Proof.
  intros Hn Hv Hf. rewrite land_high by lia.
  assert (0 < 2 ^ n) by (apply Z.pow_pos_nonneg; lia).
  replace (2 * n) with (n + n) in Hv by lia. rewrite Z.pow_add_r in Hv by lia.
  case_bool_decide as Hle; simpl.
  - assert (0 <= Z.shiftr v n < 2 ^ n) as Hs.
    { rewrite Z.shiftr_div_pow2 by lia. split; [apply Z.div_pos; lia|].
      apply Z.div_lt_upper_bound; lia. }
    rewrite Z.mod_small, Hf by done. rewrite Z.log2_shiftr by lia.
    assert (n <= Z.log2 v) by (apply Z.log2_le_pow2; lia). lia.
  - rewrite Z.mod_small, Hf by lia. done.
Qed.

Lemma log2_uint8_correct v : 0 <= v < 2 ^ 8 -> my_bit_log2_uint8 v = Z.log2 v.
Proof. intros ?. below 256%nat v. Qed.

Lemma log2_uint16_correct v : 0 <= v < 2 ^ 16 -> my_bit_log2_uint16 v = Z.log2 v.
Proof. intros ?. apply (log2_halves _ v 8); [lia..|apply log2_uint8_correct]. Qed.

Lemma log2_uint32_correct v : 0 <= v < 2 ^ 32 -> my_bit_log2_uint32 v = Z.log2 v.
Proof. intros ?. apply (log2_halves _ v 16); [lia..|apply log2_uint16_correct]. Qed.

(** The logarithm of a 64-bit word is the index of its highest bit, and
    zero for the word zero. *)
Theorem my_bit_log2_uint64_correct v :
  0 <= v < 2 ^ 64 ->
  my_bit_log2_uint64 v = Z.log2 v /\
  (0 < v -> 2 ^ my_bit_log2_uint64 v <= v < 2 ^ (my_bit_log2_uint64 v + 1)).
Proof.
  intros Hv. assert (my_bit_log2_uint64 v = Z.log2 v) as ->
    by (apply (log2_halves _ v 32); [lia..|apply log2_uint32_correct]).
  split; [done|]. intros ?. by apply Z.log2_spec.
Qed.

Lemma my_bit_log2_uint64_correct_witness : my_bit_log2_uint64 3 = 1.
Proof. destruct (my_bit_log2_uint64_correct 3) as [-> _]; [lia|reflexivity]. Defined.

(** ** Smearing the highest bit *)

(** Bit [i] of [x] says whether [v] has a bit among the [n] bits from [i] on. *)
Definition smeared (n v x : Z) : Prop :=
  forall i, 0 <= i -> Z.testbit x i = true <-> exists j, i <= j < i + n /\ Z.testbit v j = true.

Lemma smeared_start v : smeared 1 v v.
Proof.
  intros i Hi. split; [intros; by exists i; split; [lia|]|].
  intros (j & ? & Hj). by replace i with j by lia.
Qed.

Lemma smeared_step n v x : 0 < n -> smeared n v x -> smeared (n + n) v (or_shr x n).
Proof.
  intros Hn Hx i Hi. unfold or_shr. rewrite Z.lor_spec, Z.shiftr_spec, orb_true_iff by done.
  rewrite (Hx i Hi), (Hx (i + n) ltac:(lia)). split.
  - intros [(j & ? & ?)|(j & ? & ?)]; exists j; (split; [lia|done]).
  - intros (j & ? & ?). destruct (Z.lt_ge_cases j (i + n)); [left|right]; exists j;
      (split; [lia|done]).
Qed.

Lemma smeared_32 v x : 0 < v < 2 ^ 32 -> smeared 32 v x -> x = Z.ones (Z.log2 v + 1).
Proof.
  intros Hv Hx. pose proof (Z.log2_nonneg v). apply Z.bits_inj'. intros i Hi.
  assert (Z.log2 v < 32) by (apply Z.log2_lt_pow2; lia).
  destruct (Z.lt_ge_cases (Z.log2 v) i).
  - rewrite Z.ones_spec_high by lia. apply not_true_is_false. rewrite (Hx i Hi).
    intros (j & ? & Hj). rewrite Z.bits_above_log2 in Hj by lia. done.
  - rewrite Z.ones_spec_low by lia. apply Hx; [done|]. exists (Z.log2 v).
    split; [lia|]. apply Z.bit_log2. lia.
Qed.

Lemma smear_chain v :
  0 < v < 2 ^ 32 ->
  or_shr (or_shr (or_shr (or_shr (or_shr v 1) 2) 4) 8) 16 = Z.ones (Z.log2 v + 1).
Proof.
  intros Hv. apply smeared_32; [done|].
  apply (smeared_step 16), (smeared_step 8), (smeared_step 4), (smeared_step 2),
    (smeared_step 1), smeared_start; lia.
Qed.

(** Rounding a 32-bit word up gives the least power of two that is not
    below it when that power is a 32-bit word, and zero otherwise. *)
Theorem my_round_up_to_next_power_correct v :
  0 <= v < 2 ^ 32 ->
  my_round_up_to_next_power v =
    if decide (1 <= v <= 2 ^ 31) then 2 ^ Z.log2_up v else 0.
Proof.
  intros Hv. unfold my_round_up_to_next_power.
  destruct (decide (v = 0)) as [->|]; [by vm_compute|].
  destruct (decide (v = 1)) as [->|]; [by vm_compute|].
  rewrite (u32_small (v - 1)) by lia. rewrite smear_chain by lia.
  rewrite Z.ones_equiv. replace (Z.log2 (v - 1) + 1) with (Z.log2_up v).
  2: { rewrite Z.log2_up_eqn by lia. rewrite <- Z.sub_1_r. lia. }
  replace (Z.pred (2 ^ Z.log2_up v) + 1) with (2 ^ Z.log2_up v) by lia.
  pose proof (Z.log2_up_nonneg v).
  case_decide.
  - apply u32_small. split; [apply Z.pow_nonneg; lia|]. apply Z.pow_lt_mono_r; [lia..|].
    enough (Z.log2_up v <= 31) by lia. apply Z.log2_up_le_pow2; lia.
  - assert (Z.log2_up v = 32) as ->; [|done]. 
    assert (Z.log2_up v <= 32) by (apply Z.log2_up_le_pow2; lia).
    assert (31 < Z.log2_up v) by (apply Z.log2_up_lt_pow2; lia). lia.
Qed.

Lemma my_round_up_to_next_power_correct_witness : my_round_up_to_next_power 1000 = 1024.
Proof. rewrite (my_round_up_to_next_power_correct 1000) by lia. reflexivity. Defined.

Lemma my_clear_highest_bit_correct v :
  0 < v < 2 ^ 32 -> my_clear_highest_bit v = v - 2 ^ Z.log2 v.
Proof.
  intros Hv. unfold my_clear_highest_bit. destruct (decide (v = 1)) as [->|]; [by vm_compute|].
  rewrite smear_chain by (rewrite Z.shiftr_div_pow2 by lia; change (2 ^ 1) with 2; dlia).
  rewrite Z.log2_shiftr by lia.
  assert (1 <= Z.log2 v) by (apply Z.log2_le_pow2; lia).
  replace (Z.max 0 (Z.log2 v - 1) + 1) with (Z.log2 v) by lia.
  rewrite Z.land_ones by lia. destruct (Z.log2_spec v) as [Hlo Hhi]; [lia|].
  rewrite Z.pow_succ_r in Hhi by lia.
  symmetry. apply (Z.mod_unique_pos _ _ 1); lia.
Qed.

(** ** Counting *)

(** The number of ones among the [n] low bits. *)
Fixpoint ones_below (n : nat) (v : Z) : Z :=
  match n with
  | O => 0
  | S n => Z.b2z (Z.odd v) + ones_below n (Z.div2 v)
  end.

Lemma ones_below_split a b v :
  0 <= v -> ones_below (a + b) v = ones_below a (v mod 2 ^ Z.of_nat a) + ones_below b (v / 2 ^ Z.of_nat a).
Proof.
  revert v. induction a as [|a IH]; intros v Hv.
  { simpl. by rewrite Z.div_1_r. }
  cbn [Nat.add ones_below]. rewrite IH by by apply Z.div2_nonneg.
  rewrite Nat2Z.inj_succ, Z.pow_succ_r by lia.
  assert (0 < 2 ^ Z.of_nat a) by (apply Z.pow_pos_nonneg; lia).
  rewrite !Z.div2_div, <- Z.div_div by lia.
  rewrite (Z.rem_mul_r v 2) by lia.
  assert (forall w, Z.odd (v mod 2 + 2 * w) = Z.odd v) as Hodd.
  { intros w. rewrite Z.odd_add_mul_2, !Zodd_mod. by rewrite Z.mod_mod by lia. }
  assert (forall w, (v mod 2 + 2 * w) / 2 = w) as Hdiv by (intros; dlia).
  rewrite Hodd, Hdiv. lia.
Qed.

(** A word is its low byte and the rest. *)
Lemma testbit_byte b y i :
  0 <= b < 256 -> 0 <= i ->
  Z.testbit (b + 256 * y) i = if decide (i < 8) then Z.testbit b i else Z.testbit y (i - 8).
Proof.
  intros Hb Hi.
  assert ((b + 256 * y) / 2 ^ 8 = y /\ (b + 256 * y) mod 2 ^ 8 = b) as [Hd Hm].
  { change (2 ^ 8) with 256. dlia. }
  case_decide.
  - rewrite <- Hm at 2. by rewrite Z.mod_pow2_bits_low by lia.
  - rewrite <- Hd at 2. rewrite Z.div_pow2_bits by lia. f_equal. lia.
Qed.

Lemma land_byte a x ma mx :
  0 <= a < 256 -> 0 <= ma < 256 ->
  Z.land (a + 256 * x) (ma + 256 * mx) = Z.land a ma + 256 * Z.land x mx.
Proof.
  intros Ha Hm. apply Z.bits_inj'. intros i Hi.
  assert (0 <= Z.land a ma < 256).
  { split; [apply Z.land_nonneg; lia|]. change 256 with (2 ^ 8). change 256 with (2 ^ 8) in Ha.
    destruct (Z.eq_dec (Z.land a ma) 0) as [->|]; [lia|].
    apply Z.bounded_iff_bits_nonneg; [lia|apply Z.land_nonneg; lia|]. intros j ?.
    rewrite Z.land_spec, (bits_above a 8) by lia. done. }
  rewrite Z.land_spec, !testbit_byte by done.
  case_decide; by rewrite Z.land_spec.
Qed.

(** The three steps of the count on one byte. *)
Definition pairs (b : Z) : Z := b - Z.land (b / 2) 0x55.
Definition nibbles (b : Z) : Z := Z.land (pairs b) 0x33 + Z.land (pairs b / 4) 0x33.

Lemma pairs_range b : 0 <= b < 256 -> 0 <= pairs b < 256.
Proof. intros ?. below 256%nat b. Qed.

Lemma pairs_shift b c : 0 <= b < 256 -> 0 <= c < 2 -> Z.land (b / 2 + 128 * c) 0x55 = b - pairs b.
Proof.
  intros Hb Hc. assert (c = 0 \/ c = 1) as [->| ->] by lia; below 256%nat b.
Qed.

Lemma nibbles_shift b c :
  0 <= b < 256 -> 0 <= c < 4 ->
  Z.land (pairs b / 4 + 64 * c) 0x33 = Z.land (pairs b / 4) 0x33.
Proof.
  intros Hb Hc. assert (c = 0 \/ c = 1 \/ c = 2 \/ c = 3) as [->|[->|[->| ->]]] by lia;
    below 256%nat b.
Qed.

Lemma nibbles_range b : 0 <= b < 256 -> 0 <= nibbles b <= 68 /\ nibbles b mod 16 <= 4.
Proof. intros ?. below 256%nat b. Qed.

Lemma nibbles_sum b c :
  0 <= b < 256 -> 0 <= c <= 4 ->
  Z.land (nibbles b + nibbles b / 16 + 16 * c) 0x0F = ones_below 8 b.
Proof.
  intros Hb Hc. assert (c = 0 \/ c = 1 \/ c = 2 \/ c = 3 \/ c = 4)
    as [->|[->|[->|[->| ->]]]] by lia; below 256%nat b.
Qed.

Lemma ones_byte_range b : 0 <= b < 256 -> 0 <= ones_below 8 b <= 8.
Proof. intros ?. below 256%nat b. Qed.

(** A word of four bytes. *)
Definition word4 (a b c d : Z) : Z := a + 256 * (b + 256 * (c + 256 * d)).

Lemma land_word4 a b c d ma mb mc md :
  0 <= a < 256 -> 0 <= b < 256 -> 0 <= c < 256 ->
  0 <= ma < 256 -> 0 <= mb < 256 -> 0 <= mc < 256 ->
  Z.land (word4 a b c d) (word4 ma mb mc md) =
    word4 (Z.land a ma) (Z.land b mb) (Z.land c mc) (Z.land d md).
Proof. intros. unfold word4. by rewrite !land_byte. Qed.

Lemma word4_split v : 0 <= v < 2 ^ 32 ->
  exists a b c d, 0 <= a < 256 /\ 0 <= b < 256 /\ 0 <= c < 256 /\ 0 <= d < 256 /\
    v = word4 a b c d.
Proof.
  intros Hv. exists (v mod 256), (v / 256 mod 256), (v / 65536 mod 256), (v / 16777216).
  unfold word4. repeat split; dlia.
Qed.

Lemma count_step1 a b c d :
  0 <= a < 256 -> 0 <= b < 256 -> 0 <= c < 256 -> 0 <= d < 256 ->
  Z.land (Z.shiftr (word4 a b c d) 1) 0x55555555 =
    word4 (a - pairs a) (b - pairs b) (c - pairs c) (d - pairs d).
Proof.
  intros. change 0x55555555 with (word4 0x55 0x55 0x55 0x55).
  replace (Z.shiftr (word4 a b c d) 1) with
    (word4 (a / 2 + 128 * (b mod 2)) (b / 2 + 128 * (c mod 2)) (c / 2 + 128 * (d mod 2)) (d / 2 + 128 * 0)).
  2: { rewrite Z.shiftr_div_pow2 by lia. unfold word4. change (2 ^ 1) with 2. dlia. }
  rewrite land_word4 by dlia. by rewrite !pairs_shift by dlia.
Qed.

Lemma count_step2 a b c d :
  0 <= a < 256 -> 0 <= b < 256 -> 0 <= c < 256 -> 0 <= d < 256 ->
  let v := word4 (pairs a) (pairs b) (pairs c) (pairs d) in
  Z.land v 0x33333333 + Z.land (Z.shiftr v 2) 0x33333333 =
    word4 (nibbles a) (nibbles b) (nibbles c) (nibbles d).
Proof.
  intros Ha Hb Hc Hd v. change 0x33333333 with (word4 0x33 0x33 0x33 0x33).
  pose proof (pairs_range a Ha). pose proof (pairs_range b Hb).
  pose proof (pairs_range c Hc). pose proof (pairs_range d Hd).
  replace (Z.shiftr v 2) with
    (word4 (pairs a / 4 + 64 * (pairs b mod 4)) (pairs b / 4 + 64 * (pairs c mod 4))
       (pairs c / 4 + 64 * (pairs d mod 4)) (pairs d / 4 + 64 * 0)).
  2: { rewrite Z.shiftr_div_pow2 by lia. unfold v, word4. change (2 ^ 2) with 4. dlia. }
  unfold v. rewrite !land_word4 by dlia. rewrite !nibbles_shift by dlia.
  unfold nibbles, word4. lia.
Qed.

Lemma count_step3 a b c d :
  0 <= a < 256 -> 0 <= b < 256 -> 0 <= c < 256 -> 0 <= d < 256 ->
  let v := word4 (nibbles a) (nibbles b) (nibbles c) (nibbles d) in
  Z.land (u32 (v + Z.shiftr v 4)) 0xF0F0F0F =
    word4 (ones_below 8 a) (ones_below 8 b) (ones_below 8 c) (ones_below 8 d).
Proof.
  intros Ha Hb Hc Hd v. change 0xF0F0F0F with (word4 0x0F 0x0F 0x0F 0x0F).
  destruct (nibbles_range a Ha), (nibbles_range b Hb), (nibbles_range c Hc), (nibbles_range d Hd).
  assert (v + Z.shiftr v 4 =
    word4 (nibbles a + nibbles a / 16 + 16 * (nibbles b mod 16))
      (nibbles b + nibbles b / 16 + 16 * (nibbles c mod 16))
      (nibbles c + nibbles c / 16 + 16 * (nibbles d mod 16))
      (nibbles d + nibbles d / 16 + 16 * 0)) as ->.
  { rewrite Z.shiftr_div_pow2 by lia. unfold v, word4. change (2 ^ 4) with 16. dlia. }
  rewrite u32_small by (unfold word4; dlia).
  rewrite land_word4 by dlia. by rewrite !nibbles_sum by dlia.
Qed.

Lemma ones_below_word4 a b c d :
  0 <= a < 256 -> 0 <= b < 256 -> 0 <= c < 256 -> 0 <= d < 256 ->
  ones_below 32 (word4 a b c d) =
    ones_below 8 a + ones_below 8 b + ones_below 8 c + ones_below 8 d.
Proof.
  intros. assert (forall n x y, 0 <= x < 256 -> 0 <= y ->
    ones_below (8 + n) (x + 256 * y) = ones_below 8 x + ones_below n y) as Hs.
  { intros n x y Hx Hy. rewrite ones_below_split by lia. change (2 ^ Z.of_nat 8) with 256.
    f_equal; f_equal; dlia. }
  unfold word4. rewrite (Hs 24%nat), (Hs 16%nat), (Hs 8%nat) by lia. lia.
Qed.

(** The product with [0x1010101] adds up the bytes in the top byte. *)
Lemma top_byte_sum a b c d :
  0 <= a <= 8 -> 0 <= b <= 8 -> 0 <= c <= 8 -> 0 <= d <= 8 ->
  u32 (word4 a b c d * 0x1010101) / 2 ^ 24 = a + b + c + d.
Proof.
  intros. unfold u32, word4.
  set (low := a + (a + b) * 256 + (a + b + c) * 65536).
  rewrite <- (Z.mod_unique_pos _ (2 ^ 32) (b + c + d + (c + d) * 256 + d * 65536)
                ((a + b + c + d) * 2 ^ 24 + low)) by (unfold low; lia).
  rewrite Z.div_add_l by lia. rewrite (Z.div_small low) by (unfold low; lia). lia.
Qed.

Lemma count_uint32_correct v : 0 <= v < 2 ^ 32 -> my_count_bits_uint32 v = ones_below 32 v.
Proof.
  intros (a & b & c & d & Ha & Hb & Hc & Hd & ->)%word4_split.
  unfold my_count_bits_uint32. rewrite count_step1 by done.
  pose proof (pairs_range a Ha). pose proof (pairs_range b Hb).
  pose proof (pairs_range c Hc). pose proof (pairs_range d Hd).
  rewrite (u32_small (_ - _)) by (unfold word4; lia).
  replace (word4 a b c d - _) with (word4 (pairs a) (pairs b) (pairs c) (pairs d))
    by (unfold word4; lia).
  rewrite count_step2 by done.
  destruct (nibbles_range a Ha), (nibbles_range b Hb), (nibbles_range c Hc), (nibbles_range d Hd).
  rewrite (u32_small (word4 _ _ _ _)) by (unfold word4; lia).
  rewrite count_step3, ones_below_word4 by done.
  pose proof (ones_byte_range a Ha). pose proof (ones_byte_range b Hb).
  pose proof (ones_byte_range c Hc). pose proof (ones_byte_range d Hd).
  rewrite Z.shiftr_div_pow2 by lia. by apply top_byte_sum.
Qed.

(** The parallel count of a 64-bit word is the number of its one bits. *)
Theorem my_count_bits_correct x :
  0 <= x < 2 ^ 64 -> my_count_bits x = ones_below 64 x.
Proof.
  intros Hx. unfold my_count_bits. rewrite (ones_below_split 32 32) by lia.
  change (Z.of_nat 32) with 32. rewrite !count_uint32_correct by apply u32_range.
  rewrite Z.shiftr_div_pow2, (u32_small (x / 2 ^ 32)) by (lia || dlia). done.
Qed.

Lemma my_count_bits_correct_witness : my_count_bits 0xF0F0000000000001 = 9.
Proof. rewrite (my_count_bits_correct 0xF0F0000000000001) by lia. reflexivity. Defined.

(** ** Reversal *)

Lemma reversed_byte b : 0 <= b < 256 ->
  exists r, reversed b = Some r /\ 0 <= r < 256 /\
    forall j, 0 <= j < 8 -> Z.testbit r j = Z.testbit b (7 - j).
Proof.
  intros Hb. destruct (lookup_lt_is_Some_2 _my_bits_reverse_table (Z.to_nat b)) as [r Hr].
  { change (length _my_bits_reverse_table) with 256%nat. lia. }
  assert (0 <= default 0 (reversed b) < 256 /\
    Forall (fun j => Z.testbit (default 0 (reversed b)) j = Z.testbit b (7 - j))
      [0; 1; 2; 3; 4; 5; 6; 7]) as [Hrange HF] by below 256%nat b.
  unfold reversed in *. rewrite Hr in *. exists r. split; [done|]. split; [done|].
  intros j Hj. rewrite Forall_forall in HF. apply HF.
  assert (j = 0 \/ j = 1 \/ j = 2 \/ j = 3 \/ j = 4 \/ j = 5 \/ j = 6 \/ j = 7) by lia.
  set_solver.
Qed.

Lemma lor_byte a x : 0 <= a < 256 -> Z.lor (Z.shiftl x 8) a = a + 256 * x.
Proof.
  intros Ha. apply Z.bits_inj'. intros i Hi. rewrite Z.lor_spec, testbit_byte by done.
  case_decide.
  - by rewrite Z.shiftl_spec_low by lia.
  - rewrite Z.shiftl_spec, (bits_above a 8) by lia. by rewrite orb_false_r.
Qed.

Lemma testbit_word4 a b c d i :
  0 <= a < 256 -> 0 <= b < 256 -> 0 <= c < 256 -> 0 <= i < 32 ->
  Z.testbit (word4 a b c d) i =
    if decide (i < 8) then Z.testbit a i else if decide (i < 16) then Z.testbit b (i - 8)
    else if decide (i < 24) then Z.testbit c (i - 16) else Z.testbit d (i - 24).
Proof.
  intros. unfold word4. rewrite testbit_byte by lia. case_decide; [done|].
  rewrite testbit_byte by lia. repeat case_decide; try lia; [done|..];
    (rewrite testbit_byte by lia); case_decide; try lia; f_equal; lia.
Qed.

(** Bit [i] of the reversed word is bit [31 - i] of the word. *)
Lemma my_reverse_bits_correct key :
  0 <= key < 2 ^ 32 ->
  exists r, my_reverse_bits key = Some r /\ 0 <= r < 2 ^ 32 /\
    forall i, 0 <= i < 32 -> Z.testbit r i = Z.testbit key (31 - i).
Proof.
  intros (a & b & c & d & Ha & Hb & Hc & Hd & ->)%word4_split.
  destruct (reversed_byte a Ha) as (ra & Ea & Ra & Ta), (reversed_byte b Hb) as (rb & Eb & Rb & Tb),
    (reversed_byte c Hc) as (rc & Ec & Rc & Tc), (reversed_byte d Hd) as (rd & Ed & Rd & Td).
  exists (word4 rd rc rb ra). unfold my_reverse_bits.
  change 255 with (Z.ones 8). rewrite !Z.land_ones, !Z.shiftr_div_pow2 by lia.
  replace (word4 a b c d mod 2 ^ 8) with a by (unfold word4; dlia).
  replace (word4 a b c d / 2 ^ 8 mod 2 ^ 8) with b by (unfold word4; dlia).
  replace (word4 a b c d / 2 ^ 16 mod 2 ^ 8) with c by (unfold word4; dlia).
  replace (word4 a b c d / 2 ^ 24) with d by (unfold word4; dlia).
  rewrite Ea. simpl. rewrite Eb. simpl. rewrite Ec. simpl. rewrite Ed. simpl.
  assert (forall x k, 0 <= x < 256 -> 0 <= k <= 24 -> u32 (Z.shiftl x k) = Z.shiftl x k) as Hsh.
  { intros x k Hx Hk. rewrite Z.shiftl_mul_pow2 by lia. apply u32_small.
    assert (0 < 2 ^ k <= 2 ^ 24) by (split; [apply Z.pow_pos_nonneg|apply Z.pow_le_mono_r]; lia).
    nia. }
  rewrite !Hsh by lia. split; [|split].
  - f_equal. unfold word4.
    rewrite <- !lor_byte by lia. rewrite !Z.shiftl_lor, !Z.shiftl_shiftl by lia. done.
  - unfold word4. lia.
  - intros i Hi. rewrite !testbit_word4 by lia.
    repeat case_decide; try lia; rewrite ?Ta, ?Tb, ?Tc, ?Td by lia; f_equal; lia.
Qed.

(** ** Masks *)

Lemma my_set_bits_correct n : 1 <= n <= 64 -> my_set_bits n = 2 ^ n - 1.
Proof. intros [Hn ?]. assert (0 <= n) by lia. revert Hn. below 65%nat n. Qed.

Lemma last_byte_mask_correct bits :
  last_byte_mask bits = 2 ^ ((bits - 1) mod 8 + 1) - 1.
Proof.
  unfold last_byte_mask. change 7 with (Z.ones 3).
  rewrite Z.land_ones by lia. change (2 ^ 3) with 8.
  assert (u32 (bits - 1) mod 8 = (bits - 1) mod 8) as ->.
  { unfold u32. change (2 ^ 32) with (8 * 2 ^ 29). dlia. }
  pose proof (Z.mod_pos_bound (bits - 1) 8 eq_refl). set (k := (bits - 1) mod 8) in *.
  clearbody k. below 8%nat k.
Qed.

(** ** The lowest bit *)

Definition lowest_bit (n r : Z) : Prop :=
  0 <= r /\ Z.testbit n r = true /\ forall j, 0 <= j < r -> Z.testbit n j = false.

Lemma last_bit_digit d : 0 <= d < 16 ->
  exists b, last_bit !! Z.to_nat d = Some b /\
    if decide (d = 0) then b = 32 else 0 <= b < 4 /\ Z.testbit d b = true /\
      forall j, 0 <= j < b -> Z.testbit d j = false.
Proof.
  intros Hd. destruct (lookup_lt_is_Some_2 last_bit (Z.to_nat d)) as [b Hb].
  { change (length last_bit) with 16%nat. lia. }
  exists b. split; [done|].
  assert (if decide (d = 0) then default 0 (last_bit !! Z.to_nat d) = 32
    else (0 <= default 0 (last_bit !! Z.to_nat d) < 4 /\
      Z.testbit d (default 0 (last_bit !! Z.to_nat d)) = true /\
      Forall (fun j => j < default 0 (last_bit !! Z.to_nat d) -> Z.testbit d j = false) [0; 1; 2])) as H.
  { destruct (decide (d = 0)) as [->|Hne]; [done|]. revert Hne. below 16%nat d. }
  rewrite Hb in H. simpl in H. case_decide; [done|]. destruct H as (? & ? & HF).
  split; [done|]. split; [done|]. intros j Hj. rewrite Forall_forall in HF. apply HF; [|lia].
  assert (j = 0 \/ j = 1 \/ j = 2) by lia. set_solver.
Qed.

Lemma first_bit_loop_correct fuel : forall n k,
  0 < n < 2 ^ 64 -> 0 <= k -> k + 4 * Z.of_nat fuel = 64 ->
  (forall j, 0 <= j < k -> Z.testbit n j = false) ->
  exists r, first_bit_loop fuel n k = Some r /\ lowest_bit n r.
Proof.
  induction fuel as [|fuel IH]; intros n k Hn Hk Hf Hlow.
  { exfalso. assert (n = 0); [|lia]. apply Z.bits_inj'. intros i Hi. rewrite Z.bits_0.
    destruct (Z.lt_ge_cases i k); [apply Hlow; lia|]. apply (bits_above n 64); lia. }
  cbn [first_bit_loop]. change 0xF with (Z.ones 4).
  rewrite Z.land_ones by lia. set (d := Z.shiftr n k mod 2 ^ 4).
  assert (forall j, 0 <= j < 4 -> Z.testbit d j = Z.testbit n (j + k)) as Hdig.
  { intros j Hj. unfold d. by rewrite Z.mod_pow2_bits_low, Z.shiftr_spec by lia. }
  destruct (last_bit_digit d) as (b & -> & Hb).
  { apply Z.mod_pos_bound. lia. }
  simpl. destruct (decide (d = 0)) as [Hd0|Hd0].
  - rewrite decide_True by done. apply IH; [done|lia..|].
    intros j Hj. destruct (Z.lt_ge_cases j k); [apply Hlow; lia|].
    replace j with (j - k + k) by lia. rewrite <- Hdig, Hd0 by lia. apply Z.bits_0.
  - destruct Hb as (? & Hbit & Hlt). rewrite decide_False by lia. eexists. split; [done|].
    split; [lia|]. split; [rewrite Z.add_comm, <- Hdig by lia; done|].
    intros j Hj. destruct (Z.lt_ge_cases j k); [apply Hlow; lia|].
    replace j with (j - k + k) by lia. rewrite <- Hdig by lia. apply Hlt. lia.
Qed.

Lemma my_find_first_bit_correct n :
  0 <= n < 2 ^ 64 ->
  exists r, my_find_first_bit n = Some r /\ if decide (n = 0) then r = 64 else lowest_bit n r.
Proof.
  intros Hn. unfold my_find_first_bit. case_decide; [by eexists|].
  apply first_bit_loop_correct; lia.
Qed.

End MyBit.
