(* ===== verification/Bitmap.v ===== *)
(** * Bitmaps (mysys/my_bitmap.c, include/my_bitmap.h)

    A [MY_BITMAP] is an array of 32-bit words that the code also accesses byte
    by byte; the byte view is the one of a little-endian machine.  The unused
    bits of the last word may have any value; [last_word_mask] has exactly
    these bits set.  A read or write outside the array makes an operation
    return [None].  A null [bitmap] pointer is the empty array. *)

From S2P Require Import Prelude MyBit.
Import MyBit.

#[local] Open Scope Z_scope.

Module Bitmap.

(** ** Words and bytes *)

(** [~w] on 32 bits. *)
Definition not32 (w : Z) : Z := Z.lxor w 0xFFFFFFFF.

(** Reading and writing byte [j] of a word through an [uchar] pointer. *)
Definition byte_of (w : Z) (j : nat) : Z := Z.land (Z.shiftr w (8 * Z.of_nat j)) 0xFF.

Definition with_byte (w : Z) (j : nat) (v : Z) : Z :=
  Z.lor (Z.land w (not32 (Z.shiftl 0xFF (8 * Z.of_nat j)))) (Z.shiftl v (8 * Z.of_nat j)).

(** The same for byte [k] of the array. *)
Definition get_byte (ws : list Z) (k : nat) : option Z :=
  w ← ws !! (k / 4)%nat; Some (byte_of w (k mod 4)).

Definition set_byte (ws : list Z) (k : nat) (v : Z) : option (list Z) :=
  w ← ws !! (k / 4)%nat; Some (<[(k / 4)%nat := with_byte w (k mod 4) v]> ws).

Fixpoint memset (ws : list Z) (k : nat) (v : Z) (n : nat) : option (list Z) :=
  match n with
  | O => Some ws
  | S n => ws ← set_byte ws k v; memset ws (S k) v n
  end.

(** ** The structure *)

Record MY_BITMAP := mk_bitmap {
  bitmap : list Z;
  last_word_ptr : Z;          (* index of the last word *)
  last_word_mask : Z;
  n_bits : nat
}.

Definition MY_BIT_NONE : Z := 2 ^ 32 - 1.

Definition set_words (map : MY_BITMAP) (ws : list Z) : MY_BITMAP :=
  mk_bitmap ws (last_word_ptr map) (last_word_mask map) (n_bits map).

Definition bitmap_buffer_size (bits : nat) : nat :=
  (Z.to_nat (u32 (Z.of_nat bits + 31) / 32) * 4)%nat.

Definition no_bytes_in_map (map : MY_BITMAP) : nat :=
  Z.to_nat (u32 (Z.of_nat (n_bits map) + 7) / 8).

Definition no_words_in_map (map : MY_BITMAP) : nat :=
  Z.to_nat (u32 (Z.of_nat (n_bits map) + 31) / 32).

Definition invers_last_byte_mask (bits : nat) : Z := Z.lxor (last_byte_mask (Z.of_nat bits)) 255.

(** The word with the bits behind a bit number set, of [bytes] bytes. *)
Definition mask_word (bytes : nat) (mask : Z) : Z :=
  match Z.land (Z.of_nat bytes) 3 with
  | 1 => with_byte 0xFFFFFFFF 0 mask
  | 2 => with_byte (with_byte 0xFFFFFFFF 0 0) 1 mask
  | 3 => with_byte (with_byte 0 2 mask) 3 0xFF
  | _ => with_byte 0 3 mask
  end.

Definition create_last_word_mask (map : MY_BITMAP) : MY_BITMAP :=
  let mask := invers_last_byte_mask (n_bits map) in
  mk_bitmap (bitmap map) (Z.of_nat (no_words_in_map map) - 1)
    (mask_word (no_bytes_in_map map) mask) (n_bits map).

Definition last_word_mask_of (bit : nat) : Z :=
  let n_bits := S bit in
  mask_word (Z.to_nat (u32 (Z.of_nat n_bits + 7) / 8)) (invers_last_byte_mask n_bits).

(** [bitmap_clear_all] and [bitmap_set_all]. *)
Definition bitmap_clear_all (map : MY_BITMAP) : option MY_BITMAP :=
  ws ← memset (bitmap map) 0 0 (4 * no_words_in_map map); Some (set_words map ws).

Definition bitmap_set_all (map : MY_BITMAP) : option MY_BITMAP :=
  ws ← memset (bitmap map) 0 0xFF (4 * no_words_in_map map); Some (set_words map ws).

(** [buf] is the caller's array; without one [alloc] is the outcome of the
    allocation, whose words have arbitrary values.  [true] is an error. *)
Definition my_bitmap_init (buf : option (list Z)) (n_bits : nat) (alloc : option (list Z)) :
    option (bool * option MY_BITMAP) :=
  match (match buf with Some b => Some b | None => alloc end) with
  | None => Some (true, None)
  | Some b =>
      map ← bitmap_clear_all (create_last_word_mask (mk_bitmap b 0 0 n_bits));
      Some (false, Some map)
  end.

Definition my_bitmap_free (map : MY_BITMAP) : MY_BITMAP := set_words map [].

(** ** Single bits *)

Definition bit_of (bit : nat) : Z := Z.shiftl 1 (Z.land (Z.of_nat bit) 7).

Definition bitmap_set_bit (map : MY_BITMAP) (bit : nat) : option MY_BITMAP :=
  b ← get_byte (bitmap map) (bit / 8);
  ws ← set_byte (bitmap map) (bit / 8) (u8 (Z.lor b (bit_of bit)));
  Some (set_words map ws).

Definition bitmap_flip_bit (map : MY_BITMAP) (bit : nat) : option MY_BITMAP :=
  b ← get_byte (bitmap map) (bit / 8);
  ws ← set_byte (bitmap map) (bit / 8) (u8 (Z.lxor b (bit_of bit)));
  Some (set_words map ws).

Definition bitmap_clear_bit (map : MY_BITMAP) (bit : nat) : option MY_BITMAP :=
  b ← get_byte (bitmap map) (bit / 8);
  ws ← set_byte (bitmap map) (bit / 8) (u8 (Z.land b (not32 (bit_of bit))));
  Some (set_words map ws).

Definition bitmap_is_set (map : MY_BITMAP) (bit : nat) : option bool :=
  b ← get_byte (bitmap map) (bit / 8); Some (nonzero (Z.land b (bit_of bit))).

Definition bitmap_fast_test_and_set (map : MY_BITMAP) (bitmap_bit : nat) :
    option (Z * MY_BITMAP) :=
  value ← get_byte (bitmap map) (bitmap_bit / 8);
  let bit := u8 (bit_of bitmap_bit) in
  let res := Z.land value bit in
  ws ← set_byte (bitmap map) (bitmap_bit / 8) (u8 (Z.lor value bit));
  Some (res, set_words map ws).

Definition bitmap_test_and_set (map : MY_BITMAP) (bitmap_bit : nat) : option (Z * MY_BITMAP) :=
  bitmap_fast_test_and_set map bitmap_bit.

Definition bitmap_fast_test_and_clear (map : MY_BITMAP) (bitmap_bit : nat) :
    option (Z * MY_BITMAP) :=
  byte ← get_byte (bitmap map) (bitmap_bit / 8);
  let bit := u8 (bit_of bitmap_bit) in
  let res := Z.land byte bit in
  ws ← set_byte (bitmap map) (bitmap_bit / 8) (u8 (Z.land byte (not32 bit)));
  Some (res, set_words map ws).

Definition bitmap_test_and_clear (map : MY_BITMAP) (bitmap_bit : nat) : option (Z * MY_BITMAP) :=
  bitmap_fast_test_and_clear map bitmap_bit.

(** ** Prefixes *)

Definition bitmap_set_prefix (map : MY_BITMAP) (prefix_size : nat) : option MY_BITMAP :=
  let prefix_size := Nat.min prefix_size (n_bits map) in
  let prefix_bytes := (prefix_size / 8)%nat in
  ws ← (if decide (prefix_bytes ≠ 0%nat) then memset (bitmap map) 0 0xff prefix_bytes
        else Some (bitmap map));
  let m := prefix_bytes in
  let prefix_bits := Z.land (Z.of_nat prefix_size) 7 in
  '(ws, m, prefix_bytes) ←
    (if decide (prefix_bits ≠ 0) then
       ws ← set_byte ws m (u8 (Z.shiftl 1 prefix_bits - 1));
       Some (ws, S m, S prefix_bytes)
     else Some (ws, m, prefix_bytes));
  let d := (no_bytes_in_map map - prefix_bytes)%nat in
  ws ← (if decide (d ≠ 0%nat) then memset ws m 0 d else Some ws);
  Some (set_words map ws).

(** The first index from [i] on, below [stop], where [cond] holds, or [stop]. *)
Fixpoint find_from (cond : nat -> option bool) (fuel : nat) (i stop : nat) : option nat :=
  match fuel with
  | O => None
  | S fuel =>
      if decide (i < stop)%nat then
        c ← cond i;
        if (c : bool) then Some i else find_from cond fuel (S i) stop
      else Some i
  end.

(** A [while] loop that leaves the function when [cond] holds for one of the
    indices. *)
Definition find_index (cond : nat -> option bool) (i stop : nat) : option nat :=
  find_from cond (S (stop - i)) i stop.

Definition bitmap_is_prefix (map : MY_BITMAP) (prefix_size : nat) : option bool :=
  let prefix_mask := last_byte_mask (Z.of_nat prefix_size) in
  if decide (prefix_size = 0%nat) then Some true else
  let m := bitmap map in
  let end_prefix := ((prefix_size - 1) / 8)%nat in
  i ← find_index (fun k => b ← get_byte m k; Some (negb (b =? 0xff))) 0 end_prefix;
  if decide (i < end_prefix)%nat then Some false else
  let stop := (no_bytes_in_map map - 1)%nat in
  b ← get_byte m i;
  if decide (i = stop) then
    Some (Z.land b (last_byte_mask (Z.of_nat (n_bits map))) =? prefix_mask)
  else if negb (b =? prefix_mask) then Some false else
  i ← find_index (fun k => b ← get_byte m k; Some (negb (b =? 0))) (S i) stop;
  if decide (i < stop)%nat then Some false else
  b ← get_byte m i;
  Some (Z.land b (last_byte_mask (Z.of_nat (n_bits map))) =? 0).

Definition bitmap_set_above (map : MY_BITMAP) (from_byte : nat) (use_bit : bool) :
    option MY_BITMAP :=
  let use_byte := if use_bit then 0xff else 0 in
  let stop := Z.to_nat (u32 (Z.of_nat (n_bits map) + 7) / 8) in
  ws ← memset (bitmap map) from_byte use_byte (stop - from_byte);
  Some (set_words map ws).

(** ** Tests *)

(** [*p] for a pointer into the words. *)
Definition word_at (ws : list Z) (p : Z) : option Z :=
  if decide (p < 0) then None else ws !! Z.to_nat p.

(** The loop over the words before the last one, then the test of the last. *)
Definition words_test (cond : nat -> option bool) (last : nat -> option bool) (map : MY_BITMAP)
    (found : bool) : option bool :=
  let stop := Z.to_nat (last_word_ptr map) in
  i ← find_index cond 0 stop;
  if decide (i < stop)%nat then Some found else last i.

Definition bitmap_is_set_all (map : MY_BITMAP) : option bool :=
  words_test (fun i => w ← bitmap map !! i; Some (negb (w =? 0xFFFFFFFF)))
    (fun i => w ← bitmap map !! i; Some (Z.lor w (last_word_mask map) =? 0xFFFFFFFF)) map false.

Definition bitmap_is_clear_all (map : MY_BITMAP) : option bool :=
  words_test (fun i => w ← bitmap map !! i; Some (nonzero w))
    (fun i => w ← bitmap map !! i; Some (Z.land w (not32 (last_word_mask map)) =? 0)) map false.

Definition bitmap_is_subset (map1 map2 : MY_BITMAP) : option bool :=
  words_test
    (fun i => w1 ← bitmap map1 !! i; w2 ← bitmap map2 !! i; Some (nonzero (Z.land w1 (not32 w2))))
    (fun i => w1 ← bitmap map1 !! i; w2 ← bitmap map2 !! i;
       Some (negb (nonzero (Z.land (Z.land w1 (not32 w2)) (not32 (last_word_mask map1))))))
    map1 false.

Definition bitmap_is_overlapping (map1 map2 : MY_BITMAP) : option bool :=
  words_test
    (fun i => w1 ← bitmap map1 !! i; w2 ← bitmap map2 !! i; Some (nonzero (Z.land w1 w2)))
    (fun i => w1 ← bitmap map1 !! i; w2 ← bitmap map2 !! i;
       Some (nonzero (Z.land (Z.land w1 w2) (not32 (last_word_mask map1)))))
    map1 true.

Definition bitmap_union_is_set_all (map1 map2 : MY_BITMAP) : option bool :=
  words_test
    (fun i => w1 ← bitmap map1 !! i; w2 ← bitmap map2 !! i;
       Some (negb (Z.lor w1 w2 =? 0xFFFFFFFF)))
    (fun i => w1 ← bitmap map1 !! i; w2 ← bitmap map2 !! i;
       Some (negb (Z.lor (Z.lor w1 w2) (last_word_mask map1) =? 0xFFFFFFFF)))
    map1 false.

(** [memcmp] of all words but the last, then the last ones without the unused
    bits. *)
Definition bitmap_cmp (map1 map2 : MY_BITMAP) : option bool :=
  let stop := (4 * (no_words_in_map map1 - 1))%nat in
  i ← find_index (fun k => b1 ← get_byte (bitmap map1) k; b2 ← get_byte (bitmap map2) k;
                           Some (negb (b1 =? b2))) 0 stop;
  if decide (i < stop)%nat then Some false else
  w1 ← word_at (bitmap map1) (last_word_ptr map1);
  w2 ← word_at (bitmap map2) (last_word_ptr map2);
  Some (Z.lor w1 (last_word_mask map1) =? Z.lor w2 (last_word_mask map2)).

(** ** Operations on all words *)

(** [while (to < end) *to++ op= *from++]. *)
Fixpoint update_words (op : Z -> Z -> Z) (to from : list Z) (i n : nat) : option (list Z) :=
  match n with
  | O => Some to
  | S n =>
      x ← to !! i; y ← from !! i;
      update_words op (<[i := op x y]> to) from (S i) n
  end.

(** The operations with [while (to <= end)], [end= map->last_word_ptr]. *)
Definition update_all (op : Z -> Z -> Z) (map map2 : MY_BITMAP) : option MY_BITMAP :=
  ws ← update_words op (bitmap map) (bitmap map2) 0 (Z.to_nat (last_word_ptr map + 1));
  Some (set_words map ws).

Definition bitmap_subtract := update_all (fun x y => Z.land x (not32 y)).
Definition bitmap_union := update_all Z.lor.
Definition bitmap_xor := update_all Z.lxor.
Definition bitmap_copy := update_all (fun _ y => y).
Definition bitmap_invert (map : MY_BITMAP) : option MY_BITMAP :=
  update_all (fun x _ => Z.lxor x 0xFFFFFFFF) map map.

Definition bitmap_intersect (map map2 : MY_BITMAP) : option MY_BITMAP :=
  let len := no_words_in_map map in
  let len2 := no_words_in_map map2 in
  let n := Nat.min len len2 in
  ws ← update_words Z.land (bitmap map) (bitmap map2) 0 n;
  if decide (len2 <= len)%nat then
    w ← word_at ws (Z.of_nat n - 1);
    let ws := <[(n - 1)%nat := Z.land w (not32 (last_word_mask map2))]> ws in
    ws ← update_words (fun _ _ => 0) ws ws n (len - len2);
    Some (set_words map ws)
  else Some (set_words map ws).

(** [for (j= 0; cur_res && j < bitmap_count; j++) cur_res&= ...]. *)
Fixpoint and_words (maps : list MY_BITMAP) (i : nat) (cur_res : Z) : option Z :=
  match maps with
  | [] => Some cur_res
  | m :: maps =>
      if cur_res =? 0 then Some cur_res else
      w ← bitmap m !! i; and_words maps i (Z.land cur_res w)
  end.

Definition bitmap_exists_intersection (bitmap_array : list MY_BITMAP) (start_bit end_bit : nat) :
    option bool :=
  let start_idx := (start_bit / 8 / 4)%nat in
  let end_idx := (end_bit / 8 / 4)%nat in
  i ← find_index (fun i => r ← and_words bitmap_array i 0xFFFFFFFF; Some (nonzero r))
        start_idx end_idx;
  if decide (i < end_idx)%nat then Some true else
  r ← and_words bitmap_array end_idx (not32 (last_word_mask_of end_bit));
  Some (nonzero r).

Fixpoint count_words (ws : list Z) (i n : nat) (res : Z) : option Z :=
  match n with
  | O => Some res
  | S n => w ← ws !! i; count_words ws (S i) n (u32 (res + my_count_bits_uint32 w))
  end.

Definition bitmap_bits_set (map : MY_BITMAP) : option Z :=
  res ← count_words (bitmap map) 0 (Z.to_nat (last_word_ptr map)) 0;
  w ← word_at (bitmap map) (last_word_ptr map);
  Some (u32 (res + my_count_bits_uint32 (Z.land w (not32 (last_word_mask map))))).

(** ** Searching *)

(** The first of the [n] positions from [i] on with [p]; the C loop has no
    bound. *)
Fixpoint first_pos (p : nat -> bool) (n i : nat) : option nat :=
  match n with
  | O => None
  | S n => if p i then Some i else first_pos p n (S i)
  end.

Definition get_first_set (value : Z) (word_pos : nat) : option Z :=
  byte_pos ← first_pos (fun j => nonzero (byte_of value j)) 4 0;
  let byte_value := byte_of value byte_pos in
  bit_pos ← first_pos (fun k => nonzero (Z.land byte_value (Z.shiftl 1 (Z.of_nat k)))) 8 0;
  Some (u32 (Z.of_nat (word_pos * 32 + byte_pos * 8 + bit_pos))).

Definition bitmap_get_first_set (map : MY_BITMAP) : option Z :=
  let stop := Z.to_nat (last_word_ptr map) in
  i ← find_index (fun i => w ← bitmap map !! i; Some (nonzero w)) 0 stop;
  w ← bitmap map !! i;
  if decide (i < stop)%nat then get_first_set w i
  else if negb (nonzero (Z.land w (not32 (last_word_mask map)))) then Some MY_BIT_NONE
  else get_first_set w i.

(** [for (i= 0; i < n; i++) ptr[i]= 0]. *)
Fixpoint clear_bytes (w : Z) (n : nat) : Z :=
  match n with O => w | S n => with_byte (clear_bytes w n) n 0 end.

Definition bitmap_get_next_set (map : MY_BITMAP) (bitmap_bit : nat) : option Z :=
  let stop := Z.to_nat (last_word_ptr map) in
  let bitmap_bit := Z.to_nat (u32 (Z.of_nat bitmap_bit + 1)) in
  if decide (n_bits map <= bitmap_bit)%nat then Some MY_BIT_NONE else
  let word_pos := (bitmap_bit / 32)%nat in
  first_word ← bitmap map !! word_pos;
  let byte_to_mask := (bitmap_bit mod 32 / 8)%nat in
  let first_word := clear_bytes first_word byte_to_mask in
  let first_word :=
    with_byte first_word byte_to_mask
      (u8 (Z.land (byte_of first_word byte_to_mask)
             (Z.shiftl 0xFF (Z.land (Z.of_nat bitmap_bit) 7)))) in
  if decide (word_pos = stop) then
    if nonzero (Z.land first_word (not32 (last_word_mask map)))
    then get_first_set first_word word_pos else Some MY_BIT_NONE
  else if nonzero first_word then get_first_set first_word word_pos else
  i ← find_index (fun i => w ← bitmap map !! i; Some (nonzero w)) (S word_pos) stop;
  w ← bitmap map !! i;
  if decide (i < stop)%nat then get_first_set w i
  else if negb (nonzero (Z.land w (not32 (last_word_mask map)))) then Some MY_BIT_NONE
  else get_first_set w i.

(** The first bit that is not set; sets the unused bits of the last word. *)
Definition bitmap_get_first (map : MY_BITMAP) : option (Z * MY_BITMAP) :=
  let stop := Z.to_nat (last_word_ptr map) in
  lw ← word_at (bitmap map) (last_word_ptr map);
  let ws := <[stop := Z.lor lw (last_word_mask map)]> (bitmap map) in
  let map := set_words map ws in
  i ← find_index (fun i => w ← ws !! i; Some (negb (w =? 0xFFFFFFFF))) 0 stop;
  w ← ws !! i;
  if decide (¬ (i < stop)%nat ∧ Z.lor w (last_word_mask map) = 0xFFFFFFFF)
  then Some (MY_BIT_NONE, map) else
  j ← first_pos (fun j => negb (byte_of w j =? 0xFF)) 4 0;
  k ← first_pos (fun k => negb (nonzero (Z.land (byte_of w j) (Z.shiftl 1 (Z.of_nat k))))) 8 0;
  Some (u32 (Z.of_nat (i * 32 + j * 8 + k)), map).

Definition bitmap_set_next (map : MY_BITMAP) : option (Z * MY_BITMAP) :=
  '(bit_found, map) ← bitmap_get_first map;
  if decide (bit_found ≠ MY_BIT_NONE) then
    map ← bitmap_set_bit map (Z.to_nat bit_found); Some (bit_found, map)
  else Some (bit_found, map).

End Bitmap.
