(* ===== verification/BitmapProofs.v ===== *)
(** * Correctness of bitmaps

    A [MY_BITMAP] is the finite set of the numbers of its set bits; every
    operation of mysys/my_bitmap.c is an operation on that set, whatever the
    unused bits of the last word are. *)

From S2P Require Import Prelude MyBit Bitmap.
Import MyBit Bitmap.

#[local] Open Scope Z_scope.

Module BitmapProofs.

(** ** Words *)

Definition is_word (w : Z) : Prop := 0 <= w < 2 ^ 32.

Lemma word_high w i : is_word w -> 32 <= i -> Z.testbit w i = false.
Proof. intros. apply (bits_above w 32); [lia|done]. Qed.

Lemma is_word_bits w : 0 <= w -> (forall i, 32 <= i -> Z.testbit w i = false) -> is_word w.
Proof. intros ? Hi. split; [done|]. apply Z.bounded_iff_bits_nonneg; [lia|done|auto]. Qed.

Lemma word_ext x y :
  is_word x -> is_word y -> (forall i, 0 <= i < 32 -> Z.testbit x i = Z.testbit y i) -> x = y.
Proof.
  intros Hx Hy H. apply Z.bits_inj'. intros i Hi. destruct (Z.lt_ge_cases i 32); [auto|].
  by rewrite !word_high.
Qed.

Lemma is_word_land x y : is_word x -> is_word (Z.land x y).
Proof.
  intros Hx. apply is_word_bits; [apply Z.land_nonneg; unfold is_word in *; lia|].
  intros. by rewrite Z.land_spec, (word_high x).
Qed.

Lemma is_word_lor x y : is_word x -> is_word y -> is_word (Z.lor x y).
Proof.
  intros Hx Hy. apply is_word_bits; [apply Z.lor_nonneg; unfold is_word in *; lia|].
  intros. by rewrite Z.lor_spec, !word_high.
Qed.

Lemma is_word_lxor x y : is_word x -> is_word y -> is_word (Z.lxor x y).
Proof.
  intros Hx Hy. apply is_word_bits; [apply Z.lxor_nonneg; unfold is_word in *; lia|].
  intros. by rewrite Z.lxor_spec, !word_high.
Qed.

Lemma is_word_ones : is_word 0xFFFFFFFF.
Proof. unfold is_word. lia. Qed.

Lemma ones_bit i : 0 <= i < 32 -> Z.testbit 0xFFFFFFFF i = true.
Proof. intros. change 0xFFFFFFFF with (Z.ones 32). by apply Z.ones_spec_low. Qed.

Lemma is_word_not32 w : is_word w -> is_word (not32 w).
Proof. intros. apply is_word_lxor; [done|apply is_word_ones]. Qed.

Lemma not32_bit w i : 0 <= i < 32 -> Z.testbit (not32 w) i = negb (Z.testbit w i).
Proof. intros. unfold not32. by rewrite Z.lxor_spec, ones_bit, xorb_true_r. Qed.

Lemma nonzero_true w : nonzero w = true <-> w ≠ 0.
Proof. unfold nonzero. rewrite negb_true_iff. apply Z.eqb_neq. Qed.

Lemma nonzero_bits w :
  is_word w -> nonzero w = true <-> exists i, (i < 32)%nat /\ Z.testbit w (Z.of_nat i) = true.
Proof.
  intros Hw. rewrite nonzero_true. split.
  - intros Hne. exists (Z.to_nat (Z.log2 w)). unfold is_word in Hw.
    assert (0 < w) by lia. pose proof (Z.log2_nonneg w).
    assert (Z.log2 w < 32) by (apply Z.log2_lt_pow2; lia).
    rewrite Z2Nat.id by lia. split; [lia|]. by apply Z.bit_log2.
  - intros (i & _ & Hi) ->. by rewrite Z.bits_0 in Hi.
Qed.

Lemma zero_bits w :
  is_word w -> nonzero w = false <-> forall i, (i < 32)%nat -> Z.testbit w (Z.of_nat i) = false.
Proof.
  intros Hw. rewrite <- not_true_iff_false, nonzero_bits by done. split.
  - intros H i Hi. apply not_true_is_false. intros Ht. apply H. by exists i.
  - intros H (i & Hi & Ht). by rewrite H in Ht.
Qed.

Lemma ones_bits w :
  is_word w -> w = 0xFFFFFFFF <-> forall i, (i < 32)%nat -> Z.testbit w (Z.of_nat i) = true.
Proof.
  intros Hw. split.
  - intros -> i Hi. apply ones_bit. lia.
  - intros H. apply word_ext; [done|apply is_word_ones|]. intros i Hi.
    rewrite ones_bit by done. rewrite <- (Z2Nat.id i) by lia. apply H. lia.
Qed.

(** ** Bytes *)

Lemma byte_of_bit w j k :
  0 <= k -> Z.testbit (byte_of w j) k = bool_decide (k < 8) && Z.testbit w (8 * Z.of_nat j + k).
Proof.
  intros. unfold byte_of. change 0xFF with (Z.ones 8).
  rewrite Z.land_spec, Z.shiftr_spec by lia. rewrite andb_comm, (Z.add_comm k). f_equal.
  case_bool_decide; [apply Z.ones_spec_low|apply Z.ones_spec_high]; lia.
Qed.

Lemma byte_of_range w j : 0 <= byte_of w j < 256.
Proof.
  unfold byte_of. change 0xFF with (Z.ones 8). rewrite Z.land_ones by lia.
  apply Z.mod_pos_bound. lia.
Qed.

Lemma with_byte_bit w j v i :
  (j < 4)%nat -> 0 <= v < 256 -> 0 <= i < 32 ->
  Z.testbit (with_byte w j v) i =
    if decide (i / 8 = Z.of_nat j) then Z.testbit v (i mod 8) else Z.testbit w i.
Proof.
  intros Hj Hv Hi. unfold with_byte.
  rewrite Z.lor_spec, Z.land_spec, not32_bit, !Z.shiftl_spec by lia.
  change 0xFF with (Z.ones 8). set (k := i - 8 * Z.of_nat j).
  case_decide as Hd.
  - assert (k = i mod 8) as Hk by (unfold k; dlia). rewrite Hk, Z.ones_spec_low by dlia.
    by rewrite andb_false_r.
  - assert (k < 0 \/ 8 <= k) as [Hk|Hk] by (unfold k; dlia).
    + rewrite !(Z.testbit_neg_r _ k) by lia. by rewrite andb_true_r, orb_false_r.
    + rewrite Z.ones_spec_high, (bits_above v 8) by lia. by rewrite andb_true_r, orb_false_r.
Qed.

Lemma is_word_with_byte w j v :
  is_word w -> (j < 4)%nat -> 0 <= v < 256 -> is_word (with_byte w j v).
Proof.
  intros Hw Hj Hv. apply is_word_lor; [by apply is_word_land|].
  unfold is_word. rewrite Z.shiftl_mul_pow2 by lia.
  assert (0 < 2 ^ (8 * Z.of_nat j) <= 2 ^ 24)
    by (split; [apply Z.pow_pos_nonneg|apply Z.pow_le_mono_r]; lia).
  nia.
Qed.

(** ** Arrays of words *)

Definition bit (ws : list Z) (i : nat) : bool :=
  Z.testbit (default 0 (ws !! (i / 32)%nat)) (Z.of_nat (i mod 32)).

Lemma bit_at ws k w j : ws !! k = Some w -> (j < 32)%nat -> bit ws (32 * k + j) = Z.testbit w (Z.of_nat j).
Proof.
  intros Hw Hj. unfold bit. replace ((32 * k + j) / 32)%nat with k by dlia.
  replace ((32 * k + j) mod 32)%nat with j by dlia. by rewrite Hw.
Qed.

Lemma word_lookup ws k : Forall is_word ws -> (k < length ws)%nat ->
  exists w, ws !! k = Some w /\ is_word w /\
    forall j, (j < 32)%nat -> Z.testbit w (Z.of_nat j) = bit ws (32 * k + j).
Proof.
  intros HF Hk. destruct (lookup_lt_is_Some_2 ws k Hk) as [w Hw]. exists w.
  split; [done|]. split; [by eapply Forall_lookup_1|]. intros. by rewrite (bit_at _ _ w).
Qed.

Lemma get_byte_spec ws k :
  (k < 4 * length ws)%nat ->
  exists b, get_byte ws k = Some b /\ 0 <= b < 256 /\
    forall j, (j < 8)%nat -> Z.testbit b (Z.of_nat j) = bit ws (8 * k + j).
Proof.
  intros Hk. destruct (lookup_lt_is_Some_2 ws (k / 4)) as [w Hw]; [dlia|].
  unfold get_byte. rewrite Hw. cbn [mbind option_bind]. eexists. split; [done|].
  split; [apply byte_of_range|]. intros j Hj. rewrite byte_of_bit by lia.
  rewrite bool_decide_true by lia. cbn [andb].
  replace (8 * k + j)%nat with (32 * (k / 4) + (8 * (k mod 4) + j))%nat by dlia.
  rewrite (bit_at _ _ w) by (done || dlia). f_equal. lia.
Qed.

Definition words_ok (ws ws' : list Z) : Prop := length ws' = length ws /\ Forall is_word ws'.

Lemma set_byte_spec ws k v :
  Forall is_word ws -> (k < 4 * length ws)%nat -> 0 <= v < 256 ->
  exists ws', set_byte ws k v = Some ws' /\ words_ok ws ws' /\
    forall i, bit ws' i = if decide (i / 8 = k)%nat then Z.testbit v (Z.of_nat (i mod 8)) else bit ws i.
Proof.
  intros HF Hk Hv. destruct (word_lookup ws (k / 4) HF) as (w & Hw & Ww & _); [dlia|].
  unfold set_byte. rewrite Hw. cbn [mbind option_bind]. eexists. split; [done|].
  assert (k mod 4 < 4)%nat by dlia.
  assert (is_word (with_byte w (k mod 4) v)) by by apply is_word_with_byte.
  split; [split; [by rewrite length_insert|by apply Forall_insert]|].
  intros i. unfold bit. destruct (decide (i / 32 = k / 4)%nat) as [Heq|Hne].
  - rewrite Heq, list_lookup_insert_eq, Hw by dlia. simpl.
    rewrite with_byte_bit by (done || dlia).
    assert ((Z.of_nat (i mod 32) / 8 = Z.of_nat (k mod 4)) <-> (i / 8 = k)%nat) as Hiff by dlia.
    repeat case_decide; try tauto. f_equal. dlia.
  - rewrite list_lookup_insert_ne by done. rewrite decide_False by dlia. done.
Qed.

Lemma memset_spec n : forall ws k v,
  Forall is_word ws -> (k + n <= 4 * length ws)%nat -> 0 <= v < 256 ->
  exists ws', memset ws k v n = Some ws' /\ words_ok ws ws' /\
    forall i, bit ws' i = if decide (k <= i / 8 < k + n)%nat then Z.testbit v (Z.of_nat (i mod 8))
                          else bit ws i.
Proof.
  induction n as [|n IH]; intros ws k v HF Hk Hv.
  { exists ws. split; [done|]. split; [done|]. intros i. by rewrite decide_False by lia. }
  cbn [memset]. destruct (set_byte_spec ws k v HF) as (ws1 & -> & [Hl1 HF1] & Hb1); [lia|done|].
  cbn [mbind option_bind].
  destruct (IH ws1 (S k) v HF1) as (ws2 & -> & [Hl2 HF2] & Hb2); [lia|done|].
  exists ws2. split; [done|]. split; [split; [congruence|done]|].
  intros i. rewrite Hb2, Hb1. repeat case_decide; done || lia.
Qed.


(** ** The invariant and the set *)

Record bitmap_ok (m : MY_BITMAP) : Prop := {
  ok_pos : (0 < n_bits m)%nat;
  ok_small : Z.of_nat (n_bits m) + 31 < 2 ^ 32;
  ok_words : Forall is_word (bitmap m);
  ok_length : ((n_bits m + 31) / 32 <= length (bitmap m))%nat;
  ok_ptr : last_word_ptr m = Z.of_nat ((n_bits m - 1) / 32);
  ok_mask : last_word_mask m = 2 ^ 32 - 2 ^ Z.of_nat ((n_bits m - 1) mod 32 + 1)
}.

Definition members (m : MY_BITMAP) : gset nat :=
  list_to_set (filter (fun i => bit (bitmap m) i = true) (seq 0 (n_bits m))).

Lemma elem_of_members m i : i ∈ members m <-> (i < n_bits m)%nat /\ bit (bitmap m) i = true.
Proof.
  unfold members. rewrite elem_of_list_to_set, list_elem_of_filter, elem_of_seq. naive_solver lia.
Qed.

(** All numbers the bitmap can hold. *)
Definition universe (m : MY_BITMAP) : gset nat := set_seq 0 (n_bits m).

Lemma elem_of_universe m i : i ∈ universe m <-> (i < n_bits m)%nat.
Proof. unfold universe. rewrite elem_of_set_seq. lia. Qed.

Lemma members_ext m (X : gset nat) :
  (forall i, (i < n_bits m)%nat -> bit (bitmap m) i = true <-> i ∈ X) -> X ⊆ universe m ->
  members m = X.
Proof.
  intros H HX. apply set_eq. intros i. rewrite elem_of_members. split.
  - intros [Hi Hb]. by apply H.
  - intros Hi. assert (i < n_bits m)%nat by (apply elem_of_universe; set_solver).
    split; [done|]. by apply H.
Qed.

Lemma members_universe m : members m ⊆ universe m.
Proof. intros i. rewrite elem_of_members, elem_of_universe. tauto. Qed.

Lemma no_words_eq m : bitmap_ok m -> no_words_in_map m = ((n_bits m + 31) / 32)%nat.
Proof. intros []. unfold no_words_in_map. rewrite u32_small by lia. dlia. Qed.

Lemma no_bytes_eq m : bitmap_ok m -> no_bytes_in_map m = ((n_bits m + 7) / 8)%nat.
Proof. intros []. unfold no_bytes_in_map. rewrite u32_small by lia. dlia. Qed.

(** The mask of [n] bits has the bits of the last word behind bit [n - 1]. *)
Lemma mask_word_correct n :
  (0 < n)%nat -> Z.of_nat n + 7 < 2 ^ 32 ->
  mask_word (Z.to_nat (u32 (Z.of_nat n + 7) / 8)) (invers_last_byte_mask n) =
    2 ^ 32 - 2 ^ Z.of_nat ((n - 1) mod 32 + 1).
Proof.
  intros Hn Hs. unfold mask_word, invers_last_byte_mask. rewrite u32_small by lia.
  rewrite Z2Nat.id by dlia. change 3 with (Z.ones 2). rewrite Z.land_ones by lia.
  rewrite last_byte_mask_correct.
  set (r := Z.of_nat ((n - 1) mod 32)). assert (0 <= r < 32) as Hr by (unfold r; dlia).
  replace ((Z.of_nat n + 7) / 8 mod 2 ^ 2) with ((r / 8 + 1) mod 4)
    by (unfold r; change (2 ^ 2) with 4; dlia).
  replace ((Z.of_nat n - 1) mod 8) with (r mod 8) by (unfold r; dlia).
  replace (Z.of_nat ((n - 1) mod 32 + 1)) with (r + 1) by (unfold r; lia).
  clearbody r. below 32%nat r.
Qed.

Lemma mask_bit r i :
  0 <= r < 32 -> 0 <= i < 32 -> Z.testbit (2 ^ 32 - 2 ^ (r + 1)) i = bool_decide (r < i).
Proof.
  intros Hr Hi.
  assert (2 ^ 32 - 2 ^ (r + 1) = Z.lxor (Z.ones 32) (Z.ones (r + 1))) as -> by below 32%nat r.
  rewrite Z.lxor_spec, Z.ones_spec_low by lia.
  case_bool_decide; [rewrite Z.ones_spec_high by lia|rewrite Z.ones_spec_low by lia]; done.
Qed.

Lemma mask_is_word r : 0 <= r < 32 -> is_word (2 ^ 32 - 2 ^ (r + 1)).
Proof. intros. unfold is_word. below 32%nat r. Qed.

Section bitmap.
Context (m : MY_BITMAP) (Hok : bitmap_ok m).

(** The last word. *)
Definition last_idx : nat := ((n_bits m - 1) / 32)%nat.

Lemma last_word_lt : (last_idx < length (bitmap m))%nat.
Proof. destruct Hok. unfold last_idx. dlia. Qed.

Lemma last_ptr_eq : Z.to_nat (last_word_ptr m) = last_idx.
Proof. rewrite ok_ptr by done. unfold last_idx. lia. Qed.

Lemma mask_word_ok : is_word (last_word_mask m).
Proof.
  rewrite ok_mask by done. rewrite Nat2Z.inj_add. apply mask_is_word. dlia.
Qed.

(** A bit of the last word is unused exactly when the mask has it. *)
Lemma unused_bit j : (j < 32)%nat ->
  Z.testbit (last_word_mask m) (Z.of_nat j) = bool_decide (n_bits m <= 32 * last_idx + j)%nat.
Proof.
  intros Hj. rewrite ok_mask by done. rewrite Nat2Z.inj_add, mask_bit by dlia.
  apply bool_decide_ext. destruct Hok. unfold last_idx. dlia.
Qed.

(** A property of all bits, word by word. *)
Lemma forall_bits (P : nat -> Prop) :
  (forall i, (i < n_bits m)%nat -> P i) <->
  (forall k j, (k < last_idx)%nat -> (j < 32)%nat -> P (32 * k + j)%nat) /\
  (forall j, (j < 32)%nat -> Z.testbit (last_word_mask m) (Z.of_nat j) = false ->
     P (32 * last_idx + j)%nat).
Proof.
  pose proof (ok_pos _ Hok). split.
  - intros H1. split; [intros; apply H1; unfold last_idx in *; dlia|].
    intros j Hj. rewrite unused_bit by done. rewrite bool_decide_eq_false. intros. apply H1. lia.
  - intros [H1 H2] i Hi. replace i with (32 * (i / 32) + i mod 32)%nat by dlia.
    destruct (decide (i / 32 < last_idx)%nat); [apply H1; [done|dlia]|].
    assert (i / 32 = last_idx)%nat as -> by (unfold last_idx in *; dlia).
    apply H2; [dlia|]. rewrite unused_bit by dlia. apply bool_decide_eq_false. 
    assert (i / 32 = last_idx)%nat by (unfold last_idx in *; dlia). dlia.
Qed.

End bitmap.
(** ** Changing a bitmap *)

(** [m'] is [m] with the set [X]. *)
Definition becomes (m m' : MY_BITMAP) (X : gset nat) : Prop :=
  bitmap_ok m' /\ n_bits m' = n_bits m /\ members m' = X.

Lemma becomes_words m ws X :
  bitmap_ok m -> words_ok (bitmap m) ws -> X ⊆ universe m ->
  (forall i, (i < n_bits m)%nat -> bit ws i = true <-> i ∈ X) ->
  becomes m (set_words m ws) X.
Proof.
  intros Hok [Hl HF] HX Hb. split; [|split; [done|by apply members_ext]].
  destruct Hok. split; simpl; try done. by rewrite Hl.
Qed.

Lemma byte_in_map m i : bitmap_ok m -> (i < n_bits m)%nat -> (i / 8 < 4 * length (bitmap m))%nat.
Proof. intros [] ?. dlia. Qed.

(** *** Single bits *)

Lemma bit_of_eq i : bit_of i = 2 ^ Z.of_nat (i mod 8).
Proof.
  unfold bit_of. change 7 with (Z.ones 3). rewrite Z.land_ones, Z.shiftl_mul_pow2 by dlia.
  change (2 ^ 3) with 8. rewrite Z.mul_1_l. f_equal. lia.
Qed.

Lemma bit_of_bit i j : (j < 8)%nat -> Z.testbit (bit_of i) (Z.of_nat j) = bool_decide (i mod 8 = j)%nat.
Proof.
  intros. rewrite bit_of_eq, Z.pow2_bits_eqb by lia.
  destruct (Z.eqb_spec (Z.of_nat (i mod 8)) (Z.of_nat j)); case_bool_decide; done || lia.
Qed.

Lemma bit_of_range i : 0 <= bit_of i < 256.
Proof.
  rewrite bit_of_eq. assert (0 <= Z.of_nat (i mod 8) < 8) as H by dlia.
  set (k := Z.of_nat (i mod 8)) in *. clearbody k. below 8%nat k.
Qed.

Lemma u8_bit v j : (j < 8)%nat -> Z.testbit (u8 v) (Z.of_nat j) = Z.testbit v (Z.of_nat j).
Proof. intros. unfold u8. apply Z.mod_pow2_bits_low. lia. Qed.

Lemma u8_range v : 0 <= u8 v < 256.
Proof. apply Z.mod_pos_bound. lia. Qed.

Lemma u8_bit_of i : u8 (bit_of i) = bit_of i.
Proof. apply Z.mod_small, bit_of_range. Qed.

(** Rewriting the byte of bit [k] by a bitwise function of the byte and the
    mask of [k]. *)
Lemma change_bit m k (f : Z -> Z -> Z) (g : bool -> bool -> bool) (X : gset nat) :
  bitmap_ok m -> (k < n_bits m)%nat -> X ⊆ universe m ->
  (forall b v j, (j < 8)%nat -> Z.testbit (f b v) (Z.of_nat j) =
     g (Z.testbit b (Z.of_nat j)) (Z.testbit v (Z.of_nat j))) ->
  (forall x, g x false = x) ->
  (forall i, (i < n_bits m)%nat -> i ∈ X <->
     if decide (i = k) then g (bit (bitmap m) k) true = true else i ∈ members m) ->
  exists b ws, get_byte (bitmap m) (k / 8) = Some b /\
    set_byte (bitmap m) (k / 8) (u8 (f b (bit_of k))) = Some ws /\
    nonzero (Z.land b (bit_of k)) = bool_decide (k ∈ members m) /\
    becomes m (set_words m ws) X.
Proof.
  intros Hok Hk HX Hf Hg HXi.
  destruct (get_byte_spec (bitmap m) (k / 8)) as (b & Eb & Hb & Bb); [by apply byte_in_map|].
  destruct (set_byte_spec (bitmap m) (k / 8) (u8 (f b (bit_of k)))) as (ws & Ew & Hw & Bw);
    [by destruct Hok|by apply byte_in_map|apply u8_range|].
  exists b, ws. split; [done|]. split; [done|]. split.
  - assert (is_word (Z.land b (bit_of k))) as Hland.
    { apply is_word_land. unfold is_word. lia. }
    apply eq_bool_prop_intro. rewrite bool_decide_spec, Is_true_true, nonzero_bits by done.
    rewrite elem_of_members. split.
    + intros (j & Hj & Ht). rewrite Z.land_spec in Ht. apply andb_prop in Ht as [H1 H2].
      destruct (decide (j < 8)%nat);
        [|rewrite (bits_above b 8) in H1 by lia; done].
      rewrite bit_of_bit, bool_decide_eq_true in H2 by done. rewrite Bb in H1 by done.
      split; [done|]. rewrite <- H1. f_equal. dlia.
    + intros [_ Ht]. exists (k mod 8)%nat. split; [dlia|].
      rewrite Z.land_spec, bit_of_bit, bool_decide_true, Bb by (done || dlia).
      rewrite andb_true_r, <- Ht. f_equal. dlia.
  - apply becomes_words; [done..|]. intros i Hi. rewrite Bw, (HXi i Hi).
    destruct (decide (i / 8 = k / 8)%nat) as [Hd|Hd].
    + rewrite u8_bit, Hf, bit_of_bit, Bb by dlia.
      replace (8 * (k / 8) + i mod 8)%nat with i by dlia.
      case_decide as Hik; [subst; rewrite bool_decide_true; done|].
      rewrite bool_decide_false, Hg, elem_of_members by dlia. tauto.
    + rewrite decide_False by (intros ->; done). rewrite elem_of_members. tauto.
Qed.

Lemma set_bit_spec m k :
  bitmap_ok m -> (k < n_bits m)%nat ->
  exists b ws, get_byte (bitmap m) (k / 8) = Some b /\
    set_byte (bitmap m) (k / 8) (u8 (Z.lor b (bit_of k))) = Some ws /\
    nonzero (Z.land b (bit_of k)) = bool_decide (k ∈ members m) /\
    becomes m (set_words m ws) ({[k]} ∪ members m).
Proof.
  intros Hok Hk. apply (change_bit m k Z.lor orb); try done.
  - intros i [->%elem_of_singleton|Hi]%elem_of_union;
      [by apply elem_of_universe|by apply members_universe].
  - intros. apply Z.lor_spec.
  - intros []; done.
  - intros i Hi. rewrite orb_true_r. case_decide; set_solver.
Qed.

Lemma clear_bit_spec m k :
  bitmap_ok m -> (k < n_bits m)%nat ->
  exists b ws, get_byte (bitmap m) (k / 8) = Some b /\
    set_byte (bitmap m) (k / 8) (u8 (Z.land b (not32 (bit_of k)))) = Some ws /\
    nonzero (Z.land b (bit_of k)) = bool_decide (k ∈ members m) /\
    becomes m (set_words m ws) (members m ∖ {[k]}).
Proof.
  intros Hok Hk. apply (change_bit m k (fun b v => Z.land b (not32 v)) (fun x y => x && negb y)); try done.
  - pose proof (members_universe m). set_solver.
  - intros. by rewrite Z.land_spec, not32_bit by lia.
  - intros []; done.
  - intros i Hi. rewrite andb_false_r. case_decide; set_solver.
Qed.

Lemma flip_bit_spec m k :
  bitmap_ok m -> (k < n_bits m)%nat ->
  exists m', bitmap_flip_bit m k = Some m' /\
    becomes m m' (if decide (k ∈ members m) then members m ∖ {[k]} else {[k]} ∪ members m).
Proof.
  intros Hok Hk. unfold bitmap_flip_bit.
  destruct (change_bit m k Z.lxor xorb
    (if decide (k ∈ members m) then members m ∖ {[k]} else {[k]} ∪ members m))
    as (b & ws & -> & Ew & _ & HB); try done.
  - pose proof (members_universe m). case_decide; [set_solver|].
    intros i [->%elem_of_singleton|Hi]%elem_of_union; [by apply elem_of_universe|set_solver].
  - intros. apply Z.lxor_spec.
  - intros []; done.
  - intros i Hi. pose proof (elem_of_members m k) as Hm.
    destruct (decide (i = k)) as [->|]; [|case_decide; set_solver].
    rewrite xorb_true_r, negb_true_iff, <- not_true_iff_false. case_decide; set_solver.
  - cbn [mbind option_bind]. rewrite Ew. by eexists.
Qed.

(** On a number below the size, setting, clearing, flipping and testing a
    bit are insertion, removal, symmetric difference and membership; the
    test-and-set and test-and-clear forms return the old value; no other bit
    changes and no access leaves the array. *)
Theorem bitmap_bit_operations m k :
  bitmap_ok m -> (k < n_bits m)%nat ->
  (exists m', bitmap_set_bit m k = Some m' /\ becomes m m' ({[k]} ∪ members m)) /\
  (exists m', bitmap_clear_bit m k = Some m' /\ becomes m m' (members m ∖ {[k]})) /\
  (exists m', bitmap_flip_bit m k = Some m' /\
     becomes m m' (if decide (k ∈ members m) then members m ∖ {[k]} else {[k]} ∪ members m)) /\
  bitmap_is_set m k = Some (bool_decide (k ∈ members m)) /\
  (exists r m', bitmap_test_and_set m k = Some (r, m') /\
     nonzero r = bool_decide (k ∈ members m) /\ becomes m m' ({[k]} ∪ members m)) /\
  (exists r m', bitmap_test_and_clear m k = Some (r, m') /\
     nonzero r = bool_decide (k ∈ members m) /\ becomes m m' (members m ∖ {[k]})).
Proof.
  intros Hok Hk.
  destruct (set_bit_spec m k Hok Hk) as (b & ws & Eb & Ew & Hn & HB).
  destruct (clear_bit_spec m k Hok Hk) as (b' & ws' & Eb' & Ew' & _ & HB').
  rewrite Eb in Eb'. injection Eb' as <-.
  unfold bitmap_set_bit, bitmap_clear_bit, bitmap_is_set, bitmap_test_and_set,
    bitmap_test_and_clear, bitmap_fast_test_and_set, bitmap_fast_test_and_clear.
  rewrite Eb, u8_bit_of. cbn [mbind option_bind]. rewrite Ew, Ew', Hn. cbn [mbind option_bind].
  repeat split; eauto using flip_bit_spec.
Qed.

(** *** All words *)

Lemma update_words_spec op n : forall to from a,
  Forall is_word to -> Forall is_word from ->
  (forall x y, is_word x -> is_word y -> is_word (op x y)) ->
  (a + n <= length to)%nat -> (a + n <= length from)%nat ->
  exists ws, update_words op to from a n = Some ws /\ words_ok to ws /\
    forall i, ws !! i = if decide (a <= i < a + n)%nat
                        then x ← to !! i; y ← from !! i; Some (op x y) else to !! i.
Proof.
  induction n as [|n IH]; intros to from a Ht Hf Hop Hlt Hlf.
  { exists to. split; [done|]. split; [done|]. intros i. by rewrite decide_False by lia. }
  cbn [update_words].
  destruct (word_lookup to a Ht) as (x & Hx & Wx & _); [lia|].
  destruct (word_lookup from a Hf) as (y & Hy & Wy & _); [lia|].
  rewrite Hx. cbn [mbind option_bind]. rewrite Hy. cbn [mbind option_bind].
  destruct (IH (<[a := op x y]> to) from (S a)) as (ws & -> & [Hl HF] & Hw);
    [by apply Forall_insert; auto|done|done|rewrite length_insert; lia|lia|].
  exists ws. split; [done|]. split; [split; [by rewrite Hl, length_insert|done]|].
  intros i. rewrite Hw. destruct (decide (i = a)) as [->|Hne].
  - rewrite decide_False, decide_True, list_lookup_insert_eq, Hx by lia. simpl. by rewrite Hy.
  - rewrite list_lookup_insert_ne by done. repeat case_decide; done || lia.
Qed.

(** A bitwise operation on the words is the operation on the bits. *)
Lemma update_words_bits op g to from a n :
  Forall is_word to -> Forall is_word from ->
  (forall x y, is_word x -> is_word y -> is_word (op x y)) ->
  (forall x y j, 0 <= j < 32 -> Z.testbit (op x y) j = g (Z.testbit x j) (Z.testbit y j)) ->
  (a + n <= length to)%nat -> (a + n <= length from)%nat ->
  exists ws, update_words op to from a n = Some ws /\ words_ok to ws /\
    forall i, bit ws i = if decide (a <= i / 32 < a + n)%nat then g (bit to i) (bit from i)
                         else bit to i.
Proof.
  intros Ht Hf Hop Hg Hlt Hlf.
  destruct (update_words_spec op n to from a Ht Hf Hop Hlt Hlf) as (ws & E & Hok & Hw).
  exists ws. split; [done|]. split; [done|]. intros i. unfold bit. rewrite Hw.
  case_decide; [|done].
  destruct (word_lookup to (i / 32) Ht) as (x & -> & _); [lia|].
  destruct (word_lookup from (i / 32) Hf) as (y & -> & _); [lia|].
  simpl. apply Hg. dlia.
Qed.

Lemma update_all_spec op g m m2 (X : gset nat) :
  bitmap_ok m -> bitmap_ok m2 -> n_bits m2 = n_bits m ->
  (forall x y, is_word x -> is_word y -> is_word (op x y)) ->
  (forall x y j, 0 <= j < 32 -> Z.testbit (op x y) j = g (Z.testbit x j) (Z.testbit y j)) ->
  X ⊆ universe m ->
  (forall i, (i < n_bits m)%nat ->
     g (bit (bitmap m) i) (bit (bitmap m2) i) = true <-> i ∈ X) ->
  exists m', update_all op m m2 = Some m' /\ becomes m m' X.
Proof.
  intros Hok Hok2 Hn Hop Hg HX Hi. unfold update_all.
  replace (Z.to_nat (last_word_ptr m + 1)) with (S (last_idx m))
    by (rewrite ok_ptr by done; unfold last_idx; lia).
  pose proof (last_word_lt m Hok). pose proof (last_word_lt m2 Hok2) as Hl2.
  unfold last_idx in Hl2. rewrite Hn in Hl2. fold (last_idx m) in Hl2.
  destruct (update_words_bits op g (bitmap m) (bitmap m2) 0 (S (last_idx m)))
    as (ws & -> & Hw & Hb); [by destruct Hok|by destruct Hok2|done|done|lia|lia|].
  cbn [mbind option_bind]. eexists. split; [done|]. apply becomes_words; [done..|].
  intros i Hlt. rewrite Hb, decide_True by (pose proof (ok_pos _ Hok); unfold last_idx; dlia).
  by apply Hi.
Qed.

Lemma intersect_spec m m2 :
  bitmap_ok m -> bitmap_ok m2 ->
  exists m', bitmap_intersect m m2 = Some m' /\ becomes m m' (members m ∩ members m2).
Proof.
  intros Hok Hok2. unfold bitmap_intersect. rewrite !no_words_eq by done.
  set (len := ((n_bits m + 31) / 32)%nat). set (len2 := ((n_bits m2 + 31) / 32)%nat).
  pose proof (ok_length _ Hok) as Hl. pose proof (ok_length _ Hok2) as Hl2.
  pose proof (ok_pos _ Hok) as Hp. pose proof (ok_pos _ Hok2) as Hp2. fold len in Hl. fold len2 in Hl2.
  pose proof (ok_words _ Hok) as HF. pose proof (ok_words _ Hok2) as HF2.
  assert (members m ∩ members m2 ⊆ universe m) as HU
    by (pose proof (members_universe m); set_solver).
  destruct (update_words_bits Z.land andb (bitmap m) (bitmap m2) 0 (len `min` len2))
    as (ws & -> & Hw & Hb); [done|done|by intros; apply is_word_land|
    by intros; apply Z.land_spec|lia|lia|].
  cbn [mbind option_bind]. case_decide as Hle.
  2: { eexists. split; [done|]. apply becomes_words; [done..|]. intros i Hi.
       rewrite Hb, decide_True, andb_true_iff by (unfold len, len2 in *; dlia).
       rewrite elem_of_intersection, !elem_of_members. unfold len, len2 in *. 
       assert (i < n_bits m2)%nat by dlia. tauto. }
  replace (len `min` len2)%nat with len2 in * by lia.
  assert (1 <= len2)%nat by (unfold len2; dlia).
  destruct Hw as [Hlw HFw]. unfold word_at. rewrite decide_False by lia.
  replace (Z.to_nat (Z.of_nat len2 - 1)) with (len2 - 1)%nat by lia.
  destruct (word_lookup ws (len2 - 1) HFw) as (w & Hlk & Ww & Wb); [lia|].
  rewrite Hlk. cbn [mbind option_bind].
  set (ws1 := <[(len2 - 1)%nat := _]> ws).
  assert (Forall is_word ws1) as HF1.
  { apply Forall_insert; [done|]. by apply is_word_land. }
  destruct (update_words_bits (fun _ _ => 0) (fun _ _ => false) ws1 ws1 len2 (len - len2))
    as (ws2 & -> & [Hlw2 HFw2] & Hb2); [done|done|by unfold is_word|
    by intros; apply Z.bits_0|unfold ws1; rewrite length_insert; lia..|].
  cbn [mbind option_bind]. eexists. split; [done|].
  apply becomes_words; [done|split; [|done]|done|].
  { rewrite Hlw2. unfold ws1. by rewrite length_insert. }
  intros i Hi. rewrite Hb2, elem_of_intersection, !elem_of_members.
  destruct (decide (len2 <= i / 32 < len2 + (len - len2))%nat) as [Hin|Hin].
  { split; [done|]. intros [_ [? _]]. unfold len2 in *. dlia. }
  assert (i / 32 < len2)%nat as Hi2 by (unfold len in *; dlia).
  destruct (decide (i / 32 = len2 - 1)%nat) as [Heq|Hne].
  - assert (bit ws1 i = bit ws i && bool_decide (i < n_bits m2)%nat) as ->.
    { unfold bit, ws1. rewrite Heq, list_lookup_insert_eq, Hlk by lia. simpl.
      rewrite Z.land_spec, not32_bit, unused_bit by (done || dlia). f_equal.
      rewrite <- bool_decide_not. apply bool_decide_ext. unfold last_idx, len2 in *. dlia. }
    rewrite Hb, decide_True, !andb_true_iff, bool_decide_eq_true by lia. tauto.
  - assert (bit ws1 i = bit ws i) as ->.
    { unfold bit, ws1. by rewrite list_lookup_insert_ne by done. }
    rewrite Hb, decide_True, andb_true_iff by lia.
    assert (i < n_bits m2)%nat by (unfold len2 in *; dlia). tauto.
Qed.

Lemma invert_spec m :
  bitmap_ok m -> exists m', bitmap_invert m = Some m' /\ becomes m m' (universe m ∖ members m).
Proof.
  intros Hok. apply (update_all_spec _ (fun x _ => negb x)); try done.
  - intros. by apply is_word_not32.
  - intros. by apply not32_bit.
  - set_solver.
  - intros i Hi. rewrite elem_of_difference, elem_of_universe, elem_of_members.
    rewrite negb_true_iff, <- not_true_iff_false. tauto.
Qed.

(** C33: Union, difference, symmetric difference, copy and complement of
    bitmaps of one size, and the intersection of bitmaps of any two sizes, are
    the operations on the sets of their members; the unused bits do not
    matter and no access leaves the arrays. *)
Theorem bitmap_set_operations m m2 :
  bitmap_ok m -> bitmap_ok m2 ->
  (exists m', bitmap_intersect m m2 = Some m' /\ becomes m m' (members m ∩ members m2)) /\
  (exists m', bitmap_invert m = Some m' /\ becomes m m' (universe m ∖ members m)) /\
  (n_bits m2 = n_bits m ->
   (exists m', bitmap_union m m2 = Some m' /\ becomes m m' (members m ∪ members m2)) /\
   (exists m', bitmap_subtract m m2 = Some m' /\ becomes m m' (members m ∖ members m2)) /\
   (exists m', bitmap_xor m m2 = Some m' /\
      becomes m m' ((members m ∖ members m2) ∪ (members m2 ∖ members m))) /\
   (exists m', bitmap_copy m m2 = Some m' /\ becomes m m' (members m2))).
Proof.
  intros Hok Hok2. split; [by apply intersect_spec|]. split; [by apply invert_spec|].
  intros Hn. pose proof (members_universe m) as HU. pose proof (members_universe m2) as HU2.
  assert (universe m2 = universe m) as HUe by (unfold universe; congruence). rewrite HUe in HU2.
  repeat split.
  - apply (update_all_spec _ orb); try done; auto using is_word_lor, Z.lor_spec; [set_solver|].
    intros i Hi. rewrite orb_true_iff, elem_of_union, !elem_of_members. naive_solver lia.
  - apply (update_all_spec _ (fun x y => x && negb y)); try done;
      auto using is_word_land; [by intros; rewrite Z.land_spec, not32_bit|set_solver|].
    intros i Hi. rewrite andb_true_iff, negb_true_iff, <- not_true_iff_false.
    rewrite elem_of_difference, !elem_of_members. naive_solver lia.
  - apply (update_all_spec _ xorb); try done; auto using is_word_lxor, Z.lxor_spec; [set_solver|].
    intros i Hi. rewrite elem_of_union, !elem_of_difference, !elem_of_members.
    destruct (bit (bitmap m) i), (bit (bitmap m2) i); naive_solver lia.
  - apply (update_all_spec _ (fun _ y => y)); try done.
    intros i Hi. rewrite elem_of_members. naive_solver lia.
Qed.

(** ** Tests *)

Lemma find_from_spec (cond : nat -> option bool) (c : nat -> bool) fuel : forall a stop,
  (stop - a < fuel)%nat -> (forall i, (a <= i < stop)%nat -> cond i = Some (c i)) ->
  exists r, find_from cond fuel a stop = Some r /\ (a <= r)%nat /\ (r <= a \/ r <= stop)%nat /\
    (r < stop -> c r = true)%nat /\ (forall j, a <= j < r -> c j = false)%nat.
Proof.
  induction fuel as [|fuel IH]; intros a stop Hf Hc; [lia|]. cbn [find_from].
  case_decide as Hlt.
  - rewrite Hc by lia. cbn [mbind option_bind]. destruct (c a) eqn:Ea.
    + exists a. repeat split; auto with lia; intros; lia.
    + destruct (IH (S a) stop) as (r & E & H1 & H2 & H3 & H4); [lia|intros; apply Hc; lia|].
      exists r. split; [done|]. split; [lia|]. split; [lia|]. split; [done|].
      intros j Hj. destruct (decide (j = a)) as [->|]; [done|]. apply H4. lia.
  - exists a. repeat split; auto with lia; intros; lia.
Qed.

Lemma find_index_spec cond c a stop :
  (forall i, (a <= i < stop)%nat -> cond i = Some (c i)) ->
  exists r, find_index cond a stop = Some r /\ (a <= r)%nat /\ (r <= a \/ r <= stop)%nat /\
    (r < stop -> c r = true)%nat /\ (forall j, a <= j < r -> c j = false)%nat.
Proof. intros Hc. apply (find_from_spec cond c); [lia|done]. Qed.

(** The tests are statements about every bit in use. *)
Lemma words_test_spec cond last m found c b (P : nat -> Prop) :
  bitmap_ok m ->
  (forall k, (k < last_idx m)%nat -> cond k = Some (c k)) -> last (last_idx m) = Some b ->
  (forall k, (k < last_idx m)%nat -> c k = false <-> forall j, (j < 32)%nat -> P (32 * k + j)%nat) ->
  (b = negb found <-> forall j, (j < 32)%nat ->
     Z.testbit (last_word_mask m) (Z.of_nat j) = false -> P (32 * last_idx m + j)%nat) ->
  exists r, words_test cond last m found = Some r /\
    (r = negb found <-> forall i, (i < n_bits m)%nat -> P i).
Proof.
  intros Hok Hc Hl HP HPl. unfold words_test. rewrite last_ptr_eq by done.
  destruct (find_index_spec cond c 0 (last_idx m)) as (r & -> & _ & Hr & Hlt & Hall);
    [intros; apply Hc; lia|].
  cbn [mbind option_bind]. case_decide as Hd.
  - eexists. split; [done|]. rewrite (forall_bits m Hok P). specialize (Hlt Hd). split; [by destruct found|].
    intros [H1 _]. exfalso. assert (c r = false); [|congruence]. apply HP; [done|].
    intros. by apply H1.
  - assert (r = last_idx m) as -> by lia. rewrite Hl. eexists. split; [done|].
    rewrite (forall_bits m Hok P), HPl. split; [|by intros [_ ?]]. intros H2. split; [|done].
    intros k j Hk Hj. revert j Hj. apply HP; [done|]. apply Hall. lia.
Qed.

Lemma bool_of_iff (r : bool) (P : Prop) `{Decision P} : (r = true <-> P) -> r = bool_decide P.
Proof.
  intros HP. destruct r; [rewrite bool_decide_true; tauto|].
  rewrite bool_decide_false; [done|]. intros ?%HP. done.
Qed.

(** Word [k] of a bitmap. *)
Lemma bitmap_word m k : bitmap_ok m -> (k <= last_idx m)%nat ->
  exists w, bitmap m !! k = Some w /\ is_word w /\
    forall j, (j < 32)%nat -> Z.testbit w (Z.of_nat j) = bit (bitmap m) (32 * k + j).
Proof.
  intros Hok Hk. pose proof (last_word_lt m Hok). apply word_lookup; [by destruct Hok|lia].
Qed.

Definition word (m : MY_BITMAP) (k : nat) : Z := default 0 (bitmap m !! k).

Lemma bitmap_word_eq m k : bitmap_ok m -> (k <= last_idx m)%nat ->
  bitmap m !! k = Some (word m k) /\ is_word (word m k).
Proof.
  intros Hok Hk. destruct (bitmap_word m k Hok Hk) as (w & Hw & ? & _). unfold word. by rewrite Hw.
Qed.

Lemma word_bit m k j : (j < 32)%nat -> Z.testbit (word m k) (Z.of_nat j) = bit (bitmap m) (32 * k + j).
Proof.
  intros Hj. unfold word, bit. replace ((32 * k + j) / 32)%nat with k by dlia.
  by replace ((32 * k + j) mod 32)%nat with j by dlia.
Qed.

(** The form all tests have: some bit of [f] of the words, the unused ones left
    out, gives [found]. *)
Lemma words_test_bits f g m m2 cond last found :
  bitmap_ok m -> bitmap_ok m2 -> n_bits m2 = n_bits m ->
  (forall x y, is_word x -> is_word y -> is_word (f x y)) ->
  (forall x y j, 0 <= j < 32 -> Z.testbit (f x y) j = g (Z.testbit x j) (Z.testbit y j)) ->
  (forall k x y, bitmap m !! k = Some x -> bitmap m2 !! k = Some y -> is_word x -> is_word y ->
     cond k = Some (nonzero (f x y)) /\
     last k = Some (xorb (negb found) (nonzero (Z.land (f x y) (not32 (last_word_mask m)))))) ->
  exists r, words_test cond last m found = Some r /\
    (r = negb found <-> forall i, (i < n_bits m)%nat -> g (bit (bitmap m) i) (bit (bitmap m2) i) = false).
Proof.
  intros Hok Hok2 Hn Hf Hg Hcl. pose proof (mask_word_ok m Hok) as Hmask.
  assert (last_idx m2 = last_idx m) as Hli by (unfold last_idx; by rewrite Hn).
  apply (words_test_spec _ _ m found (fun k => nonzero (f (word m k) (word m2 k)))
    (xorb (negb found) (nonzero (Z.land (f (word m (last_idx m)) (word m2 (last_idx m)))
                                   (not32 (last_word_mask m)))))
    (fun i => g (bit (bitmap m) i) (bit (bitmap m2) i) = false)); [done|..].
  - intros k Hk. destruct (bitmap_word_eq m k) as [Ex Wx]; [done|lia|].
    destruct (bitmap_word_eq m2 k) as [Ey Wy]; [done|lia|]. by apply (Hcl k).
  - destruct (bitmap_word_eq m (last_idx m)) as [Ex Wx]; [done|lia|].
    destruct (bitmap_word_eq m2 (last_idx m)) as [Ey Wy]; [done|lia|]. by apply (Hcl (last_idx m)).
  - intros k Hk. destruct (bitmap_word_eq m k) as [_ Wx]; [done|lia|].
    destruct (bitmap_word_eq m2 k) as [_ Wy]; [done|lia|]. rewrite zero_bits by auto.
    split; intros H j Hj; specialize (H j Hj); [rewrite Hg, !word_bit in H by lia; done|].
    by rewrite Hg, !word_bit by lia.
  - destruct (bitmap_word_eq m (last_idx m)) as [_ Wx]; [done|lia|].
    destruct (bitmap_word_eq m2 (last_idx m)) as [_ Wy]; [done|lia|].
    set (w := Z.land _ _). assert (is_word w) as Ww by (apply is_word_land; auto).
    transitivity (nonzero w = false); [by destruct found, (nonzero w)|].
    rewrite zero_bits by done. unfold w.
    split; intros H j Hj; specialize (H j Hj);
      rewrite Z.land_spec, Hg, !word_bit, not32_bit in * by lia.
    + intros Hm. by rewrite Hm, andb_true_r in H.
    + destruct (Z.testbit (last_word_mask m) _); [apply andb_false_r|]. by rewrite H.
Qed.

Lemma not32_ones w : is_word w -> nonzero (not32 w) = negb (w =? 0xFFFFFFFF).
Proof.
  intros Hw. apply eq_bool_prop_intro. rewrite !Is_true_true, nonzero_true, negb_true_iff, Z.eqb_neq.
  unfold not32. rewrite Z.lxor_eq_0_iff. done.
Qed.

(** Two equal bytes have equal bits. *)
Lemma byte_ext x y : 0 <= x < 256 -> 0 <= y < 256 ->
  x = y <-> forall j, (j < 8)%nat -> Z.testbit x (Z.of_nat j) = Z.testbit y (Z.of_nat j).
Proof.
  intros Hx Hy. split; [by intros ->|]. intros H. apply Z.bits_inj'. intros i Hi.
  destruct (Z.lt_ge_cases i 8).
  - rewrite <- (Z2Nat.id i) by lia. apply H. lia.
  - by rewrite (bits_above x 8), (bits_above y 8) by lia.
Qed.

Ltac by_words f g m m2 r Hr :=
  match goal with
  | |- words_test ?c ?l _ ?found = _ =>
      destruct (words_test_bits f g m m2 c l found) as (r & -> & Hr); try done; auto using is_word_land
  end.

Lemma is_set_all_spec m :
  bitmap_ok m -> bitmap_is_set_all m = Some (bool_decide (members m = universe m)).
Proof.
  intros Hok. unfold bitmap_is_set_all. pose proof (mask_word_ok m Hok) as Wm.
  by_words (fun x _ : Z => not32 x) (fun x _ : bool => negb x) m m r Hr.
  - intros. by apply is_word_not32.
  - intros. by apply not32_bit.
  - intros k x _ Hx _ Wx _. rewrite Hx. cbn [mbind option_bind]. rewrite not32_ones by done.
    split; [done|]. f_equal.
    assert (Z.land (not32 x) (not32 (last_word_mask m)) = not32 (Z.lor x (last_word_mask m))) as ->.
    { apply word_ext; [by apply is_word_land, is_word_not32|by apply is_word_not32, is_word_lor|].
      intros i Hi. rewrite Z.land_spec, !not32_bit, Z.lor_spec by done. by rewrite negb_orb. }
    rewrite not32_ones by by apply is_word_lor.
    by destruct (Z.lor x (last_word_mask m) =? 0xFFFFFFFF).
  - f_equal. apply bool_of_iff. simpl in Hr. rewrite Hr. split.
    + intros H. apply members_ext; [|done]. intros i Hi. rewrite elem_of_universe.
      specialize (H i Hi). apply negb_false_iff in H. tauto.
    + intros H i Hi. apply elem_of_universe in Hi. rewrite <- H in Hi.
      apply elem_of_members in Hi as [_ ->]. done.
Qed.

Lemma is_clear_all_spec m :
  bitmap_ok m -> bitmap_is_clear_all m = Some (bool_decide (members m = ∅)).
Proof.
  intros Hok. unfold bitmap_is_clear_all.
  by_words (fun x _ : Z => x) (fun x _ : bool => x) m m r Hr.
  - intros k x _ Hx _ Wx _. rewrite Hx. cbn [mbind option_bind].
    split; [done|]. f_equal. unfold nonzero. by destruct (_ =? 0).
  - f_equal. apply bool_of_iff. simpl in Hr. rewrite Hr. split.
    + intros H. apply members_ext; [|set_solver]. intros i Hi. rewrite (H i Hi). set_solver.
    + intros H i Hi. apply not_true_is_false. intros Hb.
      assert (i ∈ members m) by by apply elem_of_members. set_solver.
Qed.

Lemma is_subset_spec m m2 :
  bitmap_ok m -> bitmap_ok m2 -> n_bits m2 = n_bits m ->
  bitmap_is_subset m m2 = Some (bool_decide (members m ⊆ members m2)).
Proof.
  intros Hok Hok2 Hn. unfold bitmap_is_subset.
  by_words (fun x y => Z.land x (not32 y)) (fun x y => x && negb y) m m2 r Hr.
  - intros. by rewrite Z.land_spec, not32_bit.
  - intros k x y Hx Hy Wx Wy. rewrite Hx. cbn [mbind option_bind]. rewrite Hy. cbn [mbind option_bind].
    by split.
  - f_equal. apply bool_of_iff. simpl in Hr. rewrite Hr. split.
    + intros H i. rewrite !elem_of_members. intros [Hi Hb]. specialize (H i Hi).
      rewrite Hb in H. simpl in H. apply negb_false_iff in H. rewrite Hn. done.
    + intros H i Hi. destruct (bit (bitmap m) i) eqn:Hb; [|done]. simpl. apply negb_false_iff.
      apply (elem_of_members m2), H, elem_of_members. done.
Qed.

Lemma is_overlapping_spec m m2 :
  bitmap_ok m -> bitmap_ok m2 -> n_bits m2 = n_bits m ->
  bitmap_is_overlapping m m2 = Some (bool_decide (members m ∩ members m2 ≠ ∅)).
Proof.
  intros Hok Hok2 Hn. unfold bitmap_is_overlapping.
  by_words Z.land andb m m2 r Hr.
  - intros. apply Z.land_spec.
  - intros k x y Hx Hy Wx Wy. rewrite Hx. cbn [mbind option_bind]. rewrite Hy. cbn [mbind option_bind].
    split; [done|]. f_equal.
  - f_equal. simpl in Hr. rewrite bool_decide_not.
    assert (negb r = bool_decide (members m ∩ members m2 = ∅)) as <-; [|by destruct r].
    apply bool_of_iff. rewrite negb_true_iff, Hr. split.
    + intros H. apply set_eq. intros i. rewrite elem_of_intersection, !elem_of_members.
      split; [|set_solver]. intros [[Hi Hb] [_ Hb2]]. specialize (H i Hi).
      by rewrite Hb, Hb2 in H.
    + intros H i Hi. apply not_true_is_false. intros [Hb Hb2]%andb_prop.
      assert (i ∈ members m ∩ members m2); [|set_solver].
      rewrite elem_of_intersection, !elem_of_members, Hn. done.
Qed.

(** The unused bits set, two last words are equal when their used bits are. *)
Lemma last_words_equal m x y :
  bitmap_ok m -> is_word x -> is_word y ->
  Z.lor x (last_word_mask m) = Z.lor y (last_word_mask m) <->
  forall j, (j < 32)%nat -> Z.testbit (last_word_mask m) (Z.of_nat j) = false ->
    Z.testbit x (Z.of_nat j) = Z.testbit y (Z.of_nat j).
Proof.
  intros Hok Wx Wy. pose proof (mask_word_ok m Hok) as Wm. split.
  - intros H j Hj Hm. apply (f_equal (fun w => Z.testbit w (Z.of_nat j))) in H.
    by rewrite !Z.lor_spec, Hm, !orb_false_r in H.
  - intros H1. apply word_ext; [by apply is_word_lor..|]. intros i Hi. rewrite !Z.lor_spec.
    destruct (Z.testbit (last_word_mask m) i) eqn:Hm; [by rewrite !orb_true_r|].
    rewrite <- (Z2Nat.id i) in Hm |- * by lia. by rewrite (H1 (Z.to_nat i)) by (done || lia).
Qed.

(** [memcmp] of the first [n] words compares their bits. *)
Lemma memcmp_bits ws ws2 n :
  (n <= length ws)%nat -> (n <= length ws2)%nat ->
  exists r, find_index (fun k => b1 ← get_byte ws k; b2 ← get_byte ws2 k; Some (negb (b1 =? b2)))
      0 (4 * n) = Some r /\
    (~ (r < 4 * n)%nat <-> forall k j, (k < n)%nat -> (j < 32)%nat ->
       bit ws (32 * k + j) = bit ws2 (32 * k + j)).
Proof.
  intros Hl Hl2.
  destruct (find_index_spec (fun k => b1 ← get_byte ws k; b2 ← get_byte ws2 k; Some (negb (b1 =? b2)))
    (fun k => negb (default 0 (get_byte ws k) =? default 0 (get_byte ws2 k))) 0 (4 * n))
    as (r & -> & _ & Hr & Hlt & Hall).
  { intros k Hk. destruct (get_byte_spec ws k) as (b & -> & _); [lia|].
    by destruct (get_byte_spec ws2 k) as (b2 & -> & _); [lia|]. }
  exists r. split; [done|]. split.
  - intros Hnr k j Hk Hj. set (q := (4 * k + j / 8)%nat).
    specialize (Hall q ltac:(unfold q; dlia)).
    destruct (get_byte_spec ws q) as (b & Eb & Hb & Bb); [unfold q; dlia|].
    destruct (get_byte_spec ws2 q) as (b2 & Eb2 & Hb2 & Bb2); [unfold q; dlia|].
    rewrite Eb, Eb2 in Hall. simpl in Hall. apply negb_false_iff, Z.eqb_eq in Hall. subst b2.
    replace (32 * k + j)%nat with (8 * q + j mod 8)%nat by (unfold q; dlia).
    rewrite <- Bb, <- Bb2 by dlia. done.
  - intros Hw Hd. specialize (Hlt Hd).
    destruct (get_byte_spec ws r) as (b & Eb & Hb & Bb); [lia|].
    destruct (get_byte_spec ws2 r) as (b2 & Eb2 & Hb2 & Bb2); [lia|].
    rewrite Eb, Eb2 in Hlt. simpl in Hlt. apply negb_true_iff, Z.eqb_neq in Hlt.
    apply Hlt, byte_ext; [done..|]. intros j Hj. rewrite Bb, Bb2 by done.
    replace (8 * r + j)%nat with (32 * (r / 4) + (8 * (r mod 4) + j))%nat by dlia.
    apply Hw; dlia.
Qed.

Lemma members_eq_bits m m2 :
  n_bits m2 = n_bits m ->
  members m = members m2 <->
  forall i, (i < n_bits m)%nat -> bit (bitmap m) i = bit (bitmap m2) i.
Proof.
  intros Hn. split.
  - intros H0 i Hi. apply eq_bool_prop_intro. rewrite !Is_true_true.
    transitivity (i ∈ members m); [rewrite elem_of_members; tauto|].
    rewrite H0, elem_of_members, Hn. tauto.
  - intros H0. apply set_eq. intros i. rewrite !elem_of_members, Hn.
    split; intros [Hi Hb]; specialize (H0 i Hi); split; congruence.
Qed.

Lemma cmp_spec m m2 :
  bitmap_ok m -> bitmap_ok m2 -> n_bits m2 = n_bits m ->
  bitmap_cmp m m2 = Some (bool_decide (members m = members m2)).
Proof.
  intros Hok Hok2 Hn. unfold bitmap_cmp. rewrite no_words_eq by done.
  pose proof (last_word_lt m Hok). pose proof (last_word_lt m2 Hok2) as Hl2.
  assert (last_idx m2 = last_idx m) as Hli by (unfold last_idx; by rewrite Hn). rewrite Hli in Hl2.
  assert ((n_bits m + 31) / 32 - 1 = last_idx m)%nat as ->
    by (pose proof (ok_pos _ Hok); unfold last_idx; dlia).
  destruct (memcmp_bits (bitmap m) (bitmap m2) (last_idx m)) as (r & -> & Hr); [lia..|].
  cbn [mbind option_bind].
  pose proof (members_eq_bits m m2 Hn) as Hmem.
  rewrite (forall_bits m Hok (fun i => bit (bitmap m) i = bit (bitmap m2) i)), <- Hr in Hmem.
  case_decide as Hd.
  { f_equal. apply bool_of_iff. split; [done|]. intros [? _]%Hmem. done. }
  unfold word_at. rewrite !decide_False by (rewrite ok_ptr by done; lia).
  rewrite (last_ptr_eq m), (last_ptr_eq m2), Hli by done.
  destruct (bitmap_word m (last_idx m)) as (x & -> & Wx & Bx); [done|lia|].
  destruct (bitmap_word m2 (last_idx m)) as (y & -> & Wy & By); [done|lia|].
  cbn [mbind option_bind]. f_equal. apply bool_of_iff.
  assert (last_word_mask m2 = last_word_mask m) as -> by (rewrite !ok_mask by done; by rewrite Hn).
  rewrite Z.eqb_eq, (last_words_equal m x y), Hmem by done. split.
  - intros H0. split; [done|]. intros j Hj Hm. rewrite <- Bx, <- By by done. by apply H0.
  - intros [_ H0] j Hj Hm. rewrite Bx, By by done. by apply H0.
Qed.

(** The tests on bitmaps decide what their names say about the sets: all,
    none, inclusion, overlap and equality, whatever the unused bits are. *)
Theorem bitmap_tests_correct m m2 :
  bitmap_ok m -> bitmap_ok m2 ->
  bitmap_is_set_all m = Some (bool_decide (members m = universe m)) /\
  bitmap_is_clear_all m = Some (bool_decide (members m = ∅)) /\
  (n_bits m2 = n_bits m ->
   bitmap_is_subset m m2 = Some (bool_decide (members m ⊆ members m2)) /\
   bitmap_is_overlapping m m2 = Some (bool_decide (members m ∩ members m2 ≠ ∅)) /\
   bitmap_cmp m m2 = Some (bool_decide (members m = members m2))).
Proof.
  intros. split; [by apply is_set_all_spec|]. split; [by apply is_clear_all_spec|].
  intros. auto using is_subset_spec, is_overlapping_spec, cmp_spec.
Qed.

End BitmapProofs.
