(* ===== verification/BitmapSearch.v ===== *)
(** * Searching, counting and filling bitmaps

    The functions of mysys/my_bitmap.c that return a bit number or the number
    of set bits, and those that write runs of bits, against the set of the
    members. *)

From S2P Require Import Prelude MyBit Bitmap BitmapProofs.
Import MyBit Bitmap BitmapProofs.

#[local] Open Scope Z_scope.

Module BitmapSearch.

(** ** The first set bit of a word *)

Lemma first_pos_spec (p : nat -> bool) n : forall i,
  (exists k, (i <= k < i + n)%nat /\ p k = true) ->
  exists k, first_pos p n i = Some k /\ (i <= k < i + n)%nat /\ p k = true /\
    forall j, (i <= j < k)%nat -> p j = false.
Proof.
  induction n as [|n IH]; intros i (k & Hk & Hp); [lia|]. cbn [first_pos].
  destruct (p i) eqn:Hi.
  - exists i. repeat split; auto with lia; intros; lia.
  - destruct (IH (S i)) as (k' & -> & ? & ? & Hj).
    { exists k. split; [|done]. destruct (decide (k = i)) as [->|]; [congruence|lia]. }
    exists k'. repeat split; auto with lia. intros j ?.
    destruct (decide (j = i)) as [->|]; [done|]. apply Hj. lia.
Qed.

Lemma first_pos_ext p q n : forall i,
  (forall k, (i <= k < i + n)%nat -> p k = q k) -> first_pos p n i = first_pos q n i.
Proof.
  induction n as [|n IH]; intros i H; [done|]. cbn [first_pos]. rewrite H by lia.
  rewrite IH by (intros; apply H; lia). done.
Qed.

Lemma byte_of_nonzero w j :
  nonzero (byte_of w j) = true <->
  exists k, (k < 8)%nat /\ Z.testbit w (8 * Z.of_nat j + Z.of_nat k) = true.
Proof.
  pose proof (byte_of_range w j) as Hr.
  rewrite nonzero_bits by (unfold is_word; lia). split.
  - intros (k & Hk & Ht). rewrite byte_of_bit in Ht by lia. apply andb_prop in Ht as [H8 Ht].
    apply bool_decide_eq_true in H8. exists k. split; [lia|done].
  - intros (k & Hk & Ht). exists k. split; [lia|]. rewrite byte_of_bit by lia.
    rewrite bool_decide_true by lia. done.
Qed.

Lemma land_bit_nonzero b k :
  0 <= b < 256 -> (k < 8)%nat ->
  nonzero (Z.land b (Z.shiftl 1 (Z.of_nat k))) = Z.testbit b (Z.of_nat k).
Proof.
  intros Hb Hk. apply eq_bool_prop_intro. rewrite !Is_true_true.
  rewrite nonzero_bits by (apply is_word_land; unfold is_word; lia).
  rewrite Z.shiftl_mul_pow2, Z.mul_1_l by lia. split.
  - intros (i & _ & Hi). rewrite Z.land_spec, Z.pow2_bits_eqb in Hi by lia.
    apply andb_prop in Hi as [Hi Heq%Z.eqb_eq]. by rewrite Heq.
  - intros Ht. exists k. split; [lia|]. by rewrite Z.land_spec, Ht, Z.pow2_bits_true by lia.
Qed.

(** The lowest set bit of a word that is not zero. *)
Lemma get_first_set_spec w pos :
  is_word w -> nonzero w = true -> 32 * (Z.of_nat pos + 1) < 2 ^ 32 ->
  exists j, (j < 32)%nat /\ get_first_set w pos = Some (Z.of_nat (32 * pos + j)) /\
    Z.testbit w (Z.of_nat j) = true /\
    forall k, (k < j)%nat -> Z.testbit w (Z.of_nat k) = false.
Proof.
  intros Ww Hnz Hpos. apply nonzero_bits in Hnz as (i & Hi & Ht); [|done].
  unfold get_first_set.
  destruct (first_pos_spec (fun j => nonzero (byte_of w j)) 4 0) as (b & -> & Hb & Hbn & Hbl).
  { exists (i / 8)%nat. split; [dlia|]. apply byte_of_nonzero. exists (i mod 8)%nat.
    split; [dlia|]. rewrite <- Ht. f_equal. dlia. }
  cbn [mbind option_bind]. apply byte_of_nonzero in Hbn as (k0 & Hk0 & Hk0t).
  assert (forall k, (k < 8)%nat ->
    nonzero (Z.land (byte_of w b) (Z.shiftl 1 (Z.of_nat k))) =
      Z.testbit w (8 * Z.of_nat b + Z.of_nat k)) as Hbit.
  { intros k Hk. rewrite land_bit_nonzero by (done || apply byte_of_range).
    rewrite byte_of_bit, bool_decide_true by lia. done. }
  destruct (first_pos_spec (fun k => nonzero (Z.land (byte_of w b) (Z.shiftl 1 (Z.of_nat k)))) 8 0)
    as (k & -> & Hk & Hkt & Hkl); [exists k0; split; [lia|]; by rewrite Hbit|].
  cbn [mbind option_bind]. exists (8 * b + k)%nat. split; [lia|]. split; [|split].
  - f_equal. rewrite u32_small by lia. lia.
  - rewrite Hbit in Hkt by lia. rewrite <- Hkt. f_equal. lia.
  - intros j Hj. apply not_true_is_false. intros Hjt.
    destruct (decide (j / 8 = b)%nat) as [Hjb|Hjb].
    + specialize (Hkl (j mod 8)%nat ltac:(dlia)). rewrite Hbit in Hkl by dlia.
      assert (8 * Z.of_nat b + Z.of_nat (j mod 8) = Z.of_nat j) as E by dlia.
      rewrite E in Hkl. congruence.
    + specialize (Hbl (j / 8)%nat ltac:(dlia)). apply not_true_iff_false in Hbl. apply Hbl.
      apply byte_of_nonzero. exists (j mod 8)%nat. split; [dlia|]. rewrite <- Hjt. f_equal. dlia.
Qed.

(** ** Scanning words *)

(** [r] is the least number from [a] on, below [n], with [P]. *)
Definition least_from (P : nat -> bool) (a n : nat) (r : Z) : Prop :=
  (exists i, (a <= i < n)%nat /\ P i = true /\ (forall j, a <= j < i -> P j = false)%nat /\
     r = Z.of_nat i) \/
  ((forall j, (a <= j < n)%nat -> P j = false) /\ r = MY_BIT_NONE).

Section scan.
Context (m : MY_BITMAP) (Hok : bitmap_ok m) (v : nat -> Z).
Hypothesis v_word : forall k, (k <= last_idx m)%nat -> is_word (v k).

Definition v_bit (i : nat) : bool := Z.testbit (v (i / 32)%nat) (Z.of_nat (i mod 32)).

Lemma v_bit_at k j : (j < 32)%nat -> v_bit (32 * k + j) = Z.testbit (v k) (Z.of_nat j).
Proof.
  intros Hj. unfold v_bit. replace ((32 * k + j) / 32)%nat with k by dlia.
  by replace ((32 * k + j) mod 32)%nat with j by dlia.
Qed.

Lemma last_word_range k : (k <= last_idx m)%nat -> 32 * (Z.of_nat k + 1) < 2 ^ 32.
Proof. destruct Hok. unfold last_idx. intros. dlia. Qed.

(** What both searches do with word [i], the first from word [a] on that is
    not zero, or the last one. *)
Lemma scan_result a i :
  (a <= i <= last_idx m)%nat -> (i < last_idx m -> nonzero (v i) = true)%nat ->
  (forall j, (a <= j < i)%nat -> nonzero (v j) = false) ->
  exists r,
    (if decide (i < last_idx m)%nat then get_first_set (v i) i
     else if negb (nonzero (Z.land (v i) (not32 (last_word_mask m)))) then Some MY_BIT_NONE
     else get_first_set (v i) i) = Some r /\
    least_from v_bit (32 * a) (n_bits m) r.
Proof.
  intros Hai Hi Hz. pose proof (v_word i ltac:(lia)) as Wi.
  assert (forall x, (32 * a <= x < 32 * i)%nat -> v_bit x = false) as Hbefore.
  { intros x Hx. specialize (Hz (x / 32)%nat ltac:(dlia)).
    rewrite zero_bits in Hz by (apply v_word; dlia). apply Hz. dlia. }
  assert (nonzero (v i) = true -> (exists j, (j < 32)%nat /\ (32 * i + j < n_bits m)%nat /\
    Z.testbit (v i) (Z.of_nat j) = true) -> exists r, get_first_set (v i) i = Some r /\
    least_from v_bit (32 * a) (n_bits m) r) as Hfound.
  { intros Hnz (j0 & Hj0 & Hn0 & Ht0).
    destruct (get_first_set_spec (v i) i Wi Hnz) as (j & Hj & -> & Ht & Hl);
      [apply last_word_range; lia|].
    eexists. split; [done|]. left. exists (32 * i + j)%nat.
    assert (j <= j0)%nat.
    { apply Nat.nlt_ge. intros Hlt. rewrite Hl in Ht0 by done. done. }
    split; [lia|]. rewrite v_bit_at by done. split; [done|]. split; [|done].
    intros x Hx. destruct (decide (x < 32 * i)%nat); [apply Hbefore; lia|].
    replace x with (32 * i + (x - 32 * i))%nat by lia. rewrite v_bit_at by lia. apply Hl. lia. }
  case_decide as Hlt.
  - apply Hfound; [by apply Hi|]. specialize (Hi Hlt).
    apply nonzero_bits in Hi as (j & Hj & Ht); [|done]. exists j. split; [done|].
    split; [|done]. pose proof (ok_pos _ Hok). unfold last_idx in Hlt. dlia.
  - assert (i = last_idx m) as -> by lia.
    set (w := Z.land _ _). assert (is_word w) as Ww by by apply is_word_land.
    destruct (nonzero w) eqn:Hw; cbn [negb].
    + apply nonzero_bits in Hw as (j & Hj & Ht); [|done]. unfold w in Ht.
      rewrite Z.land_spec, not32_bit, unused_bit in Ht by (done || lia).
      apply andb_prop in Ht as [Ht Hu%negb_true_iff%bool_decide_eq_false].
      apply Hfound; [|exists j; repeat split; [done|lia|done]].
      apply nonzero_bits; [done|]. by exists j.
    + eexists. split; [done|]. right. split; [|done]. intros x Hx.
      destruct (decide (x < 32 * last_idx m)%nat); [apply Hbefore; lia|].
      pose proof (ok_pos _ Hok). set (j := (x - 32 * last_idx m)%nat).
      assert (j < 32)%nat by (unfold j, last_idx in *; dlia).
      replace x with (32 * last_idx m + j)%nat by lia. rewrite v_bit_at by done.
      rewrite zero_bits in Hw by done. specialize (Hw j ltac:(done)). unfold w in Hw.
      rewrite Z.land_spec, not32_bit, unused_bit in Hw by (done || lia).
      rewrite bool_decide_false in Hw by lia. by rewrite andb_true_r in Hw.
Qed.

End scan.

(** The least element of a set, [MY_BIT_NONE] for the empty one. *)
Definition least_of (X : gset nat) (r : Z) : Prop :=
  (X = ∅ /\ r = MY_BIT_NONE) \/
  (exists i, i ∈ X /\ r = Z.of_nat i /\ forall j, j ∈ X -> (i <= j)%nat).

Lemma least_of_from P (X : gset nat) a n r :
  least_from P a n r -> (forall i, i ∈ X <-> (a <= i < n)%nat /\ P i = true) -> least_of X r.
Proof.
  intros [(i & Hi & Hp & Hl & ->)|[Hall ->]] HX.
  - right. exists i. split; [by apply HX|]. split; [done|]. intros j Hj.
    apply Nat.nlt_ge. intros Hlt. apply HX in Hj as [? Hj]. rewrite Hl in Hj by lia. done.
  - left. split; [|done]. apply set_eq. intros i. rewrite HX. split; [|set_solver].
    intros [Hi Hp]. by rewrite Hall in Hp.
Qed.

Lemma word_word m k : bitmap_ok m -> (k <= last_idx m)%nat -> is_word (word m k).
Proof. intros. by apply bitmap_word_eq. Qed.

Lemma get_first_set_least m :
  bitmap_ok m -> exists r, bitmap_get_first_set m = Some r /\ least_of (members m) r.
Proof.
  intros Hok. unfold bitmap_get_first_set. rewrite last_ptr_eq by done.
  destruct (find_index_spec (fun i => w ← bitmap m !! i; Some (nonzero w))
    (fun k => nonzero (word m k)) 0 (last_idx m)) as (i & -> & _ & Hi & Hlt & Hall).
  { intros k Hk. by destruct (bitmap_word_eq m k) as [-> _]; [done|lia|]. }
  cbn [mbind option_bind].
  destruct (bitmap_word_eq m i) as [-> _]; [done|lia|]. cbn [mbind option_bind].
  destruct (scan_result m Hok (word m) (fun k => word_word m k Hok) 0 i) as (r & -> & Hr); [lia|done..|].
  exists r. split; [done|]. apply (least_of_from _ _ _ _ _ Hr).
  intros x. rewrite elem_of_members. unfold v_bit, word, bit. intuition lia.
Qed.

(** ** The word a search starts in *)

Lemma clear_bytes_word w n : is_word w -> (n <= 4)%nat -> is_word (clear_bytes w n).
Proof.
  intros Ww. induction n as [|n IH]; intros Hn; [done|]. cbn [clear_bytes].
  apply is_word_with_byte; [apply IH; lia|lia..].
Qed.

Lemma clear_bytes_bit w n j :
  (n <= 4)%nat -> 0 <= j < 32 ->
  Z.testbit (clear_bytes w n) j = bool_decide (8 * Z.of_nat n <= j) && Z.testbit w j.
Proof.
  induction n as [|n IH]; intros Hn Hj; cbn [clear_bytes].
  - by rewrite bool_decide_true by lia.
  - rewrite with_byte_bit by lia. specialize (IH ltac:(lia) Hj).
    destruct (decide (j / 8 = Z.of_nat n)) as [Hd|Hd].
    + rewrite Z.bits_0. symmetry. apply andb_false_intro1, bool_decide_eq_false. dlia.
    + rewrite IH. f_equal. apply bool_decide_ext. clear IH. dlia.
Qed.

Definition start_word (w : Z) (b : nat) : Z :=
  let n := (b mod 32 / 8)%nat in
  with_byte (clear_bytes w n) n
    (u8 (Z.land (byte_of (clear_bytes w n) n) (Z.shiftl 0xFF (Z.land (Z.of_nat b) 7)))).

Lemma start_word_bit w b j :
  (j < 32)%nat ->
  Z.testbit (start_word w b) (Z.of_nat j) =
    bool_decide (b mod 32 <= j)%nat && Z.testbit w (Z.of_nat j).
Proof.
  intros Hj. unfold start_word. set (n := (b mod 32 / 8)%nat).
  assert (n < 4)%nat as Hn by (unfold n; dlia).
  rewrite with_byte_bit by (lia || apply u8_range). case_decide as Hd.
  - replace (Z.of_nat j mod 8) with (Z.of_nat (j mod 8)) by dlia.
    rewrite u8_bit, Z.land_spec, byte_of_bit, bool_decide_true by dlia. cbn [andb].
    replace (8 * Z.of_nat n + Z.of_nat (j mod 8)) with (Z.of_nat j) by dlia.
    rewrite clear_bytes_bit, bool_decide_true by dlia. cbn [andb].
    rewrite andb_comm. f_equal. change 7 with (Z.ones 3). change 0xFF with (Z.ones 8).
    rewrite Z.land_ones by lia. change (2 ^ 3) with 8. 
    rewrite Z.shiftl_spec by lia. case_bool_decide as Hb.
    + apply Z.ones_spec_low. unfold n in *. dlia.
    + apply Z.testbit_neg_r. unfold n in *. dlia.
  - rewrite clear_bytes_bit by lia. f_equal. apply bool_decide_ext. unfold n in *. dlia.
Qed.

Lemma start_word_word w b : is_word w -> is_word (start_word w b).
Proof.
  intros. apply is_word_with_byte; [apply clear_bytes_word; [done|dlia]|dlia|apply u8_range].
Qed.

Lemma least_from_later P Q a b n r :
  least_from P a n r -> (a <= b)%nat -> (forall i, a <= i < b -> P i = false)%nat ->
  (forall i, b <= i -> P i = Q i)%nat -> least_from Q b n r.
Proof.
  intros [(i & Hi & Hp & Hl & ->)|[Hall ->]] Hab HP HQ.
  - left. exists i.
    assert (b <= i)%nat by (apply Nat.nlt_ge; intros ?; rewrite HP in Hp by lia; done).
    split; [lia|]. split; [by rewrite <- HQ|]. split; [|done].
    intros j Hj. rewrite <- HQ by lia. apply Hl. lia.
  - right. split; [|done]. intros j Hj. rewrite <- HQ by lia. apply Hall. lia.
Qed.

(** The words, with [fw] in place of word [p]. *)
Definition words_from (m : MY_BITMAP) (p : nat) (fw : Z) (k : nat) : Z :=
  if decide (k = p) then fw else word m k.

Lemma next_set_scan m p fw :
  bitmap_ok m -> (p <= last_idx m)%nat -> is_word fw ->
  exists r, least_from (v_bit (words_from m p fw)) (32 * p) (n_bits m) r /\
    (if decide (p = last_idx m) then
       if nonzero (Z.land fw (not32 (last_word_mask m))) then get_first_set fw p else Some MY_BIT_NONE
     else if nonzero fw then get_first_set fw p else
       i ← find_index (fun i => w ← bitmap m !! i; Some (nonzero w)) (S p) (last_idx m);
       w ← bitmap m !! i;
       if decide (i < last_idx m)%nat then get_first_set w i
       else if negb (nonzero (Z.land w (not32 (last_word_mask m)))) then Some MY_BIT_NONE
       else get_first_set w i) = Some r.
Proof.
  intros Hok Hp Wf. set (v := words_from m p fw).
  assert (forall k, (k <= last_idx m)%nat -> is_word (v k)) as Wv.
  { intros k Hk. unfold v, words_from. case_decide; [done|by apply word_word]. }
  assert (v p = fw) as Evp by (unfold v, words_from; by rewrite decide_True).
  case_decide as Hpl.
  - destruct (scan_result m Hok v Wv p p) as (r & E & Hr); [lia..|].
    exists r. split; [done|]. rewrite decide_False, Evp in E by lia. rewrite <- E.
    by destruct (nonzero (Z.land fw _)).
  - destruct (nonzero fw) eqn:Hfw.
    + destruct (scan_result m Hok v Wv p p) as (r & E & Hr); [lia|by rewrite Evp|lia|].
      exists r. split; [done|]. by rewrite decide_True, Evp in E by lia.
    + destruct (find_index_spec (fun i => w ← bitmap m !! i; Some (nonzero w))
        (fun k => nonzero (word m k)) (S p) (last_idx m)) as (i & -> & Hpi & Hi & Hlt & Hall).
      { intros k Hk. by destruct (bitmap_word_eq m k) as [-> _]; [done|lia|]. }
      cbn [mbind option_bind].
      destruct (bitmap_word_eq m i) as [-> _]; [done|lia|]. cbn [mbind option_bind].
      assert (v i = word m i) as Evi by (unfold v, words_from; by rewrite decide_False by lia).
      destruct (scan_result m Hok v Wv p i) as (r & E & Hr); [lia|by rewrite Evi| |].
      { intros j Hj. unfold v, words_from. case_decide; [done|]. apply Hall. lia. }
      exists r. split; [done|]. by rewrite Evi in E.
Qed.

Lemma get_next_set_least m b :
  bitmap_ok m -> Z.of_nat b + 1 < 2 ^ 32 ->
  exists r, bitmap_get_next_set m b = Some r /\ least_of (filter (fun i => (b < i)%nat) (members m)) r.
Proof.
  intros Hok Hb. unfold bitmap_get_next_set. rewrite last_ptr_eq, u32_small by (done || lia).
  replace (Z.to_nat (Z.of_nat b + 1)) with (S b) by lia. case_decide as Hn.
  { eexists. split; [done|]. left. split; [|done]. apply set_eq. intros i.
    rewrite elem_of_filter, elem_of_members. split; [lia|set_solver]. }
  set (p := (S b / 32)%nat).
  assert (p <= last_idx m)%nat as Hp by (unfold p, last_idx; dlia).
  destruct (bitmap_word_eq m p) as [-> Wp]; [done..|]. cbn [mbind option_bind].
  fold (start_word (word m p) (S b)).
  destruct (next_set_scan m p (start_word (word m p) (S b)) Hok Hp (start_word_word _ _ Wp))
    as (r & Hr & E).
  exists r. split; [done|]. apply (least_of_from (bit (bitmap m)) _ (S b) (n_bits m)).
  - apply (least_from_later _ _ _ _ _ _ Hr); [unfold p; dlia|..]; unfold v_bit, words_from.
    + intros i Hi. rewrite decide_True by (unfold p in *; dlia).
      rewrite start_word_bit, bool_decide_false by (unfold p in *; dlia). done.
    + intros i Hi. destruct (decide (i / 32 = p)%nat) as [Hip|Hip]; [|done].
      rewrite start_word_bit, bool_decide_true by (unfold p in *; dlia).
      unfold bit, word. by rewrite Hip.
  - intros i. rewrite elem_of_filter, elem_of_members. intuition lia.
Qed.

(** ** The first free bit *)

Lemma byte_not32 w j k :
  (j < 4)%nat -> (k < 8)%nat ->
  Z.testbit (byte_of (not32 w) j) (Z.of_nat k) = negb (Z.testbit (byte_of w j) (Z.of_nat k)).
Proof.
  intros. rewrite !byte_of_bit, bool_decide_true, not32_bit by lia. done.
Qed.

Lemma byte_full w j : (j < 4)%nat -> negb (byte_of w j =? 0xFF) = nonzero (byte_of (not32 w) j).
Proof.
  intros Hj. pose proof (byte_of_range w j). pose proof (byte_of_range (not32 w) j).
  apply eq_bool_prop_intro. rewrite !Is_true_true.
  rewrite negb_true_iff, Z.eqb_neq, nonzero_true.
  assert (byte_of w j = 255 <-> byte_of (not32 w) j = 0); [|tauto].
  rewrite !byte_ext by lia. split; intros Hk k Hk8; specialize (Hk k Hk8).
  - rewrite byte_not32, Hk, Z.bits_0 by done. 
    by rewrite (Z.ones_spec_low 8) by lia.
  - rewrite byte_not32, Z.bits_0 in Hk by done. apply negb_false_iff in Hk. rewrite Hk.
    by rewrite (Z.ones_spec_low 8) by lia.
Qed.

(** The search for a zero bit of a word is the search for a one bit of its
    complement. *)
Lemma first_zero_spec {A} w i (x : A) :
  is_word w ->
  (j ← first_pos (fun j => negb (byte_of w j =? 0xFF)) 4 0;
   k ← first_pos (fun k => negb (nonzero (Z.land (byte_of w j) (Z.shiftl 1 (Z.of_nat k))))) 8 0;
   Some (u32 (Z.of_nat (i * 32 + j * 8 + k)), x)) = r ← get_first_set (not32 w) i; Some (r, x).
Proof.
  intros Ww. unfold get_first_set.
  rewrite (first_pos_ext _ (fun j => nonzero (byte_of (not32 w) j))) by (intros; apply byte_full; lia).
  destruct (first_pos (fun j => nonzero (byte_of (not32 w) j)) 4 0) as [j|] eqn:Ej; [|done].
  cbn [mbind option_bind].
  assert (j < 4)%nat as Hj.
  { destruct (decide (j < 4)%nat); [done|exfalso].
    cbn [first_pos] in Ej. repeat case_match; simplify_eq; lia. }
  rewrite (first_pos_ext _ (fun k => nonzero (Z.land (byte_of (not32 w) j) (Z.shiftl 1 (Z.of_nat k))))).
  - by destruct (first_pos _ 8 0).
  - intros k Hk. rewrite !land_bit_nonzero by (apply byte_of_range || lia).
    by rewrite byte_not32 by lia.
Qed.

(** Setting the unused bits changes no member. *)
Lemma set_unused m :
  bitmap_ok m ->
  becomes m (set_words m (<[last_idx m := Z.lor (word m (last_idx m)) (last_word_mask m)]> (bitmap m)))
    (members m).
Proof.
  intros Hok. pose proof (last_word_lt m Hok) as Hl. pose proof (mask_word_ok m Hok) as Wm.
  pose proof (word_word m (last_idx m) Hok (le_n _)) as Ww.
  apply becomes_words; [done| |apply members_universe|].
  - split; [by rewrite length_insert|]. apply Forall_insert; [by destruct Hok|by apply is_word_lor].
  - intros i Hi. rewrite elem_of_members.
    assert (bit (<[last_idx m := Z.lor (word m (last_idx m)) (last_word_mask m)]> (bitmap m)) i =
      bit (bitmap m) i) as ->; [|tauto].
    unfold bit. destruct (decide (i / 32 = last_idx m)%nat) as [Heq|Hne].
    + rewrite Heq, list_lookup_insert_eq by done. simpl. rewrite Z.lor_spec, unused_bit by (done || dlia).
      rewrite bool_decide_false by dlia. by rewrite orb_false_r.
    + by rewrite list_lookup_insert_ne by done.
Qed.

Lemma or_mask_full m x :
  bitmap_ok m -> is_word x ->
  Z.lor x (last_word_mask m) = 0xFFFFFFFF <->
  nonzero (Z.land (not32 x) (not32 (last_word_mask m))) = false.
Proof.
  intros Hok Wx. pose proof (mask_word_ok m Hok) as Wm.
  assert (Z.land (not32 x) (not32 (last_word_mask m)) = not32 (Z.lor x (last_word_mask m))) as ->.
  { apply word_ext; [by apply is_word_land, is_word_not32|by apply is_word_not32, is_word_lor|].
    intros i Hi. rewrite Z.land_spec, !not32_bit, Z.lor_spec by done. by rewrite negb_orb. }
  rewrite not32_ones by by apply is_word_lor. rewrite negb_false_iff. symmetry. apply Z.eqb_eq.
Qed.

Lemma get_first_least m :
  bitmap_ok m ->
  exists r m', bitmap_get_first m = Some (r, m') /\
    least_of (universe m ∖ members m) r /\ becomes m m' (members m).
Proof.
  intros Hok. unfold bitmap_get_first, word_at. rewrite last_ptr_eq by done.
  rewrite decide_False by (rewrite ok_ptr by done; lia).
  destruct (bitmap_word_eq m (last_idx m)) as [-> _]; [done|lia|]. cbn [mbind option_bind].
  pose proof (set_unused m Hok) as HB. set (m' := set_words m _) in *.
  change (<[last_idx m := _]> (bitmap m)) with (bitmap m').
  pose proof HB as (Hok' & Hn' & Hmem).
  assert (last_idx m' = last_idx m) as Hli by done.
  destruct (find_index_spec (fun i => w ← bitmap m' !! i; Some (negb (w =? 0xFFFFFFFF)))
    (fun k => nonzero (not32 (word m' k))) 0 (last_idx m)) as (i & -> & _ & Hi & Hlt & Hall).
  { intros k Hk. destruct (bitmap_word_eq m' k) as [-> ?]; [done|lia|].
    simpl. by rewrite not32_ones. }
  cbn [mbind option_bind].
  destruct (bitmap_word_eq m' i) as [-> Wi]; [done|lia|]. cbn [mbind option_bind].
  destruct (scan_result m' Hok' (fun k => not32 (word m' k))) with (a := 0%nat) (i := i)
    as (r & E & Hr); [intros; apply is_word_not32, word_word; done|lia|done|done|].
  exists r, m'.
  assert (least_of (universe m ∖ members m) r) as Hleast.
  { apply (least_of_from _ _ _ _ _ Hr). intros x.
    rewrite elem_of_difference, elem_of_universe, <- Hmem, elem_of_members, Hn'.
    unfold v_bit. rewrite not32_bit, negb_true_iff, <- not_true_iff_false by dlia.
    unfold word, bit. intuition lia. }
  split; [|done]. rewrite Hli in E.
  change (last_word_mask m) with (last_word_mask m').
  pose proof (or_mask_full m' (word m' i) Hok' Wi) as Hfull.
  destruct (decide (¬ (i < last_idx m)%nat ∧ Z.lor (word m' i) (last_word_mask m') = 0xFFFFFFFF))
    as [Hd|Hd].
  - destruct Hd as [Hge Hones]. apply Hfull in Hones.
    rewrite decide_False, Hones in E by done. simpl in E. by simplify_eq.
  - rewrite first_zero_spec by done.
    assert (get_first_set (not32 (word m' i)) i = Some r) as ->; [|done].
    destruct (decide (i < last_idx m)%nat); [done|].
    destruct (nonzero (Z.land _ _)); [done|]. tauto.
Qed.

Lemma least_none X r : least_of X r -> (forall i, i ∈ X -> Z.of_nat i < MY_BIT_NONE) ->
  r = MY_BIT_NONE <-> X = ∅.
Proof.
  intros [[-> ->]|(i & Hi & -> & _)] HX; [done|]. specialize (HX i Hi).
  split; [lia|]. intros ->. set_solver.
Qed.

Lemma set_next_least m :
  bitmap_ok m ->
  exists r m', bitmap_set_next m = Some (r, m') /\ least_of (universe m ∖ members m) r /\
    becomes m m' (if decide (members m = universe m) then members m
                  else {[Z.to_nat r]} ∪ members m).
Proof.
  intros Hok. unfold bitmap_set_next.
  destruct (get_first_least m Hok) as (r & m1 & -> & Hr & (Hok1 & Hn1 & Hm1)).
  cbn [mbind option_bind]. pose proof (members_universe m) as HU.
  pose proof (least_none _ _ Hr) as Hnone. 
  assert (r = MY_BIT_NONE <-> universe m ∖ members m = ∅) as Hiff.
  { apply Hnone. intros i [Hi _]%elem_of_difference. apply elem_of_universe in Hi.
    pose proof (ok_small _ Hok). unfold MY_BIT_NONE. lia. }
  assert (universe m ∖ members m = ∅ <-> members m = universe m) as Hfull.
  { split; [|set_solver]. intros HE. apply set_eq. intros i. destruct (decide (i ∈ members m)); set_solver. }
  destruct (decide (r ≠ MY_BIT_NONE)) as [Hd|Hd].
  - destruct Hr as [[_ ->]|(i & Hi & -> & Hleast)]; [done|]. rewrite Nat2Z.id. apply elem_of_difference in Hi as [Hi%elem_of_universe Hni].
    destruct (set_bit_spec m1 i) as (b & ws & Eb & Ew & _ & (Hok2 & Hn2 & Hm2)); [done|lia|].
    unfold bitmap_set_bit. rewrite Eb. cbn [mbind option_bind]. rewrite Ew. cbn [mbind option_bind].
    eexists _, _. split; [done|]. split.
    + right. exists i. split; [|done]. apply elem_of_difference. by rewrite elem_of_universe.
    + rewrite decide_False, Nat2Z.id by tauto. split; [done|]. split; [congruence|]. by rewrite Hm2, Hm1.
  - assert (r = MY_BIT_NONE) as Hr0 by (destruct (decide (r = MY_BIT_NONE)); tauto).
    eexists _, _. split; [done|]. split; [done|]. rewrite decide_True by tauto. by split.
Qed.

(** ** Counting *)

(** The number of set bits among the [n] from [a] on. *)
Definition count (ws : list Z) (a n : nat) : nat :=
  length (filter (fun i => bit ws i = true) (seq a n)).

Lemma bit_count_app ws a n k : count ws a (n + k) = (count ws a n + count ws (a + n) k)%nat.
Proof. unfold count. by rewrite seq_app, filter_app, length_app. Qed.

Lemma count_le ws a n : (count ws a n <= n)%nat.
Proof. unfold count. etrans; [apply length_filter|]. by rewrite length_seq. Qed.

Lemma ones_below_count n : forall w (P : nat -> bool) a,
  (forall j, (j < n)%nat -> P (a + j)%nat = Z.testbit w (Z.of_nat j)) ->
  ones_below n w = Z.of_nat (length (filter (fun i => P i = true) (seq a n))).
Proof.
  induction n as [|n IH]; intros w P a HP; [done|]. cbn [ones_below seq].
  rewrite filter_cons. rewrite (IH _ P (S a)).
  2: { intros j Hj. replace (S a + j)%nat with (a + S j)%nat by lia. rewrite HP by lia.
       rewrite Z.div2_spec, Z.shiftr_spec by lia. f_equal. lia. }
  pose proof (HP 0%nat ltac:(lia)) as H0. replace (a + 0)%nat with a in H0 by lia.
  change (Z.of_nat 0) with 0 in H0. rewrite Z.bit0_odd in H0. rewrite <- H0.
  destruct (P a); simpl; lia.
Qed.

Lemma size_members m : size (members m) = count (bitmap m) 0 (n_bits m).
Proof.
  unfold members, count. apply size_list_to_set. apply NoDup_filter, NoDup_seq.
Qed.

Lemma count_word m k : bitmap_ok m -> (k <= last_idx m)%nat ->
  my_count_bits_uint32 (word m k) = Z.of_nat (count (bitmap m) (32 * k) 32).
Proof.
  intros Hok Hk. rewrite count_uint32_correct by by apply word_word.
  apply (ones_below_count 32 _ (bit (bitmap m))). intros j Hj. by rewrite word_bit.
Qed.

Lemma count_words_spec m n : forall i res,
  bitmap_ok m -> (i + n <= last_idx m)%nat -> 0 <= res -> res + 32 * Z.of_nat n < 2 ^ 32 ->
  count_words (bitmap m) i n res = Some (res + Z.of_nat (count (bitmap m) (32 * i) (32 * n))).
Proof.
  induction n as [|n IH]; intros i res Hok Hi Hr Hb; cbn [count_words].
  { f_equal. unfold count. simpl. lia. }
  destruct (bitmap_word_eq m i) as [-> _]; [done|lia|]. cbn [mbind option_bind].
  rewrite count_word by (done || lia). pose proof (count_le (bitmap m) (32 * i) 32).
  rewrite u32_small by lia. rewrite IH by (done || lia). f_equal.
  replace (32 * S n)%nat with (32 + 32 * n)%nat by lia. rewrite bit_count_app.
  replace (32 * i + 32)%nat with (32 * S i)%nat by lia. lia.
Qed.

Lemma bit_count_ext (P : nat -> bool) ws a n :
  (forall i, (a <= i < a + n)%nat -> P i = bit ws i) ->
  length (filter (fun i => P i = true) (seq a n)) = count ws a n.
Proof.
  unfold count. revert a. induction n as [|n IH]; intros a HP; [done|]. cbn [seq].
  rewrite !filter_cons, HP by lia. specialize (IH (S a) ltac:(intros; apply HP; lia)).
  by destruct (bit ws a); simpl; rewrite IH.
Qed.

Lemma count_none (P : nat -> bool) a n :
  (forall i, (a <= i < a + n)%nat -> P i = false) ->
  length (filter (fun i => P i = true) (seq a n)) = 0%nat.
Proof.
  revert a. induction n as [|n IH]; intros a HP; [done|]. cbn [seq].
  rewrite filter_cons, HP by lia. simpl. apply IH. intros. apply HP. lia.
Qed.

Lemma count_last m : bitmap_ok m ->
  my_count_bits_uint32 (Z.land (word m (last_idx m)) (not32 (last_word_mask m))) =
    Z.of_nat (count (bitmap m) (32 * last_idx m) (n_bits m - 32 * last_idx m)).
Proof.
  intros Hok. pose proof (ok_pos _ Hok).
  assert (n_bits m - 32 * last_idx m <= 32)%nat by (unfold last_idx; dlia).
  rewrite count_uint32_correct by by apply is_word_land, word_word.
  rewrite (ones_below_count 32 _
    (fun i => bit (bitmap m) i && bool_decide (i < n_bits m)%nat) (32 * last_idx m)).
  2: { intros j Hj. rewrite Z.land_spec, not32_bit, unused_bit, word_bit by (done || lia).
       f_equal. rewrite <- bool_decide_not. apply bool_decide_ext. lia. }
  f_equal. unfold count.
  replace 32%nat with ((n_bits m - 32 * last_idx m) + (32 - (n_bits m - 32 * last_idx m)))%nat at 2 by lia.
  rewrite seq_app, filter_app, length_app.
  rewrite (bit_count_ext _ (bitmap m)), count_none; [unfold count; lia|..].
  - intros i Hi. by rewrite bool_decide_false, andb_false_r by lia.
  - intros i Hi. by rewrite bool_decide_true, andb_true_r by lia.
Qed.

Lemma bits_set_size m :
  bitmap_ok m -> bitmap_bits_set m = Some (Z.of_nat (size (members m))).
Proof.
  intros Hok. unfold bitmap_bits_set, word_at. rewrite last_ptr_eq by done.
  rewrite decide_False by (rewrite ok_ptr by done; lia).
  pose proof (ok_pos _ Hok). pose proof (ok_small _ Hok).
  assert (32 * last_idx m < n_bits m <= 32 * last_idx m + 32)%nat by (unfold last_idx; dlia).
  rewrite count_words_spec by (done || lia). cbn [mbind option_bind].
  destruct (bitmap_word_eq m (last_idx m)) as [-> _]; [done|lia|]. cbn [mbind option_bind].
  rewrite count_last by done. rewrite size_members.
  assert (count (bitmap m) 0 (n_bits m) =
    count (bitmap m) (32 * 0) (32 * last_idx m) +
    count (bitmap m) (32 * last_idx m) (n_bits m - 32 * last_idx m))%nat as ->.
  { rewrite <- bit_count_app. f_equal. lia. }
  pose proof (count_le (bitmap m) (32 * 0) (32 * last_idx m)).
  pose proof (count_le (bitmap m) (32 * last_idx m) (n_bits m - 32 * last_idx m)).
  f_equal. rewrite u32_small; lia.
Qed.

(** C34: The searches return the least member, the least member behind a
    number and the least number that is not a member, or MY_BIT_NONE when
    there is none; taking the next free bit sets it; the count is the number
    of members. *)
Theorem bitmap_searches_correct m b :
  bitmap_ok m -> Z.of_nat b + 1 < 2 ^ 32 ->
  (exists r, bitmap_get_first_set m = Some r /\ least_of (members m) r) /\
  (exists r, bitmap_get_next_set m b = Some r /\
     least_of (filter (fun i => (b < i)%nat) (members m)) r) /\
  (exists r m', bitmap_get_first m = Some (r, m') /\
     least_of (universe m ∖ members m) r /\ becomes m m' (members m)) /\
  (exists r m', bitmap_set_next m = Some (r, m') /\ least_of (universe m ∖ members m) r /\
     becomes m m' (if decide (members m = universe m) then members m
                   else {[Z.to_nat r]} ∪ members m)) /\
  bitmap_bits_set m = Some (Z.of_nat (size (members m))).
Proof.
  intros. auto 8 using get_first_set_least, get_next_set_least, get_first_least, set_next_least,
    bits_set_size.
Qed.

End BitmapSearch.
