(* ===== verification/BitmapFill.v ===== *)
(** * Initialising and filling bitmaps, and tests on several of them

    Initialisation, runs of bits and prefixes, and the tests of
    mysys/my_bitmap.c that look at a union or at an intersection of many
    bitmaps. *)

From S2P Require Import Prelude MyBit Bitmap BitmapProofs BitmapSearch.
Import MyBit Bitmap BitmapProofs BitmapSearch.

#[local] Open Scope Z_scope.

Module BitmapFill.

(** ** Runs of bytes *)

Lemma ff_bit j : (j < 8)%nat -> Z.testbit 0xff (Z.of_nat j) = true.
Proof. intros. change 0xff with (Z.ones 8). apply Z.ones_spec_low. lia. Qed.

Lemma clear_all_spec m :
  bitmap_ok m -> exists m', bitmap_clear_all m = Some m' /\ becomes m m' ∅.
Proof.
  intros Hok. unfold bitmap_clear_all. rewrite no_words_eq by done.
  destruct (memset_spec (4 * ((n_bits m + 31) / 32)) (bitmap m) 0 0) as (ws & -> & Hw & Hb);
    [by destruct Hok|destruct Hok; lia|lia|].
  cbn [mbind option_bind]. eexists. split; [done|]. apply becomes_words; [done..|set_solver|].
  intros i Hi. rewrite Hb, decide_True, Z.bits_0 by dlia. set_solver.
Qed.

Lemma set_all_spec m :
  bitmap_ok m -> exists m', bitmap_set_all m = Some m' /\ becomes m m' (universe m).
Proof.
  intros Hok. unfold bitmap_set_all. rewrite no_words_eq by done.
  destruct (memset_spec (4 * ((n_bits m + 31) / 32)) (bitmap m) 0 0xff) as (ws & -> & Hw & Hb);
    [by destruct Hok|destruct Hok; lia|lia|].
  cbn [mbind option_bind]. eexists. split; [done|]. apply becomes_words; [done..|].
  intros i Hi. rewrite Hb, decide_True, ff_bit, elem_of_universe by dlia. tauto.
Qed.

Lemma init_spec buf n :
  Forall is_word buf -> (0 < n)%nat -> Z.of_nat n + 31 < 2 ^ 32 ->
  (bitmap_buffer_size n <= 4 * length buf)%nat ->
  exists m, bitmap_clear_all (create_last_word_mask (mk_bitmap buf 0 0 n)) = Some m /\
    bitmap_ok m /\ n_bits m = n /\ members m = ∅.
Proof.
  intros HF Hn Hs Hl. unfold bitmap_buffer_size in Hl. rewrite u32_small in Hl by lia.
  assert (bitmap_ok (create_last_word_mask (mk_bitmap buf 0 0 n))) as Hok.
  { split; simpl; [done..| | |].
    - dlia.
    - unfold no_words_in_map. simpl. rewrite u32_small by lia. dlia.
    - unfold no_bytes_in_map. simpl. apply mask_word_correct; [done|lia]. }
  destruct (clear_all_spec _ Hok) as (m & E & Hm & Hnm & HX). by exists m.
Qed.

(** ** Prefixes *)

(** The whole bytes of a prefix of [q] bits. *)
Lemma prefix_bytes ws q :
  Forall is_word ws -> (q <= 32 * length ws)%nat ->
  exists ws', (if decide ((q / 8)%nat ≠ 0%nat) then memset ws 0 0xff (q / 8) else Some ws) = Some ws' /\
    words_ok ws ws' /\ forall i, (i / 8 < q / 8)%nat -> bit ws' i = true.
Proof.
  intros HF Hq. case_decide as Hz.
  - destruct (memset_spec (q / 8) ws 0 0xff HF) as (ws' & -> & Hw & Hb); [dlia|lia|].
    exists ws'. split; [done|]. split; [done|]. intros i Hi.
    rewrite Hb, decide_True, ff_bit by dlia. done.
  - exists ws. split; [done|]. split; [done|]. intros i Hi. lia.
Qed.

(** The bits of its last byte; [k] bytes are written then. *)
Lemma prefix_bits ws q :
  Forall is_word ws -> (q <= 32 * length ws)%nat ->
  (forall i, (i / 8 < q / 8)%nat -> bit ws i = true) ->
  exists ws' k, (if decide (Z.land (Z.of_nat q) 7 ≠ 0) then
       ws ← set_byte ws (q / 8) (u8 (Z.shiftl 1 (Z.land (Z.of_nat q) 7) - 1));
       Some (ws, S (q / 8), S (q / 8))
     else Some (ws, (q / 8)%nat, (q / 8)%nat)) = Some (ws', k, k) /\
    words_ok ws ws' /\ k = ((q + 7) / 8)%nat /\
    forall i, (i / 8 < k)%nat -> bit ws' i = bool_decide (i < q)%nat.
Proof.
  intros HF Hq Hb1. change 7 with (Z.ones 3). rewrite Z.land_ones by lia. change (2 ^ 3) with 8.
  case_decide as Hz.
  - destruct (set_byte_spec ws (q / 8) (u8 (Z.shiftl 1 (Z.of_nat q mod 8) - 1)) HF)
      as (ws' & -> & Hw & Hb); [dlia|apply u8_range|].
    exists ws', (S (q / 8)). split; [done|]. split; [done|]. split; [dlia|].
    intros i Hi. rewrite Hb. case_decide as Hd.
    + rewrite u8_bit by dlia. rewrite Z.shiftl_mul_pow2, Z.mul_1_l by dlia.
      rewrite Z.sub_1_r, <- Z.ones_equiv. case_bool_decide.
      * apply Z.ones_spec_low. dlia.
      * apply Z.ones_spec_high. dlia.
    + rewrite Hb1 by dlia. symmetry. apply bool_decide_eq_true. dlia.
  - exists ws, (q / 8)%nat. split; [done|]. split; [done|]. split; [dlia|]. intros i Hi.
    rewrite Hb1 by done. symmetry. apply bool_decide_eq_true. dlia.
Qed.

Lemma elem_of_prefix q i : i ∈ (set_seq 0 q : gset nat) <-> (i < q)%nat.
Proof. rewrite elem_of_set_seq. lia. Qed.

Lemma set_prefix_spec m p :
  bitmap_ok m -> exists m', bitmap_set_prefix m p = Some m' /\
    becomes m m' (set_seq 0 (p `min` n_bits m)).
Proof.
  intros Hok. unfold bitmap_set_prefix. rewrite no_bytes_eq by done.
  pose proof (ok_length _ Hok) as Hlen. pose proof (ok_pos _ Hok) as Hpos.
  assert (p `min` n_bits m <= n_bits m)%nat as Hq by lia.
  set (q := (p `min` n_bits m)%nat) in *. clearbody q.
  destruct (prefix_bytes (bitmap m) q) as (ws1 & -> & [Hl1 HF1] & Hb1); [by destruct Hok|dlia|].
  cbn [mbind option_bind].
  destruct (prefix_bits ws1 q) as (ws2 & k & -> & [Hl2 HF2] & Hk & Hb2); [done|dlia|done|].
  cbn [mbind option_bind].
  assert (exists ws3, (if decide (((n_bits m + 7) / 8 - k)%nat ≠ 0%nat)
      then memset ws2 k 0 ((n_bits m + 7) / 8 - k) else Some ws2) = Some ws3 /\
      words_ok (bitmap m) ws3 /\
      forall i, (i < n_bits m)%nat -> bit ws3 i = bool_decide (i < q)%nat) as (ws3 & -> & Hw & Hb3).
  { case_decide as Hz.
    - destruct (memset_spec ((n_bits m + 7) / 8 - k) ws2 k 0 HF2) as (ws3 & -> & [Hl3 HF3] & Hb);
        [dlia|lia|].
      exists ws3. split; [done|]. split; [split; [congruence|done]|]. intros i Hi. rewrite Hb.
      case_decide; [rewrite Z.bits_0; symmetry; apply bool_decide_eq_false; dlia|].
      apply Hb2. dlia.
    - exists ws2. split; [done|]. split; [split; [congruence|done]|]. intros i Hi. apply Hb2. dlia. }
  cbn [mbind option_bind]. eexists. split; [done|]. apply becomes_words; [done..| |].
  - intros i. rewrite elem_of_prefix, elem_of_universe. lia.
  - intros i Hi. rewrite Hb3, elem_of_prefix by done. apply bool_decide_eq_true.
Qed.

Lemma set_above_spec m from use_bit :
  bitmap_ok m -> exists m', bitmap_set_above m from use_bit = Some m' /\
    becomes m m' (filter (fun i => (i / 8 < from)%nat) (members m) ∪
                  if use_bit then filter (fun i => (from <= i / 8)%nat) (universe m) else ∅).
Proof.
  intros Hok. unfold bitmap_set_above. pose proof (ok_small _ Hok).
  pose proof (ok_length _ Hok) as Hlen. pose proof (ok_words _ Hok) as HF. rewrite u32_small by lia.
  set (stop := Z.to_nat ((Z.of_nat (n_bits m) + 7) / 8)).
  assert (stop = (n_bits m + 7) / 8)%nat as Hstop by (unfold stop; dlia). clearbody stop.
  assert (exists ws, memset (bitmap m) from (if use_bit then 0xff else 0) (stop - from) = Some ws /\
    words_ok (bitmap m) ws /\ forall i, bit ws i = if decide (from <= i / 8 < from + (stop - from))%nat
      then use_bit else bit (bitmap m) i) as (ws & -> & Hw & Hb).
  { destruct (decide (from <= stop)%nat).
    - destruct (memset_spec (stop - from) (bitmap m) from (if use_bit then 0xff else 0) HF)
        as (ws & -> & Hw & Hb); [dlia|by destruct use_bit|].
      exists ws. split; [done|]. split; [done|]. intros i. rewrite Hb. case_decide; [|done].
      destruct use_bit; [apply ff_bit; dlia|apply Z.bits_0].
    - replace (stop - from)%nat with 0%nat by lia. exists (bitmap m).
      split; [done|]. split; [done|]. intros i. by rewrite decide_False by lia. }
  cbn [mbind option_bind]. eexists. split; [done|]. apply becomes_words; [done..| |].
  - pose proof (members_universe m). destruct use_bit; set_solver.
  - intros i Hi. rewrite elem_of_union, elem_of_filter, elem_of_members, Hb.
    assert (i ∈ (if use_bit then filter (fun i => (from <= i / 8)%nat) (universe m) else ∅) <->
      use_bit = true /\ (from <= i / 8)%nat) as ->.
    { destruct use_bit; [rewrite elem_of_filter, elem_of_universe|]; set_solver by lia. }
    case_decide; naive_solver dlia.
Qed.

(** A new bitmap is empty; clearing, setting, setting a prefix and setting
    everything above a byte give the sets they are named after; all writes
    are inside the array. *)
Lemma bitmap_fill_correct m buf n p from use_bit :
  bitmap_ok m ->
  (Forall is_word buf -> (0 < n)%nat -> Z.of_nat n + 31 < 2 ^ 32 ->
   (bitmap_buffer_size n <= 4 * length buf)%nat ->
   exists m', my_bitmap_init (Some buf) n None = Some (false, Some m') /\
     bitmap_ok m' /\ n_bits m' = n /\ members m' = ∅) /\
  (exists m', bitmap_clear_all m = Some m' /\ becomes m m' ∅) /\
  (exists m', bitmap_set_all m = Some m' /\ becomes m m' (universe m)) /\
  (exists m', bitmap_set_prefix m p = Some m' /\ becomes m m' (set_seq 0 (p `min` n_bits m))) /\
  (exists m', bitmap_set_above m from use_bit = Some m' /\
    becomes m m' (filter (fun i => (i / 8 < from)%nat) (members m) ∪
                  if use_bit then filter (fun i => (from <= i / 8)%nat) (universe m) else ∅)).
Proof.
  intros Hok. split; [|auto using clear_all_spec, set_all_spec, set_prefix_spec, set_above_spec].
  intros HF Hn Hs Hl. destruct (init_spec buf n HF Hn Hs Hl) as (m' & E & Hm).
  exists m'. split; [|done]. unfold my_bitmap_init. by rewrite E.
Qed.

(** ** Testing for a prefix *)

Lemma last_byte_mask_bit n j :
  (0 < n)%nat -> (j < 8)%nat ->
  Z.testbit (last_byte_mask (Z.of_nat n)) (Z.of_nat j) = bool_decide (j <= (n - 1) mod 8)%nat.
Proof.
  intros Hn Hj. rewrite last_byte_mask_correct, Z.sub_1_r, <- Z.ones_equiv.
  case_bool_decide; [apply Z.ones_spec_low|apply Z.ones_spec_high]; dlia.
Qed.

Lemma last_byte_mask_range n : 0 <= last_byte_mask (Z.of_nat n) < 256.
Proof. apply u8_range. Qed.

Lemma byte_eqb ws k b v :
  get_byte ws k = Some b -> (k < 4 * length ws)%nat -> 0 <= v < 256 ->
  (b =? v) = true <-> forall j, (j < 8)%nat -> bit ws (8 * k + j) = Z.testbit v (Z.of_nat j).
Proof.
  intros E Hk Hv. destruct (get_byte_spec ws k Hk) as (b' & E' & Hb & Bb).
  rewrite E in E'. injection E' as <-. rewrite Z.eqb_eq, byte_ext by done.
  split; intros H j Hj; [rewrite <- Bb by done|rewrite Bb by done]; by apply H.
Qed.

Lemma last_byte_eqb ws k b v n :
  get_byte ws k = Some b -> (k < 4 * length ws)%nat -> (0 < n)%nat -> ((n - 1) / 8)%nat = k ->
  0 <= v < 256 -> (forall j, (j < 8)%nat -> (n <= 8 * k + j)%nat -> Z.testbit v (Z.of_nat j) = false) ->
  (Z.land b (last_byte_mask (Z.of_nat n)) =? v) = true <->
  forall j, (8 * k + j < n)%nat -> bit ws (8 * k + j) = Z.testbit v (Z.of_nat j).
Proof.
  intros E Hk Hn Hk8 Hv Hvn. destruct (get_byte_spec ws k Hk) as (b' & E' & Hb & Bb).
  rewrite E in E'. injection E' as <-.
  assert (0 <= Z.land b (last_byte_mask (Z.of_nat n)) < 256) as Hr.
  { rewrite last_byte_mask_correct, Z.sub_1_r, <- Z.ones_equiv, Z.land_ones by dlia.
    assert (0 < 2 ^ ((Z.of_nat n - 1) mod 8 + 1)) by (apply Z.pow_pos_nonneg; dlia).
    pose proof (Z.mod_pos_bound b (2 ^ ((Z.of_nat n - 1) mod 8 + 1))).
    pose proof (Z.mod_le b (2 ^ ((Z.of_nat n - 1) mod 8 + 1))). lia. }
  assert (forall j, (j < 8)%nat ->
    Z.testbit (Z.land b (last_byte_mask (Z.of_nat n))) (Z.of_nat j) =
      bit ws (8 * k + j) && bool_decide (8 * k + j < n)%nat) as Hbit.
  { intros j Hj. rewrite Z.land_spec, last_byte_mask_bit, Bb by done. f_equal.
    apply bool_decide_ext. dlia. }
  rewrite Z.eqb_eq, byte_ext by done. split.
  - intros H j Hj. rewrite <- H, Hbit, bool_decide_true by dlia. by rewrite andb_true_r.
  - intros H j Hj. rewrite Hbit by done. case_bool_decide.
    + by rewrite H, andb_true_r by done.
    + by rewrite Hvn, andb_false_r by lia.
Qed.

(** The bytes from [a] to [stop] are all [v]. *)
Lemma bytes_run ws a stop v :
  (a <= stop)%nat -> (stop <= 4 * length ws)%nat -> 0 <= v < 256 ->
  exists r, find_index (fun k => b ← get_byte ws k; Some (negb (b =? v))) a stop = Some r /\
    (r <= stop)%nat /\
    (r = stop <-> forall i, (8 * a <= i < 8 * stop)%nat -> bit ws i = Z.testbit v (Z.of_nat (i mod 8))).
Proof.
  intros Ha Hs Hv.
  destruct (find_index_spec (fun k => b ← get_byte ws k; Some (negb (b =? v)))
    (fun k => negb (default 0 (get_byte ws k) =? v)) a stop) as (r & -> & Har & Hr & Hlt & Hall).
  { intros k Hk. by destruct (get_byte_spec ws k) as (b & -> & _); [lia|]. }
  exists r. split; [done|]. split; [lia|]. split.
  - intros -> i Hi. specialize (Hall (i / 8)%nat ltac:(dlia)).
    destruct (get_byte_spec ws (i / 8)) as (b & Eb & _); [dlia|]. rewrite Eb in Hall. simpl in Hall.
    apply negb_false_iff in Hall. rewrite (byte_eqb ws (i / 8)) in Hall by (done || dlia).
    specialize (Hall (i mod 8)%nat ltac:(dlia)). rewrite <- Hall. f_equal. dlia.
  - intros H. destruct (decide (r < stop)%nat) as [Hd|]; [|lia]. specialize (Hlt Hd).
    destruct (get_byte_spec ws r) as (b & Eb & _); [lia|]. rewrite Eb in Hlt. simpl in Hlt.
    apply negb_true_iff, not_true_iff_false in Hlt. exfalso. apply Hlt.
    apply (byte_eqb ws r); [done|lia|done|]. intros j Hj. rewrite H by lia. f_equal. dlia.
Qed.

Section prefix.
Context (m : MY_BITMAP) (Hok : bitmap_ok m) (p : nat) (Hp : (0 < p <= n_bits m)%nat).

(** The byte in which the prefix ends, and the last byte of the bitmap. *)
#[local] Notation e := ((p - 1) / 8)%nat.
#[local] Notation stop := ((n_bits m + 7) / 8 - 1)%nat.
#[local] Notation is_prefix_bit i := (bit (bitmap m) i = bool_decide (i < p)%nat).

Lemma prefix_members :
  members m = set_seq 0 p <-> forall i, (i < n_bits m)%nat -> is_prefix_bit i.
Proof.
  split.
  - intros E i Hi. apply eq_bool_prop_intro. rewrite Is_true_true, bool_decide_spec.
    rewrite <- elem_of_prefix, <- E, elem_of_members. tauto.
  - intros E. apply members_ext.
    + intros i Hi. rewrite elem_of_prefix, E by done. apply bool_decide_eq_true.
    + intros i. rewrite elem_of_prefix, elem_of_universe. lia.
Qed.

Lemma prefix_mask_bit j : (j < 8)%nat ->
  Z.testbit (last_byte_mask (Z.of_nat p)) (Z.of_nat j) = bool_decide (8 * e + j < p)%nat.
Proof. intros Hj. rewrite last_byte_mask_bit by lia. apply bool_decide_ext. dlia. Qed.

Lemma stop_in_array : (stop < 4 * length (bitmap m))%nat.
Proof. pose proof (ok_length _ Hok). pose proof (ok_pos _ Hok). dlia. Qed.

(** The prefix ends in the last byte. *)
Lemma prefix_in_last b :
  e = stop -> get_byte (bitmap m) e = Some b -> (forall i, (i < 8 * e)%nat -> is_prefix_bit i) ->
  (Z.land b (last_byte_mask (Z.of_nat (n_bits m))) =? last_byte_mask (Z.of_nat p)) = true <->
  forall i, (i < n_bits m)%nat -> is_prefix_bit i.
Proof.
  intros Hes Eb Hpre. pose proof stop_in_array as Hst.
  rewrite (last_byte_eqb (bitmap m) e b _ (n_bits m) Eb);
    [|lia|lia|dlia|apply last_byte_mask_range|].
  2: { intros j Hj Hn. rewrite prefix_mask_bit by done. apply bool_decide_eq_false. lia. }
  split.
  - intros H i Hi. destruct (decide (i < 8 * e)%nat); [by apply Hpre|].
    replace i with (8 * e + (i - 8 * e))%nat by lia. rewrite H, prefix_mask_bit by dlia. done.
  - intros H j Hj. by rewrite H, prefix_mask_bit by dlia.
Qed.

(** It ends before, the bytes between are zero and the last one is [b]. *)
Lemma prefix_before_last b :
  (e < stop)%nat -> get_byte (bitmap m) stop = Some b ->
  (forall i, (i < 8 * stop)%nat -> is_prefix_bit i) ->
  (Z.land b (last_byte_mask (Z.of_nat (n_bits m))) =? 0) = true <->
  forall i, (i < n_bits m)%nat -> is_prefix_bit i.
Proof.
  intros Hes Eb Hpre. pose proof stop_in_array as Hst.
  rewrite (last_byte_eqb (bitmap m) stop b _ (n_bits m) Eb);
    [|done|lia|dlia|lia|by intros; rewrite Z.bits_0].
  split.
  - intros H i Hi. destruct (decide (i < 8 * stop)%nat); [by apply Hpre|].
    replace i with (8 * stop + (i - 8 * stop))%nat by lia. rewrite H, Z.bits_0 by lia.
    symmetry. apply bool_decide_eq_false. dlia.
  - intros H j Hj. rewrite H, Z.bits_0 by done. apply bool_decide_eq_false. dlia.
Qed.

(** A prefix test with a size between 1 and the size of the bitmap
    decides whether the members are exactly the numbers below that size. *)
Lemma bitmap_is_prefix_correct :
  bitmap_is_prefix m p = Some (bool_decide (members m = set_seq 0 p)).
Proof.
  unfold bitmap_is_prefix. rewrite decide_False by lia. rewrite no_bytes_eq by done.
  pose proof stop_in_array as Hst. assert (e <= stop)%nat as He by dlia.
  destruct (bytes_run (bitmap m) 0 e 0xff) as (r & -> & Hre & Hr); [lia|lia|lia|].
  cbn [mbind option_bind]. case_decide as Hlt.
  { f_equal. apply bool_of_iff. split; [done|]. rewrite prefix_members. intros H.
    assert (r = e); [|lia]. apply Hr. intros i Hi. rewrite H, bool_decide_true by dlia.
    symmetry. apply ff_bit. dlia. }
  assert (r = e) as -> by lia. pose proof (proj1 Hr eq_refl) as Hff. clear Hr Hre Hlt.
  assert (forall i, (i < 8 * e)%nat -> is_prefix_bit i) as Hpre.
  { intros i Hi. rewrite Hff, bool_decide_true by dlia. apply ff_bit. dlia. }
  destruct (get_byte_spec (bitmap m) e) as (b & Eb & _); [lia|]. rewrite Eb. cbn [mbind option_bind].
  case_decide as Hes; [f_equal; apply bool_of_iff; rewrite prefix_members; by apply prefix_in_last|].
  pose proof (byte_eqb (bitmap m) e b _ Eb ltac:(lia) (last_byte_mask_range p)) as Hbe.
  destruct (b =? last_byte_mask (Z.of_nat p)); cbn [negb].
  2: { f_equal. apply bool_of_iff. split; [done|]. rewrite prefix_members. intros H. apply Hbe.
       intros j Hj. rewrite H, prefix_mask_bit by dlia. done. }
  pose proof (proj1 Hbe eq_refl) as Hbits. clear Hbe.
  destruct (bytes_run (bitmap m) (S e) stop 0) as (r & -> & Hre & Hr); [lia|lia|lia|].
  cbn [mbind option_bind]. case_decide as Hlt.
  { f_equal. apply bool_of_iff. split; [done|]. rewrite prefix_members. intros H.
    assert (r = stop); [|lia]. apply Hr. intros i Hi.
    rewrite H, bool_decide_false by dlia. by rewrite Z.bits_0. }
  assert (r = stop) as -> by lia. pose proof (proj1 Hr eq_refl) as Hmid. clear Hr Hre Hlt.
  destruct (get_byte_spec (bitmap m) stop) as (b2 & Eb2 & _); [lia|]. rewrite Eb2.
  cbn [mbind option_bind]. f_equal. apply bool_of_iff. rewrite prefix_members.
  apply prefix_before_last; [lia|done|]. intros i Hi.
  destruct (decide (i < 8 * e)%nat); [by apply Hpre|]. destruct (decide (i < 8 * S e)%nat).
  - replace i with (8 * e + (i - 8 * e))%nat by lia. by rewrite Hbits, prefix_mask_bit by lia.
  - rewrite Hmid, Z.bits_0 by lia. symmetry. apply bool_decide_eq_false. dlia.
Qed.

End prefix.

(** ** Intersections of many bitmaps *)

Lemma and_words_spec maps k : forall cur,
  Forall (fun m => bitmap_ok m /\ (k <= last_idx m)%nat) maps -> is_word cur ->
  exists r, and_words maps k cur = Some r /\ is_word r /\
    forall j, (j < 32)%nat -> Z.testbit r (Z.of_nat j) = true <->
      Z.testbit cur (Z.of_nat j) = true /\ Forall (fun m => bit (bitmap m) (32 * k + j) = true) maps.
Proof.
  induction maps as [|m maps IH]; intros cur HF Wc; cbn [and_words].
  { exists cur. split; [done|]. split; [done|]. intros j Hj. rewrite Forall_nil. tauto. }
  apply Forall_cons in HF as [[Hok Hk] HF]. destruct (Z.eqb_spec cur 0) as [->|Hne].
  { exists 0. split; [done|]. split; [done|]. intros j Hj. rewrite Z.bits_0. naive_solver. }
  destruct (bitmap_word m k Hok Hk) as (w & -> & Ww & Bw). cbn [mbind option_bind].
  destruct (IH (Z.land cur w) HF (is_word_land _ _ Wc)) as (r & -> & Wr & Br).
  exists r. split; [done|]. split; [done|]. intros j Hj.
  rewrite Br, Z.land_spec, andb_true_iff, Bw, Forall_cons by done. tauto.
Qed.

Lemma nonzero_word_iff r (P : nat -> Prop) :
  is_word r -> (forall j, (j < 32)%nat -> Z.testbit r (Z.of_nat j) = true <-> P j) ->
  nonzero r = true <-> exists j, (j < 32)%nat /\ P j.
Proof.
  intros Wr Br. rewrite nonzero_bits by done.
  split; intros (j & Hj & H); exists j; (split; [done|]); by apply Br.
Qed.

Lemma end_mask_bit b j :
  Z.of_nat b + 8 < 2 ^ 32 -> (j < 32)%nat ->
  is_word (not32 (last_word_mask_of b)) /\
  Z.testbit (not32 (last_word_mask_of b)) (Z.of_nat j) = bool_decide (j <= b mod 32)%nat.
Proof.
  intros Hb Hj. unfold last_word_mask_of. rewrite mask_word_correct by lia.
  replace (S b - 1)%nat with b by lia. rewrite Nat2Z.inj_add.
  split; [apply is_word_not32, mask_is_word; dlia|].
  rewrite not32_bit, mask_bit by dlia. rewrite <- bool_decide_not. apply bool_decide_ext. lia.
Qed.

Section intersection.
Context (maps : list MY_BITMAP) (m0 : MY_BITMAP) (start_bit end_bit : nat).
Hypothesis maps_ok : Forall bitmap_ok maps.
Hypothesis maps_long : Forall (fun m => (end_bit < n_bits m)%nat) maps.
Hypothesis range_ok : (start_bit <= end_bit)%nat.
(** One of the bitmaps has no bits outside the range. *)
Hypothesis m0_in : m0 ∈ maps.
Hypothesis m0_range : forall i, i ∈ members m0 -> (start_bit <= i <= end_bit)%nat.

Definition common_bit (i : nat) : Prop := Forall (fun m => bit (bitmap m) i = true) maps.

Lemma common_words k : (k <= end_bit / 32)%nat ->
  Forall (fun m => bitmap_ok m /\ (k <= last_idx m)%nat) maps.
Proof.
  intros Hk. apply Forall_forall. intros m Hm. pose proof maps_ok as Hok. pose proof maps_long as Hl.
  rewrite Forall_forall in Hok, Hl. split; [by apply Hok|]. specialize (Hl m Hm).
  unfold last_idx. dlia.
Qed.

Lemma m0_ok : bitmap_ok m0 /\ (end_bit < n_bits m0)%nat.
Proof.
  split; [by apply (proj1 (Forall_forall _ _) maps_ok)|by apply (proj1 (Forall_forall _ _) maps_long)].
Qed.

Lemma common_members i :
  Forall (fun m => i ∈ members m) maps <-> (i < n_bits m0)%nat /\ common_bit i.
Proof.
  unfold common_bit. rewrite !Forall_forall. split.
  - intros H. split; [by apply (elem_of_members m0), H|]. intros m Hm. by apply (elem_of_members m), H.
  - intros [Hi H] m Hm. apply elem_of_members. split; [|by apply H].
    assert (i ∈ members m0) as Hi0 by (apply elem_of_members; auto). apply m0_range in Hi0.
    pose proof (proj1 (Forall_forall _ _) maps_long m Hm). simpl in *. lia.
Qed.

Lemma common_range i : (i < n_bits m0)%nat -> common_bit i -> (start_bit <= i <= end_bit)%nat.
Proof.
  intros Hi H. apply m0_range, elem_of_members. split; [done|].
  by apply (proj1 (Forall_forall _ _) H).
Qed.

Lemma common_in_word k : (k < end_bit / 32)%nat ->
  exists b, (r ← and_words maps k 0xFFFFFFFF; Some (nonzero r)) = Some b /\
    (b = true <-> exists j, (j < 32)%nat /\ common_bit (32 * k + j)).
Proof.
  intros Hk. destruct (and_words_spec maps k 0xFFFFFFFF) as (r & -> & Wr & Br);
    [apply common_words; lia|apply is_word_ones|].
  eexists. split; [done|]. apply nonzero_word_iff; [done|]. intros j Hj.
  rewrite Br, ones_bit by lia. unfold common_bit. tauto.
Qed.

Lemma common_in_last :
  exists b, (r ← and_words maps (end_bit / 32) (not32 (last_word_mask_of end_bit)); Some (nonzero r)) = Some b /\
    (b = true <-> exists j, (j <= end_bit mod 32)%nat /\ common_bit (32 * (end_bit / 32) + j)).
Proof.
  destruct m0_ok as [Hok0 Hend0]. pose proof (ok_small _ Hok0).
  destruct (and_words_spec maps (end_bit / 32) (not32 (last_word_mask_of end_bit)))
    as (r & -> & Wr & Br); [by apply common_words|apply (end_mask_bit end_bit 0); lia|].
  eexists. split; [done|].
  rewrite (nonzero_word_iff r (fun j => (j <= end_bit mod 32)%nat /\ common_bit (32 * (end_bit / 32) + j)) Wr).
  - split; [naive_solver|]. intros (j & Hj & H'). exists j. split; [dlia|done].
  - intros j Hj. rewrite Br by done. destruct (end_mask_bit end_bit j) as [_ ->]; [lia|done|].
    by rewrite bool_decide_eq_true.
Qed.

(** The test for a common bit of several bitmaps between two numbers is
    right whenever, as its description demands, one of the bitmaps has no
    other bits. *)
Theorem bitmap_exists_intersection_correct :
  exists r, bitmap_exists_intersection maps start_bit end_bit = Some r /\
    (r = true <-> exists i, Forall (fun m => i ∈ members m) maps).
Proof.
  unfold bitmap_exists_intersection. rewrite !Nat.Div0.div_div. change (8 * 4)%nat with 32%nat.
  destruct m0_ok as [Hok0 Hend0].
  set (c := fun k => default false (r ← and_words maps k 0xFFFFFFFF; Some (nonzero r))).
  destruct (find_index_spec (fun i => r ← and_words maps i 0xFFFFFFFF; Some (nonzero r)) c
    (start_bit / 32) (end_bit / 32)) as (i & -> & Hsi & Hie & Hlt & Hall).
  { intros k Hk. unfold c. by destruct (common_in_word k) as (b & -> & _); [lia|]. }
  assert (forall k, (k < end_bit / 32)%nat -> c k = true <->
    exists j, (j < 32)%nat /\ common_bit (32 * k + j)) as Hc.
  { intros k Hk. unfold c. by destruct (common_in_word k) as (b & -> & Hb); [lia|]. }
  assert (start_bit / 32 <= end_bit / 32)%nat by (apply Nat.Div0.div_le_mono; done).
  setoid_rewrite common_members. cbn [mbind option_bind]. case_decide as Hd.
  - exists true. split; [done|]. split; [|done]. intros _.
    apply Hc in Hlt as (j & Hj & H'); [|done..]. exists (32 * i + j)%nat. split; [dlia|done].
  - destruct common_in_last as (b & E & Hb). exists b. split; [done|]. rewrite Hb. split.
    + intros (j & Hj & H'). exists (32 * (end_bit / 32) + j)%nat. split; [dlia|done].
    + intros (x & Hx & H'). pose proof (common_range x Hx H') as Hr.
      destruct (decide (x / 32 < end_bit / 32)%nat) as [Hxe|Hxe].
      * exfalso. assert (c (x / 32)%nat = true) as Hcx.
        { apply Hc; [done|]. exists (x mod 32)%nat. split; [dlia|].
          by replace (32 * (x / 32) + x mod 32)%nat with x by dlia. }
        rewrite Hall in Hcx; [done|dlia].
      * exists (x mod 32)%nat. split; [dlia|].
        by replace (32 * (end_bit / 32) + x mod 32)%nat with x by dlia.
Qed.

End intersection.

(** ** The test of a union

    The last comparison is the wrong way round: see the two cases. *)

Lemma union_words m m2 k :
  bitmap_ok m -> bitmap_ok m2 -> (k <= last_idx m)%nat -> (k <= last_idx m2)%nat ->
  exists w, (w1 ← bitmap m !! k; w2 ← bitmap m2 !! k; Some (Z.lor w1 w2)) = Some w /\ is_word w /\
    forall j, (j < 32)%nat ->
      Z.testbit w (Z.of_nat j) = bit (bitmap m) (32 * k + j) || bit (bitmap m2) (32 * k + j).
Proof.
  intros Hok Hok2 Hk Hk2.
  destruct (bitmap_word m k Hok Hk) as (x & -> & Wx & Bx).
  destruct (bitmap_word m2 k Hok2 Hk2) as (y & -> & Wy & By).
  eexists. split; [done|]. split; [by apply is_word_lor|]. intros j Hj.
  by rewrite Z.lor_spec, Bx, By.
Qed.

Definition or_bit (m m2 : MY_BITMAP) (i : nat) : Prop :=
  bit (bitmap m) i || bit (bitmap m2) i = true.

Lemma union_full m m2 :
  n_bits m2 = n_bits m ->
  members m ∪ members m2 = universe m <-> forall i, (i < n_bits m)%nat -> or_bit m m2 i.
Proof.
  intros Hn. unfold or_bit. split.
  - intros E i Hi. apply elem_of_universe in Hi. rewrite <- E, elem_of_union, !elem_of_members in Hi.
    apply orb_true_iff. tauto.
  - intros H. apply set_eq. intros i. rewrite elem_of_union, elem_of_universe, !elem_of_members, Hn.
    specialize (H i). rewrite orb_true_iff in H. tauto.
Qed.

Lemma last_union_full m m2 x y :
  bitmap_ok m -> is_word x -> is_word y ->
  (forall j, (j < 32)%nat -> Z.testbit x (Z.of_nat j) = bit (bitmap m) (32 * last_idx m + j)) ->
  (forall j, (j < 32)%nat -> Z.testbit y (Z.of_nat j) = bit (bitmap m2) (32 * last_idx m + j)) ->
  Z.lor (Z.lor x y) (last_word_mask m) = 0xFFFFFFFF <->
  forall j, (j < 32)%nat -> Z.testbit (last_word_mask m) (Z.of_nat j) = false ->
    or_bit m m2 (32 * last_idx m + j).
Proof.
  intros Hok Wx Wy Bx By. pose proof (mask_word_ok m Hok) as Wm. unfold or_bit.
  rewrite ones_bits by auto using is_word_lor.
  split; intros H j Hj; specialize (H j Hj); rewrite !Z.lor_spec, Bx, By in * by done.
  - intros Hm. by rewrite Hm, orb_false_r in H.
  - destruct (Z.testbit (last_word_mask m) _); [apply orb_true_r|]. by rewrite H.
Qed.

(** The test whether the union of two bitmaps has all bits returns false
    when it has, and true for a bitmap of one word when it has not: the
    comparison of the last word is inverted. *)
Theorem bitmap_union_is_set_all_inverted m m2 :
  bitmap_ok m -> bitmap_ok m2 -> n_bits m2 = n_bits m ->
  (members m ∪ members m2 = universe m -> bitmap_union_is_set_all m m2 = Some false) /\
  ((n_bits m <= 32)%nat -> members m ∪ members m2 ≠ universe m ->
   bitmap_union_is_set_all m m2 = Some true).
Proof.
  intros Hok Hok2 Hn. assert (last_idx m2 = last_idx m) as Hli by (unfold last_idx; by rewrite Hn).
  rewrite union_full by done. rewrite (forall_bits m Hok (or_bit m m2)).
  destruct (bitmap_word m (last_idx m) Hok (le_n _)) as (x & Ex & Wx & Bx).
  destruct (bitmap_word m2 (last_idx m) Hok2 ltac:(lia)) as (y & Ey & Wy & By).
  pose proof (last_union_full m m2 x y Hok Wx Wy Bx By) as Hw.
  unfold bitmap_union_is_set_all, words_test. rewrite last_ptr_eq by done. split.
  - intros [H1 H2].
    destruct (find_index_spec (fun i => w1 ← bitmap m !! i; w2 ← bitmap m2 !! i;
        Some (negb (Z.lor w1 w2 =? 0xFFFFFFFF))) (fun _ => false) 0 (last_idx m))
      as (r & -> & _ & Hr & Hlt & _).
    { intros k Hk. destruct (union_words m m2 k) as (u & E & Wu & Bu); [done|done|lia|lia|].
      destruct (bitmap m !! k) as [u1|]; [|done]. destruct (bitmap m2 !! k) as [u2|]; [|done].
      simpl in E |- *. injection E as ->. f_equal. rewrite negb_false_iff, Z.eqb_eq, ones_bits by done.
      intros j Hj. rewrite Bu by done. apply H1; lia. }
    cbn [mbind option_bind]. rewrite decide_False by (intros Hd; by specialize (Hlt Hd)).
    assert (r = last_idx m) as ->.
    { destruct (decide (r < last_idx m)%nat) as [Hd|]; [by specialize (Hlt Hd)|lia]. }
    rewrite Ex. cbn [mbind option_bind]. rewrite Ey. cbn [mbind option_bind].
    f_equal. rewrite negb_false_iff, Z.eqb_eq. by apply Hw.
  - intros H32 Hne. assert (last_idx m = 0%nat) as Hl0
      by (pose proof (ok_pos _ Hok); unfold last_idx; dlia).
    rewrite Hl0 in Hw, Ex, Ey, Hne |- *.
    change (find_index _ 0 0) with (Some 0%nat). cbn [mbind option_bind]. rewrite decide_False by lia.
    rewrite Ex. cbn [mbind option_bind]. rewrite Ey. cbn [mbind option_bind].
    f_equal. rewrite negb_true_iff, Z.eqb_neq, Hw. intros H. apply Hne. split; [lia|done].
Qed.

(** ** Witnesses *)

(** A bitmap of 35 bits with the members 1, 2, 3, 7 and 33, and one with the
    members 0, 2 and 34; the unused bits differ. *)
Definition example_a : MY_BITMAP := mk_bitmap [0x8E; 0xFFFFFFF2] 1 0xFFFFFFF8 35.
Definition example_b : MY_BITMAP := mk_bitmap [0x05; 0x4] 1 0xFFFFFFF8 35.

(** Two bitmaps of 4 bits that together have all of them. *)
Definition example_c : MY_BITMAP := mk_bitmap [0x5] 0 0xFFFFFFF0 4.
Definition example_d : MY_BITMAP := mk_bitmap [0xA] 0 0xFFFFFFF0 4.

Ltac bitmap_example :=
  split; [vm_compute; lia|vm_compute; reflexivity|repeat constructor; vm_compute; congruence|
          vm_compute; lia|vm_compute; reflexivity|vm_compute; reflexivity].

Lemma example_a_ok : bitmap_ok example_a.
Proof. bitmap_example. Qed.

Lemma example_b_ok : bitmap_ok example_b.
Proof. bitmap_example. Qed.

Lemma example_c_ok : bitmap_ok example_c.
Proof. bitmap_example. Qed.

Lemma example_d_ok : bitmap_ok example_d.
Proof. bitmap_example. Qed.

Lemma bitmap_bit_operations_witness :
  bitmap_is_set example_a 33 = Some true /\
  exists m', bitmap_set_bit example_a 34 = Some m' /\ becomes example_a m' ({[34%nat]} ∪ members example_a).
Proof.
  split.
  - destruct (bitmap_bit_operations example_a 33 example_a_ok ltac:(simpl; lia)) as (_ & _ & _ & E & _).
    rewrite E. vm_compute. reflexivity.
  - exact (proj1 (bitmap_bit_operations example_a 34 example_a_ok ltac:(simpl; lia))).
Defined.

Lemma bitmap_set_operations_witness :
  exists m', bitmap_union example_a example_b = Some m' /\
    becomes example_a m' (members example_a ∪ members example_b).
Proof.
  exact (proj1 (proj2 (proj2 (bitmap_set_operations example_a example_b example_a_ok example_b_ok)) eq_refl)).
Defined.

Lemma bitmap_tests_correct_witness :
  bitmap_is_overlapping example_a example_b = Some true /\
  bitmap_is_subset example_a example_b = Some false.
Proof.
  destruct (bitmap_tests_correct example_a example_b example_a_ok example_b_ok) as (_ & _ & H).
  destruct (H eq_refl) as (E1 & E2 & _). rewrite E1, E2. split; vm_compute; reflexivity.
Defined.

Lemma bitmap_searches_correct_witness :
  exists r, bitmap_get_next_set example_a 7 = Some r /\
    least_of (filter (fun i => (7 < i)%nat) (members example_a)) r.
Proof.
  exact (proj1 (proj2 (bitmap_searches_correct example_a 7 example_a_ok eq_refl))).
Defined.

Lemma bitmap_exists_intersection_correct_witness :
  exists r, bitmap_exists_intersection [example_a; example_b] 0 34 = Some r /\
    (r = true <-> exists i, Forall (fun m => i ∈ members m) [example_a; example_b]).
Proof.
  apply (bitmap_exists_intersection_correct [example_a; example_b] example_a 0 34).
  - constructor; [apply example_a_ok|constructor; [apply example_b_ok|constructor]].
  - constructor; [simpl; lia|constructor; [simpl; lia|constructor]].
  - lia.
  - constructor.
  - intros i Hi. apply elem_of_members in Hi. simpl in Hi. lia.
Defined.

Lemma bitmap_union_is_set_all_inverted_witness :
  members example_c ∪ members example_d = universe example_c /\
  bitmap_union_is_set_all example_c example_d = Some false.
Proof.
  assert (members example_c ∪ members example_d = universe example_c) as E by (vm_compute; reflexivity).
  split; [exact E|].
  exact (proj1 (bitmap_union_is_set_all_inverted example_c example_d example_c_ok example_d_ok eq_refl) E).
Defined.

End BitmapFill.
