(* ===== verification/IntConv.v ===== *)
(** * Integers and strings (strings/int2str.c, longlong2str.c, my_strtoll10.c)

    Printing of integers in any base and parsing of decimal integers with the
    check for overflow.  A string is a list of character codes; reading
    behind it makes the parser return [None].  A [long] has 64 bits, except in
    longlong2str.c, which is compiled when it has 32. *)

From Stdlib Require Import Ascii String.
From S2P Require Import Prelude.

#[local] Open Scope Z_scope.

Module IntConv.

Definition codes (s : string) : list Z := map (fun a => Z.of_N (N_of_ascii a)) (list_ascii_of_string s).

(** ** Printing *)

Definition _dig_vec_upper : list Z := codes "0123456789ABCDEFGHIJKLMNOPQRSTUVWXYZ".
Definition _dig_vec_lower : list Z := codes "0123456789abcdefghijklmnopqrstuvwxyz".

(** The local [buffer[65]], filled from its end: the index [p] of the last
    character written and the characters from there on, the NUL at its end
    left out. *)
Definition put_front (b : nat * list Z) (ch : Z) : option (nat * list Z) :=
  match b.1 with
  | O => None
  | S p => Some (p, ch :: b.2)
  end.

(** [while (val != 0)] with the digits in [dig]. *)
Fixpoint digits_loop (fuel : nat) (dig : list Z) (radix val : Z) (b : nat * list Z) :
    option (nat * list Z) :=
  match fuel with
  | O => None
  | S fuel =>
      if decide (val = 0) then Some b else
      let quo := Z.quot val radix in
      ch ← dig !! Z.to_nat (val - quo * radix);
      b ← put_front b ch;
      digits_loop fuel dig radix quo b
  end.

(** The sign and the magnitude; [val] is taken to be signed if [radix < 0]. *)
Definition sign_of (val radix : Z) : list Z := if decide (radix < 0 /\ val < 0) then [45] else [].

Definition magnitude (val radix : Z) : Z :=
  let uval := u64 val in if decide (radix < 0 /\ val < 0) then u64 (0 - uval) else uval.

(** The radixes treated as bad. *)
Definition bad_radix (radix : Z) : bool :=
  if radix <? 0 then (radix <? -36) || (-2 <? radix) else (36 <? radix) || (radix <? 2).

(** The characters written to [dst]; inside, [None] is the result [NullS]. *)
Definition int2str (val radix : Z) (upcase : bool) : option (option (list Z)) :=
  let dig_vec := if upcase then _dig_vec_upper else _dig_vec_lower in
  if bad_radix radix then Some None else
  let uval := magnitude val radix in
  let sign := sign_of val radix in
  let radix := Z.abs radix in
  let new_val := to_ll (uval / radix) in
  ch ← dig_vec !! Z.to_nat (u64 (uval - u64 (u64 new_val * radix)) mod 256);
  b ← put_front (64%nat, []) ch;
  '(_, s) ← digits_loop 65 dig_vec radix new_val b;
  Some (Some (sign ++ s ++ [0])).

(** ['0' + d] is the digit's character. *)
Definition int10_to_str (val radix : Z) : option (list Z) :=
  let uval := magnitude val radix in
  let sign := sign_of val radix in
  let new_val := to_ll (uval / 10) in
  b ← put_front (64%nat, []) (48 + u64 (uval - u64 (u64 new_val * 10)));
  '(_, s) ← digits_loop 65 (codes "0123456789") 10 new_val b;
  Some (sign ++ s ++ [0]).

Definition LONG_MAX : Z := 2 ^ 31 - 1.

(** [while (uval > (ulonglong) LONG_MAX)] *)
Fixpoint long_digits_loop (fuel : nat) (dig : list Z) (radix uval : Z) (b : nat * list Z) :
    option (Z * (nat * list Z)) :=
  match fuel with
  | O => None
  | S fuel =>
      if decide (LONG_MAX < uval) then
        let quo := uval / radix in
        let rem := u32 (u64 (uval - u64 (quo * radix))) in
        ch ← dig !! Z.to_nat rem;
        b ← put_front b ch;
        long_digits_loop fuel dig radix quo b
      else Some (uval, b)
  end.

(** The part both functions of longlong2str.c share, with base [radix > 0]. *)
Definition ulonglong_digits (dig : list Z) (radix uval : Z) : option (list Z) :=
  if decide (uval = 0) then Some [48; 0] else
  '(long_val, b) ← long_digits_loop 65 dig radix uval (64%nat, []);
  '(_, s) ← digits_loop 65 dig radix long_val b;
  Some (s ++ [0]).

Definition ll2str (val radix : Z) (upcase : bool) : option (option (list Z)) :=
  let dig_vec := if upcase then _dig_vec_upper else _dig_vec_lower in
  if bad_radix radix then Some None else
  s ← ulonglong_digits dig_vec (Z.abs radix) (magnitude val radix);
  Some (Some (sign_of val radix ++ s)).

Definition longlong10_to_str (val radix : Z) : option (list Z) :=
  s ← ulonglong_digits _dig_vec_upper 10 (magnitude val radix);
  Some (sign_of val radix ++ s).

(** ** Parsing *)

Definition ctype_latin1 : list Z :=
  [ 0;
     32; 32; 32; 32; 32; 32; 32; 32; 32; 40; 40; 40; 40; 40; 32; 32;
     32; 32; 32; 32; 32; 32; 32; 32; 32; 32; 32; 32; 32; 32; 32; 32;
     72; 16; 16; 16; 16; 16; 16; 16; 16; 16; 16; 16; 16; 16; 16; 16;
     132; 132; 132; 132; 132; 132; 132; 132; 132; 132; 16; 16; 16; 16; 16; 16;
     16; 129; 129; 129; 129; 129; 129; 1; 1; 1; 1; 1; 1; 1; 1; 1;
     1; 1; 1; 1; 1; 1; 1; 1; 1; 1; 1; 16; 16; 16; 16; 16;
     16; 130; 130; 130; 130; 130; 130; 2; 2; 2; 2; 2; 2; 2; 2; 2;
     2; 2; 2; 2; 2; 2; 2; 2; 2; 2; 2; 16; 16; 16; 16; 32;
     16; 0; 16; 2; 16; 16; 16; 16; 16; 16; 1; 16; 1; 0; 1; 0;
     0; 16; 16; 16; 16; 16; 16; 16; 16; 16; 2; 16; 2; 0; 2; 1;
     72; 16; 16; 16; 16; 16; 16; 16; 16; 16; 16; 16; 16; 16; 16; 16;
     16; 16; 16; 16; 16; 16; 16; 16; 16; 16; 16; 16; 16; 16; 16; 16;
     1; 1; 1; 1; 1; 1; 1; 1; 1; 1; 1; 1; 1; 1; 1; 1;
     1; 1; 1; 1; 1; 1; 1; 16; 1; 1; 1; 1; 1; 1; 1; 2;
     2; 2; 2; 2; 2; 2; 2; 2; 2; 2; 2; 2; 2; 2; 2; 2;
     2; 2; 2; 2; 2; 2; 2; 16; 2; 2; 2; 2; 2; 2; 2; 2].

Definition _MY_SPC : Z := 8.

(** [my_isspace(&my_charset_latin1, ch)] *)
Definition my_isspace (ch : Z) : option bool :=
  t ← ctype_latin1 !! S (Z.to_nat ch); Some (negb (Z.land t _MY_SPC =? 0)).

Definition MAX_NEGATIVE_NUMBER : Z := 0x8000000000000000.
Definition ULONGLONG_MAX : Z := 2 ^ 64 - 1.
Definition LONGLONG_MIN : Z := - 2 ^ 63.
Definition INIT_CNT : nat := 9.
Definition LFACTOR : Z := 1000000000.
Definition LFACTOR1 : Z := 10000000000.
Definition LFACTOR2 : Z := 100000000000.
Definition lfactor : list Z := [1; 10; 100; 1000; 10000; 100000; 1000000; 10000000; 100000000].
Definition MY_ERRNO_EDOM : Z := 33.
Definition MY_ERRNO_ERANGE : Z := 34.

(** The value of the call, [*error] and [*endptr]. *)
Record result := mk_result { value : Z; error : Z; end_ptr : nat }.

Section parser.
Variable str : list Z.      (* the memory from [nptr] on *)

(** [c= ( *s - '0')] as an [uchar]. *)
Definition digit_at (s : nat) : option Z := ch ← str !! s; Some ((ch - 48) mod 256).

(** [for ( ; s < end && my_isspace( *s) ; ) s++] *)
Fixpoint skip_spaces (fuel : nat) (s stop : nat) : option nat :=
  match fuel with
  | O => None
  | S fuel =>
      if decide (s < stop)%nat then
        ch ← str !! s; sp ← my_isspace ch;
        if (sp : bool) then skip_spaces fuel (S s) stop else Some s
      else Some s
  end.

(** The same up to a NUL, which gives [None] inside. *)
Fixpoint skip_spaces_nul (fuel : nat) (s : nat) : option (option nat) :=
  match fuel with
  | O => None
  | S fuel =>
      ch ← str !! s;
      if decide (ch = 0) then Some None else
      sp ← my_isspace ch;
      if (sp : bool) then skip_spaces_nul fuel (S s) else Some (Some s)
  end.

(** [do { if (++s == end) goto end_i; } while ( *s == '0')]: [None] inside for
    the jump. *)
Fixpoint skip_zeros (fuel : nat) (s stop : nat) : option (option nat) :=
  match fuel with
  | O => None
  | S fuel =>
      let s := S s in
      if decide (s = stop) then Some None else
      ch ← str !! s;
      if decide (ch = 48) then skip_zeros fuel s stop else Some (Some s)
  end.

(** Adds the digits up to [n_end] to [acc]; the flag says whether another
    character was met. *)
Fixpoint read_digits (fuel : nat) (s n_end : nat) (acc : Z) : option (Z * nat * bool) :=
  match fuel with
  | O => None
  | S fuel =>
      if decide (s = n_end) then Some (acc, s, false) else
      c ← digit_at s;
      if decide (9 < c) then Some (acc, s, true)
      else read_digits fuel (S s) n_end (u64 (acc * 10 + c))
  end.

Definition fuel : nat := S (length str).

Definition no_conv : option result := Some (mk_result 0 MY_ERRNO_EDOM 0).

(** The sign: [-1] or [0] as [*error]. *)
Definition signed_ll (negative : bool) (li : Z) : Z :=
  if negative then to_ll (- to_ll li) else to_ll li.

Definition sign_error (negative : bool) : Z := if negative then -1 else 0.

Definition end_i (negative : bool) (i : Z) (s : nat) : option result :=
  Some (mk_result (signed_ll negative i) (sign_error negative) s).

Definition end_i_and_j (negative : bool) (i j : Z) (s start : nat) : option result :=
  f ← lfactor !! (s - start)%nat;
  Some (mk_result (signed_ll negative (u64 (u64 (i * f) + j))) (sign_error negative) s).

Definition end3 (negative : bool) (i j : Z) (s : nat) : option result :=
  Some (mk_result (signed_ll negative (u64 (u64 (i * LFACTOR) + j))) (sign_error negative) s).

Definition overflow (negative : bool) (s : nat) : option result :=
  Some (mk_result (if negative then LONGLONG_MIN else to_ll ULONGLONG_MAX) MY_ERRNO_ERANGE s).

Definition end4 (negative : bool) (i j k : Z) (s : nat) : option result :=
  let li := u64 (u64 (u64 (i * LFACTOR1) + u64 (j * 10)) + k) in
  if decide (negative = true /\ MAX_NEGATIVE_NUMBER < li) then overflow negative s
  else Some (mk_result (signed_ll negative li) (sign_error negative) s).

(** The next one or two digits, when 18 are read. *)
Definition last_digits (negative : bool) (i j : Z) (s stop : nat) : option result :=
  let max := if negative then MAX_NEGATIVE_NUMBER else ULONGLONG_MAX in
  let cutoff := max / LFACTOR2 in
  let cutoff2 := max mod LFACTOR2 / 100 in
  let cutoff3 := max mod 100 in
  c ← digit_at s;
  if decide (9 < c) then end3 negative i j s else
  let k := c in
  let s := S s in
  if decide (s = stop) then end4 negative i j k s else
  c ← digit_at s;
  if decide (9 < c) then end4 negative i j k s else
  let k := k * 10 + c in
  let s := S s in
  more ← (if decide (s = stop) then Some false else c ← digit_at s; Some (bool_decide (c <= 9)));
  if (more : bool) then overflow negative s else
  if decide (cutoff < i \/ (i = cutoff /\ (cutoff2 < j \/ (j = cutoff2 /\ cutoff3 < k))))
  then overflow negative s else
  Some (mk_result (to_ll (u64 (u64 (u64 (i * LFACTOR2) + u64 (j * 100)) + k))) (sign_error negative) s).

(** The second nine digits. *)
Definition second_digits (negative : bool) (i : Z) (s stop : nat) : option result :=
  let start := s in
  let true_end := (s + INIT_CNT)%nat in
  let n_end := Nat.min true_end stop in
  '(j, s, other) ← read_digits fuel s n_end 0;
  if (other : bool) then end_i_and_j negative i j s start else
  if decide (s = stop) then
    if decide (s ≠ true_end) then end_i_and_j negative i j s start else end3 negative i j s
  else last_digits negative i j s stop.

(** From the first digits on. *)
Definition first_digits (negative : bool) (i : Z) (s n_end stop : nat) : option result :=
  let n_end := Nat.min n_end stop in
  '(i, s, other) ← read_digits fuel s n_end i;
  if (other : bool) then end_i negative i s else
  if decide (s = stop) then end_i negative i s else
  second_digits negative i s stop.

(** From behind the sign on. *)
Definition parse_number (negative : bool) (s stop : nat) : option result :=
  ch ← str !! s;
  if decide (ch = 48) then
    z ← skip_zeros fuel s stop;
    match z with
    | None => end_i negative 0 stop
    | Some s => first_digits negative 0 s (s + INIT_CNT) stop
    end
  else
    c ← digit_at s;
    if decide (9 < c) then no_conv else
    let s := S s in
    first_digits negative c s (s + INIT_CNT - 1) stop.

Definition parse_signed (s stop : nat) : option result :=
  ch ← str !! s;
  if decide (ch = 45) then
    if decide (S s = stop) then no_conv else parse_number true (S s) stop
  else if decide (ch = 43) then
    if decide (S s = stop) then no_conv else parse_number false (S s) stop
  else parse_number false s stop.

(** [endptr] is [*endptr] as an offset, if it is given. *)
Definition my_strtoll10 (endptr : option nat) : option result :=
  match endptr with
  | Some stop =>
      s ← skip_spaces fuel 0 stop;
      if decide (s = stop) then no_conv else parse_signed s stop
  | None =>
      s ← skip_spaces_nul fuel 0;
      match s with
      | None => no_conv
      | Some s => parse_signed s (s + 65535)
      end
  end.

End parser.

End IntConv.
