(* ===== verification/IntConvProofs.v ===== *)
(** * Correctness of integer conversion

    Parsing gives the value of the longest run of digits or the overflow
    error, printing gives the digits of the value, and parsing undoes
    printing. *)

From Stdlib Require Import Ascii String.
From S2P Require Import Prelude IntConv.
Import IntConv.

#[local] Open Scope Z_scope.

Module IntConvProofs.

(** ** The value of a list of digits *)

Definition val (base : Z) (acc : Z) (ds : list Z) : Z :=
  fold_left (fun a d => a * base + d) ds acc.

Definition digits (base : Z) (ds : list Z) : Prop := Forall (fun d => 0 <= d < base) ds.

Lemma val_app base acc a b : val base acc (a ++ b) = val base (val base acc a) b.
Proof. apply fold_left_app. Qed.

Lemma val_acc base ds : forall acc, val base acc ds = acc * base ^ Z.of_nat (length ds) + val base 0 ds.
Proof.
  induction ds as [|d ds IH]; intros acc; [simpl; lia|].
  cbn [val fold_left length]. fold (val base (acc * base + d) ds) (val base (0 * base + d) ds).
  rewrite IH, (IH (0 * base + d)), Nat2Z.inj_succ, Z.pow_succ_r by lia. lia.
Qed.

Lemma val_bounds base ds : 1 <= base -> digits base ds -> 0 <= val base 0 ds < base ^ Z.of_nat (length ds).
Proof.
  intros Hb. induction ds as [|d ds IH]; intros HF; [simpl; lia|].
  apply Forall_cons in HF as [Hd HF]. specialize (IH HF).
  cbn [val fold_left length]. fold (val base (0 * base + d) ds).
  rewrite val_acc, Nat2Z.inj_succ, Z.pow_succ_r by lia. nia.
Qed.

(** A number without leading zeros is not below the power of its length. *)
Lemma val_significant base d ds :
  1 <= base -> 0 < d < base -> digits base ds ->
  base ^ Z.of_nat (length ds) <= val base 0 (d :: ds).
Proof.
  intros Hb Hd HF. cbn [val fold_left]. fold (val base (0 * base + d) ds). rewrite val_acc.
  pose proof (val_bounds base ds Hb HF). nia.
Qed.

(** ** What the parser has to compute *)

(** The longest prefix of elements with [p]. *)
Fixpoint take_while (p : Z -> bool) (l : list Z) : list Z :=
  match l with
  | [] => []
  | x :: l => if p x then x :: take_while p l else []
  end.

Lemma take_while_prefix p l : l = take_while p l ++ drop (length (take_while p l)) l.
Proof. induction l as [|x l IH]; simpl; [done|]. destruct (p x); simpl; [by f_equal|done]. Qed.

Lemma take_while_length p l : (length (take_while p l) <= length l)%nat.
Proof. induction l as [|x l IH]; simpl; [done|]. destruct (p x); simpl; lia. Qed.

Lemma take_while_all p l : Forall (fun x => p x = true) (take_while p l).
Proof. induction l as [|x l IH]; simpl; [done|]. destruct (p x) eqn:E; [by constructor|done]. Qed.

Lemma take_while_next p l x : l !! length (take_while p l) = Some x -> p x = false.
Proof. induction l as [|y l IH]; simpl; [done|]. destruct (p y) eqn:E; simpl; [done|by intros [= <-]]. Qed.

Lemma take_while_map p (f : Z -> Z) l : take_while p (map f l) = map f (take_while (fun x => p (f x)) l).
Proof. induction l as [|x l IH]; simpl; [done|]. by destruct (p (f x)); simpl; [f_equal|]. Qed.

(** The characters that are space in latin1, and the digits. *)
Definition is_space (c : Z) : bool := bool_decide (9 <= c <= 13 \/ c = 32 \/ c = 160).
Definition is_digit (c : Z) : bool := bool_decide (48 <= c <= 57).

(** The result for a number [n] whose digits end at [s]: the value, with [-1]
    or [0] for the sign, or the nearest limit with the error for the range. *)
Definition outcome (negative : bool) (n : Z) (s : nat) : result :=
  if decide (n <= if negative then 2 ^ 63 else 2 ^ 64 - 1)
  then mk_result (if negative then - n else to_ll n) (sign_error negative) s
  else mk_result (if negative then LONGLONG_MIN else to_ll ULONGLONG_MAX) MY_ERRNO_ERANGE s.

(** A number with the digits [ds] from [s] on; at most 20 digits behind the
    leading zeros are looked at. *)
Definition number_spec (negative : bool) (s : nat) (ds : list Z) : result :=
  match ds with
  | [] => mk_result 0 MY_ERRNO_EDOM 0
  | _ =>
      let z := length (take_while (Z.eqb 0) ds) in
      outcome negative (val 10 0 ds) (s + z + Nat.min 20 (length ds - z))
  end.

Definition digits_of (cs : list Z) : list Z := map (fun c => c - 48) (take_while is_digit cs).

Definition signed_spec (s : nat) (cs : list Z) : result :=
  match cs with
  | 45 :: cs => number_spec true (S s) (digits_of cs)
  | 43 :: cs => number_spec false (S s) (digits_of cs)
  | _ => number_spec false s (digits_of cs)
  end.

(** Spaces, a sign, digits. *)
Definition strtoll10_spec (cs : list Z) : result :=
  let sp := length (take_while is_space cs) in signed_spec sp (drop sp cs).

(** ** Runs of digits in a string *)

Section parser.
Context (str : list Z).

(** The digits [ds], as many as there are, from [s] on before [stop]. *)
Record run (s stop : nat) (ds : list Z) : Prop := {
  run_digits : digits 10 ds;
  run_str : forall k d, ds !! k = Some d -> str !! (s + k)%nat = Some (48 + d);
  run_stop : (s + length ds <= stop)%nat;
  run_end : (s + length ds)%nat = stop \/
    exists ch, str !! (s + length ds)%nat = Some ch /\ 0 <= ch < 256 /\ ~ 48 <= ch <= 57
}.

Lemma run_tail s stop d ds : run s stop (d :: ds) -> run (S s) stop ds.
Proof.
  intros [HF Hs Hle He]. apply Forall_cons in HF as [_ HF]. simpl in Hle, He.
  split; [done| |lia|].
  - intros k x Hx. replace (S s + k)%nat with (s + S k)%nat by lia. by apply Hs.
  - replace (S s + length ds)%nat with (s + S (length ds))%nat by lia. done.
Qed.

Lemma run_drop n : forall s stop ds, run s stop ds -> (n <= length ds)%nat -> run (s + n) stop (drop n ds).
Proof.
  induction n as [|n IH]; intros s stop ds Hr Hn; [by rewrite Nat.add_0_r|].
  destruct ds as [|d ds]; [simpl in Hn; lia|]. simpl in Hn.
  replace (s + S n)%nat with (S s + n)%nat by lia. cbn [drop]. apply IH; [by eapply run_tail|lia].
Qed.

Lemma digit_at_digit s stop d ds : run s stop (d :: ds) -> digit_at str s = Some d /\ 0 <= d < 10.
Proof.
  intros [HF Hs _ _]. apply Forall_cons in HF as [Hd _]. specialize (Hs 0%nat d eq_refl).
  rewrite Nat.add_0_r in Hs. unfold digit_at. rewrite Hs. simpl. split; [|done].
  f_equal. rewrite Z.mod_small; lia.
Qed.

Lemma digit_at_other s stop : run s stop [] -> s ≠ stop ->
  exists c, digit_at str s = Some c /\ 9 < c.
Proof.
  intros [_ _ _ He] Hne. simpl in He. rewrite Nat.add_0_r in He.
  destruct He as [?|(ch & Hch & Hb & Hd)]; [done|]. exists ((ch - 48) mod 256).
  unfold digit_at. rewrite Hch. split; [done|]. dlia.
Qed.

Lemma run_length s stop ds : run s stop ds -> (length ds < fuel str)%nat.
Proof.
  intros Hr. unfold fuel. destruct (decide (ds = [])) as [->|Hne]; [simpl; lia|].
  destruct (lookup_lt_is_Some_2 ds (length ds - 1)) as [d Hd]; [destruct ds; [done|simpl; lia]|].
  apply (run_str _ _ _ Hr) in Hd. apply lookup_lt_Some in Hd. lia.
Qed.

Lemma read_digits_spec fuel : forall s n_end stop ds acc,
  run s stop ds -> (s <= n_end <= stop)%nat -> (length ds < fuel)%nat -> 0 <= acc ->
  (acc + 1) * 10 ^ Z.of_nat (n_end - s) <= 2 ^ 64 ->
  let t := take (n_end - s) ds in
  read_digits str fuel s n_end acc =
    Some (val 10 acc t, (s + length t)%nat, bool_decide (length ds < n_end - s)%nat).
Proof.
  induction fuel as [|fuel IH]; intros s n_end stop ds acc Hr Hs Hf Ha Hb t; [lia|].
  cbn [read_digits]. case_decide as Hse.
  { subst n_end. unfold t. rewrite Nat.sub_diag. simpl. by rewrite Nat.add_0_r. }
  assert (n_end - s = S (n_end - S s))%nat as Hsub by lia.
  destruct ds as [|d ds].
  { unfold t. rewrite take_nil. simpl. rewrite Nat.add_0_r, bool_decide_true by lia.
    destruct (digit_at_other s stop Hr) as (c & -> & Hc); [lia|]. simpl. by rewrite decide_True. }
  destruct (digit_at_digit _ _ _ _ Hr) as [-> Hd]. simpl. rewrite decide_False by lia.
  rewrite Hsub, Nat2Z.inj_succ, Z.pow_succ_r in Hb by lia.
  assert (0 < 10 ^ Z.of_nat (n_end - S s)) by (apply Z.pow_pos_nonneg; lia).
  rewrite u64_small by nia.
  rewrite (IH (S s) n_end stop ds) by
    (try (by eapply run_tail); simpl in Hf; try lia; nia).
  unfold t. rewrite Hsub. cbn [take length]. f_equal. f_equal; [f_equal; lia|].
  apply bool_decide_ext. simpl. lia.
Qed.

End parser.

(** ** The parser *)

Lemma signed_ll_eq (negative : bool) n :
  0 <= n -> n <= (if negative then 2 ^ 63 else 2 ^ 64 - 1) ->
  signed_ll negative n = if negative then - n else to_ll n.
Proof.
  intros Hn Hm. destruct negative; [|done]. unfold signed_ll.
  destruct (decide (n = 2 ^ 63)) as [->|]; [done|]. by rewrite !to_ll_small by (rewrite ?to_ll_small; lia).
Qed.

Lemma outcome_in (negative : bool) n s :
  0 <= n -> n <= (if negative then 2 ^ 63 else 2 ^ 64 - 1) ->
  mk_result (signed_ll negative n) (sign_error negative) s = outcome negative n s.
Proof. intros. unfold outcome. by rewrite decide_True, signed_ll_eq. Qed.

Lemma outcome_over (negative : bool) n s :
  (if negative then 2 ^ 63 else 2 ^ 64 - 1) < n -> overflow negative s = Some (outcome negative n s).
Proof. intros. unfold outcome. by rewrite decide_False by lia. Qed.

(** The two groups of nine digits at the start. *)
Lemma val_groups ds :
  digits 10 ds -> (18 <= length ds)%nat -> (forall d, head ds = Some d -> d ≠ 0) ->
  let i := val 10 0 (take 9 ds) in
  let j := val 10 0 (take 9 (drop 9 ds)) in
  10 ^ 8 <= i < 10 ^ 9 /\ 0 <= j < 10 ^ 9 /\
  val 10 0 ds = val 10 (i * 10 ^ 9 + j) (drop 18 ds).
Proof.
  intros HF Hl Hh i j.
  assert (length (take 9 ds) = 9)%nat as L1 by (rewrite length_take; lia).
  assert (length (take 9 (drop 9 ds)) = 9)%nat as L2 by (rewrite length_take, length_drop; lia).
  pose proof (val_bounds 10 (take 9 ds) ltac:(lia) (Forall_take _ _ _ HF)) as B1.
  pose proof (val_bounds 10 (take 9 (drop 9 ds)) ltac:(lia) (Forall_take _ _ _ (Forall_drop _ _ _ HF))) as B2.
  rewrite L1 in B1. rewrite L2 in B2. change (Z.of_nat 9) with 9 in *. fold i in B1. fold j in B2.
  split; [|split; [done|]].
  - split; [|lia]. destruct ds as [|d ds]; [simpl in Hl; lia|]. specialize (Hh d eq_refl).
    apply Forall_cons in HF as [Hd HF]. unfold i. cbn [take].
    pose proof (val_significant 10 d (take 8 ds) ltac:(lia) ltac:(lia) (Forall_take _ _ _ HF)) as V.
    rewrite length_take in V. simpl in Hl. by replace (8 `min` length ds)%nat with 8%nat in V by lia.
  - rewrite <- (take_drop 9 ds) at 1. rewrite <- (take_drop 9 (drop 9 ds)) at 1.
    rewrite !val_app, drop_drop. f_equal. rewrite val_acc, L2. done.
Qed.

(** Eighteen, nineteen and twenty digits. *)
Lemma end3_spec negative i j s :
  0 <= i < 10 ^ 9 -> 0 <= j < 10 ^ 9 ->
  end3 negative i j s = Some (outcome negative (i * 10 ^ 9 + j) s).
Proof.
  intros Bi Bj. unfold end3, LFACTOR. change (10 ^ 9) with 1000000000 in *.
  rewrite (u64_small (i * 1000000000)), u64_small by lia. f_equal.
  apply outcome_in; [lia|]. destruct negative; lia.
Qed.

Lemma end4_spec negative i j k s :
  0 <= i < 10 ^ 9 -> 0 <= j < 10 ^ 9 -> 0 <= k < 10 ->
  end4 negative i j k s = Some (outcome negative ((i * 10 ^ 9 + j) * 10 + k) s).
Proof.
  intros Bi Bj Bk. unfold end4, LFACTOR1, MAX_NEGATIVE_NUMBER.
  change (10 ^ 9) with 1000000000 in *.
  rewrite (u64_small (i * 10000000000)), (u64_small (j * 10)),
    (u64_small (i * 10000000000 + j * 10)), u64_small by lia.
  replace ((i * 1000000000 + j) * 10 + k) with (i * 10000000000 + j * 10 + k) by lia.
  case_decide as Hd; [destruct Hd as [-> Hd]; apply outcome_over; lia|].
  f_equal. apply outcome_in; [lia|]. destruct negative; [|lia]. apply Z.nlt_ge. tauto.
Qed.

Lemma cutoff_spec (negative : bool) i j k s :
  let max := if negative then MAX_NEGATIVE_NUMBER else ULONGLONG_MAX in
  let cutoff := max / LFACTOR2 in
  let cutoff2 := max mod LFACTOR2 / 100 in
  let cutoff3 := max mod 100 in
  10 ^ 8 <= i < 10 ^ 9 -> 0 <= j < 10 ^ 9 -> 0 <= k < 100 ->
  (if decide (cutoff < i \/ (i = cutoff /\ (cutoff2 < j \/ (j = cutoff2 /\ cutoff3 < k))))
   then overflow negative s else
   Some (mk_result (to_ll (u64 (u64 (u64 (i * LFACTOR2) + u64 (j * 100)) + k))) (sign_error negative) s)) =
  Some (outcome negative ((i * 10 ^ 9 + j) * 100 + k) s).
Proof.
  intros max cutoff cutoff2 cutoff3 Bi Bj Bk. change (10 ^ 9) with 1000000000 in *.
  change (10 ^ 8) with 100000000 in *. unfold LFACTOR2.
  destruct negative; subst cutoff cutoff2 cutoff3 max.
  - change (MAX_NEGATIVE_NUMBER / LFACTOR2) with 92233720. rewrite decide_True by lia.
    apply outcome_over. lia.
  - change (ULONGLONG_MAX / LFACTOR2) with 184467440.
    change (ULONGLONG_MAX mod LFACTOR2 / 100) with 737095516.
    change (ULONGLONG_MAX mod 100) with 15.
    case_decide as Hd; [apply outcome_over; lia|].
    rewrite (u64_small (i * 100000000000)), (u64_small (j * 100)),
      (u64_small (i * 100000000000 + j * 100)), u64_small by lia.
    replace ((i * 1000000000 + j) * 100 + k) with (i * 100000000000 + j * 100 + k) by lia.
    unfold outcome. by rewrite decide_True by lia.
Qed.

Section parsing.
Context (str : list Z).

Lemma last_digits_spec negative s stop ds :
  run str s stop ds -> (18 <= length ds)%nat -> (forall d, head ds = Some d -> d ≠ 0) ->
  (s + 18 ≠ stop)%nat ->
  last_digits str negative (val 10 0 (take 9 ds)) (val 10 0 (take 9 (drop 9 ds))) (s + 18) stop =
    Some (outcome negative (val 10 0 ds) (s + Nat.min 20 (length ds))).
Proof.
  intros Hr Hl Hh Hne. destruct (val_groups ds (run_digits _ _ _ _ Hr) Hl Hh) as (Bi & Bj & Hval).
  set (i := val 10 0 (take 9 ds)) in *. set (j := val 10 0 (take 9 (drop 9 ds))) in *.
  pose proof (run_drop _ 18 _ _ _ Hr Hl) as Hr18. rewrite Hval.
  assert (length ds = 18 + length (drop 18 ds))%nat as Hlen by (rewrite length_drop; lia).
  set (r := drop 18 ds) in *. clearbody r i j. clear Hval Hh.
  set (e := (s + 20 `min` length ds)%nat).
  assert (e = s + 18 + Nat.min 2 (length r))%nat as He by (unfold e; lia). clearbody e.
  unfold last_digits. destruct r as [|a r].
  { destruct (digit_at_other _ _ _ Hr18 Hne) as (c & -> & Hc). cbn [mbind option_bind].
    rewrite decide_True by done. rewrite end3_spec by lia. do 2 f_equal. simpl in He. lia. }
  destruct (digit_at_digit _ _ _ _ _ Hr18) as [-> Ha]. cbn [mbind option_bind].
  rewrite decide_False by lia. apply run_tail in Hr18.
  case_decide as Hs19.
  { destruct Hr18 as [_ _ Hle _]. destruct r; [|simpl in Hle; lia].
    rewrite end4_spec by lia. do 2 f_equal. simpl in He. lia. }
  destruct r as [|b r].
  { destruct (digit_at_other _ _ _ Hr18 Hs19) as (c & -> & Hc). cbn [mbind option_bind].
    rewrite decide_True by done. rewrite end4_spec by lia. do 2 f_equal. simpl in He. lia. }
  destruct (digit_at_digit _ _ _ _ _ Hr18) as [-> Hb]. cbn [mbind option_bind].
  rewrite decide_False by lia. apply run_tail in Hr18. replace (S (S (s + 18))) with e by (simpl in He; lia).
  replace (S (S (s + 18))) with e in Hr18 by (simpl in He; lia).
  assert ((if decide (e = stop) then Some false else c ← digit_at str e; Some (bool_decide (c <= 9)))
    = Some (bool_decide (r ≠ []))) as ->.
  { case_decide as Hes.
    - destruct Hr18 as [_ _ Hle _]. destruct r; [done|simpl in Hle; lia].
    - destruct r as [|x r].
      + destruct (digit_at_other _ _ _ Hr18 Hes) as (c & -> & Hc). simpl.
        by rewrite bool_decide_false by lia.
      + destruct (digit_at_digit _ _ _ _ _ Hr18) as [-> Hx]. simpl. by rewrite bool_decide_true by lia. }
  cbn [mbind option_bind]. destruct r as [|x r].
  - rewrite bool_decide_false by tauto.
    rewrite (cutoff_spec negative i j (a * 10 + b)) by lia. do 2 f_equal. simpl. lia.
  - rewrite bool_decide_true by done. apply outcome_over.
    destruct Hr18 as [HF _ _ _]. pose proof (val_bounds 10 (x :: r) ltac:(lia) HF) as V.
    change (val 10 (i * 10 ^ 9 + j) (a :: b :: x :: r))
      with (val 10 (((i * 10 ^ 9 + j) * 10 + a) * 10 + b) (x :: r)).
    rewrite val_acc. cbn [length] in *. rewrite Nat2Z.inj_succ, Z.pow_succ_r by lia.
    assert (0 < 10 ^ Z.of_nat (length r)) by (apply Z.pow_pos_nonneg; lia).
    destruct negative; nia.
Qed.

Lemma lfactor_pow n : (n <= 8)%nat -> lfactor !! n = Some (10 ^ Z.of_nat n).
Proof. intros Hn. do 9 (destruct n as [|n]; [done|]). lia. Qed.

(** Ten to seventeen digits. *)
Lemma end_i_and_j_spec negative i r s0 :
  0 <= i < 10 ^ 9 -> digits 10 r -> (length r <= 8)%nat ->
  end_i_and_j negative i (val 10 0 r) (s0 + length r) s0 =
    Some (outcome negative (val 10 i r) (s0 + length r)).
Proof.
  intros Bi HF Hl. unfold end_i_and_j. replace (s0 + length r - s0)%nat with (length r) by lia.
  rewrite lfactor_pow by done. cbn [mbind option_bind].
  pose proof (val_bounds 10 r ltac:(lia) HF) as V.
  assert (0 < 10 ^ Z.of_nat (length r) <= 10 ^ 8)
    by (split; [apply Z.pow_pos_nonneg|apply Z.pow_le_mono_r]; lia).
  rewrite (u64_small (i * _)), u64_small by nia. f_equal. rewrite (val_acc 10 r i).
  apply outcome_in; [nia|]. destruct negative; nia.
Qed.

Lemma second_digits_spec negative s stop ds :
  run str s stop ds -> (9 <= length ds)%nat -> (forall d, head ds = Some d -> d ≠ 0) ->
  (s + 9 ≠ stop)%nat ->
  second_digits str negative (val 10 0 (take 9 ds)) (s + 9) stop =
    Some (outcome negative (val 10 0 ds) (s + Nat.min 20 (length ds))).
Proof.
  intros Hr Hl Hh Hne. unfold second_digits, INIT_CNT.
  pose proof (run_drop _ 9 _ _ _ Hr Hl) as Hr9. pose proof (run_stop _ _ _ _ Hr) as Hstop.
  pose proof (run_digits _ _ _ _ Hr9) as HF9.
  set (n := (Nat.min (s + 9 + 9) stop - (s + 9))%nat).
  assert (length (drop 9 ds) = length ds - 9)%nat as Hl9 by apply length_drop.
  assert (val 10 0 ds = val 10 (val 10 0 (take 9 ds)) (drop 9 ds)) as Hval
    by (by rewrite <- val_app, take_drop).
  assert (0 <= val 10 0 (take 9 ds) < 10 ^ 9) as Bi.
  { pose proof (val_bounds 10 (take 9 ds) ltac:(lia) (Forall_take _ _ _ (run_digits _ _ _ _ Hr))) as V.
    rewrite length_take in V. by replace (9 `min` length ds)%nat with 9%nat in V by lia. }
  rewrite (read_digits_spec str _ (s + 9) _ stop (drop 9 ds));
    [|done|lia|by eapply run_length|lia|].
  2: { fold n. assert (10 ^ Z.of_nat n <= 10 ^ 9) by (apply Z.pow_le_mono_r; lia). lia. }
  fold n. cbn [mbind option_bind].
  assert ((length (drop 9 ds) <= n)%nat -> take n (drop 9 ds) = drop 9 ds) as Hall
    by (intros; by apply take_ge).
  case_bool_decide as Hshort.
  { rewrite Hall by lia. rewrite end_i_and_j_spec by (done || lia). rewrite Hval.
    do 2 f_equal. lia. }
  rewrite length_take. replace (n `min` length (drop 9 ds))%nat with n by lia.
  case_decide as Hend.
  - rewrite Hall by lia. rewrite Hval. case_decide as H18.
    + replace (s + 9 + n)%nat with (s + 9 + length (drop 9 ds))%nat by lia.
      rewrite end_i_and_j_spec by (done || lia). do 2 f_equal. lia.
    + rewrite end3_spec; [|lia|].
      * rewrite (val_acc _ (drop 9 ds) (val 10 0 (take 9 ds))). replace (length (drop 9 ds)) with 9%nat by lia.
        change (Z.of_nat 9) with 9. do 2 f_equal. lia.
      * pose proof (val_bounds 10 _ ltac:(lia) HF9) as V.
        by replace (length (drop 9 ds)) with 9%nat in V by lia.
  - assert (n = 9)%nat as -> by lia. replace (s + 9 + 9)%nat with (s + 18)%nat by lia.
    apply last_digits_spec; [done|lia|done|lia].
Qed.

(** The first nine digits, [pre] of which are read. *)
Lemma first_digits_spec negative s stop pre rest :
  run str s stop (pre ++ rest) -> (length pre <= 1)%nat ->
  (forall d, head (pre ++ rest) = Some d -> d ≠ 0) ->
  first_digits str negative (val 10 0 pre) (s + length pre) (s + 9) stop =
    Some (outcome negative (val 10 0 (pre ++ rest)) (s + Nat.min 20 (length (pre ++ rest)))).
Proof.
  intros Hr Hp Hh. unfold first_digits. set (ds := pre ++ rest) in *.
  assert (length ds = length pre + length rest)%nat as Hlen by apply length_app.
  pose proof (run_stop _ _ _ _ Hr) as Hstop. pose proof (run_digits _ _ _ _ Hr) as HF.
  assert (run str (s + length pre) stop rest) as Hr1.
  { pose proof (run_drop _ (length pre) _ _ _ Hr ltac:(lia)) as H.
    unfold ds in H. by rewrite drop_app_length in H. }
  set (n := (Nat.min (s + 9) stop - (s + length pre))%nat).
  assert (0 <= val 10 0 pre < 10) as Bp.
  { assert (digits 10 pre) as HFp by (by apply Forall_app in HF as [? _]).
    pose proof (val_bounds 10 pre ltac:(lia) HFp) as V.
    assert (10 ^ Z.of_nat (length pre) <= 10 ^ 1) by (apply Z.pow_le_mono_r; lia).
    change (10 ^ 1) with 10 in *. lia. }
  rewrite (read_digits_spec str _ (s + length pre) _ stop rest);
    [|done|lia|by eapply run_length|lia|].
  2: { fold n. assert (10 ^ Z.of_nat n <= 10 ^ 9) by (apply Z.pow_le_mono_r; lia). nia. }
  fold n. cbn [mbind option_bind].
  assert (forall k, val 10 (val 10 0 pre) (take k rest) = val 10 0 (take (length pre + k) ds)) as Hv.
  { intros k. unfold ds. rewrite <- val_app, take_app.
    rewrite (take_ge pre) by lia. by replace (length pre + k - length pre)%nat with k by lia. }
  rewrite Hv.
  assert ((length ds <= 9)%nat -> 0 <= val 10 0 ds < 10 ^ 9) as Bd.
  { intros H9. pose proof (val_bounds 10 ds ltac:(lia) HF) as V.
    assert (10 ^ Z.of_nat (length ds) <= 10 ^ 9) by (apply Z.pow_le_mono_r; lia). lia. }
  assert ((length rest <= n)%nat -> take (length pre + n) ds = ds) as Hall by (intros; apply take_ge; lia).
  assert ((length ds <= 9)%nat -> end_i negative (val 10 0 ds) (s + length ds) =
    Some (outcome negative (val 10 0 ds) (s + Nat.min 20 (length ds)))) as Hend.
  { intros H9. unfold end_i. specialize (Bd H9). change (10 ^ 9) with 1000000000 in Bd.
    rewrite outcome_in by (destruct negative; lia). do 2 f_equal. lia. }
  rewrite length_take. case_bool_decide as Hshort.
  { rewrite Hall by lia. rewrite <- Hend by lia. f_equal. lia. }
  replace (n `min` length rest)%nat with n by lia. case_decide as Hs.
  { rewrite Hall by lia. rewrite <- Hend by lia. f_equal. lia. }
  replace (length pre + n)%nat with 9%nat by lia.
  replace (s + length pre + n)%nat with (s + 9)%nat by lia.
  apply second_digits_spec; [done|lia|done|lia].
Qed.

Lemma skip_zeros_spec n : forall s stop ds,
  run str s stop (0 :: ds) -> (length ds < n)%nat ->
  let e := (S s + length (take_while (Z.eqb 0) ds))%nat in
  skip_zeros str n s stop = Some (if decide (e = stop) then None else Some e).
Proof.
  induction n as [|n IH]; intros s stop ds Hr Hn e; [lia|].
  pose proof (run_tail _ _ _ _ _ Hr) as Hr1. pose proof (run_stop _ _ _ _ Hr1) as Hs1.
  cbn [skip_zeros]. destruct ds as [|d ds].
  { unfold e. cbn [take_while length]. rewrite Nat.add_0_r. case_decide; [done|].
    destruct (run_end _ _ _ _ Hr1) as [|(ch & Hch & Hb & Hd)]; simpl in *; [lia|].
    rewrite Nat.add_0_r in Hch. rewrite Hch. simpl. rewrite decide_False by lia. done. }
  pose proof (run_str _ _ _ _ Hr1 0 d eq_refl) as Hd. rewrite Nat.add_0_r in Hd.
  simpl in Hs1, Hn. rewrite (decide_False (P := S s = stop)) by lia. rewrite Hd. cbn [mbind option_bind].
  unfold e. cbn [take_while]. destruct (Z.eqb_spec 0 d) as [<-|Hne].
  - rewrite decide_True by done. rewrite IH with (ds := ds) by (done || lia).
    cbn [length]. by replace (S s + S (length (take_while (Z.eqb 0) ds)))%nat
      with (S (S s) + length (take_while (Z.eqb 0) ds))%nat by lia.
  - rewrite decide_False by lia. cbn [length]. rewrite Nat.add_0_r, decide_False by lia. done.
Qed.

Lemma val_zeros ds : val 10 0 ds = val 10 0 (drop (length (take_while (Z.eqb 0) ds)) ds).
Proof.
  induction ds as [|d ds IH]; [done|]. cbn [take_while].
  destruct (Z.eqb_spec 0 d) as [<-|]; [|done]. cbn [length drop]. by rewrite <- IH.
Qed.

Lemma head_zeros ds d : head (drop (length (take_while (Z.eqb 0) ds)) ds) = Some d -> d ≠ 0.
Proof.
  rewrite head_lookup, lookup_drop, Nat.add_0_r. intros H%take_while_next. by intros ->.
Qed.

Lemma parse_number_spec negative s stop ds :
  run str s stop ds -> s ≠ stop ->
  parse_number str negative s stop = Some (number_spec negative s ds).
Proof.
  intros Hr Hne. unfold parse_number. destruct ds as [|d ds].
  { destruct (digit_at_other _ _ _ Hr Hne) as (c & Hc & Hc9).
    destruct (run_end _ _ _ _ Hr) as [He|(ch & Hch & Hb & Hd)]; simpl in *; [lia|].
    rewrite Nat.add_0_r in Hch. rewrite Hch. cbn [mbind option_bind].
    rewrite decide_False by lia. rewrite Hc. cbn [mbind option_bind]. by rewrite decide_True. }
  pose proof (run_str _ _ _ _ Hr 0 d eq_refl) as Hd. rewrite Nat.add_0_r in Hd. rewrite Hd.
  destruct (digit_at_digit _ _ _ _ _ Hr) as [Hat Bd].
  cbn [mbind option_bind]. case_decide as H0.
  - assert (d = 0) as -> by lia.
    pose proof (run_length _ _ _ _ Hr) as Hf. simpl in Hf.
    rewrite (skip_zeros_spec _ s stop ds) by (done || lia). cbn [mbind option_bind].
    unfold number_spec. rewrite val_zeros. cbn [take_while]. rewrite Z.eqb_refl.
    set (z := take_while (Z.eqb 0) ds). cbn [length drop].
    pose proof (take_while_length (Z.eqb 0) ds) as Hz. fold z in Hz.
    pose proof (run_drop _ (S (length z)) _ _ _ Hr ltac:(simpl; lia)) as Hrz. cbn [drop] in Hrz.
    pose proof (run_stop _ _ _ _ Hrz) as Hsz. rewrite length_drop in Hsz.
    case_decide as He.
    + assert (length ds = length z) as Hl by lia.
      rewrite (drop_ge ds) by lia. rewrite Hl, Nat.sub_diag, Nat.min_0_r, Nat.add_0_r, <- He.
      unfold end_i. rewrite outcome_in by (destruct negative; lia).
      do 2 f_equal. lia.
    + pose proof (first_digits_spec negative _ stop [] _ Hrz ltac:(simpl; lia)
        (fun d H => head_zeros ds d H)) as F.
      cbn [app length] in F. rewrite Nat.add_0_r, length_drop in F.
      replace (s + S (length z))%nat with (S s + length z)%nat in F by lia.
      unfold INIT_CNT. change (val 10 0 []) with 0 in F. rewrite F. do 2 f_equal. lia.
  - assert (d ≠ 0) by lia. rewrite Hat. cbn [mbind option_bind]. rewrite decide_False by lia.
    pose proof (first_digits_spec negative s stop [d] ds Hr ltac:(simpl; lia) ltac:(by intros ? [= <-])) as F.
    unfold number_spec. cbn [take_while]. replace (0 =? d) with false by lia.
    cbn [app length] in F |- *. rewrite Nat.add_0_r, Nat.sub_0_r.
    unfold INIT_CNT. replace (S s + 9 - 1)%nat with (s + 9)%nat by lia.
    by replace (s + 1)%nat with (S s) in F by lia.
Qed.

(** ** The whole parser *)

(** The characters [cs] from [s] on, which end at [stop] or before a NUL. *)
Record segment (s stop : nat) (cs : list Z) : Prop := {
  seg_str : forall k c, cs !! k = Some c -> str !! (s + k)%nat = Some c;
  seg_bytes : Forall (fun c => 0 <= c < 256) cs;
  seg_stop : (s + length cs <= stop)%nat;
  seg_end : (s + length cs)%nat = stop \/ str !! (s + length cs)%nat = Some 0
}.

Lemma segment_cons s stop c cs :
  segment s stop (c :: cs) -> str !! s = Some c /\ 0 <= c < 256 /\ (s < stop)%nat /\ segment (S s) stop cs.
Proof.
  intros [Hs Hb Hl He]. apply Forall_cons in Hb as [Hc Hb]. simpl in Hl, He.
  split; [by rewrite <- (Hs 0%nat c eq_refl), Nat.add_0_r|]. split; [done|]. split; [lia|].
  split; [|done|lia|].
  - intros k x Hx. rewrite Nat.add_succ_comm. by apply Hs.
  - by rewrite Nat.add_succ_comm.
Qed.

Lemma segment_run s stop cs : segment s stop cs -> run str s stop (digits_of cs).
Proof.
  intros [Hs Hb Hl He]. unfold digits_of.
  pose proof (take_while_length is_digit cs) as Hle. pose proof (take_while_prefix is_digit cs) as Hp.
  split; rewrite ?length_map.
  - apply Forall_map. eapply Forall_impl; [apply take_while_all|].
    intros c Hc. apply bool_decide_eq_true in Hc. lia.
  - intros k d Hk. apply list_lookup_fmap_Some in Hk as (c & -> & Hc).
    replace (48 + (c - 48)) with c by lia. apply Hs. rewrite Hp. by apply lookup_app_l_Some.
  - lia.
  - destruct (cs !! length (take_while is_digit cs)) as [c|] eqn:E.
    + right. exists c. split; [by apply Hs|]. split; [by eapply (Forall_lookup_1 _ _ _ _ Hb)|].
      apply take_while_next, bool_decide_eq_false in E. done.
    + apply lookup_ge_None in E. replace (length (take_while is_digit cs)) with (length cs) by lia.
      destruct He as [?|H0]; [by left|right]. exists 0. split; [done|lia].
Qed.

Lemma parse_signed_spec s stop cs :
  segment s stop cs -> s ≠ stop -> parse_signed str s stop = Some (signed_spec s cs).
Proof.
  intros Hg Hne.
  assert (forall neg, parse_number str neg s stop = Some (number_spec neg s (digits_of cs))) as Hn
    by (intros; by apply parse_number_spec; [apply segment_run|]).
  assert (forall neg c cs', cs = c :: cs' ->
    (if decide (S s = stop) then no_conv else parse_number str neg (S s) stop) =
    Some (number_spec neg (S s) (digits_of cs'))) as Hsign.
  { intros neg c cs' ->. destruct (segment_cons _ _ _ _ Hg) as (_ & _ & _ & Hg').
    case_decide as He; [|by apply parse_number_spec; [apply segment_run|]].
    pose proof (seg_stop _ _ _ Hg'). destruct cs'; [done|simpl in *; lia]. }
  unfold parse_signed. destruct cs as [|c cs].
  { destruct (seg_end _ _ _ Hg) as [?|H0]; simpl in *; [lia|]. rewrite Nat.add_0_r in H0.
    rewrite H0. cbn [mbind option_bind]. rewrite !decide_False by lia. apply Hn. }
  destruct (segment_cons _ _ _ _ Hg) as (-> & _ & _ & _). cbn [mbind option_bind].
  destruct (decide (c = 45)) as [->|H45]; [by eapply Hsign|].
  destruct (decide (c = 43)) as [->|H43]; [by eapply Hsign|].
  rewrite Hn. f_equal. unfold signed_spec.
  destruct c as [|c|c]; try done. do 6 (destruct c as [c|c|]; try done).
Qed.

Lemma my_isspace_spec ch : 0 <= ch < 256 -> my_isspace ch = Some (is_space ch).
Proof.
  intros H. rewrite <- (Z2Nat.id ch) by lia. assert (Z.to_nat ch < 256)%nat as Hn by lia.
  revert Hn. generalize (Z.to_nat ch). clear. intros n Hn.
  do 256 (destruct n as [|n]; [vm_compute; reflexivity|]). lia.
Qed.

Lemma skip_spaces_spec n : forall s stop cs,
  segment s stop cs -> (s + length cs = stop)%nat -> (length cs < n)%nat ->
  skip_spaces str n s stop = Some (s + length (take_while is_space cs))%nat.
Proof.
  induction n as [|n IH]; intros s stop cs Hg He Hn; [lia|]. cbn [skip_spaces].
  destruct cs as [|c cs]; cbn [length] in *.
  { rewrite decide_False by lia. simpl. f_equal. lia. }
  destruct (segment_cons _ _ _ _ Hg) as (-> & Hc & Hlt & Hg'). rewrite decide_True by lia.
  cbn [mbind option_bind]. rewrite my_isspace_spec by done. cbn [mbind option_bind take_while].
  destruct (is_space c); [|simpl; f_equal; lia].
  rewrite (IH _ _ cs) by (done || lia). simpl. f_equal. lia.
Qed.

Lemma skip_spaces_nul_spec n : forall s stop cs,
  segment s stop cs -> str !! (s + length cs)%nat = Some 0 -> 0 ∉ cs -> (length cs < n)%nat ->
  let sp := length (take_while is_space cs) in
  skip_spaces_nul str n s = Some (if decide (sp = length cs) then None else Some (s + sp)%nat).
Proof.
  induction n as [|n IH]; intros s stop cs Hg H0 Hin Hn sp; [lia|]. cbn [skip_spaces_nul].
  destruct cs as [|c cs]; cbn [length] in *.
  { rewrite Nat.add_0_r in H0. rewrite H0. done. }
  destruct (segment_cons _ _ _ _ Hg) as (-> & Hc & Hlt & Hg'). cbn [mbind option_bind].
  apply not_elem_of_cons in Hin as [Hc0 Hin]. rewrite decide_False by done.
  rewrite my_isspace_spec by done. cbn [mbind option_bind]. unfold sp. cbn [take_while].
  destruct (is_space c); [|simpl; f_equal; f_equal; lia].
  rewrite (IH (S s) stop cs) by (done || lia || by rewrite Nat.add_succ_comm).
  cbn [length]. destruct (decide (_ = length cs)), (decide (S _ = _)); try lia; try done.
  do 2 f_equal. lia.
Qed.

Lemma segment_drop n : forall s stop cs,
  segment s stop cs -> (n <= length cs)%nat -> segment (s + n) stop (drop n cs).
Proof.
  induction n as [|n IH]; intros s stop cs Hg Hn; [by rewrite Nat.add_0_r|].
  destruct cs as [|c cs]; [simpl in Hn; lia|]. simpl in Hn.
  rewrite <- Nat.add_succ_comm. cbn [drop]. apply IH; [|lia]. by eapply segment_cons.
Qed.

End parsing.

Definition bytes (l : list Z) : Prop := Forall (fun c => 0 <= c < 256) l.

(** A string whose end is given. *)
Lemma my_strtoll10_fixed cs rest :
  bytes cs -> my_strtoll10 (cs ++ rest) (Some (length cs)) = Some (strtoll10_spec cs).
Proof.
  intros Hb. set (str := cs ++ rest).
  assert (segment str 0 (length cs) cs) as Hg.
  { split; [|done|lia|by left]. intros k c Hk. by apply lookup_app_l_Some. }
  unfold my_strtoll10, strtoll10_spec. pose proof (take_while_length is_space cs) as Hsp.
  rewrite (skip_spaces_spec _ _ 0 (length cs) cs)
    by (done || (unfold fuel, str; rewrite length_app; lia)). cbn [mbind option_bind].
  case_decide as He; simpl in *; [by rewrite drop_ge by lia|].
  apply parse_signed_spec; [|done]. apply (segment_drop _ _ 0); done.
Qed.

(** A string that ends in a NUL. *)
Lemma my_strtoll10_nul cs rest :
  bytes cs -> 0 ∉ cs -> Z.of_nat (length cs) <= 65535 ->
  my_strtoll10 (cs ++ 0 :: rest) None = Some (strtoll10_spec cs).
Proof.
  intros Hb Hin Hl. set (str := cs ++ 0 :: rest).
  assert (forall stop, length cs <= stop -> segment str 0 stop cs)%nat as Hg.
  { intros stop Hs. split; [|done|simpl; lia|right; simpl].
    - intros k c Hk. by apply lookup_app_l_Some.
    - unfold str. by rewrite lookup_app_r, Nat.sub_diag by lia. }
  unfold my_strtoll10, strtoll10_spec. pose proof (take_while_length is_space cs) as Hsp.
  set (sp := length (take_while is_space cs)) in *.
  rewrite (skip_spaces_nul_spec _ _ 0 (length cs) cs);
    [|by apply Hg|unfold str; by rewrite lookup_app_r, Nat.sub_diag by lia|done|
     unfold fuel, str; rewrite length_app; lia].
  fold sp. cbn [mbind option_bind]. case_decide as He; [by rewrite drop_ge by lia|].
  assert (Z.of_nat 65535 = 65535) as HN by reflexivity. revert HN. generalize 65535%nat. intros N HN.
  apply parse_signed_spec; [|lia]. apply (segment_drop _ _ 0); [apply Hg; lia|done].
Qed.

(** C27: [my_strtoll10], with the end of the string given or with a string of
    at most 65535 characters that ends in a NUL, reads inside the string only
    and returns the value of the decimal number behind spaces and sign; or the
    nearest limit and the range error, exactly if the number is not below
    [2^64] or, behind a minus sign, above [2^63]; or the domain error if there
    is no digit. *)
Theorem my_strtoll10_correct cs rest :
  bytes cs ->
  my_strtoll10 (cs ++ rest) (Some (length cs)) = Some (strtoll10_spec cs) /\
  (0 ∉ cs -> Z.of_nat (length cs) <= 65535 ->
   my_strtoll10 (cs ++ 0 :: rest) None = Some (strtoll10_spec cs)).
Proof. intros Hb. split; [by apply my_strtoll10_fixed|intros; by apply my_strtoll10_nul]. Qed.

Lemma my_strtoll10_correct_witness :
  strtoll10_spec (codes " -9223372036854775809 ") = mk_result (- 2 ^ 63) MY_ERRNO_ERANGE 21 /\
  my_strtoll10 (codes " -9223372036854775809 " ++ []) (Some 22%nat) =
    Some (strtoll10_spec (codes " -9223372036854775809 ")).
Proof.
  split; [vm_compute; reflexivity|].
  refine (proj1 (my_strtoll10_correct (codes " -9223372036854775809 ") [] _)).
  apply (bool_decide_unpack _). vm_compute. exact I.
Defined.

End IntConvProofs.
