(* ===== verification/IntPrint.v ===== *)
(** * Printing of integers

    [int2str], [int10_to_str] and their variants in longlong2str.c write the
    numeral of the value in the base asked for, and [my_strtoll10] reads it
    back. *)

From Stdlib Require Import Ascii String.
From S2P Require Import Prelude IntConv IntConvProofs.
Import IntConv IntConvProofs.

#[local] Open Scope Z_scope.

Module IntPrint.

(** ** Numerals *)

(** The digits of a number of at most [p] bits, without leading zeros. *)
Fixpoint to_digits (p : nat) (r n : Z) : list Z :=
  match p with
  | O => []
  | S p => if decide (n = 0) then [] else to_digits p r (n / r) ++ [n mod r]
  end.

Definition numeral (r n : Z) : list Z :=
  match to_digits 64 r n with [] => [0] | ds => ds end.

Definition chars (dig : list Z) (ds : list Z) : list Z :=
  map (fun d => default 0 (dig !! Z.to_nat d)) ds.

Section numerals.
Context (r : Z) (Hr : 2 <= r).

Lemma quotient_bits p n : 0 <= n < 2 ^ Z.of_nat (S p) -> 0 <= n / r < 2 ^ Z.of_nat p.
Proof.
  intros Hn. rewrite Nat2Z.inj_succ, Z.pow_succ_r in Hn by lia.
  split; [apply Z.div_pos; lia|]. apply Z.div_lt_upper_bound; [lia|]. nia.
Qed.

Lemma to_digits_digits p : forall n, digits r (to_digits p r n).
Proof.
  induction p as [|p IH]; intros n; simpl; [constructor|]. case_decide; [constructor|].
  apply Forall_app. split; [apply IH|]. constructor; [|constructor]. apply Z.mod_pos_bound. lia.
Qed.

Lemma to_digits_val p : forall n, 0 <= n < 2 ^ Z.of_nat p -> val r 0 (to_digits p r n) = n.
Proof.
  induction p as [|p IH]; intros n Hn; [simpl in *; lia|].
  cbn [to_digits]. case_decide; [done|].
  rewrite val_app, IH by (by apply quotient_bits). cbn [val fold_left].
  pose proof (Z.div_mod n r ltac:(lia)). lia.
Qed.

Lemma to_digits_head p : forall n, 0 <= n < 2 ^ Z.of_nat p -> head (to_digits p r n) ≠ Some 0.
Proof.
  induction p as [|p IH]; intros n Hn; [done|].
  cbn [to_digits]. case_decide as H0; [done|].
  specialize (IH _ (quotient_bits _ _ Hn)). pose proof (to_digits_val p _ (quotient_bits _ _ Hn)) as V.
  destruct (to_digits p r (n / r)) as [|d ds]; [|done]. simpl in V |- *.
  intros [= E]. pose proof (Z.div_mod n r ltac:(lia)). lia.
Qed.

Lemma numeral_last n :
  0 <= n < 2 ^ 64 -> to_digits 63 r (n / r) ++ [n mod r] = numeral r n.
Proof.
  intros Hn. unfold numeral. change (to_digits 64 r n) with
    (if decide (n = 0) then [] else to_digits 63 r (n / r) ++ [n mod r]).
  case_decide as H0; [by subst; rewrite Z.div_0_l, Z.mod_0_l by lia|].
  by destruct (to_digits 63 r (n / r)).
Qed.

Lemma numeral_digits n : digits r (numeral r n).
Proof.
  unfold numeral. pose proof (to_digits_digits 64 n). destruct (to_digits 64 r n); [|done].
  repeat constructor; lia.
Qed.

Lemma numeral_val n : 0 <= n < 2 ^ 64 -> val r 0 (numeral r n) = n.
Proof.
  intros Hn. unfold numeral. pose proof (to_digits_val 64 n Hn) as V. by destruct (to_digits 64 r n).
Qed.

Lemma numeral_cases n : 0 <= n < 2 ^ 64 ->
  numeral r n = [0] \/ exists d ds, numeral r n = d :: ds /\ d ≠ 0.
Proof.
  intros Hn. unfold numeral. pose proof (to_digits_head 64 n Hn) as V.
  destruct (to_digits 64 r n) as [|d ds]; [by left|right]. exists d, ds. split; [done|].
  intros ->. done.
Qed.

End numerals.

(** ** The loops *)

Section loops.
Context (dig : list Z) (r : Z) (Hr : 2 <= r) (Hdig : r <= Z.of_nat (length dig)).

Lemma dig_char d : 0 <= d < r -> dig !! Z.to_nat d = Some (default 0 (dig !! Z.to_nat d)).
Proof.
  intros Hd. destruct (lookup_lt_is_Some_2 dig (Z.to_nat d)) as [c ->]; [lia|done].
Qed.

(** The buffer never runs out: a number of [p] bits has at most [p] digits. *)
Lemma digits_loop_spec fuel : forall p v s,
  0 <= v < 2 ^ Z.of_nat p -> (p < fuel)%nat ->
  exists p', digits_loop fuel dig r v (p, s) = Some (p', chars dig (to_digits p r v) ++ s).
Proof.
  induction fuel as [|fuel IH]; intros p v s Hv Hf; [lia|]. cbn [digits_loop]. case_decide as H0.
  { exists p. subst. by destruct p; simpl; rewrite ?decide_True. }
  destruct p as [|p]; [simpl in Hv; lia|].
  rewrite Z.quot_div_nonneg by lia.
  replace (v - v / r * r) with (v mod r) by (pose proof (Z.div_mod v r ltac:(lia)); lia).
  rewrite (dig_char (v mod r)) by (apply Z.mod_pos_bound; lia). cbn [mbind option_bind put_front fst snd].
  destruct (IH p (v / r) (default 0 (dig !! Z.to_nat (v mod r)) :: s)) as [p' ->];
    [by apply quotient_bits|lia|].
  exists p'. cbn [to_digits]. rewrite decide_False by done. unfold chars.
  by rewrite map_app, <- app_assoc.
Qed.

Lemma long_digits_loop_spec fuel : r <= 36 -> forall p v s,
  0 < v < 2 ^ Z.of_nat p -> (p < fuel)%nat -> (p <= 64)%nat ->
  exists v' q s' p',
    long_digits_loop fuel dig r v (p, s) = Some (v', (q, s')) /\
    digits_loop 65 dig r v' (q, s') = Some (p', chars dig (to_digits p r v) ++ s).
Proof.
  intros Hr36. induction fuel as [|fuel IH]; intros p v s Hv Hf Hp; [lia|]. cbn [long_digits_loop].
  case_decide as HL; unfold LONG_MAX in HL.
  2: { destruct (digits_loop_spec 65 p v s) as [p' Hd]; [lia|lia|]. eauto 10. }
  destruct p as [|p]; [simpl in Hv; lia|].
  assert (2 ^ Z.of_nat (S p) <= 2 ^ 64) by (apply Z.pow_le_mono_r; lia).
  pose proof (Z.div_mod v r ltac:(lia)) as Hdm. pose proof (Z.mod_pos_bound v r ltac:(lia)) as Hm.
  assert (0 < v / r) by (apply Z.div_str_pos; lia).
  rewrite (u64_small (v / r * r)) by lia. replace (v - v / r * r) with (v mod r) by lia.
  rewrite u64_small, u32_small by lia. rewrite (dig_char (v mod r)) by lia.
  cbn [mbind option_bind put_front fst snd].
  destruct (IH p (v / r) (default 0 (dig !! Z.to_nat (v mod r)) :: s)) as (v' & q & s' & p' & H1 & H2);
    [pose proof (quotient_bits r Hr p v); lia|lia|lia|].
  exists v', q, s', p'. split; [done|]. rewrite H2. cbn [to_digits]. rewrite decide_False by lia.
  unfold chars. by rewrite map_app, <- app_assoc.
Qed.

Lemma ulonglong_digits_spec n :
  r <= 36 -> head dig = Some 48 -> 0 <= n < 2 ^ 64 ->
  ulonglong_digits dig r n = Some (chars dig (numeral r n) ++ [0]).
Proof.
  intros Hr36 Hz Hn. unfold ulonglong_digits, numeral. case_decide as H0.
  { subst. rewrite head_lookup in Hz. cbn [to_digits chars map app]. rewrite decide_True by done.
    cbn [map app]. change (Z.to_nat 0) with 0%nat. by rewrite Hz. }
  destruct (long_digits_loop_spec 65 Hr36 64 n []) as (v' & q & s' & p' & -> & H2); [lia|lia|lia|].
  cbn [mbind option_bind]. rewrite H2. cbn [mbind option_bind].
  rewrite app_nil_r. pose proof (to_digits_val r Hr 64 n Hn) as V.
  destruct (to_digits 64 r n); [by simpl in V|done].
Qed.

End loops.

(** ** The functions *)

(** The value printed: that of a [longlong] taken to be signed or not. *)
Definition printed (val radix : Z) : Z := if decide (radix < 0) then Z.abs val else val mod 2 ^ 64.

Lemma magnitude_spec val radix :
  - 2 ^ 63 <= val < 2 ^ 63 ->
  magnitude val radix = printed val radix /\ 0 <= printed val radix < 2 ^ 64.
Proof.
  intros Hv. unfold magnitude, printed, u64.
  pose proof (Z.mod_pos_bound val (2 ^ 64) ltac:(lia)).
  destruct (decide (radix < 0)).
  - destruct (decide (val < 0)); [rewrite decide_True by done|rewrite decide_False by tauto]; dlia.
  - rewrite decide_False by tauto. lia.
Qed.

Definition text (dig : list Z) (r val radix : Z) : list Z :=
  sign_of val radix ++ chars dig (numeral r (printed val radix)) ++ [0].

(** The division before the loop of the functions of int2str.c. *)
Lemma first_digit dig r n :
  2 <= r <= 36 -> r <= Z.of_nat (length dig) -> 0 <= n < 2 ^ 64 ->
  let new_val := to_ll (n / r) in
  u64 (n - u64 (u64 new_val * r)) = n mod r /\
  exists p, digits_loop 65 dig r new_val (63%nat, [default 0 (dig !! Z.to_nat (n mod r))]) =
    Some (p, chars dig (numeral r n)).
Proof.
  intros Hr Hdig Hn. pose proof (quotient_bits r ltac:(lia) 63 n Hn) as Hq.
  change (Z.of_nat 63) with 63 in Hq. cbv zeta. rewrite to_ll_small by lia.
  pose proof (Z.div_mod n r ltac:(lia)). pose proof (Z.mod_pos_bound n r ltac:(lia)).
  rewrite (u64_small (n / r)), (u64_small (n / r * r)), u64_small by lia. split; [lia|].
  destruct (digits_loop_spec dig r ltac:(lia) Hdig 65 63 (n / r)
    [default 0 (dig !! Z.to_nat (n mod r))] Hq ltac:(lia)) as [p ->].
  exists p. rewrite <- (numeral_last r ltac:(lia) n Hn). unfold chars. by rewrite map_app.
Qed.

Lemma bad_radix_spec radix : bad_radix radix = bool_decide (~ 2 <= Z.abs radix <= 36).
Proof.
  unfold bad_radix. destruct (radix <? 0) eqn:E; symmetry;
    destruct (_ || _) eqn:F; rewrite ?bool_decide_eq_true, ?bool_decide_eq_false; lia.
Qed.

Definition dig_vec (upcase : bool) : list Z := if upcase then _dig_vec_upper else _dig_vec_lower.

Lemma dig_vec_length upcase : Z.of_nat (length (dig_vec upcase)) = 36.
Proof. by destruct upcase. Qed.

Lemma int2str_text val radix upcase :
  - 2 ^ 63 <= val < 2 ^ 63 ->
  int2str val radix upcase =
    Some (if decide (2 <= Z.abs radix <= 36)
          then Some (text (dig_vec upcase) (Z.abs radix) val radix) else None).
Proof.
  intros Hv. unfold int2str. rewrite bad_radix_spec. case_decide as Hr;
    [rewrite bool_decide_false by tauto|by rewrite bool_decide_true].
  destruct (magnitude_spec val radix Hv) as [-> Hm]. fold (dig_vec upcase).
  pose proof (dig_vec_length upcase) as Hl.
  destruct (first_digit (dig_vec upcase) (Z.abs radix) _ Hr ltac:(lia) Hm) as [-> [p Hp]].
  pose proof (Z.mod_pos_bound (printed val radix) (Z.abs radix) ltac:(lia)).
  rewrite Z.mod_small by lia. rewrite (dig_char _ (Z.abs radix)) by lia.
  cbn [mbind option_bind put_front fst snd]. rewrite Hp. done.
Qed.

(** The version of longlong2str.c switches to [long] once the value fits. *)
Lemma ll2str_text val radix upcase :
  - 2 ^ 63 <= val < 2 ^ 63 -> ll2str val radix upcase = int2str val radix upcase.
Proof.
  intros Hv. rewrite int2str_text by done. unfold ll2str. rewrite bad_radix_spec.
  case_decide as Hr; [rewrite bool_decide_false by tauto|by rewrite bool_decide_true].
  destruct (magnitude_spec val radix Hv) as [-> Hm]. fold (dig_vec upcase).
  pose proof (dig_vec_length upcase) as Hl.
  rewrite ulonglong_digits_spec by (lia || by destruct upcase). done.
Qed.

(** for every [longlong] and both of [int2str] and [ll2str]: if the base
    is in the range, the text is the sign, if the value is taken to be signed
    and is negative, the digits of the magnitude in the base without leading
    zeros, and a NUL, and the local buffer is large enough; else the result is
    [NullS]. *)
Theorem int2str_correct v radix upcase :
  - 2 ^ 63 <= v < 2 ^ 63 ->
  ll2str v radix upcase = int2str v radix upcase /\
  if decide (2 <= Z.abs radix <= 36) then
    exists ds, digits (Z.abs radix) ds /\ val (Z.abs radix) 0 ds = printed v radix /\
      (ds = [0] \/ exists d ds', ds = d :: ds' /\ d ≠ 0) /\
      int2str v radix upcase =
        Some (Some (sign_of v radix ++ chars (dig_vec upcase) ds ++ [0]))
  else int2str v radix upcase = Some None.
Proof.
  intros Hv. split; [by apply ll2str_text|]. rewrite int2str_text by done.
  case_decide as Hr; [|done]. destruct (magnitude_spec v radix Hv) as [_ Hm].
  exists (numeral (Z.abs radix) (printed v radix)).
  split; [apply numeral_digits; lia|]. split; [apply numeral_val; lia|].
  split; [apply numeral_cases; lia|done].
Qed.

Lemma int2str_correct_witness :
  int2str (-255) (-16) false = Some (Some (codes "-ff" ++ [0])) /\
  exists ds, val 16 0 ds = 255 /\
    int2str (-255) (-16) false = Some (Some (sign_of (-255) (-16) ++ chars (dig_vec false) ds ++ [0])).
Proof.
  split; [vm_compute; reflexivity|].
  destruct (int2str_correct (-255) (-16) false) as [_ (ds & _ & V & _ & E)]; [lia|].
  exists ds. split; [exact V|exact E].
Defined.

Definition decimal (ds : list Z) : list Z := map (fun d => 48 + d) ds.

Lemma chars_decimal dig ds :
  take 10 dig = codes "0123456789" -> digits 10 ds -> chars dig ds = decimal ds.
Proof.
  intros Hd HF. apply map_ext_Forall. eapply Forall_impl; [exact HF|]. intros d Bd. simpl in *.
  rewrite <- (lookup_take_lt dig 10 (Z.to_nat d)) by lia. rewrite Hd.
  assert (d = 0 \/ d = 1 \/ d = 2 \/ d = 3 \/ d = 4 \/ d = 5 \/ d = 6 \/ d = 7 \/ d = 8 \/ d = 9) as Hc by lia.
  by destruct Hc as [->|[->|[->|[->|[->|[->|[->|[->|[->| ->]]]]]]]]].
Qed.

Lemma int10_to_str_text val radix :
  - 2 ^ 63 <= val < 2 ^ 63 ->
  int10_to_str val radix = Some (sign_of val radix ++ decimal (numeral 10 (printed val radix)) ++ [0]).
Proof.
  intros Hv. unfold int10_to_str. destruct (magnitude_spec val radix Hv) as [-> Hm].
  destruct (first_digit (codes "0123456789") 10 _ ltac:(lia) ltac:(done) Hm) as [-> [p Hp]].
  cbn [mbind option_bind put_front fst snd].
  pose proof (Z.mod_pos_bound (printed val radix) 10 ltac:(lia)) as Bd.
  assert (default 0 (codes "0123456789" !! Z.to_nat (printed val radix mod 10)) =
    48 + printed val radix mod 10) as E.
  { pose proof (chars_decimal (codes "0123456789") [printed val radix mod 10] eq_refl) as C.
    by injection (C (Forall_cons_2 _ _ _ Bd (Forall_nil_2 _))). }
  rewrite E in Hp. rewrite Hp. cbn [mbind option_bind].
  by rewrite chars_decimal by (done || by apply numeral_digits).
Qed.

Lemma longlong10_to_str_text val radix :
  - 2 ^ 63 <= val < 2 ^ 63 -> longlong10_to_str val radix = int10_to_str val radix.
Proof.
  intros Hv. rewrite int10_to_str_text by done. unfold longlong10_to_str.
  destruct (magnitude_spec val radix Hv) as [-> Hm].
  rewrite ulonglong_digits_spec by (done || lia). cbn [mbind option_bind].
  by rewrite chars_decimal by (done || by apply numeral_digits).
Qed.

(** ** Reading back what was printed *)

Lemma take_while_true p l : Forall (fun x => p x = true) l -> take_while p l = l.
Proof. induction 1 as [|x l Hx _ IH]; simpl; [done|]. by rewrite Hx, IH. Qed.

Lemma digits_of_decimal ds : digits 10 ds -> digits_of (decimal ds) = ds.
Proof.
  intros HF. unfold digits_of. rewrite take_while_true.
  - unfold decimal. rewrite map_map. rewrite <- (map_id ds) at 2. apply map_ext. intros; lia.
  - apply Forall_map. eapply Forall_impl; [exact HF|]. intros d Bd. apply bool_decide_eq_true.
    simpl in *. lia.
Qed.

Lemma numeral_length n : 0 <= n < 2 ^ 64 -> (length (numeral 10 n) <= 20)%nat.
Proof.
  intros Hn. pose proof (numeral_digits 10 ltac:(lia) n) as HF. pose proof (numeral_val 10 ltac:(lia) n Hn) as V.
  destruct (numeral_cases 10 ltac:(lia) n Hn) as [->|(d & ds & E & Hd)]; [simpl; lia|].
  rewrite E in *. apply Forall_cons in HF as [Bd HF].
  pose proof (val_significant 10 d ds ltac:(lia) ltac:(lia) HF) as S.
  destruct (decide (length ds < 20)%nat); [simpl; lia|].
  assert (10 ^ 20 <= 10 ^ Z.of_nat (length ds)) by (apply Z.pow_le_mono_r; lia).
  change (10 ^ 20) with 100000000000000000000 in *. lia.
Qed.

Lemma number_spec_numeral negative s n :
  0 <= n < 2 ^ 64 ->
  number_spec negative s (numeral 10 n) = outcome negative n (s + length (numeral 10 n)).
Proof.
  intros Hn. pose proof (numeral_length n Hn) as Hl. pose proof (numeral_val 10 ltac:(lia) n Hn) as V.
  destruct (numeral_cases 10 ltac:(lia) n Hn) as [E|(d & ds & E & Hd)]; rewrite E in *.
  - simpl in V. subst n. simpl. f_equal. lia.
  - unfold number_spec. cbn [take_while]. replace (0 =? d) with false by lia.
    rewrite V. f_equal. cbn [length] in *. lia.
Qed.

Lemma spec_unsigned n : 0 <= n < 2 ^ 64 ->
  strtoll10_spec (decimal (numeral 10 n)) = outcome false n (length (numeral 10 n)).
Proof.
  intros Hn. pose proof (numeral_digits 10 ltac:(lia) n) as HF.
  pose proof (number_spec_numeral false 0 n Hn) as N. rewrite <- (digits_of_decimal _ HF) in N at 1.
  rewrite Nat.add_0_l in N.
  destruct (numeral 10 n) as [|d ds] eqn:E; [by destruct (numeral_cases 10 ltac:(lia) n Hn) as [|(?&?&?&?)]; congruence|].
  apply Forall_cons in HF as [Bd _].
  unfold strtoll10_spec. cbn [decimal map take_while].
  assert (is_space (48 + d) = false) as -> by (apply bool_decide_eq_false; lia).
  cbn [drop]. unfold decimal in N. cbn [map] in N. rewrite <- N. cbn [length drop].
  assert (d = 0 \/ d = 1 \/ d = 2 \/ d = 3 \/ d = 4 \/ d = 5 \/ d = 6 \/ d = 7 \/ d = 8 \/ d = 9) as Hc by lia.
  by destruct Hc as [->|[->|[->|[->|[->|[->|[->|[->|[->| ->]]]]]]]]].
Qed.

Lemma spec_negative n : 0 <= n < 2 ^ 64 ->
  strtoll10_spec (45 :: decimal (numeral 10 n)) = outcome true n (S (length (numeral 10 n))).
Proof.
  intros Hn. pose proof (numeral_digits 10 ltac:(lia) n) as HF.
  unfold strtoll10_spec. cbn [take_while]. change (is_space 45) with false. cbn [length drop signed_spec].
  rewrite digits_of_decimal by done. by apply number_spec_numeral.
Qed.

(** C28: [my_strtoll10] undoes [int10_to_str] for every [longlong], printed
    signed or unsigned, and so [longlong10_to_str], which writes the same
    text: it returns the value, [-1] or [0] for the sign, and
    the end of the string. *)
Theorem int10_roundtrip v radix :
  - 2 ^ 63 <= v < 2 ^ 63 ->
  exists str, int10_to_str v radix = Some (str ++ [0]) /\
    longlong10_to_str v radix = Some (str ++ [0]) /\
    my_strtoll10 (str ++ [0]) (Some (length str)) =
      Some (mk_result v (sign_error (bool_decide (radix < 0 /\ v < 0))) (length str)).
Proof.
  intros Hv. destruct (magnitude_spec v radix Hv) as [_ Hm].
  exists (sign_of v radix ++ decimal (numeral 10 (printed v radix))).
  rewrite longlong10_to_str_text, int10_to_str_text, <- app_assoc by done. do 2 (split; [done|]).
  rewrite app_assoc.
  pose proof (numeral_digits 10 ltac:(lia) (printed v radix)) as HF.
  rewrite my_strtoll10_fixed.
  2: { apply Forall_app. split; [unfold sign_of; case_decide; repeat constructor; lia|].
       apply Forall_map. eapply Forall_impl; [exact HF|]. intros d Bd. simpl in *. lia. }
  unfold sign_of. case_decide as Hs; [rewrite bool_decide_true by done|rewrite bool_decide_false by done].
  - cbn [app length]. rewrite spec_negative by done. unfold decimal. rewrite length_map.
    unfold printed. rewrite decide_True by tauto. unfold outcome. rewrite decide_True by lia.
    do 2 f_equal. lia.
  - cbn [app]. rewrite spec_unsigned by done. unfold decimal. rewrite length_map.
    unfold outcome. rewrite decide_True by lia. do 2 f_equal.
    unfold printed, to_ll. case_decide; [rewrite Z.mod_small; lia|dlia].
Qed.

Lemma int10_roundtrip_witness :
  int10_to_str (- 2 ^ 63) (-10) = Some (codes "-9223372036854775808" ++ [0]) /\
  exists str, int10_to_str (- 2 ^ 63) (-10) = Some (str ++ [0]) /\
    longlong10_to_str (- 2 ^ 63) (-10) = Some (str ++ [0]) /\
    my_strtoll10 (str ++ [0]) (Some (length str)) =
      Some (mk_result (- 2 ^ 63) (sign_error (bool_decide (-10 < 0 /\ - 2 ^ 63 < 0))) (length str)).
Proof.
  split; [vm_compute; reflexivity|]. apply (int10_roundtrip (- 2 ^ 63) (-10)). lia.
Defined.

End IntPrint.
