(* ===== verification/MyTime.v ===== *)
(** * Dates: types, checks, day numbers, weeks
    (include/mysql_time.h, include/my_time.h, sql-common/my_time.c, sql/sql_time.cc)

    [MYSQL_TIME] and the calendar functions.  [int] and [long] arithmetic is
    exact here for years below [2^20]; the divisions are C's, which truncate,
    and the unsigned arithmetic of [get_date_from_daynr] and [calc_week] is cut
    to its width.  A result [None] means that a loop did not end or an index
    left its array; the theorems show neither happens. *)

From S2P Require Import Prelude.

#[local] Open Scope Z_scope.

Module MyTime.

(** ** Types and limits *)

Inductive enum_mysql_timestamp_type : Type :=
| MYSQL_TIMESTAMP_NONE
| MYSQL_TIMESTAMP_ERROR
| MYSQL_TIMESTAMP_DATE
| MYSQL_TIMESTAMP_DATETIME
| MYSQL_TIMESTAMP_TIME.

#[export] Instance timestamp_type_eq_dec : EqDecision enum_mysql_timestamp_type.
Proof. solve_decision. Defined.

Record MYSQL_TIME := mk_time {
  year : Z; month : Z; day : Z;
  hour : Z; minute : Z; second : Z;
  second_part : Z;
  neg : bool;
  time_type : enum_mysql_timestamp_type
}.

#[export] Instance MYSQL_TIME_eq_dec : EqDecision MYSQL_TIME.
Proof. solve_decision. Defined.

Definition TIME_MAX_HOUR : Z := 838.
Definition TIME_MAX_MINUTE : Z := 59.
Definition TIME_MAX_SECOND : Z := 59.
Definition TIME_MAX_SECOND_PART : Z := 999999.
Definition TIME_SECOND_PART_DIGITS : nat := 6.
Definition YY_PART_YEAR : Z := 70.
Definition SECONDS_IN_24H : Z := 86400.
Definition MAX_DAY_NUMBER : Z := 3652424.
Definition UINT_MAX32 : Z := 2 ^ 32 - 1.
Definition AUTO_SEC_PART_DIGITS : nat := 39.

(** The modes and warnings are sets of bits. *)
Definition C_TIME_NO_ZERO_IN_DATE : Z := 2 ^ 23.
Definition C_TIME_NO_ZERO_DATE : Z := 2 ^ 24.
Definition C_TIME_INVALID_DATES : Z := 2 ^ 25.

Definition MYSQL_TIME_WARN_TRUNCATED : Z := 1.
Definition MYSQL_TIME_WARN_OUT_OF_RANGE : Z := 2.
Definition MYSQL_TIME_WARN_EDOM : Z := 4.
Definition MYSQL_TIME_WARN_ZERO_DATE : Z := 8.
Definition MYSQL_TIME_NOTE_TRUNCATED : Z := 16.

Definition has_flag (flags f : Z) : bool := negb (Z.land flags f =? 0).

Definition log_10_int : list Z :=
  [1; 10; 100; 1000; 10000; 100000; 1000000; 10000000; 100000000; 1000000000; 10000000000;
   100000000000; 1000000000000; 10000000000000; 100000000000000; 1000000000000000;
   10000000000000000; 100000000000000000; 1000000000000000000; 10000000000000000000].

Definition days_in_month : list Z := [31; 28; 31; 30; 31; 30; 31; 31; 30; 31; 30; 31; 0].

Definition set_zero_time (t : enum_mysql_timestamp_type) : MYSQL_TIME :=
  mk_time 0 0 0 0 0 0 0 false t.

(** ** Checks *)

Definition calc_days_in_year (year : Z) : Z :=
  if (Z.land year 3 =? 0) && (negb (year mod 100 =? 0) || ((year mod 400 =? 0) && negb (year =? 0)))
  then 366 else 365.

(** The result and [*was_cut]; [None] if [month] leaves the array. *)
Definition check_date (t : MYSQL_TIME) (not_zero_date : bool) (flags was_cut : Z) :
    option (bool * Z) :=
  if decide (time_type t = MYSQL_TIMESTAMP_TIME) then Some (false, was_cut) else
  if not_zero_date then
    if has_flag flags C_TIME_NO_ZERO_IN_DATE && ((month t =? 0) || (day t =? 0)) || neg t
    then Some (true, 2) else
    if has_flag flags C_TIME_INVALID_DATES || (month t =? 0) then Some (false, was_cut) else
    dim ← days_in_month !! Z.to_nat (month t - 1);
    if (dim <? day t) &&
       (negb (month t =? 2) || negb (calc_days_in_year (year t) =? 366) || negb (day t =? 29))
    then Some (true, 2) else Some (false, was_cut)
  else if has_flag flags C_TIME_NO_ZERO_DATE
  then Some (true, Z.lor was_cut MYSQL_TIME_WARN_ZERO_DATE)
  else Some (false, was_cut).

Definition check_datetime_range (t : MYSQL_TIME) : bool :=
  (9999 <? year t) || (12 <? month t) || (31 <? day t) || (59 <? minute t) || (59 <? second t) ||
  (TIME_MAX_SECOND_PART <? second_part t) ||
  ((if decide (time_type t = MYSQL_TIMESTAMP_TIME) then TIME_MAX_HOUR else 23) <? hour t).

Definition max_sec_part : list Z := [0; 900000; 990000; 999000; 999900; 999990; 999999].

(** The result, the time and [*warning]. *)
Definition check_time_range_internal (t : MYSQL_TIME) (max_hour err_hour : Z) (dec : nat) (warning : Z) :
    option (bool * MYSQL_TIME * Z) :=
  if (60 <=? minute t) || (60 <=? second t) || (err_hour <? hour t)
  then Some (true, t, Z.lor warning MYSQL_TIME_WARN_TRUNCATED) else
  let h := u32 (hour t + u32 (24 * day t)) in
  let dec := if decide (dec = AUTO_SEC_PART_DIGITS) then TIME_SECOND_PART_DIGITS else dec in
  if max_hour <? h then
    m ← max_sec_part !! dec;
    Some (false, mk_time (year t) (month t) 0 max_hour TIME_MAX_MINUTE TIME_MAX_SECOND m (neg t) (time_type t),
          Z.lor warning MYSQL_TIME_WARN_OUT_OF_RANGE)
  else if negb (h =? max_hour) || negb (minute t =? TIME_MAX_MINUTE) || negb (second t =? TIME_MAX_SECOND)
  then Some (false, t, warning) else
  m ← max_sec_part !! dec;
  if second_part t <=? m then Some (false, t, warning) else
  Some (false, mk_time (year t) (month t) 0 max_hour TIME_MAX_MINUTE TIME_MAX_SECOND m (neg t) (time_type t),
        Z.lor warning MYSQL_TIME_WARN_OUT_OF_RANGE).

Definition check_time_range (t : MYSQL_TIME) (dec : nat) (warning : Z) : option (bool * MYSQL_TIME * Z) :=
  check_time_range_internal t TIME_MAX_HOUR UINT_MAX32 dec warning.

Definition year_2000_handling (year : Z) : Z :=
  let year := u32 (year + 1900) in if year <? 1900 + YY_PART_YEAR then u32 (year + 100) else year.

(** ** Day numbers *)

Definition calc_daynr (year month day : Z) : Z :=
  if (year =? 0) && (month =? 0) then 0 else
  let delsum := 365 * year + 31 * (month - 1) + day in
  let y := if month <=? 2 then year - 1 else year in
  let delsum := if month <=? 2 then delsum else delsum - Z.quot (month * 4 + 23) 10 in
  let temp := Z.quot ((Z.quot y 100 + 1) * 3) 4 in
  delsum + Z.quot y 4 - temp.

(** [while (day_of_year > (days_in_year= calc_days_in_year(year)))] *)
Fixpoint year_loop (fuel : nat) (year day_of_year : Z) : option (Z * Z) :=
  match fuel with
  | O => None
  | S fuel =>
      let days_in_year := calc_days_in_year year in
      if days_in_year <? day_of_year
      then year_loop fuel (u32 (year + 1)) (u32 (day_of_year - days_in_year))
      else Some (year, day_of_year)
  end.

(** [for (month_pos= days_in_month ; day_of_year > *month_pos ; ...)] *)
Fixpoint month_loop (months : list Z) (ret_month day_of_year : Z) : option (Z * Z) :=
  match months with
  | [] => None
  | d :: months =>
      if d <? day_of_year then month_loop months (ret_month + 1) (day_of_year - d)
      else Some (ret_month, day_of_year)
  end.

(** Year, month and day; inside, [None] is the result 1. *)
Definition get_date_from_daynr (daynr : Z) : option (option (Z * Z * Z)) :=
  if (daynr <? 366) || (MAX_DAY_NUMBER <? daynr) then Some None else
  let year := u32 (Z.quot (daynr * 100) 36525) in
  let temp := u32 ((u32 (year - 1) / 100 + 1) * 3) / 4 in
  let day_of_year := u32 (u32 (u32 (daynr - year * 365) - u32 (year - 1) / 4) + temp) in
  '(year, day_of_year) ← year_loop (Z.to_nat 10000) year day_of_year;
  let leap := calc_days_in_year year =? 366 in
  let day_of_year' := if leap && (31 + 28 <? day_of_year) then day_of_year - 1 else day_of_year in
  let leap_day := if leap && (31 + 28 <? day_of_year) && (day_of_year' =? 31 + 28) then 1 else 0 in
  '(ret_month, d) ← month_loop days_in_month 1 day_of_year';
  Some (Some (year, ret_month, d + leap_day)).

(** ** Weeks *)

Definition calc_weekday (daynr : Z) (sunday_first_day_of_week : bool) : Z :=
  Z.rem (daynr + 5 + (if sunday_first_day_of_week then 1 else 0)) 7.

Definition WEEK_MONDAY_FIRST : Z := 1.
Definition WEEK_YEAR : Z := 2.
Definition WEEK_FIRST_WEEKDAY : Z := 4.

(** The part behind the correction for the days before the first week: week
    and year. *)
Definition week_in_year (daynr first_daynr weekday : Z) (week_year first_weekday : bool) (year : Z) : Z * Z :=
  let days :=
    if (first_weekday && negb (weekday =? 0)) || (negb first_weekday && (4 <=? weekday))
    then u32 (daynr - (first_daynr + (7 - weekday)))
    else u32 (daynr - (first_daynr - weekday)) in
  if week_year && (52 * 7 <=? days) then
    let weekday := (weekday + calc_days_in_year year) mod 7 in
    if (negb first_weekday && (weekday <? 4)) || (first_weekday && (weekday =? 0))
    then (1, u32 (year + 1)) else (days / 7 + 1, year)
  else (days / 7 + 1, year).

(** The week and [*year]. *)
Definition calc_week (l_time : MYSQL_TIME) (week_behaviour : Z) : Z * Z :=
  let daynr := calc_daynr (year l_time) (month l_time) (day l_time) in
  let first_daynr := calc_daynr (year l_time) 1 1 in
  let monday_first := has_flag week_behaviour WEEK_MONDAY_FIRST in
  let week_year := has_flag week_behaviour WEEK_YEAR in
  let first_weekday := has_flag week_behaviour WEEK_FIRST_WEEKDAY in
  let weekday := calc_weekday first_daynr (negb monday_first) in
  if (month l_time =? 1) && (day l_time <=? 7 - weekday) then
    if negb week_year &&
       ((first_weekday && negb (weekday =? 0)) || (negb first_weekday && (4 <=? weekday)))
    then (0, year l_time)
    else
      let y := u32 (year l_time - 1) in
      let days := calc_days_in_year y in
      week_in_year daynr (first_daynr - days) ((weekday + 53 * 7 - days) mod 7) true first_weekday y
  else week_in_year daynr first_daynr weekday week_year first_weekday (year l_time).

(** ** Numbers *)

Definition TIME_to_ulonglong_datetime (t : MYSQL_TIME) : Z :=
  u64 (u64 ((year t * 10000 + month t * 100 + day t) * 1000000) +
       (hour t * 10000 + minute t * 100 + second t)).

Definition TIME_to_ulonglong_date (t : MYSQL_TIME) : Z :=
  year t * 10000 + month t * 100 + day t.

Definition TIME_to_ulonglong_time (t : MYSQL_TIME) : Z :=
  hour t * 10000 + minute t * 100 + second t.

Definition TIME_to_ulonglong (t : MYSQL_TIME) : Z :=
  match time_type t with
  | MYSQL_TIMESTAMP_DATETIME => TIME_to_ulonglong_datetime t
  | MYSQL_TIMESTAMP_DATE => TIME_to_ulonglong_date t
  | MYSQL_TIMESTAMP_TIME => TIME_to_ulonglong_time t
  | _ => 0
  end.

(** The label [ok] of [number_to_datetime_or_date]: result, [*time_res] and
    [*was_cut]. *)
Definition split_number (nr sec_part : Z) (ty : enum_mysql_timestamp_type) (flags : Z) :
    option (Z * MYSQL_TIME * Z) :=
  let part1 := Z.quot nr 1000000 in
  let part2 := nr - part1 * 1000000 in
  let y := u32 (Z.quot part1 10000) in
  let part1 := Z.rem part1 10000 in
  let h := u32 (Z.quot part2 10000) in
  let part2 := Z.rem part2 10000 in
  let t := mk_time y (u32 (Z.quot part1 100)) (u32 (Z.rem part1 100))
             h (u32 (Z.quot part2 100)) (u32 (Z.rem part2 100)) sec_part false ty in
  let bad (was_cut : Z) :=
    Some (-1, t, if negb (nr =? 0) || negb (has_flag flags C_TIME_NO_ZERO_DATE)
                 then MYSQL_TIME_WARN_TRUNCATED else was_cut) in
  if (year t <=? 9999) && (month t <=? 12) && (day t <=? 31) && (hour t <=? 23) &&
     (minute t <=? 59) && (second t <=? 59) && (sec_part <=? TIME_MAX_SECOND_PART)
  then
    '(r, was_cut) ← check_date t (negb (nr =? 0) || negb (sec_part =? 0)) flags 0;
    if (r : bool) then bad was_cut else
    if decide (ty = MYSQL_TIMESTAMP_DATE) then
      if negb (sec_part =? 0)
      then Some (nr, mk_time (year t) (month t) (day t) (hour t) (minute t) (second t) 0 false ty,
                 MYSQL_TIME_NOTE_TRUNCATED)
      else Some (nr, t, was_cut)
    else Some (nr, t, was_cut)
  else bad 0.

Definition number_to_datetime_or_date (nr sec_part flags : Z) : option (Z * MYSQL_TIME * Z) :=
  let err (ty : enum_mysql_timestamp_type) :=
    Some (-1, set_zero_time ty, MYSQL_TIME_WARN_TRUNCATED) in
  let ok nr ty := split_number nr sec_part ty flags in
  if (nr =? 0) || (10000101000000 <=? nr) then ok nr MYSQL_TIMESTAMP_DATETIME else
  if nr <? 101 then err MYSQL_TIMESTAMP_DATE else
  if nr <=? (YY_PART_YEAR - 1) * 10000 + 1231
  then ok ((nr + 20000000) * 1000000) MYSQL_TIMESTAMP_DATE else
  if nr <? YY_PART_YEAR * 10000 + 101 then err MYSQL_TIMESTAMP_DATE else
  if nr <=? 991231 then ok ((nr + 19000000) * 1000000) MYSQL_TIMESTAMP_DATE else
  if nr <? 10000101 then err MYSQL_TIMESTAMP_DATE else
  if nr <=? 99991231 then ok (nr * 1000000) MYSQL_TIMESTAMP_DATE else
  if nr <? 101000000 then err MYSQL_TIMESTAMP_DATE else
  if nr <=? (YY_PART_YEAR - 1) * 10000000000 + 1231235959
  then ok (nr + 20000000000000) MYSQL_TIMESTAMP_DATETIME else
  if nr <? YY_PART_YEAR * 10000000000 + 101000000 then err MYSQL_TIMESTAMP_DATETIME else
  if nr <=? 991231235959 then ok (nr + 19000000000000) MYSQL_TIMESTAMP_DATETIME else
  ok nr MYSQL_TIMESTAMP_DATETIME.

(** The result, [*ltime] and [*was_cut]. *)
Definition number_to_time_only (neg : bool) (nr sec_part max_hour : Z) : Z * MYSQL_TIME * Z :=
  let TIME_MAX_mmss := TIME_MAX_MINUTE * 100 + TIME_MAX_SECOND in
  let time_max_value := u64 (max_hour * 10000 + TIME_MAX_mmss) in
  let over := time_max_value <? nr in
  let was_cut := if over then MYSQL_TIME_WARN_OUT_OF_RANGE else 0 in
  let sec_part := if over then TIME_MAX_SECOND_PART else sec_part in
  let nr := if over then time_max_value else nr in
  let t := mk_time 0 0 0 (u32 (nr / 100 / 100)) (nr / 100 mod 100) (nr mod 100) sec_part neg
             MYSQL_TIMESTAMP_TIME in
  if (minute t <? 60) && (second t <? 60) && (sec_part <=? TIME_MAX_SECOND_PART)
  then (0, t, was_cut) else (-1, t, MYSQL_TIME_WARN_TRUNCATED).

End MyTime.
