(* ===== verification/Calendar.v ===== *)
(** * The calendar

    Day numbers count the days of the proleptic Gregorian calendar one by one,
    [get_date_from_daynr] inverts [calc_daynr], and [calc_week] numbers weeks
    as its modes say. *)

From S2P Require Import Prelude MyTime.
Import MyTime.

#[local] Open Scope Z_scope.

Module Calendar.

(** ** Years *)

Definition leap (y : Z) : bool := calc_days_in_year y =? 366.

Lemma leap_spec y : 0 <= y ->
  leap y = bool_decide (y ≠ 0 /\ y mod 4 = 0 /\ (y mod 100 ≠ 0 \/ y mod 400 = 0)).
Proof.
  intros Hy. unfold leap, calc_days_in_year.
  replace (Z.land y 3) with (y mod 4) by (symmetry; apply (Z.land_ones y 2); lia).
  destruct (Z.eqb_spec (y mod 4) 0), (Z.eqb_spec (y mod 100) 0), (Z.eqb_spec (y mod 400) 0),
    (Z.eqb_spec y 0); simpl; symmetry;
    first [apply bool_decide_eq_true|apply bool_decide_eq_false]; try lia; dlia.
Qed.

Lemma days_in_year_leap y : calc_days_in_year y = if leap y then 366 else 365.
Proof. unfold leap, calc_days_in_year. by case_match. Qed.

(** The day number of the first of January. *)
Definition jan1 (y : Z) : Z := calc_daynr y 1 1.

Lemma jan1_eq y : 1 <= y ->
  jan1 y = 365 * y + 1 + (y - 1) / 4 - ((y - 1) / 100 + 1) * 3 / 4.
Proof.
  intros Hy. unfold jan1, calc_daynr. replace (y =? 0) with false by lia. simpl.
  rewrite !Z.quot_div_nonneg by dlia. lia.
Qed.

Lemma jan1_0 : jan1 0 = 1.
Proof. reflexivity. Qed.

Lemma jan1_succ y : 0 <= y -> jan1 (y + 1) = jan1 y + calc_days_in_year y.
Proof.
  intros Hy. destruct (decide (y = 0)) as [->|]; [reflexivity|].
  rewrite days_in_year_leap, leap_spec, !jan1_eq by lia. case_bool_decide; dlia.
Qed.

(** ** Months *)

Definition month_length (y m : Z) : Z :=
  default 0 (days_in_month !! Z.to_nat (m - 1)) + (if (m =? 2) && leap y then 1 else 0).

(** The days of the year before the month. *)
Definition cumulated (m : Z) : Z :=
  default 0 ([0; 31; 59; 90; 120; 151; 181; 212; 243; 273; 304; 334; 365] !! Z.to_nat (m - 1)).

Definition days_before (y m : Z) : Z :=
  cumulated m + (if (2 <? m) && leap y then 1 else 0).

Definition valid_date (y m d : Z) : Prop :=
  0 <= y <= 9999 /\ 1 <= m <= 12 /\ 1 <= d <= month_length y m.

#[export] Instance valid_date_dec y m d : Decision (valid_date y m d).
Proof. unfold valid_date. apply _. Defined.

(** Replaces a month by each of the twelve. *)
Ltac each_month m :=
  assert (m = 1 \/ m = 2 \/ m = 3 \/ m = 4 \/ m = 5 \/ m = 6 \/ m = 7 \/ m = 8 \/ m = 9 \/ m = 10 \/
    m = 11 \/ m = 12) as [->|[->|[->|[->|[->|[->|[->|[->|[->|[->|[->| ->]]]]]]]]]]] by lia.

Lemma days_before_succ y m : 1 <= m <= 12 -> days_before y (m + 1) = days_before y m + month_length y m.
Proof. intros Hm. unfold days_before, cumulated, month_length. each_month m; simpl; destruct (leap y); reflexivity. Qed.

Lemma calc_daynr_eq y m d : 0 <= y -> 1 <= m <= 12 ->
  calc_daynr y m d = jan1 y + days_before y m + d - 1.
Proof.
  intros Hy Hm. destruct (decide (y = 0)) as [->|].
  { unfold calc_daynr, days_before, cumulated. change (leap 0) with false. change (jan1 0) with 1.
    each_month m; simpl; lia. }
  rewrite jan1_eq by lia. unfold calc_daynr, days_before, cumulated.
  replace (y =? 0) with false by lia.
  each_month m; simpl.
  all: rewrite ?Z.quot_div_nonneg by dlia; rewrite ?leap_spec by lia.
  all: try first [lia|case_bool_decide; simpl; dlia].
Qed.

Lemma days_before_bounds y m d : valid_date y m d ->
  0 <= days_before y m /\ 1 <= days_before y m + d <= calc_days_in_year y.
Proof.
  intros (_ & Hm & Hd). rewrite days_in_year_leap. revert Hd.
  unfold days_before, cumulated, month_length. each_month m; simpl; destruct (leap y); simpl; lia.
Qed.

(** A valid date lies in its year. *)
Lemma daynr_in_year y m d : valid_date y m d ->
  jan1 y <= calc_daynr y m d < jan1 (y + 1).
Proof.
  intros Hv. pose proof (days_before_bounds y m d Hv). destruct Hv as (Hy & Hm & Hd).
  rewrite calc_daynr_eq, jan1_succ by lia. lia.
Qed.

Lemma jan1_mono a b : 0 <= a <= b -> jan1 a <= jan1 b.
Proof.
  intros [Ha Hab]. pattern b. apply Zlt_lower_bound_ind with (z := a); [|done]. clear b Hab.
  intros b IH Hb. destruct (decide (a = b)) as [->|]; [lia|].
  specialize (IH (b - 1) ltac:(lia)). pose proof (jan1_succ (b - 1) ltac:(lia)) as E.
  replace (b - 1 + 1) with b in E by lia. rewrite days_in_year_leap in E. destruct (leap (b - 1)); lia.
Qed.

(** ** From the day number to the date *)

Lemma year_estimate y n : 1 <= y <= 9999 -> jan1 y <= n < jan1 (y + 1) ->
  let e := n * 100 / 36525 in 1 <= e <= y /\ y <= e + 1 /\ jan1 e <= n.
Proof.
  intros Hy. rewrite !jan1_eq by lia. intros Hn e.
  assert (1 <= e <= y /\ y <= e + 1) as He by (subst e; dlia).
  split; [lia|]. split; [lia|]. rewrite jan1_eq by lia. clearbody e. dlia.
Qed.

Lemma year_loop_spec y n : forall fuel e,
  1 <= e <= y -> y <= 9999 -> jan1 y <= n < jan1 (y + 1) -> (Z.to_nat (y - e) < fuel)%nat ->
  year_loop fuel e (n - jan1 e + 1) = Some (y, n - jan1 y + 1).
Proof.
  intros fuel. induction fuel as [|fuel IH]; intros e He Hy Hn Hf; [lia|].
  cbn [year_loop]. pose proof (jan1_succ e ltac:(lia)) as Es.
  pose proof (jan1_succ y ltac:(lia)) as Ey.
  assert (365 <= calc_days_in_year e <= 366) by (rewrite days_in_year_leap; destruct (leap e); lia).
  assert (jan1 y < 2 ^ 31) by (rewrite jan1_eq by lia; dlia).
  assert (0 <= jan1 e) by (rewrite jan1_eq by lia; dlia).
  assert (calc_days_in_year y <= 366) by (rewrite days_in_year_leap; destruct (leap y); lia).
  destruct (decide (e = y)) as [->|Hne].
  { replace (calc_days_in_year y <? n - jan1 y + 1) with false by lia. done. }
  pose proof (jan1_mono (e + 1) y ltac:(lia)).
  replace (calc_days_in_year e <? n - jan1 e + 1) with true by lia.
  rewrite !u32_small by lia.
  replace (n - jan1 e + 1 - calc_days_in_year e) with (n - jan1 (e + 1) + 1) by lia.
  apply IH; lia.
Qed.

Lemma month_loop_skip d ms r x : d < x -> month_loop (d :: ms) r x = month_loop ms (r + 1) (x - d).
Proof. intros. cbn [month_loop]. by replace (d <? x) with true by lia. Qed.

Lemma month_loop_stop d ms r x : x <= d -> month_loop (d :: ms) r x = Some (r, x).
Proof. intros. cbn [month_loop]. by replace (d <? x) with false by lia. Qed.

#[local] Arguments month_loop : simpl never.

Lemma month_loop_plain m d :
  1 <= m <= 12 -> 1 <= d <= default 0 (days_in_month !! Z.to_nat (m - 1)) ->
  month_loop days_in_month 1 (cumulated m + d) = Some (m, d).
Proof.
  intros Hm. unfold cumulated, days_in_month.
  each_month m; simpl; intros Hd;
    repeat rewrite month_loop_skip by lia; rewrite month_loop_stop by lia; f_equal; f_equal; lia.
Qed.

(** The months behind the day of the year, the leap day taken out. *)
Lemma month_loop_spec y m d : valid_date y m d ->
  let doy := days_before y m + d in
  let doy' := if leap y && (31 + 28 <? doy) then doy - 1 else doy in
  let leap_day := if leap y && (31 + 28 <? doy) && (doy' =? 31 + 28) then 1 else 0 in
  month_loop days_in_month 1 doy' = Some (m, d - leap_day).
Proof.
  intros (_ & Hm & Hd). unfold month_length in Hd. unfold days_before. cbv zeta.
  destruct (leap y); cbn [andb] in *; rewrite ?andb_false_r in *; cbn [andb] in *.
  2: { rewrite Z.add_0_r, Z.sub_0_r. apply month_loop_plain; lia. }
  rewrite !andb_true_r in *.
  destruct (Z.ltb_spec 2 m) as [H2|H2].
  { assert (59 <= cumulated m) by (unfold cumulated; revert H2; each_month m; simpl; lia).
    replace (m =? 2) with false in Hd by lia.
    replace (31 + 28 <? cumulated m + 1 + d) with true by lia. cbn [andb].
    replace (cumulated m + 1 + d - 1) with (cumulated m + d) by lia.
    replace (cumulated m + d =? 31 + 28) with false by lia. rewrite Z.sub_0_r.
    apply month_loop_plain; lia. }
  rewrite Z.add_0_r. assert (m = 1 \/ m = 2) as [->| ->] by lia; change (cumulated 1) with 0;
    change (cumulated 2) with 31; simpl in Hd.
  - replace (31 + 28 <? 0 + d) with false by lia. cbn [andb]. rewrite Z.sub_0_r.
    apply (month_loop_plain 1); simpl; lia.
  - destruct (decide (d = 29)) as [->|]; [reflexivity|].
    replace (31 + 28 <? 31 + d) with false by lia. cbn [andb]. rewrite Z.sub_0_r.
    apply (month_loop_plain 2); simpl; lia.
Qed.

Lemma get_date_in_year y m d : valid_date y m d -> 1 <= y ->
  get_date_from_daynr (calc_daynr y m d) = Some (Some (y, m, d)).
Proof.
  intros Hv Hy. pose proof (daynr_in_year y m d Hv) as Hn. destruct Hv as (Hy' & Hm & Hd).
  pose proof (jan1_mono 1 y ltac:(lia)) as H1. pose proof (jan1_mono (y + 1) 10000 ltac:(lia)) as H2.
  change (jan1 1) with 366 in H1. change (jan1 10000) with 3652425 in H2.
  set (n := calc_daynr y m d) in *. unfold get_date_from_daynr, MAX_DAY_NUMBER.
  replace ((n <? 366) || (3652424 <? n)) with false by lia.
  destruct (year_estimate y n ltac:(lia) Hn) as (He & Hey & Hje).
  rewrite Z.quot_div_nonneg by lia. rewrite (u32_small (n * 100 / 36525)) by lia.
  set (e := n * 100 / 36525) in *.
  assert (u32 (u32 (u32 (n - e * 365) - u32 (e - 1) / 4) + u32 ((u32 (e - 1) / 100 + 1) * 3) / 4)
    = n - jan1 e + 1) as ->.
  { assert (n <= 3652424) by lia. rewrite (jan1_eq e) in * by lia.
    rewrite (u32_small (e - 1)) by lia. clear Hn H1 H2. clearbody e n.
    rewrite (u32_small (((e - 1) / 100 + 1) * 3)) by dlia.
    rewrite u32_add. unfold u32. rewrite <- Zplus_mod_idemp_l, Zminus_mod_idemp_l, Zplus_mod_idemp_l.
    rewrite Z.mod_small; dlia. }
  rewrite (year_loop_spec y n) by lia. cbn [mbind option_bind].
  assert (n - jan1 y + 1 = days_before y m + d) as ->
    by (unfold n; rewrite calc_daynr_eq by lia; lia).
  fold (leap y). rewrite month_loop_spec by (unfold valid_date; lia). cbn [mbind option_bind].
  do 2 f_equal. f_equal. lia.
Qed.

Lemma get_date_out n : n < 366 \/ MAX_DAY_NUMBER < n -> get_date_from_daynr n = Some None.
Proof.
  intros Hn. unfold get_date_from_daynr.
  by replace ((n <? 366) || (MAX_DAY_NUMBER <? n)) with true by lia.
Qed.

(** Every day number is that of a valid date. *)
Lemma year_of_daynr n : 366 <= n <= MAX_DAY_NUMBER ->
  exists y, 1 <= y <= 9999 /\ jan1 y <= n < jan1 (y + 1).
Proof.
  unfold MAX_DAY_NUMBER. intros Hn. set (e := n * 100 / 36525).
  assert (1 <= e <= 9999) as He by (subst e; dlia).
  assert (jan1 e <= n /\ n < jan1 (e + 2)) as Hb by (rewrite !jan1_eq by lia; subst e; dlia).
  destruct (Z.lt_ge_cases n (jan1 (e + 1))); [exists e; lia|]. exists (e + 1).
  replace (e + 1 + 1) with (e + 2) by lia. split; [|lia].
  destruct (decide (e = 9999)) as [E|]; [|lia]. rewrite E in *. change (jan1 (9999 + 1)) with 3652425 in *. lia.
Qed.

Lemma month_of_day y doy : 1 <= doy <= calc_days_in_year y ->
  exists m d, 1 <= m <= 12 /\ 1 <= d <= month_length y m /\ doy = days_before y m + d.
Proof.
  rewrite days_in_year_leap. intros Hd.
  assert (forall k : nat, (k <= 12)%nat -> doy <= days_before y (Z.of_nat k + 1) ->
    exists m, 1 <= m <= 12 /\ days_before y m < doy <= days_before y (m + 1)) as Hfind.
  { induction k as [|k IH]; intros Hk Hle; [unfold days_before, cumulated in Hle; simpl in Hle; lia|].
    replace (Z.of_nat (S k)) with (Z.of_nat k + 1) in Hle by lia.
    destruct (Z.le_gt_cases doy (days_before y (Z.of_nat k + 1))); [apply IH; [lia|done]|].
    exists (Z.of_nat k + 1). lia. }
  destruct (Hfind 12%nat) as (m & Hm & Hb); [done|unfold days_before, cumulated; simpl; destruct (leap y); lia|].
  rewrite days_before_succ in Hb by done. exists m, (doy - days_before y m). lia.
Qed.

Lemma date_of_daynr n : 366 <= n <= MAX_DAY_NUMBER ->
  exists y m d, valid_date y m d /\ 1 <= y /\ calc_daynr y m d = n.
Proof.
  intros Hn. destruct (year_of_daynr n Hn) as (y & Hy & Hb). rewrite jan1_succ in Hb by lia.
  destruct (month_of_day y (n - jan1 y + 1) ltac:(lia)) as (m & d & Hm & Hd & E).
  exists y, m, d. split; [unfold valid_date; lia|]. split; [lia|]. rewrite calc_daynr_eq by lia. lia.
Qed.

Lemma cumulated_mono y m m' d d' :
  1 <= m < m' -> m' <= 12 -> d <= month_length y m -> 1 <= d' -> days_before y m + d < days_before y m' + d'.
Proof.
  intros Hm Hm' Hd Hd'.
  assert (forall k : nat, m + 1 + Z.of_nat k <= 12 -> days_before y (m + 1) <= days_before y (m + 1 + Z.of_nat k)) as H.
  { induction k as [|k IH]; intros Hk; [by rewrite Z.add_0_r|].
    replace (m + 1 + Z.of_nat (S k)) with (m + 1 + Z.of_nat k + 1) by lia.
    rewrite (days_before_succ _ (m + 1 + Z.of_nat k)) by lia. specialize (IH ltac:(lia)).
    assert (0 <= month_length y (m + 1 + Z.of_nat k)); [|lia].
    unfold month_length, days_in_month. assert (1 <= m + 1 + Z.of_nat k <= 12) as B by lia. revert B.
    generalize (m + 1 + Z.of_nat k). intros q Hq. each_month q; simpl; destruct (leap y); lia. }
  specialize (H (Z.to_nat (m' - m - 1)) ltac:(lia)). replace (m + 1 + Z.of_nat (Z.to_nat (m' - m - 1))) with m' in H by lia.
  rewrite days_before_succ in H by lia. lia.
Qed.

Definition date_before (y m d y' m' d' : Z) : Prop :=
  y < y' \/ y = y' /\ (m < m' \/ m = m' /\ d < d').

Lemma daynr_before y m d y' m' d' : valid_date y m d -> valid_date y' m' d' ->
  date_before y m d y' m' d' -> calc_daynr y m d < calc_daynr y' m' d'.
Proof.
  intros Hv Hv' [Hy|[-> Hm]].
  - pose proof (daynr_in_year _ _ _ Hv). pose proof (daynr_in_year _ _ _ Hv').
    pose proof (jan1_mono (y + 1) y'). destruct Hv, Hv'. lia.
  - destruct Hv as (? & ? & ?), Hv' as (? & ? & ?). rewrite !calc_daynr_eq by lia.
    destruct Hm as [Hm|[-> Hd]]; [|lia].
    pose proof (cumulated_mono y' m m' d d'). lia.
Qed.

(** C19: [calc_daynr] and [get_date_from_daynr] are inverse to each other on
    the dates of the years 1 to 9999 and the day numbers 366 to 3652424, the
    only ones [get_date_from_daynr] accepts, and later dates have larger
    numbers: the day number counts the days one by one. *)
Theorem daynr_roundtrip :
  (forall y m d, valid_date y m d -> 1 <= y ->
    get_date_from_daynr (calc_daynr y m d) = Some (Some (y, m, d))) /\
  (forall n, 366 <= n <= MAX_DAY_NUMBER ->
    exists y m d, get_date_from_daynr n = Some (Some (y, m, d)) /\
      valid_date y m d /\ 1 <= y /\ calc_daynr y m d = n) /\
  (forall n, n < 366 \/ MAX_DAY_NUMBER < n -> get_date_from_daynr n = Some None) /\
  (forall y m d y' m' d', valid_date y m d -> valid_date y' m' d' ->
    date_before y m d y' m' d' -> calc_daynr y m d < calc_daynr y' m' d').
Proof.
  split; [exact get_date_in_year|]. split.
  - intros n Hn. destruct (date_of_daynr n Hn) as (y & m & d & Hv & Hy & <-).
    exists y, m, d. by rewrite get_date_in_year.
  - split; [exact get_date_out|exact daynr_before].
Qed.

Lemma daynr_roundtrip_witness :
  valid_date 2024 2 29 /\ get_date_from_daynr (calc_daynr 2024 2 29) = Some (Some (2024, 2, 29)).
Proof.
  split; [apply (bool_decide_unpack _); vm_compute; exact I|].
  apply (proj1 daynr_roundtrip 2024 2 29); [apply (bool_decide_unpack _); vm_compute; exact I|lia].
Defined.

(** ** Weeks *)

(** The day that decides to which year a week belongs: its first one or, by
    ISO 8601, its fourth one. *)
Definition anchor (daynr : Z) (monday_first first_weekday : bool) : Z :=
  daynr - calc_weekday daynr (negb monday_first) + (if first_weekday then 0 else 3).

(** Whether a year that starts on [weekday] starts with the last week of the
    year before. *)
Definition late_start (first_weekday : bool) (weekday : Z) : bool :=
  (first_weekday && negb (weekday =? 0)) || (negb first_weekday && (4 <=? weekday)).

Lemma late_start_spec (fw : bool) w : 0 <= w ->
  late_start fw w = bool_decide ((if fw then 0 else 3) < w).
Proof.
  intros Hw. unfold late_start. destruct fw; simpl; rewrite ?orb_false_r; symmetry.
  - destruct (Z.eqb_spec w 0); simpl; [apply bool_decide_eq_false|apply bool_decide_eq_true]; lia.
  - destruct (Z.leb_spec 4 w); [apply bool_decide_eq_true|apply bool_decide_eq_false]; lia.
Qed.

Lemma week_count J D s a :
  0 <= a <= 3 ->
  let w := (J + 5 + s) mod 7 in
  let days := if decide (a < w) then D - (J + (7 - w)) else D - (J - w) in
  days / 7 + 1 = (D - (D + 5 + s) mod 7 + a - J) / 7 + 1.
Proof. intros Ha w days. subst w days. case_decide; dlia. Qed.

Lemma next_year_week J D s a L :
  0 <= a <= 3 -> L = 365 \/ L = 366 ->
  let w := (J + 5 + s) mod 7 in
  let days := if decide (a < w) then D - (J + (7 - w)) else D - (J - w) in
  let anchor := D - (D + 5 + s) mod 7 + a in
  J + (7 - w) <= D < J + L + (7 - (w + L) mod 7) ->
  if decide (52 * 7 <= days /\ ~ a < (w + L) mod 7)
  then J + L <= anchor < J + L + 7 else J <= anchor < J + L.
Proof. intros Ha HL w days anchor HD. subst w days anchor. repeat case_decide; dlia. Qed.

Lemma week_in_year_spec D Y (mf wy fw : bool) :
  0 <= Y <= 9999 ->
  let w := calc_weekday (jan1 Y) (negb mf) in
  jan1 Y + (7 - w) <= D < jan1 (Y + 1) + (7 - calc_weekday (jan1 (Y + 1)) (negb mf)) ->
  let '(week, y) := week_in_year D (jan1 Y) w wy fw Y in
  week = (anchor D mf fw - jan1 y) / 7 + 1 /\
  (if wy then (y = Y \/ y = Y + 1) /\ jan1 y <= anchor D mf fw < jan1 (y + 1) else y = Y).
Proof.
  intros HY w HD.
  assert (0 <= jan1 Y <= 3652425) as HJ
    by (pose proof (jan1_mono 0 Y); pose proof (jan1_mono Y 10000); change (jan1 0) with 1 in *;
        change (jan1 10000) with 3652425 in *; lia).
  pose proof (jan1_succ (Y + 1) ltac:(lia)) as E2. pose proof (jan1_succ Y ltac:(lia)) as E1.
  assert (365 <= calc_days_in_year (Y + 1) <= 366) as B2
    by (rewrite days_in_year_leap; destruct (leap (Y + 1)); lia).
  assert (calc_days_in_year Y = 365 \/ calc_days_in_year Y = 366) as B1
    by (rewrite days_in_year_leap; destruct (leap Y); lia).
  set (a := if fw then 0 else 3). set (s := if negb mf then 1 else 0).
  assert (0 <= a <= 3) as Ha by (subst a; destruct fw; lia).
  assert (forall n, 0 <= n -> calc_weekday n (negb mf) = (n + 5 + s) mod 7) as Hwd
    by (intros; unfold calc_weekday; fold s; apply Z.rem_mod_nonneg; subst s; destruct mf; simpl; lia).
  subst w. rewrite !Hwd in * by lia.
  replace ((jan1 (Y + 1) + 5 + s) mod 7) with (((jan1 Y + 5 + s) mod 7 + calc_days_in_year Y) mod 7) in HD
    by (rewrite E1; clear; dlia).
  pose proof (week_count (jan1 Y) D s a Ha) as HC.
  pose proof (next_year_week (jan1 Y) D s a _ Ha B1) as HN. cbv zeta in HC, HN.
  rewrite E1 in HD. specialize (HN HD). fold (anchor D mf fw).
  assert (anchor D mf fw = D - (D + 5 + s) mod 7 + a) as Ea.
  { unfold anchor. rewrite Hwd; [done|]. pose proof (Z.mod_pos_bound (jan1 Y + 5 + s) 7). lia. }
  rewrite <- Ea in *. unfold week_in_year. fold (late_start fw ((jan1 Y + 5 + s) mod 7)).
  set (w := (jan1 Y + 5 + s) mod 7) in *. pose proof (Z.mod_pos_bound (jan1 Y + 5 + s) 7 ltac:(lia)) as Hw.
  fold w in Hw. set (w1 := (w + calc_days_in_year Y) mod 7) in *.
  pose proof (Z.mod_pos_bound (w + calc_days_in_year Y) 7 ltac:(lia)) as Hw1. fold w1 in Hw1.
  set (days := if decide (a < w) then D - (jan1 Y + (7 - w)) else D - (jan1 Y - w)) in *.
  assert (0 <= days < 2 ^ 32) as Bd by (subst days; case_decide; lia).
  assert ((if late_start fw w then u32 (D - (jan1 Y + (7 - w))) else u32 (D - (jan1 Y - w))) = days) as ->.
  { rewrite late_start_spec by lia. fold a. subst days.
    case_bool_decide; case_decide; try lia; apply u32_small; lia. }
  assert ((negb fw && (w1 <? 4)) || (fw && (w1 =? 0)) = bool_decide (~ a < w1)) as ->.
  { subst a. destruct fw; simpl; symmetry; [destruct (Z.eqb_spec w1 0)|rewrite orb_false_r; destruct (Z.ltb_spec w1 4)];
      first [apply bool_decide_eq_true|apply bool_decide_eq_false]; lia. }
  rewrite (u32_small (Y + 1)) by lia. replace (52 * 7 <=? days) with (bool_decide (52 * 7 <= days))
    by (destruct (Z.leb_spec (52 * 7) days); [by apply bool_decide_true|apply bool_decide_false; lia]).
  rewrite HC. destruct wy; cbn [andb]; [|done].
  destruct (decide (52 * 7 <= days /\ ~ a < w1)) as [[H52 Hw1a]|Hno].
  - rewrite !bool_decide_true by done. rewrite E1. split; [|lia].
    by rewrite (Z.div_small (anchor D mf fw - _)) by lia.
  - case_bool_decide; [rewrite bool_decide_false by tauto|]; (split; [done|lia]).
Qed.

Lemma weekday_mod n b : 0 <= n -> calc_weekday n b = (n + 5 + (if b then 1 else 0)) mod 7.
Proof. intros. unfold calc_weekday. apply Z.rem_mod_nonneg; destruct b; lia. Qed.

Lemma jan1_pos y : 0 <= y -> 1 <= jan1 y.
Proof. intros. change 1 with (jan1 0). apply jan1_mono. lia. Qed.

Lemma weekday_bounds y (mf : bool) : 0 <= y -> 0 <= calc_weekday (jan1 y) (negb mf) < 7.
Proof. intros Hy. rewrite weekday_mod by (pose proof (jan1_pos y Hy); lia). apply Z.mod_pos_bound. lia. Qed.

Lemma not_first_week y m d w :
  valid_date y m d -> 0 <= w < 7 -> (m =? 1) && (d <=? 7 - w) = false ->
  jan1 y + (7 - w) <= calc_daynr y m d.
Proof.
  intros (Hy & Hm & Hd) Hw E. rewrite calc_daynr_eq by lia. unfold days_before, cumulated.
  apply andb_false_iff in E as [E|E]; breflect.
  - assert (m ≠ 1) as Hne by lia. revert Hne. each_month m; simpl; destruct (leap y); lia.
  - each_month m; simpl; destruct (leap y); lia.
Qed.

(** C23: [calc_week] numbers the weeks as its modes say: with [anchor] the
    first day of the week (mode WEEK_FIRST_WEEKDAY) or its fourth (ISO 8601),
    the number counts the weeks of a year whose anchor lies in it; with
    WEEK_YEAR this is the year the anchor lies in, else the year of the date,
    where the days before its first week have number 0. *)
Theorem calc_week_correct t mode :
  valid_date (year t) (month t) (day t) -> 1 <= year t ->
  let a := anchor (calc_daynr (year t) (month t) (day t))
    (has_flag mode WEEK_MONDAY_FIRST) (has_flag mode WEEK_FIRST_WEEKDAY) in
  let '(week, y) := calc_week t mode in
  week = (a - jan1 y) / 7 + 1 /\
  (if has_flag mode WEEK_YEAR then jan1 y <= a < jan1 (y + 1) else y = year t).
Proof.
  intros Hv Hy a. pose proof (daynr_in_year _ _ _ Hv) as HD. subst a. unfold calc_week. cbv zeta.
  set (D := calc_daynr (year t) (month t) (day t)) in *. fold (jan1 (year t)).
  set (mf := has_flag mode WEEK_MONDAY_FIRST). set (wy := has_flag mode WEEK_YEAR).
  set (fw := has_flag mode WEEK_FIRST_WEEKDAY). set (y := year t) in *.
  assert (0 <= y <= 9999) as By by (destruct Hv; subst y; lia).
  assert (D = jan1 y + days_before y (month t) + day t - 1) as ED
    by (destruct Hv; apply calc_daynr_eq; lia).
  pose proof (weekday_bounds y mf ltac:(lia)) as Bw. set (w := calc_weekday (jan1 y) (negb mf)) in *.
  destruct ((month t =? 1) && (day t <=? 7 - w)) eqn:EJ; breflect.
  2: { pose proof (week_in_year_spec D y mf wy fw By) as HS. cbv zeta in HS. fold w in HS.
       pose proof (weekday_bounds (y + 1) mf ltac:(lia)) as Bw1.
       assert (jan1 y + (7 - w) <= D) as HD7 by (by apply not_first_week).
       specialize (HS ltac:(lia)). destruct (week_in_year D (jan1 y) w wy fw y).
       destruct HS as [-> HS]. split; [done|]. destruct wy; [tauto|done]. }
  rewrite H in ED. change (days_before y 1) with 0 in ED.
  assert (D < jan1 y + (7 - w)) as HD7 by lia. pose proof (jan1_pos y ltac:(lia)) as HJ.
  assert (anchor D mf fw = jan1 y - w + (if fw then 0 else 3)) as Ea
    by (pose proof (weekday_mod (jan1 y) (negb mf) ltac:(lia)) as Ew; fold w in Ew;
        unfold anchor; rewrite weekday_mod by lia; clearbody w; destruct HD as [HD _]; clear - Ew HD HD7; destruct mf; simpl in Ew |- *; dlia).
  fold (late_start fw w). rewrite late_start_spec by lia.
  destruct (negb wy && bool_decide ((if fw then 0 else 3) < w)) eqn:E0.
  { apply andb_prop in E0 as [Ewy E0%bool_decide_eq_true]. rewrite Ea.
    destruct wy; [done|]. split; [destruct fw; dlia|done]. }
  pose proof (week_in_year_spec D (y - 1) mf true fw ltac:(lia)) as HS. cbv zeta in HS.
  pose proof (weekday_bounds (y - 1) mf ltac:(lia)) as Bw1.
  pose proof (jan1_succ (y - 1) ltac:(lia)) as E1. replace (y - 1 + 1) with y in * by lia.
  assert (calc_days_in_year (y - 1) = 365 \/ calc_days_in_year (y - 1) = 366) as B1
    by (rewrite days_in_year_leap; destruct (leap (y - 1)); lia).
  rewrite (u32_small (y - 1)) by lia.
  replace (jan1 y - calc_days_in_year (y - 1)) with (jan1 (y - 1)) by lia.
  replace ((w + 53 * 7 - calc_days_in_year (y - 1)) mod 7) with (calc_weekday (jan1 (y - 1)) (negb mf))
    by (pose proof (jan1_pos (y - 1)); unfold w; rewrite !weekday_mod by lia; rewrite E1; clear; dlia).
  fold w in HS. specialize (HS ltac:(lia)).
  destruct (week_in_year D (jan1 (y - 1)) _ true fw (y - 1)) as [week yr].
  destruct HS as (-> & Hyr & Hb). split; [done|]. destruct wy; [done|].
  cbn [negb andb] in E0. apply bool_decide_eq_false in E0. rewrite Ea in Hb.
  destruct Hyr as [->| ->]; [|lia]. replace (y - 1 + 1) with y in Hb by lia. destruct fw; lia.
Qed.

Lemma calc_week_correct_witness :
  calc_week (mk_time 2021 1 3 0 0 0 0 false MYSQL_TIMESTAMP_DATE) 3 = (53, 2020) /\
  53 = (anchor (calc_daynr 2021 1 3) true false - jan1 2020) / 7 + 1.
Proof.
  split; [vm_compute; reflexivity|].
  refine (proj1 (calc_week_correct (mk_time 2021 1 3 0 0 0 0 false MYSQL_TIMESTAMP_DATE) 3 _ _)).
  - apply (bool_decide_unpack _). vm_compute. exact I.
  - vm_compute. discriminate.
Defined.

End Calendar.
