(* ===== verification/TimeArith.v ===== *)
(** * Date arithmetic and packed times (sql/sql_time.cc, include/my_time.h)

    Adding intervals, differences, and the packed format that orders times.
    [None] inside a result stands for the return value 1 of a function, after
    which the C code leaves the time in a state nobody reads; the warning that
    [date_add_interval] pushes is left out. *)

From S2P Require Import Prelude MyTime.
Import MyTime.

#[local] Open Scope Z_scope.

Module TimeArith.

Record INTERVAL := mk_interval {
  iyear : Z; imonth : Z; iday : Z; ihour : Z; iminute : Z; isecond : Z; isecond_part : Z; ineg : bool
}.

Inductive interval_type :=
| INTERVAL_YEAR | INTERVAL_QUARTER | INTERVAL_MONTH | INTERVAL_WEEK | INTERVAL_DAY
| INTERVAL_HOUR | INTERVAL_MINUTE | INTERVAL_SECOND | INTERVAL_MICROSECOND
| INTERVAL_YEAR_MONTH | INTERVAL_DAY_HOUR | INTERVAL_DAY_MINUTE
| INTERVAL_DAY_SECOND | INTERVAL_HOUR_MINUTE | INTERVAL_HOUR_SECOND
| INTERVAL_MINUTE_SECOND | INTERVAL_DAY_MICROSECOND | INTERVAL_HOUR_MICROSECOND
| INTERVAL_MINUTE_MICROSECOND | INTERVAL_SECOND_MICROSECOND | INTERVAL_LAST.

#[export] Instance interval_type_eq_dec : EqDecision interval_type.
Proof. solve_decision. Defined.

(** [COMBINE] of a time is computed in [longlong], of an interval in
    [ulonglong]. *)
Definition COMBINE (d h mi s us : Z) : Z := (((d * 24 + h) * 60 + mi) * 60 + s) * 1000000 + us.

Definition with_date (t : MYSQL_TIME) (y m d : Z) : MYSQL_TIME :=
  mk_time y m d (hour t) (minute t) (second t) (second_part t) (neg t) (time_type t).

(** The intervals of days and less. *)
Definition add_days (t : MYSQL_TIME) (int_type : interval_type) (i : INTERVAL) (sign : Z) :
    option (option MYSQL_TIME) :=
  if MAX_DAY_NUMBER <? u64 (iday i + ihour i / 24 + iminute i / 24 / 60 + isecond i / 24 / 60 / 60)
  then Some None else
  let is_time := bool_decide (time_type t = MYSQL_TIMESTAMP_TIME) in
  let d := if is_time then day t else u32 (day t + (calc_daynr (year t) (month t) 1 - 1)) in
  let usec := to_ll (COMBINE d (hour t) (minute t) (second t) (second_part t) +
    sign * COMBINE (iday i) (ihour i) (iminute i) (isecond i) (isecond_part i)) in
  let neg' := usec <? 0 in
  let usec := if neg' then to_ll (- usec) else usec in
  let us := Z.rem usec 1000000 in
  let usec := Z.quot usec 1000000 in
  let s := Z.rem usec 60 in
  let usec := Z.quot usec 60 in
  let mi := Z.rem usec 60 in
  let usec := Z.quot usec 60 in
  let ng := xorb (neg t) neg' in
  if is_time then
    if TIME_MAX_HOUR <? usec then Some None
    else Some (Some (mk_time (year t) (month t) 0 (u32 usec) mi s us ng (time_type t)))
  else if ng then Some None else
  let ty := if decide (int_type = INTERVAL_DAY) then time_type t else MYSQL_TIMESTAMP_DATETIME in
  let h := Z.rem usec 24 in
  let daynr := Z.quot usec 24 in
  date ← get_date_from_daynr daynr;
  match date with
  | None => Some None
  | Some (y, m, d) => Some (Some (mk_time y m d h mi s us ng ty))
  end.

Definition add_weeks (t : MYSQL_TIME) (i : INTERVAL) (sign : Z) : option (option MYSQL_TIME) :=
  let period := to_ll (calc_daynr (year t) (month t) (day t) + sign * to_ll (iday i)) in
  date ← get_date_from_daynr period;
  match date with
  | None => Some None
  | Some (y, m, d) => Some (Some (with_date t y m d))
  end.

Definition add_years (t : MYSQL_TIME) (i : INTERVAL) (sign : Z) : option (option MYSQL_TIME) :=
  let y := u32 (year t + sign * to_ll (iyear i)) in
  if 10000 <=? y then Some None else
  let d := if (month t =? 2) && (day t =? 29) && negb (calc_days_in_year y =? 366) then 28 else day t in
  Some (Some (with_date t y (month t) d)).

Definition add_months (t : MYSQL_TIME) (i : INTERVAL) (sign : Z) : option (option MYSQL_TIME) :=
  let period := to_ll (u32 (year t * 12) + to_ll (to_ll (sign * to_ll (iyear i)) * 12) +
                       month t - 1 + to_ll (sign * to_ll (imonth i))) in
  if 120000 <=? u64 period then Some None else
  let y := u32 (Z.quot period 12) in
  let m := u32 (Z.rem period 12) + 1 in
  dim ← days_in_month !! Z.to_nat (m - 1);
  let d := if dim <? day t
           then (if (m =? 2) && (calc_days_in_year y =? 366) then dim + 1 else dim)
           else day t in
  Some (Some (with_date t y m d)).

Definition date_add_interval (t : MYSQL_TIME) (int_type : interval_type) (i : INTERVAL) :
    option (option MYSQL_TIME) :=
  let sign := if eqb (ineg i) (neg t) then 1 else -1 in
  let done (r : option (option MYSQL_TIME)) :=
    r ← r;
    match r with
    | None => Some None
    | Some t' => if decide (time_type t' = MYSQL_TIMESTAMP_TIME) then Some None else Some (Some t')
    end in
  match int_type with
  | INTERVAL_SECOND | INTERVAL_SECOND_MICROSECOND | INTERVAL_MICROSECOND | INTERVAL_MINUTE
  | INTERVAL_HOUR | INTERVAL_MINUTE_MICROSECOND | INTERVAL_MINUTE_SECOND
  | INTERVAL_HOUR_MICROSECOND | INTERVAL_HOUR_SECOND | INTERVAL_HOUR_MINUTE
  | INTERVAL_DAY_MICROSECOND | INTERVAL_DAY_SECOND | INTERVAL_DAY_MINUTE | INTERVAL_DAY_HOUR
  | INTERVAL_DAY => add_days t int_type i sign
  | INTERVAL_WEEK => done (add_weeks t i sign)
  | INTERVAL_YEAR => done (add_years t i sign)
  | INTERVAL_YEAR_MONTH | INTERVAL_QUARTER | INTERVAL_MONTH => done (add_months t i sign)
  | INTERVAL_LAST => Some None
  end.

(** ** Differences *)

(** The sign, the seconds and the microseconds; [l_sign] is 1 or -1. *)
Definition calc_time_diff (t1 t2 : MYSQL_TIME) (l_sign : Z) : bool * Z * Z :=
  let days :=
    if decide (time_type t1 = MYSQL_TIMESTAMP_TIME) then day t1 - l_sign * day t2 else
    calc_daynr (year t1) (month t1) (day t1) -
    l_sign * (if decide (time_type t2 = MYSQL_TIMESTAMP_TIME) then day t2
              else calc_daynr (year t2) (month t2) (day t2)) in
  let microseconds :=
    (days * SECONDS_IN_24H + (hour t1 * 3600 + minute t1 * 60 + second t1) -
     l_sign * (hour t2 * 3600 + minute t2 * 60 + second t2)) * 1000000 +
    second_part t1 - l_sign * second_part t2 in
  let neg := microseconds <? 0 in
  let microseconds := if neg then - microseconds else microseconds in
  (neg, Z.quot microseconds 1000000, Z.rem microseconds 1000000).

Definition calc_time_from_sec (seconds microseconds : Z) (neg : bool) : MYSQL_TIME :=
  let t_seconds := seconds mod 3600 in
  mk_time 0 0 0 (u32 (seconds / 3600)) (t_seconds / 60) (t_seconds mod 60) microseconds neg
    MYSQL_TIMESTAMP_TIME.

(** [calc_time_diff] with a time as result; the flag is its return value. *)
Definition calc_time_diff_time (t1 t2 : MYSQL_TIME) (l_sign : Z) (no_zero_date : bool) :
    bool * MYSQL_TIME :=
  let '(ng, seconds, microseconds) := calc_time_diff t1 t2 l_sign in
  let ng := if neg t1 && (negb (seconds =? 0) || negb (microseconds =? 0)) then negb ng else ng in
  let seconds := Z.min seconds (2 ^ 31 - 1) in
  (no_zero_date && (seconds =? 0) && (microseconds =? 0),
   calc_time_from_sec seconds microseconds ng).

(** ** Packed times *)

Definition pack_time (t : MYSQL_TIME) : Z :=
  to_ll (((((((year t * 13 + month t) * 32 + day t) * 24 + hour t) * 60 + minute t) * 60 + second t) *
          1000000 + second_part t) * (if neg t then -1 else 1)).

(** [get_one] divides in [ulonglong] if its factor is, else in [longlong]; the
    values are not negative. *)
Definition unpack_time (packed : Z) (ts_type : enum_mysql_timestamp_type) : MYSQL_TIME :=
  let ng := packed <? 0 in
  let packed := if ng then to_ll (- packed) else packed in
  let us := packed mod 1000000 in
  let packed := packed / 1000000 in
  let s := packed mod 60 in
  let packed := packed / 60 in
  let mi := packed mod 60 in
  let packed := packed / 60 in
  let h := packed mod 24 in
  let packed := packed / 24 in
  let d := packed mod 32 in
  let packed := packed / 32 in
  let m := packed mod 13 in
  let packed := packed / 13 in
  let y := u32 packed in
  match ts_type with
  | MYSQL_TIMESTAMP_TIME => mk_time y 0 0 (u32 (h + (m * 32 + d) * 24)) mi s us ng ts_type
  | MYSQL_TIMESTAMP_DATE => mk_time y m d 0 0 0 0 ng ts_type
  | _ => mk_time y m d h mi s us ng ts_type
  end.

Definition my_time_compare (a b : MYSQL_TIME) : Z :=
  let a_t := u64 (pack_time a) in
  let b_t := u64 (pack_time b) in
  if a_t <? b_t then -1 else if b_t <? a_t then 1 else 0.

(** ** Times as dates *)

Definition time_to_datetime (t : MYSQL_TIME) : option MYSQL_TIME :=
  if neg t then None else
  let d := hour t / 24 in
  Some (mk_time (year t) (d / 31) (d mod 31) (hour t mod 24) (minute t) (second t) (second_part t)
          (neg t) (time_type t)).

Definition time_to_datetime_old (from : MYSQL_TIME) : option MYSQL_TIME :=
  if neg from then None else
  let d := hour from / 24 in
  Some (mk_time 0 (d / 31) (d mod 31) (hour from mod 24) (minute from) (second from) (second_part from)
          false MYSQL_TIMESTAMP_DATETIME).

Definition mix_date_and_time_simple (ldate ltime : MYSQL_TIME) : MYSQL_TIME :=
  mk_time (year ldate) (month ldate) (day ldate) (hour ltime) (minute ltime) (second ltime)
    (second_part ltime) (neg ldate) MYSQL_TIMESTAMP_DATETIME.

(** The error of [get_date_from_daynr] is ignored: the date is then what
    [calc_time_from_sec] has left, zero. *)
Definition mix_date_and_time_complex (ldate ltime : MYSQL_TIME) : option MYSQL_TIME :=
  let sign := if neg ltime then 1 else -1 in
  let '(ng, seconds, useconds) := calc_time_diff ldate ltime sign in
  let days := seconds / SECONDS_IN_24H in
  let t := calc_time_from_sec (seconds mod SECONDS_IN_24H) useconds ng in
  date ← get_date_from_daynr days;
  let '(y, m, d) := match date with None => (0, 0, 0) | Some ymd => ymd end in
  Some (mk_time y m d (hour t) (minute t) (second t) (second_part t) (neg t) MYSQL_TIMESTAMP_DATETIME).

Definition mix_date_and_time (to from : MYSQL_TIME) : option MYSQL_TIME :=
  if negb (neg from) && (hour from <? 24) then Some (mix_date_and_time_simple to from)
  else mix_date_and_time_complex to from.

(** ** Truncation (include/my_time.h) *)

Definition my_time_fraction_remainder (nr : Z) (decimals : nat) : option Z :=
  f ← log_10_int !! (TIME_SECOND_PART_DIGITS - decimals)%nat; Some (Z.rem nr f).

Definition my_datetime_trunc (t : MYSQL_TIME) (decimals : nat) : option MYSQL_TIME :=
  r ← my_time_fraction_remainder (second_part t) decimals;
  Some (mk_time (year t) (month t) (day t) (hour t) (minute t) (second t) (second_part t - r) (neg t) (time_type t)).

Definition my_time_trunc (t : MYSQL_TIME) (decimals : nat) : option MYSQL_TIME :=
  r ← my_time_fraction_remainder (second_part t) decimals;
  let us := second_part t - r in
  let ng := if (us =? 0) && neg t && (hour t =? 0) && (minute t =? 0) && (second t =? 0)
            then false else neg t in
  Some (mk_time (year t) (month t) (day t) (hour t) (minute t) (second t) us ng (time_type t)).

Definition sec_part_shift (second_part : Z) (digits : nat) : option Z :=
  f ← log_10_int !! (TIME_SECOND_PART_DIGITS - digits)%nat; Some (Z.quot second_part f).

Definition sec_part_unshift (second_part : Z) (digits : nat) : option Z :=
  f ← log_10_int !! (TIME_SECOND_PART_DIGITS - digits)%nat; Some (second_part * f).

End TimeArith.
