(* ===== verification/TimeArithProofs.v ===== *)
(** * Correctness of date arithmetic

    A date and time stands for the number of microseconds since the start of
    day 0; intervals of days and less are added to that number, intervals of
    months and years to the number of months, and packed times are ordered
    like the numbers. *)

From S2P Require Import Prelude MyTime Calendar TimeArith.
Import MyTime Calendar TimeArith.

#[local] Open Scope Z_scope.

Module TimeArithProofs.

Definition day_us : Z := 86400 * 1000000.

(** A date with a time of day. *)
Record valid_datetime (t : MYSQL_TIME) : Prop := {
  vd_date : valid_date (year t) (month t) (day t);
  vd_hour : 0 <= hour t <= 23;
  vd_minute : 0 <= minute t <= 59;
  vd_second : 0 <= second t <= 59;
  vd_us : 0 <= second_part t <= TIME_MAX_SECOND_PART;
  vd_neg : neg t = false;
  vd_type : time_type t ≠ MYSQL_TIMESTAMP_TIME
}.

Definition us_of_day (t : MYSQL_TIME) : Z := COMBINE 0 (hour t) (minute t) (second t) (second_part t).

(** The microseconds since the start of day 0. *)
Definition total (t : MYSQL_TIME) : Z := calc_daynr (year t) (month t) (day t) * day_us + us_of_day t.

Lemma us_of_day_bounds t : valid_datetime t -> 0 <= us_of_day t < day_us.
Proof. intros []. unfold us_of_day, COMBINE, day_us, TIME_MAX_SECOND_PART in *. lia. Qed.

Lemma daynr_bounds y m d : valid_date y m d -> 1 <= calc_daynr y m d <= MAX_DAY_NUMBER.
Proof.
  intros Hv. pose proof (daynr_in_year _ _ _ Hv). destruct Hv as [Hy _].
  pose proof (jan1_pos y ltac:(lia)). pose proof (jan1_mono (y + 1) 10000 ltac:(lia)) as H10.
  change (jan1 10000) with (MAX_DAY_NUMBER + 1) in H10. lia.
Qed.

(** ** Days and less *)

Definition itotal (i : INTERVAL) : Z :=
  COMBINE (iday i) (ihour i) (iminute i) (isecond i) (isecond_part i).

(** Intervals whose sums do not wrap. *)
Record small_interval (i : INTERVAL) : Prop := {
  si_year : 0 <= iyear i < 2 ^ 31;
  si_month : 0 <= imonth i < 2 ^ 31;
  si_day : 0 <= iday i < 2 ^ 61;
  si_hour : 0 <= ihour i < 2 ^ 61;
  si_minute : 0 <= iminute i < 2 ^ 61;
  si_second : 0 <= isecond i < 2 ^ 61;
  si_us : 0 <= isecond_part i < 2 ^ 62
}.

Definition signed (i : INTERVAL) (z : Z) : Z := if ineg i then - z else z.

(** The interval types that [add_days] serves. *)
Definition day_type (ty : interval_type) : bool :=
  match ty with
  | INTERVAL_YEAR | INTERVAL_QUARTER | INTERVAL_MONTH | INTERVAL_WEEK | INTERVAL_YEAR_MONTH
  | INTERVAL_LAST => false
  | _ => true
  end.

Lemma interval_days i : small_interval i ->
  let n := iday i + ihour i / 24 + iminute i / 24 / 60 + isecond i / 24 / 60 / 60 in
  u64 n = n /\ n * day_us <= itotal i /\
  (n <= MAX_DAY_NUMBER -> itotal i < (n + 4) * day_us + 2 ^ 62).
Proof.
  intros [] n. assert (0 <= n < 2 ^ 64) by (subst n; dlia).
  rewrite u64_small by lia. split; [done|]. unfold itotal, COMBINE, day_us. subst n. split; [dlia|].
  intros _. dlia.
Qed.

(** Splitting a number of microseconds. *)
Lemma split_us U : 0 <= U ->
  let us := Z.rem U 1000000 in
  let U1 := Z.quot U 1000000 in
  let s := Z.rem U1 60 in
  let U2 := Z.quot U1 60 in
  let mi := Z.rem U2 60 in
  let U3 := Z.quot U2 60 in
  let h := Z.rem U3 24 in
  let dn := Z.quot U3 24 in
  dn = U / day_us /\ COMBINE 0 h mi s us = U mod day_us /\
  0 <= h <= 23 /\ 0 <= mi <= 59 /\ 0 <= s <= 59 /\ 0 <= us <= 999999 /\ U = COMBINE 0 U3 mi s us.
Proof.
  intros HU. cbv zeta. unfold COMBINE, day_us.
  rewrite !Z.quot_div_nonneg, !Z.rem_mod_nonneg by dlia. dlia.
Qed.

(** What an addition has to give: the time that lies [R] microseconds behind
    the start of day 0 if it is in the years 1 to 9999, else an error. *)
Definition lies_at (R : Z) (r : option (option MYSQL_TIME)) : Prop :=
  match r with
  | None => False
  | Some None => R < 366 * day_us \/ (MAX_DAY_NUMBER + 1) * day_us <= R
  | Some (Some t) => valid_datetime t /\ total t = R /\ 1 <= year t
  end.

Lemma date_at U h mi s us ty :
  COMBINE 0 h mi s us = U mod day_us ->
  0 <= h <= 23 -> 0 <= mi <= 59 -> 0 <= s <= 59 -> 0 <= us <= 999999 -> ty ≠ MYSQL_TIMESTAMP_TIME ->
  lies_at U (date ← get_date_from_daynr (U / day_us);
             match date with
             | None => Some None
             | Some (y, m, d) => Some (Some (mk_time y m d h mi s us false ty))
             end).
Proof.
  intros HU Hh Hmi Hs Hus Hty.
  destruct (decide (366 <= U / day_us <= MAX_DAY_NUMBER)) as [Hn|Hn].
  2: { rewrite get_date_out by lia. cbn [mbind option_bind lies_at]. unfold day_us in *. dlia. }
  destruct (date_of_daynr (U / day_us) ltac:(lia)) as (y & m & d & Hv & Hy & E).
  rewrite <- E. rewrite get_date_in_year by done. cbn [mbind option_bind lies_at].
  split; [by constructor|]. split; [|done]. unfold total, us_of_day. simpl.
  rewrite E, HU. unfold day_us. dlia.
Qed.

Lemma add_days_lies_at t ty i :
  valid_datetime t -> small_interval i -> day_type ty = true ->
  lies_at (total t + signed i (itotal i)) (add_days t ty i (if ineg i then -1 else 1)).
Proof.
  intros Ht Hi Hty. unfold add_days.
  destruct (interval_days i Hi) as (-> & Hlo & Hhi). set (n := iday i + _ + _ + _) in *.
  pose proof (daynr_bounds _ _ _ (vd_date _ Ht)) as BD. pose proof (us_of_day_bounds _ Ht) as Bt.
  assert (total t = calc_daynr (year t) (month t) (day t) * day_us + us_of_day t) as ET by done.
  destruct (Z.ltb_spec MAX_DAY_NUMBER n) as [Hn|Hn].
  { unfold lies_at, signed. unfold day_us, MAX_DAY_NUMBER in *. destruct (ineg i); lia. }
  rewrite bool_decide_false by apply (vd_type _ Ht).
  assert (u32 (day t + (calc_daynr (year t) (month t) 1 - 1)) = calc_daynr (year t) (month t) (day t)) as ->.
  { destruct (vd_date _ Ht) as (? & ? & ?). unfold MAX_DAY_NUMBER in BD.
    rewrite !calc_daynr_eq in * by lia. rewrite u32_small; lia. }
  assert (COMBINE (calc_daynr (year t) (month t) (day t)) (hour t) (minute t) (second t) (second_part t) = total t) as ->
    by (unfold total, us_of_day, COMBINE, day_us; lia).
  fold (itotal i). replace (total t + (if ineg i then -1 else 1) * itotal i)
    with (total t + signed i (itotal i)) by (unfold signed; destruct (ineg i); lia).
  set (R := total t + signed i (itotal i)).
  assert (0 <= itotal i) as Hi0 by (destruct Hi; unfold itotal, COMBINE; lia).
  assert (- 2 ^ 63 < R < 2 ^ 63) as BR.
  { specialize (Hhi Hn). unfold day_us, MAX_DAY_NUMBER in *. subst R. unfold signed. destruct (ineg i); lia. }
  rewrite (to_ll_small R) by lia. rewrite (vd_neg _ Ht). cbn [xorb].
  destruct (Z.ltb_spec R 0) as [HR|HR].
  { cbn [lies_at]. left. unfold day_us. lia. }
  destruct (split_us R HR) as (E1 & E2 & Bh & Bm & Bs & Bu & _). cbv zeta in *. rewrite E1.
  apply date_at; try done. destruct (decide (ty = INTERVAL_DAY)); [apply (vd_type _ Ht)|done].
Qed.

Lemma add_weeks_lies_at t i :
  valid_datetime t -> small_interval i ->
  lies_at (total t + signed i (iday i * day_us)) (add_weeks t i (if ineg i then -1 else 1)).
Proof.
  intros Ht Hi. unfold add_weeks. pose proof (daynr_bounds _ _ _ (vd_date _ Ht)) as BD.
  pose proof (us_of_day_bounds _ Ht) as Bt. pose proof (si_day _ Hi). unfold MAX_DAY_NUMBER in BD.
  rewrite (to_ll_small (iday i)) by lia. rewrite to_ll_small by (destruct (ineg i); lia).
  set (D := calc_daynr _ _ _ + _).
  assert (total t + signed i (iday i * day_us) = D * day_us + us_of_day t) as ->
    by (subst D; unfold total, signed; destruct (ineg i); lia).
  destruct Ht as [Hv ? ? ? ? Hneg ?].
  assert (D = (D * day_us + us_of_day t) / day_us /\ us_of_day t = (D * day_us + us_of_day t) mod day_us)
    as [ED EU] by (unfold day_us in *; clear - Bt; dlia).
  rewrite ED at 2. unfold with_date. rewrite Hneg. by apply date_at.
Qed.

(** The microseconds of an interval of days and less, or of weeks. *)
Definition amount (ty : interval_type) (i : INTERVAL) : Z :=
  if decide (ty = INTERVAL_WEEK) then iday i * day_us else itotal i.

Lemma lies_at_type R r :
  lies_at R r ->
  lies_at R (r ← r; match r with
                    | None => Some None
                    | Some t' => if decide (time_type t' = MYSQL_TIMESTAMP_TIME) then Some None else Some (Some t')
                    end).
Proof.
  destruct r as [[t'|]|]; cbn [mbind option_bind]; try done.
  intros (Ht & ? & ?). rewrite decide_False by apply (vd_type _ Ht). done.
Qed.

(** C20: adding an interval of weeks or of days, hours, minutes, seconds and
    microseconds to a date and time gives the valid date and time whose number
    of microseconds is the sum, exactly if it is in the years 1 to 9999, and
    an error else.  The fields of the interval are below [2^61] (microseconds
    below [2^62]); beyond that the sums of the code wrap, see
    [date_add_week_wraps]. *)
Theorem date_add_days_correct t ty i :
  valid_datetime t -> small_interval i -> day_type ty = true \/ ty = INTERVAL_WEEK ->
  lies_at (total t + signed i (amount ty i)) (date_add_interval t ty i).
Proof.
  intros Ht Hi Hty. unfold date_add_interval, amount. rewrite (vd_neg _ Ht).
  replace (if eqb (ineg i) false then 1 else -1) with (if ineg i then -1 else 1) by (by destruct (ineg i)).
  destruct (decide (ty = INTERVAL_WEEK)) as [->|Hne].
  - apply lies_at_type. by apply add_weeks_lies_at.
  - destruct Hty as [Hty|]; [|done]. pose proof (add_days_lies_at t ty i Ht Hi Hty) as H.
    by destruct ty.
Qed.

(** The weeks are not checked before they are added: [2^64 - 2] days forward are
    two days back, without an error. *)
Lemma date_add_week_wraps t i : valid_datetime t -> iday i = 2 ^ 64 - 2 -> ineg i = false ->
  date_add_interval t INTERVAL_WEEK i = date_add_interval t INTERVAL_WEEK (mk_interval 0 0 2 0 0 0 0 true).
Proof.
  intros Ht Hi Hn. unfold date_add_interval, add_weeks. rewrite Hi, Hn, (vd_neg _ Ht). reflexivity.
Qed.

(** ** Months and years *)

(** The valid date in the month [P], counted from the start of year 0, that
    has the day of [t] or, if the month is shorter, its last day. *)
Definition in_month (t : MYSQL_TIME) (P : Z) (r : option (option MYSQL_TIME)) : Prop :=
  if decide (0 <= P < 120000) then
    let y := P / 12 in
    let m := P mod 12 + 1 in
    r = Some (Some (with_date t y m (Z.min (day t) (month_length y m)))) /\
    valid_date y m (Z.min (day t) (month_length y m))
  else r = Some None.

Lemma month_length_bounds y m : 1 <= m <= 12 -> 28 <= month_length y m <= 31.
Proof. intros Hm. unfold month_length. each_month m; simpl; destruct (leap y); simpl; lia. Qed.

Lemma add_months_in_month t i :
  valid_datetime t -> small_interval i ->
  in_month t (year t * 12 + month t - 1 + signed i (iyear i * 12 + imonth i))
    (add_months t i (if ineg i then -1 else 1)).
Proof.
  intros [Hv _ _ _ _ _ _] [Hy Hm _ _ _ _ _]. pose proof Hv as (By & Bm & Bd). unfold add_months.
  rewrite (u32_small (year t * 12)), (to_ll_small (iyear i)), (to_ll_small (imonth i)) by lia.
  rewrite (to_ll_small (_ * iyear i)), (to_ll_small (_ * iyear i * 12)), (to_ll_small (_ * imonth i))
    by (destruct (ineg i); lia).
  set (P := year t * 12 + month t - 1 + _).
  match goal with |- context [to_ll ?x] => replace x with P
    by (subst P; unfold signed; destruct (ineg i); lia) end.
  assert (- 2 ^ 40 < P < 2 ^ 40) as BP by (subst P; unfold signed; destruct (ineg i); lia).
  rewrite to_ll_small by lia. clearbody P. unfold in_month. case_decide as HP.
  2: { replace (120000 <=? u64 P) with true; [done|]. unfold u64. dlia. }
  rewrite u64_small by lia. replace (120000 <=? P) with false by lia.
  rewrite Z.quot_div_nonneg, Z.rem_mod_nonneg, !u32_small by dlia.
  pose proof (Z.mod_pos_bound P 12 ltac:(lia)) as Bq. pose proof (month_length_bounds (P / 12) (P mod 12 + 1) ltac:(lia)).
  set (m := P mod 12 + 1) in *. set (y := P / 12) in *.
  destruct (lookup_lt_is_Some_2 days_in_month (Z.to_nat (m - 1))) as [dim Hdim]; [simpl; lia|].
  rewrite Hdim. cbn [mbind option_bind]. fold (leap y).
  split; [|unfold valid_date; subst y; dlia].
  do 3 f_equal. unfold month_length in *. rewrite Hdim in *. cbn [default from_option] in *.
  destruct (Z.ltb_spec dim (day t)); destruct ((m =? 2) && leap y); simpl in *; lia.
Qed.

Lemma add_years_in_month t i :
  valid_datetime t -> small_interval i ->
  in_month t (year t * 12 + month t - 1 + signed i (iyear i * 12))
    (add_years t i (if ineg i then -1 else 1)).
Proof.
  intros [Hv _ _ _ _ _ _] [Hy _ _ _ _ _ _]. pose proof Hv as (By & Bm & Bd). unfold add_years.
  rewrite (to_ll_small (iyear i)) by lia.
  replace (year t + (if ineg i then -1 else 1) * iyear i) with (year t + signed i (iyear i))
    by (unfold signed; destruct (ineg i); lia).
  set (y := year t + signed i (iyear i)).
  replace (year t * 12 + month t - 1 + signed i (iyear i * 12)) with (y * 12 + (month t - 1))
    by (subst y; unfold signed; destruct (ineg i); lia).
  assert (- 2 ^ 31 < y < 2 ^ 32 - 2 ^ 30) as Yb by (subst y; unfold signed; destruct (ineg i); lia).
  clearbody y. unfold in_month. case_decide as HP.
  2: { replace (10000 <=? u32 y) with true; [done|]. unfold u32. dlia. }
  rewrite u32_small by lia. replace (10000 <=? y) with false by lia.
  replace ((y * 12 + (month t - 1)) / 12) with y by dlia.
  replace ((y * 12 + (month t - 1)) mod 12 + 1) with (month t) by dlia.
  pose proof (month_length_bounds y (month t) Bm). fold (leap y).
  split; [|unfold valid_date; lia]. do 3 f_equal. revert Bd. unfold month_length in *.
  destruct (Z.eqb_spec (month t) 2) as [E|E]; simpl; [|destruct (leap y), (leap (year t)); lia].
  rewrite E. simpl. destruct (Z.eqb_spec (day t) 29), (leap y), (leap (year t)); simpl; lia.
Qed.

(** The months of an interval of months, quarters or years. *)
Definition months (ty : interval_type) (i : INTERVAL) : option Z :=
  match ty with
  | INTERVAL_YEAR => Some (iyear i * 12)
  | INTERVAL_YEAR_MONTH | INTERVAL_QUARTER | INTERVAL_MONTH => Some (iyear i * 12 + imonth i)
  | _ => None
  end.

Lemma in_month_type t P r :
  time_type t ≠ MYSQL_TIMESTAMP_TIME -> in_month t P r ->
  in_month t P (r ← r; match r with
                       | None => Some None
                       | Some t' => if decide (time_type t' = MYSQL_TIMESTAMP_TIME) then Some None else Some (Some t')
                       end).
Proof.
  intros Ht. unfold in_month. case_decide; [|by intros ->].
  intros [-> Hv]. split; [|done]. cbn [mbind option_bind with_date time_type]. by rewrite decide_False.
Qed.

(** C22: adding an interval of months, quarters or years gives the date in the
    month that is so many months away, with the same day or, if that month is
    shorter, its last day, and the same time of day; an error exactly if the
    year leaves 0 to 9999.  The years and months of the interval are below
    [2^31]; beyond that the 32-bit year wraps, see [date_add_year_wraps]. *)
Theorem date_add_months_correct t ty i n :
  valid_datetime t -> small_interval i -> months ty i = Some n ->
  in_month t (year t * 12 + month t - 1 + signed i n) (date_add_interval t ty i).
Proof.
  intros Ht Hi Hn. unfold date_add_interval. rewrite (vd_neg _ Ht).
  replace (if eqb (ineg i) false then 1 else -1) with (if ineg i then -1 else 1) by (by destruct (ineg i)).
  destruct ty; simplify_eq Hn; try discriminate Hn; intros; subst n; apply in_month_type;
    try apply (vd_type _ Ht); try by apply add_months_in_month.
  by apply add_years_in_month.
Qed.

(** the year is computed modulo [2^32]: an interval of [2^32] years gives
    the date itself instead of an error. *)
Theorem date_add_year_wraps t i :
  valid_datetime t -> iyear i = 2 ^ 32 -> date_add_interval t INTERVAL_YEAR i = Some (Some t).
Proof.
  intros Ht Hi. unfold date_add_interval, add_years. rewrite Hi. change (to_ll (2 ^ 32)) with (2 ^ 32).
  pose proof (vd_date _ Ht) as (By & Bm & Bd).
  set (sign := if eqb _ _ then 1 else -1).
  assert (u32 (year t + sign * 2 ^ 32) = year t) as ->
    by (unfold u32; rewrite Z.mod_add by lia; apply Z.mod_small; lia).
  replace (10000 <=? year t) with false by lia. cbn [mbind option_bind]. fold (leap (year t)).
  assert ((month t =? 2) && (day t =? 29) && negb (leap (year t)) = false) as ->.
  { revert Bd. unfold month_length. destruct (Z.eqb_spec (month t) 2) as [->|]; [|done].
    destruct (Z.eqb_spec (day t) 29), (leap (year t)); simpl; try done. lia. }
  cbn [with_date time_type]. rewrite decide_False by apply (vd_type _ Ht). by destruct t.
Qed.

(** ** Packed times *)

Definition date_key (y m d : Z) : Z := (y * 13 + m) * 32 + d.

Lemma valid_date_key y m d : valid_date y m d -> 1 <= m <= 12 /\ 1 <= d <= 31 /\ 0 <= y <= 9999.
Proof. intros (? & Hm & ?). pose proof (month_length_bounds y m Hm). lia. Qed.

Lemma key_before y m d y' m' d' : valid_date y m d -> valid_date y' m' d' ->
  date_key y m d < date_key y' m' d' <-> date_before y m d y' m' d'.
Proof.
  intros H%valid_date_key H'%valid_date_key. unfold date_key, date_before. lia.
Qed.

Lemma key_order y m d y' m' d' : valid_date y m d -> valid_date y' m' d' ->
  date_key y m d ?= date_key y' m' d' = (calc_daynr y m d ?= calc_daynr y' m' d').
Proof.
  intros Hv Hv'. symmetry.
  pose proof (key_before _ _ _ _ _ _ Hv Hv') as K. pose proof (key_before _ _ _ _ _ _ Hv' Hv) as K'.
  pose proof (daynr_before _ _ _ _ _ _ Hv Hv') as D. pose proof (daynr_before _ _ _ _ _ _ Hv' Hv) as D'.
  destruct (Z.compare_spec (date_key y m d) (date_key y' m' d')) as [E|E|E].
  - assert (y = y' /\ m = m' /\ d = d') as (-> & -> & ->); [|apply Z.compare_refl].
    apply valid_date_key in Hv, Hv'. unfold date_key in E. lia.
  - apply Z.compare_lt_iff. tauto.
  - apply Z.compare_gt_iff. tauto.
Qed.

Lemma pack_time_eq t : valid_datetime t ->
  pack_time t = date_key (year t) (month t) (day t) * day_us + us_of_day t /\ 0 <= pack_time t < 2 ^ 62.
Proof.
  intros Ht. pose proof (us_of_day_bounds _ Ht) as Bt. pose proof (valid_date_key _ _ _ (vd_date _ Ht)) as Bk.
  unfold pack_time. rewrite (vd_neg _ Ht).
  match goal with |- context [to_ll ?x] => replace x
    with (date_key (year t) (month t) (day t) * day_us + us_of_day t)
    by (unfold date_key, us_of_day, COMBINE, day_us; lia) end.
  assert (0 <= date_key (year t) (month t) (day t) <= 4160000) by (unfold date_key; lia).
  unfold day_us in *. rewrite to_ll_small by lia. lia.
Qed.

Lemma mixed_radix_compare a b x y n :
  0 <= x < n -> 0 <= y < n -> (a * n + x ?= b * n + y) = match a ?= b with Eq => x ?= y | c => c end.
Proof.
  intros Hx Hy. destruct (Z.compare_spec a b) as [->|H|H].
  - destruct (Z.compare_spec x y) as [->|?|?]; [apply Z.compare_refl|apply Z.compare_lt_iff; lia|apply Z.compare_gt_iff; lia].
  - apply Z.compare_lt_iff. nia.
  - apply Z.compare_gt_iff. nia.
Qed.

Lemma pack_order a b : valid_datetime a -> valid_datetime b ->
  pack_time a ?= pack_time b = (total a ?= total b).
Proof.
  intros Ha Hb. destruct (pack_time_eq a Ha) as [-> _], (pack_time_eq b Hb) as [-> _]. unfold total.
  rewrite !mixed_radix_compare by (by apply us_of_day_bounds). by rewrite key_order by (by apply vd_date).
Qed.

(** A time of the type TIME, in its range. *)
Record valid_time (t : MYSQL_TIME) : Prop := {
  vt_date : year t = 0 /\ month t = 0 /\ day t = 0;
  vt_hour : 0 <= hour t <= TIME_MAX_HOUR;
  vt_minute : 0 <= minute t <= 59;
  vt_second : 0 <= second t <= 59;
  vt_us : 0 <= second_part t <= TIME_MAX_SECOND_PART;
  vt_neg : neg t = true -> 0 < us_of_day t;
  vt_type : time_type t = MYSQL_TIMESTAMP_TIME
}.

Definition cmp_sign (c : comparison) : Z := match c with Lt => -1 | Eq => 0 | Gt => 1 end.

Lemma radix_div a x n : 0 <= x < n -> (a * n + x) / n = a.
Proof. intros. symmetry. apply Z.div_unique with x; lia. Qed.

Lemma radix_mod a x n : 0 <= x < n -> (a * n + x) mod n = x.
Proof. intros. symmetry. apply Z.mod_unique with a; lia. Qed.

Lemma unpack_datetime t : valid_datetime t -> time_type t = MYSQL_TIMESTAMP_DATETIME ->
  unpack_time (pack_time t) MYSQL_TIMESTAMP_DATETIME = t.
Proof.
  intros Ht Hty. destruct (pack_time_eq t Ht) as [E B]. pose proof (valid_date_key _ _ _ (vd_date _ Ht)) as Bk.
  destruct Ht as [_ Bh Bmi Bs Bu Hn _]. unfold TIME_MAX_SECOND_PART in Bu.
  unfold unpack_time. replace (pack_time t <? 0) with false by lia. rewrite E.
  replace (date_key (year t) (month t) (day t) * day_us + us_of_day t) with
    ((((((year t * 13 + month t) * 32 + day t) * 24 + hour t) * 60 + minute t) * 60 + second t) * 1000000 + second_part t)
    by (unfold date_key, us_of_day, COMBINE, day_us; lia).
  rewrite !radix_div, !radix_mod, u32_small by lia. destruct t; simpl in *; by subst.
Qed.

Lemma pack_time_only t : valid_time t ->
  pack_time t = us_of_day t * (if neg t then -1 else 1) /\
  us_of_day t = ((hour t * 60 + minute t) * 60 + second t) * 1000000 + second_part t /\
  0 <= us_of_day t < 2 ^ 62.
Proof.
  intros [(Ey & Em & Ed) Bh Bmi Bs Bu Hn Hty]. unfold TIME_MAX_HOUR, TIME_MAX_SECOND_PART in *.
  assert (us_of_day t = ((hour t * 60 + minute t) * 60 + second t) * 1000000 + second_part t) as EU
    by (unfold us_of_day, COMBINE; lia).
  split; [|lia]. unfold pack_time. rewrite Ey, Em, Ed, EU. rewrite to_ll_small; [lia|destruct (neg t); lia].
Qed.

Lemma unpack_time_only t : valid_time t -> unpack_time (pack_time t) MYSQL_TIMESTAMP_TIME = t.
Proof.
  intros Ht. destruct (pack_time_only t Ht) as (-> & EU & BU).
  destruct Ht as [(Ey & Em & Ed) Bh Bmi Bs Bu Hn Hty]. unfold TIME_MAX_HOUR, TIME_MAX_SECOND_PART in *.
  unfold unpack_time.
  assert (us_of_day t * (if neg t then -1 else 1) <? 0 = neg t) as ->.
  { destruct (neg t); [specialize (Hn eq_refl)|]; lia. }
  replace (if neg t then to_ll (- (us_of_day t * (if neg t then -1 else 1)))
    else us_of_day t * (if neg t then -1 else 1)) with (us_of_day t)
    by (destruct (neg t); rewrite ?to_ll_small; lia).
  rewrite EU, !radix_div, !radix_mod by lia. rewrite !u32_small by dlia.
  destruct t; simpl in *; subst. f_equal; dlia.
Qed.

Lemma my_time_compare_datetime a b : valid_datetime a -> valid_datetime b ->
  my_time_compare a b = cmp_sign (total a ?= total b).
Proof.
  intros Ha Hb. rewrite <- pack_order by done. unfold my_time_compare.
  destruct (pack_time_eq a Ha) as [_ Ba], (pack_time_eq b Hb) as [_ Bb]. rewrite !u64_small by lia.
  destruct (Z.compare_spec (pack_time a) (pack_time b)); simpl;
    repeat (case_if; try lia); done.
Qed.

(** packed dates are ordered like the times they stand for, which
    [my_time_compare] thus compares, and unpacking gives the packed value
    back, for dates with a time of day and for times of either sign. *)
Theorem pack_time_correct :
  (forall a b, valid_datetime a -> valid_datetime b ->
    my_time_compare a b = cmp_sign (total a ?= total b)) /\
  (forall t, valid_datetime t -> time_type t = MYSQL_TIMESTAMP_DATETIME ->
    unpack_time (pack_time t) MYSQL_TIMESTAMP_DATETIME = t) /\
  (forall t, valid_time t -> unpack_time (pack_time t) MYSQL_TIMESTAMP_TIME = t).
Proof.
  split; [exact my_time_compare_datetime|]. split; [exact unpack_datetime|exact unpack_time_only].
Qed.

(** Times are compared as unsigned numbers: a negative one counts as larger
    than every positive one. *)
Lemma my_time_compare_negative a b :
  valid_time a -> valid_time b -> neg a = true -> neg b = false -> my_time_compare a b = 1.
Proof.
  intros Ha Hb Na Nb. destruct (pack_time_only a Ha) as (Ea & _ & Ba), (pack_time_only b Hb) as (Eb & _ & Bb).
  pose proof (vt_neg _ Ha Na). unfold my_time_compare. rewrite Ea, Eb, Na, Nb.
  rewrite (u64_small (us_of_day b * 1)) by lia.
  replace (u64 (us_of_day a * -1)) with (2 ^ 64 - us_of_day a) by (unfold u64; dlia).
  replace (2 ^ 64 - us_of_day a <? us_of_day b * 1) with false by lia.
  by replace (us_of_day b * 1 <? 2 ^ 64 - us_of_day a) with true by lia.
Qed.

(** ** Differences *)

Lemma calc_time_diff_total a b : valid_datetime a -> valid_datetime b ->
  let '(ng, s, us) := calc_time_diff a b 1 in
  total a - total b = (if ng then -1 else 1) * (s * 1000000 + us) /\
  0 <= s /\ 0 <= us < 1000000 /\ (ng = true -> total a < total b).
Proof.
  intros Ha Hb. unfold calc_time_diff. rewrite !decide_False by (by apply vd_type).
  unfold SECONDS_IN_24H. match goal with |- context [?x <? 0] => assert (x = total a - total b) as ->
    by (unfold total, us_of_day, COMBINE, day_us; lia) end.
  destruct (Z.ltb_spec (total a - total b) 0); rewrite Z.quot_div_nonneg, Z.rem_mod_nonneg by lia;
    (split; [dlia|]); (split; [dlia|]); (split; [dlia|]); (done || lia).
Qed.

Lemma total_bounds t : valid_datetime t -> 0 <= total t < (MAX_DAY_NUMBER + 1) * day_us.
Proof.
  intros Ht. pose proof (daynr_bounds _ _ _ (vd_date _ Ht)). pose proof (us_of_day_bounds _ Ht).
  unfold total, day_us in *. lia.
Qed.

Lemma total_from_year_1 t : valid_datetime t -> 1 <= year t -> 366 * day_us <= total t.
Proof.
  intros Ht Hy. pose proof (daynr_in_year _ _ _ (vd_date _ Ht)). pose proof (us_of_day_bounds _ Ht).
  pose proof (jan1_mono 1 (year t) ltac:(lia)) as H1. change (jan1 1) with 366 in H1.
  unfold total, day_us in *. lia.
Qed.

Lemma total_inj a b : valid_datetime a -> valid_datetime b ->
  time_type a = MYSQL_TIMESTAMP_DATETIME -> time_type b = MYSQL_TIMESTAMP_DATETIME ->
  total a = total b -> a = b.
Proof.
  intros Ha Hb Ta Tb E. rewrite <- (unpack_datetime a), <- (unpack_datetime b) by done. f_equal.
  apply Z.compare_eq. rewrite pack_order by done. by apply Z.compare_eq_iff.
Qed.

Lemma add_days_datetime t ty i sign t' :
  add_days t ty i sign = Some (Some t') -> ty ≠ INTERVAL_DAY -> time_type t ≠ MYSQL_TIMESTAMP_TIME ->
  time_type t' = MYSQL_TIMESTAMP_DATETIME.
Proof.
  unfold add_days. intros E Hty Ht. rewrite bool_decide_false in E by done. rewrite decide_False in E by done.
  case_match; [done|]. case_match; [done|].
  destruct (get_date_from_daynr _) as [[[[y m] d]|]|]; simpl in E; by simplify_eq.
Qed.

(** adding the difference of two dates to the second one, as an interval
    of seconds and microseconds, gives the first one. *)
Theorem diff_add_roundtrip a b :
  valid_datetime a -> valid_datetime b -> 1 <= year a -> time_type a = MYSQL_TIMESTAMP_DATETIME ->
  let '(ng, s, us) := calc_time_diff a b 1 in
  date_add_interval b INTERVAL_SECOND_MICROSECOND (mk_interval 0 0 0 0 0 s us ng) = Some (Some a).
Proof.
  intros Ha Hb Hy Hty. pose proof (calc_time_diff_total a b Ha Hb) as HD.
  destruct (calc_time_diff a b 1) as [[ng s] us]. destruct HD as (ED & Bs & Bus & _).
  set (i := mk_interval 0 0 0 0 0 s us ng).
  pose proof (total_bounds a Ha) as Ba. pose proof (total_bounds b Hb) as Bb.
  pose proof (total_from_year_1 a Ha Hy) as B1.
  assert (small_interval i) as Hi
    by (unfold day_us, MAX_DAY_NUMBER in *; constructor; simpl; destruct ng; lia).
  pose proof (add_days_lies_at b INTERVAL_SECOND_MICROSECOND i Hb Hi eq_refl) as HL.
  assert (total b + signed i (itotal i) = total a) as ER
    by (unfold signed, itotal, COMBINE; simpl; destruct ng; lia).
  rewrite ER in HL. unfold date_add_interval. rewrite (vd_neg _ Hb).
  replace (if eqb (ineg i) false then 1 else -1) with (if ineg i then -1 else 1) by (by destruct (ineg i)).
  destruct (add_days b _ i _) as [[t'|]|] eqn:E; cbn [lies_at] in HL; [|lia|done].
  destruct HL as (Ht' & Et' & _). do 2 f_equal.
  apply total_inj; try done. eapply add_days_datetime; [exact E|done|apply (vd_type _ Hb)].
Qed.

(** ** Examples *)

Definition new_years_eve : MYSQL_TIME :=
  mk_time 2023 12 31 23 59 59 999999 false MYSQL_TIMESTAMP_DATETIME.
Definition end_of_january : MYSQL_TIME :=
  mk_time 2024 1 31 12 0 0 0 false MYSQL_TIMESTAMP_DATETIME.

Lemma new_years_eve_valid : valid_datetime new_years_eve.
Proof. split; try done; apply (bool_decide_unpack _); vm_compute; exact I. Qed.

Lemma end_of_january_valid : valid_datetime end_of_january.
Proof. split; try done; apply (bool_decide_unpack _); vm_compute; exact I. Qed.

Lemma date_add_days_correct_witness :
  date_add_interval new_years_eve INTERVAL_MICROSECOND (mk_interval 0 0 0 0 0 0 1 false) =
    Some (Some (mk_time 2024 1 1 0 0 0 0 false MYSQL_TIMESTAMP_DATETIME)) /\
  lies_at (total new_years_eve + 1)
    (date_add_interval new_years_eve INTERVAL_MICROSECOND (mk_interval 0 0 0 0 0 0 1 false)).
Proof.
  split; [vm_compute; reflexivity|].
  refine (date_add_days_correct new_years_eve INTERVAL_MICROSECOND (mk_interval 0 0 0 0 0 0 1 false) _ _ _).
  - exact new_years_eve_valid.
  - split; simpl; lia.
  - by left.
Defined.

Lemma date_add_months_correct_witness :
  date_add_interval end_of_january INTERVAL_MONTH (mk_interval 0 1 0 0 0 0 0 false) =
    Some (Some (mk_time 2024 2 29 12 0 0 0 false MYSQL_TIMESTAMP_DATETIME)) /\
  in_month end_of_january (2024 * 12 + 1 - 1 + 1)
    (date_add_interval end_of_january INTERVAL_MONTH (mk_interval 0 1 0 0 0 0 0 false)).
Proof.
  split; [vm_compute; reflexivity|].
  refine (date_add_months_correct end_of_january INTERVAL_MONTH (mk_interval 0 1 0 0 0 0 0 false) 1 _ _ _).
  - exact end_of_january_valid.
  - split; simpl; lia.
  - reflexivity.
Defined.

Lemma date_add_year_wraps_witness :
  date_add_interval end_of_january INTERVAL_YEAR (mk_interval (2 ^ 32) 0 0 0 0 0 0 false) =
    Some (Some end_of_january).
Proof. apply date_add_year_wraps; [exact end_of_january_valid|reflexivity]. Defined.

Lemma pack_time_correct_witness :
  my_time_compare new_years_eve end_of_january = -1 /\
  my_time_compare new_years_eve end_of_january = cmp_sign (total new_years_eve ?= total end_of_january).
Proof.
  split; [vm_compute; reflexivity|].
  apply (proj1 pack_time_correct); [exact new_years_eve_valid|exact end_of_january_valid].
Defined.

Lemma diff_add_roundtrip_witness :
  date_add_interval end_of_january INTERVAL_SECOND_MICROSECOND
    (mk_interval 0 0 0 0 0 2635200 1 true) = Some (Some new_years_eve).
Proof.
  refine (diff_add_roundtrip new_years_eve end_of_january _ _ _ _).
  - exact new_years_eve_valid.
  - exact end_of_january_valid.
  - simpl. lia.
  - reflexivity.
Defined.

End TimeArithProofs.
