(* ===== verification/TimeBinary.v ===== *)
(** * Times on disk (sql/compat56.cc, sql/compat56.h, include/myisampack.h)

    The 64-bit numbers that stand for times and datetimes, and their bytes in
    records and indexes, high byte first, for each number of digits of the
    fraction.  A buffer is the list of bytes written to it. *)

From S2P Require Import Prelude MyTime.
Import MyTime.

#[local] Open Scope Z_scope.

Module TimeBinary.

(** ** Integers, high byte first *)

Definition byte_of (v : Z) (shift : Z) : Z := Z.land (Z.shiftr v shift) 255.

Definition mi_int2store (a : Z) : list Z := let d := u32 a in [byte_of d 8; byte_of d 0].
Definition mi_int3store (a : Z) : list Z := let d := u64 a in [byte_of d 16; byte_of d 8; byte_of d 0].
Definition mi_int4store (a : Z) : list Z :=
  let d := u64 a in [byte_of d 24; byte_of d 16; byte_of d 8; byte_of d 0].
Definition mi_int5store (a : Z) : list Z :=
  let d := u64 a in let d2 := u64 (Z.shiftr a 32) in
  [byte_of d2 0; byte_of d 24; byte_of d 16; byte_of d 8; byte_of d 0].
Definition mi_int6store (a : Z) : list Z :=
  let d := u64 a in let d2 := u64 (Z.shiftr a 32) in
  [byte_of d2 8; byte_of d2 0; byte_of d 24; byte_of d 16; byte_of d 8; byte_of d 0].

Definition mi_uint2korr (l : list Z) : option Z :=
  match l with
  | b0 :: b1 :: _ => Some (Z.lor b1 (Z.shiftl b0 8))
  | _ => None
  end.

Definition mi_uint3korr (l : list Z) : option Z :=
  match l with
  | b0 :: b1 :: b2 :: _ => Some (Z.lor (Z.lor b2 (Z.shiftl b1 8)) (Z.shiftl b0 16))
  | _ => None
  end.

Definition mi_uint4korr (l : list Z) : option Z :=
  match l with
  | b0 :: b1 :: b2 :: b3 :: _ =>
      Some (Z.lor (Z.lor (Z.lor b3 (Z.shiftl b2 8)) (Z.shiftl b1 16)) (Z.shiftl b0 24))
  | _ => None
  end.

Definition mi_uint5korr (l : list Z) : option Z :=
  match l with
  | b0 :: b1 :: b2 :: b3 :: b4 :: _ =>
      Some (Z.lor (Z.lor (Z.lor (Z.lor b4 (Z.shiftl b3 8)) (Z.shiftl b2 16)) (Z.shiftl b1 24))
                  (Z.shiftl b0 32))
  | _ => None
  end.

Definition mi_uint6korr (l : list Z) : option Z :=
  match l with
  | b0 :: b1 :: b2 :: b3 :: b4 :: b5 :: _ =>
      Some (Z.lor (Z.lor (Z.lor (Z.lor b5 (Z.shiftl b4 8)) (Z.shiftl b3 16)) (Z.shiftl b2 24))
                  (Z.shiftl (Z.lor b1 (Z.shiftl b0 8)) 32))
  | _ => None
  end.

(** The signed readings. *)
Definition mi_sint1korr (l : list Z) : option Z :=
  match l with
  | b :: _ => Some (if b <? 128 then b else b - 256)
  | _ => None
  end.

Definition mi_sint2korr (l : list Z) : option Z :=
  v ← mi_uint2korr l; Some (if v <? 2 ^ 15 then v else v - 2 ^ 16).

Definition mi_sint3korr (l : list Z) : option Z :=
  v ← mi_uint3korr l;
  match l with
  | b0 :: _ => Some (if Z.land b0 128 =? 0 then v else Z.lor (Z.shiftl 255 24) v - 2 ^ 32)
  | _ => None
  end.

(** ** Packed numbers *)

Definition MY_PACKED_TIME_GET_INT_PART (x : Z) : Z := Z.shiftr x 24.
Definition MY_PACKED_TIME_GET_FRAC_PART (x : Z) : Z := Z.rem x (2 ^ 24).
Definition MY_PACKED_TIME_MAKE (i f : Z) : Z := u64 (u64 (Z.shiftl (u64 i) 24) + f).
Definition MY_PACKED_TIME_MAKE_INT (i : Z) : Z := u64 (Z.shiftl (u64 i) 24).

Definition TIME_to_longlong_time_packed (t : MYSQL_TIME) : Z :=
  let hms := Z.lor (Z.lor (u32 (Z.shiftl (u32 (day t * 24 + hour t)) 12)) (u32 (Z.shiftl (minute t) 6)))
               (second t) in
  let tmp := to_ll (MY_PACKED_TIME_MAKE hms (second_part t)) in
  if neg t then - tmp else tmp.

Definition TIME_from_longlong_time_packed (tmp : Z) : MYSQL_TIME :=
  let ng := tmp <? 0 in
  let tmp := if ng then - tmp else tmp in
  let hms := MY_PACKED_TIME_GET_INT_PART tmp in
  mk_time 0 0 0 (u32 (Z.shiftr hms 12) mod 2 ^ 10) (u32 (Z.shiftr hms 6) mod 2 ^ 6) (u32 hms mod 2 ^ 6)
    (MY_PACKED_TIME_GET_FRAC_PART tmp) ng MYSQL_TIMESTAMP_TIME.

Definition TIME_to_longlong_datetime_packed (t : MYSQL_TIME) : Z :=
  let ymd := Z.lor (u32 (Z.shiftl (u32 (year t * 13 + month t)) 5)) (day t) in
  let hms := Z.lor (Z.lor (u32 (Z.shiftl (hour t) 12)) (u32 (Z.shiftl (minute t) 6))) (second t) in
  let tmp := to_ll (MY_PACKED_TIME_MAKE (Z.lor (Z.shiftl ymd 17) hms) (second_part t)) in
  if neg t then - tmp else tmp.

Definition TIME_from_longlong_datetime_packed (tmp : Z) : MYSQL_TIME :=
  let ng := tmp <? 0 in
  let tmp := if ng then - tmp else tmp in
  let ymdhms := MY_PACKED_TIME_GET_INT_PART tmp in
  let ymd := Z.shiftr ymdhms 17 in
  let ym := Z.shiftr ymd 5 in
  let hms := Z.rem ymdhms (2 ^ 17) in
  mk_time (u32 (Z.quot ym 13)) (u32 (Z.rem ym 13)) (u32 (Z.rem ymd (2 ^ 5)))
    (u32 (Z.shiftr hms 12)) (u32 (Z.rem (Z.shiftr hms 6) (2 ^ 6))) (u32 (Z.rem hms (2 ^ 6)))
    (MY_PACKED_TIME_GET_FRAC_PART tmp) ng MYSQL_TIMESTAMP_DATETIME.

(** ** TIME on disk *)

Definition my_time_binary_length (dec : nat) : nat := (3 + (dec + 1) / 2)%nat.

Definition TIMEF_OFS : Z := 0x800000000000.
Definition TIMEF_INT_OFS : Z := 0x800000.

(** [(unsigned char) (char) x] *)
Definition uchar_of (x : Z) : Z := x mod 256.

Definition my_time_packed_to_binary (nr : Z) (dec : nat) : list Z :=
  match dec with
  | 1%nat | 2%nat =>
      mi_int3store (TIMEF_INT_OFS + MY_PACKED_TIME_GET_INT_PART nr) ++
      [uchar_of (Z.quot (MY_PACKED_TIME_GET_FRAC_PART nr) 10000)]
  | 4%nat | 3%nat =>
      mi_int3store (TIMEF_INT_OFS + MY_PACKED_TIME_GET_INT_PART nr) ++
      mi_int2store (Z.quot (MY_PACKED_TIME_GET_FRAC_PART nr) 100)
  | 5%nat | 6%nat => mi_int6store (nr + TIMEF_OFS)
  | _ => mi_int3store (TIMEF_INT_OFS + MY_PACKED_TIME_GET_INT_PART nr)
  end.

Definition my_time_packed_from_binary (ptr : list Z) (dec : nat) : option Z :=
  match dec with
  | 1%nat | 2%nat =>
      i ← mi_uint3korr ptr;
      let intpart := i - TIMEF_INT_OFS in
      frac ← ptr !! 3%nat;
      Some (if (intpart <? 0) && negb (frac =? 0)
            then to_ll (MY_PACKED_TIME_MAKE (intpart + 1) ((frac - 0x100) * 10000))
            else to_ll (MY_PACKED_TIME_MAKE intpart (frac * 10000)))
  | 3%nat | 4%nat =>
      i ← mi_uint3korr ptr;
      let intpart := i - TIMEF_INT_OFS in
      frac ← mi_uint2korr (drop 3 ptr);
      Some (if (intpart <? 0) && negb (frac =? 0)
            then to_ll (MY_PACKED_TIME_MAKE (intpart + 1) ((frac - 0x10000) * 100))
            else to_ll (MY_PACKED_TIME_MAKE intpart (frac * 100)))
  | 5%nat | 6%nat => v ← mi_uint6korr ptr; Some (v - TIMEF_OFS)
  | _ => i ← mi_uint3korr ptr; Some (to_ll (MY_PACKED_TIME_MAKE_INT (i - TIMEF_INT_OFS)))
  end.

(** ** DATETIME on disk *)

Definition my_datetime_binary_length (dec : nat) : nat := (5 + (dec + 1) / 2)%nat.

Definition DATETIMEF_INT_OFS : Z := 0x8000000000.

Definition my_datetime_packed_from_binary (ptr : list Z) (dec : nat) : option Z :=
  i ← mi_uint5korr ptr;
  let intpart := i - DATETIMEF_INT_OFS in
  match dec with
  | 1%nat | 2%nat => f ← mi_sint1korr (drop 5 ptr); Some (to_ll (MY_PACKED_TIME_MAKE intpart (f * 10000)))
  | 3%nat | 4%nat => f ← mi_sint2korr (drop 5 ptr); Some (to_ll (MY_PACKED_TIME_MAKE intpart (f * 100)))
  | 5%nat | 6%nat => f ← mi_sint3korr (drop 5 ptr); Some (to_ll (MY_PACKED_TIME_MAKE intpart f))
  | _ => Some (to_ll (MY_PACKED_TIME_MAKE_INT intpart))
  end.

Definition my_datetime_packed_to_binary (nr : Z) (dec : nat) : list Z :=
  mi_int5store (MY_PACKED_TIME_GET_INT_PART nr + DATETIMEF_INT_OFS) ++
  match dec with
  | 1%nat | 2%nat => [uchar_of (Z.quot (MY_PACKED_TIME_GET_FRAC_PART nr) 10000)]
  | 3%nat | 4%nat => mi_int2store (Z.quot (MY_PACKED_TIME_GET_FRAC_PART nr) 100)
  | 5%nat | 6%nat => mi_int3store (MY_PACKED_TIME_GET_FRAC_PART nr)
  | _ => []
  end.

(** ** TIMESTAMP on disk *)

Record timeval := mk_timeval { tv_sec : Z; tv_usec : Z }.

Definition my_timestamp_binary_length (dec : nat) : nat := (4 + (dec + 1) / 2)%nat.

Definition my_max_usec_value : list Z := [0; 900000; 990000; 999000; 999900; 999990; 999999].

Definition my_timestamp_from_binary (ptr : list Z) (dec : nat) : option timeval :=
  sec ← mi_uint4korr ptr;
  match dec with
  | 1%nat | 2%nat =>
      f ← ptr !! 4%nat; m ← my_max_usec_value !! dec; Some (mk_timeval sec (Z.min (f * 10000) m))
  | 3%nat | 4%nat =>
      f ← mi_uint2korr (drop 4 ptr); m ← my_max_usec_value !! dec;
      Some (mk_timeval sec (Z.min (f * 100) m))
  | 5%nat | 6%nat =>
      f ← mi_uint3korr (drop 4 ptr); m ← my_max_usec_value !! dec; Some (mk_timeval sec (Z.min f m))
  | _ => Some (mk_timeval sec 0)
  end.

Definition my_timestamp_to_binary (tm : timeval) (dec : nat) : list Z :=
  mi_int4store (tv_sec tm) ++
  match dec with
  | 1%nat | 2%nat => [uchar_of (Z.quot (tv_usec tm) 10000)]
  | 3%nat | 4%nat => mi_int2store (Z.quot (tv_usec tm) 100)
  | 5%nat | 6%nat => mi_int3store (tv_usec tm)
  | _ => []
  end.

End TimeBinary.
