(* ===== verification/TimeBinaryProofs.v ===== *)
(** * Times on disk: reading back and ordering

    What is stored is read back, and the bytes of two values of a column, as
    [memcmp] compares them in an index, are ordered like the times. *)

From S2P Require Import Prelude MyTime Calendar TimeArith TimeArithProofs TimeBinary.
Import MyTime Calendar TimeArith TimeArithProofs TimeBinary.

#[local] Open Scope Z_scope.

Module TimeBinaryProofs.

(** ** Bytes, high byte first *)

Definition be (l : list Z) : Z := fold_left (fun a b => a * 256 + b) l 0.

Definition is_bytes (l : list Z) : Prop := Forall (fun b => 0 <= b < 256) l.

Fixpoint memcmp (a b : list Z) : comparison :=
  match a, b with
  | x :: a, y :: b => match x ?= y with Eq => memcmp a b | c => c end
  | _, _ => Eq
  end.

Lemma be_acc l : forall acc,
  fold_left (fun a b => a * 256 + b) l acc = acc * 256 ^ Z.of_nat (length l) + be l.
Proof.
  unfold be. induction l as [|x l IH]; intros acc; [simpl; lia|].
  cbn [fold_left length]. rewrite IH, (IH (0 * 256 + x)), Nat2Z.inj_succ, Z.pow_succ_r by lia. lia.
Qed.

Lemma be_cons x l : be (x :: l) = x * 256 ^ Z.of_nat (length l) + be l.
Proof. unfold be at 1. cbn [fold_left]. rewrite be_acc. lia. Qed.

Lemma be_app a b : be (a ++ b) = be a * 256 ^ Z.of_nat (length b) + be b.
Proof. unfold be at 1. rewrite fold_left_app. apply be_acc. Qed.

Lemma be_bounds l : is_bytes l -> 0 <= be l < 256 ^ Z.of_nat (length l).
Proof.
  induction 1 as [|x l Hx _ IH]; [unfold be; simpl; lia|].
  rewrite be_cons. cbn [length]. rewrite Nat2Z.inj_succ, Z.pow_succ_r by lia. nia.
Qed.

Lemma memcmp_be a : forall b,
  length a = length b -> is_bytes a -> is_bytes b -> memcmp a b = (be a ?= be b).
Proof.
  induction a as [|x a IH]; intros [|y b] Hl Ha Hb; try done.
  apply Forall_cons in Ha as [Hx Ha], Hb as [Hy Hb]. injection Hl as Hl.
  rewrite !be_cons, Hl, mixed_radix_compare; [|rewrite <- Hl|]; try by apply be_bounds.
  simpl. rewrite IH by done. by destruct (x ?= y).
Qed.

Lemma byte_of_eq v k : 0 <= k -> byte_of v k = v / 2 ^ k mod 256.
Proof. intros. unfold byte_of. rewrite Z.shiftr_div_pow2 by done. apply (Z.land_ones _ 8). lia. Qed.

Lemma byte_of_bytes v k : 0 <= byte_of v k < 256.
Proof. unfold byte_of. rewrite (Z.land_ones _ 8) by lia. apply Z.mod_pos_bound. lia. Qed.

Lemma store_bytes v :
  is_bytes (mi_int2store v) /\ is_bytes (mi_int3store v) /\ is_bytes (mi_int4store v) /\
  is_bytes (mi_int5store v) /\ is_bytes (mi_int6store v).
Proof. repeat split; repeat constructor; apply byte_of_bytes. Qed.

Lemma store_be v :
  (0 <= v < 2 ^ 24 -> be (mi_int3store v) = v) /\ (0 <= v < 2 ^ 32 -> be (mi_int4store v) = v) /\
  (0 <= v < 2 ^ 40 -> be (mi_int5store v) = v) /\ (0 <= v < 2 ^ 48 -> be (mi_int6store v) = v) /\
  be (mi_int2store v) = v mod 2 ^ 16.
Proof.
  unfold mi_int2store, mi_int3store, mi_int4store, mi_int5store, mi_int6store, be. cbn [fold_left].
  rewrite !byte_of_eq by lia. rewrite !Z.shiftr_div_pow2 by lia.
  repeat split; try intros Hv; unfold u32, u64; dlia.
Qed.

(** Disjoint bits. *)
Lemma lor_add a b k : 0 <= k -> 0 <= b < 2 ^ k -> Z.lor b (Z.shiftl a k) = a * 2 ^ k + b.
Proof.
  intros Hk Hb.
  assert (Z.land b (Z.shiftl a k) = 0) as Hl.
  { apply Z.bits_inj'. intros n Hn. rewrite Z.land_spec, Z.bits_0.
    destruct (Z.lt_ge_cases n k); [rewrite Z.shiftl_spec_low by lia; apply andb_false_r|].
    rewrite <- (Z.mod_small b (2 ^ k)) by lia. by rewrite Z.mod_pow2_bits_high by lia. }
  rewrite <- Z.lxor_lor by done. rewrite <- Z.add_nocarry_lxor by done.
  rewrite Z.shiftl_mul_pow2 by done. lia.
Qed.

Lemma lor_add' a b k : 0 <= k -> 0 <= b < 2 ^ k -> Z.lor (Z.shiftl a k) b = a * 2 ^ k + b.
Proof. intros. rewrite Z.lor_comm. by apply lor_add. Qed.

Lemma bytes_cons x l : is_bytes (x :: l) -> 0 <= x < 256 /\ is_bytes l.
Proof. intros H. by apply Forall_cons in H. Qed.

(** The readings give the number of the bytes. *)
Lemma korr_be l rest : is_bytes l ->
  (length l = 2%nat -> mi_uint2korr (l ++ rest) = Some (be l)) /\
  (length l = 3%nat -> mi_uint3korr (l ++ rest) = Some (be l)) /\
  (length l = 4%nat -> mi_uint4korr (l ++ rest) = Some (be l)) /\
  (length l = 5%nat -> mi_uint5korr (l ++ rest) = Some (be l)) /\
  (length l = 6%nat -> mi_uint6korr (l ++ rest) = Some (be l)).
Proof.
  intros Hl. repeat split; intros Hn;
    repeat (destruct l as [|? l]; simpl in Hn; try discriminate Hn);
    repeat match goal with H : is_bytes (_ :: _) |- _ => apply bytes_cons in H as [? ?] end;
    unfold be; cbn [fold_left app mi_uint2korr mi_uint3korr mi_uint4korr mi_uint5korr mi_uint6korr];
    f_equal; rewrite ?(lor_add _ _ 8) by lia; rewrite ?(lor_add _ _ 16) by lia;
    rewrite ?(lor_add _ _ 24) by lia; rewrite ?(lor_add _ _ 32) by lia; lia.
Qed.

(** ** TIME *)

(** The unit of the fraction as it is stored, and the bytes it takes. *)
Definition unit (dec : nat) : Z :=
  default 1 ([1000000; 10000; 10000; 100; 100; 1; 1] !! dec).
Definition frac_bytes (dec : nat) : nat := ((dec + 1) / 2)%nat.

(** Evaluates the powers and units that belong to a number of digits. *)
Ltac norm_dec :=
  repeat match goal with
  | |- context [256 ^ Z.of_nat ?n] =>
      let v := eval vm_compute in (256 ^ Z.of_nat n) in change (256 ^ Z.of_nat n) with v
  | |- context [unit ?n] => let v := eval vm_compute in (unit n) in change (unit n) with v
  | H : context [unit ?n] |- _ => let v := eval vm_compute in (unit n) in change (unit n) with v in H
  end.

Ltac each_dec dec :=
  assert (dec = 0 \/ dec = 1 \/ dec = 2 \/ dec = 3 \/ dec = 4 \/ dec = 5 \/ dec = 6)%nat
    as [->|[->|[->|[->|[->|[->| ->]]]]]] by lia.

Lemma make_eq a b : - 2 ^ 38 <= a < 2 ^ 39 -> - 2 ^ 24 <= b < 2 ^ 24 ->
  to_ll (MY_PACKED_TIME_MAKE a b) = a * 2 ^ 24 + b.
Proof.
  intros Ha Hb. unfold MY_PACKED_TIME_MAKE. rewrite to_ll_u64.
  rewrite <- (to_ll_small (a * 2 ^ 24 + b)) by lia. unfold to_ll, u64. f_equal.
  rewrite Z.shiftl_mul_pow2, <- Z.add_assoc, Zplus_mod_idemp_l by lia.
  rewrite <- Zplus_mod_idemp_l, Zmult_mod_idemp_l, Zplus_mod_idemp_l. f_equal. lia.
Qed.

Lemma make_int_eq a : - 2 ^ 38 <= a < 2 ^ 39 -> to_ll (MY_PACKED_TIME_MAKE_INT a) = a * 2 ^ 24.
Proof.
  intros Ha. rewrite <- (Z.add_0_r (a * _)), <- make_eq by lia.
  unfold MY_PACKED_TIME_MAKE, MY_PACKED_TIME_MAKE_INT. rewrite to_ll_u64, Z.add_0_r.
  by rewrite !to_ll_u64.
Qed.

(** A packed number: sign, integral part and fraction. *)
Definition packed (ng : bool) (i f : Z) : Z := if ng then - (i * 2 ^ 24 + f) else i * 2 ^ 24 + f.

(** The fraction of a negative number is stored negated. *)
Lemma join_fraction ng i f n u :
  0 <= i < 2 ^ 22 -> 0 <= f < 1000000 -> (ng = true -> 0 < i * 2 ^ 24 + f) ->
  (n = 256 /\ u = 10000) \/ (n = 65536 /\ u = 100) -> f mod u = 0 ->
  let frac := Z.quot (Z.rem (packed ng i f) (2 ^ 24)) u mod n in
  (if (packed ng i f / 2 ^ 24 <? 0) && negb (frac =? 0)
   then to_ll (MY_PACKED_TIME_MAKE (packed ng i f / 2 ^ 24 + 1) ((frac - n) * u))
   else to_ll (MY_PACKED_TIME_MAKE (packed ng i f / 2 ^ 24) (frac * u))) = packed ng i f.
Proof.
  intros Hi Hf Hneg Hn Hu. cbv zeta.
  assert (- 2 ^ 38 <= packed ng i f / 2 ^ 24 < 2 ^ 38 - 1) as Bi
    by (unfold packed; clear - Hi Hf; destruct ng; dlia).
  assert (forall x, 0 <= x mod n < n) as Bf by (intros; apply Z.mod_pos_bound; lia).
  specialize (Bf (Z.quot (Z.rem (packed ng i f) (2 ^ 24)) u)).
  rewrite !make_eq by (clear Hu; destruct Hn as [[-> ->]|[-> ->]]; lia).
  unfold packed in *. clear Bi Bf. destruct ng; [specialize (Hneg eq_refl)|].
  - replace (- (i * 2 ^ 24 + f) / 2 ^ 24 <? 0) with true by (clear Hu; dlia). cbn [andb].
    destruct Hn as [[-> ->]|[-> ->]];
      match goal with |- context [?x =? 0] => destruct (Z.eqb_spec x 0) end; cbn [negb]; dlia.
  - replace ((i * 2 ^ 24 + f) / 2 ^ 24 <? 0) with false by (clear Hu; dlia). cbn [andb].
    destruct Hn as [[-> ->]|[-> ->]]; dlia.
Qed.

Section packed.
Context (ng : bool) (i f : Z) (dec : nat).
Hypothesis (Hdec : (dec <= 6)%nat) (Hi : 0 <= i < 2 ^ 22) (Hf : 0 <= f < 1000000)
  (Hunit : f mod unit dec = 0) (Hneg : ng = true -> 0 < i * 2 ^ 24 + f).

#[local] Notation packed := (packed ng i f).

(** The number of the bytes on disk. *)
Definition on_disk : Z :=
  let n := i * 256 ^ Z.of_nat (frac_bytes dec) + f / unit dec in if ng then - n else n.

Lemma time_to_binary_be :
  is_bytes (my_time_packed_to_binary packed dec) /\
  length (my_time_packed_to_binary packed dec) = my_time_binary_length dec /\
  be (my_time_packed_to_binary packed dec) =
    TIMEF_INT_OFS * 256 ^ Z.of_nat (frac_bytes dec) + on_disk.
Proof.
  unfold my_time_packed_to_binary, MY_PACKED_TIME_GET_INT_PART, MY_PACKED_TIME_GET_FRAC_PART.
  rewrite Z.shiftr_div_pow2 by lia.
  assert (0 <= TIMEF_INT_OFS + packed / 2 ^ 24 < 2 ^ 24) as B
    by (unfold TIMEF_INT_OFS, packed; destruct ng; dlia).
  destruct (store_be (TIMEF_INT_OFS + packed / 2 ^ 24)) as (E3 & _). specialize (E3 B).
  assert (0 <= packed + TIMEF_OFS < 2 ^ 48) as B6 by (unfold TIMEF_OFS, packed; destruct ng; lia).
  destruct (store_be (packed + TIMEF_OFS)) as (_ & _ & _ & E6 & _). specialize (E6 B6).
  destruct (store_bytes (TIMEF_INT_OFS + packed / 2 ^ 24)) as (_ & F3 & _).
  destruct (store_bytes (packed + TIMEF_OFS)) as (_ & _ & _ & _ & F6).
  destruct (store_bytes (Z.quot (Z.rem packed (2 ^ 24)) 100)) as (F2 & _).
  destruct (store_be (Z.quot (Z.rem packed (2 ^ 24)) 100)) as (_ & _ & _ & _ & E2).
  assert (is_bytes [uchar_of (Z.quot (Z.rem packed (2 ^ 24)) 10000)]) as F1
    by (constructor; [apply Z.mod_pos_bound; lia|constructor]).
  unfold on_disk. revert Hunit. clear - Hdec Hi Hf Hneg E3 E6 F3 F6 F2 E2 F1. each_dec dec; intros Hunit.
  all: split; [first [done|by apply Forall_app]|split; [done|]].
  all: rewrite ?be_app, ?E3, ?E2, ?E6; change (be [uchar_of ?x]) with (0 * 256 + uchar_of x).
  all: unfold TIMEF_INT_OFS, TIMEF_OFS, uchar_of, packed; norm_dec; clear E3 E6 F3 F6 F2 E2 F1.
  all: destruct ng; [specialize (Hneg eq_refl)|clear Hneg]; dlia.
Qed.

Lemma time_binary_packed :
  my_time_packed_from_binary (my_time_packed_to_binary packed dec) dec = Some packed.
Proof.
  unfold my_time_packed_to_binary, MY_PACKED_TIME_GET_INT_PART, MY_PACKED_TIME_GET_FRAC_PART.
  rewrite Z.shiftr_div_pow2 by lia.
  assert (0 <= TIMEF_INT_OFS + packed / 2 ^ 24 < 2 ^ 24) as B
    by (unfold TIMEF_INT_OFS, packed; destruct ng; dlia).
  destruct (store_be (TIMEF_INT_OFS + packed / 2 ^ 24)) as (E3 & _). specialize (E3 B).
  assert (0 <= packed + TIMEF_OFS < 2 ^ 48) as B6 by (unfold TIMEF_OFS, packed; destruct ng; lia).
  destruct (store_be (packed + TIMEF_OFS)) as (_ & _ & _ & E6 & _). specialize (E6 B6).
  destruct (store_bytes (TIMEF_INT_OFS + packed / 2 ^ 24)) as (_ & F3 & _).
  destruct (store_bytes (packed + TIMEF_OFS)) as (_ & _ & _ & _ & F6).
  destruct (store_bytes (Z.quot (Z.rem packed (2 ^ 24)) 100)) as (F2 & _).
  destruct (store_be (Z.quot (Z.rem packed (2 ^ 24)) 100)) as (_ & _ & _ & _ & E2).
  assert (forall rest, mi_uint3korr (mi_int3store (TIMEF_INT_OFS + packed / 2 ^ 24) ++ rest) =
    Some (TIMEF_INT_OFS + packed / 2 ^ 24)) as K3
    by (intros; rewrite <- E3 at 2; by apply korr_be).
  pose proof (K3 []) as K3n. rewrite app_nil_r in K3n.
  revert Hunit. clear - Hdec Hi Hf Hneg E6 F6 F2 E2 K3 K3n B. each_dec dec; intros Hunit;
    cbn [my_time_packed_from_binary]; rewrite ?K3, ?K3n; cbn [mbind option_bind];
    rewrite ?Z.add_simpl_l.
  1: { rewrite make_int_eq; unfold packed in *; norm_dec; f_equal; destruct ng; dlia. }
  5, 6: rewrite <- (app_nil_r (mi_int6store _)); rewrite (proj2 (proj2 (proj2 (proj2 (korr_be _ [] F6)))) eq_refl);
    simpl; rewrite E6; f_equal; lia.
  1, 2: change ((_ ++ [?c]) !! 3%nat) with (Some c); cbn [mbind option_bind]; f_equal;
    apply join_fraction; (done || lia).
  1, 2: change (drop 3 (mi_int3store ?v ++ ?r)) with r; rewrite <- (app_nil_r (mi_int2store _));
    rewrite (proj1 (korr_be _ [] F2) eq_refl), E2; cbn [mbind option_bind]; f_equal;
    apply join_fraction; (done || lia).
Qed.

End packed.

(** The fraction has at most [dec] digits. *)
Definition truncated (t : MYSQL_TIME) (dec : nat) : Prop := second_part t mod 10 ^ (6 - Z.of_nat dec) = 0.

Lemma truncated_unit t dec : (dec <= 6)%nat -> truncated t dec -> second_part t mod unit dec = 0.
Proof. unfold truncated. intros Hd. each_dec dec; simpl; intros H; norm_dec; simpl in H; dlia. Qed.

Definition hms (t : MYSQL_TIME) : Z := (hour t * 64 + minute t) * 64 + second t.

Definition signed_us (t : MYSQL_TIME) : Z := if neg t then - us_of_day t else us_of_day t.

Lemma us_of_day_eq t : us_of_day t = ((hour t * 60 + minute t) * 60 + second t) * 1000000 + second_part t.
Proof. unfold us_of_day, COMBINE. lia. Qed.

Lemma shiftl_lor a k b m c :
  0 <= k -> 0 <= m -> 0 <= c < 2 ^ m -> 0 <= b * 2 ^ m + c < 2 ^ k ->
  Z.lor (Z.lor (Z.shiftl a k) (Z.shiftl b m)) c = a * 2 ^ k + b * 2 ^ m + c.
Proof.
  intros Hk Hm Hc Hb. rewrite <- Z.lor_assoc, (lor_add' b) by done.
  rewrite lor_add' by lia. lia.
Qed.

Lemma time_packed_eq t : valid_time t ->
  TIME_to_longlong_time_packed t = packed (neg t) (hms t) (second_part t) /\
  0 <= hms t < 2 ^ 22 /\ (neg t = true -> 0 < hms t * 2 ^ 24 + second_part t).
Proof.
  intros [(_ & _ & Ed) Bh Bmi Bs Bu Hn _]. unfold TIME_MAX_HOUR, TIME_MAX_SECOND_PART in *.
  assert (0 <= hms t < 2 ^ 22) as B by (unfold hms; lia). split; [|split; [done|]].
  - unfold TIME_to_longlong_time_packed. rewrite Ed, Z.mul_0_l, Z.add_0_l.
    rewrite (u32_small (hour t)) by lia. rewrite (u32_small (Z.shiftl _ _)), (u32_small (Z.shiftl _ _))
      by (rewrite Z.shiftl_mul_pow2 by lia; lia).
    rewrite shiftl_lor by lia.
    replace (hour t * 2 ^ 12 + minute t * 2 ^ 6 + second t) with (hms t) by (unfold hms; lia).
    rewrite make_eq by lia. unfold packed. by destruct (neg t).
  - intros E. specialize (Hn E). rewrite us_of_day_eq in Hn. unfold hms. lia.
Qed.

Lemma time_packed_unpack t : valid_time t ->
  TIME_from_longlong_time_packed (packed (neg t) (hms t) (second_part t)) = t.
Proof.
  intros Ht. destruct (time_packed_eq t Ht) as (_ & B & Hn0).
  destruct Ht as [(Ey & Em & Ed) Bh Bmi Bs Bu Hn Hty]. unfold TIME_MAX_HOUR, TIME_MAX_SECOND_PART in *.
  unfold TIME_from_longlong_time_packed, MY_PACKED_TIME_GET_INT_PART, MY_PACKED_TIME_GET_FRAC_PART.
  assert ((packed (neg t) (hms t) (second_part t) <? 0) = neg t) as ->.
  { unfold packed. destruct (neg t); [specialize (Hn0 eq_refl)|]; lia. }
  replace (if neg t then - packed (neg t) (hms t) (second_part t) else packed (neg t) (hms t) (second_part t))
    with (hms t * 2 ^ 24 + second_part t) by (unfold packed; destruct (neg t); lia).
  rewrite !Z.shiftr_div_pow2, radix_div, Z.rem_mod_nonneg, radix_mod by lia. unfold hms.
  destruct t; simpl in *; subst. rewrite !u32_small by dlia. f_equal; dlia.
Qed.

Lemma compare_opp_both x y : (- x ?= - y) = (y ?= x).
Proof.
  destruct (Z.compare_spec y x); [subst; apply Z.compare_refl|apply Z.compare_lt_iff; lia|
    apply Z.compare_gt_iff; lia].
Qed.

Lemma hms_order a b : valid_time a -> valid_time b ->
  (hms a ?= hms b) = ((hour a * 60 + minute a) * 60 + second a ?= (hour b * 60 + minute b) * 60 + second b).
Proof. intros [] []. unfold hms. rewrite !mixed_radix_compare by lia. done. Qed.

Lemma unit_order f g u : 0 < u -> f mod u = 0 -> g mod u = 0 -> (f / u ?= g / u) = (f ?= g).
Proof.
  intros Hu Hf Hg. pose proof (Z.div_mod f u ltac:(lia)). pose proof (Z.div_mod g u ltac:(lia)).
  destruct (Z.compare_spec f g); [by subst; apply Z.compare_refl|apply Z.compare_lt_iff; nia|
    apply Z.compare_gt_iff; nia].
Qed.

Lemma unit_pos dec : (dec <= 6)%nat ->
  0 < unit dec /\ 1000000 <= unit dec * 256 ^ Z.of_nat (frac_bytes dec).
Proof. intros Hd. each_dec dec; vm_compute; split; done. Qed.

Lemma frac_small f dec : (dec <= 6)%nat -> 0 <= f < 1000000 ->
  0 <= f / unit dec < 256 ^ Z.of_nat (frac_bytes dec).
Proof.
  intros Hd Hf. destruct (unit_pos dec Hd) as [Hu Hb]. split; [apply Z.div_pos; lia|].
  apply Z.div_lt_upper_bound; lia.
Qed.

(** The numbers on disk of two magnitudes. *)
Lemma disk_order a b dec : (dec <= 6)%nat -> valid_time a -> valid_time b ->
  truncated a dec -> truncated b dec ->
  (hms a * 256 ^ Z.of_nat (frac_bytes dec) + second_part a / unit dec ?=
   hms b * 256 ^ Z.of_nat (frac_bytes dec) + second_part b / unit dec) = (us_of_day a ?= us_of_day b).
Proof.
  intros Hd Ha Hb Ta Tb. pose proof (vt_us _ Ha) as Ua. pose proof (vt_us _ Hb) as Ub.
  unfold TIME_MAX_SECOND_PART in *. rewrite !us_of_day_eq.
  rewrite !mixed_radix_compare by (first [lia|apply frac_small; [done|lia]]).
  rewrite hms_order by done. destruct (unit_pos dec Hd) as [Hu _].
  by rewrite unit_order by (done || by apply truncated_unit).
Qed.

Lemma us_nonneg t : valid_time t -> 0 <= us_of_day t.
Proof. intros []. rewrite us_of_day_eq. lia. Qed.

Lemma disk_nonneg t dec : (dec <= 6)%nat -> valid_time t ->
  0 <= hms t * 256 ^ Z.of_nat (frac_bytes dec) + second_part t / unit dec.
Proof.
  intros Hd Ht. destruct (time_packed_eq t Ht) as (_ & B & _). pose proof (vt_us _ Ht) as Bu.
  unfold TIME_MAX_SECOND_PART in Bu. pose proof (frac_small (second_part t) dec Hd ltac:(lia)). nia.
Qed.

Lemma disk_positive t dec : (dec <= 6)%nat -> valid_time t -> truncated t dec -> 0 < us_of_day t ->
  0 < hms t * 256 ^ Z.of_nat (frac_bytes dec) + second_part t / unit dec.
Proof.
  intros Hd Ht Htr Hp. pose proof (vt_us _ Ht) as Bu. unfold TIME_MAX_SECOND_PART in Bu.
  pose proof (frac_small (second_part t) dec Hd ltac:(lia)) as Bf.
  destruct (unit_pos dec Hd) as [Hu _]. pose proof (truncated_unit t dec Hd Htr) as Hm.
  pose proof (Z.div_mod (second_part t) (unit dec) ltac:(lia)).
  destruct Ht. rewrite us_of_day_eq in Hp.
  destruct (decide (hms t = 0)) as [E|E]; [|assert (0 < hms t) by (unfold hms in *; lia); nia].
  assert (0 < second_part t) by (unfold hms in E; lia). nia.
Qed.

(** The bytes of a TIME column. *)
Definition time_bytes (t : MYSQL_TIME) (dec : nat) : list Z :=
  my_time_packed_to_binary (TIME_to_longlong_time_packed t) dec.

Lemma time_bytes_spec t dec : (dec <= 6)%nat -> valid_time t -> truncated t dec ->
  is_bytes (time_bytes t dec) /\ length (time_bytes t dec) = my_time_binary_length dec /\
  be (time_bytes t dec) = TIMEF_INT_OFS * 256 ^ Z.of_nat (frac_bytes dec) +
    on_disk (neg t) (hms t) (second_part t) dec /\
  my_time_packed_from_binary (time_bytes t dec) dec = Some (packed (neg t) (hms t) (second_part t)).
Proof.
  intros Hd Ht Htr. destruct (time_packed_eq t Ht) as (E & Bh & Hn). pose proof (vt_us _ Ht) as Bu.
  unfold TIME_MAX_SECOND_PART in Bu. pose proof (truncated_unit t dec Hd Htr) as Hu.
  unfold time_bytes. rewrite E.
  destruct (time_to_binary_be (neg t) (hms t) (second_part t) dec Hd Bh ltac:(lia) Hu Hn) as (? & ? & ?).
  split; [done|]. split; [done|]. split; [done|]. apply time_binary_packed; (done || lia).
Qed.

Lemma time_bytes_order a b dec : (dec <= 6)%nat -> valid_time a -> valid_time b ->
  truncated a dec -> truncated b dec ->
  memcmp (time_bytes a dec) (time_bytes b dec) = (signed_us a ?= signed_us b).
Proof.
  intros Hd Ha Hb Ta Tb.
  destruct (time_bytes_spec a dec Hd Ha Ta) as (Fa & La & Ea & _).
  destruct (time_bytes_spec b dec Hd Hb Tb) as (Fb & Lb & Eb & _).
  rewrite memcmp_be by (done || congruence). rewrite Ea, Eb, Z.add_compare_mono_l.
  pose proof (disk_order a b dec Hd Ha Hb Ta Tb) as O. unfold on_disk, signed_us.
  pose proof (disk_order b a dec Hd Hb Ha Tb Ta) as O'.
  pose proof (disk_nonneg a dec Hd Ha). pose proof (disk_nonneg b dec Hd Hb).
  pose proof (disk_positive a dec Hd Ha Ta) as Pa. pose proof (disk_positive b dec Hd Hb Tb) as Pb.
  pose proof (vt_neg _ Ha) as Na. pose proof (vt_neg _ Hb) as Nb.
  pose proof (us_nonneg a Ha). pose proof (us_nonneg b Hb).
  destruct (neg a), (neg b); rewrite ?compare_opp_both; [done| | |done].
  - specialize (Na eq_refl). specialize (Pa Na). transitivity Lt; [|symmetry]; apply Z.compare_lt_iff; lia.
  - specialize (Nb eq_refl). specialize (Pb Nb). transitivity Gt; [|symmetry]; apply Z.compare_gt_iff; lia.
Qed.

(** the bytes of a TIME value, for each precision, have the length the
    length function returns, are read back as the value, and are ordered by
    [memcmp] like the times, negative ones included. *)
Theorem time_binary_correct dec : (dec <= 6)%nat ->
  (forall t, valid_time t -> truncated t dec ->
    length (time_bytes t dec) = my_time_binary_length dec /\
    (nr ← my_time_packed_from_binary (time_bytes t dec) dec;
     Some (TIME_from_longlong_time_packed nr)) = Some t) /\
  (forall a b, valid_time a -> valid_time b -> truncated a dec -> truncated b dec ->
    memcmp (time_bytes a dec) (time_bytes b dec) = (signed_us a ?= signed_us b)).
Proof.
  intros Hd. split.
  - intros t Ht Htr. destruct (time_bytes_spec t dec Hd Ht Htr) as (_ & Hl & _ & ->).
    split; [done|]. cbn [mbind option_bind]. by rewrite time_packed_unpack.
  - intros. by apply time_bytes_order.
Qed.

(** ** DATETIME *)

Definition ymdhms (t : MYSQL_TIME) : Z :=
  ((date_key (year t) (month t) (day t) * 32 + hour t) * 64 + minute t) * 64 + second t.

Lemma ymdhms_bounds t : valid_datetime t -> 0 <= ymdhms t < 2 ^ 39.
Proof.
  intros Ht. pose proof (valid_date_key _ _ _ (vd_date _ Ht)). destruct Ht. unfold ymdhms, date_key. lia.
Qed.

Lemma datetime_packed_eq t : valid_datetime t ->
  TIME_to_longlong_datetime_packed t = ymdhms t * 2 ^ 24 + second_part t.
Proof.
  intros Ht. pose proof (ymdhms_bounds t Ht) as B. pose proof (valid_date_key _ _ _ (vd_date _ Ht)) as Bk.
  destruct Ht as [_ Bh Bmi Bs Bu Hn _]. unfold TIME_MAX_SECOND_PART in Bu.
  unfold TIME_to_longlong_datetime_packed. rewrite Hn. rewrite (u32_small (year t * 13 + month t)) by lia.
  rewrite !u32_small by (rewrite Z.shiftl_mul_pow2 by lia; lia).
  rewrite (lor_add' (year t * 13 + month t)), shiftl_lor, lor_add' by lia.
  match goal with |- context [MY_PACKED_TIME_MAKE ?x _] => replace x with (ymdhms t)
    by (unfold ymdhms, date_key; lia) end.
  apply make_eq; lia.
Qed.

Lemma datetime_unpack t : valid_datetime t -> time_type t = MYSQL_TIMESTAMP_DATETIME ->
  TIME_from_longlong_datetime_packed (ymdhms t * 2 ^ 24 + second_part t) = t.
Proof.
  intros Ht Hty. pose proof (ymdhms_bounds t Ht) as B. pose proof (valid_date_key _ _ _ (vd_date _ Ht)) as Bk.
  destruct Ht as [_ Bh Bmi Bs Bu Hn _]. unfold TIME_MAX_SECOND_PART in Bu.
  unfold TIME_from_longlong_datetime_packed, MY_PACKED_TIME_GET_INT_PART, MY_PACKED_TIME_GET_FRAC_PART.
  replace (ymdhms t * 2 ^ 24 + second_part t <? 0) with false by lia.
  rewrite !Z.shiftr_div_pow2, radix_div by lia.
  rewrite (Z.rem_mod_nonneg (ymdhms t * 2 ^ 24 + second_part t)), radix_mod by lia.
  assert (ymdhms t / 2 ^ 17 = date_key (year t) (month t) (day t)) as -> by (unfold ymdhms; dlia).
  assert (Z.rem (ymdhms t) (2 ^ 17) = (hour t * 64 + minute t) * 64 + second t) as ->
    by (rewrite Z.rem_mod_nonneg by lia; unfold ymdhms; dlia).
  unfold date_key. rewrite !radix_div, Z.quot_div_nonneg, radix_div by lia.
  rewrite !Z.rem_mod_nonneg, !radix_mod by dlia. rewrite !u32_small by dlia.
  destruct t; simpl in *; subst. f_equal; dlia.
Qed.

Section datetime.
Context (I f : Z) (dec : nat) (Hdec : (dec <= 6)%nat) (HI : 0 <= I < 2 ^ 39)
  (Hf : 0 <= f < 1000000) (Hunit : f mod unit dec = 0).

Lemma int_part_eq : MY_PACKED_TIME_GET_INT_PART (I * 2 ^ 24 + f) = I.
Proof. unfold MY_PACKED_TIME_GET_INT_PART. rewrite Z.shiftr_div_pow2 by lia. apply radix_div. lia. Qed.

Lemma frac_part_eq : MY_PACKED_TIME_GET_FRAC_PART (I * 2 ^ 24 + f) = f.
Proof. unfold MY_PACKED_TIME_GET_FRAC_PART. rewrite Z.rem_mod_nonneg by lia. apply radix_mod. lia. Qed.

(** The bytes of the fraction alone. *)
Definition frac_bytes_of : list Z :=
  match dec with
  | 1%nat | 2%nat => [uchar_of (Z.quot f 10000)]
  | 3%nat | 4%nat => mi_int2store (Z.quot f 100)
  | 5%nat | 6%nat => mi_int3store f
  | _ => []
  end.

Lemma frac_bytes_of_spec :
  is_bytes frac_bytes_of /\ length frac_bytes_of = frac_bytes dec /\ be frac_bytes_of = f / unit dec.
Proof.
  unfold frac_bytes_of. revert Hunit.
  destruct (store_bytes (Z.quot f 100)) as (F2 & _). destruct (store_bytes f) as (_ & F3 & _).
  destruct (store_be (Z.quot f 100)) as (_ & _ & _ & _ & E2). destruct (store_be f) as (E3 & _).
  each_dec dec; intros Hu; (split; [first [done|apply Forall_nil_2|constructor; [apply Z.mod_pos_bound; lia|constructor]]|]);
    (split; [done|]).
  all: norm_dec; rewrite ?E2, ?E3 by lia; change (be [uchar_of ?x]) with (0 * 256 + uchar_of x);
    change (be []) with 0; unfold uchar_of; rewrite ?Z.quot_div_nonneg by lia; dlia.
Qed.

Lemma datetime_to_binary_eq :
  my_datetime_packed_to_binary (I * 2 ^ 24 + f) dec = mi_int5store (I + DATETIMEF_INT_OFS) ++ frac_bytes_of.
Proof. unfold my_datetime_packed_to_binary. by rewrite int_part_eq, frac_part_eq. Qed.

Lemma datetime_to_binary_be :
  let b := my_datetime_packed_to_binary (I * 2 ^ 24 + f) dec in
  is_bytes b /\ length b = my_datetime_binary_length dec /\
  be b = (I + DATETIMEF_INT_OFS) * 256 ^ Z.of_nat (frac_bytes dec) + f / unit dec.
Proof.
  cbv zeta. rewrite datetime_to_binary_eq.
  destruct frac_bytes_of_spec as (Ff & Lf & Ef). destruct (store_bytes (I + DATETIMEF_INT_OFS)) as (_ & _ & _ & F5 & _).
  destruct (store_be (I + DATETIMEF_INT_OFS)) as (_ & _ & E5 & _). unfold DATETIMEF_INT_OFS in *.
  split; [by apply Forall_app|]. rewrite length_app, Lf, be_app, Lf, Ef, E5 by lia. done.
Qed.

End datetime.

Lemma datetime_from_binary_eq I f dec :
  (dec <= 6)%nat -> 0 <= I < 2 ^ 39 -> 0 <= f < 1000000 -> f mod unit dec = 0 ->
  my_datetime_packed_from_binary (my_datetime_packed_to_binary (I * 2 ^ 24 + f) dec) dec = Some (I * 2 ^ 24 + f).
Proof.
  intros Hdec HI Hf Hunit. rewrite datetime_to_binary_eq by done.
  destruct (frac_bytes_of_spec I f dec Hdec HI Hf Hunit) as (Ff & Lf & Ef).
  destruct (store_bytes (I + DATETIMEF_INT_OFS)) as (_ & _ & _ & F5 & _).
  destruct (store_be (I + DATETIMEF_INT_OFS)) as (_ & _ & E5 & _).
  unfold my_datetime_packed_from_binary.
  destruct (korr_be _ (frac_bytes_of f dec) F5) as (_ & _ & _ & K5 & _).
  rewrite K5, E5 by (done || unfold DATETIMEF_INT_OFS; lia).
  cbn [mbind option_bind]. rewrite Z.add_simpl_r.
  change (drop 5 (mi_int5store ?v ++ ?r)) with r.
  destruct (korr_be _ [] Ff) as (K2 & K3 & _). rewrite app_nil_r in K2, K3. rewrite Lf, Ef in *.
  clear K5 E5 F5 Lf Ff. revert Hunit. each_dec dec; intros Hu; unfold mi_sint2korr, mi_sint3korr;
    rewrite ?K2, ?K3 by done; norm_dec; cbn [mbind option_bind].
  1: { rewrite make_int_eq by lia. f_equal. dlia. }
  1, 2: simpl; unfold uchar_of; rewrite Z.quot_div_nonneg, Z.mod_small by dlia;
    replace (f / 10000 <? 128) with true by dlia; rewrite make_eq by dlia; f_equal; dlia.
  1, 2: replace (f / 100 <? 2 ^ 15) with true by dlia; rewrite make_eq by dlia; f_equal; dlia.
  all: cbn [frac_bytes_of mi_int3store]; replace (Z.land (byte_of (u64 f) 16) 128 =? 0) with true;
    [cbn [mbind option_bind]; rewrite make_eq by dlia; f_equal; dlia|].
  all: symmetry; apply Z.eqb_eq; rewrite byte_of_eq, u64_small by lia.
  all: rewrite <- (Z.mod_small (f / 2 ^ 16 mod 256) (2 ^ 7)) by dlia.
  all: rewrite <- Z.land_ones, <- Z.land_assoc by lia; apply Z.land_0_r.
Qed.

(** The bytes of a DATETIME column. *)
Definition datetime_bytes (t : MYSQL_TIME) (dec : nat) : list Z :=
  my_datetime_packed_to_binary (TIME_to_longlong_datetime_packed t) dec.

Lemma datetime_bytes_spec t dec : (dec <= 6)%nat -> valid_datetime t -> truncated t dec ->
  is_bytes (datetime_bytes t dec) /\ length (datetime_bytes t dec) = my_datetime_binary_length dec /\
  be (datetime_bytes t dec) =
    (ymdhms t + DATETIMEF_INT_OFS) * 256 ^ Z.of_nat (frac_bytes dec) + second_part t / unit dec /\
  my_datetime_packed_from_binary (datetime_bytes t dec) dec = Some (ymdhms t * 2 ^ 24 + second_part t).
Proof.
  intros Hd Ht Htr. pose proof (ymdhms_bounds t Ht) as B. pose proof (vd_us _ Ht) as Bu.
  unfold TIME_MAX_SECOND_PART in Bu. pose proof (truncated_unit t dec Hd Htr) as Hu.
  unfold datetime_bytes. rewrite datetime_packed_eq by done.
  destruct (datetime_to_binary_be (ymdhms t) (second_part t) dec) as (? & ? & ?); [done|done|lia|done|].
  split; [done|]. split; [done|]. split; [done|]. apply datetime_from_binary_eq; (done || lia).
Qed.

Lemma ymdhms_order a b : valid_datetime a -> valid_datetime b ->
  (ymdhms a * 1000000 + second_part a ?= ymdhms b * 1000000 + second_part b) = (total a ?= total b).
Proof.
  intros Ha Hb. rewrite <- pack_order by done.
  destruct (pack_time_eq a Ha) as [-> _], (pack_time_eq b Hb) as [-> _].
  destruct Ha, Hb. unfold ymdhms, day_us, TIME_MAX_SECOND_PART in *. rewrite !us_of_day_eq.
  replace (date_key (year a) (month a) (day a) * (86400 * 1000000) + _) with
    ((((date_key (year a) (month a) (day a) * 24 + hour a) * 60 + minute a) * 60 + second a) * 1000000 + second_part a) by lia.
  replace (date_key (year b) (month b) (day b) * (86400 * 1000000) + _) with
    ((((date_key (year b) (month b) (day b) * 24 + hour b) * 60 + minute b) * 60 + second b) * 1000000 + second_part b) by lia.
  by rewrite !mixed_radix_compare by lia.
Qed.

Lemma datetime_bytes_order a b dec : (dec <= 6)%nat -> valid_datetime a -> valid_datetime b ->
  truncated a dec -> truncated b dec ->
  memcmp (datetime_bytes a dec) (datetime_bytes b dec) = (total a ?= total b).
Proof.
  intros Hd Ha Hb Ta Tb.
  destruct (datetime_bytes_spec a dec Hd Ha Ta) as (Fa & La & Ea & _).
  destruct (datetime_bytes_spec b dec Hd Hb Tb) as (Fb & Lb & Eb & _).
  rewrite memcmp_be by (done || congruence). rewrite Ea, Eb, <- ymdhms_order by done.
  pose proof (vd_us _ Ha). pose proof (vd_us _ Hb). unfold TIME_MAX_SECOND_PART in *.
  rewrite !mixed_radix_compare by (first [lia|apply frac_small; [done|lia]]).
  rewrite !(Z.add_comm _ DATETIMEF_INT_OFS), Z.add_compare_mono_l. destruct (unit_pos dec Hd) as [Hu _].
  by rewrite unit_order by (done || by apply truncated_unit).
Qed.

(** C24: the bytes of a DATETIME value, for each precision, have the length the
    length function returns, are read back as the value, and are ordered by
    [memcmp] like the points in time. *)
Theorem datetime_binary_correct dec : (dec <= 6)%nat ->
  (forall t, valid_datetime t -> time_type t = MYSQL_TIMESTAMP_DATETIME -> truncated t dec ->
    length (datetime_bytes t dec) = my_datetime_binary_length dec /\
    (nr ← my_datetime_packed_from_binary (datetime_bytes t dec) dec;
     Some (TIME_from_longlong_datetime_packed nr)) = Some t) /\
  (forall a b, valid_datetime a -> valid_datetime b -> truncated a dec -> truncated b dec ->
    memcmp (datetime_bytes a dec) (datetime_bytes b dec) = (total a ?= total b)).
Proof.
  intros Hd. split.
  - intros t Ht Hty Htr. destruct (datetime_bytes_spec t dec Hd Ht Htr) as (_ & Hl & _ & ->).
    split; [done|]. cbn [mbind option_bind]. by rewrite datetime_unpack.
  - intros. by apply datetime_bytes_order.
Qed.

(** ** TIMESTAMP *)

(** What is stored for a valid timestamp is read back. *)
Lemma timestamp_binary_roundtrip tm dec : (dec <= 6)%nat ->
  0 <= tv_sec tm < 2 ^ 32 -> 0 <= tv_usec tm < 1000000 -> tv_usec tm mod 10 ^ (6 - Z.of_nat dec) = 0 ->
  length (my_timestamp_to_binary tm dec) = my_timestamp_binary_length dec /\
  my_timestamp_from_binary (my_timestamp_to_binary tm dec) dec = Some tm.
Proof.
  intros Hdec Hs Hf Htr. set (f := tv_usec tm) in *.
  assert (f mod unit dec = 0) as Hunit
    by (apply (truncated_unit (mk_time 0 0 0 0 0 0 f false MYSQL_TIMESTAMP_NONE)); done).
  destruct (frac_bytes_of_spec 0 f dec Hdec ltac:(lia) Hf Hunit) as (Ff & Lf & Ef).
  destruct (store_bytes (tv_sec tm)) as (_ & _ & F4 & _). destruct (store_be (tv_sec tm)) as (_ & E4 & _).
  assert (my_timestamp_to_binary tm dec = mi_int4store (tv_sec tm) ++ frac_bytes_of f dec) as -> by done.
  split; [rewrite length_app, Lf; done|]. unfold my_timestamp_from_binary.
  destruct (korr_be _ (frac_bytes_of f dec) F4) as (_ & _ & K4 & _). rewrite K4, E4 by done.
  cbn [mbind option_bind]. change (drop 4 (mi_int4store ?v ++ ?r)) with r.
  destruct (korr_be _ [] Ff) as (K2 & K3 & _). rewrite app_nil_r in K2, K3. rewrite Lf, Ef in *.
  destruct tm as [sec us]. simpl in f, Hs. subst f.
  clear K4 E4 F4 Lf Ff. revert Hunit Htr. each_dec dec; intros Hu Htr; simpl in Htr;
    rewrite ?K2, ?K3 by done; norm_dec; simpl; unfold uchar_of; rewrite ?Z.quot_div_nonneg by lia;
    do 2 f_equal; dlia.
Qed.

Lemma time_binary_correct_witness :
  let t := mk_time 0 0 0 1 2 3 450000 true MYSQL_TIMESTAMP_TIME in
  time_bytes t 2 = [127; 239; 124; 211] /\ length (time_bytes t 2) = my_time_binary_length 2.
Proof.
  intros t. split; [vm_compute; reflexivity|].
  refine (proj1 (proj1 (time_binary_correct 2 _) t _ _)).
  - lia.
  - split; simpl; try done; unfold TIME_MAX_HOUR, TIME_MAX_SECOND_PART; lia.
  - reflexivity.
Defined.

Lemma datetime_binary_correct_witness :
  datetime_bytes end_of_january 0 = [153; 178; 126; 192; 0] /\
  memcmp (datetime_bytes new_years_eve 6) (datetime_bytes end_of_january 6) =
    (total new_years_eve ?= total end_of_january).
Proof.
  split; [vm_compute; reflexivity|].
  refine (proj2 (datetime_binary_correct 6 _) new_years_eve end_of_january _ _ _ _).
  - lia.
  - exact new_years_eve_valid.
  - exact end_of_january_valid.
  - reflexivity.
  - reflexivity.
Defined.

End TimeBinaryProofs.
