(* ===== verification/TimeText.v ===== *)
(** * Times as text: printing (sql-common/my_time.c)

    The functions that print times and dates.  The text is the list of the
    characters written; the NUL behind it and the returned length are left
    out. *)

From S2P Require Import Prelude IntConv MyTime TimeArith.
Import MyTime TimeArith.

#[local] Open Scope Z_scope.

Module TimeText.

(** The characters of the numbers below 100, two to an entry, low byte first;
    [XX] for the others. *)
Definition two_digit_numbers : list Z :=
  [0x3030; 0x3130; 0x3230; 0x3330; 0x3430; 0x3530; 0x3630; 0x3730; 0x3830; 0x3930;
   0x3031; 0x3131; 0x3231; 0x3331; 0x3431; 0x3531; 0x3631; 0x3731; 0x3831; 0x3931;
   0x3032; 0x3132; 0x3232; 0x3332; 0x3432; 0x3532; 0x3632; 0x3732; 0x3832; 0x3932;
   0x3033; 0x3133; 0x3233; 0x3333; 0x3433; 0x3533; 0x3633; 0x3733; 0x3833; 0x3933;
   0x3034; 0x3134; 0x3234; 0x3334; 0x3434; 0x3534; 0x3634; 0x3734; 0x3834; 0x3934;
   0x3035; 0x3135; 0x3235; 0x3335; 0x3435; 0x3535; 0x3635; 0x3735; 0x3835; 0x3935;
   0x3036; 0x3136; 0x3236; 0x3336; 0x3436; 0x3536; 0x3636; 0x3736; 0x3836; 0x3936;
   0x3037; 0x3137; 0x3237; 0x3337; 0x3437; 0x3537; 0x3637; 0x3737; 0x3837; 0x3937;
   0x3038; 0x3138; 0x3238; 0x3338; 0x3438; 0x3538; 0x3638; 0x3738; 0x3838; 0x3938;
   0x3039; 0x3139; 0x3239; 0x3339; 0x3439; 0x3539; 0x3639; 0x3739; 0x3839; 0x3939;
   0x5858; 0x5858; 0x5858; 0x5858; 0x5858; 0x5858; 0x5858; 0x5858; 0x5858; 0x5858;
   0x5858; 0x5858; 0x5858; 0x5858; 0x5858; 0x5858; 0x5858; 0x5858; 0x5858; 0x5858;
   0x5858; 0x5858; 0x5858; 0x5858; 0x5858; 0x5858; 0x5858; 0x5858; 0x5858; 0x5858;
   0x5858; 0x5858; 0x5858; 0x5858; 0x5858; 0x5858; 0x5858; 0x5858; 0x5858; 0x5858;
   0x5858; 0x5858; 0x5858; 0x5858; 0x5858; 0x5858; 0x5858; 0x5858; 0x5858; 0x5858;
   0x5858; 0x5858; 0x5858; 0x5858; 0x5858; 0x5858; 0x5858; 0x5858; 0x5858; 0x5858;
   0x5858; 0x5858; 0x5858; 0x5858; 0x5858; 0x5858; 0x5858; 0x5858; 0x5858; 0x5858;
   0x5858; 0x5858; 0x5858; 0x5858; 0x5858; 0x5858; 0x5858; 0x5858; 0x5858; 0x5858;
   0x5858; 0x5858; 0x5858; 0x5858; 0x5858; 0x5858; 0x5858; 0x5858; 0x5858; 0x5858;
   0x5858; 0x5858; 0x5858; 0x5858; 0x5858; 0x5858; 0x5858; 0x5858; 0x5858; 0x5858;
   0x5858; 0x5858; 0x5858; 0x5858; 0x5858; 0x5858; 0x5858; 0x5858; 0x5858; 0x5858;
   0x5858; 0x5858; 0x5858; 0x5858; 0x5858; 0x5858; 0x5858; 0x5858; 0x5858; 0x5858;
   0x5858; 0x5858; 0x5858; 0x5858; 0x5858; 0x5858; 0x5858; 0x5858; 0x5858; 0x5858;
   0x5858; 0x5858; 0x5858; 0x5858; 0x5858; 0x5858; 0x5858; 0x5858; 0x5858; 0x5858;
   0x5858; 0x5858; 0x5858; 0x5858; 0x5858; 0x5858; 0x5858; 0x5858; 0x5858; 0x5858;
   0x5858; 0x5858; 0x5858; 0x5858; 0x5858; 0x5858].

Definition fmt_number2 (val : Z) : option (list Z) :=
  w ← two_digit_numbers !! Z.to_nat (val mod 256); Some [w mod 256; w / 256].

Definition fmt_number4 (val : Z) : option (list Z) :=
  let val := val mod 2 ^ 16 in
  a ← fmt_number2 (val / 100); b ← fmt_number2 (val mod 100); Some (a ++ b).

Definition fmt_number6 (val : Z) : option (list Z) :=
  a ← fmt_number2 (val / 10000);
  let val := val mod 10000 in
  b ← fmt_number2 (val / 100); c ← fmt_number2 (val mod 100); Some (a ++ b ++ c).

Definition fmt_usec (val : Z) (digits : nat) : option (list Z) :=
  match digits with
  | 1%nat => Some [48 + val mod 10]
  | 2%nat => fmt_number2 val
  | 3%nat => a ← fmt_number2 (val mod 100); Some ((48 + (val / 100) mod 10) :: a)
  | 4%nat => fmt_number4 val
  | 5%nat => a ← fmt_number4 (val mod 10000); Some ((48 + (val / 10000) mod 10) :: a)
  | 6%nat => fmt_number6 val
  | _ => Some []
  end.

Definition my_mmssff_to_str (t : MYSQL_TIME) (fsp : nat) : option (list Z) :=
  let fsp := if decide (fsp = AUTO_SEC_PART_DIGITS)
             then (if second_part t =? 0 then 0%nat else TIME_SECOND_PART_DIGITS) else fsp in
  mm ← fmt_number2 (minute t);
  ss ← fmt_number2 (second t);
  if decide (fsp = 0%nat) then Some (mm ++ [58] ++ ss) else
  f ← sec_part_shift (second_part t) fsp;
  ff ← fmt_usec (u32 f) fsp;
  Some (mm ++ [58] ++ ss ++ [46] ++ ff).

(** [longlong10_to_str] without the NUL; it is [int10_to_str] where a [long]
    has 64 bits. *)
Definition print_unsigned (v : Z) : option (list Z) :=
  l ← IntConv.int10_to_str v 10; Some (take (length l - 1) l).

Definition my_interval_DDhhmmssff_to_str (t : MYSQL_TIME) (fsp : nat) : option (list Z) :=
  let h := u32 (u32 (day t * 24) + hour t) in
  dd ← (if 24 <=? h then d ← print_unsigned (Z.quot h 24); Some (d ++ [32]) else Some []);
  hh ← fmt_number2 (h mod 24);
  r ← my_mmssff_to_str t fsp;
  Some ((if neg t then [45] else []) ++ dd ++ hh ++ [58] ++ r).

Definition my_time_to_str (t : MYSQL_TIME) (digits : nat) : option (list Z) :=
  let d := if negb (year t =? 0) || negb (month t =? 0) then 0 else day t in
  let h := u32 (u32 (d * 24) + hour t) in
  hh ← (if 99 <? h then print_unsigned h else fmt_number2 h);
  r ← my_mmssff_to_str t digits;
  Some ((if neg t then [45] else []) ++ hh ++ [58] ++ r).

Definition my_date_to_str (t : MYSQL_TIME) : option (list Z) :=
  y ← fmt_number4 (year t); m ← fmt_number2 (month t); d ← fmt_number2 (day t);
  Some (y ++ [45] ++ m ++ [45] ++ d).

Definition my_datetime_to_str (t : MYSQL_TIME) (digits : nat) : option (list Z) :=
  y ← fmt_number4 (year t); m ← fmt_number2 (month t); d ← fmt_number2 (day t);
  h ← fmt_number2 (hour t); r ← my_mmssff_to_str t digits;
  Some (y ++ [45] ++ m ++ [45] ++ d ++ [32] ++ h ++ [58] ++ r).

Definition my_TIME_to_str (t : MYSQL_TIME) (digits : nat) : option (list Z) :=
  match time_type t with
  | MYSQL_TIMESTAMP_DATETIME => my_datetime_to_str t digits
  | MYSQL_TIMESTAMP_DATE => my_date_to_str t
  | MYSQL_TIMESTAMP_TIME => my_time_to_str t digits
  | MYSQL_TIMESTAMP_NONE | MYSQL_TIMESTAMP_ERROR => Some []
  end.

Definition my_timeval_to_str (tv_sec tv_usec : Z) (dec : nat) : option (list Z) :=
  s ← print_unsigned tv_sec;
  if decide (dec = 0%nat) then Some s else
  f ← sec_part_shift tv_usec dec;
  ff ← fmt_usec (u32 f) dec;
  Some (s ++ [46] ++ ff).

End TimeText.
