(* ===== verification/TimeParse.v ===== *)
(** * Times as text: parsing (sql-common/my_time.c)

    [str_to_datetime_or_date] and its relatives.  The string is a list of
    character codes and pointers into it are offsets; an offset behind the
    list makes the result [None].  The calls that the C code joins with [||]
    are actions on the time, the number of fields and the offset, joined with
    [<||>]. *)

From S2P Require Import Prelude IntConv MyTime.
Import MyTime.

#[local] Open Scope Z_scope.

Module TimeParse.

Record MYSQL_TIME_STATUS := mk_status { warnings : Z; precision : Z; nanoseconds : Z }.

Definition my_time_status_init : MYSQL_TIME_STATUS := mk_status 0 0 0.

Definition warn (st : MYSQL_TIME_STATUS) (w : Z) : MYSQL_TIME_STATUS :=
  mk_status (Z.lor (warnings st) w) (precision st) (nanoseconds st).

Definition set_year (t : MYSQL_TIME) (v : Z) := mk_time v (month t) (day t) (hour t) (minute t) (second t) (second_part t) (neg t) (time_type t).
Definition set_month (t : MYSQL_TIME) (v : Z) := mk_time (year t) v (day t) (hour t) (minute t) (second t) (second_part t) (neg t) (time_type t).
Definition set_day (t : MYSQL_TIME) (v : Z) := mk_time (year t) (month t) v (hour t) (minute t) (second t) (second_part t) (neg t) (time_type t).
Definition set_hour (t : MYSQL_TIME) (v : Z) := mk_time (year t) (month t) (day t) v (minute t) (second t) (second_part t) (neg t) (time_type t).
Definition set_minute (t : MYSQL_TIME) (v : Z) := mk_time (year t) (month t) (day t) (hour t) v (second t) (second_part t) (neg t) (time_type t).
Definition set_second (t : MYSQL_TIME) (v : Z) := mk_time (year t) (month t) (day t) (hour t) (minute t) v (second_part t) (neg t) (time_type t).
Definition set_second_part (t : MYSQL_TIME) (v : Z) := mk_time (year t) (month t) (day t) (hour t) (minute t) (second t) v (neg t) (time_type t).
Definition set_time_type (t : MYSQL_TIME) (ty : enum_mysql_timestamp_type) := mk_time (year t) (month t) (day t) (hour t) (minute t) (second t) (second_part t) (neg t) ty.

(** ** Characters *)

Definition _MY_NMR : Z := 4.
Definition _MY_PNT : Z := 16.

Definition has_type (mask ch : Z) : option bool :=
  t ← IntConv.ctype_latin1 !! S (Z.to_nat ch); Some (negb (Z.land t mask =? 0)).

Definition my_isdigit (ch : Z) : option bool := has_type _MY_NMR ch.
Definition my_ispunct (ch : Z) : option bool := has_type _MY_PNT ch.
Definition my_isspace (ch : Z) : option bool := IntConv.my_isspace ch.

Section parser.
Context (str : list Z).

Definition fuel : nat := S (length str).

Definition digit_at (s : nat) : option bool := ch ← str !! s; my_isdigit ch.
Definition punct_at (s : nat) : option bool := ch ← str !! s; my_ispunct ch.
Definition space_at (s : nat) : option bool := ch ← str !! s; my_isspace ch.

(** [s < end && my_isdigit( *s)] and the like. *)
Definition before (stop : nat) (p : nat -> option bool) (s : nat) : option bool :=
  if decide (s < stop)%nat then p s else Some false.

(** ** Numbers and separators *)

Fixpoint number_loop (fuel : nat) (s stop : nat) (val : Z) : option (Z * nat) :=
  match fuel with
  | O => None
  | S fuel =>
      d ← before stop digit_at s;
      if (d : bool) then ch ← str !! s; number_loop fuel (S s) stop (u32 (val * 10 + ch - 48))
      else Some (val, s)
  end.

(** The result, [*val], [*number_of_fields] and [*str]. *)
Definition get_number (val nof : Z) (s stop : nat) : option (bool * Z * Z * nat) :=
  if decide (stop <= s)%nat then Some (false, val, nof, s) else
  d ← digit_at s;
  if negb d then Some (true, val, nof, s) else
  ch ← str !! s;
  '(val, s) ← number_loop fuel (S s) stop (u32 (ch - 48));
  Some (false, val, nof + 1, s).

Definition get_digits (val nof : Z) (s stop length : nat) : option (bool * Z * Z * nat) :=
  get_number val nof s (Nat.min stop (s + length)).

Definition get_punct (s stop : nat) : option (bool * nat) :=
  if decide (stop <= s)%nat then Some (false, s) else
  p ← punct_at s;
  if (p : bool) then Some (false, S s) else Some (true, s).

(** [while (p( *s)) s++] *)
Fixpoint skip_while (p : nat -> option bool) (fuel : nat) (s stop : nat) : option nat :=
  match fuel with
  | O => None
  | S fuel =>
      b ← before stop p s;
      if (b : bool) then skip_while p fuel (S s) stop else Some s
  end.

(** The result, [*number_of_fields] and [*str]. *)
Definition get_date_time_separator (nof : Z) (punct_is_date_time_separator : bool) (s stop : nat) :
    option (bool * Z * nat) :=
  if decide (stop <= s)%nat then Some (false, nof, s) else
  ch ← str !! s;
  if decide (ch = 84) then Some (false, nof, S s) else
  p ← punct_at s;
  if (p : bool) then
    if punct_is_date_time_separator then Some (false, nof, S s) else Some (true, 0, s)
  else
    sp ← space_at s;
    if negb sp then Some (true, nof, s) else
    s ← skip_while space_at fuel (S s) stop;
    Some (false, nof, s).

Definition get_maybe_T (s stop : nat) : option nat :=
  b ← before stop (fun s => ch ← str !! s; Some (bool_decide (ch = 84))) s;
  Some (if (b : bool) then S s else s).

Definition skip_digits (s stop : nat) : option nat := skip_while digit_at fuel s stop.

(** [*val], the status, [*number_of_fields] and [*str]. *)
Definition get_microseconds (status : MYSQL_TIME_STATUS) (nof : Z) (s stop : nat) :
    option (Z * MYSQL_TIME_STATUS * Z * nat) :=
  let start := s in
  '(e, tmp, nof, s) ← get_digits 0 nof s stop 6;
  let status := if (e : bool) then warn status MYSQL_TIME_WARN_TRUNCATED else status in
  let status := mk_status (warnings status) (Z.of_nat (s - start)) (nanoseconds status) in
  val ← (if decide (s - start < 6)%nat
         then f ← log_10_int !! (6 - (s - start))%nat; Some (tmp * f) else Some tmp);
  d ← before stop digit_at s;
  status ← (if (d : bool)
            then ch ← str !! s; Some (mk_status (warnings status) (precision status) (u32 (100 * (ch - 48))))
            else Some status);
  s' ← skip_digits s stop;
  let status := if decide (s' = s) then status else warn status MYSQL_TIME_NOTE_TRUNCATED in
  Some (val, status, nof, s').

(** ** Dates *)

(** [*l_time], [*number_of_fields] and [str]. *)
Record pstate := mk_pstate { p_time : MYSQL_TIME; p_nof : Z; p_str : nat }.

Definition action : Type := pstate -> option (bool * pstate).

Definition or_else (a b : action) : action := fun st =>
  '(e, st) ← a st; if (e : bool) then Some (true, st) else b st.

Infix "<||>" := or_else (at level 60, right associativity) : mariadb_scope.
#[local] Open Scope mariadb_scope.

Definition number (stop : nat) (get : MYSQL_TIME -> Z) (set : MYSQL_TIME -> Z -> MYSQL_TIME) : action :=
  fun st =>
    '(e, v, n, s) ← get_number (get (p_time st)) (p_nof st) (p_str st) stop;
    Some (e, mk_pstate (set (p_time st) v) n s).

Definition fixed (stop length : nat) (get : MYSQL_TIME -> Z) (set : MYSQL_TIME -> Z -> MYSQL_TIME) : action :=
  fun st =>
    '(e, v, n, s) ← get_digits (get (p_time st)) (p_nof st) (p_str st) stop length;
    Some (e, mk_pstate (set (p_time st) v) n s).

Definition punct (stop : nat) : action := fun st =>
  '(e, s) ← get_punct (p_str st) stop; Some (e, mk_pstate (p_time st) (p_nof st) s).

Definition separator (stop : nat) (punct_is_date_time_separator : bool) : action := fun st =>
  '(e, n, s) ← get_date_time_separator (p_nof st) punct_is_date_time_separator (p_str st) stop;
  Some (e, mk_pstate (p_time st) n s).

Definition maybe_T (stop : nat) : action := fun st =>
  s ← get_maybe_T (p_str st) stop; Some (false, mk_pstate (p_time st) (p_nof st) s).

(** Only digits, [T] and a fraction: the fields have fixed lengths. *)
Definition internal_format (stop year_length : nat) : action :=
  fixed stop year_length year set_year <||> fixed stop 2 month set_month <||> fixed stop 2 day set_day <||>
  maybe_T stop <||> fixed stop 2 hour set_hour <||> fixed stop 2 minute set_minute <||>
  fixed stop 2 second set_second.

(** What follows the year in the delimited formats. *)
Definition delimited_format (stop : nat) (punct_is_date_time_separator : bool) : action :=
  punct stop <||> number stop month set_month <||> punct stop <||> number stop day set_day <||>
  separator stop punct_is_date_time_separator <||> number stop hour set_hour <||> punct stop <||>
  number stop minute set_minute <||> punct stop <||> number stop second set_second.

Record body_result := mk_body {
  b_error : bool; b_time : MYSQL_TIME; b_status : MYSQL_TIME_STATUS; b_nof : Z; b_endptr : nat
}.

(** The fields of the date and time: whether there was a warning, the state
    and [year_length]. *)
Definition read_fields (s0 stop : nat) (punct_is_date_time_separator : bool) :
    option (bool * pstate * nat) :=
  let st := mk_pstate (set_zero_time MYSQL_TIMESTAMP_DATE) 0 s0 in
  pos ← skip_digits s0 stop;
  let digits := (pos - s0)%nat in
  t ← get_maybe_T pos stop;
  '(pos, digits) ←
    (if decide (t = pos) then Some (pos, digits)
     else e ← skip_digits t stop; Some (e, (digits + (e - t))%nat));
  dot ← before stop (fun s => ch ← str !! s; Some (bool_decide (ch = 46))) pos;
  pos ← (if (dot : bool) && bool_decide (12 <= digits)%nat then skip_digits (S pos) stop else Some pos);
  if decide (pos = stop) then
    let year_length := if bool_decide (digits = 4 \/ digits = 8 \/ 14 <= digits)%nat then 4%nat else 2%nat in
    '(e, st) ← internal_format stop year_length st; Some (e, st, year_length)
  else
    '(e, st) ← number stop year set_year st;
    let year_length := (p_str st - s0)%nat in
    if (e : bool) then Some (true, st, year_length) else
    '(e, st) ← delimited_format stop punct_is_date_time_separator st; Some (e, st, year_length).

(** The checks behind the fields; [str] is the offset reached. *)
Definition finish_body (t : MYSQL_TIME) (nof : Z) (s stop endptr year_length : nat) (flags : Z)
    (status : MYSQL_TIME_STATUS) : option body_result :=
  let not_zero_date := negb ((year t =? 0) && (month t =? 0) && (day t =? 0) && (hour t =? 0) &&
    (minute t =? 0) && (second t =? 0) && (second_part t =? 0)) in
  let t := if decide (year_length = 2%nat) then
             if not_zero_date
             then set_year t (u32 (year t + (if year t <? YY_PART_YEAR then 2000 else 1900))) else t
           else t in
  let err status := Some (mk_body true (set_zero_time MYSQL_TIMESTAMP_ERROR) status nof endptr) in
  if (9999 <? year t) || (12 <? month t) || (31 <? day t) || (23 <? hour t) || (59 <? minute t) ||
     (59 <? second t)
  then err (warn status MYSQL_TIME_WARN_TRUNCATED) else
  '(bad, w) ← check_date t not_zero_date flags (warnings status);
  let status := mk_status w (precision status) (nanoseconds status) in
  if (bad : bool) then err status else
  let t := set_time_type t (if nof <=? 3 then MYSQL_TIMESTAMP_DATE else MYSQL_TIMESTAMP_DATETIME) in
  let status := if decide (s = stop) then status
                else mk_status MYSQL_TIME_WARN_TRUNCATED (precision status) (nanoseconds status) in
  Some (mk_body false t status nof endptr).

(** The body is the characters from [s0] to [stop]. *)
Definition str_to_datetime_or_date_body (s0 stop : nat) (flags : Z) (punct_is_date_time_separator : bool)
    (status : MYSQL_TIME_STATUS) : option body_result :=
  '(w, st, year_length) ← read_fields s0 stop punct_is_date_time_separator;
  let status := if (w : bool) then warn status MYSQL_TIME_WARN_TRUNCATED else status in
  if p_nof st <? 3 then
    Some (mk_body true (set_time_type (p_time st) MYSQL_TIMESTAMP_NONE)
            (warn status MYSQL_TIME_WARN_TRUNCATED) (p_nof st) (p_str st))
  else
  dot ← before stop (fun s => ch ← str !! s; Some (bool_decide (ch = 46))) (p_str st);
  if negb w && dot then
    '(us, status, nof, s) ← get_microseconds status (p_nof st) (S (p_str st)) stop;
    finish_body (set_second_part (p_time st) us) nof s stop s year_length flags status
  else finish_body (p_time st) (p_nof st) (p_str st) stop (p_str st) year_length flags status.

(** ** Days, hours, minutes and seconds *)

(** [value= value*10 + ( *str - '0')] while there are digits; with [limit] the
    loop gives up ([None] inside) once the value reaches it. *)
Fixpoint value_loop (fuel : nat) (limit : option Z) (s stop : nat) (value : Z) : option (option Z * nat) :=
  match fuel with
  | O => None
  | S fuel =>
      d ← (if decide (s = stop) then Some false else digit_at s);
      if (d : bool) then
        ch ← str !! s;
        let value := u64 (value * 10 + (ch - 48)) in
        match limit with
        | Some l => if l <=? value then Some (None, s) else value_loop fuel limit (S s) stop value
        | None => value_loop fuel limit (S s) stop value
        end
      else Some (Some value, s)
  end.

Definition time_separator : Z := 58.

(** [*str == ch] at [s], two characters before the end, and a digit behind. *)
Definition separator_and_digit (s stop : nat) : option bool :=
  if decide (stop < s + 2)%nat then Some false else
  ch ← str !! s;
  if decide (ch = time_separator) then digit_at (S s) else Some false.

(** [for (;;)]: reads fields from [date[state]] on; the new [state]. *)
Fixpoint fields_loop (fuel : nat) (date : list Z) (state : nat) (s stop : nat) : option (list Z * nat * nat) :=
  match fuel with
  | O => None
  | S fuel' =>
      '(v, s) ← value_loop (S (length str)) None s stop 0;
      v ← v;
      _ ← date !! state;
      let date := <[state:=v]> date in
      let state := S state in
      if decide (state = 4%nat) then Some (date, state, s) else
      b ← separator_and_digit s stop;
      if (b : bool) then fields_loop fuel' date state (S s) stop else Some (date, state, s)
  end.

(** A possible exponent. *)
Definition exponent_at (s stop : nat) : option bool :=
  if decide (stop < s + 2)%nat then Some false else
  ch ← str !! s;
  if bool_decide (ch = 101 \/ ch = 69) then
    d ← digit_at (S s);
    if (d : bool) then Some true else
    ch1 ← str !! S s;
    if bool_decide (ch1 = 45 \/ ch1 = 43) && bool_decide (s + 3 <= stop)%nat then digit_at (S (S s))
    else Some false
  else Some false.

(** The result, the time, the status and [*endptr]; [*l_time] is not written,
    apart from its sign, where [None] is returned for it. *)
Definition time_result : Type := bool * option MYSQL_TIME * MYSQL_TIME_STATUS * nat.

(** From the label [fractional] on; the static [internal_format_positions[7]]
    is 255, so AM and PM are not read. *)
Definition fractional (neg : bool) (date : list Z) (s stop : nat) (max_hour err_hour : Z)
    (status : MYSQL_TIME_STATUS) : option time_result :=
  dot ← before stop (fun s => ch ← str !! s; Some (bool_decide (ch = 46))) s;
  '(us, status, s) ←
    (if (dot : bool) then
       '(us, status, _, s) ← get_microseconds status 0 (S s) stop; Some (us, status, s)
     else Some (0, status, s));
  e ← exponent_at s stop;
  if (e : bool) then Some (true, None, warn status MYSQL_TIME_WARN_TRUNCATED, s) else
  match date with
  | [d0; d1; d2; d3] =>
      if (UINT_MAX32 <? d0) || (UINT_MAX32 <? d1) || (UINT_MAX32 <? d2) || (UINT_MAX32 <? d3) ||
         (UINT_MAX32 <? us) || (UINT_MAX32 <? d0 * 24 + d1)
      then Some (true, None, warn status MYSQL_TIME_WARN_OUT_OF_RANGE, s) else
      let t := mk_time 0 0 0 (u32 (d1 + d0 * 24)) d2 d3 us neg MYSQL_TIMESTAMP_TIME in
      '(bad, t, w) ← check_time_range_internal t max_hour err_hour 6 (warnings status);
      let status := mk_status w (precision status) (nanoseconds status) in
      if (bad : bool) then Some (true, Some t, status, s) else
      Some (false, Some t, if decide (s = stop) then status else warn status MYSQL_TIME_WARN_TRUNCATED, s)
  | _ => None
  end.

Definition str_to_DDhhmmssff_internal (neg : bool) (s stop : nat) (max_hour err_hour : Z)
    (status : MYSQL_TIME_STATUS) : option time_result :=
  '(v, s) ← value_loop fuel (Some 42949672955959) s stop 0;
  match v with
  | None => Some (true, None, warn status MYSQL_TIME_WARN_OUT_OF_RANGE, s)
  | Some value =>
      let end_of_days := s in
      s ← skip_while space_at fuel s stop;
      days ← (if bool_decide (s + 2 <= stop)%nat && bool_decide (s ≠ end_of_days) then digit_at s
              else Some false);
      if (days : bool) then
        '(date, state, s) ← fields_loop 4 [value; 0; 0; 0] 1 s stop;
        fractional neg date s stop max_hour err_hour status
      else
        hours ← separator_and_digit s stop;
        if (hours : bool) then
          if UINT_MAX32 <=? value then Some (true, None, warn status MYSQL_TIME_WARN_OUT_OF_RANGE, s) else
          '(date, state, s) ← fields_loop 4 [0; value; 0; 0] 2 (S s) stop;
          fractional neg date s stop max_hour err_hour status
        else
          fractional neg [0; value / 10000; value / 100 mod 100; value mod 100] s stop max_hour err_hour status
  end.

(** ** Finding the body *)

(** [get_suffix]: whether there was garbage, and the new end. *)
Fixpoint get_suffix (s : nat) (length : nat) (garbage : bool) : option (bool * nat) :=
  match length with
  | O => Some (garbage, O)
  | S l =>
      ch ← str !! (s + l)%nat;
      d ← my_isdigit ch; p ← my_ispunct ch;
      if (d : bool) || (p : bool) then Some (garbage, length) else
      sp ← my_isspace ch;
      if (sp : bool) then get_suffix s l garbage else
      t ← (if bool_decide (ch = 84) && bool_decide (1 <= l)%nat then digit_at (s + l - 1)%nat else Some false);
      if (t : bool) then Some (garbage, length) else get_suffix s l true
  end.

Definition get_sign (s stop : nat) : option (bool * nat) :=
  if decide (s < stop)%nat then
    ch ← str !! s;
    Some (bool_decide (ch = 45), if bool_decide (ch = 45 \/ ch = 43) then S s else s)
  else Some (false, s).

Record found := mk_found { f_error : bool; f_neg : bool; f_warn : Z; f_str : nat; f_end : nat }.

Definition find_body (length : nat) : option found :=
  s ← skip_while space_at fuel 0 length;
  '(ng, s) ← get_sign s length;
  s ← skip_while space_at fuel s length;
  '(garbage, l) ← get_suffix s (length - s) false;
  let w := if (garbage : bool) then MYSQL_TIME_WARN_TRUNCATED else 0 in
  d ← (if decide (l = 0%nat) then Some false else digit_at s);
  Some (mk_found (negb d) ng (if (d : bool) then w else Z.lor w MYSQL_TIME_WARN_EDOM) s (s + l)).

(** The return value, the time and the status. *)
Definition parse_result : Type := bool * MYSQL_TIME * MYSQL_TIME_STATUS.

Definition set_neg (ng : bool) (st : MYSQL_TIME_STATUS) (t : MYSQL_TIME) : parse_result :=
  let t' := mk_time (year t) (month t) (day t) (hour t) (minute t) (second t) (second_part t) ng (time_type t) in
  if ng && bool_decide (time_type t ≠ MYSQL_TIMESTAMP_TIME)
  then (true, t', warn st MYSQL_TIME_WARN_OUT_OF_RANGE) else (false, t', st).

Definition str_to_datetime_or_date (length : nat) (flags : Z) : option parse_result :=
  f ← find_body length;
  let status := warn my_time_status_init (f_warn f) in
  if f_error f then Some (true, set_zero_time MYSQL_TIMESTAMP_ERROR, status) else
  r ← str_to_datetime_or_date_body (f_str f) (f_end f) flags true status;
  if b_error r then Some (true, b_time r, b_status r) else Some (set_neg (f_neg f) (b_status r) (b_time r)).

(** ** Times *)

Record MYSQL_TIME_USED_CHAR_STATISTICS := mk_used {
  count_punct : Z; count_colon : Z; count_iso_date_time_separator : Z }.

Fixpoint used_chars (n : nat) (s : nat) (u : MYSQL_TIME_USED_CHAR_STATISTICS) :
    option MYSQL_TIME_USED_CHAR_STATISTICS :=
  match n with
  | O => Some u
  | S n =>
      ch ← str !! s; p ← my_ispunct ch;
      used_chars n (S s) (mk_used
        (if (p : bool) then count_punct u + 1 else count_punct u)
        (if decide (ch = 58) then count_colon u + 1 else count_colon u)
        (if decide (ch = 84) then count_iso_date_time_separator u + 1 else count_iso_date_time_separator u))
  end.

Definition mysql_time_used_char_statistics_init (s e : nat) : option MYSQL_TIME_USED_CHAR_STATISTICS :=
  used_chars (e - s) s (mk_used 0 0 0).

Fixpoint candidate_loop (n : nat) (s : nat) (allow_dates_delimited allow_dates_numeric : bool)
    (count_punct : Z) : option bool :=
  match n with
  | O => Some (allow_dates_numeric && (count_punct =? 0))
  | S n =>
      ch ← str !! s;
      if decide (ch = 84) then Some true else
      if decide (ch = 32) then Some (0 <? count_punct) else
      p ← my_ispunct ch;
      if (p : bool) then
        if allow_dates_delimited && bool_decide (ch ≠ 58) then Some true
        else candidate_loop n (S s) allow_dates_delimited allow_dates_numeric (count_punct + 1)
      else candidate_loop n (S s) allow_dates_delimited allow_dates_numeric count_punct
  end.

Definition is_datetime_body_candidate (s stop : nat) (allow_dates_delimited allow_dates_numeric : bool) :
    option bool :=
  let length := (stop - s)%nat in
  if decide (12 <= length)%nat then Some true else
  let date_time_separator_length := if allow_dates_delimited then 0%nat else 1%nat in
  if bool_decide (length < 5 + date_time_separator_length)%nat && negb allow_dates_numeric
  then Some false
  else candidate_loop length s allow_dates_delimited allow_dates_numeric 0.

(** The time part alone. *)
Definition time_body (s stop : nat) (max_hour err_hour : Z) (status : MYSQL_TIME_STATUS) :
    option parse_result :=
  '(bad, t, status, _) ← str_to_DDhhmmssff_internal false s stop max_hour err_hour status;
  match (bad : bool), t with
  | false, Some t => Some (false, t, status)
  | _, _ => Some (true, set_zero_time MYSQL_TIMESTAMP_ERROR, status)
  end.

Definition str_to_datetime_or_date_or_time_body (s stop : nat) (fuzzydate : Z) (status : MYSQL_TIME_STATUS)
    (time_max_hour time_err_hour : Z) (allow_dates_delimited allow_dates_numeric : bool) :
    option parse_result :=
  c ← is_datetime_body_candidate s stop allow_dates_delimited allow_dates_numeric;
  if negb c then time_body s stop time_max_hour time_err_hour status else
  let go_on := time_body s stop time_max_hour time_err_hour (mk_status (warnings status) 0 0) in
  r ← str_to_datetime_or_date_body s stop fuzzydate false status;
  match time_type (b_time r) with
  | MYSQL_TIMESTAMP_DATETIME => Some (false, b_time r, b_status r)
  | MYSQL_TIMESTAMP_DATE =>
      u ← mysql_time_used_char_statistics_init s (b_endptr r);
      if negb (count_iso_date_time_separator u =? 0) || (count_colon u =? 0)
      then Some (false, b_time r, b_status r) else go_on
  | MYSQL_TIMESTAMP_ERROR =>
      if 3 <? b_nof r then Some (true, b_time r, b_status r) else
      u ← mysql_time_used_char_statistics_init s (b_endptr r);
      if negb (count_iso_date_time_separator u =? 0) || (count_colon u =? 0)
      then Some (true, b_time r, b_status r) else go_on
  | MYSQL_TIMESTAMP_NONE =>
      if allow_dates_numeric && bool_decide (stop <= b_endptr r)%nat then
        u ← mysql_time_used_char_statistics_init s (b_endptr r);
        if (count_iso_date_time_separator u =? 0) && (count_colon u =? 0) && (count_punct u =? 0)
        then Some (true, b_time r, b_status r) else go_on
      else go_on
  | MYSQL_TIMESTAMP_TIME => go_on
  end.

(** [str_to_datetime_or_date_or_time] and the two variants for intervals. *)
Definition str_to_temporal (length : nat) (mode : Z) (time_max_hour time_err_hour : Z)
    (allow_dates_delimited allow_dates_numeric : bool) : option parse_result :=
  f ← find_body length;
  let status := warn my_time_status_init (f_warn f) in
  if f_error f then Some (true, set_zero_time MYSQL_TIMESTAMP_ERROR, status) else
  '(bad, t, status) ← str_to_datetime_or_date_or_time_body (f_str f) (f_end f) mode status
    time_max_hour time_err_hour allow_dates_delimited allow_dates_numeric;
  if (bad : bool) then Some (true, t, status) else Some (set_neg (f_neg f) status t).

Definition str_to_datetime_or_date_or_time (length : nat) (mode time_max_hour time_err_hour : Z) :=
  str_to_temporal length mode time_max_hour time_err_hour false false.

Definition str_to_datetime_or_date_or_interval_hhmmssff (length : nat) (mode time_max_hour time_err_hour : Z) :=
  str_to_temporal length mode time_max_hour time_err_hour true false.

Definition str_to_datetime_or_date_or_interval_day (length : nat) (mode time_max_hour time_err_hour : Z) :=
  str_to_temporal length mode time_max_hour time_err_hour true true.

(** Scans days to seconds, then rejects what looks like a date: the return
    value, the time if it was written, and the status. *)
Definition scan_DDhhmmssff (f : found) (max_hour : Z) (status : MYSQL_TIME_STATUS) :
    option (bool * option MYSQL_TIME * MYSQL_TIME_STATUS) :=
  '(bad, t, status, e) ← str_to_DDhhmmssff_internal (f_neg f) (f_str f) (f_end f) max_hour UINT_MAX32 status;
  if (bad : bool) then Some (true, t, status) else
  m ← before (f_end f) (fun s => ch ← str !! s; Some (bool_decide (ch = 45))) e;
  Some (m, t, status).

Definition str_to_DDhhmmssff (length : nat) (max_hour : Z) :
    option (bool * option MYSQL_TIME * MYSQL_TIME_STATUS) :=
  f ← find_body length;
  let status := warn my_time_status_init (f_warn f) in
  if f_error f then Some (true, Some (set_zero_time MYSQL_TIMESTAMP_ERROR), status) else
  c ← is_datetime_body_candidate (f_str f) (f_end f) false false;
  if negb c then scan_DDhhmmssff f max_hour status else
  r ← str_to_datetime_or_date_body (f_str f) (f_end f) 0 false status;
  match time_type (b_time r) with
  | MYSQL_TIMESTAMP_NONE | MYSQL_TIMESTAMP_ERROR => scan_DDhhmmssff f max_hour my_time_status_init
  | _ => Some (true, Some (set_time_type (b_time r) MYSQL_TIMESTAMP_NONE),
               warn (b_status r) MYSQL_TIME_WARN_TRUNCATED)
  end.

End parser.

End TimeParse.
