(* ===== verification/TimeParseProofs.v ===== *)
(** * Parsing times is safe and yields well-formed times

    On every string of bytes the functions of TimeParse.v return a result: no
    offset leaves the string and every loop ends.  What they accept is a date,
    datetime or time with its fields in range, and what they reject carries a
    warning. *)

From S2P Require Import Prelude IntConv MyTime TimeParse.
Import MyTime TimeParse.

#[local] Open Scope Z_scope.

Module TimeParseProofs.

(** ** Computations that return *)

Definition returns {A} (m : option A) (P : A -> Prop) : Prop := exists x, m = Some x /\ P x.

Lemma returns_some {A} (x : A) (P : A -> Prop) : P x -> returns (Some x) P.
Proof. intros H. by exists x. Qed.

Lemma returns_bind {A B} (m : option A) (f : A -> option B) (Q : A -> Prop) (P : B -> Prop) :
  returns m Q -> (forall x, Q x -> returns (f x) P) -> returns (x ← m; f x) P.
Proof. intros (x & -> & HQ) Hf. exact (Hf x HQ). Qed.

Lemma returns_mono {A} (m : option A) (Q P : A -> Prop) :
  returns m Q -> (forall x, Q x -> P x) -> returns m P.
Proof. intros (x & -> & HQ) H. exists x. auto. Qed.

(** Goes through one binding, given what its computation returns. *)
Ltac go H := eapply returns_bind; [apply H|cbv beta].

(** ** Characters *)

Definition byte (c : Z) : Prop := 0 <= c < 256.

Lemma has_type_returns m c : byte c -> returns (has_type m c) (fun _ => True).
Proof.
  intros Hc. unfold has_type.
  destruct (lookup_lt_is_Some_2 IntConv.ctype_latin1 (S (Z.to_nat c))) as [t ->];
    [change (length IntConv.ctype_latin1) with 257%nat; unfold byte in Hc; lia|].
  by apply returns_some.
Qed.

Lemma digit_code c : byte c -> my_isdigit c = Some true -> 48 <= c <= 57.
Proof.
  intros Hc. assert (H : Forall (fun c => my_isdigit c = Some true -> 48 <= c <= 57) (seqZ 0 256)).
  { apply (bool_decide_unpack _). vm_compute. exact I. }
  rewrite Forall_forall in H. apply H, elem_of_seqZ. unfold byte in Hc. lia.
Qed.

Section safety.
Context (str : list Z) (Hbytes : Forall byte str).

Notation len := (length str).

Lemma char_returns s : (s < len)%nat -> returns (str !! s) byte.
Proof.
  intros [c Hc]%lookup_lt_is_Some_2. exists c. split; [done|].
  exact (Forall_lookup_1 _ _ _ _ Hbytes Hc).
Qed.

Lemma digit_at_returns s : (s < len)%nat ->
  returns (digit_at str s) (fun b => b = true -> exists c, str !! s = Some c /\ 48 <= c <= 57).
Proof.
  intros Hs. destruct (char_returns s Hs) as (c & Hc & Hb). unfold digit_at. rewrite Hc.
  cbn [mbind option_bind]. destruct (has_type_returns _MY_NMR c Hb) as (b & E & _).
  exists b. split; [exact E|]. intros ->. eauto using digit_code.
Qed.

Lemma punct_at_returns s : (s < len)%nat -> returns (punct_at str s) (fun _ => True).
Proof. intros Hs. go char_returns; [done|]. intros c. apply has_type_returns. Qed.

Lemma space_at_returns s : (s < len)%nat -> returns (space_at str s) (fun _ => True).
Proof. intros Hs. go char_returns; [done|]. intros c. apply has_type_returns. Qed.

Lemma is_char_returns ch s : (s < len)%nat ->
  returns (c ← str !! s; Some (bool_decide (c = ch))) (fun b => True).
Proof. intros Hs. go char_returns; [done|]. intros c _. by apply returns_some. Qed.

Lemma before_returns stop p s (P : nat -> Prop) :
  (stop <= len)%nat -> (forall s, (s < len)%nat -> returns (p s) (fun b => b = true -> P s)) ->
  returns (before stop p s) (fun b => b = true -> (s < stop)%nat /\ P s).
Proof.
  intros Hst Hp. unfold before. case_decide as Hs; [|by apply returns_some].
  eapply returns_mono; [apply Hp; lia|]. auto.
Qed.

Lemma before_any stop p s :
  (stop <= len)%nat -> (forall s, (s < len)%nat -> returns (p s) (fun _ => True)) ->
  returns (before stop p s) (fun b => b = true -> (s < stop)%nat).
Proof.
  intros Hst Hp. eapply returns_mono; [apply (before_returns _ _ _ (fun _ => True)); [done|]|].
  - intros k Hk. eapply returns_mono; [by apply Hp|]. done.
  - by intros b H [? _]%H.
Qed.

Lemma skip_while_returns p fuel s stop :
  (forall s, (s < len)%nat -> returns (p s) (fun _ => True)) ->
  (s <= stop <= len)%nat -> (stop - s < fuel)%nat ->
  returns (skip_while p fuel s stop) (fun s' => (s <= s' <= stop)%nat).
Proof.
  intros Hp. revert s. induction fuel as [|fuel IH]; intros s Hs Hf; [lia|]. cbn [skip_while].
  go before_any; [lia|done|]. intros [] Hb.
  - specialize (Hb eq_refl). eapply returns_mono; [apply IH; lia|]. cbn. lia.
  - apply returns_some. lia.
Qed.

Lemma digit_any s : (s < len)%nat -> returns (digit_at str s) (fun _ => True).
Proof. intros Hs. by eapply returns_mono; [apply digit_at_returns|]. Qed.

Lemma skip_digits_returns s stop : (s <= stop <= len)%nat ->
  returns (skip_digits str s stop) (fun s' => (s <= s' <= stop)%nat).
Proof. intros Hs. apply skip_while_returns; [exact digit_any|lia|unfold fuel; lia]. Qed.

Lemma skip_spaces_returns s stop : (s <= stop <= len)%nat ->
  returns (skip_while (space_at str) (fuel str) s stop) (fun s' => (s <= s' <= stop)%nat).
Proof. intros Hs. apply skip_while_returns; [exact space_at_returns|lia|unfold fuel; lia]. Qed.

(** ** Numbers *)

Definition in32 (v : Z) : Prop := 0 <= v < 2 ^ 32.

Lemma u32_in32 v : in32 (u32 v).
Proof. unfold in32, u32. apply Z.mod_pos_bound. lia. Qed.

Lemma u32_le v : 0 <= v -> u32 v <= v.
Proof. intros Hv. unfold u32. apply Z.mod_le; lia. Qed.

(** Each digit multiplies the bound of the value by ten. *)
Lemma number_loop_returns fuel s stop v k :
  (s <= stop <= len)%nat -> (stop - s < fuel)%nat -> in32 v -> v < 10 ^ Z.of_nat k ->
  returns (number_loop str fuel s stop v)
    (fun '(v', s') => (s <= s' <= stop)%nat /\ in32 v' /\ v' < 10 ^ Z.of_nat (k + (s' - s))).
Proof.
  revert s v k. induction fuel as [|fuel IH]; intros s v k Hs Hf Hv Hk; [lia|]. cbn [number_loop].
  go before_returns; [lia|exact digit_at_returns|]. intros [] Hb.
  - destruct (Hb eq_refl) as (Hlt & c & -> & Hc). cbn [mbind option_bind].
    eapply returns_mono; [apply (IH (S s) _ (S k)); [lia|lia|apply u32_in32|]|].
    + eapply Z.le_lt_trans; [apply u32_le; unfold in32 in Hv; lia|].
      rewrite Nat2Z.inj_succ, Z.pow_succ_r by lia. lia.
    + intros [v' s'] (H1 & H2 & H3). replace (k + (s' - s))%nat with (S k + (s' - S s))%nat by lia.
      repeat split; [lia|lia|apply H2|apply H2|exact H3].
  - apply returns_some. rewrite Nat.sub_diag, Nat.add_0_r. auto with lia.
Qed.

(** [get_number] leaves everything as it was at the end of the string, fails
    at a character that is no digit and reads a number otherwise. *)
Lemma get_number_returns v n s stop :
  (s <= len)%nat -> (stop <= len)%nat -> in32 v ->
  returns (get_number str v n s stop) (fun '(e, v', n', s') =>
    in32 v' /\
    ((stop <= s)%nat /\ e = false /\ v' = v /\ n' = n /\ s' = s \/
     (s < stop)%nat /\ e = true /\ v' = v /\ n' = n /\ s' = s \/
     (s < s' <= stop)%nat /\ e = false /\ n' = n + 1 /\ v' < 10 ^ Z.of_nat (s' - s))).
Proof.
  intros Hs Hst Hv. unfold get_number. case_decide as Hle.
  { apply returns_some. split; [done|]. left. done. }
  go digit_at_returns; [lia|]. intros [] Hd; cbn [negb].
  - destruct (Hd eq_refl) as (c & -> & Hc). cbn [mbind option_bind].
    go (number_loop_returns (fuel str) (S s) stop (u32 (c - 48)) 1); [lia|unfold fuel; lia|apply u32_in32| |].
    { eapply Z.le_lt_trans; [apply u32_le; lia|lia]. }
    intros [v' s'] (H1 & H2 & H3). apply returns_some. split; [done|]. right. right.
    replace (s' - s)%nat with (1 + (s' - S s))%nat by lia. split; [lia|done].
  - apply returns_some. split; [done|]. right. left. repeat split; lia.
Qed.


Lemma get_digits_returns v n s stop l :
  (s <= stop <= len)%nat -> in32 v -> (0 < l)%nat ->
  returns (get_digits str v n s stop l) (fun '(e, v', n', s') =>
    in32 v' /\
    (s = stop /\ e = false /\ v' = v /\ n' = n /\ s' = s \/
     (s < stop)%nat /\ e = true /\ v' = v /\ n' = n /\ s' = s \/
     (s < s' <= stop)%nat /\ (s' <= s + l)%nat /\ e = false /\ n' = n + 1 /\ v' < 10 ^ Z.of_nat (s' - s))).
Proof.
  intros Hs Hv Hl. eapply returns_mono; [apply get_number_returns; [lia|lia|done]|].
  intros [[[e v'] n'] s'] (H & [(? & ?)|[(? & ?)|(? & ? & ? & ?)]]); (split; [done|]).
  - left. split; [lia|done].
  - right. left. split; [lia|done].
  - right. right. split_and!; try done; lia.
Qed.

(** The microseconds are below 1000000. *)
Lemma get_microseconds_returns status n s stop :
  (s <= stop <= len)%nat ->
  returns (get_microseconds str status n s stop) (fun '(v, status', n', s') =>
    0 <= v <= TIME_MAX_SECOND_PART /\ n <= n' /\ (s <= s' <= stop)%nat).
Proof.
  intros Hs. unfold get_microseconds. go (get_digits_returns 0 n s stop 6); [done|unfold in32; lia|lia|].
  intros [[[e tmp] n'] s1] (H32 & Hc).
  assert (Hb : (s <= s1 <= stop)%nat /\ (s1 <= s + 6)%nat /\ n <= n' /\ 0 <= tmp < 10 ^ Z.of_nat (s1 - s)).
  { unfold in32 in H32. destruct Hc as [(? & ? & -> & -> & ->)|[(? & ? & -> & -> & ->)|(? & ? & ? & ? & ?)]];
      split_and!; try lia. all: rewrite Nat.sub_diag; lia. }
  clear Hc. destruct Hb as (Hb1 & Hb2 & Hn & Hv).
  apply (returns_bind _ _ (fun v => 0 <= v <= TIME_MAX_SECOND_PART)).
  { unfold TIME_MAX_SECOND_PART. remember (s1 - s)%nat as d.
    assert (d <= 6)%nat as Hd by lia. clear -Hv Hd.
    do 7 (destruct d as [|d]; [apply returns_some; lia|]). lia. }
  intros v Hv'. go before_returns; [lia|exact digit_at_returns|]. intros d Hd.
  eapply (returns_bind _ _ (fun _ => True)).
  { destruct d; [|by apply returns_some]. destruct (Hd eq_refl) as (_ & c & -> & _). by apply returns_some. }
  intros st' _. go skip_digits_returns; [lia|]. intros s' Hs'. apply returns_some. split_and!; try lia; apply Hv'.
Qed.

Lemma get_punct_returns s stop : (s <= stop <= len)%nat ->
  returns (get_punct str s stop) (fun '(e, s') => (s <= s' <= stop)%nat /\ (s = stop -> s' = s)).
Proof.
  intros Hs. unfold get_punct. case_decide; [apply returns_some; lia|].
  go punct_at_returns; [lia|]. intros [] _; apply returns_some; lia.
Qed.

Lemma get_date_time_separator_returns n pn s stop : (s <= stop <= len)%nat ->
  returns (get_date_time_separator str n pn s stop) (fun '(e, n', s') =>
    (s <= s' <= stop)%nat /\ (s = stop -> s' = s) /\ (n' = n \/ e = true /\ n' = 0)).
Proof.
  intros Hs. unfold get_date_time_separator. case_decide; [apply returns_some; split_and!; auto; lia|].
  go char_returns; [lia|]. intros c _. case_decide; [apply returns_some; split_and!; auto; lia|].
  go punct_at_returns; [lia|]. intros [] _.
  { destruct pn; apply returns_some; split_and!; auto; lia. }
  go space_at_returns; [lia|]. intros [] _; cbn [negb].
  - go skip_spaces_returns; [lia|]. intros s' Hs'. apply returns_some. split_and!; auto; lia.
  - apply returns_some; split_and!; auto; lia.
Qed.

Lemma get_maybe_T_returns s stop : (s <= stop <= len)%nat ->
  returns (get_maybe_T str s stop) (fun s' => (s <= s' <= stop)%nat).
Proof.
  intros Hs. go before_any; [lia|exact (is_char_returns 84)|]. intros [] H; apply returns_some; [|lia].
  specialize (H eq_refl). lia.
Qed.

(** ** The fields of a datetime *)

Definition time_zero (t : MYSQL_TIME) : Prop := hour t = 0 /\ minute t = 0 /\ second t = 0.

Record raw (t : MYSQL_TIME) : Prop := mk_raw {
  raw_date : in32 (year t) /\ in32 (month t) /\ in32 (day t);
  raw_time : in32 (hour t) /\ in32 (minute t) /\ in32 (second t);
  raw_rest : second_part t = 0 /\ neg t = false /\ time_type t = MYSQL_TIMESTAMP_DATE
}.

Class Field (get : MYSQL_TIME -> Z) (set : MYSQL_TIME -> Z -> MYSQL_TIME) : Prop := {
  field_get t : raw t -> in32 (get t);
  field_raw t v : raw t -> in32 v -> raw (set t v);
  field_same t : set t (get t) = t
}.

Class KeepsYear (set : MYSQL_TIME -> Z -> MYSQL_TIME) : Prop := keeps_year t v : year (set t v) = year t.

#[local] Ltac solve_field :=
  split; [by intros ? [(?&?&?) (?&?&?) _]|
          by intros ? ? [(?&?&?) (?&?&?) ?] ?; split; cbn|by intros []].

#[local] Instance year_field : Field year set_year. Proof. solve_field. Qed.
#[local] Instance month_field : Field month set_month. Proof. solve_field. Qed.
#[local] Instance day_field : Field day set_day. Proof. solve_field. Qed.
#[local] Instance hour_field : Field hour set_hour. Proof. solve_field. Qed.
#[local] Instance minute_field : Field minute set_minute. Proof. solve_field. Qed.
#[local] Instance second_field : Field second set_second. Proof. solve_field. Qed.
#[local] Instance month_keeps : KeepsYear set_month. Proof. done. Qed.
#[local] Instance day_keeps : KeepsYear set_day. Proof. done. Qed.
#[local] Instance hour_keeps : KeepsYear set_hour. Proof. done. Qed.
#[local] Instance minute_keeps : KeepsYear set_minute. Proof. done. Qed.
#[local] Instance second_keeps : KeepsYear set_second. Proof. done. Qed.

(** Before the field number [k]: either all fields before it were read or the
    string has ended, and the time of the day is zero unless part of it was
    read.  The year is below [B]. *)
Definition safe (B : Z) (stop : nat) (st : pstate) : Prop :=
  (raw (p_time st) /\ year (p_time st) < B) /\ (p_str st <= stop)%nat /\ 0 <= p_nof st /\
  (time_zero (p_time st) \/ 4 <= p_nof st).

Definition inv (B : Z) (stop : nat) (k : Z) (st : pstate) : Prop :=
  safe B stop st /\ p_nof st <= k /\ (p_nof st = k \/ p_str st = stop).

Definition moves (B : Z) (stop : nat) (k k' : Z) (a : action) : Prop := forall st, inv B stop k st ->
  returns (a st) (fun '(e, st') => safe B stop st' /\ (e = false -> inv B stop k' st')).

Lemma moves_or_else B stop k k1 k2 a b :
  moves B stop k k1 a -> moves B stop k1 k2 b -> moves B stop k k2 (or_else a b).
Proof.
  intros Ha Hb st Hst. unfold or_else. go Ha; [exact Hst|]. intros [[] st'] [Hs Hi].
  - by apply returns_some.
  - exact (Hb st' (Hi eq_refl)).
Qed.

#[local] Ltac solve_inv :=
  repeat first [progress intros | progress split_and!];
  auto with lia; try done; lia.

Lemma field_step B stop k st e v n s get set :
  Field get set -> KeepsYear set -> inv B stop k st -> in32 v ->
  (forall t v, time_zero t -> time_zero (set t v)) \/ 3 <= k ->
  (p_str st = stop /\ e = false /\ v = get (p_time st) /\ n = p_nof st /\ s = p_str st \/
   e = true /\ v = get (p_time st) /\ n = p_nof st /\ s = p_str st \/
   (p_str st < s <= stop)%nat /\ e = false /\ n = p_nof st + 1) ->
  safe B stop (mk_pstate (set (p_time st) v) n s) /\
  (e = false -> inv B stop (k + 1) (mk_pstate (set (p_time st) v) n s)).
Proof.
  intros HF HK (((Hraw & HB) & Hstr & Hn & Hz) & Hk & Hend) Hv Hset Hc. unfold inv, safe. cbn [p_time p_nof p_str].
  destruct Hc as [(? & -> & -> & -> & ->)|[(-> & -> & -> & ->)|(? & -> & ->)]]; rewrite ?field_same.
  - solve_inv.
  - solve_inv.
  - assert (time_zero (set (p_time st) v) \/ 4 <= p_nof st + 1).
    { destruct Hset as [Hset|Hset]; [destruct Hz; [left; auto|right; lia]|right; lia]. }
    pose proof (field_raw (p_time st) v Hraw Hv). rewrite keeps_year. solve_inv.
Qed.

Lemma number_moves B stop k get set : (stop <= len)%nat -> Field get set -> KeepsYear set ->
  (forall t v, time_zero t -> time_zero (set t v)) \/ 3 <= k ->
  moves B stop k (k + 1) (number str stop get set).
Proof.
  intros Hst HF HK Hset st Hi. pose proof Hi as (((Hraw & HB) & Hstr & Hn & Hz) & Hk & Hend). unfold number.
  go get_number_returns; [lia|done|by apply field_get|]. intros [[[e v] n] s] [Hv Hc]. apply returns_some.
  eapply field_step; [done..|]. destruct Hc as [(? & ?)|[(? & ?)|(? & ? & ? & ?)]]; [left|right; left|right; right].
  - split; [lia|done].
  - done.
  - split_and!; try done; lia.
Qed.

Lemma fixed_moves B stop k l get set : (stop <= len)%nat -> Field get set -> KeepsYear set -> (0 < l)%nat ->
  (forall t v, time_zero t -> time_zero (set t v)) \/ 3 <= k ->
  moves B stop k (k + 1) (fixed str stop l get set).
Proof.
  intros Hst HF HK Hl Hset st Hi. pose proof Hi as (((Hraw & HB) & Hstr & Hn & Hz) & Hk & Hend). unfold fixed.
  go get_digits_returns; [lia|by apply field_get|done|]. intros [[[e v] n] s] [Hv Hc]. apply returns_some.
  eapply field_step; [done..|]. destruct Hc as [(? & ?)|[(? & ?)|(? & ? & ? & ? & ?)]]; [left|right; left|right; right].
  - done.
  - done.
  - split_and!; try done; lia.
Qed.

Lemma punct_moves B stop k : (stop <= len)%nat -> moves B stop k k (punct str stop).
Proof.
  intros Hst st (((Hraw & HB) & Hstr & Hn & Hz) & Hk & Hend). unfold punct. go get_punct_returns; [lia|].
  intros [e s] [Hs He]. apply returns_some. unfold inv, safe. cbn [p_time p_nof p_str].
  solve_inv.
Qed.

Lemma maybe_T_moves B stop k : (stop <= len)%nat -> moves B stop k k (maybe_T str stop).
Proof.
  intros Hst st (((Hraw & HB) & Hstr & Hn & Hz) & Hk & Hend). unfold maybe_T. go get_maybe_T_returns; [lia|].
  intros s Hs. apply returns_some. unfold inv, safe. cbn [p_time p_nof p_str].
  solve_inv.
Qed.

(** A separator that is refused resets the number of fields, before the time
    of the day. *)
Lemma separator_moves B stop pn : (stop <= len)%nat -> moves B stop 3 3 (separator str stop pn).
Proof.
  intros Hst st (((Hraw & HB) & Hstr & Hn & Hz) & Hk & Hend). unfold separator.
  go get_date_time_separator_returns; [lia|].
  intros [[e n] s] (Hs & He & Hc). apply returns_some. unfold inv, safe. cbn [p_time p_nof p_str].
  assert (time_zero (p_time st)) by (destruct Hz; [done|lia]).
  destruct Hc as [->|[-> ->]]; solve_inv.
Qed.

#[local] Hint Resolve moves_or_else number_moves fixed_moves punct_moves maybe_T_moves separator_moves : moves.
#[local] Hint Extern 1 (Field _ _) => typeclasses eauto : moves.
#[local] Hint Extern 1 (KeepsYear _) => typeclasses eauto : moves.
#[local] Hint Extern 2 (_ \/ 3 <= _) => first [right; lia | left; done] : moves.
#[local] Hint Extern 1 (_ < _)%nat => lia : moves.

(** What follows the year in the two formats. *)
Definition internal_rest (stop : nat) : action :=
  or_else (fixed str stop 2 month set_month) (or_else (fixed str stop 2 day set_day)
  (or_else (maybe_T str stop) (or_else (fixed str stop 2 hour set_hour)
  (or_else (fixed str stop 2 minute set_minute) (fixed str stop 2 second set_second))))).

Lemma internal_rest_moves B stop : (stop <= len)%nat -> moves B stop 1 6 (internal_rest stop).
Proof. intros Hst. change 6 with (1 + 1 + 1 + 1 + 1 + 1). unfold internal_rest. eauto 20 with moves. Qed.

Lemma delimited_format_moves B stop pn : (stop <= len)%nat -> moves B stop 1 6 (delimited_format str stop pn).
Proof.
  intros Hst. unfold delimited_format. change 6 with (3 + 1 + 1 + 1).
  do 3 (eapply moves_or_else; [eauto with moves|]).
  change (1 + 1) with 2. eapply (moves_or_else _ _ _ 3); [apply (number_moves _ _ 2); eauto with moves|].
  eauto 20 with moves.
Qed.

Definition start (s0 : nat) : pstate := mk_pstate (set_zero_time MYSQL_TIMESTAMP_DATE) 0 s0.

(** The year has as many digits as were read. *)
Lemma year_step s0 stop e v n s B :
  (s0 <= stop)%nat -> in32 v -> 10 ^ Z.of_nat (s - s0) <= B ->
  (s0 = stop /\ e = false /\ v = 0 /\ n = 0 /\ s = s0 \/
   e = true /\ v = 0 /\ n = 0 /\ s = s0 \/
   (s0 < s <= stop)%nat /\ e = false /\ n = 1 /\ v < 10 ^ Z.of_nat (s - s0)) ->
  safe B stop (mk_pstate (set_year (p_time (start s0)) v) n s) /\
  (e = false -> inv B stop 1 (mk_pstate (set_year (p_time (start s0)) v) n s)).
Proof.
  intros Hs Hv HB Hc.
  assert (Hraw : raw (set_year (p_time (start s0)) v)) by (split; cbn; unfold in32 in *; split_and!; done || lia).
  assert (Hz : time_zero (set_year (p_time (start s0)) v)) by done.
  unfold inv, safe. destruct Hc as [(? & -> & -> & -> & ->)|[(-> & -> & -> & ->)|(? & -> & -> & ?)]];
    cbn [p_time p_nof p_str start set_year year] in *; try (rewrite Nat.sub_diag in HB); solve_inv.
Qed.

Lemma internal_format_returns s0 stop l : (s0 <= stop <= len)%nat -> (0 < l)%nat ->
  returns (internal_format str stop l (start s0)) (fun '(e, st) =>
    safe (10 ^ Z.of_nat l) stop st /\ (e = false -> inv (10 ^ Z.of_nat l) stop 6 st)).
Proof.
  intros Hs Hl. change (internal_format str stop l) with (or_else (fixed str stop l year set_year) (internal_rest stop)).
  unfold or_else. apply (returns_bind _ _ (fun '(e, st) =>
    safe (10 ^ Z.of_nat l) stop st /\ (e = false -> inv (10 ^ Z.of_nat l) stop 1 st))).
  - unfold fixed. go (get_digits_returns 0 0 s0 stop l); [lia|unfold in32; lia|done|].
    intros [[[e v] n] s] [Hv Hc]. apply returns_some. apply year_step; [lia|done| |].
    + apply Z.pow_le_mono_r; [lia|]. destruct Hc as [(? & ? & ? & ? & ->)|[(? & ? & ? & ? & ->)|?]]; lia.
    + naive_solver lia.
  - intros [[] st] [Hsafe He]; [by apply returns_some|].
    eapply returns_mono; [apply internal_rest_moves; [lia|exact (He eq_refl)]|]. done.
Qed.

Lemma delimited_year_returns s0 stop : (s0 <= stop <= len)%nat ->
  returns (number str stop year set_year (start s0)) (fun '(e, st) =>
    safe (10 ^ Z.of_nat (p_str st - s0)) stop st /\
    (e = false -> inv (10 ^ Z.of_nat (p_str st - s0)) stop 1 st)).
Proof.
  intros Hs. unfold number. go (get_number_returns 0 0 s0 stop); [lia|lia|unfold in32; lia|].
  intros [[[e v] n] s] [Hv Hc]. apply returns_some. apply year_step; [lia|done|done|].
  destruct Hc as [?|[?|?]]; [left|right; left|right; right]; naive_solver lia.
Qed.

Lemma read_fields_returns s0 stop pn : (s0 <= stop <= len)%nat ->
  returns (read_fields str s0 stop pn)
    (fun '(w, st, yl) => safe (10 ^ Z.of_nat yl) stop st /\ (w = false -> p_nof st = 6 \/ p_str st = stop)).
Proof.
  intros Hs. unfold read_fields. fold (start s0).
  go skip_digits_returns; [lia|]. intros pos Hpos. go get_maybe_T_returns; [lia|]. intros t Ht.
  apply (returns_bind _ _ (fun '(pos, _) => (pos <= stop)%nat)).
  { case_decide; [apply returns_some; lia|]. go skip_digits_returns; [lia|]. intros e He.
    apply returns_some. lia. }
  clear pos Hpos Ht. intros [pos digits] Hpos. go before_any; [lia|exact (is_char_returns 46)|].
  intros dot Hdot. apply (returns_bind _ _ (fun _ => True)).
  { destruct dot; [|by apply returns_some]. specialize (Hdot eq_refl). cbn [andb].
    case_bool_decide; [|by apply returns_some]. by eapply returns_mono; [apply skip_digits_returns; lia|]. }
  clear pos dot Hpos Hdot. intros pos _. case_decide.
  - set (yl := if bool_decide _ then 4%nat else 2%nat).
    assert (0 < yl)%nat as Hyl by (subst yl; case_bool_decide; lia). clearbody yl.
    eapply returns_bind; [apply internal_format_returns; lia|]. intros [e st] [Hsafe He].
    apply returns_some. split; [done|]. intros ->. apply (He eq_refl).
  - go delimited_year_returns; [lia|]. intros [e st] [Hsafe He]. destruct e; [by apply returns_some|].
    go delimited_format_moves; [lia|exact (He eq_refl)|].
    intros [e' st'] [Hsafe' He']. apply returns_some. split; [done|]. intros ->. apply (He' eq_refl).
Qed.

(** ** What is accepted *)

Definition not_zero (t : MYSQL_TIME) : bool :=
  negb ((year t =? 0) && (month t =? 0) && (day t =? 0) && (hour t =? 0) &&
    (minute t =? 0) && (second t =? 0) && (second_part t =? 0)).

(** Dates have no time of the day, the fields are in range and [check_date]
    accepts the date under the flags. *)
Definition well_formed (t : MYSQL_TIME) (flags : Z) : Prop :=
  (time_type t = MYSQL_TIMESTAMP_DATE /\ time_zero t /\ second_part t = 0 \/
   time_type t = MYSQL_TIMESTAMP_DATETIME) /\
  (0 <= year t <= 9999 /\ 0 <= month t <= 12 /\ 0 <= day t <= 31) /\
  (0 <= hour t <= 23 /\ 0 <= minute t <= 59 /\ 0 <= second t <= 59 /\
   0 <= second_part t <= TIME_MAX_SECOND_PART) /\
  neg t = false /\
  check_date t (not_zero t) flags 0 = Some (false, 0).

Definition rejected (t : MYSQL_TIME) (st : MYSQL_TIME_STATUS) : Prop :=
  (time_type t = MYSQL_TIMESTAMP_NONE \/ time_type t = MYSQL_TIMESTAMP_ERROR) /\ warnings st ≠ 0.

Lemma warn_nonzero st w : w ≠ 0 -> warnings (warn st w) ≠ 0.
Proof. cbn. intros Hw H. apply Z.lor_eq_0_iff in H. lia. Qed.

Lemma check_date_returns t nz flags w :
  time_type t = MYSQL_TIMESTAMP_DATE -> 0 <= month t <= 12 ->
  returns (check_date t nz flags w) (fun '(bad, w') =>
    if (bad : bool) then w' ≠ 0
    else w' = w /\ forall ty, ty ≠ MYSQL_TIMESTAMP_TIME -> check_date (set_time_type t ty) nz flags 0 = Some (false, 0)).
Proof.
  intros Hty Hm. unfold check_date. cbn [set_time_type year month day neg time_type].
  rewrite decide_False by (rewrite Hty; done).
  destruct nz; [|destruct (has_flag flags C_TIME_NO_ZERO_DATE); apply returns_some].
  - destruct (_ || neg t); [by apply returns_some|].
    destruct (_ || (month t =? 0)) eqn:E; [apply returns_some; split; [done|]; intros; by rewrite decide_False|].
    destruct (lookup_lt_is_Some_2 days_in_month (Z.to_nat (month t - 1))) as [d ->]; [cbn; lia|].
    cbn [mbind option_bind]. destruct (_ && _); apply returns_some; [done|].
    split; [done|]. intros. by rewrite decide_False.
  - intros H%Z.lor_eq_0_iff. unfold MYSQL_TIME_WARN_ZERO_DATE in H. lia.
  - split; [done|]. intros. by rewrite decide_False.
Qed.

Lemma finish_body_returns t nof s stop e yl flags st :
  raw (set_second_part t 0) -> 0 <= second_part t <= TIME_MAX_SECOND_PART ->
  (nof <= 3 -> time_zero t /\ second_part t = 0) -> year t < 10 ^ Z.of_nat yl ->
  returns (finish_body t nof s stop e yl flags st) (fun r =>
    b_endptr r = e /\
    if b_error r then rejected (b_time r) (b_status r)
    else well_formed (b_time r) flags).
Proof.
  intros [[(Hy & _) [(Hm & _) (Hd & _)]] [(Hh & _) [(Hmi & _) (Hse & _)]] (_ & Hng & Hty)] Hsp Hz HB.
  cbn [set_second_part year month day hour minute second neg time_type] in *.
  unfold finish_body. change (negb _) with (not_zero t). set (nz := not_zero t).
  match goal with |- context [if decide (yl = 2%nat) then ?a else t] =>
    set (t' := if decide (yl = 2%nat) then a else t) end.
  assert (Ht : exists y, t' = set_year t y /\ 0 <= y /\ not_zero (set_year t y) = nz).
  { subst t' nz. case_decide as Hyl; [|exists (year t); split_and!; by destruct t].
    destruct (not_zero t) eqn:E; [|exists (year t); split_and!; by destruct t].
    subst yl. change (10 ^ Z.of_nat 2) with 100 in HB. eexists. split_and!; [done|apply u32_in32|].
    unfold not_zero. cbn [set_year year]. rewrite (proj2 (Z.eqb_neq _ 0)); [done|].
    unfold u32, YY_PART_YEAR. case_if; rewrite Z.mod_small; lia. }
  clearbody t'. destruct Ht as (y & -> & Hy0 & Hynz). cbn [set_year year month day hour minute second].
  match goal with |- context [if ?b then _ else _] => destruct b eqn:Hr end.
  { apply returns_some. split; [done|]. split; [by right|]. by apply warn_nonzero. }
  rewrite !orb_false_iff, !Z.ltb_ge in Hr.
  go (check_date_returns (set_year t y) nz flags (warnings st)); [done|cbn; lia|].
  intros [[] w] Hcd.
  { apply returns_some. split; [done|]. split; [by right|done]. }
  destruct Hcd as [-> Hcd]. apply returns_some. split; [done|]. cbn [b_error b_time].
  unfold well_formed. cbn [set_time_type set_year year month day hour minute second second_part neg time_type].
  split_and!; try lia; try done.
  - destruct (nof <=? 3) eqn:E; [left|by right]. apply Z.leb_le in E. split; [done|]. by apply Hz.
  - change (not_zero _) with (not_zero (set_year t y)). rewrite Hynz. apply Hcd. by destruct (_ <=? _).
Qed.

Lemma body_returns s0 stop flags pn st : (s0 <= stop <= len)%nat ->
  returns (str_to_datetime_or_date_body str s0 stop flags pn st) (fun r =>
    (b_endptr r <= stop)%nat /\
    if b_error r then rejected (b_time r) (b_status r) else well_formed (b_time r) flags).
Proof.
  intros Hs. unfold str_to_datetime_or_date_body. go read_fields_returns; [done|].
  intros [[w ps] yl] [((Hraw & HB) & Hstr & Hn & Hz) Hw]. destruct (_ <? 3) eqn:E3.
  { apply returns_some. split; [done|]. split; [by left|by apply warn_nonzero]. }
  apply Z.ltb_ge in E3. go before_any; [lia|exact (is_char_returns 46)|]. intros dot Hdot.
  destruct w; cbn [negb andb]; [|destruct dot].
  2: { specialize (Hdot eq_refl). go get_microseconds_returns; [lia|]. intros [[[us st'] nof] s] (Hus & Hnof & Hs').
    eapply returns_mono; [apply finish_body_returns|].
    - destruct Hraw as [? ? (? & ? & ?)]. split; cbn; auto.
    - done.
    - intros ?. destruct (Hw eq_refl); lia.
    - done.
    - cbn. intros r [-> ?]. split; [lia|done]. }
  all: pose proof (raw_rest _ Hraw) as (Hsp & Hng & Hty); eapply returns_mono; [apply finish_body_returns|];
    [by destruct Hraw; split|rewrite Hsp; unfold TIME_MAX_SECOND_PART; lia|
     intros ?; split; [destruct Hz; [done|lia]|done]|done|cbn; intros r [-> ?]; split; [lia|done]].
Qed.

(** ** Days, hours, minutes and seconds *)

Definition in64 (v : Z) : Prop := 0 <= v < 2 ^ 64.

Lemma value_loop_returns fuel limit s stop v :
  (s <= stop <= len)%nat -> (stop - s < fuel)%nat -> in64 v ->
  returns (value_loop str fuel limit s stop v) (fun '(r, s') =>
    (s <= s' <= stop)%nat /\ match r with Some v => in64 v | None => limit ≠ None end).
Proof.
  revert s v. induction fuel as [|fuel IH]; intros s v Hs Hf Hv; [lia|]. cbn [value_loop].
  apply (returns_bind _ _ (fun d => d = true -> (s < stop)%nat /\ exists c, str !! s = Some c)).
  { case_decide; [by apply returns_some|]. eapply returns_mono; [apply digit_at_returns; lia|].
    intros b Hd Hb. destruct (Hd Hb) as (c & ? & _). split; [lia|eauto]. }
  intros [] Hd; [|by apply returns_some; split; [lia|]].
  destruct (Hd eq_refl) as (Hlt & c & ->). cbn [mbind option_bind].
  assert (Hu : in64 (u64 (v * 10 + (c - 48)))) by (unfold in64, u64; apply Z.mod_pos_bound; lia).
  destruct limit as [l|]; [destruct (l <=? _); [by apply returns_some; split; [lia|]|]|];
    (eapply returns_mono; [apply IH; [lia|lia|done]|]; intros [r s'] [? ?]; split; [lia|done]).
Qed.

Lemma separator_and_digit_returns s stop : (s <= stop <= len)%nat ->
  returns (separator_and_digit str s stop) (fun b => b = true -> (s < stop)%nat).
Proof.
  intros Hs. unfold separator_and_digit. case_decide; [by apply returns_some|].
  go char_returns; [lia|]. intros c _. case_decide; [|by apply returns_some].
  eapply returns_mono; [apply digit_any; lia|]. intros; lia.
Qed.

Lemma fields_loop_returns fuel date state s stop :
  (1 <= state <= 3)%nat -> (4 - state < fuel)%nat -> length date = 4%nat -> Forall in64 date ->
  (s <= stop <= len)%nat ->
  returns (fields_loop str fuel date state s stop) (fun '(date', _, s') =>
    length date' = 4%nat /\ Forall in64 date' /\ (s' <= stop)%nat).
Proof.
  revert date state s. induction fuel as [|fuel IH]; intros date state s Hst Hf Hl Hd Hs; [lia|].
  cbn [fields_loop]. go value_loop_returns; [lia|lia|unfold in64; lia|].
  intros [[v|] s1] [Hs1 Hv]; [|done]. cbn [mbind option_bind].
  destruct (lookup_lt_is_Some_2 date state) as [x Hx]; [lia|]. rewrite Hx. cbn [mbind option_bind].
  assert (Hd' : Forall in64 (<[state:=v]> date)) by by apply Forall_insert.
  assert (Hl' : length (<[state:=v]> date) = 4%nat) by by rewrite length_insert.
  case_decide; [apply returns_some; split_and!; [done|done|lia]|].
  go separator_and_digit_returns; [lia|]. intros [] Hb; [|apply returns_some; split_and!; [done|done|lia]].
  specialize (Hb eq_refl). apply IH; [lia|lia|done|done|lia].
Qed.

Lemma exponent_at_returns s stop : (s <= stop <= len)%nat ->
  returns (exponent_at str s stop) (fun _ => True).
Proof.
  intros Hs. unfold exponent_at. case_decide; [by apply returns_some|].
  go char_returns; [lia|]. intros c _. case_bool_decide; [|by apply returns_some].
  go digit_any; [lia|]. intros [] _; [by apply returns_some|].
  go char_returns; [lia|]. intros c1 _. destruct (bool_decide (c1 = 45 \/ c1 = 43)); [|by apply returns_some].
  cbn [andb]. case_bool_decide; [|by apply returns_some]. apply digit_any. lia.
Qed.

(** A time of at most [max_hour] hours. *)
Definition time_ok (max_hour : Z) (t : MYSQL_TIME) : Prop :=
  time_type t = MYSQL_TIMESTAMP_TIME /\ (year t = 0 /\ month t = 0 /\ day t = 0) /\
  0 <= hour t <= max_hour /\ 0 <= minute t <= 59 /\ 0 <= second t <= 59 /\
  0 <= second_part t <= TIME_MAX_SECOND_PART.

Lemma check_time_range_returns h mi se us ng max_hour err_hour w :
  in32 h -> in32 mi -> in32 se -> 0 <= us <= TIME_MAX_SECOND_PART -> 0 <= max_hour ->
  returns (check_time_range_internal (mk_time 0 0 0 h mi se us ng MYSQL_TIMESTAMP_TIME) max_hour err_hour 6 w)
    (fun '(bad, t, w') => if (bad : bool) then w' ≠ 0 else time_ok max_hour t /\ neg t = ng /\ (w' = 0 -> w = 0)).
Proof.
  intros Hh Hmi Hse Hus Hmax. unfold check_time_range_internal. cbn [hour minute second day second_part].
  destruct (_ || _) eqn:E; [apply returns_some; by apply (warn_nonzero (mk_status w 0 0))|].
  rewrite !orb_false_iff, !Z.leb_gt, Z.ltb_ge in E.
  replace (u32 (h + u32 (24 * 0))) with h by (unfold u32; cbn; rewrite Z.mod_small; unfold in32 in Hh; lia).
  rewrite decide_False by done. cbn [max_sec_part lookup list_lookup mbind option_bind].
  unfold in32 in *. unfold TIME_MAX_SECOND_PART in *.
  destruct (max_hour <? h) eqn:E1; [|destruct (_ || _); [|destruct (us <=? 999999) eqn:E2]];
    apply returns_some; unfold time_ok, TIME_MAX_MINUTE, TIME_MAX_SECOND, TIME_MAX_SECOND_PART; cbn;
    rewrite ?Z.ltb_ge in E1; (split_and!; try done; try lia); intros H%Z.lor_eq_0_iff; lia.
Qed.

(** A successful result with characters left over has a warning. *)
Definition time_post (max_hour : Z) (ng : bool) (stop : nat) (r : time_result) : Prop :=
  let '(bad, t, st, e) := r in
  (e <= stop)%nat /\
  if (bad : bool) then warnings st ≠ 0
  else (exists t', t = Some t' /\ time_ok max_hour t' /\ neg t' = ng) /\ ((e < stop)%nat -> warnings st ≠ 0).

Lemma fractional_returns ng date s stop max_hour err_hour st :
  (s <= stop <= len)%nat -> length date = 4%nat -> Forall in64 date -> 0 <= max_hour ->
  returns (fractional str ng date s stop max_hour err_hour st) (time_post max_hour ng stop).
Proof.
  intros Hs Hl Hd Hmax. unfold fractional. go before_any; [lia|exact (is_char_returns 46)|]. intros dot Hdot.
  apply (returns_bind _ _ (fun '(us, _, s') => 0 <= us <= TIME_MAX_SECOND_PART /\ (s' <= stop)%nat)).
  { destruct dot; [|apply returns_some; unfold TIME_MAX_SECOND_PART; lia]. specialize (Hdot eq_refl).
    go get_microseconds_returns; [lia|]. intros [[[us st'] n] s'] (H1 & _ & H2). apply returns_some. split; [done|lia]. }
  intros [[us st'] s'] [Hus Hs']. go exponent_at_returns; [lia|]. intros [] _.
  { apply returns_some. split; [done|]. by apply warn_nonzero. }
  destruct date as [|d0 [|d1 [|d2 [|d3 [|]]]]]; try done.
  apply Forall_cons in Hd as [H0 Hd]. apply Forall_cons in Hd as [H1 Hd].
  apply Forall_cons in Hd as [H2 Hd]. apply Forall_cons in Hd as [H3 _].
  match goal with |- context [if ?b then _ else _] => destruct b eqn:E end.
  { apply returns_some. split; [done|]. by apply warn_nonzero. }
  rewrite !orb_false_iff, !Z.ltb_ge in E. unfold UINT_MAX32, in64 in *.
  go check_time_range_returns; [apply u32_in32|unfold in32; lia|unfold in32; lia|done|done|].
  intros [[[] t] w] Hc; apply returns_some; (split; [done|]); [done|].
  destruct Hc as (Ht & Hng & _). split; [eauto|]. intros Hlt. rewrite decide_False by lia. by apply warn_nonzero.
Qed.

Lemma internal_returns ng s stop max_hour err_hour st :
  (s <= stop <= len)%nat -> 0 <= max_hour ->
  returns (str_to_DDhhmmssff_internal str ng s stop max_hour err_hour st) (time_post max_hour ng stop).
Proof.
  intros Hs Hmax. unfold str_to_DDhhmmssff_internal.
  go value_loop_returns; [lia|unfold fuel; lia|unfold in64; lia|]. intros [[v|] s1] [Hs1 Hv].
  2: { apply returns_some. split; [lia|]. by apply warn_nonzero. }
  go skip_spaces_returns; [lia|]. intros s2 Hs2. apply (returns_bind _ _ (fun _ => True)).
  { destruct (bool_decide (s2 + 2 <= stop)%nat) eqn:E; cbn [andb]; [|by apply returns_some].
    apply bool_decide_eq_true in E. case_bool_decide; [apply digit_any; lia|by apply returns_some]. }
  assert (in64 0) by (unfold in64; lia). intros [] _.
  { go fields_loop_returns; [lia|lia|done|by rewrite !Forall_cons|lia|]. intros [[date k] s3] (? & ? & ?).
    apply fractional_returns; [lia|done..]. }
  go separator_and_digit_returns; [lia|]. intros [] Hb.
  - destruct (_ <=? _); [apply returns_some; split; [lia|by apply warn_nonzero]|]. specialize (Hb eq_refl).
    go fields_loop_returns; [lia|lia|done|by rewrite !Forall_cons|lia|]. intros [[date k] s3] (? & ? & ?).
    apply fractional_returns; [lia|done..].
  - apply fractional_returns; [lia|done| |done]. rewrite !Forall_cons. unfold in64 in *.
    split_and!; try done; dlia.
Qed.

(** ** The body of the string *)

Lemma get_suffix_returns s l g : (s + l <= len)%nat ->
  returns (get_suffix str s l g) (fun '(_, l') => (l' <= l)%nat).
Proof.
  revert g. induction l as [|l IH]; intros g Hs; cbn [get_suffix]; [by apply returns_some|].
  assert (Hrec : forall g, returns (get_suffix str s l g) (fun '(_, l') => (l' <= S l)%nat)).
  { intros g'. eapply returns_mono; [apply IH; lia|]. intros [? ?]. lia. }
  go char_returns; [lia|]. intros c Hc. go has_type_returns; [done|]. intros d _.
  go has_type_returns; [done|]. intros p _. destruct (d || p); [by apply returns_some|].
  go has_type_returns; [done|]. intros [] _; [apply Hrec|].
  apply (returns_bind _ _ (fun _ => True)).
  { destruct (bool_decide (c = 84)); cbn [andb]; [|by apply returns_some].
    case_bool_decide; [apply digit_any; lia|by apply returns_some]. }
  intros [] _; [by apply returns_some|apply Hrec].
Qed.

Lemma get_sign_returns s stop : (s <= stop <= len)%nat ->
  returns (get_sign str s stop) (fun '(_, s') => (s <= s' <= stop)%nat).
Proof.
  intros Hs. unfold get_sign. case_decide; [|by apply returns_some; lia].
  go char_returns; [lia|]. intros c _. apply returns_some. case_bool_decide; lia.
Qed.

Lemma find_body_returns length : (length <= len)%nat ->
  returns (find_body str length) (fun f =>
    (f_str f <= f_end f <= length)%nat /\ (f_error f = true -> f_warn f ≠ 0)).
Proof.
  intros Hl. unfold find_body. go skip_spaces_returns; [lia|]. intros s Hs.
  go get_sign_returns; [lia|]. intros [ng s1] Hs1. go skip_spaces_returns; [lia|]. intros s2 Hs2.
  go get_suffix_returns; [lia|]. intros [g l] Hl'. apply (returns_bind _ _ (fun _ => True)).
  { case_decide; [by apply returns_some|]. apply digit_any. lia. }
  intros d _. apply returns_some. cbn. split; [lia|]. destruct d; [done|]. intros _ H%Z.lor_eq_0_iff. by destruct H.
Qed.

Definition answers (good : MYSQL_TIME -> Prop) (r : parse_result) : Prop :=
  let '(bad, t, st) := r in if (bad : bool) then warnings st ≠ 0 else good t.

Lemma set_neg_answers (good : MYSQL_TIME -> Prop) ng st t :
  good t -> (time_type t ≠ MYSQL_TIMESTAMP_TIME -> neg t = false) ->
  (time_type t = MYSQL_TIMESTAMP_TIME -> forall n, good (mk_time (year t) (month t) (day t) (hour t)
     (minute t) (second t) (second_part t) n (time_type t))) ->
  answers good (set_neg ng st t).
Proof.
  intros Hg Hn Ht. unfold set_neg, answers. destruct ng; cbn [andb].
  - case_bool_decide; [by apply warn_nonzero|]. by apply Ht.
  - destruct (decide (time_type t = MYSQL_TIMESTAMP_TIME)); [by apply Ht|].
    specialize (Hn n). destruct t; cbn in *; by subst.
Qed.

Lemma well_formed_type t flags : well_formed t flags -> time_type t ≠ MYSQL_TIMESTAMP_TIME.
Proof. intros [[(-> & _)| ->] _]; done. Qed.

Lemma datetime_answers length flags : (length <= len)%nat ->
  returns (str_to_datetime_or_date str length flags) (answers (fun t => well_formed t flags)).
Proof.
  intros Hl. unfold str_to_datetime_or_date. go find_body_returns; [done|]. intros f [Hf He].
  destruct (f_error f); [apply returns_some; apply warn_nonzero; auto|].
  go body_returns; [lia|]. intros r [_ Hr]. destruct (b_error r); apply returns_some; [apply Hr|].
  apply set_neg_answers; [done|by intros _; apply Hr|]. by intros ?%(well_formed_type _ _ Hr).
Qed.

(** ** Dates, datetimes and times *)

Lemma used_chars_returns n s u : (s + n <= len)%nat -> returns (used_chars str n s u) (fun _ => True).
Proof.
  revert s u. induction n as [|n IH]; intros s u Hs; cbn [used_chars]; [by apply returns_some|].
  go char_returns; [lia|]. intros c Hc. go has_type_returns; [done|]. intros p _. apply IH. lia.
Qed.

Lemma statistics_returns s e : (s <= len)%nat -> (e <= len)%nat ->
  returns (mysql_time_used_char_statistics_init str s e) (fun _ => True).
Proof. intros Hs He. apply used_chars_returns. lia. Qed.

Lemma candidate_loop_returns n s ad an z : (s + n <= len)%nat ->
  returns (candidate_loop str n s ad an z) (fun _ => True).
Proof.
  revert s z. induction n as [|n IH]; intros s z Hs; cbn [candidate_loop]; [by apply returns_some|].
  go char_returns; [lia|]. intros c Hc. case_decide; [by apply returns_some|].
  case_decide; [by apply returns_some|]. go has_type_returns; [done|]. intros [] _; [|apply IH; lia].
  destruct (_ && _); [by apply returns_some|apply IH; lia].
Qed.

Lemma candidate_returns s stop ad an : (s <= stop <= len)%nat ->
  returns (is_datetime_body_candidate str s stop ad an) (fun _ => True).
Proof.
  intros Hs. unfold is_datetime_body_candidate. case_decide; [by apply returns_some|].
  destruct (_ && _); [by apply returns_some|]. apply candidate_loop_returns. lia.
Qed.

Definition date_or_time (max_hour flags : Z) (t : MYSQL_TIME) : Prop :=
  well_formed t flags \/ time_ok max_hour t.

Lemma time_body_answers s stop max_hour err_hour st flags : (s <= stop <= len)%nat -> 0 <= max_hour ->
  returns (time_body str s stop max_hour err_hour st) (answers (date_or_time max_hour flags)).
Proof.
  intros Hs Hmax. unfold time_body. go internal_returns; [done..|].
  intros [[[[] t] st'] e] [_ H]; [by apply returns_some|].
  destruct H as [(t' & -> & Ht & _) _]. apply returns_some. by right.
Qed.

Lemma temporal_body_answers s stop flags st max_hour err_hour ad an : (s <= stop <= len)%nat -> 0 <= max_hour ->
  returns (str_to_datetime_or_date_or_time_body str s stop flags st max_hour err_hour ad an)
    (answers (date_or_time max_hour flags)).
Proof.
  intros Hs Hmax. unfold str_to_datetime_or_date_or_time_body. go candidate_returns; [done|].
  assert (Hgo : forall st, returns (time_body str s stop max_hour err_hour st) (answers (date_or_time max_hour flags)))
    by (intros; by apply time_body_answers).
  intros [] _; cbn [negb]; [|apply Hgo]. go body_returns; [done|]. intros r [He Hr].
  destruct (b_error r).
  - destruct Hr as [[-> | ->] Hw].
    + destruct (an && _); [|apply Hgo]. go statistics_returns; [lia|lia|]. intros u _.
      destruct (_ && _); [by apply returns_some|apply Hgo].
    + destruct (_ <? _); [by apply returns_some|]. go statistics_returns; [lia|lia|]. intros u _.
      destruct (_ || _); [by apply returns_some|apply Hgo].
  - assert (Hd : date_or_time max_hour flags (b_time r)) by by left.
    destruct Hr as [[(-> & _)| ->] _]; [|by apply returns_some].
    go statistics_returns; [lia|lia|]. intros u _. destruct (_ || _); [by apply returns_some|apply Hgo].
Qed.

Lemma temporal_answers length flags max_hour err_hour ad an : (length <= len)%nat -> 0 <= max_hour ->
  returns (str_to_temporal str length flags max_hour err_hour ad an) (answers (date_or_time max_hour flags)).
Proof.
  intros Hl Hmax. unfold str_to_temporal. go find_body_returns; [done|]. intros f [Hf He].
  destruct (f_error f); [apply returns_some; apply warn_nonzero; auto|].
  go temporal_body_answers; [lia|done|]. intros [[[] t] st] Ht; apply returns_some; [done|].
  apply set_neg_answers; [done|..].
  - intros Hty. destruct Ht as [Ht|Ht]; [apply Ht|by destruct Hty; apply Ht].
  - intros Hty n. destruct Ht as [Ht|Ht]; [by apply well_formed_type in Ht|]. right. exact Ht.
Qed.

Lemma interval_answers length max_hour : (length <= len)%nat -> 0 <= max_hour ->
  returns (str_to_DDhhmmssff str length max_hour) (fun '(bad, t, st) =>
    if (bad : bool) then warnings st ≠ 0 else exists t', t = Some t' /\ time_ok max_hour t').
Proof.
  intros Hl Hmax. unfold str_to_DDhhmmssff. go find_body_returns; [done|]. intros f [Hf He].
  destruct (f_error f); [apply returns_some; apply warn_nonzero; auto|].
  assert (Hscan : forall st, returns (scan_DDhhmmssff str f max_hour st) (fun '(bad, t, st) =>
    if (bad : bool) then warnings st ≠ 0 else exists t', t = Some t' /\ time_ok max_hour t')).
  { intros st. go internal_returns; [lia|done|]. intros [[[[] t] st'] e] [He' H]; [by apply returns_some|].
    destruct H as [(t' & -> & Ht & _) Hw]. go before_any; [lia|exact (is_char_returns 45)|].
    intros [] Hb; apply returns_some; [auto|eauto]. }
  go candidate_returns; [lia|]. intros [] _; cbn [negb]; [|apply Hscan].
  go body_returns; [lia|]. intros r _.
  destruct (time_type _); try apply Hscan; apply returns_some; by apply warn_nonzero.
Qed.
End safety.


(** ** The theorems *)

(** C15: On every string of bytes, with every length that lies in it and all
    flags, [str_to_datetime_or_date] returns without reading past the length
    and its loops end.  If it succeeds, the result is a DATE whose time of the
    day is zero or a DATETIME; every field is in its range (years up to 9999,
    microseconds below 1000000), it is not negative, and [check_date] accepts
    it under the flags.  If it fails, the status has a warning. *)
Theorem parse_datetime_typed str length flags :
  Forall byte str -> (length <= List.length str)%nat ->
  exists bad t st, str_to_datetime_or_date str length flags = Some (bad, t, st) /\
    (bad = false -> well_formed t flags) /\ (bad = true -> warnings st ≠ 0).
Proof.
  intros Hb Hl. destruct (datetime_answers str Hb length flags Hl) as ([[bad t] st] & -> & H).
  exists bad, t, st. split; [done|]. by destruct bad.
Qed.

(** Whatever the bytes: here [2000-01-01 1] and a byte 255. *)
Lemma parse_datetime_typed_witness :
  let str := [50; 48; 48; 48; 45; 48; 49; 45; 48; 49; 32; 49; 255] in
  str_to_datetime_or_date str 13 C_TIME_NO_ZERO_DATE =
    Some (false, mk_time 2000 1 1 1 0 0 0 false MYSQL_TIMESTAMP_DATETIME, mk_status 1 0 0) /\
  exists bad t st, str_to_datetime_or_date str 13 C_TIME_NO_ZERO_DATE = Some (bad, t, st) /\
    (bad = false -> well_formed t C_TIME_NO_ZERO_DATE) /\ (bad = true -> warnings st ≠ 0).
Proof.
  split; [vm_compute; reflexivity|]. apply parse_datetime_typed; [|cbn; lia].
  repeat (constructor; [unfold byte; lia|]). constructor.
Defined.

(** C18: The same for times.  On every string of bytes
    [str_to_datetime_or_date_or_time], its two variants for intervals and
    [str_to_DDhhmmssff] return; what they accept is a well-formed date or
    datetime (not [str_to_DDhhmmssff]) or a time of at most [max_hour] hours
    with the other fields in range, and what they reject has a warning. *)
Theorem parse_time_typed str length flags max_hour err_hour :
  Forall byte str -> (length <= List.length str)%nat -> 0 <= max_hour ->
  (forall parse, parse = str_to_datetime_or_date_or_time \/
     parse = str_to_datetime_or_date_or_interval_hhmmssff \/
     parse = str_to_datetime_or_date_or_interval_day ->
   exists bad t st, parse str length flags max_hour err_hour = Some (bad, t, st) /\
     (bad = false -> well_formed t flags \/ time_ok max_hour t) /\ (bad = true -> warnings st ≠ 0)) /\
  exists bad t st, str_to_DDhhmmssff str length max_hour = Some (bad, t, st) /\
    (bad = false -> exists t', t = Some t' /\ time_ok max_hour t') /\ (bad = true -> warnings st ≠ 0).
Proof.
  intros Hb Hl Hmax. split.
  - intros parse Hp.
    assert (H : returns (parse str length flags max_hour err_hour) (answers (date_or_time max_hour flags)))
      by (destruct Hp as [->|[->| ->]]; by apply temporal_answers).
    destruct H as ([[bad t] st] & -> & H). exists bad, t, st. split; [done|]. by destruct bad.
  - destruct (interval_answers str Hb length max_hour Hl Hmax) as ([[bad t] st] & -> & H).
    exists bad, t, st. split; [done|]. by destruct bad.
Qed.

(** [-34 22:59:59x] is 838 hours and garbage. *)
Lemma parse_time_typed_witness :
  let str := [45; 51; 52; 32; 50; 50; 58; 53; 57; 58; 53; 57; 120] in
  str_to_datetime_or_date_or_time str 13 0 TIME_MAX_HOUR UINT_MAX32 =
    Some (false, mk_time 0 0 0 838 59 59 0 true MYSQL_TIMESTAMP_TIME, mk_status 1 0 0) /\
  (forall parse, parse = str_to_datetime_or_date_or_time \/
     parse = str_to_datetime_or_date_or_interval_hhmmssff \/
     parse = str_to_datetime_or_date_or_interval_day ->
   exists bad t st, parse str 13%nat 0 TIME_MAX_HOUR UINT_MAX32 = Some (bad, t, st) /\
     (bad = false -> well_formed t 0 \/ time_ok TIME_MAX_HOUR t) /\ (bad = true -> warnings st ≠ 0)) /\
  exists bad t st, str_to_DDhhmmssff str 13 TIME_MAX_HOUR = Some (bad, t, st) /\
    (bad = false -> exists t', t = Some t' /\ time_ok TIME_MAX_HOUR t') /\ (bad = true -> warnings st ≠ 0).
Proof.
  split; [vm_compute; reflexivity|].
  apply (parse_time_typed _ 13 0 TIME_MAX_HOUR UINT_MAX32); [|cbn; lia|unfold TIME_MAX_HOUR; lia].
  repeat (constructor; [unfold byte; lia|]). constructor.
Defined.
End TimeParseProofs.
