(* ===== verification/TimeTextProofs.v ===== *)
(** * Printed times are read back

    What [my_datetime_to_str] and [my_time_to_str] print is parsed to the same
    value, cut to the decimals that were printed; and [get_number] takes the
    value of a number modulo [2^32]. *)

From S2P Require Import Prelude IntConv IntConvProofs IntPrint MyTime TimeArith TimeText TimeParse TimeParseProofs.
Import IntConvProofs IntPrint MyTime TimeArith TimeText TimeParse TimeParseProofs.

#[local] Open Scope Z_scope.

Module TimeTextProofs.

(** ** Numbers in a text *)

(** [l] is a numeral of [v]. *)
Definition num_text (v : Z) (l : list Z) : Prop :=
  exists ds, l = decimal ds /\ digits 10 ds /\ ds ≠ [] /\ val 10 0 ds = v.

#[local] Ltac solve_digits := unfold digits; rewrite !Forall_cons; split_and!; try apply Forall_nil; dlia || done.

Lemma num_text_decimal ds : digits 10 ds -> ds ≠ [] -> num_text (val 10 0 ds) (decimal ds).
Proof. intros. by exists ds. Qed.

Lemma fmt_number2_text v : 0 <= v < 100 ->
  fmt_number2 v = Some (decimal [v / 10; v mod 10]).
Proof.
  intros Hv. assert (H : Forall (fun v => fmt_number2 v = Some (decimal [v / 10; v mod 10])) (seqZ 0 100)).
  { apply (bool_decide_unpack _). vm_compute. exact I. }
  rewrite Forall_forall in H. apply H, elem_of_seqZ. lia.
Qed.

Lemma number2 v : 0 <= v < 100 -> exists l, fmt_number2 v = Some l /\ num_text v l /\ length l = 2%nat.
Proof.
  intros Hv. exists (decimal [v / 10; v mod 10]). split; [by apply fmt_number2_text|]. split; [|done].
  exists [v / 10; v mod 10]. split; [done|]. split; [solve_digits|]. split; [done|]. unfold val; cbn [fold_left]. dlia.
Qed.

Lemma number4 v : 0 <= v < 10000 -> exists l, fmt_number4 v = Some l /\ num_text v l /\ length l = 4%nat.
Proof.
  intros Hv. unfold fmt_number4. rewrite (Z.mod_small v) by lia.
  rewrite !fmt_number2_text by dlia. cbn [mbind option_bind]. eexists. split; [done|]. split; [|done].
  exists [v / 100 / 10; (v / 100) mod 10; v mod 100 / 10; (v mod 100) mod 10].
  split; [done|]. split; [solve_digits|]. split; [done|]. unfold val; cbn [fold_left]. dlia.
Qed.

Lemma number6 v : 0 <= v < 1000000 -> exists l, fmt_number6 v = Some l /\ num_text v l /\ length l = 6%nat.
Proof.
  intros Hv. unfold fmt_number6. rewrite !fmt_number2_text by dlia. cbn [mbind option_bind].
  eexists. split; [done|]. split; [|done].
  exists [v / 10000 / 10; (v / 10000) mod 10; v mod 10000 / 100 / 10; (v mod 10000 / 100) mod 10;
          (v mod 10000) mod 100 / 10; ((v mod 10000) mod 100) mod 10].
  split; [done|]. split; [solve_digits|]. split; [done|]. unfold val; cbn [fold_left]. dlia.
Qed.

(** A digit before a numeral. *)
Lemma leading_digit d v l k : 0 <= d < 10 -> num_text v l -> length l = k ->
  num_text (d * 10 ^ Z.of_nat k + v) ((48 + d) :: l).
Proof.
  intros Hd (ds & -> & HF & Hne & <-) <-. exists (d :: ds). split; [done|]. split; [by constructor|].
  split; [done|]. change (d :: ds) with ([d] ++ ds). rewrite val_app, (val_acc _ _ (val 10 0 [d])).
  unfold decimal. rewrite length_map. cbn. lia.
Qed.

Lemma usec_text v dec : (1 <= dec <= 6)%nat -> 0 <= v < 10 ^ Z.of_nat dec ->
  exists l, fmt_usec v dec = Some l /\ num_text v l /\ length l = dec.
Proof.
  intros Hd Hv. assert (dec = 1 \/ dec = 2 \/ dec = 3 \/ dec = 4 \/ dec = 5 \/ dec = 6)%nat as H by lia.
  destruct H as [->|[->|[->|[->|[->| ->]]]]]; cbn [fmt_usec].
  - exists (decimal [v]). cbn in Hv. rewrite Z.mod_small by lia. split; [done|]. split; [|done].
    apply (num_text_decimal [v]); [solve_digits|done].
  - by apply number2.
  - destruct (number2 (v mod 100)) as (l & -> & Ht & Hl); [dlia|]. eexists. split; [done|]. split; [|by cbn; rewrite Hl].
    pose proof (leading_digit (v / 100 mod 10) _ _ _ ltac:(dlia) Ht Hl) as H. cbn in H.
    by replace (_ * 100 + _) with v in H by dlia.
  - by apply number4.
  - destruct (number4 (v mod 10000)) as (l & -> & Ht & Hl); [dlia|]. eexists. split; [done|]. split; [|by cbn; rewrite Hl].
    pose proof (leading_digit (v / 10000 mod 10) _ _ _ ltac:(dlia) Ht Hl) as H. cbn in H.
    by replace (_ * 10000 + _) with v in H by dlia.
  - by apply number6.
Qed.

Lemma print_unsigned_text v : 0 <= v < 2 ^ 63 ->
  exists l, print_unsigned v = Some l /\ num_text v l /\ l = decimal (numeral 10 v).
Proof.
  intros Hv. exists (decimal (numeral 10 v)). unfold print_unsigned.
  rewrite int10_to_str_text by lia. cbn [mbind option_bind].
  unfold printed, IntConv.sign_of. rewrite !decide_False, Z.mod_small by lia. cbn [app].
  rewrite length_app, Nat.add_sub, take_app_length. split; [done|]. split; [|done].
  rewrite <- (numeral_val 10 ltac:(lia) v) at 1 by lia. apply num_text_decimal; [by apply numeral_digits|].
  destruct (numeral_cases 10 ltac:(lia) v) as [->|(? & ? & -> & _)]; done || lia.
Qed.


(** ** Parts of a string *)

(** The list [l] stands at offset [s] of [str]. *)
Definition sub (str : list Z) (s : nat) (l : list Z) : Prop :=
  forall i, (i < length l)%nat -> str !! (s + i)%nat = l !! i.

Lemma sub_app str s a b : sub str s (a ++ b) <-> sub str s a /\ sub str (s + length a) b.
Proof.
  split.
  - intros H. split; intros i Hi.
    + rewrite H by (rewrite length_app; lia). by rewrite lookup_app_l.
    + rewrite <- Nat.add_assoc, H by (rewrite length_app; lia). rewrite lookup_app_r by lia. f_equal. lia.
  - intros [Ha Hb] i Hi. rewrite length_app in Hi. destruct (decide (i < length a)%nat).
    + rewrite Ha, lookup_app_l by done. done.
    + rewrite lookup_app_r by lia. rewrite <- Hb by lia. f_equal. lia.
Qed.

Lemma sub_char str s c : sub str s [c] <-> str !! s = Some c.
Proof.
  split; [intros H; specialize (H 0%nat); rewrite Nat.add_0_r in H; apply H; cbn; lia|].
  intros H [|i] Hi; [by rewrite Nat.add_0_r|cbn in Hi; lia].
Qed.

Lemma sub_self str : sub str 0 str.
Proof. by intros i Hi. Qed.

Lemma sub_behind sg body : sub (sg ++ body) (length sg) body.
Proof. intros i Hi. rewrite lookup_app_r by lia. f_equal. lia. Qed.

Lemma sub_cons str s c l : sub str s (c :: l) -> str !! s = Some c /\ sub str (S s) l.
Proof.
  change (c :: l) with ([c] ++ l). rewrite sub_app, sub_char. cbn [length].
  by rewrite Nat.add_1_r.
Qed.

Lemma isdigit_decimal d : 0 <= d < 10 -> my_isdigit (48 + d) = Some true.
Proof.
  intros Hd. assert (H : Forall (fun d => my_isdigit (48 + d) = Some true) (seqZ 0 10)).
  { apply (bool_decide_unpack _). vm_compute. exact I. }
  rewrite Forall_forall in H. apply H, elem_of_seqZ. lia.
Qed.

Lemma space_decimal d : 0 <= d < 10 -> my_isspace (48 + d) = Some false.
Proof.
  intros Hd. assert (H : Forall (fun d => my_isspace (48 + d) = Some false) (seqZ 0 10)).
  { apply (bool_decide_unpack _). vm_compute. exact I. }
  rewrite Forall_forall in H. apply H, elem_of_seqZ. lia.
Qed.

(** No digit at [p], or the end. *)
Definition stops (str : list Z) (stop p : nat) : Prop := before stop (digit_at str) p = Some false.

Lemma stops_end str stop : stops str stop stop.
Proof. unfold stops, before. by rewrite decide_False by lia. Qed.

Lemma stops_char str stop p c : str !! p = Some c -> my_isdigit c = Some false -> stops str stop p.
Proof. intros Hc Hd. unfold stops, before, digit_at. rewrite Hc. by case_decide. Qed.

Section reading.
Context (str : list Z) (stop : nat).

Lemma digit_here s c l : (s < stop)%nat -> sub str s ((48 + c) :: l) -> 0 <= c < 10 ->
  before stop (digit_at str) s = Some true /\ digit_at str s = Some true.
Proof.
  intros Hs [Hc _]%sub_cons Hd. unfold before, digit_at. rewrite decide_True, Hc by done.
  split; by apply isdigit_decimal.
Qed.

Lemma skip_decimal ds s fuel : digits 10 ds -> sub str s (decimal ds) -> (s + length ds <= stop)%nat ->
  stops str stop (s + length ds) -> (length ds < fuel)%nat ->
  skip_while (digit_at str) fuel s stop = Some (s + length ds)%nat.
Proof.
  revert s fuel. induction ds as [|d ds IH]; intros s [|fuel] HF Hsub Hl Hst Hf; try (cbn in Hf; lia); cbn [skip_while].
  - cbn [length] in *. rewrite Nat.add_0_r in *. by rewrite Hst.
  - apply Forall_cons in HF as [Hd HF]. cbn [length] in *.
    destruct (digit_here s d (decimal ds)) as [-> _]; [lia|done|done|]. cbn [mbind option_bind].
    apply sub_cons in Hsub as [_ Hsub]. rewrite <- Nat.add_succ_comm in *. apply IH; [done|done|lia|done|lia].
Qed.

(** The value is taken modulo [2^32]. *)
Lemma number_decimal ds s fuel w : digits 10 ds -> sub str s (decimal ds) -> (s + length ds <= stop)%nat ->
  stops str stop (s + length ds) -> (length ds < fuel)%nat ->
  number_loop str fuel s stop (u32 w) = Some (u32 (val 10 w ds), (s + length ds)%nat).
Proof.
  revert s fuel w. induction ds as [|d ds IH]; intros s [|fuel] w HF Hsub Hl Hst Hf; try (cbn in Hf; lia); cbn [number_loop].
  - cbn [length] in *. rewrite Nat.add_0_r in *. by rewrite Hst.
  - apply Forall_cons in HF as [Hd HF]. cbn [length] in *.
    destruct (digit_here s d (decimal ds)) as [-> _]; [lia|done|done|]. cbn [mbind option_bind].
    apply sub_cons in Hsub as [Hc Hsub]. rewrite Hc. cbn [mbind option_bind]. rewrite <- Nat.add_succ_comm in *.
    replace (u32 (u32 w * 10 + (48 + d) - 48)) with (u32 (w * 10 + d)).
    + apply IH; [done|done|lia|done|lia].
    + unfold u32. replace (w mod 2 ^ 32 * 10 + (48 + d) - 48) with (w mod 2 ^ 32 * 10 + d) by lia.
      by rewrite <- (Zplus_mod_idemp_l (w mod _ * 10)), Zmult_mod_idemp_l, Zplus_mod_idemp_l.
Qed.

Lemma get_number_text v l old n s : num_text v l -> sub str s l -> (s + length l <= stop <= length str)%nat ->
  stops str stop (s + length l) ->
  get_number str old n s stop = Some (false, u32 v, n + 1, (s + length l)%nat).
Proof.
  intros (ds & -> & HF & Hne & <-) Hsub Hl Hst. destruct ds as [|d ds]; [done|].
  apply Forall_cons in HF as [Hd HF]. unfold decimal in *. cbn [map length] in *. rewrite length_map in *.
  unfold get_number. rewrite decide_False by lia.
  destruct (digit_here s d (decimal ds)) as [_ ->]; [lia|done|done|]. cbn [mbind option_bind negb].
  apply sub_cons in Hsub as [Hc Hsub]. rewrite Hc. cbn [mbind option_bind].
  replace (48 + d - 48) with (0 * 10 + d) by lia. rewrite <- Nat.add_succ_comm in *.
  rewrite (number_decimal ds) by (done || unfold fuel; lia). done.
Qed.

Lemma skip_digits_text v l s : num_text v l -> sub str s l -> (s + length l <= stop <= length str)%nat ->
  stops str stop (s + length l) -> skip_digits str s stop = Some (s + length l)%nat.
Proof.
  intros (ds & -> & HF & Hne & <-) Hsub Hl Hst. unfold decimal in *. rewrite length_map in *.
  apply skip_decimal; try done; unfold fuel; lia.
Qed.

Lemma skip_digits_none s : stops str stop s -> skip_digits str s stop = Some s.
Proof. intros Hs. unfold skip_digits, fuel. cbn [skip_while]. by rewrite Hs. Qed.

Lemma get_microseconds_text v l st n s dec :
  num_text v l -> length l = dec -> (1 <= dec <= 6)%nat -> sub str s l -> (s + dec = stop /\ stop <= length str)%nat ->
  0 <= v < 10 ^ Z.of_nat dec ->
  exists f, log_10_int !! (6 - dec)%nat = Some f /\
    get_microseconds str st n s stop =
    Some (v * f, mk_status (warnings st) (Z.of_nat dec) (nanoseconds st), n + 1, stop).
Proof.
  intros Ht Hlen Hdec Hsub Hl Hv. unfold get_microseconds, get_digits.
  replace (Nat.min stop (s + 6)) with stop by lia.
  rewrite (get_number_text v l) by (done || rewrite ?Hlen; try lia; rewrite (proj1 Hl); apply stops_end).
  cbn [mbind option_bind]. rewrite Hlen. replace (s + dec - s)%nat with dec by lia. rewrite (proj1 Hl).
  rewrite (stops_end str stop). rewrite (skip_digits_none _ (stops_end _ _)).
  assert (Hp : 10 ^ Z.of_nat dec <= 10 ^ 6) by (apply Z.pow_le_mono_r; lia).
  replace (u32 v) with v by (unfold u32; rewrite Z.mod_small; lia).
  assert (dec = 1 \/ dec = 2 \/ dec = 3 \/ dec = 4 \/ dec = 5 \/ dec = 6)%nat as H by lia.
  destruct H as [->|[->|[->|[->|[->| ->]]]]]; eexists; (split; [reflexivity|]);
    case_decide; try lia; cbn [Nat.sub lookup list_lookup log_10_int mbind option_bind]; try done;
    by rewrite decide_True, ?Z.mul_1_r by done.
Qed.


(** ** Fields *)

Lemma or_else_ok (a b : action) st st' : a st = Some (false, st') -> or_else a b st = b st'.
Proof. intros H. unfold or_else. by rewrite H. Qed.

Lemma number_text get set v l t n s : num_text v l -> sub str s l -> (s + length l <= stop <= length str)%nat ->
  stops str stop (s + length l) ->
  number str stop get set (mk_pstate t n s) = Some (false, mk_pstate (set t (u32 v)) (n + 1) (s + length l)).
Proof. intros. unfold number. cbn [p_time p_nof p_str]. by rewrite (get_number_text v l). Qed.

Lemma punct_char c t n s : str !! s = Some c -> my_ispunct c = Some true -> (s < stop)%nat ->
  punct str stop (mk_pstate t n s) = Some (false, mk_pstate t n (S s)).
Proof.
  intros Hc Hp Hs. unfold punct, get_punct, punct_at. cbn [p_time p_nof p_str].
  rewrite decide_False, Hc by lia. cbn [mbind option_bind]. by rewrite Hp.
Qed.

Lemma punct_here s c : str !! s = Some c -> punct_at str s = my_ispunct c.
Proof. intros H. unfold punct_at. by rewrite H. Qed.

Lemma space_here s c : str !! s = Some c -> space_at str s = my_isspace c.
Proof. intros H. unfold space_at. by rewrite H. Qed.

(** What follows the date. *)
Definition time_part (pn : bool) : action :=
  or_else (separator str stop pn) (or_else (number str stop hour set_hour) (or_else (punct str stop)
  (or_else (number str stop minute set_minute) (or_else (punct str stop) (number str stop second set_second))))).

Definition date_of (y m d : Z) : MYSQL_TIME := mk_time y m d 0 0 0 0 false MYSQL_TIMESTAMP_DATE.

Lemma char_before ch c s : str !! s = Some c ->
  before stop (fun s => c ← str !! s; Some (bool_decide (c = ch))) s =
  Some (bool_decide (s < stop)%nat && bool_decide (c = ch)).
Proof.
  intros Hc. unfold before. case_decide.
  - rewrite (bool_decide_true (s < stop)%nat) by done. by rewrite Hc.
  - by rewrite (bool_decide_false (s < stop)%nat).
Qed.

Definition delimited (c : Z) (a b d : list Z) : list Z := a ++ [c] ++ b ++ [c] ++ d.

(** Three numbers with a separator [c] between them, which is punctuation. *)
Lemma date_fields s0 c ly lm ld y m d pn :
  my_ispunct c = Some true -> my_isdigit c = Some false -> c ≠ 84 -> c ≠ 46 ->
  num_text y ly -> num_text m lm -> num_text d ld -> sub str s0 (delimited c ly lm ld) ->
  (s0 + length (delimited c ly lm ld) <= stop <= length str)%nat ->
  stops str stop (s0 + length (delimited c ly lm ld)) ->
  read_fields str s0 stop pn =
  ('(e, st) ← time_part pn (mk_pstate (date_of (u32 y) (u32 m) (u32 d)) 3
                              (s0 + length (delimited c ly lm ld)));
   Some (e, st, length ly)).
Proof.
  intros Hp Hd HT Hdot Hy Hm Hdd Hsub Hl Hst. unfold delimited in *. rewrite !sub_app, !sub_char, !length_app in *.
  cbn [length] in *. destruct Hsub as (S1 & S2 & S3 & S4 & S5).
  assert (N1 := stops_char _ stop _ _ S2 Hd). assert (N2 := stops_char _ stop _ _ S4 Hd).
  unfold read_fields. rewrite (skip_digits_text y ly) by (done || lia). cbn [mbind option_bind].
  unfold get_maybe_T. rewrite (char_before 84 c) by done. rewrite (bool_decide_false (c = 84)), andb_false_r by done.
  cbn [mbind option_bind]. rewrite decide_True by done. cbn [mbind option_bind].
  rewrite (char_before 46 c) by done. rewrite (bool_decide_false (c = 46)), andb_false_r by done.
  cbn [mbind option_bind andb]. rewrite decide_False by lia.
  rewrite (number_text _ _ y ly) by (done || lia). cbn [mbind option_bind p_str].
  unfold delimited_format. fold (time_part pn).
  rewrite (or_else_ok _ _ _ _ (punct_char _ _ _ _ S2 Hp ltac:(lia))). rewrite <- Nat.add_1_r.
  rewrite (or_else_ok _ _ _ _ (number_text _ _ m lm _ _ _ Hm S3 ltac:(lia) N2)).
  rewrite (or_else_ok _ _ _ _ (punct_char _ _ _ _ S4 Hp ltac:(lia))).
  replace (S (s0 + length ly + 1 + length lm)) with (s0 + length ly + 1 + length lm + 1)%nat by lia.
  assert (N3 : stops str stop (s0 + length ly + 1 + length lm + 1 + length ld))
    by (revert Hst; by rewrite !Nat.add_assoc).
  rewrite (or_else_ok _ _ _ _ (number_text _ _ d ld _ _ _ Hdd S5 ltac:(lia) N3)).
  rewrite !Nat.add_assoc. replace (s0 + length ly - s0)%nat with (length ly) by lia. done.
Qed.

(** The end of the string behind the date. *)
Lemma time_part_end pn t : time_part pn (mk_pstate t 3 stop) = Some (false, mk_pstate t 3 stop).
Proof.
  assert (N : forall get set, (forall t, set t (get t) = t) ->
    number str stop get set (mk_pstate t 3 stop) = Some (false, mk_pstate t 3 stop)).
  { intros get set E. unfold number, get_number. cbn [p_time p_nof p_str]. rewrite decide_True by lia. cbn. by rewrite E. }
  assert (P : punct str stop (mk_pstate t 3 stop) = Some (false, mk_pstate t 3 stop)).
  { unfold punct, get_punct. cbn [p_time p_nof p_str]. by rewrite decide_True by lia. }
  assert (Sp : separator str stop pn (mk_pstate t 3 stop) = Some (false, mk_pstate t 3 stop)).
  { unfold separator, get_date_time_separator. cbn [p_time p_nof p_str]. by rewrite decide_True by lia. }
  unfold time_part. rewrite (or_else_ok _ _ _ _ Sp), (or_else_ok _ _ _ _ (N hour set_hour ltac:(by intros []))).
  rewrite (or_else_ok _ _ _ _ P), (or_else_ok _ _ _ _ (N minute set_minute ltac:(by intros []))).
  rewrite (or_else_ok _ _ _ _ P). apply N. by intros [].
Qed.

(** A fraction where a date and time separator is needed. *)
Lemma time_part_refused t s : str !! s = Some 46 -> (s < stop)%nat ->
  time_part false (mk_pstate t 3 s) = Some (true, mk_pstate t 0 s).
Proof.
  intros Hc Hs. unfold time_part, or_else, separator, get_date_time_separator, punct_at. cbn [p_time p_nof p_str].
  by rewrite decide_False, Hc by lia.
Qed.

Lemma time_part_full pn t s lh lm ls h m sec :
  num_text h lh -> num_text m lm -> num_text sec ls -> sub str s (32 :: delimited 58 lh lm ls) ->
  (s + S (length (delimited 58 lh lm ls)) <= stop <= length str)%nat ->
  stops str stop (s + S (length (delimited 58 lh lm ls))) ->
  time_part pn (mk_pstate t 3 s) =
  Some (false, mk_pstate (set_second (set_minute (set_hour t (u32 h)) (u32 m)) (u32 sec)) 6
                 (s + S (length (delimited 58 lh lm ls)))).
Proof.
  intros Hh Hm Hsec Hsub Hl Hst. change (32 :: delimited 58 lh lm ls) with ([32] ++ delimited 58 lh lm ls) in Hsub.
  unfold delimited in *. rewrite !sub_app, !sub_char, !length_app in *.
  cbn [length] in *. destruct Hsub as (S1 & S2 & S3 & S4 & S5 & S6).
  assert (N1 := stops_char _ stop _ _ S3 eq_refl). assert (N2 := stops_char _ stop _ _ S5 eq_refl).
  assert (Sp : separator str stop pn (mk_pstate t 3 s) = Some (false, mk_pstate t 3 (s + 1))).
  { unfold separator, get_date_time_separator. cbn [p_time p_nof p_str]. rewrite decide_False, S1 by lia.
    cbn [mbind option_bind]. rewrite decide_False by done. rewrite (punct_here _ _ S1), (space_here _ _ S1).
    change (my_ispunct 32) with (Some false). change (my_isspace 32) with (Some true). cbn [mbind option_bind negb].
    destruct Hh as ([|d ds] & -> & HF & Hne & _); [done|]. apply Forall_cons in HF as [Hd _].
    apply sub_cons in S2 as [S2 _]. rewrite <- Nat.add_1_r. unfold fuel. cbn [skip_while]. unfold before.
    case_decide; [|done]. rewrite (space_here _ _ S2), space_decimal by done. done. }
  unfold time_part. rewrite (or_else_ok _ _ _ _ Sp).
  rewrite (or_else_ok _ _ _ _ (number_text _ _ h lh _ _ _ Hh S2 ltac:(lia) N1)).
  rewrite (or_else_ok _ _ _ _ (punct_char _ _ _ _ S3 eq_refl ltac:(lia))). rewrite <- Nat.add_1_r.
  rewrite (or_else_ok _ _ _ _ (number_text _ _ m lm _ _ _ Hm S4 ltac:(lia) N2)).
  rewrite (or_else_ok _ _ _ _ (punct_char _ _ _ _ S5 eq_refl ltac:(lia))).
  rewrite <- (Nat.add_1_r (s + 1 + _ + _ + _)). rewrite (number_text _ _ sec ls); [|done|done|lia|].
  - cbn. do 3 f_equal. lia.
  - by rewrite <- !Nat.add_assoc.
Qed.
End reading.

(** ** The body *)

Definition sign_text (ng : bool) : list Z := if ng then [45] else [].

Lemma first_char_not_space ng body d : 0 <= d < 10 -> body !! 0%nat = Some (48 + d) ->
  exists c, (sign_text ng ++ body) !! 0%nat = Some c /\ my_isspace c = Some false.
Proof. intros Hd Hb. destruct ng; [by exists 45|]. exists (48 + d). by rewrite space_decimal. Qed.

Lemma skip_no_space str c s stop : str !! s = Some c -> my_isspace c = Some false ->
  skip_while (space_at str) (fuel str) s stop = Some s.
Proof.
  intros Hc Hsp. unfold fuel. cbn [skip_while]. unfold before. case_decide; [|done].
  by rewrite (space_here _ _ _ Hc), Hsp.
Qed.

(** A string that begins and ends with a digit, behind a sign. *)
Lemma find_body_text ng body d e : 0 <= d < 10 -> 0 <= e < 10 ->
  body !! 0%nat = Some (48 + d) -> body !! (length body - 1)%nat = Some (48 + e) ->
  find_body (sign_text ng ++ body) (length (sign_text ng ++ body)) =
  Some (mk_found false ng 0 (length (sign_text ng)) (length (sign_text ng ++ body))).
Proof.
  intros Hd He H0 H1. pose proof (lookup_lt_Some _ _ _ H0) as Hlen. unfold find_body.
  set (str := sign_text ng ++ body).
  assert (Hbody : forall i, str !! (length (sign_text ng) + i)%nat = body !! i)
    by (intros i; unfold str; rewrite lookup_app_r by lia; f_equal; lia).
  destruct (first_char_not_space ng body d Hd H0) as (c & Hc & Hsp).
  rewrite (skip_no_space str c) by done. cbn [mbind option_bind].
  assert (Hl : length str = (length (sign_text ng) + length body)%nat) by apply length_app.
  pose proof (Hbody 0%nat) as Hfirst. rewrite Nat.add_0_r, H0 in Hfirst.
  assert (Hsign : get_sign str 0 (length str) = Some (ng, length (sign_text ng))).
  { unfold get_sign. rewrite decide_True by lia. destruct ng; [done|]. change (str !! 0%nat = Some (48 + d)) in Hfirst.
    rewrite Hfirst. cbn [mbind option_bind]. rewrite !bool_decide_false by lia. done. }
  rewrite Hsign. cbn [mbind option_bind].
  rewrite (skip_no_space str (48 + d)) by (done || by apply space_decimal). cbn [mbind option_bind].
  rewrite Hl, Nat.add_sub_swap, Nat.sub_diag, Nat.add_0_l by done.
  assert (Hsuf : get_suffix str (length (sign_text ng)) (length body) false = Some (false, length body)).
  { destruct (length body) as [|k] eqn:E; [lia|]. cbn [get_suffix]. rewrite Hbody.
    replace (S k - 1)%nat with k in H1 by lia. rewrite H1. cbn [mbind option_bind].
    rewrite isdigit_decimal by done. cbn [mbind option_bind].
    destruct (has_type_returns _MY_PNT (48 + e)) as (b & Hb & _); [unfold byte; lia|].
    unfold my_ispunct. by rewrite Hb. }
  rewrite Hsuf. cbn [mbind option_bind]. rewrite decide_False by lia.
  unfold digit_at. rewrite Hfirst. cbn [mbind option_bind]. by rewrite isdigit_decimal.
Qed.

Lemma finish_body_ok t nof stop yl flags st :
  well_formed t flags -> (nof <= 3 <-> time_type t = MYSQL_TIMESTAMP_DATE) -> yl ≠ 2%nat -> warnings st = 0 ->
  finish_body (set_time_type t MYSQL_TIMESTAMP_DATE) nof stop stop stop yl flags st =
  Some (mk_body false t st nof stop).
Proof.
  intros (Hty & (? & ? & ?) & (? & ? & ? & ?) & Hng & Hcd) Hnof Hyl Hw. unfold finish_body.
  rewrite decide_False by done. cbn [set_time_type year month day hour minute second second_part].
  rewrite !(proj2 (Z.ltb_ge _ _)) by lia. cbn [orb].
  assert (E : check_date (set_time_type t MYSQL_TIMESTAMP_DATE) (not_zero t) flags (warnings st) = Some (false, 0)).
  { rewrite Hw, <- Hcd. unfold check_date. cbn [set_time_type year month day neg time_type].
    by destruct Hty as [(-> & _)| ->]. }
  unfold set_time_type, not_zero in E. unfold set_time_type. rewrite E.
  cbn [mbind option_bind]. rewrite decide_True by done. destruct st as [w p ns]. cbn in Hw. subst w.
  do 2 f_equal. destruct t. cbn [year month day hour minute second second_part neg time_type] in *. f_equal.
  destruct (nof <=? 3) eqn:E3; [apply Z.leb_le in E3|apply Z.leb_gt in E3].
  - symmetry. by apply Hnof.
  - destruct Hty as [(Hd & _)|Hd]; [|done]. apply Hnof in Hd. lia.
Qed.

(** ** Fractions *)

Definition frac_text (us : Z) (dec : nat) (fr : list Z) : Prop :=
  dec = 0%nat /\ fr = [] \/
  (1 <= dec <= 6)%nat /\ exists f ff, log_10_int !! (6 - dec)%nat = Some f /\ fr = 46 :: ff /\
    num_text (us / f) ff /\ length ff = dec.

(** [log_10_int[6 - dec]] *)
Lemma log_10_spec dec : (dec <= 6)%nat ->
  exists f, log_10_int !! (6 - dec)%nat = Some f /\ 0 < f /\ f * 10 ^ Z.of_nat dec = 1000000.
Proof.
  intros Hd. assert (H : Forall (fun dec => match log_10_int !! (6 - dec)%nat with
    | Some f => 0 < f /\ f * 10 ^ Z.of_nat dec = 1000000 | None => False end) (seq 0 7)).
  { repeat constructor. }
  rewrite Forall_forall in H. specialize (H dec ltac:(apply elem_of_seq; lia)).
  destruct (log_10_int !! _); [eauto|done].
Qed.

Lemma frac_printed us dec : (1 <= dec <= 6)%nat -> 0 <= us <= TIME_MAX_SECOND_PART ->
  exists f ff, sec_part_shift us dec = Some f /\ fmt_usec (u32 f) dec = Some ff /\ frac_text us dec (46 :: ff).
Proof.
  intros Hd Hus. destruct (log_10_spec dec) as (f & Hf & Hpos & Hm); [lia|].
  unfold sec_part_shift, TIME_SECOND_PART_DIGITS, TIME_MAX_SECOND_PART in *. rewrite Hf. cbn [mbind option_bind].
  assert (B : 0 <= us / f < 10 ^ Z.of_nat dec).
  { split; [apply Z.div_pos; lia|]. apply Z.div_lt_upper_bound; lia. }
  assert (10 ^ Z.of_nat dec <= 10 ^ 6) by (apply Z.pow_le_mono_r; lia).
  rewrite Z.quot_div_nonneg by lia.
  destruct (usec_text (us / f) dec Hd B) as (ff & Hff & Ht & Hl). exists (us / f), ff. split; [done|].
  split; [|right; split; [done|]; by exists f, ff]. unfold u32. by rewrite Z.mod_small by lia.
Qed.

(** What parsing makes of the fraction: the microseconds cut to the decimals. *)
Lemma frac_read str p stop us dec fr st n :
  frac_text us dec fr -> 0 <= us <= TIME_MAX_SECOND_PART -> sub str p fr ->
  (p + length fr = stop)%nat -> (stop <= length str)%nat ->
  exists f, log_10_int !! (6 - dec)%nat = Some f /\
  ((dec = 0%nat /\ p = stop /\ us - Z.rem us f = 0 /\
    before stop (fun s => c ← str !! s; Some (bool_decide (c = 46))) p = Some false) \/
   (before stop (fun s => c ← str !! s; Some (bool_decide (c = 46))) p = Some true /\
    get_microseconds str st n (S p) stop =
    Some (us - Z.rem us f, mk_status (warnings st) (Z.of_nat dec) (nanoseconds st), n + 1, stop))).
Proof.
  intros Hfr Hus Hsub Hp Hst. unfold TIME_MAX_SECOND_PART in Hus.
  destruct Hfr as [[-> ->]|(Hd & f & ff & Hf & -> & Ht & Hl)].
  - exists 1000000. split; [done|]. left. cbn in Hp. rewrite Nat.add_0_r in Hp. split; [done|]. split; [done|].
    split; [rewrite Z.rem_small; lia|]. subst. unfold before. by rewrite decide_False by lia.
  - destruct (log_10_spec dec) as (f' & Hf' & Hpos & Hm); [lia|]. rewrite Hf in Hf'. injection Hf' as <-.
    apply sub_cons in Hsub as [Hdot Hsub]. cbn [length] in Hp. exists f. split; [done|]. right.
    split; [rewrite (char_before _ _ 46 46) by done; by rewrite bool_decide_true by lia|].
    destruct (get_microseconds_text str stop (us / f) ff st n (S p) dec) as (f' & Hf' & ->); try done; [lia| |].
    { split; [apply Z.div_pos; lia|]. apply Z.div_lt_upper_bound; lia. }
    rewrite Hf in Hf'. injection Hf' as <-. rewrite Z.rem_mod_nonneg, Z.mod_eq by lia.
    replace (us - (us - f * (us / f))) with (us / f * f) by lia. done.
Qed.

Lemma mmssff_text t dec : (dec <= 6)%nat ->
  0 <= minute t <= 59 -> 0 <= second t <= 59 -> 0 <= second_part t <= TIME_MAX_SECOND_PART ->
  exists mm ss fr, my_mmssff_to_str t dec = Some (mm ++ [58] ++ ss ++ fr) /\
    (num_text (minute t) mm /\ length mm = 2%nat) /\ (num_text (second t) ss /\ length ss = 2%nat) /\
    frac_text (second_part t) dec fr.
Proof.
  intros Hd Hm Hs Hus. unfold my_mmssff_to_str. rewrite decide_False by (unfold AUTO_SEC_PART_DIGITS; lia).
  destruct (number2 (minute t)) as (mm & -> & Tm & Lm); [lia|].
  destruct (number2 (second t)) as (ss & -> & Ts & Ls); [lia|]. cbn [mbind option_bind].
  case_decide as H0.
  - exists mm, ss, []. rewrite app_nil_r. split_and!; try done. by left.
  - destruct (frac_printed (second_part t) dec) as (f & ff & -> & E & Hff); [lia|done|]. cbn [mbind option_bind].
    rewrite E. cbn [mbind option_bind]. exists mm, ss, (46 :: ff). done.
Qed.

(** ** Dates and datetimes *)

Lemma num_text_first v l : num_text v l ->
  exists d, 0 <= d < 10 /\ forall post, (l ++ post) !! 0%nat = Some (48 + d).
Proof.
  intros ([|d ds] & -> & HF & Hne & _); [done|]. apply Forall_cons in HF as [Hd _]. by exists d.
Qed.

Lemma num_text_last v l : num_text v l ->
  exists d, 0 <= d < 10 /\ forall pre, (pre ++ l) !! (length (pre ++ l) - 1)%nat = Some (48 + d).
Proof.
  intros (ds & -> & HF & Hne & _). destruct (exists_last Hne) as (ds' & d & ->).
  apply Forall_app in HF as [_ HF]. apply Forall_cons in HF as [Hd _]. exists d. split; [done|]. intros pre.
  unfold decimal. rewrite map_app, app_assoc. cbn [map]. rewrite length_app. cbn [length].
  rewrite Nat.add_sub. by rewrite lookup_app_r, Nat.sub_diag by lia.
Qed.

Lemma text_found v w l pre body : num_text v l -> num_text w pre ->
  (exists mid, body = pre ++ mid) -> (exists mid, body = mid ++ l) -> forall ng,
  find_body (sign_text ng ++ body) (length (sign_text ng ++ body)) =
  Some (mk_found false ng 0 (length (sign_text ng)) (length (sign_text ng ++ body))).
Proof.
  intros Hl Hpre [m1 E1] [m2 E2] ng. destruct (num_text_first _ _ Hpre) as (d & Hd & H0).
  destruct (num_text_last _ _ Hl) as (e & He & H1). specialize (H0 m1). specialize (H1 m2).
  rewrite <- E1 in H0. rewrite <- E2 in H1. by apply (find_body_text ng body d e).
Qed.

Lemma parse_date_text ly lm ld y m d flags :
  num_text y ly -> num_text m lm -> num_text d ld -> length ly ≠ 2%nat ->
  well_formed (date_of (u32 y) (u32 m) (u32 d)) flags ->
  let str := delimited 45 ly lm ld in
  str_to_datetime_or_date str (length str) flags =
  Some (false, date_of (u32 y) (u32 m) (u32 d), mk_status 0 0 0).
Proof.
  intros Hy Hm Hd Hyl Hwf str. unfold str_to_datetime_or_date.
  assert (find_body str (length str) = Some (mk_found false false 0 0 (length str))) as ->.
  { apply (text_found d y ld ly str Hd Hy) with (ng := false); [by eexists|].
    exists (ly ++ [45] ++ lm ++ [45]). unfold str, delimited. by rewrite <- !app_assoc. }
  cbn [mbind option_bind f_error f_str f_end f_neg f_warn]. unfold str_to_datetime_or_date_body.
  rewrite (date_fields str (length str) 0 45 ly lm ld y m d); try done; [|apply stops_end].
  fold str. rewrite Nat.add_0_l, time_part_end. cbn [mbind option_bind p_nof p_str p_time].
  unfold before. rewrite decide_False by lia. cbn [Z.ltb Z.compare Pos.compare Pos.compare_cont mbind option_bind negb andb].
  change (date_of (u32 y) (u32 m) (u32 d)) with
    (set_time_type (date_of (u32 y) (u32 m) (u32 d)) MYSQL_TIMESTAMP_DATE) at 1.
  by rewrite finish_body_ok.
Qed.

Lemma parse_datetime_text ly lm ld lh lmi ls fr y m d h mi s us dec f flags :
  num_text y ly -> num_text m lm -> num_text d ld -> num_text h lh -> num_text mi lmi -> num_text s ls ->
  frac_text us dec fr -> 0 <= us <= TIME_MAX_SECOND_PART -> log_10_int !! (6 - dec)%nat = Some f ->
  length ly ≠ 2%nat ->
  let t := mk_time (u32 y) (u32 m) (u32 d) (u32 h) (u32 mi) (u32 s) (us - Z.rem us f) false MYSQL_TIMESTAMP_DATETIME in
  well_formed t flags ->
  let str := delimited 45 ly lm ld ++ (32 :: delimited 58 lh lmi ls) ++ fr in
  str_to_datetime_or_date str (length str) flags = Some (false, t, mk_status 0 (Z.of_nat dec) 0).
Proof.
  intros Hy Hm Hd Hh Hmi Hs Hfr Hus Hf Hyl t Hwf str. unfold str_to_datetime_or_date.
  assert (find_body str (length str) = Some (mk_found false false 0 0 (length str))) as ->.
  { assert (exists v l, num_text v l /\ exists mid, str = mid ++ l) as (v & l & Hl & Hmid).
    { destruct Hfr as [[_ ->]|(_ & f' & ff & _ & -> & Hff & _)].
      - exists s, ls. split; [done|]. exists (delimited 45 ly lm ld ++ 32 :: lh ++ [58] ++ lmi ++ [58]).
        unfold str, delimited. by list_simplifier.
      - eexists _, ff. split; [done|]. exists (delimited 45 ly lm ld ++ (32 :: delimited 58 lh lmi ls) ++ [46]).
        unfold str. by rewrite <- !app_assoc. }
    apply (text_found v y l ly str Hl Hy) with (ng := false); [|done].
    eexists. unfold str, delimited. by rewrite <- !app_assoc. }
  cbn [mbind option_bind f_error f_str f_end f_neg f_warn]. unfold str_to_datetime_or_date_body.
  pose proof (sub_self str) as Hsub. unfold str in Hsub at 2. rewrite !sub_app, !Nat.add_0_l in Hsub.
  destruct Hsub as (S1 & S2 & S3). cbn [length] in S3.
  assert (Hlen : (length (delimited 45 ly lm ld) + S (length (delimited 58 lh lmi ls)) + length fr = length str)%nat)
    by (unfold str; rewrite !length_app; cbn; lia).
  rewrite (date_fields str (length str) 0 45 ly lm ld y m d); try done; [|lia|].
  2: { destruct (sub_cons _ _ _ _ S2) as [Hc _]. by apply stops_char with 32. }
  rewrite Nat.add_0_l. rewrite (time_part_full str _ _ _ _ lh lmi ls h mi s); try done; [|lia|].
  2: { destruct Hfr as [[_ ->]|(_ & f' & ff & _ & -> & _)].
       - cbn [length] in Hlen. rewrite <- Hlen, Nat.add_0_r. apply stops_end.
       - destruct (sub_cons _ _ _ _ S3) as [Hc _]. by apply stops_char with 46. }
  cbn [mbind option_bind p_nof p_str p_time]. change (6 <? 3) with false. cbv iota.
  destruct (frac_read str _ (length str) us dec fr (warn my_time_status_init 0) 6 Hfr Hus S3 Hlen ltac:(lia))
    as (f' & Hf' & Hcase). rewrite Hf in Hf'. injection Hf' as <-.
  destruct Hcase as [(-> & Hp & Hz & ->)|(-> & Hmu)]; cbn [mbind option_bind negb andb].
  - rewrite Hp. change (set_second _ _) with (set_time_type (set_second_part t 0) MYSQL_TIMESTAMP_DATE).
    replace (set_second_part t 0) with t by (unfold t, set_second_part; cbn; by rewrite Hz).
    by rewrite finish_body_ok.
  - rewrite Hmu. cbn [mbind option_bind]. change (set_second_part _ _) with (set_time_type t MYSQL_TIMESTAMP_DATE).
    by rewrite finish_body_ok.
Qed.

Lemma date_printed t : 0 <= year t <= 9999 -> 0 <= month t <= 12 -> 0 <= day t <= 31 ->
  exists y m d, fmt_number4 (year t) = Some y /\ fmt_number2 (month t) = Some m /\ fmt_number2 (day t) = Some d /\
    (num_text (year t) y /\ length y = 4%nat) /\ (num_text (month t) m /\ length m = 2%nat) /\
    (num_text (day t) d /\ length d = 2%nat).
Proof.
  intros Hy Hm Hd. destruct (number4 (year t)) as (y & ? & ?); [lia|].
  destruct (number2 (month t)) as (m & ? & ?); [lia|]. destruct (number2 (day t)) as (d & ? & ?); [lia|].
  by exists y, m, d.
Qed.

(** C16: What [my_TIME_to_str] prints for a date or datetime
    [str_to_datetime_or_date] reads back.  Let [t'] be the value [t] cut to
    [dec] decimals; if [t'] is well-formed under the flags, the text of [t]
    with [dec] decimals has 10, 19 or 20 + [dec] characters and parses under
    these flags to [t'], without warnings, and with the precision printed. *)
Theorem datetime_text_roundtrip t t' dec flags :
  (dec <= 6)%nat -> my_datetime_trunc t dec = Some t' -> 0 <= second_part t <= TIME_MAX_SECOND_PART ->
  well_formed t' flags ->
  exists str, my_TIME_to_str t dec = Some str /\
    let is_date := bool_decide (time_type t = MYSQL_TIMESTAMP_DATE) in
    length str = (if is_date then 10 else if decide (dec = 0) then 19 else 20 + dec)%nat /\
    str_to_datetime_or_date str (length str) flags =
      Some (false, t', mk_status 0 (if is_date then 0 else Z.of_nat dec) 0).
Proof.
  intros Hdec Htr Hus Hwf. unfold my_datetime_trunc, my_time_fraction_remainder, TIME_SECOND_PART_DIGITS in Htr.
  destruct (log_10_spec dec Hdec) as (f & Hf & _). rewrite Hf in Htr. cbn [mbind option_bind] in Htr. injection Htr as <-.
  pose proof Hwf as (Hty & (Hy & Hm & Hd) & (Hh & Hmi & Hs & _) & Hng & _).
  cbn [year month day hour minute second second_part neg time_type] in *.
  destruct (date_printed t Hy Hm Hd) as (ly & lm & ld & Ey & Em & Ed & [Ty Ly] & [Tm Lm] & [Td Ld]).
  assert (E32 : u32 (year t) = year t /\ u32 (month t) = month t /\ u32 (day t) = day t) by (rewrite !u32_small; lia).
  destruct E32 as (E1 & E2 & E3). unfold my_TIME_to_str. destruct Hty as [(Hty & (Hh0 & Hm0 & Hs0) & Hus0)|Hty]; rewrite Hty.
  - unfold my_date_to_str. rewrite Ey, Em, Ed. cbn [mbind option_bind]. eexists. split; [done|].
    split; [rewrite !length_app, Ly, Lm, Ld; done|].
    pose proof (parse_date_text ly lm ld _ _ _ flags Ty Tm Td ltac:(lia)) as P. cbn zeta in P. rewrite E1, E2, E3 in P.
    cbn [hour minute second] in *. rewrite Hh0, Hm0, Hs0, Hus0, Hng, Hty in *. by apply P.
  - unfold my_datetime_to_str. rewrite Ey, Em, Ed. cbn [mbind option_bind].
    destruct (number2 (hour t)) as (lh & -> & Th & Lh); [lia|].
    destruct (mmssff_text t dec Hdec Hmi Hs Hus) as (lmi & ls & fr & -> & [Tmi Lmi] & [Ts Ls] & Hfr).
    cbn [mbind option_bind]. eexists. split; [done|].
    split.
    { rewrite !length_app. cbn [length]. rewrite Ly, Lm, Ld, Lh, Lmi, Ls.
      destruct Hfr as [[-> ->]|(? & ? & ff & _ & -> & _ & Hl)]; [done|]. rewrite bool_decide_false, decide_False by (done || lia).
      cbn [length]. lia. }
    pose proof (parse_datetime_text ly lm ld lh lmi ls fr _ _ _ _ _ _ _ dec f flags Ty Tm Td Th Tmi Ts Hfr Hus Hf
      ltac:(lia)) as P. cbn zeta in P. rewrite E1, E2, E3, !u32_small in P by lia.
    rewrite Hng, Hty in *. rewrite bool_decide_false by done. rewrite <- (P Hwf).
    unfold delimited. by list_simplifier.
Qed.

(** 1 January of the year 0 with half a second, printed with two decimals. *)
Lemma datetime_text_roundtrip_witness :
  let t := mk_time 0 1 1 23 59 58 500001 false MYSQL_TIMESTAMP_DATETIME in
  let t' := mk_time 0 1 1 23 59 58 500000 false MYSQL_TIMESTAMP_DATETIME in
  my_TIME_to_str t 2 = Some [48;48;48;48;45;48;49;45;48;49;32;50;51;58;53;57;58;53;56;46;53;48] /\
  exists str, my_TIME_to_str t 2 = Some str /\
    length str = 22%nat /\
    str_to_datetime_or_date str (length str) C_TIME_NO_ZERO_IN_DATE = Some (false, t', mk_status 0 2 0).
Proof.
  split; [vm_compute; reflexivity|].
  apply (datetime_text_roundtrip (mk_time 0 1 1 23 59 58 500001 false MYSQL_TIMESTAMP_DATETIME)
    (mk_time 0 1 1 23 59 58 500000 false MYSQL_TIMESTAMP_DATETIME) 2 C_TIME_NO_ZERO_IN_DATE);
    [lia|vm_compute; reflexivity|unfold TIME_MAX_SECOND_PART; cbn; lia|].
  unfold well_formed, TIME_MAX_SECOND_PART. cbn [year month day hour minute second second_part neg time_type].
  split_and!; try lia; [by right|vm_compute; reflexivity..].
Defined.

(** [get_number] does not notice an overflow: for a year [y] the string
    made of [2^32 + y], [-01-01] is accepted as the date 1 January of [y],
    without an error or warning. *)
Theorem year_overflow_accepted y flags :
  0 <= y <= 9999 ->
  exists digits, print_unsigned (2 ^ 32 + y) = Some digits /\
    let str := digits ++ [45; 48; 49; 45; 48; 49] in
    str_to_datetime_or_date str (length str) flags =
    Some (false, mk_time y 1 1 0 0 0 0 false MYSQL_TIMESTAMP_DATE, mk_status 0 0 0).
Proof.
  intros Hy. destruct (print_unsigned_text (2 ^ 32 + y)) as (l & E & Ht & El); [lia|]. exists l. split; [done|].
  assert (N1 : num_text 1 [48; 49]) by (exists [0; 1]; split_and!; [done|solve_digits|done|done]).
  assert (Hl : length l ≠ 2%nat).
  { destruct Ht as (ds & -> & HF & _ & V). unfold decimal. rewrite length_map. intros H.
    pose proof (val_bounds 10 ds ltac:(lia) HF) as B. rewrite H, V in B. change (10 ^ Z.of_nat 2) with 100 in B. lia. }
  assert (Eu : u32 (2 ^ 32 + y) = y) by (unfold u32; dlia).
  pose proof (parse_date_text l [48; 49] [48; 49] (2 ^ 32 + y) 1 1 flags Ht N1 N1 Hl) as P. cbn zeta in P.
  rewrite Eu, (u32_small 1) in P by lia. apply P. unfold well_formed, date_of, time_zero, TIME_MAX_SECOND_PART.
  cbn [year month day hour minute second second_part neg time_type]. split_and!; try lia; [by left|].
  unfold check_date, not_zero. cbn. rewrite !andb_false_r. cbn. by destruct (has_flag flags C_TIME_INVALID_DATES).
Qed.

(** [4294969319-01-01] is 1 January 2023. *)
Lemma year_overflow_accepted_witness :
  print_unsigned 4294969319 = Some [52;50;57;52;57;54;57;51;49;57] /\
  exists digits, print_unsigned (2 ^ 32 + 2023) = Some digits /\
    let str := digits ++ [45; 48; 49; 45; 48; 49] in
    str_to_datetime_or_date str (length str) C_TIME_NO_ZERO_IN_DATE =
    Some (false, mk_time 2023 1 1 0 0 0 0 false MYSQL_TIMESTAMP_DATE, mk_status 0 0 0).
Proof. split; [vm_compute; reflexivity|]. apply (year_overflow_accepted 2023 C_TIME_NO_ZERO_IN_DATE). lia. Defined.

(** ** Times *)

Lemma val_ge ds v : digits 10 ds -> 0 <= v -> v <= val 10 v ds.
Proof.
  intros HF Hv. rewrite val_acc. pose proof (val_bounds 10 ds ltac:(lia) HF).
  pose proof (Z.pow_pos_nonneg 10 (Z.of_nat (length ds)) ltac:(lia) ltac:(lia)). nia.
Qed.

Lemma value_decimal str stop ds s fuel limit v : digits 10 ds -> sub str s (decimal ds) ->
  (s + length ds <= stop)%nat -> stops str stop (s + length ds) -> (length ds < fuel)%nat -> 0 <= v ->
  val 10 v ds < 2 ^ 64 -> (forall l, limit = Some l -> val 10 v ds < l) ->
  value_loop str fuel limit s stop v = Some (Some (val 10 v ds), (s + length ds)%nat).
Proof.
  revert s fuel v. induction ds as [|d ds IH]; intros s [|fuel] v HF Hsub Hl Hst Hf Hv Hb Hlim;
    try (cbn in Hf; lia); cbn [value_loop].
  - cbn [length] in *. rewrite Nat.add_0_r in *. case_decide; [done|].
    unfold stops, before in Hst. rewrite decide_True in Hst by lia. by rewrite Hst.
  - apply Forall_cons in HF as [Hd HF]. cbn [length] in *. rewrite decide_False by lia.
    destruct (digit_here str stop s d (decimal ds)) as [_ ->]; [lia|done|done|]. cbn [mbind option_bind].
    apply sub_cons in Hsub as [Hc Hsub]. rewrite Hc. cbn [mbind option_bind]. rewrite <- Nat.add_succ_comm in *.
    cbn [val fold_left] in *. fold (val 10 (v * 10 + d) ds) in *.
    pose proof (val_ge ds (v * 10 + d) HF ltac:(lia)) as Hge.
    replace (u64 (v * 10 + (48 + d - 48))) with (v * 10 + d) by (unfold u64; rewrite Z.mod_small; lia).
    destruct limit as [l|].
    + specialize (Hlim l eq_refl) as Hll. rewrite (proj2 (Z.leb_gt _ _)) by lia. apply IH; try done; lia.
    + apply IH; try done; lia.
Qed.

Section clock.
Context (str : list Z) (stop : nat).

Lemma value_text v l s limit : num_text v l -> sub str s l -> (s + length l <= stop <= length str)%nat ->
  stops str stop (s + length l) -> v < 2 ^ 64 -> (forall l, limit = Some l -> v < l) ->
  value_loop str (S (length str)) limit s stop 0 = Some (Some v, (s + length l)%nat).
Proof.
  intros (ds & -> & HF & Hne & <-) Hsub Hl Hst Hv Hlim. unfold decimal in *. rewrite length_map in *.
  apply value_decimal; try done; lia.
Qed.

Lemma colon_text v l s : num_text v l -> str !! s = Some 58 -> sub str (S s) l -> (S s + length l <= stop)%nat ->
  separator_and_digit str s stop = Some true.
Proof.
  intros ([|d ds] & -> & HF & Hne & _) Hc Hsub Hl; [done|]. apply Forall_cons in HF as [Hd _].
  unfold separator_and_digit. cbn [decimal map length] in *. rewrite decide_False, Hc by lia. cbn [mbind option_bind].
  rewrite decide_True by done. unfold digit_at. apply sub_cons in Hsub as [-> _]. by apply isdigit_decimal.
Qed.

Lemma fields_text m s lm ls h p :
  num_text m lm -> num_text s ls -> sub str p (lm ++ [58] ++ ls) -> 0 <= m <= 59 -> 0 <= s <= 59 ->
  (p + length (lm ++ ls) < stop <= length str)%nat ->
  stops str stop (p + (length lm + S (length ls))) ->
  fields_loop str 4 [0; h; 0; 0] 2 p stop = Some ([0; h; m; s], 4%nat, (p + (length lm + S (length ls)))%nat).
Proof.
  intros Hm Hs Hsub Bm Bs Hl Hst. rewrite length_app, !sub_app, sub_char in *.
  destruct Hsub as (S1 & S2 & S3). cbn [length] in S3. rewrite Nat.add_1_r in S3.
  assert (N1 := stops_char _ stop _ _ S2 eq_refl).
  cbn [fields_loop]. rewrite (value_text m lm) by (done || lia). cbn [mbind option_bind lookup list_lookup insert list_insert].
  rewrite decide_False by done. rewrite (colon_text s ls) by (done || lia). cbn [mbind option_bind].
  replace (p + (length lm + S (length ls)))%nat with (S (p + length lm) + length ls)%nat in * by lia.
  rewrite (value_text s ls) by (done || lia). cbn [mbind option_bind lookup list_lookup insert list_insert].
  by rewrite decide_True.
Qed.

Lemma check_time_ok h m s us w :
  0 <= h <= TIME_MAX_HOUR -> 0 <= m <= 59 -> 0 <= s <= 59 -> 0 <= us <= 999999 ->
  check_time_range_internal (mk_time 0 0 0 (u32 (h + 0 * 24)) m s us false MYSQL_TIMESTAMP_TIME)
    TIME_MAX_HOUR UINT_MAX32 6 w =
  Some (false, mk_time 0 0 0 h m s us false MYSQL_TIMESTAMP_TIME, w).
Proof.
  intros Hh Hm Hs Hus. unfold TIME_MAX_HOUR, UINT_MAX32 in *. rewrite Z.add_0_r, u32_small by lia.
  unfold check_time_range_internal. cbn [hour minute second day second_part].
  rewrite !(proj2 (Z.leb_gt _ _)), (proj2 (Z.ltb_ge _ _)) by lia. cbn [orb].
  rewrite Z.mul_0_r, (u32_small 0), Z.add_0_r, u32_small, (proj2 (Z.ltb_ge _ _)) by lia.
  destruct (_ || _); [done|]. rewrite decide_False by done. cbn [max_sec_part lookup list_lookup mbind option_bind].
  by rewrite (proj2 (Z.leb_le _ _)) by lia.
Qed.

Lemma fractional_text h m s us dec f fr p st :
  0 <= h <= TIME_MAX_HOUR -> 0 <= m <= 59 -> 0 <= s <= 59 ->
  0 <= us <= TIME_MAX_SECOND_PART -> log_10_int !! (6 - dec)%nat = Some f ->
  frac_text us dec fr -> sub str p fr -> (p + length fr = stop)%nat -> (stop <= length str)%nat ->
  precision st = 0 ->
  fractional str false [0; h; m; s] p stop TIME_MAX_HOUR UINT_MAX32 st =
  Some (false, Some (mk_time 0 0 0 h m s (us - Z.rem us f) false MYSQL_TIMESTAMP_TIME),
        mk_status (warnings st) (Z.of_nat dec) (nanoseconds st), stop).
Proof.
  intros Hh Hm Hs Hus Hf Hfr Hsub Hp Hst Hprec. unfold fractional.
  destruct (frac_read str p stop us dec fr st 0 Hfr Hus Hsub Hp Hst) as (f' & Hf' & Hcase).
  rewrite Hf in Hf'. injection Hf' as <-.
  assert (Hr : 0 <= us - Z.rem us f <= 999999).
  { destruct (log_10_spec dec) as (f' & Hf' & Hpos & _); [destruct Hfr as [[-> _]|[? _]]; lia|].
    rewrite Hf in Hf'. injection Hf' as <-. unfold TIME_MAX_SECOND_PART in Hus.
    rewrite Z.rem_mod_nonneg by lia. pose proof (Z.mod_le us f ltac:(lia) ltac:(lia)).
    pose proof (Z.mod_pos_bound us f Hpos). lia. }
  assert (He : exponent_at str stop stop = Some false) by (unfold exponent_at; by rewrite decide_True by lia).
  assert (Hct := fun w => check_time_ok h m s _ w Hh Hm Hs Hr).
  assert (Hle : forall x, 0 <= x <= 999999 -> UINT_MAX32 <? x = false).
  { intros x Hx. apply Z.ltb_ge. unfold UINT_MAX32. lia. }
  destruct st as [w pr ns]. cbn in Hprec. subst pr. unfold TIME_MAX_HOUR in Hh.
  destruct Hcase as [(-> & -> & Hz & ->)|(-> & Hmu)]; [rewrite Hz in *|]; cbn [mbind option_bind];
    [|rewrite Hmu; cbn [mbind option_bind]];
    rewrite He; cbn [mbind option_bind]; rewrite !Hle by lia; cbn [orb warnings precision nanoseconds];
    rewrite Hct; cbn [mbind option_bind]; by rewrite decide_True.
Qed.

End clock.

(** [hh:mm:ss] and a fraction. *)
Lemma clock_read str stop s0 h m s us dec f lh lm ls fr st :
  num_text h lh -> num_text m lm -> num_text s ls -> frac_text us dec fr ->
  0 <= h <= TIME_MAX_HOUR -> 0 <= m <= 59 -> 0 <= s <= 59 ->
  0 <= us <= TIME_MAX_SECOND_PART -> log_10_int !! (6 - dec)%nat = Some f ->
  sub str s0 (delimited 58 lh lm ls ++ fr) -> (s0 + length (delimited 58 lh lm ls ++ fr) = stop)%nat ->
  (stop <= length str)%nat -> precision st = 0 ->
  str_to_DDhhmmssff_internal str false s0 stop TIME_MAX_HOUR UINT_MAX32 st =
  Some (false, Some (mk_time 0 0 0 h m s (us - Z.rem us f) false MYSQL_TIMESTAMP_TIME),
        mk_status (warnings st) (Z.of_nat dec) (nanoseconds st), stop).
Proof.
  intros Th Tm Ts Hfr Hh Hm Hs Hus Hf Hsub Hstop Hlen Hst.
  unfold delimited in *. rewrite <- !app_assoc, !length_app in *. cbn [length] in *.
  rewrite !sub_app, sub_char in Hsub. cbn [length] in Hsub. destruct Hsub as (S1 & S2 & S3 & S4 & S5 & S6).
  assert (N1 := stops_char _ stop _ _ S2 eq_refl).
  assert (N3 : stops str stop (s0 + length lh + 1 + length lm + 1 + length ls)).
  { destruct Hfr as [[_ ->]|(_ & f' & ff & _ & -> & _)].
    - replace (s0 + length lh + 1 + length lm + 1 + length ls)%nat with stop by (cbn in Hstop; lia). apply stops_end.
    - destruct (sub_cons _ _ _ _ S6) as [Hc _]. by apply stops_char with 46. }
  unfold str_to_DDhhmmssff_internal, fuel. unfold TIME_MAX_HOUR in Hh.
  rewrite (value_text str stop h lh) by (done || lia || intros ? [= <-]; lia). cbn [mbind option_bind].
  pose proof (skip_no_space str 58 _ stop S2 eq_refl) as Hsk. unfold fuel in Hsk. rewrite Hsk. cbn [mbind option_bind].
  rewrite (bool_decide_false (_ ≠ _)), andb_false_r by auto. cbn [mbind option_bind].
  rewrite Nat.add_1_r in S3. rewrite (colon_text str stop m lm) by (done || lia). cbn [mbind option_bind].
  rewrite (proj2 (Z.leb_gt _ _)) by (unfold UINT_MAX32; lia).
  replace (s0 + length lh + 1 + length lm + 1 + length ls)%nat with
    (S (s0 + length lh) + (length lm + S (length ls)))%nat in * by lia.
  rewrite (fields_text str stop m s lm ls); try done; [| |rewrite length_app; lia].
  - cbn [mbind option_bind]. eapply fractional_text; try done. lia.
  - rewrite !sub_app, sub_char. cbn [length]. rewrite (Nat.add_1_r (s0 + length lh)) in S4, S5. apply sub_char in S4. done.
Qed.

Definition plain (c : Z) : Prop := 48 <= c <= 57 \/ c = 58 \/ c = 46.

Lemma num_text_plain v l : num_text v l -> Forall plain l.
Proof.
  intros (ds & -> & HF & _). apply Forall_fmap. eapply Forall_impl; [exact HF|]. intros d Hd. left. cbn in *. lia.
Qed.

(** Digits, colons and a point alone are no datetime. *)
Lemma candidate_loop_plain str l s z : Forall plain l -> sub str s l ->
  candidate_loop str (length l) s false false z = Some false.
Proof.
  revert s z. induction l as [|c l IH]; intros s z HF Hsub; [done|]. cbn [candidate_loop length].
  apply Forall_cons in HF as [Hc HF]. apply sub_cons in Hsub as [-> Hsub]. cbn [mbind option_bind].
  unfold plain in Hc. rewrite !decide_False by lia.
  destruct (has_type_returns _MY_PNT c) as (b & Hb & _); [unfold byte; lia|].
  unfold my_ispunct. rewrite Hb. cbn [mbind option_bind andb]. destruct b; by apply IH.
Qed.

Lemma candidate_plain str s stop l : Forall plain l -> sub str s l -> (s + length l = stop)%nat ->
  (length l < 12)%nat -> is_datetime_body_candidate str s stop false false = Some false.
Proof.
  intros HF Hsub Hl H12. unfold is_datetime_body_candidate. replace (stop - s)%nat with (length l) by lia.
  rewrite decide_False by lia. destruct (_ && _); [done|]. by apply candidate_loop_plain.
Qed.

(** With a fraction, the text is not taken for a datetime either. *)
Lemma clock_no_datetime str s0 stop h m s lh lm ls fr flags st :
  num_text h lh -> num_text m lm -> num_text s ls -> sub str s0 (delimited 58 lh lm ls ++ 46 :: fr) ->
  (s0 + length (delimited 58 lh lm ls ++ 46%Z :: fr) = stop)%nat -> (stop <= length str)%nat ->
  exists t st' e, str_to_datetime_or_date_body str s0 stop flags false st = Some (mk_body true t st' 0 e) /\
    time_type t = MYSQL_TIMESTAMP_NONE.
Proof.
  intros Th Tm Ts Hsub Hl Hlen. rewrite length_app in Hl. cbn [length] in Hl. apply sub_app in Hsub as [S1 S2].
  apply sub_cons in S2 as [Hc _]. unfold str_to_datetime_or_date_body.
  rewrite (date_fields str stop s0 58 lh lm ls h m s); try done; [|lia|by apply stops_char with 46].
  rewrite (time_part_refused str stop) by (done || lia). cbn [mbind option_bind p_nof].
  change (0 <? 3) with true. cbv iota. eexists _, _, _. split; done.
Qed.

Lemma time_body_text str stop s0 h m s us dec f lh lm ls fr flags :
  num_text h lh -> num_text m lm -> num_text s ls -> frac_text us dec fr ->
  (length lh <= 3)%nat -> length lm = 2%nat -> length ls = 2%nat ->
  0 <= h <= TIME_MAX_HOUR -> 0 <= m <= 59 -> 0 <= s <= 59 ->
  0 <= us <= TIME_MAX_SECOND_PART -> log_10_int !! (6 - dec)%nat = Some f ->
  sub str s0 (delimited 58 lh lm ls ++ fr) -> (s0 + length (delimited 58 lh lm ls ++ fr) = stop)%nat ->
  (stop <= length str)%nat ->
  str_to_datetime_or_date_or_time_body str s0 stop flags (mk_status 0 0 0) TIME_MAX_HOUR UINT_MAX32 false false =
  Some (false, mk_time 0 0 0 h m s (us - Z.rem us f) false MYSQL_TIMESTAMP_TIME, mk_status 0 (Z.of_nat dec) 0).
Proof.
  intros Th Tm Ts Hfr Lh Lm Ls Hh Hm Hs Hus Hf Hsub Hstop Hlen.
  assert (Hgo : time_body str s0 stop TIME_MAX_HOUR UINT_MAX32 (mk_status 0 0 0) =
    Some (false, mk_time 0 0 0 h m s (us - Z.rem us f) false MYSQL_TIMESTAMP_TIME, mk_status 0 (Z.of_nat dec) 0)).
  { unfold time_body. by rewrite (clock_read str stop s0 h m s us dec f lh lm ls fr). }
  unfold str_to_datetime_or_date_or_time_body.
  assert (Hpl : Forall plain (delimited 58 lh lm ls ++ fr)).
  { unfold delimited. assert (plain 58) by (right; by left). assert (plain 46) by (right; by right).
    rewrite !Forall_app, !Forall_cons. split_and!; eauto using num_text_plain.
    destruct Hfr as [[_ ->]|(_ & f' & ff & _ & -> & Tf & _)]; [done|]. rewrite Forall_cons. eauto using num_text_plain. }
  destruct (decide (length (delimited 58 lh lm ls ++ fr) < 12)%nat) as [H12|H12].
  { rewrite (candidate_plain str s0 stop _ Hpl Hsub Hstop H12). exact Hgo. }
  assert (is_datetime_body_candidate str s0 stop false false = Some true) as ->
    by (unfold is_datetime_body_candidate; by rewrite decide_True by lia).
  destruct Hfr as [[_ ->]|(_ & f' & ff & _ & -> & _)].
  { unfold delimited in H12. rewrite !length_app in H12. cbn in H12. lia. }
  destruct (clock_no_datetime str s0 stop h m s lh lm ls ff flags (mk_status 0 0 0)) as (t & st & e & -> & Ht); try done.
  cbn [mbind option_bind negb b_time]. rewrite Ht. exact Hgo.
Qed.

Lemma hour_printed h : 0 <= h <= TIME_MAX_HOUR ->
  exists lh, (if 99 <? h then print_unsigned h else fmt_number2 h) = Some lh /\ num_text h lh /\ (length lh <= 3)%nat.
Proof.
  unfold TIME_MAX_HOUR. intros Hh. destruct (99 <? h) eqn:E; [apply Z.ltb_lt in E|apply Z.ltb_ge in E].
  - destruct (print_unsigned_text h) as (l & Hl & Ht & El); [lia|]. exists l. split; [done|]. split; [done|].
    subst l. unfold decimal. rewrite length_map.
    pose proof (numeral_digits 10 ltac:(lia) h) as HF. pose proof (numeral_val 10 ltac:(lia) h ltac:(lia)) as V.
    destruct (numeral_cases 10 ltac:(lia) h ltac:(lia)) as [->|(d & ds & E' & Hd)]; [cbn; lia|].
    rewrite E' in *. apply Forall_cons in HF as [Hd10 HF].
    pose proof (val_significant 10 d ds ltac:(lia) ltac:(lia) HF) as S. rewrite V in S. cbn [length].
    destruct (decide (length ds <= 2)%nat); [lia|].
    pose proof (Z.pow_le_mono_r 10 3 (Z.of_nat (length ds)) ltac:(lia) ltac:(lia)). lia.
  - destruct (number2 h) as (l & -> & Ht & Hl); [lia|]. exists l. split; [done|]. split; [done|lia].
Qed.

(** C17: What [my_time_to_str] prints for a time of at most 838 hours
    [str_to_datetime_or_date_or_time] reads back as this time, cut to the
    decimals printed, with its sign and without warnings.  In particular no
    such text is taken for a date or datetime. *)
Theorem time_text_roundtrip t t' dec flags :
  (dec <= 6)%nat -> time_ok TIME_MAX_HOUR t -> my_datetime_trunc t dec = Some t' ->
  exists str, my_time_to_str t dec = Some str /\
    str_to_datetime_or_date_or_time str (length str) flags TIME_MAX_HOUR UINT_MAX32 =
    Some (false, t', mk_status 0 (Z.of_nat dec) 0).
Proof.
  intros Hdec (Hty & (Hy & Hmo & Hd) & Hh & Hm & Hs & Hus) Htr.
  unfold my_datetime_trunc, my_time_fraction_remainder, TIME_SECOND_PART_DIGITS in Htr.
  destruct (log_10_spec dec Hdec) as (f & Hf & _). rewrite Hf in Htr. cbn [mbind option_bind] in Htr. injection Htr as <-.
  unfold my_time_to_str. rewrite Hy, Hmo, Hd. change (negb (0 =? 0)) with false. cbn [orb].
  replace (u32 (u32 (0 * 24) + hour t)) with (hour t) by
    (change (u32 (0 * 24)) with 0; rewrite Z.add_0_l, u32_small; unfold TIME_MAX_HOUR in Hh; lia).
  destruct (hour_printed (hour t) Hh) as (lh & -> & Th & Lh). cbn [mbind option_bind].
  destruct (mmssff_text t dec Hdec Hm Hs Hus) as (lm & ls & fr & -> & [Tm Lm] & [Ts Ls] & Hfr). cbn [mbind option_bind].
  fold (sign_text (neg t)). eexists. split; [done|].
  unfold str_to_datetime_or_date_or_time, str_to_temporal.
  assert (E : lh ++ [58] ++ lm ++ [58] ++ ls ++ fr = delimited 58 lh lm ls ++ fr)
    by (unfold delimited; by rewrite <- !app_assoc). rewrite E. set (body := delimited 58 lh lm ls ++ fr).
  assert (exists v l, num_text v l /\ exists mid, body = mid ++ l) as (v & l & Tl & Hmid).
  { destruct Hfr as [[_ ->]|(_ & f' & ff & _ & -> & Hff & _)].
    - exists (second t), ls. split; [done|]. exists (lh ++ [58] ++ lm ++ [58]). unfold body. rewrite <- E. by list_simplifier.
    - eexists _, ff. split; [done|]. exists (delimited 58 lh lm ls ++ [46]). unfold body. by list_simplifier. }
  rewrite (text_found v (hour t) l lh body Tl Th) by (done || by eexists).
  cbn [mbind option_bind f_error f_str f_end f_neg f_warn].
  rewrite (time_body_text _ _ _ (hour t) (minute t) (second t) (second_part t) dec f lh lm ls fr flags); try done;
    [|apply sub_behind|unfold body; rewrite !length_app; lia].
  cbn [mbind option_bind]. unfold set_neg. cbn. rewrite bool_decide_false by auto. rewrite andb_false_r. by rewrite Hty.
Qed.

(** The smallest time, printed with all decimals, is 17 characters. *)
Lemma time_text_roundtrip_witness :
  let t := mk_time 0 0 0 838 59 59 999999 true MYSQL_TIMESTAMP_TIME in
  my_time_to_str t 6 = Some [45;56;51;56;58;53;57;58;53;57;46;57;57;57;57;57;57] /\
  exists str, my_time_to_str t 6 = Some str /\
    str_to_datetime_or_date_or_time str (length str) 0 TIME_MAX_HOUR UINT_MAX32 = Some (false, t, mk_status 0 6 0).
Proof.
  split; [vm_compute; reflexivity|].
  apply (time_text_roundtrip (mk_time 0 0 0 838 59 59 999999 true MYSQL_TIMESTAMP_TIME) _ 6 0);
    [lia| |vm_compute; reflexivity].
  unfold time_ok, TIME_MAX_HOUR, TIME_MAX_SECOND_PART. cbn. split_and!; done || lia.
Defined.
End TimeTextProofs.
