(* ===== verification/Decimal.v ===== *)
(** * Fixed-point numbers (strings/decimal.c, include/decimal.h)

    A [decimal_t] holds words of nine decimal digits, high word first, with
    the point between two words.  The [int]s of the C code are exact here, as
    all values stay far below [2^31]; pointers into a buffer are offsets, and
    an access outside of it gives [None].  The buffers of the operands and of
    the result are different ones. *)

From S2P Require Import Prelude TimeBinary.
Import TimeBinary.

#[local] Open Scope Z_scope.

Module Decimal.

(** ** The type *)

(** [len] is the length of the list. *)
Record decimal_t := mk_decimal { intg : Z; frac : Z; sign : bool; buf : list Z }.

Definition len (d : decimal_t) : Z := Z.of_nat (length (buf d)).

Definition E_DEC_OK : Z := 0.
Definition E_DEC_TRUNCATED : Z := 1.
Definition E_DEC_OVERFLOW : Z := 2.
Definition E_DEC_BAD_NUM : Z := 8.

Definition DIG_PER_DEC1 : Z := 9.
Definition DIG_BASE : Z := 1000000000.
Definition DIG_MAX : Z := DIG_BASE - 1.

(** [typedef uint16 decimal_digits_t]: the value after a conversion to it. *)
Definition decimal_digits_t (z : Z) : Z := z mod 2 ^ 16.

Definition powers10 : list Z :=
  [1; 10; 100; 1000; 10000; 100000; 1000000; 10000000; 100000000; 1000000000].
Definition dig2bytes : list Z := [0; 1; 1; 2; 2; 3; 3; 4; 4; 4].
Definition frac_max : list Z :=
  [900000000; 990000000; 999000000; 999900000; 999990000; 999999000; 999999900; 999999990].

Definition ROUND_UP (x : Z) : Z := Z.quot (x + (if 0 <? x then DIG_PER_DEC1 - 1 else 0)) DIG_PER_DEC1.

(** ** Memory *)

Definition rd (l : list Z) (i : Z) : option Z := if decide (0 <= i) then l !! Z.to_nat i else None.

Definition wr (l : list Z) (i x : Z) : option (list Z) :=
  if decide (0 <= i < Z.of_nat (length l)) then Some (<[Z.to_nat i := x]> l) else None.

(** The new [intg1], [frac1] and [error]. *)
Definition FIX_INTG_FRAC_ERROR (len intg1 frac1 : Z) : Z * Z * Z :=
  if len <? intg1 + frac1 then
    if len <? intg1 then (len, 0, E_DEC_OVERFLOW) else (intg1, len - intg1, E_DEC_TRUNCATED)
  else (intg1, frac1, E_DEC_OK).

Definition decimal_make_zero (d : decimal_t) : option decimal_t :=
  b ← wr (buf d) 0 0; Some (mk_decimal 1 0 false b).

(** [*buf++= x], [n] times. *)
Fixpoint fill (n : nat) (b : list Z) (p x : Z) : option (list Z * Z) :=
  match n with
  | O => Some (b, p)
  | S n => b ← wr b p x; fill n b (p + 1) x
  end.

Definition max_decimal (precision frac : Z) (to : decimal_t) : option decimal_t :=
  let precision := decimal_digits_t precision in
  let frac := decimal_digits_t frac in
  let tintg := precision - frac in
  let intpart := decimal_digits_t tintg in
  let firstdigits := Z.rem intpart DIG_PER_DEC1 in
  '(b, p) ←
    (if intpart =? 0 then Some (buf to, 0) else
     '(b, p) ← (if firstdigits =? 0 then Some (buf to, 0) else
                w ← rd powers10 firstdigits; b ← wr (buf to) 0 (w - 1); Some (b, 1));
     fill (Z.to_nat (Z.quot intpart DIG_PER_DEC1)) b p DIG_MAX);
  b ← (if frac =? 0 then Some b else
       let lastdigits := Z.rem frac DIG_PER_DEC1 in
       '(b, p) ← fill (Z.to_nat (Z.quot frac DIG_PER_DEC1)) b p DIG_MAX;
       if lastdigits =? 0 then Some b else w ← rd frac_max (lastdigits - 1); wr b p w);
  Some (mk_decimal tintg frac false b).

(** ** Leading and trailing zeros *)

Fixpoint zero_words (fuel : nat) (b : list Z) (step intg i buf0 : Z) : option (Z * Z) :=
  match fuel with
  | O => None
  | S fuel =>
      if 0 <? intg then
        w ← rd b buf0;
        if w =? 0 then zero_words fuel b step (decimal_digits_t (intg - i)) DIG_PER_DEC1 (buf0 + step)
        else Some (intg, buf0)
      else Some (intg, buf0)
  end.

(** [for (i= (intg - 1) % DIG_PER_DEC1; *buf0 < powers10[i--]; intg--)] *)
Fixpoint zero_digits (i : nat) (w intg : Z) : option Z :=
  p ← powers10 !! i;
  if w <? p then match i with O => None | S i => zero_digits i w (decimal_digits_t (intg - 1)) end else Some intg.

(** The returned pointer and [*intg_result]. *)
Definition remove_leading_zeroes (from : decimal_t) : option (Z * Z) :=
  let intg := decimal_digits_t (intg from) in
  let i := Z.rem (intg - 1) DIG_PER_DEC1 + 1 in
  '(intg, buf0) ← zero_words (S (Z.to_nat intg)) (buf from) 1 intg i 0;
  if 0 <? intg then
    w ← rd (buf from) buf0;
    intg ← zero_digits (Z.to_nat (Z.rem (intg - 1) DIG_PER_DEC1)) w intg;
    Some (buf0, intg)
  else Some (buf0, 0).

Definition decimal_intg (from : decimal_t) : option Z :=
  '(_, res) ← remove_leading_zeroes from; Some res.

(** [for (i= ...; *buf0 % powers10[i++] == 0; frac--)] *)
Fixpoint zero_digits_behind (fuel : nat) (i w frac : Z) : option Z :=
  match fuel with
  | O => None
  | S fuel =>
      p ← rd powers10 i;
      if Z.rem w p =? 0 then zero_digits_behind fuel (i + 1) w (decimal_digits_t (frac - 1)) else Some frac
  end.

Definition decimal_actual_fraction (from : decimal_t) : option Z :=
  let frac := decimal_digits_t (frac from) in
  if frac =? 0 then Some 0 else
  let i := Z.rem (frac - 1) DIG_PER_DEC1 + 1 in
  '(frac, buf0) ← zero_words (S (Z.to_nat frac)) (buf from) (-1) frac i
                    (ROUND_UP (intg from) + ROUND_UP frac - 1);
  if 0 <? frac then
    w ← rd (buf from) buf0;
    zero_digits_behind 10 (DIG_PER_DEC1 - Z.rem (frac - 1) DIG_PER_DEC1) w frac
  else Some frac.

Fixpoint all_zero (n : nat) (b : list Z) (p : Z) : option bool :=
  match n with
  | O => Some true
  | S n => w ← rd b p; if w =? 0 then all_zero n b (p + 1) else Some false
  end.

Definition decimal_is_zero (from : decimal_t) : option bool :=
  all_zero (Z.to_nat (ROUND_UP (intg from) + ROUND_UP (frac from))) (buf from) 0.

(** ** Sizes *)

Definition decimal_size (precision scale : Z) : Z :=
  ROUND_UP (decimal_digits_t precision - decimal_digits_t scale) + ROUND_UP (decimal_digits_t scale).

Definition decimal_bin_size (precision scale : Z) : option Z :=
  let intg := decimal_digits_t precision - decimal_digits_t scale in
  let intg0 := Z.quot intg DIG_PER_DEC1 in
  let frac0 := Z.quot (decimal_digits_t scale) DIG_PER_DEC1 in
  let intg0x := intg - intg0 * DIG_PER_DEC1 in
  let frac0x := decimal_digits_t scale - frac0 * DIG_PER_DEC1 in
  a ← rd dig2bytes intg0x; b ← rd dig2bytes frac0x;
  Some (intg0 * 4 + a + frac0 * 4 + b).

Definition decimal_result_size_add (from1 from2 : decimal_t) : Z :=
  ROUND_UP (Z.max (intg from1) (intg from2) + 1) + ROUND_UP (Z.max (frac from1) (frac from2)).

Definition decimal_result_size_sub (from1 from2 : decimal_t) : Z :=
  ROUND_UP (Z.max (intg from1) (intg from2)) + ROUND_UP (Z.max (frac from1) (frac from2)).

Definition decimal_result_size_mul (from1 from2 : decimal_t) : Z :=
  ROUND_UP (intg from1 + intg from2) + ROUND_UP (frac from1) + ROUND_UP (frac from2).

(** ** Integers *)

Definition ULONGLONG_MAX : Z := 2 ^ 64 - 1.
Definition LONGLONG_MAX : Z := 2 ^ 63 - 1.
Definition LONGLONG_MIN : Z := - 2 ^ 63.

(** A [longlong]; an operation that leaves its range is undefined. *)
Definition longlong (x : Z) : option Z := if decide (LONGLONG_MIN <= x <= LONGLONG_MAX) then Some x else None.

(** [for (intg1=1; from >= DIG_BASE; intg1++, from/=DIG_BASE)] *)
Fixpoint count_words (fuel : nat) (from intg1 : Z) : option (Z * Z) :=
  match fuel with
  | O => None
  | S fuel => if DIG_BASE <=? from then count_words fuel (from / DIG_BASE) (intg1 + 1) else Some (intg1, from)
  end.

(** [for (...; from; to->intg++, from/=10)] *)
Fixpoint count_digits (fuel : nat) (from intg : Z) : option Z :=
  match fuel with
  | O => None
  | S fuel => if from =? 0 then Some intg else count_digits fuel (from / 10) (intg + 1)
  end.

(** [for (buf=to->buf+intg1; intg1; intg1--)] *)
Fixpoint store_words (n : nat) (b : list Z) (x : Z) : option (list Z) :=
  match n with
  | O => Some b
  | S n =>
      let y := x / DIG_BASE in
      b ← wr b (Z.of_nat n) (x - y * DIG_BASE);
      store_words n b y
  end.

(** The error code and [*to]; the sign is the one given. *)
Definition ull2dec (from : Z) (sg : bool) (to : decimal_t) : option (Z * decimal_t) :=
  if from =? 0 then d ← decimal_make_zero to; Some (E_DEC_OK, d) else
  '(intg1, top) ← count_words 64 from 1;
  let error := if len to <? intg1 then E_DEC_OVERFLOW else E_DEC_OK in
  let intg1 := if len to <? intg1 then len to else intg1 in
  ig ← count_digits 64 top ((intg1 - 1) * DIG_PER_DEC1);
  b ← store_words (Z.to_nat intg1) (buf to) from;
  Some (error, mk_decimal ig 0 sg b).

Definition ulonglong2decimal (from : Z) (to : decimal_t) : option (Z * decimal_t) := ull2dec from false to.

Definition longlong2decimal (from : Z) (to : decimal_t) : option (Z * decimal_t) :=
  if from <? 0 then
    if from =? LONGLONG_MIN then ull2dec (LONGLONG_MIN mod 2 ^ 64) true to
    else from ← longlong (- from); ull2dec from true to
  else ull2dec from false to.

(** The value of the integer part and the offset behind it; [None] inside is
    an overflow. *)
Fixpoint ull_loop (n : nat) (b : list Z) (p x : Z) : option (option Z * Z) :=
  match n with
  | O => Some (Some x, p)
  | S n =>
      w ← rd b p;
      if (ULONGLONG_MAX / DIG_BASE <=? x) &&
         ((ULONGLONG_MAX / DIG_BASE <? x) || (ULONGLONG_MAX mod DIG_BASE <? w))
      then Some (None, p)
      else ull_loop n b (p + 1) ((x * DIG_BASE + w) mod 2 ^ 64)
  end.

Definition frac_error (from : decimal_t) (p : Z) : option Z :=
  z ← all_zero (Z.to_nat (ROUND_UP (frac from))) (buf from) p;
  Some (if (z : bool) then E_DEC_OK else E_DEC_TRUNCATED).

(** The error code and [*to]. *)
Definition decimal2ulonglong (from : decimal_t) : option (Z * Z) :=
  if sign from then Some (E_DEC_OVERFLOW, 0) else
  '(x, p) ← ull_loop (Z.to_nat (ROUND_UP (intg from))) (buf from) 0 0;
  match x with
  | None => Some (E_DEC_OVERFLOW, ULONGLONG_MAX)
  | Some x => e ← frac_error from p; Some (e, x)
  end.

(** The negated value. *)
Fixpoint ll_loop (n : nat) (b : list Z) (p x : Z) : option (option Z * Z) :=
  match n with
  | O => Some (Some x, p)
  | S n =>
      w ← rd b p;
      if (x <=? Z.quot LONGLONG_MIN DIG_BASE) &&
         ((x <? Z.quot LONGLONG_MIN DIG_BASE) || (- Z.rem LONGLONG_MIN DIG_BASE <? w))
      then Some (None, p)
      else x ← longlong (x * DIG_BASE); x ← longlong (x - w); ll_loop n b (p + 1) x
  end.

Definition decimal2longlong (from : decimal_t) : option (Z * Z) :=
  '(x, p) ← ll_loop (Z.to_nat (ROUND_UP (intg from))) (buf from) 0 0;
  match x with
  | None => Some (E_DEC_OVERFLOW, if sign from then LONGLONG_MIN else LONGLONG_MAX)
  | Some x =>
      if negb (sign from) && (x =? LONGLONG_MIN) then Some (E_DEC_OVERFLOW, LONGLONG_MAX) else
      x ← (if sign from then Some x else longlong (- x));
      e ← frac_error from p; Some (e, x)
  end.


(** ** Addition and subtraction *)

(** The word and the carry. *)
Definition ADD (from1 from2 carry : Z) : Z * Z :=
  let a := from1 + from2 + carry in if DIG_BASE <=? a then (a - DIG_BASE, 1) else (a, 0).

Definition ADD2 (from1 from2 carry : Z) : Z * Z :=
  let a := from1 + from2 + carry in
  let c := if DIG_BASE <=? a then 1 else 0 in
  let a := if DIG_BASE <=? a then a - DIG_BASE else a in
  if DIG_BASE <=? a then (a - DIG_BASE, c + 1) else (a, c).

Definition SUB (from1 from2 carry : Z) : Z * Z :=
  let a := from1 - from2 - carry in if a <? 0 then (a + DIG_BASE, 1) else (a, 0).

(** [*--buf0=*--buf1], [n] times; the buffer and the two pointers. *)
Fixpoint copy_down (n : nat) (src : list Z) (b1 : Z) (dst : list Z) (b0 : Z) : option (list Z * Z * Z) :=
  match n with
  | O => Some (dst, b1, b0)
  | S n => w ← rd src (b1 - 1); dst ← wr dst (b0 - 1) w; copy_down n src (b1 - 1) dst (b0 - 1)
  end.

(** [*--buf0=0] *)
Fixpoint zero_down (n : nat) (dst : list Z) (b0 : Z) : option (list Z * Z) :=
  match n with
  | O => Some (dst, b0)
  | S n => dst ← wr dst (b0 - 1) 0; zero_down n dst (b0 - 1)
  end.

(** [op( *--buf0, *--buf1, *--buf2, carry)]; the buffer, the three pointers and
    the carry. *)
Fixpoint both_down (op : Z -> Z -> Z -> Z * Z) (n : nat) (src1 : list Z) (b1 : Z) (src2 : list Z) (b2 : Z)
    (dst : list Z) (b0 carry : Z) : option (list Z * Z * Z * Z * Z) :=
  match n with
  | O => Some (dst, b1, b2, b0, carry)
  | S n =>
      w1 ← rd src1 (b1 - 1); w2 ← rd src2 (b2 - 1);
      let '(w, carry) := op w1 w2 carry in
      dst ← wr dst (b0 - 1) w;
      both_down op n src1 (b1 - 1) src2 (b2 - 1) dst (b0 - 1) carry
  end.

(** [op( *--buf0, *--buf1, carry)]; the buffer, the two pointers and the carry. *)
Fixpoint carry_down (op : Z -> Z -> Z * Z) (n : nat) (src : list Z) (b1 : Z) (dst : list Z) (b0 carry : Z) :
    option (list Z * Z * Z * Z) :=
  match n with
  | O => Some (dst, b1, b0, carry)
  | S n =>
      w1 ← rd src (b1 - 1);
      let '(w, carry) := op w1 carry in
      dst ← wr dst (b0 - 1) w;
      carry_down op n src (b1 - 1) dst (b0 - 1) carry
  end.

(** The three parts of the addition: the words behind the last one of the
    second operand, the common words, the words before the first one of the
    shorter operand. *)
Definition add_words (src1 src2 src3 : list Z) (i1 i2 f1 f2 n3 : Z) (b : list Z) (buf0 : Z) : option (list Z) :=
  let buf1 := i1 + f1 in
  let stop := i1 + f2 in
  let stop2 := if i2 <? i1 then i1 - i2 else 0 in
  '(b, buf1, buf0) ← copy_down (Z.to_nat (buf1 - stop)) src1 buf1 b buf0;
  '(b, buf1, _, buf0, carry) ← both_down ADD (Z.to_nat (buf1 - stop2)) src1 buf1 src2 (i2 + f2) b buf0 0;
  '(b, _, buf0, carry) ← carry_down (fun w => ADD w 0) (Z.to_nat n3) src3 n3 b buf0 carry;
  if carry =? 0 then Some b else wr b (buf0 - 1) 1.

(** The error code and [*to]. *)
Definition do_add (from1 from2 to : decimal_t) : option (Z * decimal_t) :=
  let intg1 := ROUND_UP (intg from1) in let intg2 := ROUND_UP (intg from2) in
  let frac1 := ROUND_UP (frac from1) in let frac2 := ROUND_UP (frac from2) in
  let frac0 := Z.max frac1 frac2 in let intg0 := Z.max intg1 intg2 in
  x ← (if intg2 <? intg1 then rd (buf from1) 0 else
       if intg1 <? intg2 then rd (buf from2) 0 else
       a ← rd (buf from1) 0; b ← rd (buf from2) 0; Some (a + b));
  let extra := DIG_MAX - 1 <? x in
  let intg0 := if extra then intg0 + 1 else intg0 in
  b ← (if extra then wr (buf to) 0 0 else Some (buf to));
  let '(intg0, frac0, error) := FIX_INTG_FRAC_ERROR (len to) intg0 frac0 in
  if error =? E_DEC_OVERFLOW then
    d ← max_decimal (len to * DIG_PER_DEC1) 0 (mk_decimal (intg to) (frac to) (sign to) b);
    Some (error, d)
  else
  let tfrac := Z.max (frac from1) (frac from2) in
  let cut := negb (error =? 0) in
  let tfrac := if cut then Z.min tfrac (frac0 * DIG_PER_DEC1) else tfrac in
  let frac1 := if cut then Z.min frac1 frac0 else frac1 in
  let frac2 := if cut then Z.min frac2 frac0 else frac2 in
  let intg1 := if cut then Z.min intg1 intg0 else intg1 in
  let intg2 := if cut then Z.min intg2 intg0 else intg2 in
  let swap := negb (frac2 <? frac1) in
  let src1 := if swap then buf from2 else buf from1 in
  let src2 := if swap then buf from1 else buf from2 in
  let i1 := if swap then intg2 else intg1 in let i2 := if swap then intg1 else intg2 in
  let f1 := if swap then frac2 else frac1 in let f2 := if swap then frac1 else frac2 in
  let src3 := if intg2 <? intg1 then buf from1 else buf from2 in
  let n3 := if intg2 <? intg1 then intg1 - intg2 else intg2 - intg1 in
  b ← add_words src1 src2 src3 i1 i2 f1 f2 n3 b (intg0 + frac0);
  Some (error, mk_decimal (intg0 * DIG_PER_DEC1) tfrac (sign from1) b).

(** [while (buf1 < stop1 && *buf1 == 0) buf1++] *)
Fixpoint skip_zeros_up (n : nat) (b : list Z) (p : Z) : option Z :=
  match n with
  | O => Some p
  | S n => w ← rd b p; if w =? 0 then skip_zeros_up n b (p + 1) else Some p
  end.

(** [while (buf1 <= end1 && *end1 == 0) end1--]; [n] is [end1 + 1 - buf1]. *)
Fixpoint skip_zeros_down (n : nat) (b : list Z) (e : Z) : option Z :=
  match n with
  | O => Some e
  | S n => w ← rd b e; if w =? 0 then skip_zeros_down n b (e - 1) else Some e
  end.

(** [while (buf1 <= end1 && buf2 <= end2 && *buf1 == *buf2) buf1++, buf2++] *)
Fixpoint skip_equal (n : nat) (l1 : list Z) (b1 : Z) (l2 : list Z) (b2 : Z) : option (Z * Z) :=
  match n with
  | O => Some (b1, b2)
  | S n =>
      w1 ← rd l1 b1; w2 ← rd l2 b2;
      if w1 =? w2 then skip_equal n l1 (b1 + 1) l2 (b2 + 1) else Some (b1, b2)
  end.

(** What [do_sub] finds out first: [carry] ([None] if the numbers are equal),
    and [start1], [intg1], [frac1], [start2], [intg2], [frac2]. *)
Record comparison := mk_comparison {
  c_carry : option bool;
  c_start1 : Z; c_intg1 : Z; c_frac1 : Z;
  c_start2 : Z; c_intg2 : Z; c_frac2 : Z
}.

Definition compare_words (from1 from2 : decimal_t) : option comparison :=
  let stop1 := ROUND_UP (intg from1) in let stop2 := ROUND_UP (intg from2) in
  let frac1 := ROUND_UP (frac from1) in let frac2 := ROUND_UP (frac from2) in
  w1 ← rd (buf from1) 0;
  start1 ← (if w1 =? 0 then skip_zeros_up (Z.to_nat stop1) (buf from1) 0 else Some 0);
  let intg1 := stop1 - start1 in
  w2 ← rd (buf from2) 0;
  start2 ← (if w2 =? 0 then skip_zeros_up (Z.to_nat stop2) (buf from2) 0 else Some 0);
  let intg2 := stop2 - start2 in
  if intg1 <? intg2 then Some (mk_comparison (Some true) start1 intg1 frac1 start2 intg2 frac2) else
  if negb (intg2 =? intg1) then Some (mk_comparison (Some false) start1 intg1 frac1 start2 intg2 frac2) else
  let end1 := stop1 + (frac1 - 1) in let end2 := stop2 + (frac2 - 1) in
  end1 ← skip_zeros_down (Z.to_nat (end1 + 1 - start1)) (buf from1) end1;
  end2 ← skip_zeros_down (Z.to_nat (end2 + 1 - start2)) (buf from2) end2;
  let frac1 := end1 - stop1 + 1 in let frac2 := end2 - stop2 + 1 in
  '(buf1, buf2) ← skip_equal (Z.to_nat (Z.min (end1 + 1 - start1) (end2 + 1 - start2)))
                    (buf from1) start1 (buf from2) start2;
  carry ← (if buf1 <=? end1 then
             if buf2 <=? end2 then a ← rd (buf from1) buf1; b ← rd (buf from2) buf2; Some (Some (a <? b))
             else Some (Some false)
           else Some (if buf2 <=? end2 then Some true else None));
  Some (mk_comparison carry start1 intg1 frac1 start2 intg2 frac2).

(** [while (carry && buf1 > start1) SUB( *--buf0, *--buf1, 0, carry)]; [n] is
    [buf1 - start1]. *)
Fixpoint borrow_down (n : nat) (src : list Z) (b1 : Z) (dst : list Z) (b0 carry : Z) :
    option (list Z * Z * Z) :=
  match n with
  | O => Some (dst, b1, b0)
  | S n' =>
      if carry =? 0 then Some (dst, b1, b0) else
      w1 ← rd src (b1 - 1);
      let '(w, carry) := SUB w1 0 carry in
      dst ← wr dst (b0 - 1) w;
      borrow_down n' src (b1 - 1) dst (b0 - 1) carry
  end.

(** The subtraction, from the larger absolute value. *)
Definition sub_words (from1 from2 to : decimal_t) (sg : bool)
    (start1 intg1 frac1 start2 intg2 frac2 frac0 : Z) : option (Z * decimal_t) :=
  let '(intg1, frac0, error) := FIX_INTG_FRAC_ERROR (len to) intg1 frac0 in
  let buf0 := intg1 + frac0 in
  let tfrac := Z.max (frac from1) (frac from2) in
  let cut := negb (error =? 0) in
  let tfrac := if cut then Z.min tfrac (frac0 * DIG_PER_DEC1) else tfrac in
  let frac1 := if cut then Z.min frac1 frac0 else frac1 in
  let frac2 := if cut then Z.min frac2 frac0 else frac2 in
  let intg2 := if cut then Z.min intg2 intg1 else intg2 in
  let buf1 := start1 + intg1 + frac1 in
  let buf2 := start2 + intg2 + frac2 in
  '(b, buf1, buf2, buf0, carry) ←
    (if frac2 <? frac1 then
       '(b, buf0) ← zero_down (Z.to_nat (frac0 - frac1)) (buf to) buf0;
       '(b, buf1, buf0) ← copy_down (Z.to_nat (frac1 - frac2)) (buf from1) buf1 b buf0;
       Some (b, buf1, buf2, buf0, 0)
     else
       '(b, buf0) ← zero_down (Z.to_nat (frac0 - frac2)) (buf to) buf0;
       '(b, buf2, buf0, carry) ← carry_down (SUB 0) (Z.to_nat (frac2 - frac1)) (buf from2) buf2 b buf0 0;
       Some (b, buf1, buf2, buf0, carry));
  '(b, buf1, _, buf0, carry) ← both_down SUB (Z.to_nat (buf2 - start2)) (buf from1) buf1 (buf from2) buf2 b buf0 carry;
  '(b, buf1, buf0) ← borrow_down (Z.to_nat (buf1 - start1)) (buf from1) buf1 b buf0 carry;
  '(b, _, buf0) ← copy_down (Z.to_nat (buf1 - start1)) (buf from1) buf1 b buf0;
  '(b, _) ← zero_down (Z.to_nat buf0) b buf0;
  Some (error, mk_decimal (intg1 * DIG_PER_DEC1) tfrac sg b).

(** [do_sub] with a result. *)
Definition do_sub (from1 from2 to : decimal_t) : option (Z * decimal_t) :=
  let frac0 := Z.max (ROUND_UP (frac from1)) (ROUND_UP (frac from2)) in
  c ← compare_words from1 from2;
  match c_carry c with
  | None => d ← decimal_make_zero to; Some (E_DEC_OK, d)
  | Some false =>
      sub_words from1 from2 to (sign from1) (c_start1 c) (c_intg1 c) (c_frac1 c)
        (c_start2 c) (c_intg2 c) (c_frac2 c) frac0
  | Some true =>
      sub_words from2 from1 to (negb (sign from1)) (c_start2 c) (c_intg2 c) (c_frac2 c)
        (c_start1 c) (c_intg1 c) (c_frac1 c) frac0
  end.

(** [do_sub] with [to == 0]. *)
Definition do_cmp (from1 from2 : decimal_t) : option Z :=
  c ← compare_words from1 from2;
  Some (match c_carry c with None => 0 | Some carry => if eqb carry (sign from1) then 1 else -1 end).

Definition decimal_add (from1 from2 to : decimal_t) : option (Z * decimal_t) :=
  if eqb (sign from1) (sign from2) then do_add from1 from2 to else do_sub from1 from2 to.

Definition decimal_sub (from1 from2 to : decimal_t) : option (Z * decimal_t) :=
  if eqb (sign from1) (sign from2) then do_sub from1 from2 to else do_add from1 from2 to.

Definition decimal_cmp (from1 from2 : decimal_t) : option Z :=
  if eqb (sign from1) (sign from2) then do_cmp from1 from2
  else Some (if sign from1 then -1 else 1).

(** ** Multiplication *)

(** One row: [*buf1] times the words of the second factor; the buffer, [buf0]
    and the carry. *)
Fixpoint mul_row (n : nat) (w1 : Z) (src2 : list Z) (buf2 : Z) (dst : list Z) (buf0 carry : Z) :
    option (list Z * Z * Z) :=
  match n with
  | O => Some (dst, buf0, carry)
  | S n =>
      w2 ← rd src2 buf2;
      let p := w1 * w2 in
      let hi := Z.quot p DIG_BASE in
      let lo := p - hi * DIG_BASE in
      w0 ← rd dst buf0;
      let '(w, c) := ADD2 w0 lo carry in
      dst ← wr dst buf0 w;
      mul_row n w1 src2 (buf2 - 1) dst (buf0 - 1) (c + hi)
  end.

(** [for (buf0--; carry; buf0--)]; [false] is the return of E_DEC_OVERFLOW. *)
Fixpoint mul_carry (fuel : nat) (dst : list Z) (buf0 carry : Z) : option (bool * list Z) :=
  match fuel with
  | O => None
  | S fuel =>
      if carry =? 0 then Some (true, dst) else
      if buf0 <? 0 then Some (false, dst) else
      w0 ← rd dst buf0;
      let '(w, carry) := ADD w0 0 carry in
      dst ← wr dst buf0 w;
      mul_carry fuel dst (buf0 - 1) carry
  end.

(** [for (buf1+=frac1-1; buf1 >= stop1; buf1--, start0--)] *)
Fixpoint mul_loop (n : nat) (src1 : list Z) (buf1 : Z) (src2 : list Z) (start2 : Z) (cols : nat)
    (dst : list Z) (start0 : Z) : option (bool * list Z) :=
  match n with
  | O => Some (true, dst)
  | S n =>
      w1 ← rd src1 buf1;
      '(dst, buf0, carry) ← mul_row cols w1 src2 start2 dst start0 0;
      '(ok, dst, carry) ←
        (if carry =? 0 then Some (true, dst, carry) else
         if buf0 <? 0 then Some (false, dst, carry) else
         w0 ← rd dst buf0;
         let '(w, carry) := ADD2 w0 0 carry in
         dst ← wr dst buf0 w; Some (true, dst, carry));
      if negb ok then Some (false, dst) else
      '(ok, dst) ← mul_carry (S (length dst)) dst (buf0 - 1) carry;
      if negb ok then Some (false, dst) else
      mul_loop n src1 (buf1 - 1) src2 start2 cols dst (start0 - 1)
  end.

(** [do { frac0--; } while (frac0 > 0 && to->buf[intg0 + frac0 - 1] == 0)] *)
Fixpoint trailing_words (fuel : nat) (b : list Z) (intg0 frac0 : Z) : option Z :=
  match fuel with
  | O => None
  | S fuel =>
      if 0 <? frac0 then
        w ← rd b (intg0 + frac0 - 1);
        if w =? 0 then trailing_words fuel b intg0 (frac0 - 1) else Some frac0
      else Some frac0
  end.

(** [while (! *buf1 && (to->intg > DIG_PER_DEC1))]; [buf1] and [to->intg]. *)
Fixpoint heading_words (fuel : nat) (b : list Z) (buf1 tintg : Z) : option (Z * Z) :=
  match fuel with
  | O => None
  | S fuel =>
      w ← rd b buf1;
      if (w =? 0) && (DIG_PER_DEC1 <? tintg) then heading_words fuel b (buf1 + 1) (tintg - DIG_PER_DEC1)
      else Some (buf1, tintg)
  end.

(** [for (; d_to_move--; cur_d++, buf1++) *cur_d= *buf1] *)
Fixpoint move_words (n : nat) (b : list Z) (cur_d buf1 : Z) : option (list Z) :=
  match n with
  | O => Some b
  | S n => w ← rd b buf1; b ← wr b cur_d w; move_words n b (cur_d + 1) (buf1 + 1)
  end.

Definition decimal_mul (from1 from2 to : decimal_t) : option (Z * decimal_t) :=
  let intg1 := ROUND_UP (intg from1) in let intg2 := ROUND_UP (intg from2) in
  let frac1 := ROUND_UP (frac from1) in let frac2 := ROUND_UP (frac from2) in
  let buf1 := intg1 in let buf2 := intg2 in
  let i := ROUND_UP (intg from1 + intg from2) in
  let j := frac1 + frac2 in
  let '(intg0, frac0, error) := FIX_INTG_FRAC_ERROR (len to) i j in
  let sg := negb (eqb (sign from1) (sign from2)) in
  let cut := negb (error =? 0) in
  let tfrac := frac from1 + frac from2 in
  let tfrac := if cut then Z.min tfrac (frac0 * DIG_PER_DEC1) else tfrac in
  let tintg := intg0 * DIG_PER_DEC1 in
  let '(intg1, intg2, frac1, frac2) :=
    if cut then
      if intg0 <? i then
        let i := i - intg0 in
        let j := Z.shiftr i 1 in
        (intg1 - j, intg2 - (i - j), 0, 0)
      else
        let j := j - frac0 in
        let i := Z.shiftr j 1 in
        if frac1 <=? frac2 then (intg1, intg2, frac1 - i, frac2 - (j - i))
        else (intg1, intg2, frac1 - (j - i), frac2 - i)
    else (intg1, intg2, frac1, frac2) in
  let start0 := intg0 + frac0 - 1 in
  let start2 := buf2 + frac2 - 1 in
  let stop1 := buf1 - intg1 in
  let stop2 := buf2 - intg2 in
  '(b, _) ← fill (Z.to_nat (intg0 + frac0)) (buf to) 0 0;
  '(ok, b) ← mul_loop (Z.to_nat (buf1 + frac1 - stop1)) (buf from1) (buf1 + frac1 - 1) (buf from2) start2
               (Z.to_nat (start2 + 1 - stop2)) b start0;
  if negb ok then Some (E_DEC_OVERFLOW, mk_decimal tintg tfrac sg b) else
  let frac0 := ROUND_UP tfrac in
  '(frac0, tfrac) ←
    (if 0 <? frac0 then
       w ← rd b (intg0 + frac0 - 1);
       if w =? 0 then
         f ← trailing_words (S (Z.to_nat frac0)) b intg0 (frac0 - 1); Some (f, DIG_PER_DEC1 * f)
       else Some (frac0, tfrac)
     else Some (frac0, tfrac));
  '(h, tintg) ← heading_words (S (length b)) b 0 tintg;
  b ← (if 0 <? h then move_words (Z.to_nat (intg0 + frac0 - h)) b 0 h else Some b);
  w0 ← rd b 0;
  if sg && (tfrac =? 0) && (w0 =? 0)
  then d ← decimal_make_zero (mk_decimal tintg tfrac sg b); Some (error, d)
  else Some (error, mk_decimal tintg tfrac sg b).

(** ** The binary format *)

Definition mi_int1store (a : Z) : list Z := [a mod 256].

Definition mi_sint4korr (l : list Z) : option Z :=
  v ← mi_uint4korr l; Some (if v <? 2 ^ 31 then v else v - 2 ^ 32).

(** The [switch] over the number of bytes. *)
Definition store_bytes (i x : Z) : option (list Z) :=
  if i =? 1 then Some (mi_int1store x) else
  if i =? 2 then Some (mi_int2store x) else
  if i =? 3 then Some (mi_int3store x) else
  if i =? 4 then Some (mi_int4store x) else None.

Definition load_bytes (i : Z) (l : list Z) : option Z :=
  if i =? 1 then mi_sint1korr l else
  if i =? 2 then mi_sint2korr l else
  if i =? 3 then mi_sint3korr l else
  if i =? 4 then mi_sint4korr l else None.

(** [for (stop1=buf1+intg1+frac1; buf1 < stop1; ...)]: the bytes. *)
Fixpoint store_full (n : nat) (src : list Z) (buf1 mask : Z) : option (list Z) :=
  match n with
  | O => Some []
  | S n =>
      w ← rd src buf1;
      r ← store_full n src (buf1 + 1) mask;
      Some (mi_int4store (Z.lxor w mask) ++ r)
  end.

(** [while (frac1x < lim && dig2bytes[frac1x] == i) frac1x++] *)
Fixpoint widen (fuel : nat) (frac1x lim i : Z) : option Z :=
  match fuel with
  | O => None
  | S fuel =>
      if frac1x <? lim then
        d ← rd dig2bytes frac1x;
        if d =? i then widen fuel (frac1x + 1) lim i else Some frac1x
      else Some frac1x
  end.

(** [orig_to[0]^= 0x80] *)
Definition flip_first (l : list Z) : list Z :=
  match l with [] => [] | b :: l => Z.lxor b 128 :: l end.

(** The error code and the bytes written, in order. *)
Definition decimal2bin (from : decimal_t) (precision frac : Z) : option (Z * list Z) :=
  let mask := if sign from then -1 else 0 in
  let intg := decimal_digits_t precision - decimal_digits_t frac in
  let intg0 := Z.quot intg DIG_PER_DEC1 in
  let frac0 := Z.quot (decimal_digits_t frac) DIG_PER_DEC1 in
  let intg0x := intg - intg0 * DIG_PER_DEC1 in
  let frac0x := decimal_digits_t frac - frac0 * DIG_PER_DEC1 in
  let frac1 := Z.quot (Decimal.frac from) DIG_PER_DEC1 in
  let frac1x := Decimal.frac from - frac1 * DIG_PER_DEC1 in
  a ← rd dig2bytes intg0x; let isize0 := intg0 * 4 + a in
  a ← rd dig2bytes frac0x; let fsize0 := frac0 * 4 + a in
  a ← rd dig2bytes frac1x; let fsize1 := frac1 * 4 + a in
  '(buf1, from_intg) ← remove_leading_zeroes from;
  let zero := from_intg + fsize1 =? 0 in
  let mask := if zero then 0 else mask in
  let intg := if zero then 1 else intg in
  let src := if zero then [0] else buf from in
  let buf1 := if zero then 0 else buf1 in
  let intg1 := Z.quot from_intg DIG_PER_DEC1 in
  let intg1x := from_intg - intg1 * DIG_PER_DEC1 in
  a ← rd dig2bytes intg1x; let isize1 := intg1 * 4 + a in
  let fits := negb (intg <? from_intg) in
  let buf1 := if fits then buf1 else
    buf1 + (intg1 - intg0 + (if 0 <? intg1x then 1 else 0) - (if 0 <? intg0x then 1 else 0)) in
  let intg1 := if fits then intg1 else intg0 in
  let intg1x := if fits then intg1x else intg0x in
  let error := if fits then E_DEC_OK else E_DEC_OVERFLOW in
  let pad1 := if fits && (isize1 <? isize0) then repeat (mask mod 256) (Z.to_nat (isize0 - isize1)) else [] in
  let '(frac1, frac1x, fsize0', error) :=
    if fsize0 <? fsize1 then (frac0, frac0x, fsize0, E_DEC_TRUNCATED)
    else if (fsize1 <? fsize0) && negb (frac1x =? 0) then
      if frac0 =? frac1 then (frac1, frac0x, fsize1, error) else (frac1 + 1, 0, fsize0, error)
    else (frac1, frac1x, fsize0, error) in
  '(part1, buf1) ←
    (if intg1x =? 0 then Some ([], buf1) else
     i ← rd dig2bytes intg1x; w ← rd src buf1; p ← rd powers10 intg1x;
     l ← store_bytes i (Z.lxor (Z.rem w p) mask); Some (l, buf1 + 1));
  part2 ← store_full (Z.to_nat (intg1 + frac1)) src buf1 mask;
  let buf1 := buf1 + Z.max 0 (intg1 + frac1) in
  part3 ←
    (if frac1x =? 0 then Some [] else
     i ← rd dig2bytes frac1x;
     fx ← widen 10 frac1x (if frac1 <? frac0 then DIG_PER_DEC1 else frac0x) i;
     w ← rd src buf1; p ← rd powers10 (DIG_PER_DEC1 - fx);
     store_bytes i (Z.lxor (Z.quot w p) mask));
  let out := pad1 ++ part1 ++ part2 ++ part3 in
  let room := Z.to_nat (isize0 + fsize0) in
  let pad2 := if fsize1 <? fsize0'
              then repeat (mask mod 256) (Nat.min (Z.to_nat (fsize0' - fsize1)) (room - length out)) else [] in
  Some (error, flip_first (out ++ pad2)).

(** An [int32] computed with wrap-around. *)
Definition s32 (z : Z) : Z := if u32 z <? 2 ^ 31 then u32 z else u32 z - 2 ^ 32.

(** The words behind the first: the buffer, [buf], [to->intg] and the rest of
    the bytes, or the buffer at a word that is too large.  [lead] is the test
    [buf > to->buf || *buf != 0], which drops leading zero words. *)
Fixpoint load_full (n : nat) (lead : bool) (from : list Z) (mask : Z) (b : list Z) (p tintg : Z) :
    option (list Z + list Z * Z * Z * list Z) :=
  match n with
  | O => Some (inr (b, p, tintg, from))
  | S n =>
      x ← mi_sint4korr from;
      let w := Z.lxor x mask in
      b ← wr b p w;
      if DIG_MAX <? u32 w then Some (inl b) else
      if negb lead || (0 <? p) || negb (w =? 0)
      then load_full n lead (drop 4 from) mask b (p + 1) tintg
      else load_full n lead (drop 4 from) mask b p (tintg - DIG_PER_DEC1)
  end.

(** The first, short word. *)
Definition load_first (intg0x : Z) (from : list Z) (mask : Z) (b : list Z) (tintg : Z) :
    option (list Z + list Z * Z * Z * list Z) :=
  if intg0x =? 0 then Some (inr (b, 0, tintg, from)) else
  i ← rd dig2bytes intg0x;
  x ← load_bytes i from;
  let w := Z.lxor x mask in
  b ← wr b 0 w;
  p10 ← rd powers10 (intg0x + 1);
  if p10 <=? u64 w then Some (inl b) else
  Some (inr (b, if w =? 0 then 0 else 1, if w =? 0 then tintg - intg0x else tintg, drop (Z.to_nat i) from)).

(** The last, short word. *)
Definition load_last (frac0x : Z) (from : list Z) (mask : Z) (b : list Z) (p : Z) :
    option (list Z + list Z) :=
  if frac0x =? 0 then Some (inr b) else
  i ← rd dig2bytes frac0x;
  x ← load_bytes i from;
  p10 ← rd powers10 (DIG_PER_DEC1 - frac0x);
  let w := s32 (Z.lxor x mask * p10) in
  b ← wr b p w;
  if DIG_MAX <? u32 w then Some (inl b) else Some (inr b).

(** The label [err]. *)
Definition bad_num (b : list Z) : option (Z * decimal_t) :=
  d ← decimal_make_zero (mk_decimal 0 0 false b); Some (E_DEC_BAD_NUM, d).

(** The error code and [*to]. *)
Definition bin2decimal (from : list Z) (to : decimal_t) (precision scale : Z) : option (Z * decimal_t) :=
  let intg := decimal_digits_t precision - decimal_digits_t scale in
  let intg0 := Z.quot intg DIG_PER_DEC1 in
  let frac0 := Z.quot (decimal_digits_t scale) DIG_PER_DEC1 in
  let intg0x := intg - intg0 * DIG_PER_DEC1 in
  let frac0x := decimal_digits_t scale - frac0 * DIG_PER_DEC1 in
  let intg1 := intg0 + (if 0 <? intg0x then 1 else 0) in
  let frac1 := frac0 + (if 0 <? frac0x then 1 else 0) in
  first ← from !! 0%nat;
  let mask := if Z.land first 128 =? 0 then -1 else 0 in
  bin_size ← decimal_bin_size precision scale;
  let from := flip_first (take (Z.to_nat bin_size) from) in
  let '(fintg1, ffrac1, error) := FIX_INTG_FRAC_ERROR (len to) intg1 frac1 in
  skip ← rd dig2bytes intg0x;
  let '(from, intg0, intg0x, frac0, frac0x) :=
    if error =? 0 then (from, intg0, intg0x, frac0, frac0x) else
    if fintg1 <? intg1
    then (drop (Z.to_nat (skip + 4 * (intg0 - fintg1))) from, fintg1, 0, 0, 0)
    else (from, intg0, intg0x, ffrac1, 0) in
  let tintg := intg0 * DIG_PER_DEC1 + intg0x in
  let tfrac := frac0 * DIG_PER_DEC1 + frac0x in
  r ← load_first intg0x from mask (buf to) tintg;
  match r with
  | inl b => bad_num b
  | inr (b, p, tintg, from) =>
      r ← load_full (Z.to_nat intg0) true from mask b p tintg;
      match r with
      | inl b => bad_num b
      | inr (b, p, tintg, from) =>
          r ← load_full (Z.to_nat frac0) false from mask b p tintg;
          match r with
          | inl b => bad_num b
          | inr (b, p, tintg, from) =>
              r ← load_last frac0x from mask b p;
              match r with
              | inl b => bad_num b
              | inr b =>
                  let d := mk_decimal tintg tfrac (negb (mask =? 0)) b in
                  if (tintg =? 0) && (tfrac =? 0) then d ← decimal_make_zero d; Some (error, d)
                  else Some (error, d)
              end
          end
      end
  end.

End Decimal.
