(* ===== verification/DecimalProofs.v ===== *)
(** * The value of a fixed-point number; addition, subtraction, comparison

    The value of a [decimal_t] is a rational number.  [decimal_add],
    [decimal_sub] and [decimal_cmp] compute with it exactly, in buffers of the
    size that [decimal_result_size] announces. *)

From Stdlib Require Import QArith.
From S2P Require Import Prelude IntConvProofs Decimal.
Import IntConvProofs Decimal.

#[local] Open Scope Z_scope.

Module DecimalProofs.

(** A hypothesis that arithmetic tactics pass over: equations between powers
    and products slow [lia] down where it needs the lengths only. *)
Definition hidden (P : Prop) : Prop := P.

Ltac hide H := let P := type of H in change (hidden P) in H.
Ltac reveal H := unfold hidden in H.

(** ** Words *)

Notation B := DIG_BASE.

Definition num (l : list Z) : Z := val B 0 l.

Definition words_ok (l : list Z) : Prop := digits B l.

Lemma B_pos : 1 <= B. Proof. unfold DIG_BASE. lia. Qed.

Lemma num_app a b : num (a ++ b) = num a * B ^ Z.of_nat (length b) + num b.
Proof. unfold num. by rewrite val_app, val_acc. Qed.

Lemma num_snoc l w : num (l ++ [w]) = num l * B + w.
Proof. rewrite num_app. unfold num, val at 2. cbn [length fold_left]. change (Z.of_nat 1) with 1. lia. Qed.

Lemma num_cons w l : num (w :: l) = w * B ^ Z.of_nat (length l) + num l.
Proof. change (w :: l) with ([w] ++ l). rewrite num_app. unfold num, val at 1. cbn [fold_left]. lia. Qed.

Lemma num_nil : num [] = 0. Proof. done. Qed.

Lemma num_bounds l : words_ok l -> 0 <= num l < B ^ Z.of_nat (length l).
Proof. apply val_bounds. exact B_pos. Qed.

Lemma num_zeros n : num (repeat 0 n) = 0.
Proof. induction n as [|n IH]; [done|]. cbn [repeat]. rewrite num_cons, IH. lia. Qed.

Lemma words_zeros n : words_ok (repeat 0 n).
Proof. unfold words_ok, digits, DIG_BASE. induction n; cbn [repeat]; constructor; [lia|done]. Qed.

Lemma words_nil : words_ok [].
Proof. by apply Forall_nil. Qed.

Lemma words_app a b : words_ok (a ++ b) <-> words_ok a /\ words_ok b.
Proof. apply Forall_app. Qed.

Lemma words_snoc l w : words_ok l -> 0 <= w < B -> words_ok (l ++ [w]).
Proof. intros Hl Hw. apply words_app. split; [done|]. apply Forall_cons. split; [done|]. apply words_nil. Qed.

Lemma Bpow_pos n : 0 < B ^ Z.of_nat n.
Proof. apply Z.pow_pos_nonneg; unfold DIG_BASE; lia. Qed.

(** ** Segments of a buffer *)

(** The [n] words from [s] on. *)
Definition seg (l : list Z) (s n : nat) : list Z := take n (drop s l).

Lemma seg_length l s n : (s + n <= length l)%nat -> length (seg l s n) = n.
Proof. intros H. unfold seg. rewrite length_take, length_drop. lia. Qed.

Lemma seg_snoc l s n w : l !! (s + n)%nat = Some w -> seg l s (S n) = seg l s n ++ [w].
Proof. intros H. unfold seg. apply take_S_r. by rewrite lookup_drop. Qed.

Lemma seg_plus l s n m : seg l s (n + m) = seg l s n ++ seg l (s + n) m.
Proof.
  unfold seg. rewrite <- drop_drop. generalize (drop s l). intros k. clear l s. revert k.
  induction n as [|n IH]; intros k; [done|]. destruct k as [|x k]; [by rewrite drop_nil, !take_nil|].
  cbn [Nat.add take drop app]. by rewrite IH.
Qed.

Lemma seg_words l s n m : words_ok (take m l) -> (s + n <= m)%nat -> words_ok (seg l s n).
Proof.
  intros H Hm. unfold seg. apply (Forall_drop _ s) in H. rewrite skipn_firstn_comm in H.
  apply (Forall_take _ n) in H. rewrite take_take in H. by replace (Nat.min n (m - s)) with n in H by lia.
Qed.

(** The words [ws] stored below [b0]. *)
Definition stored (dst : list Z) (b0 : nat) (ws : list Z) : list Z :=
  take (b0 - length ws) dst ++ ws ++ drop b0 dst.

Lemma stored_nil dst b0 : (b0 <= length dst)%nat -> stored dst b0 [] = dst.
Proof. intros H. unfold stored. cbn. by rewrite Nat.sub_0_r, take_drop. Qed.

Lemma stored_length dst b0 ws : (length ws <= b0 <= length dst)%nat -> length (stored dst b0 ws) = length dst.
Proof. intros H. unfold stored. rewrite !length_app, length_take, length_drop. lia. Qed.

Lemma stored_step dst b w ws : (S b <= length dst)%nat -> (length ws <= b)%nat ->
  stored (<[b:=w]> dst) b ws = stored dst (S b) (ws ++ [w]).
Proof.
  intros Hb Hl. unfold stored. rewrite length_app. cbn [length].
  replace (S b - (length ws + 1))%nat with (b - length ws)%nat by lia.
  rewrite take_insert_ge by lia. rewrite <- !app_assoc. do 2 f_equal.
  rewrite (drop_insert_ge _ _ _ _ (le_n b)), Nat.sub_diag.
  destruct (lookup_lt_is_Some_2 dst b) as [x Hx]; [lia|]. by rewrite (drop_S dst x b Hx).
Qed.

Lemma stored_stored dst b ws us : (length ws + length us <= b <= length dst)%nat ->
  stored (stored dst b ws) (b - length ws) us = stored dst b (us ++ ws).
Proof.
  intros H. unfold stored. rewrite length_app.
  rewrite take_app_le by (rewrite length_take; lia). rewrite take_take.
  replace (Nat.min _ _) with (b - (length us + length ws))%nat by lia.
  rewrite drop_app_ge by (rewrite length_take; lia). rewrite length_take.
  replace (b - length ws - Nat.min _ _)%nat with 0%nat by lia. rewrite drop_0. by rewrite <- app_assoc.
Qed.

Lemma words_take l n m : words_ok (take m l) -> (n <= m)%nat -> words_ok (take n l).
Proof.
  intros H Hn. replace (take n l) with (take n (take m l)) by (rewrite take_take; f_equal; lia). by apply Forall_take.
Qed.

Lemma words_pred l b : words_ok (take (S b) l) -> words_ok (take b l).
Proof. intros H. by apply (words_take l b (S b)); [|lia]. Qed.

Lemma word_at l b w : words_ok (take (S b) l) -> l !! b = Some w -> 0 <= w < B.
Proof. intros H Hw. apply (Forall_lookup_1 _ _ b _ H). by rewrite lookup_take_lt by lia. Qed.

Lemma rd_pred l b : rd l (Z.of_nat (S b) - 1) = l !! b.
Proof. unfold rd. rewrite decide_True by lia. f_equal. lia. Qed.

Lemma wr_pred l b w : (b < length l)%nat -> wr l (Z.of_nat (S b) - 1) w = Some (<[b:=w]> l).
Proof. intros H. unfold wr. rewrite decide_True by lia. do 2 f_equal. lia. Qed.

Lemma pred_of_nat b : Z.of_nat (S b) - 1 = Z.of_nat b.
Proof. lia. Qed.


(** ** The loops *)

Lemma copy_down_spec n src b1 dst b0 : (n <= b1 <= length src)%nat -> (n <= b0 <= length dst)%nat ->
  copy_down n src (Z.of_nat b1) dst (Z.of_nat b0) =
  Some (stored dst b0 (seg src (b1 - n) n), Z.of_nat (b1 - n), Z.of_nat (b0 - n)).
Proof.
  revert b1 dst b0. induction n as [|n IH]; intros b1 dst b0 H1 H0.
  { rewrite !Nat.sub_0_r. unfold seg. cbn [copy_down]. by rewrite take_0, stored_nil by lia. }
  destruct b1 as [|b1]; [lia|]. destruct b0 as [|b0]; [lia|]. cbn [copy_down].
  destruct (lookup_lt_is_Some_2 src b1) as [w Hw]; [lia|].
  rewrite rd_pred, Hw. cbn [mbind option_bind]. rewrite wr_pred by lia. cbn [mbind option_bind].
  rewrite !pred_of_nat, IH by (rewrite ?length_insert; lia). cbn [Nat.sub].
  rewrite stored_step by (rewrite ?seg_length; lia).
  rewrite <- (seg_snoc src (b1 - n) n w) by (rewrite <- Hw; f_equal; lia). done.
Qed.

Lemma zero_down_spec n dst b0 : (n <= b0 <= length dst)%nat ->
  zero_down n dst (Z.of_nat b0) = Some (stored dst b0 (repeat 0 n), Z.of_nat (b0 - n)).
Proof.
  revert dst b0. induction n as [|n IH]; intros dst b0 H0.
  { rewrite Nat.sub_0_r. cbn [zero_down repeat]. by rewrite stored_nil by lia. }
  destruct b0 as [|b0]; [lia|]. cbn [zero_down]. rewrite wr_pred by lia. cbn [mbind option_bind].
  rewrite pred_of_nat, IH by (rewrite ?length_insert; lia). cbn [Nat.sub].
  rewrite stored_step by (rewrite ?repeat_length; lia). do 3 f_equal.
  change [0] with (repeat 0 1). rewrite <- repeat_app. f_equal. lia.
Qed.

(** An operation on words with a carry of weight [s]: [1] to add, [-1] to
    subtract. *)
Definition carries (s : Z) (op : Z -> Z -> Z -> Z * Z) : Prop := forall a b c,
  0 <= a < B -> 0 <= b < B -> 0 <= c <= 1 ->
  let '(w, c') := op a b c in 0 <= w < B /\ 0 <= c' <= 1 /\ w + s * c' * B = a + s * b + s * c.

Lemma ADD_carries : carries 1 ADD.
Proof. intros a b c Ha Hb Hc. unfold ADD, DIG_BASE in *. destruct (_ <=? _) eqn:H; [apply Z.leb_le in H|apply Z.leb_gt in H]; lia. Qed.

Lemma SUB_carries : carries (-1) SUB.
Proof. intros a b c Ha Hb Hc. unfold SUB, DIG_BASE in *. destruct (_ <? _) eqn:H; [apply Z.ltb_lt in H|apply Z.ltb_ge in H]; lia. Qed.

Lemma both_down_spec s op n src1 b1 src2 b2 dst b0 c :
  carries s op -> words_ok (take b1 src1) -> words_ok (take b2 src2) -> 0 <= c <= 1 ->
  (n <= b1 <= length src1)%nat -> (n <= b2 <= length src2)%nat -> (n <= b0 <= length dst)%nat ->
  exists ws c', both_down op n src1 (Z.of_nat b1) src2 (Z.of_nat b2) dst (Z.of_nat b0) c =
    Some (stored dst b0 ws, Z.of_nat (b1 - n), Z.of_nat (b2 - n), Z.of_nat (b0 - n), c') /\
    length ws = n /\ words_ok ws /\ 0 <= c' <= 1 /\
    num ws + s * c' * B ^ Z.of_nat n = num (seg src1 (b1 - n) n) + s * num (seg src2 (b2 - n) n) + s * c.
Proof.
  intros Hop. revert b1 b2 dst b0 c. induction n as [|n IH]; intros b1 b2 dst b0 c W1 W2 Hc H1 H2 H0.
  { exists [], c. rewrite !Nat.sub_0_r. unfold seg. cbn [both_down]. rewrite !take_0, stored_nil, num_nil by lia.
    change (Z.of_nat 0) with 0. rewrite Z.pow_0_r.
    split_and!; first [done | by apply words_nil | lia]. }
  destruct b1 as [|b1]; [lia|]. destruct b2 as [|b2]; [lia|]. destruct b0 as [|b0]; [lia|]. cbn [both_down].
  destruct (lookup_lt_is_Some_2 src1 b1) as [w1 Hw1]; [lia|].
  destruct (lookup_lt_is_Some_2 src2 b2) as [w2 Hw2]; [lia|].
  rewrite !rd_pred, Hw1, Hw2. cbn [mbind option_bind].
  pose proof (Hop w1 w2 c (word_at _ _ _ W1 Hw1) (word_at _ _ _ W2 Hw2) Hc) as Hs.
  destruct (op w1 w2 c) as [w c1]. destruct Hs as (Hw & Hc1 & E).
  rewrite wr_pred by lia. cbn [mbind option_bind]. rewrite !pred_of_nat.
  apply words_pred in W1, W2. destruct (IH b1 b2 (<[b0:=w]> dst) b0 c1 W1 W2 Hc1) as (ws & c' & -> & Hl & Hok & Hc' & E'); try (rewrite ?length_insert; lia).
  exists (ws ++ [w]), c'. rewrite stored_step by lia. cbn [Nat.sub]. split; [done|].
  split; [rewrite length_app; cbn; lia|]. split; [by apply words_snoc|]. split; [done|].
  rewrite (seg_snoc src1 _ _ w1), (seg_snoc src2 _ _ w2) by (rewrite <- ?Hw1, <- ?Hw2; f_equal; lia).
  rewrite !num_snoc, Nat2Z.inj_succ, Z.pow_succ_r by lia. nia.
Qed.

Lemma carry_down_spec s op n src b1 dst b0 c :
  (forall a c, 0 <= a < B -> 0 <= c <= 1 ->
     let '(w, c') := op a c in 0 <= w < B /\ 0 <= c' <= 1 /\ w + s * c' * B = (if s =? 1 then a else - a) + s * c) ->
  words_ok (take b1 src) -> 0 <= c <= 1 -> (n <= b1 <= length src)%nat -> (n <= b0 <= length dst)%nat ->
  exists ws c', carry_down op n src (Z.of_nat b1) dst (Z.of_nat b0) c =
    Some (stored dst b0 ws, Z.of_nat (b1 - n), Z.of_nat (b0 - n), c') /\
    length ws = n /\ words_ok ws /\ 0 <= c' <= 1 /\
    num ws + s * c' * B ^ Z.of_nat n =
    (if s =? 1 then num (seg src (b1 - n) n) else - num (seg src (b1 - n) n)) + s * c.
Proof.
  intros Hop. revert b1 dst b0 c. induction n as [|n IH]; intros b1 dst b0 c W1 Hc H1 H0.
  { exists [], c. rewrite !Nat.sub_0_r. unfold seg. cbn [carry_down]. rewrite !take_0, stored_nil, num_nil by lia.
    change (Z.of_nat 0) with 0. rewrite Z.pow_0_r.
    split_and!; first [done | by apply words_nil | lia | destruct (s =? 1); cbn; lia]. }
  destruct b1 as [|b1]; [lia|]. destruct b0 as [|b0]; [lia|]. cbn [carry_down].
  destruct (lookup_lt_is_Some_2 src b1) as [w1 Hw1]; [lia|]. rewrite rd_pred, Hw1. cbn [mbind option_bind].
  pose proof (Hop w1 c (word_at _ _ _ W1 Hw1) Hc) as Hs.
  destruct (op w1 c) as [w c1]. destruct Hs as (Hw & Hc1 & E).
  rewrite wr_pred by lia. cbn [mbind option_bind]. rewrite !pred_of_nat.
  apply words_pred in W1. destruct (IH b1 (<[b0:=w]> dst) b0 c1 W1 Hc1) as (ws & c' & -> & Hl & Hok & Hc' & E'); try (rewrite ?length_insert; lia).
  exists (ws ++ [w]), c'. rewrite stored_step by lia. cbn [Nat.sub]. split; [done|].
  split; [rewrite length_app; cbn; lia|]. split; [by apply words_snoc|]. split; [done|].
  rewrite (seg_snoc src _ _ w1) by (rewrite <- Hw1; f_equal; lia).
  rewrite !num_snoc, Nat2Z.inj_succ, Z.pow_succ_r by lia. destruct (s =? 1); nia.
Qed.

Lemma borrow_copy_spec n src b1 dst b0 c :
  words_ok (take b1 src) -> 0 <= c <= 1 -> (n <= b1 <= length src)%nat -> (n <= b0 <= length dst)%nat ->
  c <= num (seg src (b1 - n) n) ->
  exists ws, ('(b, buf1, buf0) ← borrow_down n src (Z.of_nat b1) dst (Z.of_nat b0) c;
              copy_down (Z.to_nat (buf1 - Z.of_nat (b1 - n))) src buf1 b buf0) =
    Some (stored dst b0 ws, Z.of_nat (b1 - n), Z.of_nat (b0 - n)) /\
    length ws = n /\ words_ok ws /\ num ws = num (seg src (b1 - n) n) - c.
Proof.
  revert b1 dst b0 c. induction n as [|n IH]; intros b1 dst b0 c W1 Hc H1 H0 Hle.
  { exists []. rewrite !Nat.sub_0_r in *. unfold seg in *. rewrite take_0, num_nil in *. cbn [borrow_down mbind option_bind].
    rewrite Z.sub_diag. cbn [copy_down Z.to_nat]. rewrite stored_nil by lia.
    split_and!; first [done | by apply words_nil | lia]. }
  destruct (decide (c = 0)) as [->|Hc0].
  { cbn [borrow_down]. rewrite Z.eqb_refl. cbn [mbind option_bind].
    replace (Z.to_nat (Z.of_nat b1 - Z.of_nat (b1 - S n))) with (S n) by lia.
    rewrite copy_down_spec by lia. eexists. split; [done|]. split; [apply seg_length; lia|].
    split; [apply (seg_words _ _ _ b1); [done|lia]|lia]. }
  destruct b1 as [|b1]; [lia|]. destruct b0 as [|b0]; [lia|]. cbn [borrow_down].
  rewrite (proj2 (Z.eqb_neq _ _)) by done.
  destruct (lookup_lt_is_Some_2 src b1) as [w1 Hw1]; [lia|]. rewrite rd_pred, Hw1. cbn [mbind option_bind].
  pose proof (word_at _ _ _ W1 Hw1) as B1.
  pose proof (SUB_carries w1 0 c B1 ltac:(unfold DIG_BASE; lia) Hc) as Hs.
  destruct (SUB w1 0 c) as [w c1]. destruct Hs as (Hw & Hc1 & E).
  rewrite wr_pred by lia. cbn [mbind option_bind]. rewrite !pred_of_nat.
  rewrite (seg_snoc src _ _ w1) in * by (rewrite <- Hw1; f_equal; lia). rewrite num_snoc in *.
  apply words_pred in W1. cbn [Nat.sub] in *.
  pose proof (num_bounds (seg src (b1 - n) n) ltac:(apply (seg_words _ _ _ b1); [done|lia])).
  destruct (IH b1 (<[b0:=w]> dst) b0 c1 W1 Hc1) as (ws & E1 & Hl & Hok & E'); try (rewrite ?length_insert; lia).
  { unfold DIG_BASE in *. lia. }
  rewrite E1. exists (ws ++ [w]). rewrite stored_step by lia. split; [done|].
  split; [rewrite length_app; cbn; lia|]. split; [by apply words_snoc|]. rewrite num_snoc, E'. unfold DIG_BASE in *. lia.
Qed.

(** ** Values *)

Lemma ROUND_UP_div x : 0 <= x -> ROUND_UP x = (x + 8) / 9.
Proof.
  intros Hx. unfold ROUND_UP, DIG_PER_DEC1. destruct (0 <? x) eqn:E; [apply Z.ltb_lt in E|apply Z.ltb_ge in E].
  - rewrite Z.quot_div_nonneg by lia. f_equal.
  - replace x with 0 by lia. done.
Qed.

Lemma ROUND_UP_bounds x : 0 <= x -> 0 <= ROUND_UP x /\ 9 * ROUND_UP x - 8 <= x <= 9 * ROUND_UP x.
Proof. intros Hx. rewrite ROUND_UP_div by done. dlia. Qed.

Lemma ROUND_UP_mono x y : 0 <= x <= y -> ROUND_UP x <= ROUND_UP y.
Proof. intros H. rewrite !ROUND_UP_div by lia. apply Z.div_le_mono; lia. Qed.

Lemma ROUND_UP_max x y : 0 <= x -> 0 <= y -> ROUND_UP (Z.max x y) = Z.max (ROUND_UP x) (ROUND_UP y).
Proof.
  intros Hx Hy. destruct (Z.le_gt_cases x y) as [H|H].
  - rewrite !Z.max_r; [done|by apply ROUND_UP_mono|done].
  - rewrite !Z.max_l; [done|apply ROUND_UP_mono; lia|lia].
Qed.

(** The numbers of words before and behind the point. *)
Definition iw (d : decimal_t) : nat := Z.to_nat (ROUND_UP (intg d)).
Definition fw (d : decimal_t) : nat := Z.to_nat (ROUND_UP (frac d)).

Definition words (d : decimal_t) : list Z := take (iw d + fw d) (buf d).

Definition mag (d : decimal_t) : Z := num (words d).

Definition signed_mag (d : decimal_t) : Z := if sign d then - mag d else mag d.

Definition value (d : decimal_t) : Q := signed_mag d # Z.to_pos (B ^ Z.of_nat (fw d)).

(** The digits are where [intg] and [frac] say, and there is no negative
    zero. *)
Record wf (d : decimal_t) : Prop := mk_wf {
  wf_intg : 0 <= intg d;
  wf_frac : 0 <= frac d;
  wf_len : (1 <= iw d + fw d <= length (buf d))%nat;
  wf_words : words_ok (words d);
  wf_top : mag d < 10 ^ intg d * B ^ Z.of_nat (fw d);
  wf_tail : (10 ^ (9 * Z.of_nat (fw d) - frac d) | mag d);
  wf_sign : sign d = true -> mag d ≠ 0
}.

(** ** Addition *)

Lemma seg_take l n : seg l 0 n = take n l.
Proof. unfold seg. by rewrite drop_0. Qed.

Lemma ADD0_carries a c : 0 <= a < B -> 0 <= c <= 1 ->
  let '(w, c') := ADD a 0 c in 0 <= w < B /\ 0 <= c' <= 1 /\ w + 1 * c' * B = (if 1 =? 1 then a else - a) + 1 * c.
Proof.
  intros Ha Hc. pose proof (ADD_carries a 0 c Ha ltac:(unfold DIG_BASE; lia) Hc) as H.
  destruct (ADD a 0 c). cbn [Z.eqb Pos.eqb]. lia.
Qed.

(** A number in three segments. *)
Lemma num_three l a b c : (a + b + c <= length l)%nat ->
  num (take (a + b + c) l) =
  (num (seg l 0 a) * B ^ Z.of_nat b + num (seg l a b)) * B ^ Z.of_nat c + num (seg l (a + b) c).
Proof. intros H. rewrite <- seg_take, !seg_plus, !num_app, !seg_length by lia. done. Qed.

(** The two operands in the three parts of the addition. *)
Lemma operands_split src1 src2 src3 i1 i2 f1 f2 :
  (f2 <= f1)%nat -> (i2 <= i1)%nat /\ src3 = src1 \/ (i1 <= i2)%nat /\ src3 = src2 ->
  (i1 + f1 <= length src1)%nat -> (i2 + f2 <= length src2)%nat ->
  let k := Nat.min i1 i2 in
  num (take (i1 + f1) src1) + num (take (i2 + f2) src2) * B ^ Z.of_nat (f1 - f2) =
  (num (take (Nat.max i1 i2 - k) src3) * B ^ Z.of_nat (k + f2) + num (seg src1 (i1 - k) (k + f2)) +
   num (seg src2 (i2 - k) (k + f2))) * B ^ Z.of_nat (f1 - f2) + num (seg src1 (i1 + f2) (f1 - f2)).
Proof.
  intros Hf H3 L1 L2 k.
  assert (E1 : (i1 + f1 = i1 - k + (k + f2) + (f1 - f2))%nat) by (subst k; lia).
  assert (E2 : (i2 + f2 = i2 - k + (k + f2) + 0)%nat) by (subst k; lia).
  rewrite E1, E2, !num_three by lia. rewrite (eq_refl : seg src2 _ 0 = []), num_nil, !seg_take.
  replace (i1 - k + (k + f2))%nat with (i1 + f2)%nat by (subst k; lia).
  change (B ^ Z.of_nat 0) with 1. destruct H3 as [[Hi ->]|[Hi ->]].
  - replace (i2 - k)%nat with 0%nat by (subst k; lia). replace (Nat.max i1 i2 - k)%nat with (i1 - k)%nat by lia.
    rewrite take_0, num_nil. ring.
  - replace (i1 - k)%nat with 0%nat by (subst k; lia). replace (Nat.max i1 i2 - k)%nat with (i2 - k)%nat by lia.
    rewrite take_0, num_nil. ring.
Qed.

Lemma add_words_spec src1 src2 src3 i1 i2 f1 f2 dst b0 :
  (f2 <= f1)%nat -> (i2 <= i1)%nat /\ src3 = src1 \/ (i1 <= i2)%nat /\ src3 = src2 ->
  words_ok (take (i1 + f1) src1) -> words_ok (take (i2 + f2) src2) ->
  (i1 + f1 <= length src1)%nat -> (i2 + f2 <= length src2)%nat ->
  let m := (Nat.max i1 i2 + f1)%nat in
  (m <= b0 <= length dst)%nat ->
  exists ws c, length ws = m /\ words_ok ws /\ 0 <= c <= 1 /\
    num ws + c * B ^ Z.of_nat m =
      num (take (i1 + f1) src1) + num (take (i2 + f2) src2) * B ^ Z.of_nat (f1 - f2) /\
    add_words src1 src2 src3 (Z.of_nat i1) (Z.of_nat i2) (Z.of_nat f1) (Z.of_nat f2)
      (Z.of_nat (Nat.max i1 i2 - Nat.min i1 i2)) dst (Z.of_nat b0) =
    (if c =? 0 then Some (stored dst b0 ws) else wr (stored dst b0 ws) (Z.of_nat (b0 - m) - 1) 1).
Proof.
  intros Hf H3 W1 W2 L1 L2 m Hb. pose proof (operands_split _ _ _ _ _ _ _ Hf H3 L1 L2) as P. cbn zeta in P. hide P.
  unfold add_words. set (k := Nat.min i1 i2) in *. set (n3 := (Nat.max i1 i2 - k)%nat) in *.
  assert (Hk : (k <= i1 /\ k <= i2 /\ m = n3 + (k + f2) + (f1 - f2))%nat) by (subst k n3 m; lia).
  assert (H3' : words_ok (take n3 src3) /\ (n3 <= length src3)%nat).
  { destruct H3 as [[? ->]|[? ->]]; (split; [|subst k n3; lia]);
      [apply (words_take _ _ (i1 + f1))|apply (words_take _ _ (i2 + f2))]; first [done|subst k n3; lia]. }
  assert (E2 : Z.to_nat (Z.of_nat (i1 + f2) - (if Z.of_nat i2 <? Z.of_nat i1 then Z.of_nat i1 - Z.of_nat i2 else 0)) = (k + f2)%nat).
  { subst k. destruct (_ <? _) eqn:E; [apply Z.ltb_lt in E|apply Z.ltb_ge in E]; lia. }
  clearbody k n3 m. clear H3.
  replace (Z.to_nat (Z.of_nat i1 + Z.of_nat f1 - (Z.of_nat i1 + Z.of_nat f2))) with (f1 - f2)%nat by lia.
  rewrite <- !Nat2Z.inj_add, copy_down_spec by lia. cbn [mbind option_bind].
  replace (i1 + f1 - (f1 - f2))%nat with (i1 + f2)%nat in * by lia.
  set (low := seg src1 (i1 + f2) (f1 - f2)) in *.
  assert (Ll : length low = (f1 - f2)%nat) by (apply seg_length; lia).
  assert (Wl : words_ok low) by (apply (seg_words _ _ _ (i1 + f1)); [done|lia]). clearbody low. rewrite E2. clear E2.
  destruct (both_down_spec 1 ADD (k + f2) src1 (i1 + f2) src2 (i2 + f2) (stored dst b0 low) (b0 - (f1 - f2)) 0)
    as (mid & c1 & -> & Lm & Wm & Hc1 & Em); [..|hide Em]; try (rewrite ?stored_length by lia; lia);
    [exact ADD_carries|apply (words_take _ _ (i1 + f1)); [done|lia]|done|].
  cbn [mbind option_bind]. rewrite Nat2Z.id. rewrite <- Ll, stored_stored by lia.
  destruct (carry_down_spec 1 (fun w => ADD w 0) n3 src3 n3 (stored dst b0 (mid ++ low)) (b0 - length low - (k + f2)) c1)
    as (top & c & -> & Lt & Wt & Hc & Et); try (rewrite ?stored_length by (rewrite length_app; lia); lia); try apply H3'.
  { intros a c'. apply ADD0_carries. }
  hide Et. cbn [mbind option_bind]. rewrite Nat.sub_diag, seg_take in Et. change (1 =? 1) with true in Et. cbv iota in Et.
  replace (b0 - length low - (k + f2))%nat with (b0 - length (mid ++ low))%nat by (clear -Lm Ll; rewrite length_app; lia).
  rewrite stored_stored by (rewrite !length_app; lia).
  replace (b0 - length (mid ++ low) - n3)%nat with (b0 - m)%nat by (clear -Lm Ll Hk; rewrite length_app; lia).
  exists (top ++ mid ++ low), c. split; [rewrite !length_app; lia|]. split; [by rewrite !words_app|].
  split; [done|]. split; [|done]. replace (i1 + f2 - (k + f2))%nat with (i1 - k)%nat in Em by lia.
  replace (i2 + f2 - (k + f2))%nat with (i2 - k)%nat in Em by lia.
  reveal P. rewrite <- Ll in P, Hk. rewrite P, !num_app, length_app, Lm, (proj2 (proj2 Hk)).
  reveal Em. reveal Et. clear P. rewrite !Nat2Z.inj_add, !Z.pow_add_r in * by (clear; lia).
  replace (num (take n3 src3)) with (num top + 1 * c * B ^ Z.of_nat n3 - 1 * c1) by lia.
  replace (num (seg src1 (i1 - k) (k + f2))) with
    (num mid + 1 * c1 * (B ^ Z.of_nat k * B ^ Z.of_nat f2) - num (seg src2 (i2 - k) (k + f2))) by lia.
  ring.
Qed.


(** ** What a result looks like *)

Lemma iw_ROUND_UP d : 0 <= intg d -> ROUND_UP (intg d) = Z.of_nat (iw d).
Proof. intros H. unfold iw. rewrite Z2Nat.id; [done|by apply ROUND_UP_bounds]. Qed.

Lemma fw_ROUND_UP d : 0 <= frac d -> ROUND_UP (frac d) = Z.of_nat (fw d).
Proof. intros H. unfold fw. rewrite Z2Nat.id; [done|by apply ROUND_UP_bounds]. Qed.

Lemma iw_full n f sg b : iw (mk_decimal (Z.of_nat n * 9) f sg b) = n.
Proof. unfold iw. cbn [intg]. rewrite ROUND_UP_div by lia. dlia. Qed.

Lemma B_pow10 n : B ^ Z.of_nat n = 10 ^ (9 * Z.of_nat n).
Proof. rewrite Z.pow_mul_r by lia. done. Qed.

Lemma mag_bounds d : wf d -> 0 <= mag d < B ^ Z.of_nat (iw d + fw d).
Proof.
  intros H. pose proof (num_bounds (words d) (wf_words _ H)) as Bd. unfold words in Bd at 3.
  pose proof (wf_len _ H). rewrite length_take, Nat.min_l in Bd by lia. exact Bd.
Qed.

(** A result with whole words before the point: its buffer starts with [ws]. *)
Lemma wf_result n f sg ws rest :
  words_ok ws -> 0 <= f -> length ws = (n + Z.to_nat (ROUND_UP f))%nat -> (1 <= length ws)%nat ->
  (10 ^ (9 * ROUND_UP f - f) | num ws) -> (sg = true -> num ws ≠ 0) ->
  let d := mk_decimal (Z.of_nat n * 9) f sg (ws ++ rest) in
  wf d /\ mag d = num ws /\ fw d = Z.to_nat (ROUND_UP f).
Proof.
  intros Hw Hf Hl Hpos Hdiv Hsg d.
  assert (Hfw : fw d = Z.to_nat (ROUND_UP f)) by done. pose proof (ROUND_UP_bounds f Hf) as BF.
  assert (Hm : mag d = num ws).
  { unfold mag, words, d. rewrite iw_full. unfold fw. cbn [frac buf].
    rewrite <- Hl. by rewrite take_app_length. }
  assert (Hws : words d = ws).
  { unfold words, d. rewrite iw_full. unfold fw. cbn [frac buf]. rewrite <- Hl. by rewrite take_app_length. }
  split; [|done]. pose proof (num_bounds ws Hw) as Bd. split.
  - cbn. lia.
  - done.
  - unfold d. rewrite iw_full. unfold fw. cbn [frac buf]. rewrite length_app. lia.
  - by rewrite Hws.
  - rewrite Hm. eapply Z.lt_le_trans; [apply Bd|]. rewrite Hl, Nat2Z.inj_add, Z.pow_add_r by lia.
    rewrite Hfw. unfold d. cbn [intg]. rewrite (B_pow10 n), (Z.mul_comm 9). lia.
  - rewrite Hm, Hfw, Z2Nat.id by lia. done.
  - by rewrite Hm.
Qed.

(** The first word, if it lies before the point, has the digits [intg] leaves
    to it. *)
Lemma top_word d i w : wf d -> iw d = S i -> buf d !! 0%nat = Some w -> w < 10 ^ (intg d - 9 * Z.of_nat i).
Proof.
  intros H Hi Hw. pose proof (wf_top _ H) as T. pose proof (wf_len _ H). pose proof (wf_words _ H) as W.
  pose proof (ROUND_UP_bounds _ (wf_intg _ H)) as BI. rewrite iw_ROUND_UP, Hi in BI by apply H.
  destruct (buf d) as [|w' l] eqn:E; [done|]. injection Hw as ->.
  unfold mag, words in *. rewrite E, Hi in *. cbn [Nat.add take] in *. rewrite num_cons in T.
  apply Forall_cons in W as [Hw W]. pose proof (num_bounds _ W) as Bt.
  rewrite length_take in *. rewrite Nat.min_l in * by (cbn in *; lia).
  rewrite Nat2Z.inj_add, Z.pow_add_r in * by lia. pose proof (Bpow_pos (fw d)) as P.
  assert (w * B ^ Z.of_nat i < 10 ^ intg d) as Hlt by nia.
  replace (intg d) with (9 * Z.of_nat i + (intg d - 9 * Z.of_nat i)) in Hlt by lia.
  rewrite Z.pow_add_r, <- B_pow10 in Hlt by lia. pose proof (Bpow_pos i). nia.
Qed.

(** [wf] as a boolean. *)
Definition wfb (d : decimal_t) : bool :=
  (0 <=? intg d) && (0 <=? frac d) && (1 <=? iw d + fw d)%nat && (iw d + fw d <=? length (buf d))%nat &&
  forallb (fun w => (0 <=? w) && (w <? B)) (words d) && (mag d <? 10 ^ intg d * B ^ Z.of_nat (fw d)) &&
  (mag d mod 10 ^ (9 * Z.of_nat (fw d) - frac d) =? 0) && (negb (sign d) || negb (mag d =? 0)).

Lemma wfb_sound d : wfb d = true -> wf d.
Proof.
  unfold wfb. rewrite !andb_true_iff, forallb_forall. intros (((((((H1 & H2) & H3) & H4) & H5) & H6) & H7) & H8).
  apply Z.leb_le in H1, H2. apply Nat.leb_le in H3, H4. apply Z.ltb_lt in H6. apply Z.eqb_eq in H7.
  pose proof (ROUND_UP_bounds _ H2) as R. rewrite fw_ROUND_UP in R by done. split; try done.
  - apply Forall_forall. intros w Hw. apply list_elem_of_In, H5 in Hw.
    apply andb_true_iff in Hw as [Hl Hu]. apply Z.leb_le in Hl. apply Z.ltb_lt in Hu. done.
  - apply Z.mod_divide; [|done]. pose proof (Z.pow_pos_nonneg 10 (9 * Z.of_nat (fw d) - frac d)). lia.
  - intros E. rewrite E in H8. cbn in H8. apply negb_true_iff, Z.eqb_neq in H8. done.
Qed.
End DecimalProofs.
