(* ===== verification/DecimalAdd.v ===== *)
(** * Fixed-point numbers: addition, subtraction and comparison are exact

    In a buffer of the size that [decimal_result_size] announces,
    [decimal_add] and [decimal_sub] compute the sum and the difference of the
    values; [decimal_cmp] decides their order. *)

From Stdlib Require Import QArith.
From S2P Require Import Prelude IntConvProofs Decimal DecimalProofs.
Import IntConvProofs Decimal DecimalProofs.

#[local] Open Scope Z_scope.

Module DecimalAdd.

(** ** Addition *)

Lemma first_word d : wf d -> exists w, buf d !! 0%nat = Some w /\ 0 <= w < B /\
  w * B ^ Z.of_nat (iw d + fw d - 1) <= mag d < (w + 1) * B ^ Z.of_nat (iw d + fw d - 1).
Proof.
  intros H. pose proof (wf_len _ H) as L. pose proof (wf_words _ H) as W. unfold mag, words in *.
  destruct (buf d) as [|w l]; [cbn in L; lia|]. exists w. split; [done|].
  replace (iw d + fw d)%nat with (S (iw d + fw d - 1)) in * by lia. cbn [take] in *.
  apply Forall_cons in W as [Hw W]. split; [done|]. pose proof (num_bounds _ W) as Bt. rewrite num_cons.
  rewrite length_take in *. replace (Nat.min _ _) with (iw d + fw d - 1)%nat in * by (cbn in L; lia).
  replace (S (iw d + fw d - 1) - 1)%nat with (iw d + fw d - 1)%nat by lia. lia.
Qed.

(** A first word of nine digits before the point: [intg] is full. *)
Lemma full_top d i w : wf d -> iw d = S i -> buf d !! 0%nat = Some w -> 10 ^ 8 <= w ->
  intg d = 9 * Z.of_nat (iw d).
Proof.
  intros H Hi Hw Hb. pose proof (top_word d i w H Hi Hw) as T.
  pose proof (ROUND_UP_bounds _ (wf_intg _ H)) as BI. rewrite iw_ROUND_UP, Hi in BI by apply H.
  destruct (Z.le_gt_cases (intg d - 9 * Z.of_nat i) 8) as [H8|H8]; [|lia].
  pose proof (Z.pow_le_mono_r 10 _ 8 ltac:(lia) H8). lia.
Qed.

(** The word that decides about an extra word for the carry. *)
Definition deciding (a b : decimal_t) (wa wb : Z) : Z :=
  if (iw b <? iw a)%nat then wa else if (iw a <? iw b)%nat then wb else wa + wb.

Lemma extra_room a b wa wb : wf a -> wf b -> buf a !! 0%nat = Some wa -> buf b !! 0%nat = Some wb ->
  DIG_MAX - 1 < deciding a b wa wb ->
  Z.of_nat (Nat.max (iw a) (iw b)) + 1 <= ROUND_UP (Z.max (intg a) (intg b) + 1).
Proof.
  intros Ha Hb Ea Eb Hx. unfold deciding, DIG_MAX, DIG_BASE in Hx.
  pose proof (wf_intg _ Ha). pose proof (wf_intg _ Hb).
  pose proof (iw_ROUND_UP a ltac:(done)) as Ra. pose proof (iw_ROUND_UP b ltac:(done)) as Rb.
  rewrite ROUND_UP_div in Ra, Rb |- * by lia.
  destruct (first_word a Ha) as (wa' & Ea' & Ba & _). rewrite Ea in Ea'. injection Ea' as <-.
  destruct (first_word b Hb) as (wb' & Eb' & Bb & _). rewrite Eb in Eb'. injection Eb' as <-.
  assert (Fa : 10 ^ 8 <= wa -> iw a ≠ 0%nat -> intg a = 9 * Z.of_nat (iw a)).
  { intros H8 Hi. destruct (iw a) as [|i] eqn:E; [done|]. rewrite <- E. by apply (full_top a i wa). }
  assert (Fb : 10 ^ 8 <= wb -> iw b ≠ 0%nat -> intg b = 9 * Z.of_nat (iw b)).
  { intros H8 Hi. destruct (iw b) as [|i] eqn:E; [done|]. rewrite <- E. by apply (full_top b i wb). }
  clear Ea Eb. destruct (iw b <? iw a)%nat eqn:E1; [apply Nat.ltb_lt in E1; specialize (Fa ltac:(lia) ltac:(lia)); dlia|].
  apply Nat.ltb_ge in E1. destruct (iw a <? iw b)%nat eqn:E2.
  { apply Nat.ltb_lt in E2. specialize (Fb ltac:(lia) ltac:(lia)). dlia. }
  apply Nat.ltb_ge in E2. destruct (decide (iw a = 0%nat)) as [Hi0|Hi0]; [dlia|].
  destruct (Z.le_gt_cases (10 ^ 8) wa) as [H8|H8]; [specialize (Fa H8 Hi0); dlia|].
  specialize (Fb ltac:(lia) ltac:(lia)). dlia.
Qed.

(** The magnitude with [F] words behind the point. *)
Definition scaled (F : nat) (d : decimal_t) : Z := mag d * B ^ Z.of_nat (F - fw d).

Lemma scaled_bound I F d w : wf d -> buf d !! 0%nat = Some w -> (iw d <= I)%nat -> (fw d <= F)%nat ->
  let X := B ^ Z.of_nat (I + F - 1) in
  scaled F d < (w + 1) * X /\ ((iw d < I)%nat -> scaled F d < X).
Proof.
  intros H Hw Hi Hf X. destruct (first_word d H) as (w' & Ew & Bw & _ & T). rewrite Hw in Ew. injection Ew as <-.
  pose proof (wf_len _ H) as L. unfold scaled.
  assert (U : mag d * B ^ Z.of_nat (F - fw d) < (w + 1) * B ^ Z.of_nat (iw d + F - 1)).
  { eapply Z.lt_le_trans; [apply Z.mul_lt_mono_pos_r; [apply Bpow_pos|exact T]|].
    rewrite <- Z.mul_assoc, <- Z.pow_add_r, <- Nat2Z.inj_add by lia.
    by replace (iw d + fw d - 1 + (F - fw d))%nat with (iw d + F - 1)%nat by lia. }
  assert (P := Bpow_pos (iw d + F - 1)). split.
  - eapply Z.lt_le_trans; [exact U|]. apply Z.mul_le_mono_nonneg_l; [lia|].
    apply Z.pow_le_mono_r; [done|clear U T P X; lia].
  - intros Hlt. eapply Z.lt_le_trans; [exact U|]. transitivity (B * B ^ Z.of_nat (iw d + F - 1)).
    + apply Z.mul_le_mono_nonneg_r; lia.
    + clear U T P. rewrite <- Z.pow_succ_r by apply Nat2Z.is_nonneg. apply Z.pow_le_mono_r; [done|clear X; lia].
Qed.

(** Without an extra word the sum fits into the words of the operands. *)
Lemma sum_fits a b wa wb : wf a -> wf b -> buf a !! 0%nat = Some wa -> buf b !! 0%nat = Some wb ->
  deciding a b wa wb <= DIG_MAX - 1 ->
  let F := Nat.max (fw a) (fw b) in
  scaled F a + scaled F b < B ^ Z.of_nat (Nat.max (iw a) (iw b) + F).
Proof.
  intros Ha Hb Ea Eb Hx F. set (I := Nat.max (iw a) (iw b)). pose proof (wf_len _ Ha) as La.
  destruct (scaled_bound I F a wa Ha Ea ltac:(lia) ltac:(lia)) as [A1 A2].
  destruct (scaled_bound I F b wb Hb Eb ltac:(lia) ltac:(lia)) as [B1 B2].
  replace (I + F)%nat with (S (I + F - 1)) by lia. rewrite Nat2Z.inj_succ, Z.pow_succ_r by lia.
  assert (P := Bpow_pos (I + F - 1)). unfold deciding, DIG_MAX in Hx.
  assert (HI : (iw b < iw a -> iw b < I)%nat /\ (iw a < iw b -> iw a < I)%nat) by lia. destruct HI as [Ib Ia].
  generalize dependent (B ^ Z.of_nat (I + F - 1)). clear La. intros X A1 A2 B1 B2 P.
  destruct (iw b <? iw a)%nat eqn:E1; [|destruct (iw a <? iw b)%nat eqn:E2]; rewrite ?Nat.ltb_lt, ?Nat.ltb_ge in *.
  - specialize (B2 (Ib E1)). clear - A1 B2 P Hx. nia.
  - specialize (A2 (Ia E2)). clear - A2 B1 P Hx. nia.
  - clear - A1 B1 P Hx. nia.
Qed.

Lemma scaled_tail F f d : wf d -> (fw d <= F)%nat -> frac d <= f <= 9 * Z.of_nat F ->
  (10 ^ (9 * Z.of_nat F - f) | scaled F d).
Proof.
  intros H HF Hf. destruct (wf_tail _ H) as [q Eq]. unfold scaled. rewrite Eq, B_pow10.
  pose proof (ROUND_UP_bounds _ (wf_frac _ H)) as R. rewrite fw_ROUND_UP in R by apply H.
  rewrite <- Z.mul_assoc, <- Z.pow_add_r by lia. apply Z.divide_mul_r.
  exists (10 ^ (f - frac d)). rewrite <- Z.pow_add_r by lia. f_equal. lia.
Qed.

Lemma scaled_nonneg F d : wf d -> 0 <= scaled F d.
Proof. intros H. pose proof (mag_bounds _ H). pose proof (Bpow_pos (F - fw d)). unfold scaled. nia. Qed.

Lemma scaled_pos F d : wf d -> mag d ≠ 0 -> 0 < scaled F d.
Proof. intros H Hm. pose proof (mag_bounds _ H). pose proof (Bpow_pos (F - fw d)). unfold scaled. nia. Qed.

(** The value of a decimal, over a common denominator. *)
Lemma value_scaled F d v : (fw d <= F)%nat -> v = (if sign d then - scaled F d else scaled F d) ->
  (value d == v # Z.to_pos (B ^ Z.of_nat F))%Q.
Proof.
  intros HF ->. pose proof (Bpow_pos F) as P. pose proof (Bpow_pos (fw d)) as P'.
  unfold Qeq, value, signed_mag, scaled. cbn [Qnum Qden]. rewrite !Z2Pos.id by done.
  replace F with (fw d + (F - fw d))%nat at 1 by lia.
  rewrite Nat2Z.inj_add, Z.pow_add_r by (clear; lia). destruct (sign d); ring.
Qed.

Lemma Qmake_add x y p : ((x # p) + (y # p) == x + y # p)%Q.
Proof. unfold Qeq. cbn [Qnum Qden Qplus]. rewrite Pos2Z.inj_mul. ring. Qed.

(** [add_words] with the operands in the order [do_add] gives them. *)
Definition add_operands (a b : decimal_t) (dst : list Z) (b0 : nat) : option (list Z) :=
  let i1 := Z.of_nat (iw a) in let i2 := Z.of_nat (iw b) in
  let f1 := Z.of_nat (fw a) in let f2 := Z.of_nat (fw b) in
  let swap := negb (f2 <? f1) in
  add_words (if swap then buf b else buf a) (if swap then buf a else buf b)
    (if i2 <? i1 then buf a else buf b) (if swap then i2 else i1) (if swap then i1 else i2)
    (if swap then f2 else f1) (if swap then f1 else f2) (if i2 <? i1 then i1 - i2 else i2 - i1) dst (Z.of_nat b0).

Lemma add_operands_spec a b dst b0 : wf a -> wf b ->
  let F := Nat.max (fw a) (fw b) in let m := (Nat.max (iw a) (iw b) + F)%nat in
  (m <= b0 <= length dst)%nat ->
  exists ws c, length ws = m /\ words_ok ws /\ 0 <= c <= 1 /\
    num ws + c * B ^ Z.of_nat m = scaled F a + scaled F b /\
    add_operands a b dst b0 =
    (if c =? 0 then Some (stored dst b0 ws) else wr (stored dst b0 ws) (Z.of_nat (b0 - m) - 1) 1).
Proof.
  intros Ha Hb F m Hm. unfold add_operands.
  pose proof (wf_len _ Ha) as La. pose proof (wf_len _ Hb) as Lb.
  pose proof (wf_words _ Ha) as Wa. pose proof (wf_words _ Hb) as Wb. unfold words in Wa, Wb.
  replace (if Z.of_nat (iw b) <? Z.of_nat (iw a) then Z.of_nat (iw a) - Z.of_nat (iw b) else Z.of_nat (iw b) - Z.of_nat (iw a))
    with (Z.of_nat (Nat.max (iw a) (iw b) - Nat.min (iw a) (iw b)))
    by (destruct (Z.ltb_spec (Z.of_nat (iw b)) (Z.of_nat (iw a))); lia).
  set (src3 := if Z.of_nat (iw b) <? Z.of_nat (iw a) then buf a else buf b).
  assert (H3 : (iw b <= iw a)%nat /\ src3 = buf a \/ (iw a <= iw b)%nat /\ src3 = buf b).
  { subst src3. destruct (Z.ltb_spec (Z.of_nat (iw b)) (Z.of_nat (iw a))); [left|right]; (split; [lia|done]). }
  unfold scaled, mag, words. destruct (Z.ltb_spec (Z.of_nat (fw b)) (Z.of_nat (fw a))) as [Hf|Hf]; cbn [negb].
  - destruct (add_words_spec (buf a) (buf b) src3 (iw a) (iw b) (fw a) (fw b) dst b0)
      as (ws & c & Hl & Hw & Hc & E & ->); try done; try lia.
    replace (Nat.max (iw a) (iw b) + fw a)%nat with m in * by lia.
    exists ws, c. split_and!; try done; try lia. rewrite E.
    replace (F - fw a)%nat with 0%nat by lia. replace (F - fw b)%nat with (fw a - fw b)%nat by lia.
    change (B ^ Z.of_nat 0) with 1. ring.
  - destruct (add_words_spec (buf b) (buf a) src3 (iw b) (iw a) (fw b) (fw a) dst b0)
      as (ws & c & Hl & Hw & Hc & E & E'); try done; try lia. { destruct H3; [right|left]; done. }
    rewrite (Nat.max_comm (iw b)), (Nat.min_comm (iw b)) in *. rewrite E'.
    replace (Nat.max (iw a) (iw b) + fw b)%nat with m in * by lia.
    exists ws, c. split_and!; try done; try lia. rewrite E.
    replace (F - fw b)%nat with 0%nat by lia. replace (F - fw a)%nat with (fw b - fw a)%nat by lia.
    change (B ^ Z.of_nat 0) with 1. ring.
Qed.

(** [do_add] where the words fit. *)
Lemma do_add_step a b to wa wb : wf a -> wf b -> buf a !! 0%nat = Some wa -> buf b !! 0%nat = Some wb ->
  let extra := DIG_MAX - 1 <? deciding a b wa wb in
  let I := (Nat.max (iw a) (iw b) + (if extra then 1 else 0))%nat in
  let m := (I + Nat.max (fw a) (fw b))%nat in
  (m <= length (buf to))%nat ->
  do_add a b to =
    (dst ← (if extra then wr (buf to) 0 0 else Some (buf to));
     dst ← add_operands a b dst m;
     Some (E_DEC_OK, mk_decimal (Z.of_nat I * 9) (Z.max (frac a) (frac b)) (sign a) dst)).
Proof.
  intros Ha Hb Ea Eb extra I m Hm. unfold do_add, add_operands.
  rewrite !iw_ROUND_UP, !fw_ROUND_UP by apply Ha || apply Hb.
  replace (if Z.of_nat (iw b) <? Z.of_nat (iw a) then rd (buf a) 0 else _) with (Some (deciding a b wa wb)).
  2: { unfold deciding. change (rd (buf a) 0) with (buf a !! 0%nat). change (rd (buf b) 0) with (buf b !! 0%nat).
       rewrite Ea, Eb. destruct (Z.ltb_spec (Z.of_nat (iw b)) (Z.of_nat (iw a))).
       - by rewrite (proj2 (Nat.ltb_lt _ _)) by lia.
       - rewrite (proj2 (Nat.ltb_ge _ _)) by lia. destruct (Z.ltb_spec (Z.of_nat (iw a)) (Z.of_nat (iw b))).
         + by rewrite (proj2 (Nat.ltb_lt _ _)) by lia.
         + by rewrite (proj2 (Nat.ltb_ge _ _)) by lia. }
  cbn [mbind option_bind]. fold extra.
  replace (if extra then _ + 1 else _) with (Z.of_nat I) by (subst I; destruct extra; lia).
  replace (Z.max (Z.of_nat (fw a)) (Z.of_nat (fw b))) with (Z.of_nat (Nat.max (fw a) (fw b))) by lia.
  destruct (if extra then wr (buf to) 0 0 else Some (buf to)) as [dst|]; [|done]. cbn [mbind option_bind].
  unfold FIX_INTG_FRAC_ERROR, len. rewrite (proj2 (Z.ltb_ge _ _)) by lia.
  change (E_DEC_OK =? E_DEC_OVERFLOW) with false. change (negb (E_DEC_OK =? 0)) with false. cbv iota.
  rewrite <- Nat2Z.inj_add. done.
Qed.

(** The words end up at the start of the buffer, the carry in front of them. *)
Lemma extra_stored ws c to : (S (length ws) <= length (buf to))%nat -> 0 <= c <= 1 ->
  exists rest, (dst ← wr (buf to) 0 0;
    if c =? 0 then Some (stored dst (S (length ws)) ws)
    else wr (stored dst (S (length ws)) ws) (Z.of_nat (S (length ws) - length ws) - 1) 1) =
  Some ((c :: ws) ++ rest) /\ length ((c :: ws) ++ rest) = length (buf to).
Proof.
  intros Hl Hc. destruct (buf to) as [|w l]; [cbn in Hl; lia|]. cbn [length] in *.
  exists (drop (length ws) l). change (wr (w :: l) 0 0) with (Some (0 :: l)). cbn [mbind option_bind].
  replace (S (length ws) - length ws)%nat with 1%nat by lia.
  assert (E : stored (0 :: l) (S (length ws)) ws = (0 :: ws) ++ drop (length ws) l).
  { unfold stored. replace (S (length ws) - length ws)%nat with 1%nat by lia. done. }
  rewrite E. cbn [app length]. split; [|rewrite length_app, length_drop; lia].
  destruct (decide (c = 0)) as [->|Hc0]; [done|]. replace c with 1 by lia. cbn [Z.eqb Pos.eqb].
  done.
Qed.

Definition signed (sg : bool) (v : Z) : Z := if sg then - v else v.

(** The operation succeeds, its result has the value [v] over [B ^ F]. *)
Definition exact (r : option (Z * decimal_t)) (to : decimal_t) (F : nat) (v : Z) : Prop :=
  exists t, r = Some (E_DEC_OK, t) /\ wf t /\ (fw t <= F)%nat /\ signed (sign t) (scaled F t) = v /\
    length (buf t) = length (buf to).

(** A result in whole words. *)
Lemma exact_result n f sg ws rest to : words_ok ws -> 0 <= f ->
  length ws = (n + Z.to_nat (ROUND_UP f))%nat -> (1 <= length ws)%nat ->
  (10 ^ (9 * ROUND_UP f - f) | num ws) -> (sg = true -> num ws ≠ 0) -> length (ws ++ rest) = length (buf to) ->
  exact (Some (E_DEC_OK, mk_decimal (Z.of_nat n * 9) f sg (ws ++ rest))) to (Z.to_nat (ROUND_UP f)) (signed sg (num ws)).
Proof.
  intros Hw Hf Hl Hpos Hdiv Hsg Hb. destruct (wf_result n f sg ws rest) as (Wt & Mt & Ft); try done.
  eexists. split; [done|]. split; [done|]. split; [by rewrite Ft|]. split; [|done].
  unfold scaled. rewrite Mt, Ft, Nat.sub_diag. cbn [sign]. unfold signed. f_equal. destruct sg; lia.
Qed.

Lemma frac_words a b : wf a -> wf b ->
  let F := Nat.max (fw a) (fw b) in let f := Z.max (frac a) (frac b) in
  0 <= f /\ ROUND_UP f = Z.of_nat F /\ f <= 9 * Z.of_nat F.
Proof.
  intros Ha Hb F f. pose proof (wf_frac _ Ha). pose proof (wf_frac _ Hb).
  pose proof (ROUND_UP_max (frac a) (frac b) ltac:(done) ltac:(done)) as R. rewrite !fw_ROUND_UP in R by done.
  fold f in R.
  pose proof (ROUND_UP_bounds f ltac:(lia)). lia.
Qed.

(** A sum or a difference in whole words. *)
Lemma exact_words a b to sg n ws rest v :
  let F := Nat.max (fw a) (fw b) in
  wf a -> wf b -> words_ok ws -> num ws = v -> v = scaled F a + scaled F b \/ v = scaled F a - scaled F b ->
  length ws = (n + F)%nat -> (1 <= length ws)%nat -> (sg = true -> v ≠ 0) -> length (ws ++ rest) = length (buf to) ->
  exact (Some (E_DEC_OK, mk_decimal (Z.of_nat n * 9) (Z.max (frac a) (frac b)) sg (ws ++ rest))) to F (signed sg v).
Proof.
  intros F Ha Hb Hw Hv Ev Hl Hpos Hsg Hb'. destruct (frac_words a b Ha Hb) as (F0 & RF & BF). fold F in RF, BF.
  assert (X := exact_result n (Z.max (frac a) (frac b)) sg ws rest to). rewrite RF, Nat2Z.id, Hv in X.
  apply X; try done. assert (Da : (10 ^ (9 * Z.of_nat F - Z.max (frac a) (frac b)) | scaled F a)) by (apply scaled_tail; [done|lia..]).
  assert (Db : (10 ^ (9 * Z.of_nat F - Z.max (frac a) (frac b)) | scaled F b)) by (apply scaled_tail; [done|lia..]).
  destruct Ev as [->| ->]; [by apply Z.divide_add_r|by apply Z.divide_sub_r].
Qed.

Lemma do_add_spec a b to : wf a -> wf b -> decimal_result_size_add a b <= len to ->
  let F := Nat.max (fw a) (fw b) in
  exact (do_add a b to) to F (signed (sign a) (scaled F a + scaled F b)).
Proof.
  intros Ha Hb Hsz F.
  destruct (first_word a Ha) as (wa & Ea & _). destruct (first_word b Hb) as (wb & Eb & _).
  pose proof (extra_room a b wa wb Ha Hb Ea Eb) as HX. pose proof (sum_fits a b wa wb Ha Hb Ea Eb) as HN.
  assert (Hpos : sign a = true -> scaled F a + scaled F b ≠ 0).
  { intros S. pose proof (scaled_pos F a Ha (wf_sign _ Ha S)). pose proof (scaled_nonneg F b Hb). lia. }
  pose proof (ROUND_UP_mono (Z.max (intg a) (intg b)) (Z.max (intg a) (intg b) + 1) ltac:(pose proof (wf_intg _ Ha); lia)) as RM.
  rewrite ROUND_UP_max, !iw_ROUND_UP in RM by apply Ha || apply Hb.
  unfold decimal_result_size_add, len in Hsz. rewrite (proj1 (proj2 (frac_words a b Ha Hb))) in Hsz. pose proof (wf_len _ Ha) as La.
  rewrite (do_add_step a b to wa wb Ha Hb Ea Eb); [|destruct (Z.ltb_spec (DIG_MAX - 1) (deciding a b wa wb)); lia].
  set (m := (Nat.max (iw a) (iw b) + F)%nat) in *.
  destruct (Z.ltb_spec (DIG_MAX - 1) (deciding a b wa wb)) as [Hx|Hx].
  - specialize (HX Hx). clear HN. destruct (wr (buf to) 0 0) as [dst|] eqn:Ew; [|unfold wr in Ew; rewrite decide_True in Ew by lia; done].
    assert (Ld : length dst = length (buf to)).
    { unfold wr in Ew. case_decide; [|done]. injection Ew as <-. apply length_insert. }
    destruct (add_operands_spec a b dst (S m) Ha Hb) as (ws & c & Hl & Hw & Hc & E & Er); [lia|].
    fold F m in Hl, E, Er.
    destruct (extra_stored ws c to ltac:(lia) Hc) as (rest & Es & Lr). rewrite Ew in Es. cbn [mbind option_bind] in Es |- *.
    rewrite Hl, <- Er in Es. replace (_ + 1 + _)%nat with (S m) by lia. rewrite Es. cbn [mbind option_bind].
    apply exact_words; try done; [..|by left|cbn [length]; clear -Hl; lia|cbn [length]; lia].
    + apply Forall_cons. split; [unfold DIG_BASE; lia|done].
    + rewrite num_cons, Hl. lia.
  - specialize (HN Hx). cbn zeta in HN. fold F m in HN. clear HX. cbn [mbind option_bind].
    destruct (add_operands_spec a b (buf to) m Ha Hb) as (ws & c & Hl & Hw & Hc & E & Er); [lia|].
    fold F m in Hl, E, Er. pose proof (num_bounds ws Hw) as Bw. rewrite Hl in Bw.
    replace c with 0 in * by nia. rewrite Z.mul_0_l, Z.add_0_r in E. cbn [Z.eqb] in Er.
    replace (_ + 0 + _)%nat with m by (clear; lia). rewrite Er. cbn [mbind option_bind].
    rewrite Nat.add_0_r. unfold stored. replace (m - length ws)%nat with 0%nat by (clear -Hl; lia). rewrite take_0.
    apply (exact_words _ _ _ _ _ ws); try done; [by left|clear -Hl La m F; lia|].
    rewrite length_app, length_drop. clear -Hl Hsz RM m F. lia.
Qed.
End DecimalAdd.
