(* ===== verification/DecimalCmp.v ===== *)
(** * Fixed-point numbers: the comparison

    [compare_words] is what [do_sub] does before it subtracts: it skips the
    zero words in front, then, if the numbers have the same number of words
    before the point, those at the end, and looks for the first different
    word.  [decimal_cmp] decides the order of the values. *)

From Stdlib Require Import QArith.
From S2P Require Import Prelude IntConvProofs Decimal DecimalProofs DecimalAdd.
Import IntConvProofs Decimal DecimalProofs DecimalAdd.

#[local] Open Scope Z_scope.

Module DecimalCmp.

(** ** The scans *)

Lemma rd_nat l i : rd l (Z.of_nat i) = l !! i.
Proof. unfold rd. rewrite decide_True by lia. by rewrite Nat2Z.id. Qed.

Lemma seg_cons l s n w : l !! s = Some w -> seg l s (S n) = w :: seg l (S s) n.
Proof. intros H. unfold seg. by rewrite (drop_S _ _ _ H). Qed.

Lemma skip_zeros_up_spec n b p : (p + n <= length b)%nat ->
  exists k, skip_zeros_up n b (Z.of_nat p) = Some (Z.of_nat (p + k)) /\ (k <= n)%nat /\
    seg b p k = repeat 0 k /\ ((k < n)%nat -> exists w, b !! (p + k)%nat = Some w /\ w ≠ 0).
Proof.
  revert p. induction n as [|n IH]; intros p Hl.
  { exists 0%nat. rewrite Nat.add_0_r. split_and!; try done. lia. }
  cbn [skip_zeros_up]. rewrite rd_nat. destruct (lookup_lt_is_Some_2 b p) as [w Hw]; [lia|].
  rewrite Hw. cbn [mbind option_bind]. destruct (Z.eqb_spec w 0) as [->|Hn].
  - replace (Z.of_nat p + 1) with (Z.of_nat (S p)) by lia.
    destruct (IH (S p)) as (k & E & Hk & Hz & Hd); [lia|]. exists (S k).
    rewrite E. split; [by replace (S p + k)%nat with (p + S k)%nat by lia|]. split; [lia|].
    split; [by rewrite (seg_cons _ _ _ _ Hw), Hz|]. intros H. destruct Hd as (w & E' & Hw'); [lia|].
    exists w. by replace (p + S k)%nat with (S p + k)%nat by lia.
  - exists 0%nat. rewrite Nat.add_0_r. split_and!; try done; [lia|]. by exists w.
Qed.

Lemma skip_zeros_down_spec n b p : (p + n <= length b)%nat ->
  exists k, skip_zeros_down n b (Z.of_nat (p + n) - 1) = Some (Z.of_nat (p + k) - 1) /\ (k <= n)%nat /\
    seg b p n = seg b p k ++ repeat 0 (n - k) /\
    ((0 < k)%nat -> exists w, b !! (p + k - 1)%nat = Some w /\ w ≠ 0).
Proof.
  induction n as [|n IH]; intros Hl.
  { exists 0%nat. split_and!; try done. lia. }
  cbn [skip_zeros_down]. replace (Z.of_nat (p + S n) - 1) with (Z.of_nat (p + n)) by lia. rewrite rd_nat.
  destruct (lookup_lt_is_Some_2 b (p + n)) as [w Hw]; [lia|].
  rewrite Hw. cbn [mbind option_bind]. destruct (Z.eqb_spec w 0) as [->|Hn].
  - destruct (IH ltac:(lia)) as (k & E & Hk & Hz & Hd). exists k. split; [done|]. split; [lia|].
    split; [|done]. rewrite (seg_snoc _ _ _ _ Hw), Hz. replace (S n - k)%nat with ((n - k) + 1)%nat by lia.
    rewrite repeat_app. by rewrite <- app_assoc.
  - exists (S n). split; [by replace (p + S n)%nat with (S (p + n)) by lia; f_equal; lia|].
    split; [lia|]. rewrite Nat.sub_diag, app_nil_r. split; [done|]. intros _. exists w.
    by replace (p + S n - 1)%nat with (p + n)%nat by lia.
Qed.

Lemma skip_equal_spec n l1 p1 l2 p2 : (p1 + n <= length l1)%nat -> (p2 + n <= length l2)%nat ->
  exists k, skip_equal n l1 (Z.of_nat p1) l2 (Z.of_nat p2) = Some (Z.of_nat (p1 + k), Z.of_nat (p2 + k)) /\
    (k <= n)%nat /\ seg l1 p1 k = seg l2 p2 k /\
    ((k < n)%nat -> exists w1 w2, l1 !! (p1 + k)%nat = Some w1 /\ l2 !! (p2 + k)%nat = Some w2 /\ w1 ≠ w2).
Proof.
  revert p1 p2. induction n as [|n IH]; intros p1 p2 H1 H2.
  { exists 0%nat. rewrite !Nat.add_0_r. split_and!; try done. lia. }
  cbn [skip_equal]. rewrite !rd_nat.
  destruct (lookup_lt_is_Some_2 l1 p1) as [w1 E1]; [lia|]. destruct (lookup_lt_is_Some_2 l2 p2) as [w2 E2]; [lia|].
  rewrite E1, E2. cbn [mbind option_bind]. destruct (Z.eqb_spec w1 w2) as [->|Hn].
  - replace (Z.of_nat p1 + 1) with (Z.of_nat (S p1)) by lia. replace (Z.of_nat p2 + 1) with (Z.of_nat (S p2)) by lia.
    destruct (IH (S p1) (S p2)) as (k & E & Hk & Hz & Hd); [lia..|]. exists (S k). rewrite E.
    replace (p1 + S k)%nat with (S p1 + k)%nat by lia. replace (p2 + S k)%nat with (S p2 + k)%nat by lia.
    split; [done|]. split; [lia|]. rewrite (seg_cons _ _ _ _ E1), (seg_cons _ _ _ _ E2), Hz. split; [done|].
    intros H. apply Hd. lia.
  - exists 0%nat. rewrite !Nat.add_0_r. split_and!; try done; [lia|]. intros _. by exists w1, w2.
Qed.

(** ** Numbers aligned at the first word *)

(** [u], filled up with zero words to [n] words. *)
Definition pad (n : nat) (u : list Z) : Z := num u * B ^ Z.of_nat (n - length u).

Lemma pad_app n p u : (length (p ++ u) <= n)%nat ->
  pad n (p ++ u) = num p * B ^ Z.of_nat (n - length p) + pad (n - length p) u.
Proof.
  intros H. unfold pad. rewrite length_app in *. rewrite num_app.
  replace (n - length p)%nat with (length u + (n - (length p + length u)))%nat at 1 by lia.
  rewrite Nat2Z.inj_add, Z.pow_add_r by lia.
  replace (n - length p - length u)%nat with (n - (length p + length u))%nat by lia. ring.
Qed.

Lemma pad_bounds n u : words_ok u -> (length u <= n)%nat -> 0 <= pad n u < B ^ Z.of_nat n.
Proof.
  intros W H. pose proof (num_bounds u W) as Bu. unfold pad. pose proof (Bpow_pos (n - length u)) as P.
  replace (Z.of_nat n) with (Z.of_nat (length u) + Z.of_nat (n - length u)) by lia.
  rewrite Z.pow_add_r by (clear; lia). nia.
Qed.

Lemma pad_cons_bounds n x u : words_ok (x :: u) -> (S (length u) <= n)%nat ->
  x * B ^ Z.of_nat (n - 1) <= pad n (x :: u) < (x + 1) * B ^ Z.of_nat (n - 1).
Proof.
  intros W H. change (x :: u) with ([x] ++ u) in *. rewrite pad_app by (cbn; lia).
  apply words_app in W as [_ W]. cbn [length]. pose proof (pad_bounds (n - 1) u W ltac:(lia)).
  change (num [x]) with x. lia.
Qed.

Lemma pad_lt n p x u y v : words_ok (x :: u) -> words_ok (y :: v) -> x < y ->
  (length (p ++ x :: u) <= n)%nat -> (length (p ++ y :: v) <= n)%nat -> pad n (p ++ x :: u) < pad n (p ++ y :: v).
Proof.
  intros Wu Wv Hlt Hu Hv. rewrite !pad_app by done. rewrite length_app in *. cbn [length] in *.
  pose proof (pad_cons_bounds (n - length p) x u Wu ltac:(lia)) as Pu.
  pose proof (pad_cons_bounds (n - length p) y v Wv ltac:(lia)) as Pv.
  pose proof (Bpow_pos (n - length p - 1)). nia.
Qed.

Lemma num_pos u i w : words_ok u -> u !! i = Some w -> w ≠ 0 -> 0 < num u.
Proof.
  intros W Hw H0. rewrite <- (take_drop_middle _ _ _ Hw) in *. apply words_app in W as [W1 W2].
  apply Forall_cons in W2 as [Hb W2]. rewrite num_app, num_cons.
  pose proof (num_bounds _ W1). pose proof (num_bounds _ W2). pose proof (Bpow_pos (length (w :: drop (S i) u))).
  pose proof (Bpow_pos (length (drop (S i) u))). nia.
Qed.

Lemma pad_longer n p u i w : words_ok u -> u !! i = Some w -> w ≠ 0 -> (length (p ++ u) <= n)%nat ->
  pad n p < pad n (p ++ u).
Proof.
  intros W Hw H0 Hl. pose proof (num_pos u i w W Hw H0). rewrite pad_app by done. unfold pad.
  pose proof (Bpow_pos (n - length p - length u)). nia.
Qed.

(** ** The words that are left *)

Lemma seg_lookup l s n i : (i < n)%nat -> seg l s n !! i = l !! (s + i)%nat.
Proof. intros H. unfold seg. by rewrite lookup_take_lt, lookup_drop. Qed.

(** The [n] words from [s] on are those of [d] without zero words in front and
    at the end; [i] words are before the point, [f] behind it. *)
Definition view (d : decimal_t) (s i f : Z) : Prop :=
  exists s' i' n : nat, s = Z.of_nat s' /\ i = Z.of_nat i' /\ f = Z.of_nat n - Z.of_nat i' /\
    (s' + i' = iw d)%nat /\ (n <= i' + fw d)%nat /\
    mag d = num (seg (buf d) s' n) * B ^ Z.of_nat (i' + fw d - n).

Lemma view_head d : wf d -> exists w s, rd (buf d) 0 = Some w /\
  (if w =? 0 then skip_zeros_up (iw d) (buf d) 0 else Some 0) = Some (Z.of_nat s) /\
  (s <= iw d)%nat /\ mag d = num (seg (buf d) s (iw d - s + fw d)) /\
  ((s < iw d)%nat -> exists w, buf d !! s = Some w /\ w ≠ 0).
Proof.
  intros H. destruct (first_word d H) as (w & Hw & _). change (rd (buf d) 0) with (buf d !! 0%nat). exists w.
  pose proof (wf_len _ H) as L.
  destruct (Z.eqb_spec w 0) as [->|Hn].
  - destruct (skip_zeros_up_spec (iw d) (buf d) 0) as (k & E & Hk & Hz & Hd); [lia|].
    exists k. split; [done|]. change 0 with (Z.of_nat 0) at 1. rewrite E. split; [done|]. split; [done|]. split; [|done].
    unfold mag, words. rewrite <- seg_take. replace (iw d + fw d)%nat with (k + (iw d - k + fw d))%nat by lia.
    rewrite seg_plus, num_app, Hz, num_zeros. done.
  - exists 0%nat. split; [done|]. split; [done|]. split; [lia|]. split; [|by exists w].
    unfold mag, words. by rewrite <- seg_take, Nat.sub_0_r.
Qed.

Lemma view_full d s : mag d = num (seg (buf d) s (iw d - s + fw d)) -> (s <= iw d)%nat ->
  view d (Z.of_nat s) (Z.of_nat (iw d) - Z.of_nat s) (Z.of_nat (fw d)).
Proof.
  intros E Hs. exists s, (iw d - s)%nat, (iw d - s + fw d)%nat.
  split_and!; try lia. rewrite Nat.sub_diag, E. change (B ^ Z.of_nat 0) with 1. lia.
Qed.

Lemma scaled_pad F d s n : wf d -> (s <= iw d)%nat -> (n <= iw d - s + fw d)%nat -> (fw d <= F)%nat ->
  mag d = num (seg (buf d) s n) * B ^ Z.of_nat (iw d - s + fw d - n) ->
  scaled F d = pad (iw d - s + F) (seg (buf d) s n) /\ words_ok (seg (buf d) s n) /\ length (seg (buf d) s n) = n.
Proof.
  intros H Hs Hn HF E. pose proof (wf_len _ H). pose proof (wf_words _ H) as W. split.
  - unfold scaled, pad. rewrite E, seg_length by lia. rewrite <- Z.mul_assoc, <- Z.pow_add_r by lia. f_equal. f_equal. lia.
  - split; [apply (seg_words _ _ _ (iw d + fw d)); [done|lia]|apply seg_length; lia].
Qed.

(** More words before the point: the larger number. *)
Lemma heads_lt F a s1 b s2 : wf a -> wf b -> (fw a <= F)%nat -> (fw b <= F)%nat ->
  (s1 <= iw a)%nat -> (s2 <= iw b)%nat -> (iw a - s1 < iw b - s2)%nat ->
  mag a = num (seg (buf a) s1 (iw a - s1 + fw a)) -> mag b = num (seg (buf b) s2 (iw b - s2 + fw b)) ->
  (exists w, buf b !! s2 = Some w /\ w ≠ 0) -> scaled F a < scaled F b.
Proof.
  intros Ha Hb Fa Fb S1 S2 Hlt Ea Eb (w & Hw & H0).
  destruct (scaled_pad F a s1 (iw a - s1 + fw a)) as (-> & Wu & Lu); try done; [rewrite Nat.sub_diag, Ea; cbn; lia|].
  destruct (scaled_pad F b s2 (iw b - s2 + fw b)) as (-> & Wv & Lv); try done; [rewrite Nat.sub_diag, Eb; cbn; lia|].
  pose proof (pad_bounds (iw a - s1 + F) _ Wu ltac:(lia)) as Pu.
  replace (iw b - s2 + fw b)%nat with (S (iw b - s2 + fw b - 1)) in * by lia.
  rewrite (seg_cons _ _ _ _ Hw) in *. cbn [length] in Lv.
  pose proof (pad_cons_bounds (iw b - s2 + F) w _ Wv ltac:(lia)) as Pv. apply Forall_cons in Wv as [Hb' _].
  pose proof (Z.pow_le_mono_r B (Z.of_nat (iw a - s1 + F)) (Z.of_nat (iw b - s2 + F - 1)) ltac:(done) ltac:(lia)) as Hm.
  pose proof (Bpow_pos (iw b - s2 + F - 1)). clear -Pu Pv Hm Hb' H0 H. nia.
Qed.

Lemma view_tail d s : wf d -> (s <= iw d)%nat -> mag d = num (seg (buf d) s (iw d - s + fw d)) ->
  let e := Z.of_nat (iw d) + (Z.of_nat (fw d) - 1) in
  exists k, skip_zeros_down (Z.to_nat (e + 1 - Z.of_nat s)) (buf d) e = Some (Z.of_nat (s + k) - 1) /\
    (k <= iw d - s + fw d)%nat /\ mag d = num (seg (buf d) s k) * B ^ Z.of_nat (iw d - s + fw d - k) /\
    ((0 < k)%nat -> exists w, buf d !! (s + k - 1)%nat = Some w /\ w ≠ 0).
Proof.
  intros H Hs E e. pose proof (wf_len _ H).
  destruct (skip_zeros_down_spec (iw d - s + fw d) (buf d) s) as (k & Ek & Hk & Hz & Hd); [lia|].
  exists k. split; [|split; [done|split; [|done]]].
  - rewrite <- Ek. subst e. f_equal; lia.
  - rewrite E, Hz, num_app, num_zeros, repeat_length. lia.
Qed.

(** What a carry says about the magnitudes. *)
Definition carry_order (carry : option bool) (x y : Z) : Prop :=
  match carry with None => x = y | Some false => y < x | Some true => x < y end.

Lemma seg_split l s k n : (k <= n)%nat -> seg l s n = seg l s k ++ seg l (s + k) (n - k).
Proof. intros H. rewrite <- seg_plus. f_equal. lia. Qed.

Lemma compare_tails N l1 s1 k1 l2 s2 k2 k :
  (s1 + k1 <= length l1)%nat -> (s2 + k2 <= length l2)%nat -> (k1 <= N)%nat -> (k2 <= N)%nat ->
  words_ok (seg l1 s1 k1) -> words_ok (seg l2 s2 k2) -> (k <= Nat.min k1 k2)%nat -> seg l1 s1 k = seg l2 s2 k ->
  ((k < Nat.min k1 k2)%nat -> exists w1 w2, l1 !! (s1 + k)%nat = Some w1 /\ l2 !! (s2 + k)%nat = Some w2 /\ w1 ≠ w2) ->
  ((0 < k1)%nat -> exists w, l1 !! (s1 + k1 - 1)%nat = Some w /\ w ≠ 0) ->
  ((0 < k2)%nat -> exists w, l2 !! (s2 + k2 - 1)%nat = Some w /\ w ≠ 0) ->
  exists carry,
    (if Z.of_nat (s1 + k) <=? Z.of_nat (s1 + k1) - 1 then
       if Z.of_nat (s2 + k) <=? Z.of_nat (s2 + k2) - 1 then
         x ← rd l1 (Z.of_nat (s1 + k)); y ← rd l2 (Z.of_nat (s2 + k)); Some (Some (x <? y))
       else Some (Some false)
     else Some (if Z.of_nat (s2 + k) <=? Z.of_nat (s2 + k2) - 1 then Some true else None)) = Some carry /\
    carry_order carry (pad N (seg l1 s1 k1)) (pad N (seg l2 s2 k2)).
Proof.
  intros L1 L2 N1 N2 W1 W2 Hk Ep Hd T1 T2.
  assert (Q1 := seg_length l1 s1 k1 L1). assert (Q2 := seg_length l2 s2 k2 L2).
  rewrite (seg_split l1 s1 k k1) in * by lia. rewrite (seg_split l2 s2 k k2), <- Ep in * by lia.
  apply words_app in W1 as [_ W1]. apply words_app in W2 as [_ W2].
  destruct (Z.leb_spec (Z.of_nat (s1 + k)) (Z.of_nat (s1 + k1) - 1)) as [H1|H1];
    destruct (Z.leb_spec (Z.of_nat (s2 + k)) (Z.of_nat (s2 + k2) - 1)) as [H2|H2].
  - destruct Hd as (w1 & w2 & E1 & E2 & Hn); [lia|]. rewrite !rd_nat, E1, E2. cbn [mbind option_bind].
    eexists. split; [done|]. replace (k1 - k)%nat with (S (k1 - k - 1)) in * by lia.
    replace (k2 - k)%nat with (S (k2 - k - 1)) in * by lia.
    rewrite (seg_cons _ _ _ _ E1), (seg_cons _ _ _ _ E2) in *.
    destruct (Z.ltb_spec w1 w2); cbn [carry_order]; apply pad_lt; try done; try lia.
  - eexists. split; [done|]. destruct T1 as (w & E & H0); [lia|]. replace (k2 - k)%nat with 0%nat by lia.
    rewrite (eq_refl : seg l2 (s2 + k) 0 = []), app_nil_r. cbn [carry_order].
    apply (pad_longer _ _ _ (k1 - k - 1) w); try done; [|lia].
    rewrite seg_lookup by lia. rewrite <- E. f_equal. lia.
  - eexists. split; [done|]. destruct T2 as (w & E & H0); [lia|]. replace (k1 - k)%nat with 0%nat by lia.
    rewrite (eq_refl : seg l1 (s1 + k) 0 = []), app_nil_r. cbn [carry_order].
    apply (pad_longer _ _ _ (k2 - k - 1) w); try done; [|lia].
    rewrite seg_lookup by lia. rewrite <- E. f_equal. lia.
  - eexists. split; [done|]. replace (k1 - k)%nat with 0%nat by lia. by replace (k2 - k)%nat with 0%nat by lia.
Qed.

Lemma compare_words_spec a b : wf a -> wf b ->
  let F := Nat.max (fw a) (fw b) in
  exists c, compare_words a b = Some c /\
    view a (c_start1 c) (c_intg1 c) (c_frac1 c) /\ view b (c_start2 c) (c_intg2 c) (c_frac2 c) /\
    carry_order (c_carry c) (scaled F a) (scaled F b) /\
    (c_carry c = Some false -> c_intg2 c <= c_intg1 c) /\ (c_carry c = Some true -> c_intg1 c <= c_intg2 c) /\
    0 <= c_intg2 c + c_frac1 c /\ 0 <= c_intg1 c + c_frac2 c.
Proof.
  intros Ha Hb F. unfold compare_words.
  rewrite !iw_ROUND_UP, !fw_ROUND_UP, !Nat2Z.id by apply Ha || apply Hb.
  destruct (view_head a Ha) as (w1 & s1 & -> & E1 & S1 & M1 & D1). cbn [mbind option_bind]. rewrite E1. clear E1 w1.
  destruct (view_head b Hb) as (w2 & s2 & -> & E2 & S2 & M2 & D2). cbn [mbind option_bind]. rewrite E2. clear E2 w2.
  cbn [mbind option_bind].
  destruct (Z.ltb_spec (Z.of_nat (iw a) - Z.of_nat s1) (Z.of_nat (iw b) - Z.of_nat s2)) as [Hlt|Hge].
  { eexists. split; [done|]. cbn. split_and!; try done; try (by apply view_full); try lia.
    apply (heads_lt F a s1 b s2); first [done|lia|apply D2; lia]. }
  destruct (Z.eqb_spec (Z.of_nat (iw b) - Z.of_nat s2) (Z.of_nat (iw a) - Z.of_nat s1)) as [Heq|Hne]; cbn [negb].
  2: { eexists. split; [done|]. cbn. split_and!; try done; try (by apply view_full); try lia.
    apply (heads_lt F b s2 a s1); first [done|lia|apply D1; lia]. }
  destruct (view_tail a s1 Ha S1 M1) as (k1 & -> & K1 & N1 & T1). cbn [mbind option_bind].
  destruct (view_tail b s2 Hb S2 M2) as (k2 & -> & K2 & N2 & T2). cbn [mbind option_bind].
  hide M1; hide M2; hide N1; hide N2; hide D1; hide D2; hide T1; hide T2.
  pose proof (wf_len _ Ha) as La. pose proof (wf_len _ Hb) as Lb.
  destruct (skip_equal_spec (Nat.min k1 k2) (buf a) s1 (buf b) s2) as (k & Ek & Hk & Ep & Hd); [lia..|]. hide Hd.
  replace (Z.to_nat (Z.min _ _)) with (Nat.min k1 k2) by lia. rewrite Ek. cbn [mbind option_bind].
  destruct (scaled_pad F a s1 k1) as (P1 & W1 & Q1); try done; [lia|].
  destruct (scaled_pad F b s2 k2) as (P2 & W2 & Q2); try done; [lia|].
  destruct (compare_tails (iw a - s1 + F) (buf a) s1 k1 (buf b) s2 k2 k) as (carry & -> & Ho); try done; try lia.
  cbn [mbind option_bind]. eexists. split; [done|]. cbn [c_carry c_start1 c_intg1 c_frac1 c_start2 c_intg2 c_frac2].
  split; [exists s1, (iw a - s1)%nat, k1; split_and!; try done; lia|].
  split; [exists s2, (iw b - s2)%nat, k2; split_and!; try done; lia|].
  split; [|lia]. rewrite P1, P2. by replace (iw b - s2)%nat with (iw a - s1)%nat by lia.
Qed.

(** ** The order *)

Lemma signed_order F d : (fw d <= F)%nat ->
  (value d == signed (sign d) (scaled F d) # Z.to_pos (B ^ Z.of_nat F))%Q.
Proof. intros H. by apply value_scaled. Qed.

Definition sign_of (x : Datatypes.comparison) : Z := match x with Eq => 0 | Lt => -1 | Gt => 1 end.

Lemma value_compare F a b : (fw a <= F)%nat -> (fw b <= F)%nat ->
  (value a ?= value b)%Q = (signed (sign a) (scaled F a) ?= signed (sign b) (scaled F b)).
Proof.
  intros Ha Hb. rewrite (signed_order F a Ha), (signed_order F b Hb). unfold Qcompare. cbn [Qnum Qden].
  symmetry. apply Zmult_compare_compat_r. pose proof (Bpow_pos F). lia.
Qed.

Lemma carry_sign carry sg x y : carry_order carry x y ->
  match carry with None => 0 | Some c => if eqb c sg then 1 else -1 end = sign_of (signed sg x ?= signed sg y).
Proof.
  unfold signed. destruct carry as [[]|], sg; cbn [carry_order eqb]; intros H.
  - by rewrite (proj2 (Z.compare_gt_iff _ _)) by lia.
  - by rewrite (proj2 (Z.compare_lt_iff _ _)) by lia.
  - by rewrite (proj2 (Z.compare_lt_iff _ _)) by lia.
  - by rewrite (proj2 (Z.compare_gt_iff _ _)) by lia.
  - by rewrite H, Z.compare_refl.
  - by rewrite H, Z.compare_refl.
Qed.

(** C11: [decimal_cmp] returns, for any two well-formed numbers, the sign of
    the difference of their values: whatever their signs, the numbers of
    words before and behind the point, and the zero words in front and at
    the end. *)
Theorem decimal_cmp_correct a b : wf a -> wf b ->
  decimal_cmp a b = Some (sign_of (value a ?= value b)%Q).
Proof.
  intros Ha Hb. set (F := Nat.max (fw a) (fw b)).
  rewrite (value_compare F) by lia. unfold decimal_cmp.
  destruct (eqb (sign a) (sign b)) eqn:Es.
  - apply eqb_prop in Es. unfold do_cmp. destruct (compare_words_spec a b Ha Hb) as (c & -> & _ & _ & Hc & _).
    cbn [mbind option_bind]. f_equal. rewrite <- Es. by apply carry_sign.
  - pose proof (scaled_nonneg F a Ha). pose proof (scaled_nonneg F b Hb). unfold signed.
    pose proof (wf_sign _ Ha) as Na. pose proof (wf_sign _ Hb) as Nb. destruct (sign a), (sign b); try done.
    + pose proof (scaled_pos F a Ha (Na eq_refl)). by rewrite (proj2 (Z.compare_lt_iff _ _)) by lia.
    + pose proof (scaled_pos F b Hb (Nb eq_refl)). by rewrite (proj2 (Z.compare_gt_iff _ _)) by lia.
Qed.

(** -1234567890.5 and -1234567890.499999999100000000: the first is less. *)
Definition cmp_a : decimal_t := mk_decimal 10 1 true [1; 234567890; 500000000].
Definition cmp_b : decimal_t := mk_decimal 12 10 true [1; 234567890; 499999999; 100000000].

Lemma cmp_wf : wf cmp_a /\ wf cmp_b.
Proof. split; apply wfb_sound; vm_compute; reflexivity. Qed.

Lemma decimal_cmp_correct_witness : decimal_cmp cmp_a cmp_b = Some (-1) /\ sign_of (value cmp_a ?= value cmp_b)%Q = -1.
Proof.
  pose proof (decimal_cmp_correct cmp_a cmp_b (proj1 cmp_wf) (proj2 cmp_wf)) as H.
  split; [rewrite H|]; vm_compute; reflexivity.
Defined.
End DecimalCmp.
