(* ===== verification/DecimalSub.v ===== *)
(** * Fixed-point numbers: the subtraction is exact

    [sub_words] takes the smaller absolute value from the larger one: the
    words behind the last one of either number, the common words, the words
    in front of the smaller number, through which the borrow runs. *)

From Stdlib Require Import QArith.
From S2P Require Import Prelude IntConvProofs Decimal DecimalProofs DecimalAdd DecimalCmp.
Import IntConvProofs Decimal DecimalProofs DecimalAdd DecimalCmp.

#[local] Open Scope Z_scope.

Module DecimalSub.

(** ** The words behind the last one of either number *)

Lemma SUB0_carries a c : 0 <= a < B -> 0 <= c <= 1 ->
  let '(w, c') := SUB 0 a c in
  0 <= w < B /\ 0 <= c' <= 1 /\ w + -1 * c' * B = (if -1 =? 1 then a else - a) + -1 * c.
Proof.
  intros Ha Hc. pose proof (SUB_carries 0 a c ltac:(unfold DIG_BASE; lia) Ha Hc) as H.
  destruct (SUB 0 a c). change (-1 =? 1) with false. cbv iota. lia.
Qed.

Lemma low_copy dst b0 z k l p : (k + z <= b0 <= length dst)%nat -> (k <= p <= length l)%nat -> words_ok (take p l) ->
  exists low, ('(b, buf0) ← zero_down z dst (Z.of_nat b0); copy_down k l (Z.of_nat p) b buf0) =
    Some (stored dst b0 low, Z.of_nat (p - k), Z.of_nat (b0 - (k + z))) /\
  length low = (k + z)%nat /\ words_ok low /\ num low = num (seg l (p - k) k) * B ^ Z.of_nat z.
Proof.
  intros H0 Hp W. rewrite zero_down_spec by lia. cbn [mbind option_bind].
  rewrite copy_down_spec by (rewrite ?stored_length; rewrite ?repeat_length; lia).
  exists (seg l (p - k) k ++ repeat 0 z). rewrite <- (repeat_length 0 z) at 2.
  rewrite stored_stored by (rewrite repeat_length, seg_length; lia).
  split; [do 3 f_equal; lia|]. split; [rewrite length_app, repeat_length, seg_length; lia|]. split.
  - apply words_app. split; [apply (seg_words _ _ _ p); [done|lia]|apply words_zeros].
  - by rewrite num_app, num_zeros, repeat_length, Z.add_0_r.
Qed.

Lemma low_carry dst b0 z k l p : (k + z <= b0 <= length dst)%nat -> (k <= p <= length l)%nat -> words_ok (take p l) ->
  exists low c, ('(b, buf0) ← zero_down z dst (Z.of_nat b0); carry_down (SUB 0) k l (Z.of_nat p) b buf0 0) =
    Some (stored dst b0 low, Z.of_nat (p - k), Z.of_nat (b0 - (k + z)), c) /\
  length low = (k + z)%nat /\ words_ok low /\ 0 <= c <= 1 /\
  num low - c * B ^ Z.of_nat (k + z) = - num (seg l (p - k) k) * B ^ Z.of_nat z.
Proof.
  intros H0 Hp W. rewrite zero_down_spec by lia. cbn [mbind option_bind].
  destruct (carry_down_spec (-1) (SUB 0) k l p (stored dst b0 (repeat 0 z)) (b0 - z) 0) as (ws & c & -> & Lw & Ww & Hc & E);
    first [exact SUB0_carries|done|rewrite ?stored_length by (rewrite repeat_length; lia); lia|idtac].
  change (-1 =? 1) with false in E. cbv iota in E.
  exists (ws ++ repeat 0 z), c. rewrite <- (repeat_length 0 z) at 2.
  rewrite stored_stored by (rewrite repeat_length; lia).
  split; [do 3 f_equal; lia|]. split; [rewrite length_app, repeat_length; lia|].
  split; [apply words_app; split; [done|apply words_zeros]|]. split; [done|].
  rewrite num_app, num_zeros, repeat_length, Nat2Z.inj_add, Z.pow_add_r by (clear; lia).
  replace (- num (seg l (p - k) k)) with (num ws + -1 * c * B ^ Z.of_nat k) by lia. ring.
Qed.

(** ** The common words and those in front *)

Lemma sub_high l1 s1 h m l2 s2 dst low c :
  let b0 := (h + m + length low)%nat in
  (b0 <= length dst)%nat -> (s1 + (h + m) <= length l1)%nat -> (s2 + m <= length l2)%nat ->
  words_ok (take (s1 + (h + m)) l1) -> words_ok (take (s2 + m) l2) -> words_ok low -> 0 <= c <= 1 ->
  let v := (num (seg l1 s1 (h + m)) - num (seg l2 s2 m)) * B ^ Z.of_nat (length low) +
           (num low - c * B ^ Z.of_nat (length low)) in
  0 <= v ->
  exists ws, length ws = b0 /\ words_ok ws /\ num ws = v /\
    ('(b, buf1, _, buf0, carry) ← both_down SUB m l1 (Z.of_nat (s1 + (h + m))) l2 (Z.of_nat (s2 + m))
                                   (stored dst b0 low) (Z.of_nat (h + m)) c;
     '(b, buf1, buf0) ← borrow_down (Z.to_nat (buf1 - Z.of_nat s1)) l1 buf1 b buf0 carry;
     '(b, _, buf0) ← copy_down (Z.to_nat (buf1 - Z.of_nat s1)) l1 buf1 b buf0;
     '(b, _) ← zero_down (Z.to_nat buf0) b buf0; Some b) = Some (ws ++ drop b0 dst).
Proof.
  intros b0 H0 L1 L2 W1 W2 Wl Hc v Hv.
  destruct (both_down_spec (-1) SUB m l1 (s1 + (h + m)) l2 (s2 + m) (stored dst b0 low) (h + m) c)
    as (mid & c' & -> & Lm & Wm & Hc' & Em); [..|hide Em]; try (rewrite ?stored_length by (subst b0; lia); subst b0; lia); try done.
  { exact SUB_carries. }
  cbn [mbind option_bind].
  replace (s1 + (h + m) - m)%nat with (s1 + h)%nat in * by (clear; lia).
  replace (s2 + m - m)%nat with s2 in * by (clear; lia).
  replace (h + m - m)%nat with h by (clear; lia).
  assert (Es : stored (stored dst b0 low) (h + m) mid = stored dst b0 (mid ++ low)).
  { rewrite <- stored_stored by (subst b0; lia). f_equal. subst b0. lia. }
  rewrite Es. clear Es. replace (Z.to_nat (Z.of_nat (s1 + h) - Z.of_nat s1)) with h by (clear; lia).
  assert (Ev : v = (num (seg l1 s1 h) - c') * B ^ Z.of_nat (length (mid ++ low)) + num (mid ++ low)).
  { subst v. rewrite seg_plus, !num_app, length_app, seg_length, Lm, Nat2Z.inj_add, Z.pow_add_r by (clear -L1; lia).
    replace (num (seg l1 (s1 + h) m)) with (num mid + -1 * c' * B ^ Z.of_nat m + num (seg l2 s2 m) + c) by (clear -Em; reveal Em; lia).
    ring. }
  assert (Wml : words_ok (mid ++ low)) by (by apply words_app).
  pose proof (num_bounds _ Wml) as Bm. pose proof (Bpow_pos (length (mid ++ low))) as P.
  assert (Hle : c' <= num (seg l1 s1 h)) by (clear -Ev Hv Bm P; nia).
  assert (Lml : length (mid ++ low) = (m + length low)%nat) by (by rewrite length_app, Lm).
  destruct (borrow_copy_spec h l1 (s1 + h) (stored dst b0 (mid ++ low)) h c') as (top & E & Lt & Wt & Et).
  { apply (words_take _ _ (s1 + (h + m))); [done|clear; lia]. }
  { done. } { clear -L1. lia. } { rewrite stored_length by (subst b0; lia). subst b0. lia. }
  { by replace (s1 + h - h)%nat with s1 by (clear; lia). }
  replace (s1 + h - h)%nat with s1 in * by (clear; lia). rewrite Nat.sub_diag in E.
  destruct (borrow_down h l1 (Z.of_nat (s1 + h)) (stored dst b0 (mid ++ low)) (Z.of_nat h) c') as [[[b' p1] p0]|];
    [|done]. cbn [mbind option_bind] in E |- *. rewrite E. cbn [mbind option_bind]. change (Z.to_nat (Z.of_nat 0)) with 0%nat.
  cbn [zero_down mbind option_bind]. exists (top ++ mid ++ low).
  split; [rewrite length_app; subst b0; lia|]. split; [by apply words_app|]. split.
  { rewrite num_app, Et, Ev. done. }
  f_equal. replace h with (b0 - length (mid ++ low))%nat by (subst b0; lia). rewrite stored_stored by (subst b0; lia).
  unfold stored. rewrite length_app. replace (b0 - _)%nat with 0%nat by (subst b0; lia). by rewrite take_0, <- app_assoc.
Qed.

(** ** The result *)

(** The part of [sub_words] behind the choice of the lengths: the buffer. *)
Definition sub_buffer (l1 l2 dst : list Z) (s1 i1 f1 s2 i2 f2 F : Z) : option (list Z) :=
  '(b, buf1, buf2, buf0, carry) ←
    (if f2 <? f1 then
       '(b, buf0) ← zero_down (Z.to_nat (F - f1)) dst (i1 + F);
       '(b, buf1, buf0) ← copy_down (Z.to_nat (f1 - f2)) l1 (s1 + i1 + f1) b buf0;
       Some (b, buf1, s2 + i2 + f2, buf0, 0)
     else
       '(b, buf0) ← zero_down (Z.to_nat (F - f2)) dst (i1 + F);
       '(b, buf2, buf0, carry) ← carry_down (SUB 0) (Z.to_nat (f2 - f1)) l2 (s2 + i2 + f2) b buf0 0;
       Some (b, s1 + i1 + f1, buf2, buf0, carry));
  '(b, buf1, _, buf0, carry) ← both_down SUB (Z.to_nat (buf2 - s2)) l1 buf1 l2 buf2 b buf0 carry;
  '(b, buf1, buf0) ← borrow_down (Z.to_nat (buf1 - s1)) l1 buf1 b buf0 carry;
  '(b, _, buf0) ← copy_down (Z.to_nat (buf1 - s1)) l1 buf1 b buf0;
  '(b, _) ← zero_down (Z.to_nat buf0) b buf0; Some b.

Lemma sub_buffer_copy l1 s1 h m k l2 s2 dst z i1 f1 i2 f2 F :
  let b0 := (h + m + (k + z))%nat in
  (b0 <= length dst)%nat -> (s1 + (h + m + k) <= length l1)%nat -> (s2 + m <= length l2)%nat ->
  words_ok (take (s1 + (h + m + k)) l1) -> words_ok (take (s2 + m) l2) ->
  f2 < f1 -> Z.of_nat k = f1 - f2 -> Z.of_nat z = F - f1 -> Z.of_nat m = i2 + f2 -> Z.of_nat h = i1 - i2 ->
  let v := num (seg l1 s1 (h + m + k)) * B ^ Z.of_nat z - num (seg l2 s2 m) * B ^ Z.of_nat (k + z) in
  0 <= v ->
  exists ws, length ws = b0 /\ words_ok ws /\ num ws = v /\
    sub_buffer l1 l2 dst (Z.of_nat s1) i1 f1 (Z.of_nat s2) i2 f2 F = Some (ws ++ drop b0 dst).
Proof.
  intros b0 H0 L1 L2 W1 W2 Hf Ek Ez Em Eh v Hv. unfold sub_buffer. rewrite (proj2 (Z.ltb_lt _ _)) by done.
  replace (Z.to_nat (F - f1)) with z by lia. replace (Z.to_nat (f1 - f2)) with k by lia.
  replace (i1 + F) with (Z.of_nat b0) by (subst b0; lia).
  replace (Z.of_nat s1 + i1 + f1) with (Z.of_nat (s1 + (h + m + k))) by lia.
  replace (Z.of_nat s2 + i2 + f2) with (Z.of_nat (s2 + m)) by lia.
  destruct (low_copy dst b0 z k l1 (s1 + (h + m + k))) as (low & E & Ll & Wl & El); [subst b0; lia|lia|done|].
  replace (s1 + (h + m + k) - k)%nat with (s1 + (h + m))%nat in * by lia.
  replace (b0 - (k + z))%nat with (h + m)%nat in E by (subst b0; lia).
  destruct (zero_down z dst (Z.of_nat b0)) as [[b p]|]; [|done]. cbn [mbind option_bind] in E |- *. rewrite E.
  cbn [mbind option_bind]. replace (Z.to_nat (Z.of_nat (s2 + m) - Z.of_nat s2)) with m by lia.
  destruct (sub_high l1 s1 h m l2 s2 dst low 0) as (ws & Lw & Ww & Nw & Ew); try done; rewrite ?Ll; try lia.
  { apply (words_take _ _ (s1 + (h + m + k))); [done|lia]. }
  { subst v. rewrite seg_plus, num_app, seg_length in Hv by lia. rewrite El, Nat2Z.inj_add, Z.pow_add_r in * by (clear; lia).
    clear -Hv. lia. }
  rewrite Ll in Lw, Nw, Ew. exists ws. split; [done|]. split; [done|]. split; [|done]. rewrite Nw. subst v.
  rewrite (seg_plus l1 s1 (h + m) k), num_app, (seg_length l1 (s1 + (h + m))) by (clear -L1; lia). rewrite El, Nat2Z.inj_add, Z.pow_add_r by (clear; lia). ring.
Qed.

Lemma sub_buffer_carry l1 s1 h m k l2 s2 dst z i1 f1 i2 f2 F :
  let b0 := (h + m + (k + z))%nat in
  (b0 <= length dst)%nat -> (s1 + (h + m) <= length l1)%nat -> (s2 + (m + k) <= length l2)%nat ->
  words_ok (take (s1 + (h + m)) l1) -> words_ok (take (s2 + (m + k)) l2) ->
  f1 <= f2 -> Z.of_nat k = f2 - f1 -> Z.of_nat z = F - f2 -> Z.of_nat m = i2 + f1 -> Z.of_nat h = i1 - i2 ->
  let v := num (seg l1 s1 (h + m)) * B ^ Z.of_nat (k + z) - num (seg l2 s2 (m + k)) * B ^ Z.of_nat z in
  0 <= v ->
  exists ws, length ws = b0 /\ words_ok ws /\ num ws = v /\
    sub_buffer l1 l2 dst (Z.of_nat s1) i1 f1 (Z.of_nat s2) i2 f2 F = Some (ws ++ drop b0 dst).
Proof.
  intros b0 H0 L1 L2 W1 W2 Hf Ek Ez Em Eh v Hv. unfold sub_buffer. rewrite (proj2 (Z.ltb_ge _ _)) by done.
  replace (Z.to_nat (F - f2)) with z by lia. replace (Z.to_nat (f2 - f1)) with k by lia.
  replace (i1 + F) with (Z.of_nat b0) by (subst b0; lia).
  replace (Z.of_nat s1 + i1 + f1) with (Z.of_nat (s1 + (h + m))) by lia.
  replace (Z.of_nat s2 + i2 + f2) with (Z.of_nat (s2 + (m + k))) by lia.
  destruct (low_carry dst b0 z k l2 (s2 + (m + k))) as (low & c & E & Ll & Wl & Hc & El); [subst b0; lia|lia|done|].
  replace (s2 + (m + k) - k)%nat with (s2 + m)%nat in * by lia.
  replace (b0 - (k + z))%nat with (h + m)%nat in E by (subst b0; lia).
  destruct (zero_down z dst (Z.of_nat b0)) as [[b p]|]; [|done]. cbn [mbind option_bind] in E |- *. rewrite E.
  cbn [mbind option_bind]. replace (Z.to_nat (Z.of_nat (s2 + m) - Z.of_nat s2)) with m by lia.
  assert (Ev : v = (num (seg l1 s1 (h + m)) - num (seg l2 s2 m)) * B ^ Z.of_nat (length low) +
                   (num low - c * B ^ Z.of_nat (length low))).
  { subst v. rewrite (seg_plus l2), num_app, (seg_length l2 (s2 + m)) by (clear -L2; lia). rewrite Ll, El.
    rewrite Nat2Z.inj_add, Z.pow_add_r by (clear; lia). ring. }
  destruct (sub_high l1 s1 h m l2 s2 dst low c) as (ws & Lw & Ww & Nw & Ew); try done; rewrite <- ?Ev; rewrite ?Ll; try lia.
  { apply (words_take _ _ (s2 + (m + k))); [done|lia]. }
  rewrite Ll in Lw, Ew. exists ws. split; [done|]. split; [done|]. split; [|done]. by rewrite Nw, Ev.
Qed.

Ltac step_bind := match goal with
  | |- context [mbind _ (zero_down ?n ?d ?p)] => destruct (zero_down n d p) as [[? ?]|]
  | |- context [mbind _ (carry_down ?o ?n ?l ?q ?d ?p ?c)] => destruct (carry_down o n l q d p c) as [[[[? ?] ?] ?]|]
  | |- context [mbind _ (copy_down ?n ?l ?q ?d ?p)] => destruct (copy_down n l q d p) as [[[? ?] ?]|]
  | |- context [mbind _ (both_down ?o ?n ?l ?q ?k ?r ?d ?p ?c)] =>
      destruct (both_down o n l q k r d p c) as [[[[[? ?] ?] ?] ?]|]
  | |- context [mbind _ (borrow_down ?n ?l ?q ?d ?p ?c)] => destruct (borrow_down n l q d p c) as [[[? ?] ?]|]
  end; cbn [mbind option_bind]; try done.

Lemma sub_words_step a b to sg s1 i1 f1 s2 i2 f2 F : i1 + F <= len to ->
  sub_words a b to sg s1 i1 f1 s2 i2 f2 F =
  (dst ← sub_buffer (buf a) (buf b) (buf to) s1 i1 f1 s2 i2 f2 F;
   Some (E_DEC_OK, mk_decimal (i1 * 9) (Z.max (frac a) (frac b)) sg dst)).
Proof.
  intros H. unfold sub_words, FIX_INTG_FRAC_ERROR. rewrite (proj2 (Z.ltb_ge _ _)) by done.
  change (negb (E_DEC_OK =? 0)) with false. cbv iota zeta. unfold sub_buffer. destruct (f2 <? f1); repeat step_bind.
Qed.

Lemma view_pad F d s i n : wf d -> (s + i = iw d)%nat -> (n <= i + fw d)%nat -> (fw d <= F)%nat ->
  mag d = num (seg (buf d) s n) * B ^ Z.of_nat (i + fw d - n) ->
  scaled F d = num (seg (buf d) s n) * B ^ Z.of_nat (i + F - n) /\
  (s + n <= length (buf d))%nat /\ words_ok (take (s + n) (buf d)).
Proof.
  intros H Hi Hn HF E. pose proof (wf_len _ H). replace i with (iw d - s)%nat in * by lia.
  destruct (scaled_pad F d s n) as (P & _ & L); try done; [lia|]. unfold pad in P. rewrite L in P.
  split; [done|]. split; [lia|]. apply (words_take _ _ (iw d + fw d)); [apply H|lia].
Qed.

Lemma sub_buffer_spec l1 s1 i1 n1 l2 s2 i2 n2 dst F :
  (i1 + F <= length dst)%nat -> (s1 + n1 <= length l1)%nat -> (s2 + n2 <= length l2)%nat ->
  words_ok (take (s1 + n1) l1) -> words_ok (take (s2 + n2) l2) ->
  (i2 <= i1 <= i2 + n1)%nat -> (n1 <= i1 + F)%nat -> (n2 <= i2 + F)%nat ->
  let v := num (seg l1 s1 n1) * B ^ Z.of_nat (i1 + F - n1) - num (seg l2 s2 n2) * B ^ Z.of_nat (i2 + F - n2) in
  0 <= v ->
  exists ws, length ws = (i1 + F)%nat /\ words_ok ws /\ num ws = v /\
    sub_buffer l1 l2 dst (Z.of_nat s1) (Z.of_nat i1) (Z.of_nat n1 - Z.of_nat i1)
      (Z.of_nat s2) (Z.of_nat i2) (Z.of_nat n2 - Z.of_nat i2) (Z.of_nat F) = Some (ws ++ drop (i1 + F) dst).
Proof.
  intros H0 L1 L2 W1 W2 Hi N1 N2 v Hv. subst v. hide Hv. set (h := (i1 - i2)%nat).
  destruct (Z.lt_ge_cases (Z.of_nat n2 - Z.of_nat i2) (Z.of_nat n1 - Z.of_nat i1)) as [Hf|Hf].
  - set (k := (n1 - h - n2)%nat). set (z := (i1 + F - n1)%nat) in *.
    pose proof (sub_buffer_copy l1 s1 h n2 k l2 s2 dst z (Z.of_nat i1) (Z.of_nat n1 - Z.of_nat i1)
      (Z.of_nat i2) (Z.of_nat n2 - Z.of_nat i2) (Z.of_nat F)) as S. cbn zeta in S. hide S.
    replace (h + n2 + k)%nat with n1 in S by (clear -Hi N1 N2 Hf h k; subst h k; lia).
    replace (h + n2 + (k + z))%nat with (i1 + F)%nat in S by (clear -Hi N1 N2 Hf h k z; subst h k z; lia).
    replace (k + z)%nat with (i2 + F - n2)%nat in S by (clear -Hi N1 N2 Hf h k z; subst h k z; lia).
    apply S; try done; subst h k z; lia.
  - set (k := (n2 + h - n1)%nat). set (z := (i2 + F - n2)%nat) in *. set (m := (n1 - h)%nat).
    pose proof (sub_buffer_carry l1 s1 h m k l2 s2 dst z (Z.of_nat i1) (Z.of_nat n1 - Z.of_nat i1)
      (Z.of_nat i2) (Z.of_nat n2 - Z.of_nat i2) (Z.of_nat F)) as S. cbn zeta in S. hide S.
    replace (h + m + (k + z))%nat with (i1 + F)%nat in S by (clear -Hi N1 N2 Hf h m k z; subst h m k z; lia).
    replace (h + m)%nat with n1 in S by (clear -Hi N1 N2 Hf h m; subst h m; lia).
    replace (m + k)%nat with n2 in S by (clear -Hi N1 N2 Hf h m k; subst h m k; lia).
    replace (k + z)%nat with (i1 + F - n1)%nat in S by (clear -Hi N1 N2 Hf h m k z; subst h m k z; lia).
    apply S; try done; subst h m k z; lia.
Qed.

Lemma sub_words_spec a b to sg s1 i1 f1 s2 i2 f2 :
  wf a -> wf b -> view a s1 i1 f1 -> view b s2 i2 f2 -> i2 <= i1 -> 0 <= i2 + f1 -> 0 <= i1 + f2 ->
  let F := Nat.max (fw a) (fw b) in
  scaled F b < scaled F a -> i1 + Z.of_nat F <= len to ->
  exact (sub_words a b to sg s1 i1 f1 s2 i2 f2 (Z.of_nat F)) to F (signed sg (scaled F a - scaled F b)).
Proof.
  intros Ha Hb (s1' & i1' & n1 & -> & -> & -> & V1 & N1 & M1) (s2' & i2' & n2 & -> & -> & -> & V2 & N2 & M2) Hi Hf1 Hf2 F Hlt Hlen.
  destruct (view_pad F a s1' i1' n1) as (P1 & L1 & W1); try done; [clear; lia|].
  destruct (view_pad F b s2' i2' n2) as (P2 & L2 & W2); try done; [clear; lia|]. clear M1 M2.
  destruct (sub_buffer_spec (buf a) s1' i1' n1 (buf b) s2' i2' n2 (buf to) F) as (ws & Lw & Ww & Nw & Ew); try done.
  1: unfold len in Hlen; lia. 1-3: clear P1 P2; lia. 1: lia.
  rewrite sub_words_step, Ew by done. cbn [mbind option_bind]. rewrite <- P1, <- P2 in Nw. clear P1 P2.
  apply exact_words; try done; [by right|destruct ws; [rewrite num_nil in Nw; lia|cbn; lia]|lia|].
  rewrite length_app, length_drop, Lw. unfold len in Hlen. clear -Hlen. lia.
Qed.

Lemma sizes a b : wf a -> wf b ->
  decimal_result_size_sub a b = Z.of_nat (Nat.max (iw a) (iw b) + Nat.max (fw a) (fw b)) /\
  decimal_result_size_sub a b <= decimal_result_size_add a b.
Proof.
  intros Ha Hb. unfold decimal_result_size_sub, decimal_result_size_add. pose proof (wf_intg _ Ha).
  pose proof (ROUND_UP_mono (Z.max (intg a) (intg b)) (Z.max (intg a) (intg b) + 1) ltac:(lia)).
  rewrite !ROUND_UP_max, !iw_ROUND_UP, !fw_ROUND_UP in * by apply Ha || apply Hb. lia.
Qed.

Lemma make_zero_exact F to : (1 <= length (buf to))%nat ->
  exact (d ← decimal_make_zero to; Some (E_DEC_OK, d)) to F 0.
Proof.
  intros H. destruct to as [i f sg [|w l]]; [cbn in H; lia|].
  change (decimal_make_zero _) with (Some (mk_decimal 1 0 false (0 :: l))). cbn [mbind option_bind].
  eexists. split; [done|]. split.
  - split; try done.
    + apply (words_zeros 1).
    + apply Z.divide_0_r.
  - split; [apply (Nat.le_0_l F)|]. by split.
Qed.

Lemma do_sub_spec a b to : wf a -> wf b -> decimal_result_size_sub a b <= len to ->
  let F := Nat.max (fw a) (fw b) in
  exact (do_sub a b to) to F (signed (sign a) (scaled F a - scaled F b)).
Proof.
  intros Ha Hb Hsz F. rewrite (proj1 (sizes a b Ha Hb)) in Hsz. fold F in Hsz. unfold do_sub.
  destruct (compare_words_spec a b Ha Hb) as (c & -> & Va & Vb & Ho & If & It & Fa & Fb). fold F in Ho.
  cbn [mbind option_bind]. rewrite !fw_ROUND_UP by apply Ha || apply Hb. rewrite <- Nat2Z.inj_max. fold F.
  assert (Ia : c_intg1 c <= Z.of_nat (iw a)) by (destruct Va as (? & ? & ? & ? & ? & ? & ? & _); lia).
  assert (Ib : c_intg2 c <= Z.of_nat (iw b)) by (destruct Vb as (? & ? & ? & ? & ? & ? & ? & _); lia).
  pose proof (wf_len _ Ha). unfold len in Hsz. destruct (c_carry c) as [[]|]; cbn [carry_order] in Ho.
  - replace (signed (sign a) (scaled F a - scaled F b)) with (signed (negb (sign a)) (scaled F b - scaled F a))
      by (unfold signed; destruct (sign a); cbn [negb]; lia).
    specialize (It eq_refl). unfold F in *. rewrite (Nat.max_comm (fw a)) in *.
    apply sub_words_spec; try done. unfold len. lia.
  - specialize (If eq_refl). apply sub_words_spec; try done. unfold len. lia.
  - replace (signed _ _) with 0 by (unfold signed; destruct (sign a); lia). apply make_zero_exact. lia.
Qed.

(** ** Addition and subtraction of signed numbers *)

Lemma exact_value r to F v : exact r to F v ->
  exists t, r = Some (E_DEC_OK, t) /\ wf t /\ (value t == v # Z.to_pos (B ^ Z.of_nat F))%Q /\
    length (buf t) = length (buf to).
Proof.
  intros (t & -> & Wt & Ft & Vt & Lt). exists t. split; [done|]. split; [done|]. split; [|done].
  rewrite <- Vt. by apply signed_order.
Qed.

(** C5: in a buffer of the size that [decimal_result_size] announces for
    ['+'], [decimal_add] returns E_DEC_OK and the sum, exactly: the value of
    the result is the sum of the values, for operands of any signs and any
    numbers of words before and behind the point; the result is well-formed
    again. *)
Theorem decimal_add_correct a b to : wf a -> wf b -> decimal_result_size_add a b <= len to ->
  exists t, decimal_add a b to = Some (E_DEC_OK, t) /\ wf t /\ (value t == value a + value b)%Q /\
    length (buf t) = length (buf to).
Proof.
  intros Ha Hb Hsz. set (F := Nat.max (fw a) (fw b)).
  assert (X : exact (decimal_add a b to) to F (signed (sign a) (scaled F a) + signed (sign b) (scaled F b))).
  { unfold decimal_add. destruct (eqb (sign a) (sign b)) eqn:Es.
    - apply eqb_prop in Es. rewrite <- Es.
      replace (_ + _) with (signed (sign a) (scaled F a + scaled F b)) by (unfold signed; destruct (sign a); lia).
      by apply do_add_spec.
    - replace (_ + _) with (signed (sign a) (scaled F a - scaled F b))
        by (unfold signed; destruct (sign a), (sign b); try done; lia).
      apply do_sub_spec; try done. pose proof (proj2 (sizes a b Ha Hb)). lia. }
  apply exact_value in X as (t & Et & Wt & Vt & Lt). exists t. split; [done|]. split; [done|]. split; [|done].
  by rewrite Vt, (signed_order F a), (signed_order F b), Qmake_add by lia.
Qed.

(** C13: in a buffer of the size that [decimal_result_size] announces for
    ['-'] if the signs are equal, and for ['+'] otherwise, [decimal_sub]
    returns E_DEC_OK and the difference, exactly.  (The size announced for
    ['-'] is one word short when the signs differ: [decimal_sub_size_short].) *)
Theorem decimal_sub_correct a b to : wf a -> wf b ->
  (if eqb (sign a) (sign b) then decimal_result_size_sub a b else decimal_result_size_add a b) <= len to ->
  exists t, decimal_sub a b to = Some (E_DEC_OK, t) /\ wf t /\ (value t == value a - value b)%Q /\
    length (buf t) = length (buf to).
Proof.
  intros Ha Hb Hsz. set (F := Nat.max (fw a) (fw b)).
  assert (X : exact (decimal_sub a b to) to F (signed (sign a) (scaled F a) + - signed (sign b) (scaled F b))).
  { unfold decimal_sub. destruct (eqb (sign a) (sign b)) eqn:Es.
    - apply eqb_prop in Es. rewrite <- Es.
      replace (_ + _) with (signed (sign a) (scaled F a - scaled F b)) by (unfold signed; destruct (sign a); lia).
      by apply do_sub_spec.
    - replace (_ + _) with (signed (sign a) (scaled F a + scaled F b))
        by (unfold signed; destruct (sign a), (sign b); try done; lia).
      by apply do_add_spec. }
  apply exact_value in X as (t & Et & Wt & Vt & Lt). exists t. split; [done|]. split; [done|]. split; [|done].
  rewrite Vt, (signed_order F a), (signed_order F b), <- Qmake_add by lia. reflexivity.
Qed.

(** 999999999.5, 0.75 and -1. *)
Definition sum_a : decimal_t := mk_decimal 9 1 false [999999999; 500000000].
Definition sum_b : decimal_t := mk_decimal 0 2 false [750000000].
Definition sum_c : decimal_t := mk_decimal 1 0 true [1].
Definition room (n : nat) : decimal_t := mk_decimal 0 0 false (repeat 7 n).

Lemma sum_wf : wf sum_a /\ wf sum_b /\ wf sum_c.
Proof. split_and!; apply wfb_sound; vm_compute; reflexivity. Qed.

Lemma decimal_add_correct_witness : exists t, decimal_add sum_a sum_b (room 3) = Some (E_DEC_OK, t) /\
  (value t == value sum_a + value sum_b)%Q /\ buf t = [1; 0; 250000000].
Proof.
  destruct sum_wf as (Ha & Hb & _).
  destruct (decimal_add_correct sum_a sum_b (room 3) Ha Hb ltac:(vm_compute; discriminate)) as (t & Et & _ & Vt & _).
  exists t. split; [exact Et|]. split; [exact Vt|]. vm_compute in Et. injection Et as <-. reflexivity.
Defined.

Lemma decimal_sub_correct_witness : exists t, decimal_sub sum_a sum_c (room 3) = Some (E_DEC_OK, t) /\
  (value t == value sum_a - value sum_c)%Q /\ buf t = [1; 0; 500000000].
Proof.
  destruct sum_wf as (Ha & _ & Hc).
  destruct (decimal_sub_correct sum_a sum_c (room 3) Ha Hc ltac:(vm_compute; discriminate)) as (t & Et & _ & Vt & _).
  exists t. split; [exact Et|]. split; [exact Vt|]. vm_compute in Et. injection Et as <-. reflexivity.
Defined.

(** The size for ['-'] is one word short if the signs differ: 999999999.5 - -1
    gets the two words of its operands and loses its fraction, with
    E_DEC_TRUNCATED; 999999999 - -1 has no word left for the carry and becomes
    the largest number, with E_DEC_OVERFLOW. *)
Lemma decimal_sub_size_short :
  decimal_result_size_sub sum_a sum_c = 2 /\
  decimal_sub sum_a sum_c (room 2) = Some (E_DEC_TRUNCATED, mk_decimal 18 0 false [1; 0]) /\
  decimal_result_size_sub (mk_decimal 9 0 false [999999999]) sum_c = 1 /\
  decimal_sub (mk_decimal 9 0 false [999999999]) sum_c (room 1) =
    Some (E_DEC_OVERFLOW, mk_decimal 9 0 false [999999999]).
Proof. vm_compute. split_and!; reflexivity. Qed.
End DecimalSub.
