(* ===== verification/DecimalInt.v ===== *)
(** * Fixed-point numbers and 64-bit integers

    [decimal2longlong] and [decimal2ulonglong] cut the fraction off and
    report it, and saturate where the integer does not fit; no step of their
    loops leaves the range of the machine integer.  [longlong2decimal] is
    exact. *)

From Stdlib Require Import QArith.
From S2P Require Import Prelude IntConvProofs Decimal DecimalProofs DecimalAdd DecimalCmp DecimalSub.
Import IntConvProofs Decimal DecimalProofs DecimalAdd DecimalCmp DecimalSub.

#[local] Open Scope Z_scope.

Module DecimalInt.

(** ** From decimals to integers *)

Lemma all_zero_spec n b p : (p + n <= length b)%nat -> words_ok (seg b p n) ->
  all_zero n b (Z.of_nat p) = Some (num (seg b p n) =? 0).
Proof.
  revert p. induction n as [|n IH]; intros p Hl W; [done|]. cbn [all_zero].
  destruct (lookup_lt_is_Some_2 b p) as [w Hw]; [lia|]. rewrite rd_nat, Hw. cbn [mbind option_bind].
  rewrite (seg_cons _ _ _ _ Hw) in *. apply Forall_cons in W as [B0 W]. rewrite num_cons.
  pose proof (num_bounds _ W) as Bn. destruct (Z.eqb_spec w 0) as [->|Hn].
  - replace (Z.of_nat p + 1) with (Z.of_nat (S p)) by lia. by rewrite IH by (lia || done).
  - f_equal. symmetry. apply Z.eqb_neq. pose proof (Bpow_pos (length (seg b (S p) n))). nia.
Qed.

(** The shape both loops have: [v] if it is at most [top], else an overflow. *)
Definition saturates {A} (r : option (option A * Z)) (top v : Z) (x : A) (p : Z) : Prop :=
  v <= top /\ r = Some (Some x, p) \/ top < v /\ exists q, r = Some (None, q).

Lemma prefix_grows n a w l top : 0 <= a -> 0 <= w -> words_ok l -> length l = n -> top < a * B + w ->
  top < a * B ^ Z.of_nat (S n) + (w * B ^ Z.of_nat n + num l).
Proof.
  intros Ha Hw W L H. pose proof (num_bounds _ W) as Bl. pose proof (Bpow_pos n) as P.
  rewrite Nat2Z.inj_succ, Z.pow_succ_r by lia.
  replace (a * (B * B ^ Z.of_nat n) + (w * B ^ Z.of_nat n + num l)) with ((a * B + w) * B ^ Z.of_nat n + num l) by ring.
  assert (H0 : 0 <= a * B + w) by (unfold DIG_BASE; lia). set (X := a * B + w) in *. set (Y := B ^ Z.of_nat n) in *.
  clearbody X Y. assert (X <= X * Y) by (clear -P H0; nia). lia.
Qed.

Lemma ll_loop_spec n b p a : (p + n <= length b)%nat -> words_ok (seg b p n) -> 0 <= a <= 2 ^ 63 ->
  let v := a * B ^ Z.of_nat n + num (seg b p n) in
  saturates (ll_loop n b (Z.of_nat p) (- a)) (2 ^ 63) v (- v) (Z.of_nat (p + n)).
Proof.
  revert p a. induction n as [|n IH]; intros p a Hl W Ha v; subst v.
  { left. rewrite (eq_refl : seg b p 0 = []), num_nil, Nat.add_0_r. change (B ^ Z.of_nat 0) with 1.
    cbn [ll_loop]. split; [lia|]. do 3 f_equal. lia. }
  cbn [ll_loop]. destruct (lookup_lt_is_Some_2 b p) as [w Hw]; [lia|]. rewrite rd_nat, Hw. cbn [mbind option_bind].
  rewrite (seg_cons _ _ _ _ Hw) in *. apply Forall_cons in W as [B0 W]. rewrite num_cons, seg_length by lia.
  change (Z.quot LONGLONG_MIN DIG_BASE) with (-9223372036). change (- Z.rem LONGLONG_MIN DIG_BASE) with 854775808.
  destruct (_ && _) eqn:Ec.
  - right. split; [|by eexists]. apply prefix_grows; try lia; [done|apply seg_length; lia|].
    rewrite andb_true_iff, orb_true_iff, Z.leb_le, !Z.ltb_lt in Ec. unfold DIG_BASE in *. lia.
  - assert (Hle : a * B + w <= 2 ^ 63).
    { rewrite andb_false_iff, orb_false_iff, Z.leb_gt, !Z.ltb_ge in Ec. unfold DIG_BASE in *. lia. }
    unfold longlong, LONGLONG_MIN, LONGLONG_MAX. unfold DIG_BASE in B0. rewrite decide_True by (unfold DIG_BASE; lia).
    cbn [mbind option_bind]. rewrite decide_True by (unfold DIG_BASE in *; lia). cbn [mbind option_bind].
    replace (Z.of_nat p + 1) with (Z.of_nat (S p)) by lia. replace (- a * DIG_BASE - w) with (- (a * B + w)) by lia.
    replace (a * B ^ Z.of_nat (S n) + _) with ((a * B + w) * B ^ Z.of_nat n + num (seg b (S p) n))
      by (rewrite Nat2Z.inj_succ, Z.pow_succ_r by lia; ring).
    replace (p + S n)%nat with (S p + n)%nat by lia. apply IH; [lia|done|unfold DIG_BASE in *; lia].
Qed.

Lemma ull_loop_spec n b p a : (p + n <= length b)%nat -> words_ok (seg b p n) -> 0 <= a < 2 ^ 64 ->
  let v := a * B ^ Z.of_nat n + num (seg b p n) in
  saturates (ull_loop n b (Z.of_nat p) a) ULONGLONG_MAX v v (Z.of_nat (p + n)).
Proof.
  revert p a. induction n as [|n IH]; intros p a Hl W Ha v; subst v.
  { left. rewrite (eq_refl : seg b p 0 = []), num_nil, Nat.add_0_r. change (B ^ Z.of_nat 0) with 1.
    cbn [ull_loop]. split; [unfold ULONGLONG_MAX; lia|]. do 3 f_equal. lia. }
  cbn [ull_loop]. destruct (lookup_lt_is_Some_2 b p) as [w Hw]; [lia|]. rewrite rd_nat, Hw. cbn [mbind option_bind].
  rewrite (seg_cons _ _ _ _ Hw) in *. apply Forall_cons in W as [B0 W]. rewrite num_cons, seg_length by lia.
  change (ULONGLONG_MAX / DIG_BASE) with 18446744073. change (ULONGLONG_MAX mod DIG_BASE) with 709551615.
  destruct (_ && _) eqn:Ec.
  - right. split; [|by eexists]. apply prefix_grows; try lia; [done|apply seg_length; lia|].
    rewrite andb_true_iff, orb_true_iff, Z.leb_le, !Z.ltb_lt in Ec. unfold ULONGLONG_MAX, DIG_BASE in *. lia.
  - assert (Hlt : a * B + w < 2 ^ 64).
    { rewrite andb_false_iff, orb_false_iff, Z.leb_gt, !Z.ltb_ge in Ec. unfold DIG_BASE in *. lia. }
    rewrite Z.mod_small by (unfold DIG_BASE in *; lia).
    replace (Z.of_nat p + 1) with (Z.of_nat (S p)) by lia.
    replace (a * B ^ Z.of_nat (S n) + _) with ((a * B + w) * B ^ Z.of_nat n + num (seg b (S p) n))
      by (rewrite Nat2Z.inj_succ, Z.pow_succ_r by lia; ring).
    replace (p + S n)%nat with (S p + n)%nat by lia. apply IH; [lia|done|unfold DIG_BASE in *; lia].
Qed.

(** The integer part, and whether there is a fraction. *)
Definition int_part (d : decimal_t) : Z := mag d / B ^ Z.of_nat (fw d).
Definition frac_code (d : decimal_t) : Z := if mag d mod B ^ Z.of_nat (fw d) =? 0 then E_DEC_OK else E_DEC_TRUNCATED.

Lemma int_parts d : wf d -> int_part d = num (seg (buf d) 0 (iw d)) /\
  frac_error d (Z.of_nat (0 + iw d)) = Some (frac_code d) /\
  words_ok (seg (buf d) 0 (iw d)) /\ (0 + iw d <= length (buf d))%nat.
Proof.
  intros H. pose proof (wf_len _ H) as L. pose proof (wf_words _ H) as W. unfold words in W.
  assert (Wi : words_ok (seg (buf d) 0 (iw d))) by (apply (seg_words _ _ _ (iw d + fw d)); [done|lia]).
  assert (Wf : words_ok (seg (buf d) (iw d) (fw d))) by (apply (seg_words _ _ _ (iw d + fw d)); [done|lia]).
  pose proof (num_bounds _ Wf) as Bf. rewrite seg_length in Bf by lia.
  assert (E : mag d = B ^ Z.of_nat (fw d) * num (seg (buf d) 0 (iw d)) + num (seg (buf d) (iw d) (fw d))).
  { unfold mag, words. rewrite <- seg_take, seg_plus, num_app, (seg_length _ (0 + _)) by lia. cbn [Nat.add]. lia. }
  unfold int_part, frac_code, frac_error.
  rewrite <- (Z.div_unique_pos _ _ _ _ Bf E), <- (Z.mod_unique_pos _ _ _ _ Bf E).
  split; [done|]. split; [|split; [done|lia]]. change (Z.to_nat (ROUND_UP (frac d))) with (fw d).
  by rewrite all_zero_spec by (done || lia).
Qed.


(** The value cut to an integer, towards zero. *)
Definition truncated (d : decimal_t) : Z := signed (sign d) (int_part d).

Lemma int_part_nonneg d : wf d -> 0 <= int_part d.
Proof. intros H. apply Z.div_pos; [apply mag_bounds; done|apply Bpow_pos]. Qed.

Lemma decimal2longlong_spec d : wf d ->
  decimal2longlong d = Some
    (if decide (LONGLONG_MIN <= truncated d <= LONGLONG_MAX) then (frac_code d, truncated d)
     else (E_DEC_OVERFLOW, if sign d then LONGLONG_MIN else LONGLONG_MAX)).
Proof.
  intros H. destruct (int_parts d H) as (Ei & Ef & Wi & Li). unfold decimal2longlong, truncated, signed.
  change (Z.to_nat (ROUND_UP (intg d))) with (iw d). change 0 with (Z.of_nat 0) at 1. change 0 with (- 0) at 1.
  pose proof (int_part_nonneg d H) as N.
  destruct (ll_loop_spec (iw d) (buf d) 0 0 Li Wi ltac:(lia)) as [[Hv ->]|[Hv [q ->]]];
    rewrite Z.mul_0_l, Z.add_0_l, <- Ei in *; cbn [mbind option_bind].
  - unfold LONGLONG_MIN, LONGLONG_MAX, longlong in *. destruct (sign d); cbn [negb andb].
    + rewrite Ef. cbn [mbind option_bind]. by rewrite decide_True by lia.
    + destruct (Z.eqb_spec (- int_part d) (- 2 ^ 63)) as [He|Hne].
      * by rewrite decide_False by lia.
      * rewrite !decide_True by (unfold LONGLONG_MIN, LONGLONG_MAX; lia). cbn [mbind option_bind]. rewrite Ef. cbn [mbind option_bind].
        do 2 f_equal. lia.
  - unfold LONGLONG_MIN, LONGLONG_MAX in *. by rewrite decide_False by (destruct (sign d); lia).
Qed.

(** [decimal2ulonglong]: a negative number overflows to [0]. *)
Lemma decimal2ulonglong_spec d : wf d ->
  decimal2ulonglong d = Some
    (if sign d then (E_DEC_OVERFLOW, 0) else
     if decide (int_part d <= ULONGLONG_MAX) then (frac_code d, int_part d) else (E_DEC_OVERFLOW, ULONGLONG_MAX)).
Proof.
  intros H. destruct (int_parts d H) as (Ei & Ef & Wi & Li). unfold decimal2ulonglong. destruct (sign d); [done|].
  change (Z.to_nat (ROUND_UP (intg d))) with (iw d). change 0 with (Z.of_nat 0) at 1.
  destruct (ull_loop_spec (iw d) (buf d) 0 0 Li Wi ltac:(lia)) as [[Hv ->]|[Hv [q ->]]];
    rewrite Z.mul_0_l, Z.add_0_l, <- Ei in *; cbn [mbind option_bind].
  - rewrite Ef. cbn [mbind option_bind]. by rewrite decide_True.
  - by rewrite decide_False by lia.
Qed.

(** ** From integers to decimals *)

Lemma store_words_spec n b x : (n <= length b)%nat -> 0 <= x ->
  exists ws, store_words n b x = Some (ws ++ drop n b) /\ length ws = n /\ words_ok ws /\ num ws = x mod B ^ Z.of_nat n.
Proof.
  revert b x. induction n as [|n IH]; intros b x Hl Hx.
  { exists []. cbn [store_words]. rewrite drop_0. split_and!; try done; [apply words_nil|]. by rewrite Z.mod_1_r. }
  cbn [store_words]. unfold wr. rewrite decide_True by lia. cbn [mbind option_bind]. rewrite Nat2Z.id.
  assert (Bp : 0 < B) by done. pose proof (Z.mod_pos_bound x B Bp) as Bm.
  replace (x - x / DIG_BASE * DIG_BASE) with (x mod B) by (rewrite Z.mod_eq by lia; lia).
  destruct (IH (<[n:=x mod B]> b) (x / B)) as (ws & -> & L & W & E); [rewrite length_insert; lia|apply Z.div_pos; lia|].
  exists (ws ++ [x mod B]). split.
  { f_equal. rewrite <- app_assoc. f_equal.
    rewrite (drop_S _ (x mod B)) by (apply list_lookup_insert_eq; lia). rewrite drop_insert_lt by lia. done. }
  split; [rewrite length_app; cbn; lia|]. split; [by apply words_snoc|].
  rewrite num_snoc, E, Nat2Z.inj_succ, Z.pow_succ_r by lia.
  rewrite Z.rem_mul_r by (pose proof (Bpow_pos n); lia). lia.
Qed.

Lemma count_digits_spec fuel x i : 0 <= x < 10 ^ Z.of_nat fuel ->
  exists d, count_digits (S fuel) x i = Some (i + d) /\ 0 <= d /\ x < 10 ^ d /\
    (x = 0 /\ d = 0 \/ 10 ^ (d - 1) <= x /\ 1 <= d).
Proof.
  revert x i. induction fuel as [|fuel IH]; intros x i Hx.
  { exists 0. replace x with 0 by (change (10 ^ Z.of_nat 0) with 1 in Hx; lia). cbn. rewrite Z.add_0_r.
    split_and!; try done. by left. }
  change (count_digits (S (S fuel)) x i) with (if x =? 0 then Some i else count_digits (S fuel) (x / 10) (i + 1)).
  destruct (Z.eqb_spec x 0) as [->|Hn]; [exists 0; rewrite Z.add_0_r; split_and!; try done; by left|].
  rewrite Nat2Z.inj_succ, Z.pow_succ_r in Hx by lia.
  destruct (IH (x / 10) (i + 1)) as (d & -> & D0 & Du & Dl); [split; [apply Z.div_pos; lia|apply Z.div_lt_upper_bound; lia]|].
  exists (d + 1). split; [f_equal; lia|]. split; [lia|]. replace (d + 1) with (Z.succ d) by lia.
  rewrite Z.pow_succ_r by done. split; [dlia|]. right. split; [|lia]. replace (Z.succ d - 1) with d by lia.
  destruct Dl as [[Hp ->]|[D1 D2]]; [change (10 ^ 0) with 1; lia|].
  replace d with (Z.succ (d - 1)) by lia. rewrite Z.pow_succ_r by lia. dlia.
Qed.

Lemma ull_words_spec x : 0 < x < 2 ^ 64 ->
  exists k : nat, count_words 64 x 1 = Some (Z.of_nat (S k), x / B ^ Z.of_nat k) /\ (k <= 2)%nat /\
    0 < x / B ^ Z.of_nat k < B.
Proof.
  intros Hx. change (count_words 64 x 1) with
    (if DIG_BASE <=? x then if DIG_BASE <=? x / DIG_BASE then if DIG_BASE <=? x / DIG_BASE / DIG_BASE then
       count_words 61 (x / DIG_BASE / DIG_BASE / DIG_BASE) 4 else Some (3, x / DIG_BASE / DIG_BASE)
     else Some (2, x / DIG_BASE) else Some (1, x)).
  destruct (Z.leb_spec DIG_BASE x) as [H1|H1].
  2: { exists 0%nat. change (B ^ Z.of_nat 0) with 1. rewrite Z.div_1_r. split; [done|]. lia. }
  destruct (Z.leb_spec DIG_BASE (x / DIG_BASE)) as [H2|H2].
  2: { exists 1%nat. change (B ^ Z.of_nat 1) with B. split; [done|]. split; [lia|]. split; [|done]. unfold DIG_BASE in *. dlia. }
  rewrite Z.div_div in * by done. destruct (Z.leb_spec DIG_BASE (x / (DIG_BASE * DIG_BASE))) as [H3|H3].
  { exfalso. unfold DIG_BASE in *. dlia. }
  exists 2%nat. change (B ^ Z.of_nat 2) with (DIG_BASE * DIG_BASE). split; [done|]. split; [lia|].
  split; [|done]. unfold DIG_BASE in *. dlia.
Qed.

(** The words of an integer of [k] words and [d] digits. *)
Lemma wf_int k d sg x ws rest : words_ok ws -> length ws = S k -> num ws = x -> 0 < x ->
  1 <= d <= 9 -> x / B ^ Z.of_nat k < 10 ^ d ->
  let t := mk_decimal (Z.of_nat k * 9 + d) 0 sg (ws ++ rest) in wf t /\ mag t = x /\ fw t = 0%nat.
Proof.
  intros W L E Hx Hd Hk t. assert (Ft : fw t = 0%nat) by done.
  assert (It : iw t = S k) by (unfold iw, t; cbn [intg]; rewrite ROUND_UP_div by lia; dlia).
  assert (Ws : words t = ws) by (unfold words; rewrite It, Ft, Nat.add_0_r, <- L; apply take_app_length).
  assert (Mt : mag t = x) by (unfold mag; by rewrite Ws).
  split; [|done]. split.
  - cbn [t intg]. lia.
  - done.
  - rewrite It, Ft. unfold t. cbn [buf]. rewrite length_app. lia.
  - by rewrite Ws.
  - rewrite Mt, Ft. unfold t. cbn [intg]. change (B ^ Z.of_nat 0) with 1. rewrite Z.mul_1_r.
    rewrite (Z.mul_comm _ 9), Z.pow_add_r, <- B_pow10 by lia. pose proof (Bpow_pos k) as P.
    pose proof (Z.mul_succ_div_gt x (B ^ Z.of_nat k) P). nia.
  - rewrite Ft. apply Z.divide_1_l.
  - rewrite Mt. lia.
Qed.

Lemma ull2dec_spec x sg to : 0 <= x < 2 ^ 64 -> (3 <= length (buf to))%nat ->
  exists t, ull2dec x sg to = Some (E_DEC_OK, t) /\ wf t /\ mag t = x /\ fw t = 0%nat /\
    sign t = (sg && negb (x =? 0)) /\ length (buf t) = length (buf to).
Proof.
  intros Hx Hl. unfold ull2dec. destruct (Z.eqb_spec x 0) as [->|Hn].
  { destruct (make_zero_exact 0 to ltac:(lia)) as (t & E & Wt & Ft & Vt & Lt). exists t. split; [done|]. split; [done|].
    assert (F0 : fw t = 0%nat) by lia. unfold scaled in Vt. rewrite F0 in Vt. change (B ^ Z.of_nat (0 - 0)) with 1 in Vt.
    assert (M0 : mag t = 0) by (unfold signed in Vt; destruct (sign t); lia).
    split; [done|]. split; [done|]. split; [|done]. rewrite andb_false_r.
    destruct (sign t) eqn:Es; [|done]. destruct (wf_sign _ Wt Es M0). }
  destruct (ull_words_spec x ltac:(lia)) as (k & -> & Hk & Ht). cbn [mbind option_bind]. unfold len.
  rewrite (proj2 (Z.ltb_ge _ _)) by lia. replace ((Z.of_nat (S k) - 1) * DIG_PER_DEC1) with (Z.of_nat k * 9) by (unfold DIG_PER_DEC1; lia).
  destruct (count_digits_spec 63 (x / B ^ Z.of_nat k) (Z.of_nat k * 9)) as (d & -> & D0 & Du & Dl).
  { split; [lia|]. eapply Z.lt_trans; [apply Ht|done]. }
  cbn [mbind option_bind]. rewrite Nat2Z.id.
  destruct (store_words_spec (S k) (buf to) x) as (ws & -> & Lw & Ww & Nw); [lia..|]. cbn [mbind option_bind].
  destruct Dl as [[? _]|[D1 D2]]; [lia|].
  assert (D9 : d <= 9).
  { destruct (Z.le_gt_cases d 9); [done|]. pose proof (Z.pow_le_mono_r 10 9 (d - 1) ltac:(lia) ltac:(lia)).
    assert (B = 10 ^ 9) by done. lia. }
  rewrite Z.mod_small in Nw.
  2: { split; [lia|]. rewrite Nat2Z.inj_succ, Z.pow_succ_r by lia. pose proof (Bpow_pos k) as P.
       pose proof (Z.mul_succ_div_gt x (B ^ Z.of_nat k) P). nia. }
  destruct (wf_int k d sg x ws (drop (S k) (buf to))) as (Wt & Mt & Ft); try done; [lia|].
  eexists. split; [done|]. split; [done|]. split; [done|]. split; [done|]. cbn [sign buf negb].
  split; [by destruct sg|]. rewrite length_app, length_drop. lia.
Qed.

(** ** On values *)

(** A rational number as a 64-bit integer. *)
Definition trunc (q : Q) : Z := Z.quot (Qnum q) (Zpos (Qden q)).

Definition to_longlong (q : Q) : Z * Z :=
  let n := trunc q in
  if decide (LONGLONG_MIN <= n <= LONGLONG_MAX) then (if Qeq_bool q (inject_Z n) then E_DEC_OK else E_DEC_TRUNCATED, n)
  else (E_DEC_OVERFLOW, if Qlt_le_dec q 0 then LONGLONG_MIN else LONGLONG_MAX).

Lemma trunc_value d : wf d -> trunc (value d) = truncated d.
Proof.
  intros H. pose proof (Bpow_pos (fw d)) as P. pose proof (mag_bounds d H) as M.
  unfold trunc, value, truncated, signed_mag, signed, int_part. cbn [Qnum Qden]. rewrite Z2Pos.id by done.
  destruct (sign d); rewrite ?Z.quot_opp_l by lia; rewrite Z.quot_div_nonneg by lia; done.
Qed.

Lemma frac_value d : wf d ->
  (if Qeq_bool (value d) (inject_Z (truncated d)) then E_DEC_OK else E_DEC_TRUNCATED) = frac_code d.
Proof.
  intros H. pose proof (Bpow_pos (fw d)) as P. unfold frac_code.
  pose proof (Z.div_mod (mag d) (B ^ Z.of_nat (fw d)) ltac:(lia)) as E.
  assert (X : Qeq_bool (value d) (inject_Z (truncated d)) = (mag d mod B ^ Z.of_nat (fw d) =? 0)).
  { apply eq_iff_eq_true. rewrite Qeq_bool_iff, Z.eqb_eq. unfold Qeq, value, truncated, signed_mag, signed, int_part.
    cbn [Qnum Qden inject_Z]. rewrite Z2Pos.id by done. destruct (sign d); lia. }
  by rewrite X.
Qed.

Lemma value_negative d : wf d -> (value d < 0)%Q <-> sign d = true.
Proof.
  intros H. pose proof (mag_bounds d H) as M. unfold Qlt, value, signed_mag. cbn [Qnum Qden].
  pose proof (wf_sign d H). destruct (sign d); [|lia]. assert (mag d ≠ 0) by auto. lia.
Qed.

(** C12: [decimal2longlong] converts the value of any well-formed number: it
    returns the value cut towards zero if that is a 64-bit integer, with
    E_DEC_OK or, if a fraction was lost, E_DEC_TRUNCATED; otherwise
    E_DEC_OVERFLOW and the least or the greatest 64-bit integer, by the sign.
    -9223372036854775808 is converted, and no multiplication, subtraction or
    negation on the way leaves the range of [longlong]. *)
Theorem decimal2longlong_correct d : wf d -> decimal2longlong d = Some (to_longlong (value d)).
Proof.
  intros H. rewrite decimal2longlong_spec by done. unfold to_longlong. rewrite trunc_value, frac_value by done.
  pose proof (value_negative d H) as N. f_equal. case_decide; [done|]. f_equal.
  destruct (Qlt_le_dec (value d) 0) as [Hq|Hq]; [by rewrite (proj1 N Hq)|].
  destruct (sign d); [|done]. destruct (Qlt_not_le _ _ (proj2 N eq_refl) Hq).
Qed.

(** -9223372036854775808.000000001, with 28 digits. *)
Definition ll_min : decimal_t := mk_decimal 19 9 true [9; 223372036; 854775808; 1].

Lemma decimal2longlong_correct_witness : wf ll_min /\ decimal2longlong ll_min = Some (E_DEC_TRUNCATED, LONGLONG_MIN).
Proof.
  assert (H : wf ll_min) by (apply wfb_sound; vm_compute; reflexivity).
  split; [exact H|]. rewrite (decimal2longlong_correct ll_min H). vm_compute. reflexivity.
Defined.

(** a 64-bit integer makes the way to a decimal and back: in a buffer of
    three words [longlong2decimal] returns E_DEC_OK and a well-formed decimal
    of exactly that value, which [decimal2longlong] converts back without an
    error. *)
Theorem longlong_decimal_roundtrip x to : LONGLONG_MIN <= x <= LONGLONG_MAX -> (3 <= length (buf to))%nat ->
  exists t, longlong2decimal x to = Some (E_DEC_OK, t) /\ wf t /\ (value t == inject_Z x)%Q /\
    decimal2longlong t = Some (E_DEC_OK, x).
Proof.
  intros Hx Hl. assert (R : exists t, longlong2decimal x to = Some (E_DEC_OK, t) /\ wf t /\ mag t = Z.abs x /\ fw t = 0%nat /\
    sign t = (x <? 0)).
  { unfold longlong2decimal. assert (M : LONGLONG_MIN mod 2 ^ 64 = 2 ^ 63) by done. rewrite M.
    unfold LONGLONG_MIN, LONGLONG_MAX, longlong in *. destruct (Z.ltb_spec x 0) as [Hn|Hn].
    - assert (U : (if x =? - 2 ^ 63 then ull2dec (2 ^ 63) true to else
        from ← (if decide (LONGLONG_MIN <= - x <= LONGLONG_MAX) then Some (- x) else None); ull2dec from true to) = ull2dec (- x) true to).
      { destruct (Z.eqb_spec x (- 2 ^ 63)) as [->|Hne]; [done|].
        by rewrite decide_True by (unfold LONGLONG_MIN, LONGLONG_MAX; lia). }
      rewrite U. destruct (ull2dec_spec (- x) true to) as (t & E & Wt & Mt & Ft & St & _); [lia|done|].
      exists t. split_and!; try done; [lia|]. rewrite St. by rewrite (proj2 (Z.eqb_neq _ _)) by lia.
    - destruct (ull2dec_spec x false to) as (t & E & Wt & Mt & Ft & St & _); [lia|done|].
      exists t. split_and!; try done. lia. }
  destruct R as (t & E & Wt & Mt & Ft & St). exists t. split; [done|]. split; [done|].
  assert (V : (value t == inject_Z x)%Q).
  { unfold Qeq, value, signed_mag. rewrite Ft, Mt, St. cbn [Qnum Qden inject_Z]. change (Z.pos (Z.to_pos (B ^ Z.of_nat 0))) with 1.
    destruct (Z.ltb_spec x 0); lia. }
  split; [done|]. rewrite decimal2longlong_spec by done. unfold truncated, int_part, frac_code, signed.
  rewrite Mt, Ft, St. change (B ^ Z.of_nat 0) with 1. rewrite Z.div_1_r, Z.mod_1_r.
  replace (if x <? 0 then - Z.abs x else Z.abs x) with x by (destruct (Z.ltb_spec x 0); lia).
  by rewrite decide_True.
Qed.

Lemma longlong_decimal_roundtrip_witness : exists t, longlong2decimal LONGLONG_MIN (room 3) = Some (E_DEC_OK, t) /\
  decimal2longlong t = Some (E_DEC_OK, LONGLONG_MIN) /\ buf t = [9; 223372036; 854775808].
Proof.
  destruct (longlong_decimal_roundtrip LONGLONG_MIN (room 3)) as (t & Et & _ & _ & Rt);
    [vm_compute; split; discriminate|apply Nat.le_refl|].
  exists t. split; [exact Et|]. split; [exact Rt|]. vm_compute in Et. injection Et as <-. reflexivity.
Defined.

End DecimalInt.
