(* ===== verification/DecimalBytes.v ===== *)
(** * Cells of bytes

    The binary format of a decimal is a sequence of cells: every word takes
    the bytes its digits need, high byte first, all of them inverted if the
    number is negative. *)

From S2P Require Import Prelude TimeBinary TimeBinaryProofs Decimal DecimalProofs.
Import TimeBinary TimeBinaryProofs Decimal DecimalProofs.

#[local] Open Scope Z_scope.

Module DecimalBytes.

(** ** Integers of any number of bytes *)

Fixpoint bytes_be (n : nat) (x : Z) : list Z :=
  match n with O => [] | S n => bytes_be n (x / 256) ++ [x mod 256] end.

Lemma bytes_be_length n x : length (bytes_be n x) = n.
Proof. revert x. induction n as [|n IH]; intros x; [done|]. cbn [bytes_be]. rewrite length_app, IH. cbn. lia. Qed.

Lemma bytes_be_bytes n x : is_bytes (bytes_be n x).
Proof.
  revert x. induction n as [|n IH]; intros x; [by apply Forall_nil|]. apply Forall_app. split; [apply IH|].
  apply Forall_cons. split; [apply Z.mod_pos_bound; lia|by apply Forall_nil].
Qed.

Lemma be_bytes_be n x : be (bytes_be n x) = x mod 256 ^ Z.of_nat n.
Proof.
  revert x. induction n as [|n IH]; intros x; [by rewrite Z.mod_1_r|]. cbn [bytes_be].
  rewrite be_app, IH. change (256 ^ Z.of_nat (length [x mod 256])) with 256. change (be [x mod 256]) with (x mod 256).
  rewrite Nat2Z.inj_succ, Z.pow_succ_r by lia. rewrite Z.rem_mul_r by lia. lia.
Qed.

Lemma bytes_be_plus a b x : bytes_be (a + b) x = bytes_be a (x / 256 ^ Z.of_nat b) ++ bytes_be b x.
Proof.
  revert x. induction b as [|b IH]; intros x.
  { rewrite Nat.add_0_r, app_nil_r. change (256 ^ Z.of_nat 0) with 1. by rewrite Z.div_1_r. }
  rewrite Nat.add_succ_r. cbn [bytes_be]. rewrite IH, <- app_assoc, Z.div_div, Nat2Z.inj_succ, Z.pow_succ_r by lia. done.
Qed.

Lemma byte_eq x k m : 0 <= k -> k + 8 <= m -> byte_of (x mod 2 ^ m) k = x / 2 ^ k mod 256.
Proof.
  intros Hk Hm. unfold byte_of. rewrite Z.shiftr_div_pow2, (Z.land_ones _ 8) by lia.
  change (2 ^ 8) with 256. replace m with (k + (8 + (m - k - 8))) by lia. rewrite (Z.pow_add_r 2 k), Z.pow_add_r by lia.
  assert (0 < 2 ^ k) by (apply Z.pow_pos_nonneg; lia).
  assert (0 < 2 ^ (m - k - 8)) by (apply Z.pow_pos_nonneg; lia). change (2 ^ 8) with 256.
  rewrite Z.rem_mul_r, Z.mul_comm, Z.div_add, Z.div_small by (apply Z.mod_pos_bound || lia; lia). rewrite Z.add_0_l.
  rewrite Z.rem_mul_r by lia. rewrite (Z.mul_comm 256), Z.mod_add by lia. apply Z.mod_mod. lia.
Qed.

Lemma mi_store_be x :
  mi_int1store x = bytes_be 1 x /\ mi_int2store x = bytes_be 2 x /\
  mi_int3store x = bytes_be 3 x /\ mi_int4store x = bytes_be 4 x.
Proof.
  unfold mi_int1store, mi_int2store, mi_int3store, mi_int4store, u32, u64. rewrite !byte_eq by lia.
  cbn [bytes_be app]. rewrite !Z.div_div by lia. change (2 ^ 0) with 1. rewrite Z.div_1_r. done.
Qed.

Lemma store_bytes_be n x : (1 <= n <= 4)%nat -> store_bytes (Z.of_nat n) x = Some (bytes_be n x).
Proof.
  intros Hn. destruct (mi_store_be x) as (E1 & E2 & E3 & E4).
  destruct n as [|[|[|[|[|n]]]]]; try lia; unfold store_bytes; cbn [Z.of_nat Pos.of_succ_nat Z.eqb Pos.eqb Pos.succ]; by f_equal.
Qed.

(** ** Masks *)

Definition mask_of (sg : bool) : Z := if sg then -1 else 0.

Lemma lxor_mask w sg : Z.lxor w (mask_of sg) = if sg then - 1 - w else w.
Proof. destruct sg; cbn [mask_of]; [rewrite Z.lxor_m1_r; unfold Z.lnot; lia|apply Z.lxor_0_r]. Qed.

Lemma lxor_mask_twice w sg : Z.lxor (Z.lxor w (mask_of sg)) (mask_of sg) = w.
Proof. by rewrite Z.lxor_assoc, Z.lxor_nilpotent, Z.lxor_0_r. Qed.

Lemma bytes_be_mask n sg : bytes_be n (mask_of sg) = repeat (mask_of sg mod 256) n.
Proof.
  assert (H : mask_of sg / 256 = mask_of sg) by (by destruct sg).
  induction n as [|n IH]; [done|]. cbn [bytes_be]. rewrite H, IH. by rewrite <- repeat_cons.
Qed.

(** Bytes in front of a number are the mask. *)
Lemma bytes_be_pad a b w sg : 0 <= w < 256 ^ Z.of_nat b ->
  bytes_be (a + b) (Z.lxor w (mask_of sg)) = repeat (mask_of sg mod 256) a ++ bytes_be b (Z.lxor w (mask_of sg)).
Proof.
  intros Hw. rewrite bytes_be_plus. f_equal. rewrite <- bytes_be_mask. f_equal. rewrite lxor_mask.
  destruct sg; cbn [mask_of]; [|by apply Z.div_small].
  symmetry. apply (Z.div_unique_pos _ _ _ (256 ^ Z.of_nat b - 1 - w)); lia.
Qed.

Lemma bytes_be_zero n sg : bytes_be n (Z.lxor 0 (mask_of sg)) = repeat (mask_of sg mod 256) n.
Proof. rewrite Z.lxor_0_l. apply bytes_be_mask. Qed.

(** ** Reading *)

Lemma high_bit b : 0 <= b < 256 -> (Z.land b 128 =? 0) = (b <? 128).
Proof.
  intros Hb. assert (A : forallb (fun n => eqb (Z.land (Z.of_nat n) 128 =? 0) (Z.of_nat n <? 128)) (seq 0 256) = true) by done.
  rewrite forallb_forall in A. specialize (A (Z.to_nat b)). rewrite Z2Nat.id in A by lia.
  apply eqb_prop, A. apply in_seq. lia.
Qed.

(** The sign is in the first bit. *)
Lemma load_bytes_be n x rest : (1 <= n <= 4)%nat -> - 2 ^ (8 * Z.of_nat n - 1) <= x < 2 ^ (8 * Z.of_nat n - 1) ->
  load_bytes (Z.of_nat n) (bytes_be n x ++ rest) = Some x.
Proof.
  intros Hn Hx. pose proof (korr_be (bytes_be n x) rest (bytes_be_bytes n x)) as (K2 & K3 & K4 & _).
  rewrite bytes_be_length, be_bytes_be in *.
  destruct n as [|[|[|[|[|n]]]]]; try lia; unfold load_bytes; cbn [Z.of_nat Pos.of_succ_nat Z.eqb Pos.eqb Pos.succ] in *.
  - change (2 ^ (8 * Z.of_nat 1 - 1)) with 128 in Hx. cbn [bytes_be app mi_sint1korr]. f_equal.
    destruct (Z.ltb_spec (x mod 256) 128); dlia.
  - change (2 ^ (8 * Z.of_nat 2 - 1)) with 32768 in Hx. unfold mi_sint2korr. rewrite K2 by done. cbn [mbind option_bind]. f_equal.
    change (256 ^ Z.of_nat 2) with 65536. change (2 ^ 15) with 32768. change (2 ^ 16) with 65536.
    destruct (Z.ltb_spec (x mod 65536) 32768); dlia.
  - change (2 ^ (8 * Z.of_nat 3 - 1)) with 8388608 in Hx. unfold mi_sint3korr. rewrite K3 by done. cbn [mbind option_bind bytes_be app].
    change (256 ^ Z.of_nat 3) with 16777216. rewrite high_bit by (apply Z.mod_pos_bound; lia).
    rewrite lor_add' by (change (2 ^ 24) with 16777216; dlia). f_equal. change (2 ^ 24) with 16777216. change (2 ^ 32) with 4294967296.
    rewrite Z.div_div by lia. destruct (Z.ltb_spec (x / (256 * 256) mod 256) 128); dlia.
  - change (2 ^ (8 * Z.of_nat 4 - 1)) with 2147483648 in Hx. unfold mi_sint4korr. rewrite K4 by done. cbn [mbind option_bind]. f_equal.
    change (256 ^ Z.of_nat 4) with 4294967296. change (2 ^ 31) with 2147483648. change (2 ^ 32) with 4294967296.
    destruct (Z.ltb_spec (x mod 4294967296) 2147483648); dlia.
Qed.

(** ** Cells *)

(** The bytes of the words [ws] in cells of [cs] bytes. *)
Fixpoint encode (sg : bool) (cs : list nat) (ws : list Z) : list Z :=
  match cs, ws with
  | c :: cs, w :: ws => bytes_be c (Z.lxor w (mask_of sg)) ++ encode sg cs ws
  | _, _ => []
  end.

Lemma encode_app sg cs1 ws1 cs2 ws2 : length cs1 = length ws1 ->
  encode sg (cs1 ++ cs2) (ws1 ++ ws2) = encode sg cs1 ws1 ++ encode sg cs2 ws2.
Proof.
  revert ws1. induction cs1 as [|c cs1 IH]; intros [|w ws1] H; try done.
  cbn [app encode]. rewrite IH by (cbn in H; lia). by rewrite app_assoc.
Qed.

Definition total (cs : list nat) : nat := foldr Nat.add 0%nat cs.

Lemma total_app a b : total (a ++ b) = (total a + total b)%nat.
Proof. induction a as [|c a IH]; [done|]. cbn [app total foldr]. fold (total (a ++ b)) (total a). lia. Qed.

Lemma total_repeat c n : total (repeat c n) = (n * c)%nat.
Proof. induction n as [|n IH]; [done|]. cbn [repeat total foldr]. fold (total (repeat c n)). lia. Qed.

Lemma encode_length sg cs ws : length cs = length ws -> length (encode sg cs ws) = total cs.
Proof.
  revert ws. induction cs as [|c cs IH]; intros [|w ws] H; try done.
  cbn [encode total foldr]. rewrite length_app, bytes_be_length, IH by (cbn in H; lia). done.
Qed.

Lemma encode_bytes sg cs ws : is_bytes (encode sg cs ws).
Proof.
  revert ws. induction cs as [|c cs IH]; intros [|w ws]; try by apply Forall_nil.
  apply Forall_app. split; [apply bytes_be_bytes|apply IH].
Qed.

Lemma encode_zeros sg cs : encode sg cs (repeat 0 (length cs)) = repeat (mask_of sg mod 256) (total cs).
Proof.
  induction cs as [|c cs IH]; [done|]. cbn [length repeat encode total foldr].
  rewrite bytes_be_zero, IH, <- repeat_app. done.
Qed.

(** The first bit. *)
Lemma flip_first_twice l : flip_first (flip_first l) = l.
Proof.
  destruct l as [|b l]; [done|]. cbn [flip_first]. by rewrite Z.lxor_assoc, Z.lxor_nilpotent, Z.lxor_0_r.
Qed.

Lemma flip_bits b : 0 <= b < 256 -> Z.lxor b 128 = if b <? 128 then b + 128 else b - 128.
Proof.
  intros Hb.
  assert (A : forallb (fun n => Z.lxor (Z.of_nat n) 128 =? if Z.of_nat n <? 128 then Z.of_nat n + 128 else Z.of_nat n - 128)
                (seq 0 256) = true) by done.
  rewrite forallb_forall in A. specialize (A (Z.to_nat b)). rewrite Z2Nat.id in A by lia.
  apply Z.eqb_eq, A. apply in_seq. lia.
Qed.

Lemma flip_first_length l : length (flip_first l) = length l.
Proof. by destruct l. Qed.

Lemma flip_first_bytes l : is_bytes l -> is_bytes (flip_first l).
Proof.
  intros H. destruct l as [|b l]; [done|]. apply Forall_cons in H as [Hb Hl]. apply Forall_cons.
  split; [|done]. rewrite flip_bits by done. destruct (Z.ltb_spec b 128); lia.
Qed.


(** ** Digits and bytes *)

Definition db (k : nat) : nat := nth k [0; 1; 1; 2; 2; 3; 3; 4; 4; 4]%nat 0%nat.

Ltac each k := destruct k as [|[|[|[|[|[|[|[|[|[|?]]]]]]]]]]; try (exfalso; lia).

Lemma dig2bytes_db k : (k <= 9)%nat -> rd dig2bytes (Z.of_nat k) = Some (Z.of_nat (db k)).
Proof. intros H. each k; reflexivity. Qed.

Lemma powers10_pow k : (k <= 9)%nat -> rd powers10 (Z.of_nat k) = Some (10 ^ Z.of_nat k).
Proof. intros H. each k; reflexivity. Qed.

Lemma db_bounds k : (1 <= k <= 9)%nat -> (1 <= db k <= 4)%nat /\ 10 ^ Z.of_nat k <= 2 ^ (8 * Z.of_nat (db k) - 1).
Proof. intros H. each k; cbn; (split; [lia|discriminate]). Qed.

Lemma db_mono j k : (j <= k <= 9)%nat -> (db j <= db k)%nat.
Proof. intros H. each k; each j; cbn; lia. Qed.

(** A cell holds [w] with its sign. *)
Definition fits (c : nat) (w : Z) : Prop := (1 <= c <= 4)%nat /\ 0 <= w < 2 ^ (8 * Z.of_nat c - 1).

Lemma fits_digits k w : (1 <= k <= 9)%nat -> 0 <= w < 10 ^ Z.of_nat k -> fits (db k) w.
Proof. intros Hk Hw. destruct (db_bounds k Hk) as [H1 H2]. split; [done|lia]. Qed.

Lemma fits_word w : 0 <= w < B -> fits 4 w.
Proof. intros H. apply (fits_digits 9); [lia|]. done. Qed.

Lemma fits_bytes c w : fits c w -> 0 <= w < 256 ^ Z.of_nat c.
Proof.
  intros [Hc Hw]. split; [lia|]. eapply Z.lt_trans; [apply Hw|]. change 256 with (2 ^ 8). rewrite <- Z.pow_mul_r by lia.
  apply Z.pow_lt_mono_r; lia.
Qed.

(** Reading a cell. *)
Lemma load_cell c w sg rest : fits c w ->
  load_bytes (Z.of_nat c) (bytes_be c (Z.lxor w (mask_of sg)) ++ rest) = Some (Z.lxor w (mask_of sg)).
Proof. intros [Hc Hw]. apply load_bytes_be; [done|]. rewrite lxor_mask. destruct sg; lia. Qed.

(** ** Comparing bytes *)

Lemma memcmp_app a b a' b' : length a = length a' ->
  memcmp (a ++ b) (a' ++ b') = match memcmp a a' with Eq => memcmp b b' | c => c end.
Proof.
  revert a'. induction a as [|x a IH]; intros [|y a'] H; try done. cbn [app memcmp].
  destruct (x ?= y); [|done..]. apply IH. cbn in H. lia.
Qed.

Lemma memcmp_cell c v w sg : fits c v -> fits c w ->
  memcmp (bytes_be c (Z.lxor v (mask_of sg))) (bytes_be c (Z.lxor w (mask_of sg))) = if sg then w ?= v else v ?= w.
Proof.
  intros Hv%fits_bytes Hw%fits_bytes.
  rewrite memcmp_be, !be_bytes_be by (rewrite ?bytes_be_length; done || apply bytes_be_bytes).
  rewrite !lxor_mask. set (M := 256 ^ Z.of_nat c) in *. destruct sg; [|by rewrite !Z.mod_small].
  replace ((- 1 - v) mod M) with (M - 1 - v) by (apply (Z.mod_unique_pos _ _ (-1)); lia).
  replace ((- 1 - w) mod M) with (M - 1 - w) by (apply (Z.mod_unique_pos _ _ (-1)); lia).
  destruct (Z.compare_spec w v); [apply Z.compare_eq_iff|apply Z.compare_lt_iff|apply Z.compare_gt_iff]; lia.
Qed.

Lemma memcmp_encode sg cs vs ws : Forall2 fits cs vs -> Forall2 fits cs ws ->
  memcmp (encode sg cs vs) (encode sg cs ws) = if sg then memcmp ws vs else memcmp vs ws.
Proof.
  intros Hv. revert ws. induction Hv as [|c v cs vs Hv _ IH]; intros ws Hw; inversion Hw as [|? w ? ws' Hc Hr]; subst.
  { by destruct sg. }
  cbn [encode memcmp]. rewrite memcmp_app by (by rewrite !bytes_be_length). rewrite memcmp_cell, IH by done.
  by destruct sg.
Qed.

(** The first byte has the sign. *)
Lemma encode_first sg cs ws : Forall2 fits cs ws -> cs ≠ [] ->
  exists b l, encode sg cs ws = b :: l /\ 0 <= b < 256 /\ (b <? 128) = negb sg.
Proof.
  intros H Hn. destruct H as [|c w cs ws [Hc Hw] _]; [done|]. cbn [encode].
  pose proof (bytes_be_bytes c (Z.lxor w (mask_of sg))) as Hb.
  replace c with (1 + (c - 1))%nat in * by lia. rewrite bytes_be_plus in *. cbn [bytes_be app] in *.
  apply Forall_cons in Hb as [Hb _]. eexists _, _. split; [done|]. split; [done|].
  rewrite lxor_mask. set (k := Z.of_nat (c - 1)) in *. replace (8 * Z.of_nat (1 + (c - 1)) - 1) with (8 * k + 7) in Hw by lia.
  rewrite Z.pow_add_r in Hw by lia. change (2 ^ 7) with 128 in Hw. change 256 with (2 ^ 8) at 1. rewrite <- Z.pow_mul_r by lia.
  assert (P : 0 < 2 ^ (8 * k)) by (apply Z.pow_pos_nonneg; lia). set (M := 2 ^ (8 * k)) in *. clearbody M.
  assert (Hq : 0 <= w / M < 128) by (split; [apply Z.div_pos; lia|apply Z.div_lt_upper_bound; lia]).
  destruct sg; cbn [negb].
  - replace ((- 1 - w) / M) with (- 1 - w / M).
    + apply Z.ltb_ge. rewrite <- (Z.mod_add _ 1) by lia. rewrite Z.mod_small; lia.
    + pose proof (Z.div_mod w M ltac:(lia)). pose proof (Z.mod_pos_bound w M P).
      apply (Z.div_unique_pos _ _ _ (M - 1 - w mod M)); lia.
  - apply Z.ltb_lt. rewrite Z.mod_small; lia.
Qed.

Lemma memcmp_flip a b l1 l2 : 0 <= a < 256 -> 0 <= b < 256 -> (a <? 128) = (b <? 128) ->
  memcmp (flip_first (a :: l1)) (flip_first (b :: l2)) = memcmp (a :: l1) (b :: l2).
Proof.
  intros Ha Hb E. cbn [flip_first memcmp]. rewrite !flip_bits, E by done.
  assert (X : ((if b <? 128 then a + 128 else a - 128) ?= (if b <? 128 then b + 128 else b - 128)) = (a ?= b)).
  { destruct (b <? 128); destruct (Z.compare_spec a b);
      [apply Z.compare_eq_iff|apply Z.compare_lt_iff|apply Z.compare_gt_iff|apply Z.compare_eq_iff|apply Z.compare_lt_iff|apply Z.compare_gt_iff]; lia. }
  by rewrite X.
Qed.

(** Encoded numbers are compared by sign, then by their words. *)
Lemma memcmp_encoded sg1 vs sg2 ws cs : Forall2 fits cs vs -> Forall2 fits cs ws -> cs ≠ [] ->
  memcmp (flip_first (encode sg1 cs vs)) (flip_first (encode sg2 cs ws)) =
  match sg1, sg2 with
  | false, false => memcmp vs ws | true, true => memcmp ws vs
  | true, false => Lt | false, true => Gt
  end.
Proof.
  intros Hv Hw Hn. pose proof (memcmp_encode sg1 cs vs ws Hv Hw) as E.
  destruct (encode_first sg1 cs vs Hv Hn) as (a & l1 & E1 & A & A').
  destruct (encode_first sg2 cs ws Hw Hn) as (b & l2 & E2 & B' & B'').
  destruct (decide (sg1 = sg2)) as [<-|Hd].
  - rewrite E1, E2 in *. rewrite memcmp_flip, E by congruence. by destruct sg1.
  - rewrite E1, E2. cbn [flip_first memcmp]. rewrite !flip_bits, A', B'' by done.
    destruct (Z.ltb_spec a 128), (Z.ltb_spec b 128), sg1, sg2; try done; cbn [negb].
    + by rewrite (proj2 (Z.compare_gt_iff _ _)) by lia.
    + by rewrite (proj2 (Z.compare_lt_iff _ _)) by lia.
Qed.
End DecimalBytes.
