(* ===== verification/DecimalBin.v ===== *)
(** * Fixed-point numbers: the binary format

    [decimal2bin] writes the words of the number in cells: [decimal_bin_size]
    bytes, whatever the numbers of digits the decimal itself has.  What it
    writes is read back by [bin2decimal], and [memcmp] orders it like the
    values. *)

From Stdlib Require Import QArith.
From S2P Require Import Prelude TimeBinary TimeBinaryProofs IntConvProofs Decimal DecimalProofs DecimalAdd DecimalCmp DecimalSub DecimalInt DecimalBytes.
Import TimeBinary TimeBinaryProofs IntConvProofs Decimal DecimalProofs DecimalAdd DecimalCmp DecimalSub DecimalInt DecimalBytes.

#[local] Open Scope Z_scope.

Module DecimalBin.

(** ** The leading zeros *)

Lemma digits_small z : 0 <= z < 65536 -> decimal_digits_t z = z.
Proof. intros H. by apply Z.mod_small. Qed.

Lemma zero_words_spec n fuel b g i p : g < 65536 -> (n < fuel)%nat -> (p + n <= length b)%nat ->
  9 * Z.of_nat n - 8 <= g <= 9 * Z.of_nat n \/ g = 0 /\ n = 0%nat -> (n = 0%nat \/ i = g - 9 * (Z.of_nat n - 1)) ->
  exists k, zero_words fuel b 1 g i (Z.of_nat p) =
      Some (if (k =? 0)%nat then g else 9 * Z.of_nat (n - k), Z.of_nat (p + k)) /\
    (k <= n)%nat /\ seg b p k = repeat 0 k /\ ((k < n)%nat -> exists w, b !! (p + k)%nat = Some w /\ w ≠ 0).
Proof.
  revert fuel g i p. induction n as [|n IH]; intros fuel g i p Hu Hf Hl Hg Hi.
  { destruct fuel as [|fuel]; [lia|]. exists 0%nat. cbn [zero_words Nat.eqb]. rewrite (proj2 (Z.ltb_ge _ _)) by lia.
    rewrite Nat.add_0_r. split_and!; try done. lia. }
  destruct fuel as [|fuel]; [lia|]. cbn [zero_words]. rewrite (proj2 (Z.ltb_lt _ _)) by lia. rewrite rd_nat.
  destruct (lookup_lt_is_Some_2 b p) as [w Hw]; [lia|]. rewrite Hw. cbn [mbind option_bind].
  destruct (Z.eqb_spec w 0) as [->|Hn].
  - replace (Z.of_nat p + 1) with (Z.of_nat (S p)) by lia. rewrite digits_small by lia.
    destruct (IH fuel (g - i) DIG_PER_DEC1 (S p)) as (k & E & Hk & Hz & Hd); [lia..|unfold DIG_PER_DEC1; lia|].
    exists (S k). rewrite E. cbn [Nat.eqb Nat.sub]. split.
    { f_equal. f_equal; [|lia]. destruct (k =? 0)%nat eqn:Ek; [apply Nat.eqb_eq in Ek|apply Nat.eqb_neq in Ek]; lia. }
    split; [lia|]. split; [by rewrite (seg_cons _ _ _ _ Hw), Hz|]. intros H. destruct Hd as (w & E' & Hw'); [lia|].
    exists w. by replace (p + S k)%nat with (S p + k)%nat by lia.
  - exists 0%nat. rewrite Nat.add_0_r. cbn [Nat.eqb]. split_and!; try done; [lia|]. by exists w.
Qed.

Lemma zero_digits_spec i w g : Z.of_nat i < g < 65536 -> (i <= 8)%nat -> 1 <= w < 10 ^ (Z.of_nat i + 1) ->
  exists j, (j <= i)%nat /\ zero_digits i w g = Some (g - Z.of_nat j) /\
    10 ^ Z.of_nat (i - j) <= w < 10 ^ (Z.of_nat (i - j) + 1).
Proof.
  revert g. induction i as [|i IH]; intros g Hu Hi Hw.
  { exists 0%nat. split; [lia|]. cbn [zero_digits]. cbn [powers10 lookup list_lookup mbind option_bind].
    rewrite (proj2 (Z.ltb_ge _ _)) by lia. rewrite Z.sub_0_r. split; [done|]. cbn in *. lia. }
  assert (P : powers10 !! S i = Some (10 ^ Z.of_nat (S i))).
  { pose proof (powers10_pow (S i) ltac:(lia)) as P. by rewrite rd_nat in P. }
  cbn [zero_digits]. rewrite P. cbn [mbind option_bind]. destruct (Z.ltb_spec w (10 ^ Z.of_nat (S i))) as [Hlt|Hge].
  - rewrite digits_small by lia. destruct (IH (g - 1)) as (j & Hj & E & Hb); [lia|lia|rewrite Z.add_1_r, <- Nat2Z.inj_succ; lia|].
    exists (S j). split; [lia|]. rewrite E. split; [f_equal; lia|done].
  - exists 0%nat. split; [lia|]. rewrite Z.sub_0_r. split; [done|]. rewrite Nat.sub_0_r. lia.
Qed.

(** The significant digits before the point, and the words they are in. *)
Lemma remove_leading_zeroes_spec d : wf d -> intg d < 65536 ->
  exists (s : nat) (g : Z), remove_leading_zeroes d = Some (Z.of_nat s, g) /\ 0 <= g /\
    Z.of_nat s + ROUND_UP g = Z.of_nat (iw d) /\ seg (buf d) 0 s = repeat 0 s /\
    (0 < g -> exists w, buf d !! s = Some w /\ let gx := g - 9 * (ROUND_UP g - 1) in 10 ^ (gx - 1) <= w < 10 ^ gx).
Proof.
  intros H Hu. pose proof (wf_len _ H) as L. pose proof (wf_intg _ H) as I0. pose proof (ROUND_UP_bounds _ I0) as R.
  rewrite iw_ROUND_UP in R by done. unfold remove_leading_zeroes, DIG_PER_DEC1. rewrite digits_small by lia.
  destruct (zero_words_spec (iw d) (S (Z.to_nat (intg d))) (buf d) (intg d) (Z.rem (intg d - 1) 9 + 1) 0)
    as (k & E & Hk & Hz & Hd).
  { lia. } { lia. } { lia. } { lia. }
  { destruct (iw d) eqn:Ei; [by left|right]. rewrite Z.rem_mod_nonneg by lia. dlia. }
  change (Z.of_nat 0) with 0 in E. rewrite E. cbn [mbind option_bind Nat.add]. clear E.
  set (g := if (k =? 0)%nat then intg d else 9 * Z.of_nat (iw d - k)).
  assert (G : 0 <= g /\ ROUND_UP g = Z.of_nat (iw d - k)).
  { subst g. destruct (Nat.eqb_spec k 0) as [->|]; [rewrite iw_ROUND_UP by done; lia|]. rewrite ROUND_UP_div by lia. dlia. }
  destruct (Z.ltb_spec 0 g) as [Hg|Hg].
  2: { exists k, 0. split; [done|]. split; [lia|]. change (ROUND_UP 0) with 0.
       split; [replace g with 0 in G by lia; change (ROUND_UP 0) with 0 in G; lia|]. split; [done|lia]. }
  pose proof (ROUND_UP_bounds g ltac:(lia)) as RG. destruct Hd as (w & Hw & H0); [lia|]. cbn [Nat.add] in Hw.
  rewrite rd_nat, Hw. cbn [mbind option_bind]. set (n := (iw d - k)%nat) in *. destruct G as [_ G]. rewrite G in RG.
  assert (B0 : 0 <= w < B) by (apply (word_at (buf d) k); [apply (words_take _ _ (iw d + fw d)); [apply H|lia]|done]).
  assert (Bw : w < 10 ^ (g - 9 * (Z.of_nat n - 1))).
  { subst g n. destruct (Nat.eqb_spec k 0) as [->|Hk0].
    - rewrite Nat.sub_0_r in *. destruct (iw d) as [|i] eqn:Ei; [lia|].
      replace (Z.of_nat (S i) - 1) with (Z.of_nat i) by lia. by apply (top_word d i w).
    - replace (9 * _ - _) with 9 by lia. apply B0. }
  replace (Z.to_nat (Z.rem (g - 1) 9)) with (Z.to_nat (g - 9 * (Z.of_nat n - 1) - 1)) by (rewrite Z.rem_mod_nonneg by lia; dlia).
  set (gx := g - 9 * (Z.of_nat n - 1)) in *.
  destruct (zero_digits_spec (Z.to_nat (gx - 1)) w g) as (j & Hj & E & Hb).
  { subst gx. assert (g <= intg d) by (subst g n; destruct (k =? 0)%nat eqn:Ek; [|apply Nat.eqb_neq in Ek]; lia). lia. }
  { subst gx. lia. } { rewrite Z2Nat.id by (subst gx; lia). replace (gx - 1 + 1) with gx by lia. lia. }
  rewrite E. cbn [mbind option_bind]. exists k, (g - Z.of_nat j).
  assert (RJ : ROUND_UP (g - Z.of_nat j) = Z.of_nat n) by (rewrite ROUND_UP_div by (subst gx; lia); subst gx; dlia).
  split; [done|]. split; [subst gx; lia|]. rewrite RJ. split; [subst n; lia|]. split; [done|]. intros _. exists w.
  split; [done|]. cbn zeta. replace (g - Z.of_nat j - 9 * (Z.of_nat n - 1)) with (Z.of_nat (Z.to_nat (gx - 1) - j) + 1) by (subst gx; lia).
  replace (Z.of_nat (Z.to_nat (gx - 1) - j) + 1 - 1) with (Z.of_nat (Z.to_nat (gx - 1) - j)) by lia. done.
Qed.


(** Without the bound: a number with 2^16 digits before the point is taken for
    one with none. *)
Lemma decimal_intg_wraps : decimal_intg (mk_decimal 65536 0 false (repeat 1 7282)) = Some 0.
Proof. vm_compute. reflexivity. Qed.

(** ** The layout *)

(** Cells for [x < 9] digits and [n] full words. *)
Definition short (x : nat) : list nat := if (x =? 0)%nat then [] else [db x].
Definition int_widths (ix i0 : nat) : list nat := short ix ++ repeat 4%nat i0.
Definition frac_widths (f0 fx : nat) : list nat := repeat 4%nat f0 ++ short fx.
Definition short_words (x : nat) : nat := if (x =? 0)%nat then 0%nat else 1%nat.

Lemma short_length x : length (short x) = short_words x.
Proof. unfold short, short_words. by destruct (x =? 0)%nat. Qed.

Lemma int_widths_length ix i0 : length (int_widths ix i0) = (short_words ix + i0)%nat.
Proof. unfold int_widths. by rewrite length_app, repeat_length, short_length. Qed.

Lemma frac_widths_length f0 fx : length (frac_widths f0 fx) = (f0 + short_words fx)%nat.
Proof. unfold frac_widths. by rewrite length_app, repeat_length, short_length. Qed.

Lemma total_short x : total (short x) = db x.
Proof. unfold short. destruct (Nat.eqb_spec x 0) as [->|]; [done|]. cbn. lia. Qed.

Lemma total_int ix i0 : total (int_widths ix i0) = (db ix + i0 * 4)%nat.
Proof. unfold int_widths. by rewrite total_app, total_repeat, total_short. Qed.

Lemma total_frac f0 fx : total (frac_widths f0 fx) = (f0 * 4 + db fx)%nat.
Proof. unfold frac_widths. by rewrite total_app, total_repeat, total_short. Qed.

Lemma digits_sizes x q x' q' : (x < 9)%nat -> (x' < 9)%nat -> (9 * q + x <= 9 * q' + x')%nat ->
  (q <= q')%nat /\ (db x + q * 4 <= db x' + q' * 4)%nat /\ (short_words x + q <= short_words x' + q')%nat /\
  (q = q' -> x <= x')%nat.
Proof.
  intros Hx Hx' H. assert (Hq : (q <= q')%nat) by lia. split; [done|].
  destruct (decide (q = q')) as [->|Hne].
  - assert (Hd : (x <= x')%nat) by lia. pose proof (db_mono x x' ltac:(lia)). unfold short_words.
    destruct (Nat.eqb_spec x 0), (Nat.eqb_spec x' 0); lia.
  - pose proof (db_mono x 9 ltac:(lia)) as Hd. change (db 9) with 4%nat in Hd. unfold short_words.
    destruct (Nat.eqb_spec x 0), (Nat.eqb_spec x' 0); lia.
Qed.

(** ** The words before the point *)

(** The cell for a word that needs less bytes. *)
Lemma wider_cell sg c c' w : (c <= c')%nat -> 0 <= w < 256 ^ Z.of_nat c ->
  bytes_be c' (Z.lxor w (mask_of sg)) = repeat (mask_of sg mod 256) (c' - c) ++ bytes_be c (Z.lxor w (mask_of sg)).
Proof. intros Hc Hw. replace c' with (c' - c + c)%nat at 1 by lia. by apply bytes_be_pad. Qed.

(** The cells in front, with one short word in the last of them. *)
Lemma top_cells sg ix n gx w : (ix < 9)%nat -> (0 < gx < 9)%nat -> (0 < n \/ gx <= ix)%nat -> 0 <= w < 10 ^ Z.of_nat gx ->
  encode sg (int_widths ix n) (repeat 0 (short_words ix + n - 1) ++ [w]) =
  repeat (mask_of sg mod 256) (db ix + n * 4 - db gx) ++ bytes_be (db gx) (Z.lxor w (mask_of sg)).
Proof.
  intros Hix Hgx Hn Hw. pose proof (fits_bytes _ _ (fits_digits gx w ltac:(lia) Hw)) as Hb.
  destruct n as [|n].
  - assert (Hx : (ix =? 0)%nat = false) by (apply Nat.eqb_neq; lia). unfold int_widths, short, short_words. rewrite Hx.
    change (1 + 0 - 1)%nat with 0%nat. cbn [repeat app encode]. rewrite app_nil_r, Nat.mul_0_l, Nat.add_0_r. apply wider_cell; [apply db_mono; lia|done].
  - pose proof (db_mono gx 9 ltac:(lia)) as Hd. change (db 9) with 4%nat in Hd.
    assert (E : int_widths ix (S n) = int_widths ix n ++ [4%nat]).
    { unfold int_widths. rewrite <- app_assoc. f_equal. cbn [repeat]. apply repeat_cons. }
    rewrite E, encode_app by (rewrite int_widths_length, repeat_length; lia). cbn [encode]. rewrite app_nil_r.
    rewrite (wider_cell sg (db gx) 4 w Hd Hb), app_assoc. f_equal.
    replace (short_words ix + S n - 1)%nat with (length (int_widths ix n)) by (rewrite int_widths_length; lia).
    rewrite encode_zeros, total_int, <- repeat_app. f_equal. lia.
Qed.

Lemma int_cells sg ix i0 gx g1 ws : (ix < 9)%nat -> (gx < 9)%nat -> (9 * g1 + gx <= 9 * i0 + ix)%nat ->
  length ws = (short_words gx + g1)%nat -> (gx ≠ 0%nat -> exists w l, ws = w :: l /\ 0 <= w < 10 ^ Z.of_nat gx) ->
  repeat (mask_of sg mod 256) (db ix + i0 * 4 - (db gx + g1 * 4)) ++ encode sg (int_widths gx g1) ws =
  encode sg (int_widths ix i0) (repeat 0 (short_words ix + i0 - length ws) ++ ws).
Proof.
  intros Hix Hgx Hd Hl Hw. destruct (digits_sizes gx g1 ix i0 Hgx Hix Hd) as (Q1 & Q2 & Q3 & Q4).
  assert (E : int_widths ix i0 = int_widths ix (i0 - g1) ++ repeat 4%nat g1).
  { unfold int_widths. rewrite <- app_assoc, <- repeat_app. do 2 f_equal. lia. }
  destruct (Nat.eqb_spec gx 0) as [->|Hg0].
  - change (short_words 0) with 0%nat in Hl. change (db 0) with 0%nat. rewrite E, Hl.
    replace (short_words ix + i0 - (0 + g1))%nat with (length (int_widths ix (i0 - g1))) by (rewrite int_widths_length; lia).
    rewrite encode_app, encode_zeros, total_int by (by rewrite repeat_length). f_equal. f_equal. lia.
  - destruct (Hw Hg0) as (w & l & -> & Bw). rewrite E. change (w :: l) with ([w] ++ l). rewrite app_assoc.
    assert (Hs : short_words gx = 1%nat) by (unfold short_words; by rewrite (proj2 (Nat.eqb_neq _ _) Hg0)).
    cbn [length] in Hl. rewrite Hs in Hl. cbn [app length].
    replace (short_words ix + i0 - S (length l))%nat with (short_words ix + (i0 - g1) - 1)%nat by lia.
    assert (Hne : (1 <= short_words ix + (i0 - g1))%nat) by lia.
    rewrite encode_app by (rewrite int_widths_length, length_app, repeat_length; cbn; lia).
    rewrite (top_cells sg ix (i0 - g1) gx w) by (done || lia). unfold int_widths, short.
    rewrite (proj2 (Nat.eqb_neq _ _) Hg0). cbn [app encode]. rewrite <- app_assoc. f_equal. f_equal. lia.
Qed.

(** ** The words behind the point *)

Definition frac_cells (f0 fx : nat) (ws : list Z) : list Z :=
  take f0 ws ++ map (fun w => w / 10 ^ Z.of_nat (9 - fx)) (drop f0 ws).

Lemma widen_spec n a b : (b - a < n)%nat -> (a <= b <= 9)%nat -> db a = db b ->
  widen n (Z.of_nat a) (Z.of_nat b) (Z.of_nat (db b)) = Some (Z.of_nat b).
Proof.
  revert a. induction n as [|n IH]; intros a Hn Hab E; [lia|]. cbn [widen].
  destruct (Z.ltb_spec (Z.of_nat a) (Z.of_nat b)) as [H|H]; [|f_equal; lia].
  rewrite dig2bytes_db, E by lia. cbn [mbind option_bind]. rewrite Z.eqb_refl.
  replace (Z.of_nat a + 1) with (Z.of_nat (S a)) by lia. apply IH; [lia..|].
  pose proof (db_mono a (S a) ltac:(lia)). pose proof (db_mono (S a) b ltac:(lia)). lia.
Qed.

(** The [switch] for the last cell: [x] digits of the word, widened to [y]. *)
Definition last_cell (src : list Z) (p mask x lim : Z) : option (list Z) :=
  if x =? 0 then Some [] else
  i ← rd dig2bytes x; fx ← widen 10 x lim i;
  w ← rd src p; pw ← rd powers10 (DIG_PER_DEC1 - fx); store_bytes i (Z.lxor (Z.quot w pw) mask).

Lemma last_cell_spec src p sg x y w : (0 < x)%nat -> (x <= y <= 9)%nat -> db x = db y -> src !! p = Some w -> 0 <= w ->
  last_cell src (Z.of_nat p) (mask_of sg) (Z.of_nat x) (Z.of_nat y) =
  Some (bytes_be (db y) (Z.lxor (w / 10 ^ Z.of_nat (9 - y)) (mask_of sg))).
Proof.
  intros Hx Hy E Hw H0. unfold last_cell. rewrite (proj2 (Z.eqb_neq _ _)) by lia.
  rewrite dig2bytes_db, E by lia. cbn [mbind option_bind]. rewrite widen_spec by lia. cbn [mbind option_bind].
  rewrite rd_nat, Hw. cbn [mbind option_bind]. unfold DIG_PER_DEC1. replace (9 - Z.of_nat y) with (Z.of_nat (9 - y)) by lia.
  rewrite powers10_pow by lia. cbn [mbind option_bind].
  rewrite Z.quot_div_nonneg by (done || apply Z.pow_pos_nonneg; lia).
  apply store_bytes_be. apply db_bounds. lia.
Qed.

Lemma store_full_spec n src p sg : (p + n <= length src)%nat ->
  store_full n src (Z.of_nat p) (mask_of sg) = Some (encode sg (repeat 4%nat n) (seg src p n)).
Proof.
  revert p. induction n as [|n IH]; intros p Hl; [done|]. cbn [store_full repeat].
  destruct (lookup_lt_is_Some_2 src p) as [w Hw]; [lia|]. rewrite rd_nat, Hw. cbn [mbind option_bind].
  replace (Z.of_nat p + 1) with (Z.of_nat (S p)) by lia. rewrite IH by lia. cbn [mbind option_bind].
  rewrite (seg_cons _ _ _ _ Hw). cbn [encode]. by rewrite (proj2 (proj2 (proj2 (mi_store_be _)))).
Qed.

(** Cells of zeros at the end. *)
Lemma frac_zeros f0 fx k ws : (fx < 9)%nat -> length ws = k -> (k <= f0)%nat -> forall sg,
  encode sg (frac_widths f0 fx) (frac_cells f0 fx (ws ++ repeat 0 (f0 + short_words fx - k))) =
  encode sg (repeat 4%nat k) ws ++ repeat (mask_of sg mod 256) (f0 * 4 + db fx - k * 4).
Proof.
  intros Hfx Hl Hk sg. unfold frac_cells.
  assert (E : frac_widths f0 fx = repeat 4%nat k ++ (repeat 4%nat (f0 - k) ++ short fx)).
  { unfold frac_widths. rewrite app_assoc, <- repeat_app. do 2 f_equal. lia. }
  replace (repeat 0 (f0 + short_words fx - k)) with (repeat 0 (f0 - k) ++ repeat 0 (short_words fx))
    by (rewrite <- repeat_app; f_equal; lia).
  rewrite app_assoc. rewrite take_app_length', drop_app_length' by (rewrite length_app, repeat_length; lia).
  replace (map _ (repeat 0 (short_words fx))) with (repeat 0 (short_words fx)).
  2: { unfold short_words. destruct (fx =? 0)%nat; [done|]. cbn [repeat map]. by rewrite Z.div_0_l by (apply Z.pow_nonzero; lia). }
  rewrite <- app_assoc, <- repeat_app, E, encode_app by (by rewrite repeat_length). f_equal.
  replace (f0 - k + short_words fx)%nat with (length (repeat 4%nat (f0 - k) ++ short fx))
    by (by rewrite length_app, repeat_length, short_length).
  rewrite encode_zeros, total_app, total_repeat, total_short. f_equal. lia.
Qed.

(** The last cell is the short one. *)
Lemma frac_short f0 fx ws w : (0 < fx)%nat -> length ws = f0 -> forall sg,
  encode sg (frac_widths f0 fx) (frac_cells f0 fx (ws ++ [w])) =
  encode sg (repeat 4%nat f0) ws ++ bytes_be (db fx) (Z.lxor (w / 10 ^ Z.of_nat (9 - fx)) (mask_of sg)).
Proof.
  intros Hfx Hl sg. unfold frac_cells, frac_widths, short. rewrite (proj2 (Nat.eqb_neq _ _)) by lia.
  rewrite take_app_length', drop_app_length' by done. rewrite encode_app by (by rewrite repeat_length).
  cbn [map encode]. by rewrite app_nil_r.
Qed.

(** [frac1], [frac1x], [fsize0] and [error] as [decimal2bin] adjusts them. *)
Definition frac_choice (f0 fx f1 f1x : nat) (e : Z) : Z * Z * Z * Z :=
  let s0 := Z.of_nat (f0 * 4 + db fx) in let s1 := Z.of_nat (f1 * 4 + db f1x) in
  if s0 <? s1 then (Z.of_nat f0, Z.of_nat fx, s0, E_DEC_TRUNCATED)
  else if (s1 <? s0) && negb (Z.of_nat f1x =? 0) then
    if Z.of_nat f0 =? Z.of_nat f1 then (Z.of_nat f1, Z.of_nat fx, s1, e) else (Z.of_nat f1 + 1, 0, s0, e)
  else (Z.of_nat f1, Z.of_nat f1x, s0, e).

(** The full words, the last cell and the filling are the cells of the
    fraction. *)
Definition frac_done (sg : bool) (src : list Z) (p f0 fx f1 f1x : nat) (e : Z) : Prop :=
  let m := (f1 + short_words f1x)%nat in
  exists (k : nat) x s0' part3, frac_choice f0 fx f1 f1x e = (Z.of_nat k, x, s0', e) /\ (k <= m)%nat /\
    last_cell src (Z.of_nat (p + k)) (mask_of sg) x (if Z.of_nat k <? Z.of_nat f0 then DIG_PER_DEC1 else Z.of_nat fx) = Some part3 /\
    (k * 4 + length part3 <= f0 * 4 + db fx)%nat /\
    encode sg (repeat 4%nat k) (seg src p k) ++ part3 ++
      (if Z.of_nat (f1 * 4 + db f1x) <? s0'
       then repeat (mask_of sg mod 256) (Nat.min (Z.to_nat (s0' - Z.of_nat (f1 * 4 + db f1x)))
                                                 (f0 * 4 + db fx - (k * 4 + length part3)))
       else []) =
    encode sg (frac_widths f0 fx) (frac_cells f0 fx (seg src p m ++ repeat 0 (f0 + short_words fx - m))).

Lemma frac_part_full sg src p f0 fx f1 e : (fx < 9)%nat -> (f1 <= f0)%nat -> (p + f1 <= length src)%nat ->
  frac_done sg src p f0 fx f1 0 e.
Proof.
  intros Hfx Hf Hl. unfold frac_done. change (short_words 0) with 0%nat. change (db 0) with 0%nat. rewrite !Nat.add_0_r.
  exists f1, 0, (Z.of_nat (f0 * 4 + db fx)), []. split.
  { unfold frac_choice. rewrite (proj2 (Z.ltb_ge _ _)) by (cbn; lia). cbn [Z.of_nat Z.eqb negb]. by rewrite andb_false_r. }
  split; [done|]. split; [done|]. cbn [length app]. split; [lia|].
  rewrite (frac_zeros f0 fx f1) by (done || apply seg_length; lia). f_equal.
  destruct (Z.ltb_spec (Z.of_nat (f1 * 4)) (Z.of_nat (f0 * 4 + db fx))); [f_equal; lia|].
  by replace (f0 * 4 + db fx - f1 * 4)%nat with 0%nat by lia.
Qed.

Lemma frac_part_inner sg src p f0 fx f1 x e : (fx < 9)%nat -> (0 < x < 9)%nat -> (f1 < f0)%nat ->
  (p + (f1 + 1) <= length src)%nat -> words_ok (seg src p (f1 + 1)) -> frac_done sg src p f0 fx f1 x e.
Proof.
  intros Hfx Hx Hf Hl W. unfold frac_done.
  assert (Hs : short_words x = 1%nat) by (unfold short_words; by rewrite (proj2 (Nat.eqb_neq _ _)) by lia). rewrite Hs.
  pose proof (db_bounds x ltac:(lia)) as [Dx _].
  rewrite (frac_zeros f0 fx (f1 + 1)) by (done || lia || apply seg_length; lia).
  destruct (decide (f1 * 4 + db x < f0 * 4 + db fx)%nat) as [Hlt|Hge].
  - exists (f1 + 1)%nat, 0, (Z.of_nat (f0 * 4 + db fx)), []. split.
    { unfold frac_choice. rewrite (proj2 (Z.ltb_ge _ _)), (proj2 (Z.ltb_lt _ _)), (proj2 (Z.eqb_neq (Z.of_nat x) 0)) by lia.
      cbn [andb negb]. rewrite (proj2 (Z.eqb_neq _ _)) by lia. do 3 f_equal. lia. }
    split; [done|]. split; [done|]. cbn [length app]. split; [lia|]. f_equal.
    rewrite (proj2 (Z.ltb_lt _ _)) by lia. f_equal. lia.
  - destruct (lookup_lt_is_Some_2 src (p + f1)) as [w Hw]; [lia|].
    assert (Hw0 : 0 <= w).
    { apply (Forall_lookup_1 _ _ f1 w W). rewrite seg_lookup by lia. done. }
    exists f1, (Z.of_nat x), (Z.of_nat (f0 * 4 + db fx)), (bytes_be (db 9) (Z.lxor (w / 10 ^ Z.of_nat (9 - 9)) (mask_of sg))).
    split.
    { unfold frac_choice. rewrite !(proj2 (Z.ltb_ge _ _)) by lia. done. }
    split; [lia|]. rewrite (proj2 (Z.ltb_lt (Z.of_nat f1) _)) by lia. split.
    { unfold DIG_PER_DEC1. apply (last_cell_spec src (p + f1) sg x 9); try done; try lia. change (db 9) with 4%nat. lia. }
    rewrite bytes_be_length. change (db 9) with 4%nat. split; [lia|]. rewrite (proj2 (Z.ltb_ge _ _)) by lia.
    rewrite app_nil_r. replace (f0 * 4 + db fx - (f1 + 1) * 4)%nat with 0%nat by lia. cbn [repeat]. rewrite app_nil_r.
    replace (f1 + 1)%nat with (S f1) by lia. rewrite (seg_snoc _ _ _ _ Hw). change (repeat 4%nat (S f1)) with (4%nat :: repeat 4%nat f1).
    rewrite repeat_cons, encode_app by (rewrite repeat_length, seg_length; lia). cbn [encode]. rewrite app_nil_r.
    change (10 ^ Z.of_nat (9 - 9)) with 1. by rewrite Z.div_1_r.
Qed.

Lemma frac_part_last sg src p f0 fx x e : (fx < 9)%nat -> (0 < x <= fx)%nat ->
  (p + (f0 + 1) <= length src)%nat -> words_ok (seg src p (f0 + 1)) -> frac_done sg src p f0 fx f0 x e.
Proof.
  intros Hfx Hx Hl W. unfold frac_done.
  assert (Hs : forall y, (0 < y)%nat -> short_words y = 1%nat)
    by (intros y Hy; unfold short_words; by rewrite (proj2 (Nat.eqb_neq _ _)) by lia).
  rewrite !Hs, Nat.sub_diag by lia. cbn [repeat]. rewrite app_nil_r.
  destruct (lookup_lt_is_Some_2 src (p + f0)) as [w Hw]; [lia|].
  assert (Hw0 : 0 <= w).
  { apply (Forall_lookup_1 _ _ f0 w W). rewrite seg_lookup by lia. done. }
  pose proof (db_mono x fx ltac:(lia)) as Dm. rewrite Nat.add_1_r, (seg_snoc _ _ _ _ Hw).
  rewrite frac_short by (lia || apply seg_length; lia).
  set (last := bytes_be (db fx) (Z.lxor (w / 10 ^ Z.of_nat (9 - fx)) (mask_of sg))).
  assert (Ll : length last = db fx) by apply bytes_be_length.
  destruct (decide (db x = db fx)) as [He|Hne].
  - exists f0, (Z.of_nat x), (Z.of_nat (f0 * 4 + db fx)), last. split.
    { unfold frac_choice. rewrite !(proj2 (Z.ltb_ge _ _)) by lia. done. }
    split; [lia|]. rewrite (proj2 (Z.ltb_ge (Z.of_nat f0) _)) by lia. split.
    { apply last_cell_spec; try done; lia. }
    split; [lia|]. rewrite (proj2 (Z.ltb_ge _ _)) by lia. by rewrite app_nil_r.
  - exists f0, (Z.of_nat fx), (Z.of_nat (f0 * 4 + db x)), last. split.
    { unfold frac_choice. rewrite (proj2 (Z.ltb_ge _ _)), (proj2 (Z.ltb_lt _ _)), (proj2 (Z.eqb_neq (Z.of_nat x) 0)) by lia.
      cbn [andb negb]. by rewrite Z.eqb_refl. }
    split; [lia|]. rewrite (proj2 (Z.ltb_ge (Z.of_nat f0) _)) by lia. split.
    { apply last_cell_spec; try done; lia. }
    split; [lia|]. rewrite (proj2 (Z.ltb_ge _ _)) by lia. by rewrite app_nil_r.
Qed.

Lemma frac_part sg src p f0 fx f1 x e : (fx < 9)%nat -> (x < 9)%nat -> (9 * f1 + x <= 9 * f0 + fx)%nat ->
  (p + (f1 + short_words x) <= length src)%nat -> words_ok (seg src p (f1 + short_words x)) -> frac_done sg src p f0 fx f1 x e.
Proof.
  intros Hfx Hx Hd Hl W. unfold short_words in *. destruct (Nat.eqb_spec x 0) as [->|Hn].
  { apply frac_part_full; lia. }
  destruct (decide (f1 = f0)) as [->|Hne]; [apply frac_part_last|apply frac_part_inner]; done || lia.
Qed.

(** ** [decimal2bin] *)

Lemma quot9 q r : (r < 9)%nat -> Z.quot (Z.of_nat (9 * q + r)) DIG_PER_DEC1 = Z.of_nat q.
Proof. intros H. unfold DIG_PER_DEC1. rewrite Z.quot_div_nonneg by lia. dlia. Qed.

Lemma rem9 q r : Z.of_nat (9 * q + r) - Z.of_nat q * DIG_PER_DEC1 = Z.of_nat r.
Proof. unfold DIG_PER_DEC1. lia. Qed.

(** The [switch] for the first cell. *)
Definition first_cell (src : list Z) (p mask x : Z) : option (list Z * Z) :=
  if x =? 0 then Some ([], p) else
  i ← rd dig2bytes x; w ← rd src p; pw ← rd powers10 x;
  l ← store_bytes i (Z.lxor (Z.rem w pw) mask); Some (l, p + 1).

Lemma first_cell_spec src p sg x g1 : (x < 9)%nat -> (p + (short_words x + g1) <= length src)%nat ->
  (x ≠ 0%nat -> exists w l, seg src p (short_words x + g1) = w :: l /\ 0 <= w < 10 ^ Z.of_nat x) ->
  exists l, first_cell src (Z.of_nat p) (mask_of sg) (Z.of_nat x) = Some (l, Z.of_nat (p + short_words x)) /\
    forall n, (p + (short_words x + n) <= length src)%nat ->
      l ++ encode sg (repeat 4%nat n) (seg src (p + short_words x) n) =
      encode sg (int_widths x n) (seg src p (short_words x + n)).
Proof.
  intros Hx Hl Hw. unfold first_cell, int_widths, short, short_words in *. destruct (Nat.eqb_spec x 0) as [->|Hn].
  { exists []. split; [cbn; do 2 f_equal; lia|]. intros n Hn. cbn [app Nat.add]. by rewrite Nat.add_0_r. }
  rewrite (proj2 (Z.eqb_neq _ _)) by lia. destruct (Hw Hn) as (w & l & E & Bw).
  assert (Hp : src !! p = Some w).
  { rewrite <- (Nat.add_0_r p), <- (seg_lookup src p (1 + g1)) by lia. by rewrite E. }
  rewrite dig2bytes_db by lia. cbn [mbind option_bind]. rewrite (rd_nat src p), Hp. cbn [mbind option_bind].
  rewrite powers10_pow by lia. cbn [mbind option_bind]. rewrite Z.rem_small by done.
  rewrite store_bytes_be by (apply db_bounds; lia). cbn [mbind option_bind].
  eexists. split; [do 2 f_equal; lia|]. intros n Hln. cbn [Nat.add]. rewrite (seg_cons _ _ _ _ Hp).
  replace (p + 1)%nat with (S p) by lia. done.
Qed.

(** What [decimal2bin] computes when nothing is cut. *)
Lemma decimal2bin_parts d ix i0 f0 fx f1 x s g1 gx : Z.of_nat (9 * i0 + ix + (9 * f0 + fx)) < 65536 ->
  (ix < 9)%nat -> (fx < 9)%nat -> (x < 9)%nat -> (gx < 9)%nat -> frac d = Z.of_nat (9 * f1 + x) ->
  remove_leading_zeroes d = Some (Z.of_nat s, Z.of_nat (9 * g1 + gx)) -> (9 * g1 + gx <= 9 * i0 + ix)%nat ->
  (9 * g1 + gx + (f1 * 4 + db x) ≠ 0)%nat ->
  decimal2bin d (Z.of_nat (9 * i0 + ix + (9 * f0 + fx))) (Z.of_nat (9 * f0 + fx)) =
  (let mask := mask_of (sign d) in
   let pad1 := repeat (mask mod 256) (db ix + i0 * 4 - (db gx + g1 * 4)) in
   let '(k, y, s0', e) := frac_choice f0 fx f1 x E_DEC_OK in
   '(part1, p) ← first_cell (buf d) (Z.of_nat s) mask (Z.of_nat gx);
   part2 ← store_full (Z.to_nat (Z.of_nat g1 + k)) (buf d) p mask;
   part3 ← last_cell (buf d) (p + Z.max 0 (Z.of_nat g1 + k)) mask y (if k <? Z.of_nat f0 then DIG_PER_DEC1 else Z.of_nat fx);
   let out := pad1 ++ part1 ++ part2 ++ part3 in
   let pad2 := if Z.of_nat (f1 * 4 + db x) <? s0'
     then repeat (mask mod 256) (Nat.min (Z.to_nat (s0' - Z.of_nat (f1 * 4 + db x))) (db ix + i0 * 4 + (f0 * 4 + db fx) - length out))
     else [] in
   Some (e, flip_first (out ++ pad2))).
Proof.
  intros Hp Hix Hfx Hx Hgx Ef Er Hd Hz. unfold decimal2bin. rewrite !digits_small by lia.
  replace (Z.of_nat (9 * i0 + ix + (9 * f0 + fx)) - Z.of_nat (9 * f0 + fx)) with (Z.of_nat (9 * i0 + ix)) by lia.
  rewrite Ef, !quot9, !rem9, !dig2bytes_db by lia. cbn [mbind option_bind]. rewrite Er. cbn [mbind option_bind].
  rewrite !quot9, !rem9, !dig2bytes_db by lia. cbn [mbind option_bind].
  rewrite (proj2 (Z.eqb_neq (Z.of_nat (9 * g1 + gx) + _) 0)) by lia. rewrite (proj2 (Z.ltb_ge (Z.of_nat (9 * i0 + ix)) _)) by lia.
  cbn [negb andb]. fold (mask_of (sign d)).
  replace (Z.of_nat f1 * 4 + Z.of_nat (db x)) with (Z.of_nat (f1 * 4 + db x)) by lia.
  replace (Z.of_nat f0 * 4 + Z.of_nat (db fx)) with (Z.of_nat (f0 * 4 + db fx)) by lia.
  replace (if Z.of_nat g1 * 4 + Z.of_nat (db gx) <? Z.of_nat i0 * 4 + Z.of_nat (db ix) then _ else _)
    with (repeat (mask_of (sign d) mod 256) (db ix + i0 * 4 - (db gx + g1 * 4))).
  2: { destruct (Z.ltb_spec (Z.of_nat g1 * 4 + Z.of_nat (db gx)) (Z.of_nat i0 * 4 + Z.of_nat (db ix))); [f_equal; lia|].
       by replace (db ix + i0 * 4 - (db gx + g1 * 4))%nat with 0%nat by lia. }
  replace (Z.to_nat (Z.of_nat i0 * 4 + Z.of_nat (db ix) + Z.of_nat (f0 * 4 + db fx)))
    with (db ix + i0 * 4 + (f0 * 4 + db fx))%nat by lia.
  reflexivity.
Qed.

Lemma decimal2bin_zero d ix i0 f0 fx s : Z.of_nat (9 * i0 + ix + (9 * f0 + fx)) < 65536 ->
  (ix < 9)%nat -> (fx < 9)%nat -> frac d = 0 ->
  remove_leading_zeroes d = Some (Z.of_nat s, 0) ->
  decimal2bin d (Z.of_nat (9 * i0 + ix + (9 * f0 + fx))) (Z.of_nat (9 * f0 + fx)) =
  Some (E_DEC_OK, flip_first (repeat 0 (db ix + i0 * 4 + (f0 * 4 + db fx)))).
Proof.
  intros Hp Hix Hfx Ef Er. unfold decimal2bin. rewrite !digits_small by lia.
  replace (Z.of_nat (9 * i0 + ix + (9 * f0 + fx)) - Z.of_nat (9 * f0 + fx)) with (Z.of_nat (9 * i0 + ix)) by lia.
  rewrite Ef, !quot9, !rem9, !dig2bytes_db by lia. change (Z.quot 0 DIG_PER_DEC1) with 0. change (0 - 0 * DIG_PER_DEC1) with 0.
  cbn [mbind option_bind]. change (rd dig2bytes 0) with (Some 0). cbn [mbind option_bind]. rewrite Er. cbn [mbind option_bind].
  change (0 + (0 * 4 + 0) =? 0) with true. change (Z.quot 0 DIG_PER_DEC1) with 0. change (0 - 0 * DIG_PER_DEC1) with 0.
  change (rd dig2bytes 0) with (Some 0). cbn [mbind option_bind]. change (negb (1 <? 0)) with true.
  change (0 * 4 + 0) with 0. cbn [andb]. rewrite (proj2 (Z.ltb_ge (Z.of_nat f0 * 4 + Z.of_nat (db fx)) 0)) by lia.
  change (negb (0 =? 0)) with false. rewrite andb_false_r. change (0 mod 256) with 0. change (0 =? 0) with true. cbv iota.
  cbn [mbind option_bind]. change (store_full (Z.to_nat (0 + 0)) [0] 0 0) with (Some (@nil Z)). cbn [mbind option_bind].
  rewrite !app_nil_r. do 3 f_equal.
  replace (if 0 <? Z.of_nat i0 * 4 + Z.of_nat (db ix) then _ else _) with (repeat 0 (db ix + i0 * 4)).
  2: { destruct (Z.ltb_spec 0 (Z.of_nat i0 * 4 + Z.of_nat (db ix))); [f_equal; lia|].
       by replace (db ix + i0 * 4)%nat with 0%nat by lia. }
  rewrite repeat_length, (repeat_app _ (db ix + i0 * 4)). f_equal. rewrite Z.sub_0_r.
  destruct (Z.ltb_spec 0 (Z.of_nat f0 * 4 + Z.of_nat (db fx))); [f_equal; lia|].
  by replace (f0 * 4 + db fx)%nat with 0%nat by lia.
Qed.

Lemma ROUND_UP_nat q r : (r < 9)%nat -> ROUND_UP (Z.of_nat (9 * q + r)) = Z.of_nat (q + short_words r).
Proof.
  intros H. rewrite ROUND_UP_div by lia. unfold short_words. destruct (Nat.eqb_spec r 0); dlia.
Qed.

Lemma nat_digits z : 0 <= z -> exists q r, z = Z.of_nat (9 * q + r) /\ (r < 9)%nat.
Proof. intros H. exists (Z.to_nat (z / 9)), (Z.to_nat (z mod 9)). split; [dlia|]. dlia. Qed.

(** The significant digits fit. *)
Lemma digits_fit d s g n : wf d -> intg d < 65536 -> remove_leading_zeroes d = Some (Z.of_nat s, g) -> int_part d < 10 ^ n -> 0 <= n ->
  0 <= g <= n /\ Z.of_nat s + ROUND_UP g = Z.of_nat (iw d) /\ seg (buf d) 0 s = repeat 0 s /\
  (0 < g -> exists w, buf d !! s = Some w /\ 0 <= w < 10 ^ (g - 9 * (ROUND_UP g - 1))).
Proof.
  intros H Hu E Hn Hn0. destruct (remove_leading_zeroes_spec d H Hu) as (s' & g' & E' & G0 & Hs & Hz & Hw).
  rewrite E in E'. injection E' as Es Eg. apply Nat2Z.inj in Es. subst s' g'. cbn zeta in Hw.
  split; [|split; [done|split; [done|]]].
  2: { intros Hg. destruct (Hw Hg) as (w & Ew & Bw). exists w. split; [done|]. split; [|lia].
       apply (word_at (buf d) s); [|done]. pose proof (ROUND_UP_bounds g G0).
       apply (words_take _ _ (iw d + fw d)); [apply H|lia]. }
  split; [done|]. destruct (Z.le_gt_cases g n) as [|Hgt]; [done|]. exfalso. destruct (Hw ltac:(lia)) as (w & Ew & Bw & _).
  pose proof (ROUND_UP_bounds g G0) as RG. pose proof (wf_len _ H) as L. destruct (int_parts d H) as (Ei & _ & Wi & _).
  set (m := Z.to_nat (ROUND_UP g - 1)). assert (Ed : iw d = (s + S m)%nat) by lia.
  rewrite Ed, seg_plus, num_app, Hz, num_zeros, Z.mul_0_l, Z.add_0_l, (seg_cons _ _ _ _ Ew), num_cons in Ei.
  rewrite seg_length in Ei by lia. rewrite Ed in Wi. pose proof (num_bounds (seg (buf d) (S s) m)) as Bm.
  assert (Wm : words_ok (seg (buf d) (S s) m)) by (apply (seg_words _ _ _ (iw d + fw d)); [apply H|lia]). specialize (Bm Wm).
  assert (Hle : 10 ^ (g - 1) <= w * B ^ Z.of_nat m).
  { replace (g - 1) with ((g - 9 * (ROUND_UP g - 1) - 1) + 9 * Z.of_nat m) by lia.
    rewrite Z.pow_add_r, <- B_pow10 by lia. apply Z.mul_le_mono_nonneg_r; [pose proof (Bpow_pos m); lia|done]. }
  pose proof (Z.pow_le_mono_r 10 n (g - 1) ltac:(lia) ltac:(lia)). lia.
Qed.

(** The words of a number in a layout. *)
Lemma layout_words d s m ni nf : wf d -> (s + m = iw d)%nat -> seg (buf d) 0 s = repeat 0 s -> (m <= ni)%nat -> (fw d <= nf)%nat ->
  let I := repeat 0 (ni - m) ++ seg (buf d) s m in
  let F := seg (buf d) (iw d) (fw d) ++ repeat 0 (nf - fw d) in
  length I = ni /\ length F = nf /\ words_ok I /\ words_ok F /\ num (I ++ F) = scaled nf d.
Proof.
  intros H Hs Hz Hm Hf I F. pose proof (wf_len _ H) as L. pose proof (wf_words _ H) as W. unfold words in W.
  assert (Wi : words_ok (seg (buf d) s m)) by (apply (seg_words _ _ _ (iw d + fw d)); [done|lia]).
  assert (Wf : words_ok (seg (buf d) (iw d) (fw d))) by (apply (seg_words _ _ _ (iw d + fw d)); [done|lia]).
  split; [unfold I; rewrite length_app, repeat_length, seg_length; lia|].
  split; [unfold F; rewrite length_app, repeat_length, seg_length; lia|].
  split; [apply words_app; split; [apply words_zeros|done]|]. split; [apply words_app; split; [done|apply words_zeros]|].
  unfold I, F, scaled, mag, words. rewrite <- seg_take, (seg_plus _ 0 (iw d)). 
  replace (seg (buf d) 0 (iw d)) with (repeat 0 s ++ seg (buf d) s m) by (by rewrite <- Hs, seg_plus, Hz).
  cbn [Nat.add]. rewrite !num_app, !num_zeros, !repeat_length, !length_app, !repeat_length, !seg_length by lia.
  rewrite Nat2Z.inj_add, Z.pow_add_r by (clear; lia). ring.
Qed.

(** The bytes, from the parts. *)
Lemma decimal2bin_bytes d ix i0 f0 fx f1 x s g1 gx : wf d -> Z.of_nat (9 * i0 + ix + (9 * f0 + fx)) < 65536 ->
  (ix < 9)%nat -> (fx < 9)%nat -> (x < 9)%nat -> (gx < 9)%nat -> frac d = Z.of_nat (9 * f1 + x) ->
  remove_leading_zeroes d = Some (Z.of_nat s, Z.of_nat (9 * g1 + gx)) -> (9 * g1 + gx <= 9 * i0 + ix)%nat ->
  (9 * f1 + x <= 9 * f0 + fx)%nat -> (9 * g1 + gx + (f1 * 4 + db x) ≠ 0)%nat ->
  (s + (short_words gx + g1) = iw d)%nat -> fw d = (f1 + short_words x)%nat ->
  (gx ≠ 0%nat -> exists w l, seg (buf d) s (short_words gx + g1) = w :: l /\ 0 <= w < 10 ^ Z.of_nat gx) ->
  decimal2bin d (Z.of_nat (9 * i0 + ix + (9 * f0 + fx))) (Z.of_nat (9 * f0 + fx)) =
  Some (E_DEC_OK, flip_first (encode (sign d) (int_widths ix i0 ++ frac_widths f0 fx)
    ((repeat 0 (short_words ix + i0 - (short_words gx + g1)) ++ seg (buf d) s (short_words gx + g1)) ++
     frac_cells f0 fx (seg (buf d) (iw d) (fw d) ++ repeat 0 (f0 + short_words fx - fw d))))).
Proof.
  intros H Hp Hix Hfx Hx Hgx Ef Er Hd Hd' Hz Hs Fw Hw. pose proof (wf_len _ H) as L.
  rewrite (decimal2bin_parts d ix i0 f0 fx f1 x s g1 gx) by done. cbn zeta. set (sg := sign d).
  destruct (frac_part sg (buf d) (iw d) f0 fx f1 x E_DEC_OK) as (k & y & s0' & part3 & -> & Hk & El & Hl3 & Ed); try done; try lia.
  { rewrite <- Fw. apply (seg_words _ _ _ (iw d + fw d)); [apply H|lia]. }
  destruct (first_cell_spec (buf d) s sg gx g1 Hgx ltac:(lia) Hw) as (l & -> & Hcat). cbn [mbind option_bind].
  replace (Z.to_nat (Z.of_nat g1 + Z.of_nat k)) with (g1 + k)%nat by lia.
  rewrite store_full_spec by lia. cbn [mbind option_bind].
  replace (Z.of_nat (s + short_words gx) + Z.max 0 (Z.of_nat g1 + Z.of_nat k)) with (Z.of_nat (iw d + k)) by lia.
  rewrite El. cbn [mbind option_bind]. set (pad := repeat (mask_of sg mod 256) (db ix + i0 * 4 - (db gx + g1 * 4))).
  set (ws := seg (buf d) s (short_words gx + g1)) in *. assert (Lw : length ws = (short_words gx + g1)%nat) by (apply seg_length; lia).
  pose proof (int_cells sg ix i0 gx g1 ws Hix Hgx Hd Lw Hw) as EI. fold pad in EI. rewrite Lw in EI.
  assert (E2 : l ++ encode sg (repeat 4%nat (g1 + k)) (seg (buf d) (s + short_words gx) (g1 + k)) =
               encode sg (int_widths gx g1) ws ++ encode sg (repeat 4%nat k) (seg (buf d) (iw d) k)).
  { rewrite Hcat by lia. rewrite Nat.add_assoc, seg_plus, Hs. unfold int_widths at 1. rewrite repeat_app, app_assoc.
    apply encode_app. by rewrite int_widths_length. }
  assert (E3 : pad ++ l ++ encode sg (repeat 4%nat (g1 + k)) (seg (buf d) (s + short_words gx) (g1 + k)) ++ part3 =
    encode sg (int_widths ix i0) (repeat 0 (short_words ix + i0 - (short_words gx + g1)) ++ ws) ++
    encode sg (repeat 4%nat k) (seg (buf d) (iw d) k) ++ part3).
  { rewrite <- EI. rewrite (app_assoc l), E2. by rewrite <- !app_assoc. }
  destruct (digits_sizes gx g1 ix i0 Hgx Hix Hd) as (_ & _ & Q3 & _).
  rewrite E3. rewrite !length_app, encode_length, total_int by (rewrite int_widths_length, length_app, repeat_length; lia).
  rewrite encode_length by (rewrite repeat_length, seg_length; lia). rewrite total_repeat.
  replace (db ix + i0 * 4 + (f0 * 4 + db fx) - (db ix + i0 * 4 + (k * 4 + length part3)))%nat
    with (f0 * 4 + db fx - (k * 4 + length part3))%nat by lia.
  do 3 f_equal. rewrite encode_app by (rewrite int_widths_length, length_app, repeat_length; lia).
  rewrite Fw, <- Ed, <- !app_assoc. done.
Qed.

Lemma first_short d s g1 gx : (gx < 9)%nat -> (s + (short_words gx + g1) <= length (buf d))%nat ->
  (0 < Z.of_nat (9 * g1 + gx) -> exists w, buf d !! s = Some w /\
     0 <= w < 10 ^ (Z.of_nat (9 * g1 + gx) - 9 * (Z.of_nat (g1 + short_words gx) - 1))) ->
  gx ≠ 0%nat -> exists w l, seg (buf d) s (short_words gx + g1) = w :: l /\ 0 <= w < 10 ^ Z.of_nat gx.
Proof.
  intros Hgx Hl Hw H0. destruct Hw as (w & E & Bw); [lia|].
  assert (Hs : short_words gx = 1%nat) by (unfold short_words; by rewrite (proj2 (Nat.eqb_neq _ _))). rewrite Hs in *.
  exists w, (seg (buf d) (S s) g1). split; [by apply seg_cons|]. by replace (_ - _) with (Z.of_nat gx) in Bw by lia.
Qed.

Lemma decimal2bin_cells d ix i0 f0 fx : wf d -> intg d < 65536 ->
  Z.of_nat (9 * i0 + ix + (9 * f0 + fx)) < 65536 -> (ix < 9)%nat -> (fx < 9)%nat ->
  frac d <= Z.of_nat (9 * f0 + fx) -> int_part d < 10 ^ Z.of_nat (9 * i0 + ix) ->
  let nf := (f0 + short_words fx)%nat in
  exists I F, length I = (short_words ix + i0)%nat /\ length F = nf /\ words_ok I /\ words_ok F /\
    num (I ++ F) = scaled nf d /\ (fw d <= nf)%nat /\
    decimal2bin d (Z.of_nat (9 * i0 + ix + (9 * f0 + fx))) (Z.of_nat (9 * f0 + fx)) =
    Some (E_DEC_OK, flip_first (encode (sign d) (int_widths ix i0 ++ frac_widths f0 fx) (I ++ frac_cells f0 fx F))).
Proof.
  intros H Hu Hp Hix Hfx Hf Hi nf. destruct (remove_leading_zeroes_spec d H Hu) as (s & g & Er & _).
  destruct (digits_fit d s g _ H Hu Er Hi ltac:(lia)) as (G0 & Hs & Hz & Hw).
  destruct (nat_digits g ltac:(lia)) as (g1 & gx & -> & Hgx). destruct (nat_digits (frac d) (wf_frac _ H)) as (f1 & x & Ef & Hx).
  rewrite ROUND_UP_nat in Hs, Hw by done. rewrite Ef in Hf.
  assert (Fw : fw d = (f1 + short_words x)%nat) by (unfold fw; rewrite Ef, ROUND_UP_nat by done; lia).
  destruct (digits_sizes gx g1 ix i0) as (_ & _ & Q3 & _); [lia..|].
  destruct (digits_sizes x f1 fx f0) as (_ & _ & Q4 & _); [lia..|].
  set (m := (short_words gx + g1)%nat).
  destruct (layout_words d s m (short_words ix + i0) nf H) as (LI & LF & WI & WF & N); [lia|done|lia|lia|].
  do 2 eexists. split; [exact LI|]. split; [exact LF|]. split; [exact WI|]. split; [exact WF|]. split; [exact N|]. split; [lia|].
  destruct (decide (9 * g1 + gx + (f1 * 4 + db x) = 0)%nat) as [H0|Hn].
  - assert (x = 0%nat) as -> by (destruct x; [done|]; destruct (db_bounds (S x)); lia).
    assert (gx = 0 /\ g1 = 0 /\ f1 = 0)%nat as (-> & -> & ->) by lia.
    assert (Hsg : sign d = false).
    { destruct (sign d) eqn:Es; [|done]. destruct (wf_sign _ H Es). unfold mag, words. rewrite Fw, <- seg_take.
      cbn in Hs. replace (iw d + _)%nat with s by (cbn; lia). by rewrite Hz, num_zeros. }
    rewrite (decimal2bin_zero d ix i0 f0 fx s) by (done || by rewrite Ef). do 3 f_equal. subst m. rewrite Fw, Hsg.
    cbn [short_words Nat.add Nat.eqb]. rewrite !(eq_refl : seg _ _ 0 = []), app_nil_r, !Nat.sub_0_r.
    rewrite encode_app by (by rewrite int_widths_length, repeat_length).
    rewrite <- int_widths_length, encode_zeros, total_int.
    pose proof (frac_zeros f0 fx 0 [] Hfx eq_refl ltac:(lia) false) as EF. rewrite !Nat.sub_0_r in EF.
    change (seg (buf d) (iw d) 0) with (@nil Z). fold nf in EF. rewrite EF. cbn [repeat encode app]. rewrite (repeat_app _ (_ + _)). done.
  - subst m. apply (decimal2bin_bytes d ix i0 f0 fx f1 x s g1 gx); try done; try lia.
    pose proof (wf_len _ H). apply first_short; [done|lia|done].
Qed.
End DecimalBin.
