(* ===== verification/DecimalBinRead.v ===== *)
(** * Fixed-point numbers: reading the binary format back

    [bin2decimal] on what [decimal2bin] wrote: the value comes back, without
    the leading zero words; and the order of the bytes is the order of the
    values. *)

From Stdlib Require Import QArith.
From S2P Require Import Prelude TimeArithProofs TimeBinary TimeBinaryProofs IntConvProofs Decimal DecimalProofs DecimalAdd DecimalCmp DecimalSub DecimalInt DecimalBytes DecimalBin.
Import TimeBinary TimeBinaryProofs IntConvProofs Decimal DecimalProofs DecimalAdd DecimalCmp DecimalSub DecimalInt DecimalBytes DecimalBin.

#[local] Open Scope Z_scope.

Module DecimalBinRead.

(** ** Reading words *)

(** The words without the zeros in front. *)
Fixpoint strip (ws : list Z) : list Z :=
  match ws with [] => [] | w :: l => if w =? 0 then strip l else ws end.

Lemma strip_spec ws : exists n, ws = repeat 0 n ++ strip ws /\ (n + length (strip ws) = length ws)%nat.
Proof.
  induction ws as [|w ws (n & E & L)]; [by exists 0%nat|]. cbn [strip length].
  destruct (Z.eqb_spec w 0) as [->|]; [|by exists 0%nat]. exists (S n). cbn [repeat app]. split; [by f_equal|lia].
Qed.

Lemma num_strip ws us : num (strip ws ++ us) = num (ws ++ us).
Proof.
  destruct (strip_spec ws) as (n & E & _). rewrite E at 2.
  rewrite !num_app, num_zeros. lia.
Qed.

Lemma take_snoc_insert (b : list Z) p w : (p < length b)%nat -> take (S p) (<[p:=w]> b) = take p b ++ [w].
Proof.
  intros H. rewrite (take_S_r _ _ w) by (by apply list_lookup_insert_eq). by rewrite take_insert_ge by lia.
Qed.

Lemma wr_nat b p w : (p < length b)%nat -> wr b (Z.of_nat p) w = Some (<[p:=w]> b).
Proof. intros H. unfold wr. rewrite decide_True by lia. by rewrite Nat2Z.id. Qed.

Lemma load_word w sg rest : 0 <= w < B ->
  mi_sint4korr (bytes_be 4 (Z.lxor w (mask_of sg)) ++ rest) = Some (Z.lxor w (mask_of sg)).
Proof. intros H. exact (load_cell 4 w sg rest (fits_word w H)). Qed.

Lemma word_u32 w : 0 <= w < B -> u32 w = w.
Proof. intros H. unfold u32. apply Z.mod_small. unfold DIG_BASE in H. lia. Qed.

(** The words land behind those that are there; at the start of the buffer
    zero words are skipped. *)
Lemma load_full_spec lead sg ws rest b p tintg : words_ok ws -> (p + length ws <= length b)%nat ->
  let ws' := if lead && (p =? 0)%nat then strip ws else ws in
  exists b', load_full (length ws) lead (encode sg (repeat 4%nat (length ws)) ws ++ rest) (mask_of sg) b (Z.of_nat p) tintg =
      Some (inr (b', Z.of_nat (p + length ws'), tintg - 9 * Z.of_nat (length ws - length ws'), rest)) /\
    take (p + length ws') b' = take p b ++ ws' /\ length b' = length b.
Proof.
  revert b p tintg. induction ws as [|w ws IH]; intros b p tintg W Hl.
  { exists b. cbn [length repeat encode app load_full]. replace (if lead && (p =? 0)%nat then strip [] else []) with (@nil Z) by (by destruct (lead && (p =? 0)%nat)).
    cbn [length]. rewrite Nat.add_0_r, app_nil_r. split_and!; try done. do 4 f_equal. lia. }
  apply Forall_cons in W as [B0 W]. cbn [length repeat encode load_full]. cbn [length] in Hl. rewrite <- app_assoc, load_word by done.
  cbn [mbind option_bind]. rewrite lxor_mask_twice, wr_nat by lia. cbn [mbind option_bind].
  rewrite word_u32 by done. rewrite (proj2 (Z.ltb_ge _ _)) by (unfold DIG_MAX; lia).
  rewrite drop_app_length' by (by rewrite bytes_be_length).
  destruct (negb lead || (0 <? Z.of_nat p) || negb (w =? 0)) eqn:Ec.
  - replace (Z.of_nat p + 1) with (Z.of_nat (S p)) by lia.
    destruct (IH (<[p:=w]> b) (S p) tintg W) as (b' & E & T & L); [rewrite length_insert; lia|].
    cbn [Nat.eqb] in *. rewrite andb_false_r in *. rewrite E, length_insert in *.
    assert (Ew : (if lead && (p =? 0)%nat then strip (w :: ws) else w :: ws) = w :: ws).
    { destruct lead; [|done]. destruct (Nat.eqb_spec p 0) as [->|]; [|done]. cbn in Ec. cbn [andb strip]. by destruct (w =? 0). }
    rewrite Ew. exists b'. cbn [length]. replace (p + S (length ws))%nat with (S p + length ws)%nat by lia.
    split; [do 4 f_equal; lia|]. split; [|done]. rewrite T, take_snoc_insert by lia. by rewrite <- app_assoc.
  - rewrite !orb_false_iff in Ec. destruct Ec as [[E1 E2] E3].
    apply negb_false_iff in E1 as ->. apply Z.ltb_ge in E2. apply negb_false_iff, Z.eqb_eq in E3 as ->.
    assert (p = 0%nat) as -> by lia. destruct (IH (<[0%nat:=0]> b) 0%nat (tintg - DIG_PER_DEC1) W) as (b' & E & T & L);
      [rewrite length_insert; lia|].
    cbn [Nat.eqb andb strip Z.eqb] in *. rewrite length_insert in L. exists b'. change (Z.of_nat 0) with 0 in *. rewrite E.
    destruct (strip_spec ws) as (n & _ & Ls). unfold DIG_PER_DEC1. split; [do 4 f_equal; lia|]. by rewrite T.
Qed.

Lemma load_first_spec sg ix ws rest b tintg : (ix < 9)%nat -> length ws = short_words ix -> (short_words ix <= length b)%nat ->
  (ix ≠ 0%nat -> exists w, ws = [w] /\ 0 <= w < 10 ^ Z.of_nat ix) ->
  let n := length (strip ws) in
  exists b', load_first (Z.of_nat ix) (encode sg (short ix) ws ++ rest) (mask_of sg) b tintg =
      Some (inr (b', Z.of_nat n, tintg - (if (n =? length ws)%nat then 0 else Z.of_nat ix), rest)) /\
    take n b' = strip ws /\ length b' = length b.
Proof.
  intros Hix Hl Hb Hw n. unfold load_first, short, short_words in *. destruct (Nat.eqb_spec ix 0) as [->|Hn].
  { destruct ws; [|done]. exists b. cbn. split_and!; try done. do 4 f_equal. lia. }
  destruct (Hw Hn) as (w & -> & Bw). rewrite (proj2 (Z.eqb_neq _ _)) by lia. rewrite dig2bytes_db by lia.
  cbn [mbind option_bind encode]. rewrite app_nil_r, load_cell by (apply fits_digits; lia). cbn [mbind option_bind].
  rewrite lxor_mask_twice. change (wr b 0 w) with (wr b (Z.of_nat 0) w). rewrite wr_nat by lia. cbn [mbind option_bind].
  replace (Z.of_nat ix + 1) with (Z.of_nat (S ix)) by lia. rewrite powers10_pow by lia. cbn [mbind option_bind].
  pose proof (Z.pow_lt_mono_r 10 (Z.of_nat ix) (Z.of_nat (S ix)) ltac:(lia) ltac:(lia) ltac:(lia)) as P.
  pose proof (Z.pow_le_mono_r 10 (Z.of_nat (S ix)) 9 ltac:(lia) ltac:(lia)) as P9.
  unfold u64. rewrite Z.mod_small by lia. rewrite (proj2 (Z.leb_gt _ _)) by lia.
  rewrite Nat2Z.id, drop_app_length' by (by rewrite bytes_be_length).
  exists (<[0%nat:=w]> b). rewrite length_insert. subst n. cbn [strip].
  destruct (Z.eqb_spec w 0) as [->|Hw0]; cbn [length Nat.eqb].
  - split; [done|]. by rewrite take_0.
  - split; [do 4 f_equal; lia|]. split; [|done]. rewrite take_snoc_insert by lia. by rewrite take_0.
Qed.

Lemma load_last_spec sg f0 fx v b p : (fx < 9)%nat -> (p < length b)%nat -> (0 < fx)%nat -> 0 <= v < B ->
  (10 ^ Z.of_nat (9 - fx) | v) ->
  load_last (Z.of_nat fx) (bytes_be (db fx) (Z.lxor (v / 10 ^ Z.of_nat (9 - fx)) (mask_of sg)) ++ f0) (mask_of sg) b (Z.of_nat p) =
  Some (inr (<[p:=v]> b)).
Proof.
  intros Hfx Hp H0 Bv Hd. unfold load_last. rewrite (proj2 (Z.eqb_neq _ _)) by lia. rewrite dig2bytes_db by lia.
  cbn [mbind option_bind]. assert (Pp : 0 < 10 ^ Z.of_nat (9 - fx)) by (apply Z.pow_pos_nonneg; lia).
  assert (Bq : 0 <= v / 10 ^ Z.of_nat (9 - fx) < 10 ^ Z.of_nat fx).
  { split; [apply Z.div_pos; lia|]. apply Z.div_lt_upper_bound; [done|]. rewrite <- Z.pow_add_r by lia.
    replace (Z.of_nat (9 - fx) + Z.of_nat fx) with 9 by lia. apply Bv. }
  rewrite load_cell by (apply fits_digits; lia). cbn [mbind option_bind]. unfold DIG_PER_DEC1.
  replace (9 - Z.of_nat fx) with (Z.of_nat (9 - fx)) by lia. rewrite powers10_pow by lia. cbn [mbind option_bind].
  rewrite lxor_mask_twice. replace (v / 10 ^ Z.of_nat (9 - fx) * 10 ^ Z.of_nat (9 - fx)) with v
    by (destruct Hd as [q ->]; by rewrite Z.div_mul by lia).
  assert (S : s32 v = v).
  { unfold s32. rewrite word_u32 by done. by rewrite (proj2 (Z.ltb_lt _ _)) by (unfold DIG_BASE in Bv; lia). }
  rewrite S, wr_nat by done. cbn [mbind option_bind]. rewrite word_u32 by done.
  by rewrite (proj2 (Z.ltb_ge _ _)) by (unfold DIG_MAX; lia).
Qed.


(** ** All parts *)

(** The digits before the point that are left. *)
Definition kept_digits (ix i0 n : nat) : Z := if (n =? short_words ix + i0)%nat then Z.of_nat (9 * i0 + ix) else 9 * Z.of_nat n.

Lemma strip_app_short Ix J : (length Ix <= 1)%nat ->
  strip Ix ++ (if (length (strip Ix) =? 0)%nat then strip J else J) = strip (Ix ++ J).
Proof.
  intros H. destruct Ix as [|w [|? ?]]; [done| |cbn in H; lia]. cbn [app strip]. by destruct (Z.eqb_spec w 0).
Qed.

Lemma read_int sg ix i0 I rest b : (ix < 9)%nat -> length I = (short_words ix + i0)%nat -> words_ok I -> (length I <= length b)%nat ->
  (ix ≠ 0%nat -> exists w l, I = w :: l /\ 0 <= w < 10 ^ Z.of_nat ix) ->
  let n := length (strip I) in
  exists b' p b1 tintg from, 
    load_first (Z.of_nat ix) (encode sg (int_widths ix i0) I ++ rest) (mask_of sg) b (Z.of_nat (9 * i0 + ix)) =
      Some (inr (b1, p, tintg, from)) /\
    load_full i0 true from (mask_of sg) b1 p tintg = Some (inr (b', Z.of_nat n, kept_digits ix i0 n, rest)) /\
    take n b' = strip I /\ length b' = length b.
Proof.
  intros Hix Hl W Hb Hw n. set (Ix := take (short_words ix) I). set (J := drop (short_words ix) I).
  assert (EI : I = Ix ++ J) by (symmetry; apply take_drop).
  assert (LX : length Ix = short_words ix) by (unfold Ix; rewrite length_take; lia).
  assert (LJ : length J = i0) by (unfold J; rewrite length_drop; lia).
  assert (S1 : (short_words ix <= 1)%nat) by (unfold short_words; destruct (ix =? 0)%nat; lia).
  assert (WJ : words_ok J) by (rewrite EI in W; by apply words_app in W as [_ W]).
  destruct (load_first_spec sg ix Ix (encode sg (repeat 4%nat i0) J ++ rest) b (Z.of_nat (9 * i0 + ix))) as (b1 & E1 & T1 & L1);
    [done|done|lia| |].
  { intros Hn. destruct (Hw Hn) as (w & l & -> & Bw). exists w. split; [|done]. unfold Ix, short_words.
    by rewrite (proj2 (Nat.eqb_neq _ _) Hn). }
  destruct (strip_spec Ix) as (kx & _ & Kx).
  destruct (load_full_spec true sg J rest b1 (length (strip Ix)) (Z.of_nat (9 * i0 + ix) - (if (length (strip Ix) =? length Ix)%nat then 0 else Z.of_nat ix)))
    as (b' & E2 & T2 & L2); [done|lia|]. cbn [andb] in E2, T2. rewrite T1, strip_app_short, <- EI in T2 by lia.
  pose proof (f_equal length (strip_app_short Ix J ltac:(lia))) as Ls. rewrite length_app, <- EI in Ls. fold n in Ls.
  rewrite Ls in E2, T2. rewrite LJ in E2.
  do 5 eexists. split.
  { rewrite EI. unfold int_widths. rewrite encode_app, <- app_assoc by (by rewrite short_length). exact E1. }
  split; [|split; [exact T2|congruence]]. rewrite E2. do 4 f_equal.
  unfold kept_digits. destruct (strip_spec J) as (kj & _ & Kj).
  assert (Sx : short_words ix = 0%nat -> ix = 0%nat) by (unfold short_words; destruct (Nat.eqb_spec ix 0); [done|lia]).
  destruct (Nat.eqb_spec (length (strip Ix)) 0) as [Hz|Hz], (Nat.eqb_spec (length (strip Ix)) (length Ix)) as [Hf|Hf],
    (Nat.eqb_spec n (short_words ix + i0)) as [Hn|Hn]; lia.
Qed.

Lemma read_frac sg f0 fx F b p : (fx < 9)%nat -> length F = (f0 + short_words fx)%nat -> words_ok F ->
  (p + length F <= length b)%nat -> (fx ≠ 0%nat -> exists l v, F = l ++ [v] /\ (10 ^ Z.of_nat (9 - fx) | v)) ->
  forall tintg, exists b1 b' q from,
    load_full f0 false (encode sg (frac_widths f0 fx) (frac_cells f0 fx F)) (mask_of sg) b (Z.of_nat p) tintg =
      Some (inr (b1, q, tintg, from)) /\
    load_last (Z.of_nat fx) from (mask_of sg) b1 q = Some (inr b') /\
    take (p + length F) b' = take p b ++ F /\ length b' = length b.
Proof.
  intros Hfx Hl W Hb Hd tintg. set (G := take f0 F). set (X := drop f0 F).
  assert (EF : F = G ++ X) by (symmetry; apply take_drop).
  assert (LG : length G = f0) by (unfold G; rewrite length_take; lia).
  assert (LX : length X = short_words fx) by (unfold X; rewrite length_drop; lia).
  assert (WG : words_ok G) by (rewrite EF in W; by apply words_app in W as [W _]).
  destruct (load_full_spec false sg G (encode sg (short fx) (map (fun w => w / 10 ^ Z.of_nat (9 - fx)) X)) b p tintg) as (b1 & E1 & T1 & L1);
    [done|lia|]. cbn [andb] in E1, T1. rewrite Nat.sub_diag, LG in E1.
  replace (tintg - 9 * Z.of_nat 0) with tintg in E1 by lia.
  unfold frac_widths, frac_cells. fold G X. rewrite encode_app by (by rewrite repeat_length, LG). rewrite E1.
  unfold short, short_words in *. destruct (Nat.eqb_spec fx 0) as [->|Hn].
  - exists b1, b1. do 2 eexists. split; [done|]. split; [done|]. destruct X; [|done]. rewrite app_nil_r in EF. by rewrite EF.
  - destruct (Hd Hn) as (l & v & Ef & Hv). assert (Xv : X = [v]).
    { unfold X. rewrite Ef. rewrite Ef, length_app in Hl. cbn in Hl. by rewrite drop_app_length' by lia. }
    assert (Gl : G = l) by (unfold G; rewrite Ef; rewrite Ef, length_app in Hl; cbn in Hl; by rewrite take_app_length' by lia).
    rewrite Xv in *. cbn [map encode]. rewrite app_nil_r.
    exists b1, (<[(p + f0)%nat:=v]> b1). do 2 eexists. split; [done|]. split.
    { rewrite <- (app_nil_r (bytes_be _ _)). apply load_last_spec; try done; [rewrite L1; lia|lia|].
      rewrite Ef in W. apply words_app in W as [_ W]. by apply Forall_cons in W as [W _]. }
    split; [|by rewrite length_insert]. rewrite EF, length_app, LG. cbn [length].
    replace (p + (f0 + 1))%nat with (S (p + f0)) by lia. rewrite take_snoc_insert by lia. rewrite LG in T1. rewrite T1. by rewrite <- app_assoc.
Qed.

(** ** Numbers in a layout *)

(** The words of a number of [9 * i0 + ix] digits before and [9 * f0 + fx]
    behind the point. *)
Record in_layout (ix i0 f0 fx : nat) (I F : list Z) : Prop := mk_layout {
  lay_ix : (ix < 9)%nat; lay_fx : (fx < 9)%nat;
  lay_I : length I = (short_words ix + i0)%nat; lay_F : length F = (f0 + short_words fx)%nat;
  lay_WI : words_ok I; lay_WF : words_ok F;
  lay_top : num I < 10 ^ Z.of_nat (9 * i0 + ix);
  lay_tail : (10 ^ (9 * Z.of_nat (length F) - Z.of_nat (9 * f0 + fx)) | num (I ++ F)) }.

Lemma layout_first ix i0 f0 fx I F : in_layout ix i0 f0 fx I F -> ix ≠ 0%nat ->
  exists w l, I = w :: l /\ 0 <= w < 10 ^ Z.of_nat ix.
Proof.
  intros [Hix _ HI _ WI _ HT _] Hn. unfold short_words in HI. rewrite (proj2 (Nat.eqb_neq _ _) Hn) in HI.
  destruct I as [|w l]; [cbn in HI; lia|]. exists w, l. split; [done|]. apply Forall_cons in WI as [Bw Wl].
  split; [lia|]. rewrite num_cons in HT. pose proof (num_bounds _ Wl) as Bl. cbn in HI.
  replace (length l) with i0 in * by lia. rewrite Nat2Z.inj_add, Z.pow_add_r, Nat2Z.inj_mul in HT by lia.
  change (Z.of_nat 9) with 9 in HT. rewrite <- B_pow10 in HT. pose proof (Bpow_pos i0) as P.
  set (Y := B ^ Z.of_nat i0) in *. clearbody Y. nia.
Qed.

Lemma layout_last ix i0 f0 fx I F : in_layout ix i0 f0 fx I F -> fx ≠ 0%nat ->
  exists l v, F = l ++ [v] /\ (10 ^ Z.of_nat (9 - fx) | v).
Proof.
  intros [_ Hfx _ HF _ _ _ HT] Hn. unfold short_words in HF. rewrite (proj2 (Nat.eqb_neq _ _) Hn) in HF.
  destruct F as [|v l _] using rev_ind; [cbn in HF; lia|]. exists l, v. split; [done|].
  rewrite HF, app_assoc, num_snoc in HT. replace (9 * Z.of_nat (f0 + 1) - _) with (Z.of_nat (9 - fx)) in HT by lia.
  apply Z.divide_add_cancel_r in HT; [done|]. apply Z.divide_mul_r. exists (10 ^ Z.of_nat fx).
  rewrite <- Z.pow_add_r by lia. replace (Z.of_nat fx + Z.of_nat (9 - fx)) with 9 by lia. done.
Qed.

Lemma fits_words n ws : length ws = n -> words_ok ws -> Forall2 fits (repeat 4%nat n) ws.
Proof.
  intros <- W. induction W as [|w ws Hw _ IH]; cbn [length repeat]; constructor; [by apply fits_word|done].
Qed.

Lemma layout_fits ix i0 f0 fx I F : in_layout ix i0 f0 fx I F ->
  Forall2 fits (int_widths ix i0 ++ frac_widths f0 fx) (I ++ frac_cells f0 fx F).
Proof.
  intros L. pose proof (layout_first _ _ _ _ _ _ L) as HF. pose proof (layout_last _ _ _ _ _ _ L) as HL.
  destruct L as [Hix Hfx LI LF WI WF _ _]. apply Forall2_app.
  - unfold int_widths, short, short_words in *. destruct (Nat.eqb_spec ix 0) as [->|Hn]; [by apply fits_words|].
    destruct (HF Hn) as (w & l & -> & Bw). apply Forall_cons in WI as [_ Wl]. cbn [app]. constructor; [apply fits_digits; lia|].
    apply fits_words; [cbn in LI; lia|done].
  - unfold frac_widths, frac_cells, short, short_words in *. destruct (Nat.eqb_spec fx 0) as [->|Hn].
    + rewrite Nat.add_0_r in LF. rewrite take_ge, drop_ge by lia. cbn [map]. rewrite !app_nil_r. by apply fits_words.
    + destruct (HL Hn) as (l & v & -> & Hv). rewrite length_app in LF. cbn in LF. apply words_app in WF as [Wl Wv].
      apply Forall_cons in Wv as [Bv _]. rewrite take_app_length', drop_app_length' by lia. cbn [map].
      apply Forall2_app; [apply fits_words; [lia|done]|]. constructor; [|constructor]. apply fits_digits; [lia|].
      assert (0 < 10 ^ Z.of_nat (9 - fx)) by (apply Z.pow_pos_nonneg; lia). split; [apply Z.div_pos; lia|].
      apply Z.div_lt_upper_bound; [done|]. rewrite <- Z.pow_add_r by lia.
      replace (Z.of_nat (9 - fx) + Z.of_nat fx) with 9 by lia. apply Bv.
Qed.

(** ** [bin2decimal] *)

Lemma bin_size_nat ix i0 f0 fx : Z.of_nat (9 * i0 + ix + (9 * f0 + fx)) < 65536 ->
  (ix < 9)%nat -> (fx < 9)%nat ->
  decimal_bin_size (Z.of_nat (9 * i0 + ix + (9 * f0 + fx))) (Z.of_nat (9 * f0 + fx)) =
  Some (Z.of_nat (total (int_widths ix i0 ++ frac_widths f0 fx))).
Proof.
  intros Hp Hix Hfx. unfold decimal_bin_size. rewrite !digits_small by lia.
  replace (Z.of_nat (9 * i0 + ix + (9 * f0 + fx)) - Z.of_nat (9 * f0 + fx)) with (Z.of_nat (9 * i0 + ix)) by lia.
  rewrite !quot9, !rem9, !dig2bytes_db by lia. cbn [mbind option_bind]. rewrite total_app, total_int, total_frac. f_equal. lia.
Qed.

Lemma size_nat ix i0 f0 fx : Z.of_nat (9 * i0 + ix + (9 * f0 + fx)) < 65536 ->
  (ix < 9)%nat -> (fx < 9)%nat ->
  decimal_size (Z.of_nat (9 * i0 + ix + (9 * f0 + fx))) (Z.of_nat (9 * f0 + fx)) =
  Z.of_nat (short_words ix + i0 + (f0 + short_words fx)).
Proof.
  intros Hp Hix Hfx. unfold decimal_size. rewrite !digits_small by lia.
  replace (Z.of_nat (9 * i0 + ix + (9 * f0 + fx)) - Z.of_nat (9 * f0 + fx)) with (Z.of_nat (9 * i0 + ix)) by lia.
  rewrite !ROUND_UP_nat by done. lia.
Qed.

Lemma short_pos x : (if 0 <? Z.of_nat x then 1 else 0) = Z.of_nat (short_words x).
Proof. unfold short_words. destruct (Z.ltb_spec 0 (Z.of_nat x)), (Nat.eqb_spec x 0); lia. Qed.

Lemma bin2decimal_reads sg ix i0 f0 fx I F to : Z.of_nat (9 * i0 + ix + (9 * f0 + fx)) < 65536 ->
  in_layout ix i0 f0 fx I F -> (1 <= length I + length F <= length (buf to))%nat ->
  let n := length (strip I) in let t := kept_digits ix i0 n in let f := Z.of_nat (9 * f0 + fx) in
  exists b', bin2decimal (flip_first (encode sg (int_widths ix i0 ++ frac_widths f0 fx) (I ++ frac_cells f0 fx F))) to
      (Z.of_nat (9 * i0 + ix + (9 * f0 + fx))) f =
    (let d := mk_decimal t f sg b' in
     if (t =? 0) && (f =? 0) then d ← decimal_make_zero d; Some (E_DEC_OK, d) else Some (E_DEC_OK, d)) /\
    take (n + length F) b' = strip I ++ F /\ length b' = length (buf to).
Proof.
  intros Hp Ly Hlen n t f. pose proof (layout_fits _ _ _ _ _ _ Ly) as Hfit. pose proof (layout_first _ _ _ _ _ _ Ly) as HF.
  pose proof (layout_last _ _ _ _ _ _ Ly) as HL. destruct Ly as [Hix Hfx LI LF WI WF HT _].
  set (cs := int_widths ix i0 ++ frac_widths f0 fx) in *. set (cells := I ++ frac_cells f0 fx F) in *.
  assert (Lc : length cs = length cells) by (by apply Forall2_length in Hfit).
  assert (Hcs : cs ≠ []).
  { intros E. apply (f_equal length) in E. unfold cs in E. rewrite length_app, int_widths_length, frac_widths_length in E. cbn in E. lia. }
  destruct (encode_first sg cs cells Hfit Hcs) as (x & l & E & Bx & Sx).
  assert (Hf : decimal_digits_t f = f) by (apply digits_small; subst f; lia).
  unfold bin2decimal. rewrite Hf, digits_small by lia. clear Hf.
  replace (Z.of_nat (9 * i0 + ix + (9 * f0 + fx)) - f) with (Z.of_nat (9 * i0 + ix)) by (subst f; lia).
  unfold f at 1 2 3 4 5 6. rewrite bin_size_nat, !quot9, !rem9 by done. fold cs. rewrite !short_pos.
  assert (Ef : flip_first (encode sg cs cells) !! 0%nat = Some (Z.lxor x 128)) by (by rewrite E).
  rewrite Ef. cbn [mbind option_bind].
  assert (Em : (if Z.land (Z.lxor x 128) 128 =? 0 then -1 else 0) = mask_of sg).
  { rewrite flip_bits, Sx by done. destruct sg; cbn [negb] in *.
    - apply Z.ltb_ge in Sx. rewrite high_bit by lia. by rewrite (proj2 (Z.ltb_lt _ _)) by lia.
    - apply Z.ltb_lt in Sx. rewrite high_bit by lia. by rewrite (proj2 (Z.ltb_ge _ _)) by lia. }
  rewrite Em. clear Ef Em Sx Bx E. rewrite Nat2Z.id, take_ge by (rewrite flip_first_length, encode_length by done; lia).
  rewrite flip_first_twice. unfold FIX_INTG_FRAC_ERROR, len. rewrite (proj2 (Z.ltb_ge _ _)) by lia.
  rewrite dig2bytes_db by lia. cbn [mbind option_bind]. change (E_DEC_OK =? 0) with true. cbv iota.
  replace (Z.of_nat i0 * DIG_PER_DEC1 + Z.of_nat ix) with (Z.of_nat (9 * i0 + ix)) by (unfold DIG_PER_DEC1; lia).
  replace (Z.of_nat f0 * DIG_PER_DEC1 + Z.of_nat fx) with f by (unfold DIG_PER_DEC1, f; lia). rewrite !Nat2Z.id.
  unfold cs, cells. rewrite encode_app by (by rewrite int_widths_length).
  destruct (read_int sg ix i0 I (encode sg (frac_widths f0 fx) (frac_cells f0 fx F)) (buf to))
    as (b' & p & b1 & ti & from & -> & E2 & T2 & L2); try done; [lia|].
  cbn [mbind option_bind]. rewrite E2. cbn [mbind option_bind]. fold n t.
  destruct (strip_spec I) as (z & _ & Lz). fold n in Lz.
  destruct (read_frac sg f0 fx F b' n Hfx LF WF ltac:(lia) HL t) as (b2 & b3 & q & from3 & E3 & E4 & T4 & L4).
  rewrite E3. cbn [mbind option_bind]. rewrite E4. cbn [mbind option_bind].
  exists b3. fold n in T2. rewrite T2 in T4. replace (negb (mask_of sg =? 0)) with sg by (by destruct sg).
  split; [done|]. split; [done|congruence].
Qed.

(** A number read from a layout. *)
Lemma wf_read ix i0 f0 fx I F sg b : in_layout ix i0 f0 fx I F -> (sg = true -> num (I ++ F) ≠ 0) ->
  let n := length (strip I) in
  take (n + length F) b = strip I ++ F -> (1 <= n + length F <= length b)%nat ->
  let t := mk_decimal (kept_digits ix i0 n) (Z.of_nat (9 * f0 + fx)) sg b in
  wf t /\ mag t = num (I ++ F) /\ fw t = length F.
Proof.
  intros [Hix Hfx LI LF WI WF HT HD] Hsg n Ht Hl t. destruct (strip_spec I) as (z & Ez & Lz). fold n in Lz.
  assert (Ft : fw t = length F) by (unfold fw, t; cbn [frac]; rewrite ROUND_UP_nat by done; lia).
  assert (It : iw t = n).
  { unfold iw, t, kept_digits. cbn [intg]. destruct (Nat.eqb_spec n (short_words ix + i0)) as [->|_].
    - rewrite ROUND_UP_nat by done. lia.
    - rewrite ROUND_UP_div by lia. dlia. }
  assert (Wt : words t = strip I ++ F) by (unfold words; rewrite It, Ft; done).
  assert (Mt : mag t = num (I ++ F)) by (unfold mag; rewrite Wt; apply num_strip).
  assert (WS : words_ok (strip I)) by (rewrite Ez in WI; by apply words_app in WI as [_ WI]).
  split; [|done]. split.
  - unfold t, kept_digits. cbn [intg]. destruct (_ =? _)%nat; lia.
  - unfold t. cbn [frac]. lia.
  - rewrite It, Ft. done.
  - rewrite Wt. apply words_app. done.
  - rewrite Ft, Mt, <- (num_strip I F), num_app. pose proof (num_bounds F WF) as BF.
    assert (HS : num (strip I) < 10 ^ intg t).
    { unfold t, kept_digits. cbn [intg]. destruct (Nat.eqb_spec n (short_words ix + i0)) as [_|_].
      - pose proof (num_strip I []) as NS. rewrite !app_nil_r in NS. by rewrite NS.
      - rewrite <- B_pow10. apply (num_bounds (strip I) WS). }
    set (Y := B ^ Z.of_nat (length F)) in *. clearbody Y. nia.
  - rewrite Ft, Mt. unfold t. cbn [frac]. done.
  - by rewrite Mt.
Qed.

(** ** The theorems *)

(** The number has at most [scale] digits behind and [precision - scale]
    before the point; precision, scale and the digits before the point are
    below 2^16, the range of [decimal_digits_t]. *)
Definition in_format (d : decimal_t) (precision scale : Z) : Prop :=
  wf d /\ intg d < 2 ^ 16 /\ 0 < precision < 2 ^ 16 /\ 0 <= scale <= precision /\ frac d <= scale /\
  int_part d < 10 ^ (precision - scale).

(** What [decimal2bin] writes for a number in the format. *)
Lemma written d p s : in_format d p s ->
  exists ix i0 f0 fx I F, p = Z.of_nat (9 * i0 + ix + (9 * f0 + fx)) /\ s = Z.of_nat (9 * f0 + fx) /\
    in_layout ix i0 f0 fx I F /\ (1 <= length I + length F)%nat /\ (fw d <= length F)%nat /\
    num (I ++ F) = scaled (length F) d /\
    decimal2bin d p s = Some (E_DEC_OK, flip_first (encode (sign d) (int_widths ix i0 ++ frac_widths f0 fx) (I ++ frac_cells f0 fx F))).
Proof.
  intros (H & Hu & Hp & Hs & Hf & Hi). change (2 ^ 16) with 65536 in *. destruct (nat_digits (p - s) ltac:(lia)) as (i0 & ix & Ei & Hix).
  destruct (nat_digits s ltac:(lia)) as (f0 & fx & Es & Hfx).
  assert (Ep : p = Z.of_nat (9 * i0 + ix + (9 * f0 + fx))) by lia. rewrite Ei in Hi. clear Ei. subst p s.
  destruct (decimal2bin_cells d ix i0 f0 fx H Hu ltac:(lia) Hix Hfx Hf Hi) as (I & F & LI & LF & WI & WF & N & Hfw & E).
  exists ix, i0, f0, fx, I, F. split; [done|]. split; [done|]. rewrite LF. split; [|split; [|split; [done|split; [done|done]]]].
  - pose proof (num_bounds F WF) as BF. pose proof (Bpow_pos (length F)) as P. split; try done.
    + rewrite num_app in N. unfold scaled in N. unfold int_part in Hi.
      pose proof (Z.mul_succ_div_gt (mag d) (B ^ Z.of_nat (fw d)) (Bpow_pos (fw d))) as D.
      assert (X : scaled (length F) d < 10 ^ Z.of_nat (9 * i0 + ix) * B ^ Z.of_nat (length F)).
      { unfold scaled. replace (B ^ Z.of_nat (length F)) with (B ^ Z.of_nat (fw d) * B ^ Z.of_nat (length F - fw d))
          by (rewrite <- Z.pow_add_r, <- Nat2Z.inj_add by (clear; lia); do 2 f_equal; clear -Hfw LF; lia).
        rewrite Z.mul_assoc. apply Z.mul_lt_mono_pos_r; [apply Bpow_pos|].
        eapply Z.lt_le_trans; [exact D|]. rewrite Z.mul_comm. apply Z.mul_le_mono_nonneg_r; [pose proof (Bpow_pos (fw d)); lia|lia]. }
      unfold scaled in X. rewrite LF in *. rewrite <- N in X.
      apply (Z.mul_lt_mono_pos_r (B ^ Z.of_nat (f0 + short_words fx))); [done|]. clear -X BF. lia.
    + rewrite LF, N. apply scaled_tail; [done|done|]. unfold short_words. destruct (Nat.eqb_spec fx 0); lia.
  - rewrite LI. unfold short_words. destruct (Nat.eqb_spec ix 0), (Nat.eqb_spec fx 0); lia.
Qed.

(** A number in the format is read back. *)
Lemma read_back d ix i0 f0 fx I F to : wf d -> Z.of_nat (9 * i0 + ix + (9 * f0 + fx)) < 65536 ->
  in_layout ix i0 f0 fx I F -> (1 <= length I + length F <= length (buf to))%nat ->
  num (I ++ F) = scaled (length F) d ->
  exists t, bin2decimal (flip_first (encode (sign d) (int_widths ix i0 ++ frac_widths f0 fx) (I ++ frac_cells f0 fx F))) to
    (Z.of_nat (9 * i0 + ix + (9 * f0 + fx))) (Z.of_nat (9 * f0 + fx)) = Some (E_DEC_OK, t) /\ wf t /\
    (fw t <= length F)%nat /\ signed (sign t) (scaled (length F) t) = signed (sign d) (scaled (length F) d).
Proof.
  intros Wd Hp Ly Hlen N. pose proof (lay_I _ _ _ _ _ _ Ly) as LI. pose proof (lay_F _ _ _ _ _ _ Ly) as LF.
  destruct (bin2decimal_reads (sign d) ix i0 f0 fx I F to Hp Ly ltac:(lia)) as (b' & E & T & L).
  set (n := length (strip I)) in *. cbn zeta in E.
  rewrite E. clear E. destruct (decide (n + length F = 0)%nat) as [H0|H0].
  - assert (F = []) as EF by (destruct F; [done|cbn in H0; lia]). assert (n = 0%nat) as En by lia.
    assert (N0 : scaled (length F) d = 0).
    { rewrite <- N, <- num_strip. replace (strip I) with (@nil Z); [by rewrite EF|]. by destruct (strip I). }
    rewrite N0, En. unfold kept_digits. assert ((short_words ix + i0)%nat ≠ 0%nat) by lia.
    rewrite (proj2 (Nat.eqb_neq 0 (short_words ix + i0))) by lia. assert (9 * f0 + fx = 0)%nat as ->.
    { rewrite EF in LF. cbn in LF. unfold short_words in LF. destruct (Nat.eqb_spec fx 0); lia. }
    change ((9 * Z.of_nat 0 =? 0) && (Z.of_nat 0 =? 0)) with true. cbv iota.
    destruct (make_zero_exact (length F) (mk_decimal (9 * Z.of_nat 0) (Z.of_nat 0) (sign d) b')) as (t & Et & Wt & Ft & Vt & _); [cbn; lia|].
    exists t. rewrite Et, Vt. split_and!; try done. unfold signed. by destruct (sign d).
  - destruct (strip_spec I) as (z & _ & Lz). fold n in Lz.
    destruct (wf_read ix i0 f0 fx I F (sign d) b' Ly) as (Wt & Mt & Ft); [|done|fold n; lia|].
    { intros Hs. rewrite N. pose proof (scaled_pos (length F) d Wd (wf_sign _ Wd Hs)). lia. }
    fold n in Wt, Mt, Ft. eexists. split; [|split; [exact Wt|]].
    + unfold kept_digits. replace (_ && _) with false; [done|]. symmetry. apply andb_false_iff.
      destruct (Nat.eqb_spec n (short_words ix + i0)) as [Hn|Hn]; rewrite !Z.eqb_neq.
      * unfold short_words in *. destruct (Nat.eqb_spec ix 0), (Nat.eqb_spec fx 0); lia.
      * unfold short_words in LF. destruct (Nat.eqb_spec fx 0); lia.
    + rewrite Ft. split; [done|]. unfold scaled at 1. rewrite Mt, N, Ft, Nat.sub_diag. change (B ^ Z.of_nat 0) with 1.
      by rewrite Z.mul_1_r.
Qed.

(** C8: the binary format loses nothing: a number with at most [scale] digits
    behind and [precision - scale] before the point is written without error
    into exactly [decimal_bin_size] bytes, and [bin2decimal] reads from them a
    well-formed number of the same value into any buffer of [decimal_size]
    words.  Precision, scale and the digits before the point are below 2^16
    ([in_format]), as they are [decimal_digits_t] in the code. *)
Theorem decimal_bin_roundtrip d to precision scale :
  in_format d precision scale -> decimal_size precision scale <= len to ->
  exists bytes t, decimal2bin d precision scale = Some (E_DEC_OK, bytes) /\ is_bytes bytes /\
    decimal_bin_size precision scale = Some (Z.of_nat (length bytes)) /\
    bin2decimal bytes to precision scale = Some (E_DEC_OK, t) /\ wf t /\ (value t == value d)%Q.
Proof.
  intros Hd Hsz. destruct (written d _ _ Hd) as (ix & i0 & f0 & fx & I & F & -> & -> & Ly & Hpos & Hfw & N & ->).
  pose proof (layout_fits _ _ _ _ _ _ Ly) as Hfit. apply Forall2_length in Hfit.
  pose proof (lay_ix _ _ _ _ _ _ Ly) as Hix. pose proof (lay_fx _ _ _ _ _ _ Ly) as Hfx.
  pose proof (lay_I _ _ _ _ _ _ Ly) as LI. pose proof (lay_F _ _ _ _ _ _ Ly) as LF.
  destruct Hd as (Wd & _ & [_ Hp] & _). change (2 ^ 16) with 65536 in Hp.
  rewrite size_nat in Hsz by done. rewrite bin_size_nat by done. unfold len in Hsz.
  destruct (read_back d ix i0 f0 fx I F to Wd Hp Ly ltac:(lia) N) as (t & Et & Wt & Ft & Vt). do 2 eexists.
  split; [done|]. split; [apply flip_first_bytes, encode_bytes|]. split; [by rewrite flip_first_length, encode_length|].
  split; [exact Et|]. split; [done|]. rewrite (signed_order (length F) t Ft), (signed_order (length F) d Hfw). by rewrite Vt.
Qed.

(** ** The order *)

Lemma memcmp_words a : forall b, length a = length b -> words_ok a -> words_ok b -> memcmp a b = (num a ?= num b).
Proof.
  induction a as [|x a IH]; intros [|y b] Hl Ha Hb; try done.
  apply Forall_cons in Ha as [Hx Ha], Hb as [Hy Hb]. injection Hl as Hl.
  rewrite !num_cons, Hl, TimeArithProofs.mixed_radix_compare; [|rewrite <- Hl|]; try by apply num_bounds.
  cbn [memcmp]. rewrite IH by done. by destruct (x ?= y).
Qed.

Lemma memcmp_cells ix i0 f0 fx I1 F1 I2 F2 : in_layout ix i0 f0 fx I1 F1 -> in_layout ix i0 f0 fx I2 F2 ->
  memcmp (I1 ++ frac_cells f0 fx F1) (I2 ++ frac_cells f0 fx F2) = (num (I1 ++ F1) ?= num (I2 ++ F2)).
Proof.
  intros Y1 Y2. assert (E : memcmp (frac_cells f0 fx F1) (frac_cells f0 fx F2) = memcmp F1 F2).
  { pose proof (layout_last _ _ _ _ _ _ Y1) as H1. pose proof (layout_last _ _ _ _ _ _ Y2) as H2.
    pose proof (lay_F _ _ _ _ _ _ Y1) as L1. pose proof (lay_F _ _ _ _ _ _ Y2) as L2. unfold frac_cells, short_words in *.
    destruct (Nat.eqb_spec fx 0) as [->|Hn].
    - rewrite !take_ge, !drop_ge by lia. cbn [map]. by rewrite !app_nil_r.
    - destruct (H1 Hn) as (l1 & v1 & -> & q1 & ->). destruct (H2 Hn) as (l2 & v2 & -> & q2 & ->).
      rewrite length_app in L1, L2. cbn in L1, L2. rewrite !take_app_length', !drop_app_length' by lia. cbn [map].
      assert (P : 10 ^ Z.of_nat (9 - fx) > 0) by (apply Z.lt_gt, Z.pow_pos_nonneg; lia). rewrite !memcmp_app by lia.
      cbn [memcmp]. rewrite !Z.div_mul by lia. by rewrite (Zmult_compare_compat_r q1 q2 _ P). }
  pose proof (lay_I _ _ _ _ _ _ Y1) as L1. pose proof (lay_I _ _ _ _ _ _ Y2) as L2.
  pose proof (lay_F _ _ _ _ _ _ Y1) as M1. pose proof (lay_F _ _ _ _ _ _ Y2) as M2.
  rewrite memcmp_app, E, <- memcmp_app by congruence. apply memcmp_words; [rewrite !length_app; congruence|..];
    apply words_app; split; by apply Y1 || apply Y2.
Qed.

(** C9: the bytes of two numbers of the same precision and scale, compared
    with [memcmp], are ordered like the numbers: less, equal or greater
    exactly as the values are, for all combinations of signs, with precision,
    scale and the digits before the point below 2^16 ([in_format]). *)
Theorem decimal_bin_memcmp d1 d2 precision scale : in_format d1 precision scale -> in_format d2 precision scale ->
  exists bytes1 bytes2, decimal2bin d1 precision scale = Some (E_DEC_OK, bytes1) /\
    decimal2bin d2 precision scale = Some (E_DEC_OK, bytes2) /\ memcmp bytes1 bytes2 = (value d1 ?= value d2)%Q.
Proof.
  intros H1 H2. destruct (written d1 _ _ H1) as (ix & i0 & f0 & fx & I1 & F1 & Ep & Es & Y1 & P1 & V1 & N1 & E1).
  destruct (written d2 _ _ H2) as (ix' & i0' & f0' & fx' & I2 & F2 & Ep' & Es' & Y2 & P2 & V2 & N2 & E2).
  pose proof (lay_ix _ _ _ _ _ _ Y1). pose proof (lay_fx _ _ _ _ _ _ Y1). pose proof (lay_ix _ _ _ _ _ _ Y2).
  pose proof (lay_fx _ _ _ _ _ _ Y2).
  assert (f0' = f0 /\ fx' = fx)%nat as [-> ->] by lia. assert (i0' = i0 /\ ix' = ix)%nat as [-> ->] by lia.
  do 2 eexists. split; [exact E1|]. split; [exact E2|].
  pose proof (lay_F _ _ _ _ _ _ Y1) as L1. pose proof (lay_F _ _ _ _ _ _ Y2) as L2. assert (EL : length F2 = length F1) by congruence.
  rewrite memcmp_encoded; [|by apply layout_fits..|].
  2: { intros E. apply (f_equal length) in E. rewrite length_app, int_widths_length, frac_widths_length in E.
       pose proof (lay_I _ _ _ _ _ _ Y1). cbn in E. lia. }
  rewrite !(memcmp_cells ix i0 f0 fx) by done. rewrite (value_compare (length F1)) by lia. rewrite EL in N2. rewrite N1, N2.
  destruct H1 as (W1 & _), H2 as (W2 & _). unfold signed.
  pose proof (scaled_nonneg (length F1) d1 W1). pose proof (scaled_nonneg (length F1) d2 W2).
  pose proof (wf_sign _ W1) as S1. pose proof (wf_sign _ W2) as S2. destruct (sign d1), (sign d2).
  - by rewrite Z.compare_opp.
  - pose proof (scaled_pos (length F1) d1 W1 (S1 eq_refl)). by rewrite (proj2 (Z.compare_lt_iff _ _)) by lia.
  - pose proof (scaled_pos (length F1) d2 W2 (S2 eq_refl)). by rewrite (proj2 (Z.compare_gt_iff _ _)) by lia.
  - done.
Qed.


(** 1234567890.1234 and -1234567890.1234, the example of the comment. *)
Definition bin_example (sg : bool) : decimal_t := mk_decimal 10 4 sg [1; 234567890; 123400000].

Lemma bin_example_format sg : in_format (bin_example sg) 14 4.
Proof.
  split; [destruct sg; apply wfb_sound; vm_compute; reflexivity|]. split; [done|]. split; [done|]. split; [lia|]. split; [cbn; lia|].
  destruct sg; vm_compute; reflexivity.
Qed.

Lemma decimal_bin_roundtrip_witness : exists t,
  decimal2bin (bin_example false) 14 4 = Some (E_DEC_OK, [129; 13; 251; 56; 210; 4; 210]) /\
  bin2decimal [129; 13; 251; 56; 210; 4; 210] (room 3) 14 4 = Some (E_DEC_OK, t) /\
  (value t == value (bin_example false))%Q.
Proof.
  destruct (decimal_bin_roundtrip (bin_example false) (room 3) 14 4 (bin_example_format false) ltac:(vm_compute; discriminate))
    as (bytes & t & E & _ & _ & R & _ & V).
  exists t. assert (X : bytes = [129; 13; 251; 56; 210; 4; 210]) by (vm_compute in E; injection E as <-; reflexivity).
  rewrite X in *. split; [exact E|]. split; [exact R|exact V].
Defined.

Lemma decimal_bin_memcmp_witness : exists bytes1 bytes2,
  decimal2bin (bin_example true) 14 4 = Some (E_DEC_OK, bytes1) /\
  decimal2bin (bin_example false) 14 4 = Some (E_DEC_OK, bytes2) /\ memcmp bytes1 bytes2 = Lt.
Proof.
  destruct (decimal_bin_memcmp (bin_example true) (bin_example false) 14 4 (bin_example_format true) (bin_example_format false))
    as (b1 & b2 & E1 & E2 & M).
  exists b1, b2. split; [exact E1|]. split; [exact E2|]. rewrite M. vm_compute. reflexivity.
Defined.

(** Digits that share the bytes of the scale are not cut off: 0.12 with a
    scale of one is written without an error, as 12 where one digit is
    expected, and cannot be read. *)
Lemma decimal2bin_keeps_digits :
  decimal2bin (mk_decimal 0 2 false [120000000]) 1 1 = Some (E_DEC_OK, [140]) /\
  bin2decimal [140] (room 1) 1 1 = Some (E_DEC_BAD_NUM, mk_decimal 1 0 false [0]).
Proof. vm_compute. split; reflexivity. Qed.

(** The first word is checked against one digit too many: 99 where one digit
    is expected is read without an error. *)
Lemma bin2decimal_first_word : bin2decimal [227] (room 1) 1 0 = Some (E_DEC_OK, mk_decimal 1 0 false [99]).
Proof. vm_compute. reflexivity. Qed.
End DecimalBinRead.
