(* ===== verification/DecimalMul.v ===== *)
(** * Fixed-point numbers: the multiplication is exact

    [decimal_mul] multiplies word by word into a buffer of zeros, then drops
    the zero words at the end of the fraction and in front of the integer. *)

From Stdlib Require Import QArith.
From S2P Require Import Prelude IntConvProofs Decimal DecimalProofs DecimalAdd DecimalCmp DecimalSub DecimalInt DecimalBinRead.
Import IntConvProofs Decimal DecimalProofs DecimalAdd DecimalCmp DecimalSub DecimalInt DecimalBinRead.

#[local] Open Scope Z_scope.

Module DecimalMul.

(** ** One row *)

Lemma ADD2_spec a b c : 0 <= a < B -> 0 <= b < B -> 0 <= c < B ->
  let '(w, k) := ADD2 a b c in 0 <= w < B /\ 0 <= k <= 2 /\ w + k * B = a + b + c.
Proof.
  intros Ha Hb Hc. unfold ADD2, DIG_BASE in *.
  destruct (Z.leb_spec 1000000000 (a + b + c)) as [H|H].
  - destruct (Z.leb_spec 1000000000 (a + b + c - 1000000000)) as [H'|H']; lia.
  - rewrite (proj2 (Z.leb_gt _ _)) by lia. lia.
Qed.

Lemma seg_insert_ge (l : list Z) i w s n : (s + n <= i)%nat -> seg (<[i:=w]> l) s n = seg l s n.
Proof.
  intros H. unfold seg. apply list_eq. intros j. destruct (decide (j < n)%nat) as [Hj|Hj].
  - rewrite !lookup_take_lt, !lookup_drop by done. apply list_lookup_insert_ne. lia.
  - rewrite !lookup_take_ge by lia. done.
Qed.

(** The digits of a word product. *)
Lemma product_step w0 w1 w2 c : 0 <= w0 < B -> 0 <= w1 < B -> 0 <= w2 < B -> 0 <= c < B ->
  let hi := Z.quot (w1 * w2) B in let lo := w1 * w2 - hi * B in
  let '(w, k) := ADD2 w0 lo c in 0 <= w < B /\ 0 <= k + hi < B /\ w + (k + hi) * B = w0 + w1 * w2 + c.
Proof.
  intros H0 H1 H2 Hc hi lo. assert (P : 0 <= w1 * w2 <= (B - 1) * (B - 1)) by (unfold DIG_BASE in *; nia).
  assert (Eh : hi = w1 * w2 / B) by (unfold hi; rewrite Z.quot_div_nonneg by (done || lia); done).
  pose proof (Z.mod_pos_bound (w1 * w2) B ltac:(done)) as M. pose proof (Z.div_mod (w1 * w2) B ltac:(done)) as D.
  rewrite <- Eh in D. assert (El : lo = (w1 * w2) mod B) by (unfold lo; lia).
  pose proof (ADD2_spec w0 lo c H0 ltac:(lia) Hc) as S. destruct (ADD2 w0 lo c) as [w k]. destruct S as (Bw & Bk & E).
  split; [done|]. set (p := w1 * w2) in *. clearbody p hi lo. unfold DIG_BASE in *. split; lia.
Qed.

Lemma mul_row_spec n w1 src q dst r c : 0 <= w1 < B -> 0 <= c < B -> (n <= q <= length src)%nat -> (n <= r <= length dst)%nat ->
  words_ok (take q src) -> words_ok (take r dst) ->
  exists ws c', mul_row n w1 src (Z.of_nat q - 1) dst (Z.of_nat r - 1) c =
      Some (stored dst r ws, Z.of_nat (r - n) - 1, c') /\
    length ws = n /\ words_ok ws /\ 0 <= c' < B /\
    num ws + c' * B ^ Z.of_nat n = num (seg dst (r - n) n) + w1 * num (seg src (q - n) n) + c.
Proof.
  intros H1. revert q dst r c. induction n as [|n IH]; intros q dst r c Hc Hq Hr Wq Wr.
  { exists [], c. rewrite !Nat.sub_0_r. cbn [mul_row]. rewrite stored_nil by lia. change (B ^ Z.of_nat 0) with 1.
    change (seg dst r 0) with (@nil Z). change (seg src q 0) with (@nil Z). rewrite num_nil. split_and!; try done; try lia. apply words_nil. }
  destruct q as [|q]; [lia|]. destruct r as [|r]; [lia|]. cbn [mul_row]. rewrite !rd_pred.
  destruct (lookup_lt_is_Some_2 src q) as [w2 E2]; [lia|]. destruct (lookup_lt_is_Some_2 dst r) as [w0 E0]; [lia|].
  rewrite E2, E0. cbn [mbind option_bind].
  pose proof (product_step w0 w1 w2 c (word_at _ _ _ Wr E0) H1 (word_at _ _ _ Wq E2) Hc) as S. cbn zeta in S.
  destruct (ADD2 w0 (w1 * w2 - Z.quot (w1 * w2) DIG_BASE * DIG_BASE) c) as [w k]. destruct S as (Bw & Bk & E).
  rewrite wr_pred by lia. cbn [mbind option_bind]. rewrite !pred_of_nat.
  destruct (IH q (<[r:=w]> dst) r (k + Z.quot (w1 * w2) DIG_BASE)) as (ws & c' & -> & Lw & Ww & Bc & En);
    [done|lia|rewrite length_insert; lia|by apply words_pred| |].
  { rewrite take_insert_ge by lia. by apply words_pred. }
  exists (ws ++ [w]), c'. rewrite stored_step by lia. cbn [Nat.sub]. split; [done|].
  split; [rewrite length_app; cbn; lia|]. split; [by apply words_snoc|]. split; [done|].
  rewrite seg_insert_ge in En by lia.
  rewrite (seg_snoc dst _ _ w0), (seg_snoc src _ _ w2) by (rewrite <- ?E0, <- ?E2; f_equal; lia).
  rewrite !num_snoc, Nat2Z.inj_succ, Z.pow_succ_r by lia. set (Y := B ^ Z.of_nat n) in *. clearbody Y.
  set (u := num ws) in *. set (x := num (seg dst (r - n) n)) in *. set (y := num (seg src (q - n) n)) in *. clearbody u x y.
  replace ((u * B + w) + c' * (B * Y)) with ((u + c' * Y) * B + w) by ring. rewrite En.
  replace ((x + w1 * y + (k + Z.quot (w1 * w2) DIG_BASE)) * B + w) with ((x + w1 * y) * B + (w + (k + Z.quot (w1 * w2) B) * B)) by ring.
  rewrite E. ring.
Qed.

(** ** The carry *)

Lemma mul_carry_spec h fuel dst c : (h < fuel)%nat -> (h <= length dst)%nat -> words_ok (take h dst) -> 0 <= c <= 1 ->
  num (take h dst) + c < B ^ Z.of_nat h ->
  exists ws, mul_carry fuel dst (Z.of_nat h - 1) c = Some (true, ws ++ drop h dst) /\
    length ws = h /\ words_ok ws /\ num ws = num (take h dst) + c.
Proof.
  revert fuel dst c. induction h as [|h IH]; intros fuel dst c Hf Hl W Hc Hb; (destruct fuel as [|fuel]; [lia|]); cbn [mul_carry].
  { rewrite take_0, num_nil in *. change (B ^ Z.of_nat 0) with 1 in Hb. replace c with 0 by lia.
    exists []. rewrite drop_0. by split_and!. }
  destruct (Z.eqb_spec c 0) as [->|Hn].
  { exists (take (S h) dst). rewrite take_drop, length_take, Z.add_0_r. split_and!; try done. lia. }
  rewrite (proj2 (Z.ltb_ge _ _)) by lia. rewrite rd_pred. destruct (lookup_lt_is_Some_2 dst h) as [w0 E0]; [lia|]. rewrite E0.
  cbn [mbind option_bind]. pose proof (ADD_carries w0 0 c (word_at _ _ _ W E0) ltac:(unfold DIG_BASE; lia) Hc) as S.
  destruct (ADD w0 0 c) as [w k]. destruct S as (Bw & Bk & E). rewrite wr_pred by lia. cbn [mbind option_bind].
  rewrite pred_of_nat. rewrite (take_S_r _ _ _ E0), num_snoc in Hb. rewrite Nat2Z.inj_succ, Z.pow_succ_r in Hb by lia.
  destruct (IH fuel (<[h:=w]> dst) k) as (ws & -> & Lw & Ww & Nw).
  { lia. } { rewrite length_insert. lia. } { rewrite take_insert_ge by lia. by apply words_pred. } { done. }
  { rewrite take_insert_ge by lia. set (Y := B ^ Z.of_nat h) in *. clearbody Y. unfold DIG_BASE in *. nia. }
  exists (ws ++ [w]). rewrite take_insert_ge in Nw by lia. split.
  { rewrite <- app_assoc. do 3 f_equal. rewrite (drop_S _ w) by (apply list_lookup_insert_eq; lia). by rewrite drop_insert_lt by lia. }
  split; [rewrite length_app; cbn; lia|]. split; [by apply words_snoc|].
  rewrite (take_S_r _ _ _ E0), !num_snoc, Nw. lia.
Qed.


(** The carry of a row, added in front of it. *)
Lemma row_carry_spec h dst c : (h <= length dst)%nat -> words_ok (take h dst) -> 0 <= c < B ->
  num (take h dst) + c < B ^ Z.of_nat h ->
  exists dst' k, (if c =? 0 then Some (true, dst, c) else
      if Z.of_nat h - 1 <? 0 then Some (false, dst, c) else
      w0 ← rd dst (Z.of_nat h - 1);
      let '(w, carry) := ADD2 w0 0 c in
      d ← wr dst (Z.of_nat h - 1) w; Some (true, d, carry)) = Some (true, dst', k) /\
    exists ws, mul_carry (S (length dst')) dst' (Z.of_nat h - 1 - 1) k = Some (true, ws ++ drop h dst) /\
      length ws = h /\ words_ok ws /\ num ws = num (take h dst) + c.
Proof.
  intros Hl W Hc Hb. destruct (Z.eqb_spec c 0) as [->|Hn].
  { exists dst, 0. split; [done|]. exists (take h dst). cbn [mul_carry Z.eqb]. rewrite take_drop, length_take, Z.add_0_r.
    split_and!; try done. lia. }
  destruct h as [|h].
  { rewrite take_0, num_nil in Hb. change (B ^ Z.of_nat 0) with 1 in Hb. lia. }
  rewrite (proj2 (Z.ltb_ge _ _)) by lia. rewrite rd_pred. destruct (lookup_lt_is_Some_2 dst h) as [w0 E0]; [lia|]. rewrite E0.
  cbn [mbind option_bind]. pose proof (word_at _ _ _ W E0) as B0.
  pose proof (ADD2_spec w0 0 c B0 ltac:(unfold DIG_BASE; lia) Hc) as S.
  destruct (ADD2 w0 0 c) as [w k]. destruct S as (Bw & Bk & E). rewrite wr_pred by lia. cbn [mbind option_bind].
  do 2 eexists. split; [done|]. rewrite pred_of_nat, length_insert.
  rewrite (take_S_r _ _ _ E0), num_snoc in Hb |- *. rewrite Nat2Z.inj_succ, Z.pow_succ_r in Hb by lia.
  destruct (mul_carry_spec h (S (length dst)) (<[h:=w]> dst) k) as (ws & -> & Lw & Ww & Nw).
  { lia. } { rewrite length_insert. lia. } { rewrite take_insert_ge by lia. by apply words_pred. }
  { unfold DIG_BASE in *. lia. }
  { rewrite take_insert_ge by lia. set (Y := B ^ Z.of_nat h) in *. clearbody Y. unfold DIG_BASE in *. nia. }
  rewrite take_insert_ge in Nw by lia. exists (ws ++ [w]). split.
  { rewrite <- app_assoc. do 3 f_equal. rewrite (drop_S _ w) by (apply list_lookup_insert_eq; lia). by rewrite drop_insert_lt by lia. }
  split; [rewrite length_app; cbn; lia|]. split; [by apply words_snoc|]. rewrite num_snoc, Nw. lia.
Qed.

(** ** All rows *)

(** [num] of the first words, split. *)
Lemma num_take_split l a b : (a + b <= length l)%nat ->
  num (take (a + b) l) = num (take a l) * B ^ Z.of_nat b + num (seg l a b).
Proof. intros H. rewrite <- !seg_take, seg_plus, num_app, (seg_length l (0 + a)) by lia. done. Qed.

(** A row with its carry. *)
Definition mul_one (w1 : Z) (src2 : list Z) (start2 : Z) (cols : nat) (dst : list Z) (start0 : Z) : option (bool * list Z) :=
  '(dst, buf0, carry) ← mul_row cols w1 src2 start2 dst start0 0;
  '(ok, dst, carry) ←
    (if carry =? 0 then Some (true, dst, carry) else
     if buf0 <? 0 then Some (false, dst, carry) else
     w0 ← rd dst buf0;
     let '(w, carry) := ADD2 w0 0 carry in
     dst ← wr dst buf0 w; Some (true, dst, carry));
  if negb ok then Some (false, dst) else mul_carry (S (length dst)) dst (buf0 - 1) carry.

Lemma mul_loop_S n src1 buf1 src2 start2 cols dst start0 :
  mul_loop (S n) src1 buf1 src2 start2 cols dst start0 =
  (w1 ← rd src1 buf1; '(ok, dst) ← mul_one w1 src2 start2 cols dst start0;
   if negb ok then Some (false, dst) else mul_loop n src1 (buf1 - 1) src2 start2 cols dst (start0 - 1)).
Proof.
  cbn [mul_loop]. destruct (rd src1 buf1) as [w1|]; [|done]. cbn [mbind option_bind]. unfold mul_one.
  destruct (mul_row cols w1 src2 start2 dst start0 0) as [[[d b0] c]|]; [|done]. cbn [mbind option_bind].
  destruct (if c =? 0 then _ else _) as [[[[] d'] c']|]; done.
Qed.

Lemma mul_one_spec w1 src2 q2 cols dst r : 0 <= w1 < B -> (cols <= q2 <= length src2)%nat -> (cols <= r <= length dst)%nat ->
  words_ok (take q2 src2) -> words_ok (take r dst) ->
  let v := num (take r dst) + w1 * num (seg src2 (q2 - cols) cols) in
  v < B ^ Z.of_nat r ->
  exists ws, mul_one w1 src2 (Z.of_nat q2 - 1) cols dst (Z.of_nat r - 1) = Some (true, ws ++ drop r dst) /\
    length ws = r /\ words_ok ws /\ num ws = v.
Proof.
  intros B1 H2 Hr W2 Wd v Hv. unfold mul_one.
  destruct (mul_row_spec cols w1 src2 q2 dst r 0 B1) as (ws & c & -> & Lw & Ww & Bc & En); try done; try lia.
  cbn [mbind option_bind]. set (y := num (seg src2 (q2 - cols) cols)) in *. set (h := (r - cols)%nat) in *.
  assert (Eh : r = (h + cols)%nat) by lia.
  assert (Es : stored dst r ws = take h dst ++ ws ++ drop r dst) by (unfold stored; by rewrite Lw).
  assert (Th : take h (stored dst r ws) = take h dst) by (rewrite Es; apply take_app_length'; rewrite length_take; lia).
  assert (Dh : drop h (stored dst r ws) = ws ++ drop r dst) by (rewrite Es; apply drop_app_length'; rewrite length_take; lia).
  assert (Ev : (num (take h dst) + c) * B ^ Z.of_nat cols + num ws = v).
  { subst v. rewrite Eh, num_take_split by lia. clear -En. lia. }
  destruct (row_carry_spec h (stored dst r ws) c) as (dst' & k & -> & us & Eu & Lu & Wu & Nu).
  { rewrite stored_length by lia. lia. } { rewrite Th. apply (words_take _ _ r); [done|lia]. } { done. }
  { rewrite Th. apply (Z.mul_lt_mono_pos_r (B ^ Z.of_nat cols)); [apply Bpow_pos|].
    rewrite <- Z.pow_add_r, <- Nat2Z.inj_add, <- Eh by (clear; lia). pose proof (num_bounds ws Ww) as Bws. clear -Ev Hv Bws. lia. }
  cbn [mbind option_bind negb]. rewrite Eu, Dh. exists (us ++ ws). rewrite <- app_assoc. split; [done|].
  split; [rewrite length_app; lia|]. split; [by apply words_app|]. rewrite num_app, Nu, Th, Lw. done.
Qed.

Lemma mul_loop_spec n src1 q1 src2 q2 cols dst r : (n <= q1 <= length src1)%nat -> (cols <= q2 <= length src2)%nat ->
  (n + cols <= S r)%nat -> (r <= length dst)%nat ->
  words_ok (take q1 src1) -> words_ok (take q2 src2) -> words_ok (take r dst) ->
  let v := num (take r dst) + num (seg src1 (q1 - n) n) * num (seg src2 (q2 - cols) cols) in
  v < B ^ Z.of_nat r ->
  exists ws, mul_loop n src1 (Z.of_nat q1 - 1) src2 (Z.of_nat q2 - 1) cols dst (Z.of_nat r - 1) = Some (true, ws ++ drop r dst) /\
    length ws = r /\ words_ok ws /\ num ws = v.
Proof.
  revert q1 dst r. induction n as [|n IH]; intros q1 dst r H1 H2 Hn Hr W1 W2 Wd v Hv; subst v.
  { exists (take r dst). cbn [mul_loop]. rewrite take_drop, length_take. change (seg src1 (q1 - 0) 0) with (@nil Z).
    rewrite num_nil. split_and!; try done; lia. }
  destruct q1 as [|q1]; [lia|]. rewrite mul_loop_S, rd_pred. destruct (lookup_lt_is_Some_2 src1 q1) as [w1 E1]; [lia|].
  rewrite E1. cbn [mbind option_bind]. pose proof (word_at _ _ _ W1 E1) as B1. set (y := num (seg src2 (q2 - cols) cols)) in *.
  rewrite (seg_snoc src1 _ _ w1), num_snoc in Hv |- * by (rewrite <- E1; f_equal; lia).
  replace (S q1 - S n)%nat with (q1 - n)%nat in * by lia. set (x := num (seg src1 (q1 - n) n)) in *.
  assert (X0 : 0 <= x) by (apply num_bounds, (seg_words _ _ _ (S q1)); [done|lia]).
  assert (Y0 : 0 <= y) by (apply num_bounds, (seg_words _ _ _ q2); [done|lia]).
  destruct (mul_one_spec w1 src2 q2 cols dst r B1 H2) as (vs & -> & Lv & Wv & Nv); try done; [lia| |].
  { fold y. assert (H : 0 <= x * B * y) by (unfold DIG_BASE; nia). clear -Hv H. lia. }
  cbn [mbind option_bind negb]. fold y in Nv. destruct n as [|n].
  { exists vs. cbn [mul_loop]. split; [done|]. split; [done|]. split; [done|]. rewrite Nv. subst x.
    change (seg src1 (q1 - 0) 0) with (@nil Z). rewrite num_nil. ring. }
  destruct r as [|r]; [lia|]. destruct vs as [|z V _] using rev_ind; [done|].
  rewrite length_app in Lv. cbn [length] in Lv. apply words_app in Wv as [WV Wz]. apply Forall_cons in Wz as [Bz _].
  rewrite num_snoc in Nv. rewrite <- app_assoc. cbn [app]. rewrite !pred_of_nat.
  assert (TV : take r (V ++ z :: drop (S r) dst) = V) by (apply take_app_length'; lia).
  assert (DV : drop r (V ++ z :: drop (S r) dst) = z :: drop (S r) dst) by (apply drop_app_length'; lia).
  destruct (IH q1 (V ++ z :: drop (S r) dst) r) as (us2 & E2 & L2 & W2' & N2); try lia; try done.
  { rewrite length_app. cbn [length]. rewrite length_drop. lia. } { by apply words_pred. } { by rewrite TV. }
  { rewrite TV. fold x y. rewrite Nat2Z.inj_succ, Z.pow_succ_r in Hv by (clear; lia).
    assert ((num V + x * y) * B + z < B * B ^ Z.of_nat r) as Hz by (clear -Nv Hv; lia). clear -Hz Bz. unfold DIG_BASE in *. nia. }
  rewrite TV in N2. fold x y in N2. rewrite E2, DV. exists (us2 ++ [z]). rewrite <- app_assoc. split; [done|].
  split; [rewrite length_app; cbn; lia|]. split; [by apply words_snoc|]. rewrite num_snoc, N2. clear -Nv. lia.
Qed.

(** ** Zero words at both ends *)

Lemma fill_spec n b p x : (p + n <= length b)%nat ->
  fill n b (Z.of_nat p) x = Some (take p b ++ repeat x n ++ drop (p + n) b, Z.of_nat (p + n)).
Proof.
  revert b p. induction n as [|n IH]; intros b p Hl; cbn [fill].
  { rewrite Nat.add_0_r. cbn [repeat app]. by rewrite take_drop. }
  rewrite wr_nat by lia. cbn [mbind option_bind]. replace (Z.of_nat p + 1) with (Z.of_nat (S p)) by lia.
  rewrite IH by (rewrite length_insert; lia). rewrite take_snoc_insert, drop_insert_lt by lia.
  replace (p + S n)%nat with (S p + n)%nat by lia. by rewrite <- app_assoc.
Qed.

Lemma trailing_words_spec fuel b i f : (f < fuel)%nat -> (i + f <= length b)%nat ->
  exists k, trailing_words fuel b (Z.of_nat i) (Z.of_nat f) = Some (Z.of_nat k) /\ (k <= f)%nat /\
    seg b (i + k) (f - k) = repeat 0 (f - k) /\ ((0 < k)%nat -> exists w, b !! (i + k - 1)%nat = Some w /\ w ≠ 0).
Proof.
  revert f. induction fuel as [|fuel IH]; intros f Hf Hl; [lia|]. cbn [trailing_words].
  destruct f as [|f]; [exists 0%nat; split_and!; try done; lia|]. rewrite (proj2 (Z.ltb_lt _ _)) by lia.
  replace (Z.of_nat i + Z.of_nat (S f) - 1) with (Z.of_nat (i + f)) by lia. rewrite rd_nat.
  destruct (lookup_lt_is_Some_2 b (i + f)) as [w Hw]; [lia|]. rewrite Hw. cbn [mbind option_bind].
  destruct (Z.eqb_spec w 0) as [->|Hn].
  - rewrite pred_of_nat. destruct (IH f) as (k & E & Hk & Hz & Hd); [lia..|]. exists k. split; [done|]. split; [lia|].
    split; [|done]. replace (S f - k)%nat with (S (f - k)) by lia.
    rewrite (seg_snoc _ _ _ 0) by (rewrite <- Hw; f_equal; lia). rewrite Hz. symmetry. apply (repeat_cons (f - k) 0).
  - exists (S f). split; [done|]. split; [done|]. rewrite Nat.sub_diag. split; [done|]. intros _. exists w.
    by replace (i + S f - 1)%nat with (i + f)%nat by lia.
Qed.

Lemma heading_words_spec fuel b p i : (i < fuel)%nat -> (p + i <= length b)%nat -> (p < length b)%nat ->
  exists h w, heading_words fuel b (Z.of_nat p) (9 * Z.of_nat i) = Some (Z.of_nat (p + h), 9 * Z.of_nat (i - h)) /\
    (h <= i - 1)%nat /\ seg b p h = repeat 0 h /\ b !! (p + h)%nat = Some w /\ (w = 0 -> (i - h <= 1)%nat).
Proof.
  revert p i. induction fuel as [|fuel IH]; intros p i Hf Hl Hp; [lia|]. cbn [heading_words]. rewrite rd_nat.
  destruct (lookup_lt_is_Some_2 b p Hp) as [w Hw]. rewrite Hw. cbn [mbind option_bind].
  destruct ((w =? 0) && (DIG_PER_DEC1 <? 9 * Z.of_nat i)) eqn:Ec.
  - apply andb_true_iff in Ec as [->%Z.eqb_eq Hi%Z.ltb_lt]. unfold DIG_PER_DEC1 in *.
    replace (Z.of_nat p + 1) with (Z.of_nat (S p)) by lia. replace (9 * Z.of_nat i - 9) with (9 * Z.of_nat (i - 1)) by lia.
    destruct (IH (S p) (i - 1)%nat) as (h & w & E & Hh & Hz & Hw' & H1); [lia..|]. exists (S h), w.
    rewrite E. split; [do 2 f_equal; lia|]. split; [lia|]. split; [by rewrite (seg_cons _ _ _ _ Hw), Hz|].
    replace (p + S h)%nat with (S p + h)%nat by lia. split; [done|]. lia.
  - exists 0%nat, w. rewrite Nat.add_0_r, Nat.sub_0_r. split; [done|]. split; [lia|]. split; [done|]. split; [done|].
    intros ->. cbn [Z.eqb andb] in Ec. apply Z.ltb_ge in Ec. unfold DIG_PER_DEC1 in Ec. lia.
Qed.

Lemma move_words_spec n b c p : (c <= p)%nat -> (p + n <= length b)%nat ->
  exists b', move_words n b (Z.of_nat c) (Z.of_nat p) = Some b' /\ take (c + n) b' = take c b ++ seg b p n /\ length b' = length b.
Proof.
  revert b c p. induction n as [|n IH]; intros b c p Hc Hl; cbn [move_words].
  { exists b. rewrite Nat.add_0_r. change (seg b p 0) with (@nil Z). by rewrite app_nil_r. }
  rewrite rd_nat. destruct (lookup_lt_is_Some_2 b p) as [w Hw]; [lia|]. rewrite Hw. cbn [mbind option_bind].
  rewrite wr_nat by lia. cbn [mbind option_bind]. replace (Z.of_nat c + 1) with (Z.of_nat (S c)) by lia.
  replace (Z.of_nat p + 1) with (Z.of_nat (S p)) by lia.
  destruct (IH (<[c:=w]> b) (S c) (S p)) as (b' & E & T & L); [lia|rewrite length_insert; lia|].
  exists b'. rewrite length_insert in L. split; [done|]. split; [|done].
  replace (c + S n)%nat with (S c + n)%nat by lia. rewrite T, take_snoc_insert, <- app_assoc by lia. f_equal.
  rewrite (seg_cons _ _ _ _ Hw). cbn [app]. f_equal. unfold seg. by rewrite drop_insert_lt by lia.
Qed.

(** ** The end of [decimal_mul] *)

(** The words of the product, the digits behind the point. *)
Definition mul_frac (b : list Z) (intg0 tfrac : Z) : option (Z * Z) :=
  let frac0 := ROUND_UP tfrac in
  if 0 <? frac0 then
    w ← rd b (intg0 + frac0 - 1);
    if w =? 0 then f ← trailing_words (S (Z.to_nat frac0)) b intg0 (frac0 - 1); Some (f, DIG_PER_DEC1 * f)
    else Some (frac0, tfrac)
  else Some (frac0, tfrac).

Lemma divide_low x y Y : 0 <= y < Y -> (Y | x * Y + y) -> y = 0.
Proof.
  intros Hy H. apply Z.divide_add_cancel_r in H; [|by apply Z.divide_factor_r].
  destruct (Z.eq_dec y 0) as [|Hn]; [done|]. apply Z.divide_pos_le in H; lia.
Qed.

(** Behind the digits of the fraction there are zero words only. *)
Lemma frac_zero_words D i F f tfrac : (i + F <= length D)%nat -> words_ok (take (i + F) D) -> (f <= F)%nat ->
  tfrac <= 9 * Z.of_nat f -> (10 ^ (9 * Z.of_nat F - tfrac) | num (take (i + F) D)) ->
  num (take (i + F) D) = num (take (i + f) D) * B ^ Z.of_nat (F - f) /\
  (0 <= 9 * Z.of_nat f - tfrac -> (10 ^ (9 * Z.of_nat f - tfrac) | num (take (i + f) D))).
Proof.
  intros Hl W Hf Ht Hd. replace (i + F)%nat with (i + f + (F - f))%nat in * by lia.
  rewrite num_take_split in * by lia. pose proof (num_bounds (seg D (i + f) (F - f))) as Bs.
  rewrite seg_length in Bs by lia. specialize (Bs ltac:(apply (seg_words _ _ _ (i + f + (F - f))); [done|lia])).
  assert (Z0 : num (seg D (i + f) (F - f)) = 0).
  { eapply (divide_low (num (take (i + f) D))); [exact Bs|]. eapply Z.divide_trans; [|exact Hd].
    rewrite B_pow10. exists (10 ^ (9 * Z.of_nat F - tfrac - 9 * Z.of_nat (F - f))). rewrite <- Z.pow_add_r by lia. f_equal. lia. }
  rewrite Z0, Z.add_0_r in *. split; [done|]. intros H0.
  replace (9 * Z.of_nat F - tfrac) with ((9 * Z.of_nat f - tfrac) + 9 * Z.of_nat (F - f)) in Hd by lia.
  rewrite Z.pow_add_r, <- B_pow10 in Hd by lia. apply Z.mul_divide_cancel_r in Hd; [done|]. pose proof (Bpow_pos (F - f)). lia.
Qed.

Lemma word_of_zero D n i w : words_ok (take n D) -> num (take n D) = 0 -> (i < n)%nat -> D !! i = Some w -> w = 0.
Proof.
  intros W N Hi E. destruct (Z.eq_dec w 0) as [|Hn]; [done|]. pose proof (num_pos (take n D) i w W) as P.
  rewrite lookup_take_lt in P by done. specialize (P E Hn). lia.
Qed.

Lemma mul_frac_spec D i F tfrac : (i + F <= length D)%nat -> words_ok (take (i + F) D) -> 0 <= tfrac ->
  ROUND_UP tfrac <= Z.of_nat F -> (10 ^ (9 * Z.of_nat F - tfrac) | num (take (i + F) D)) ->
  exists k tf, mul_frac D (Z.of_nat i) tfrac = Some (Z.of_nat k, tf) /\ (k <= F)%nat /\ 0 <= tf /\ ROUND_UP tf = Z.of_nat k /\
    num (take (i + F) D) = num (take (i + k) D) * B ^ Z.of_nat (F - k) /\
    (10 ^ (9 * Z.of_nat k - tf) | num (take (i + k) D)) /\ (num (take (i + F) D) = 0 -> tf = 0).
Proof.
  intros Hl W Ht Hr Hd. pose proof (ROUND_UP_bounds tfrac Ht) as R. set (f := Z.to_nat (ROUND_UP tfrac)).
  assert (Ef : ROUND_UP tfrac = Z.of_nat f) by lia. unfold mul_frac. rewrite Ef in *. clearbody f. cbn zeta.
  destruct (frac_zero_words D i F f tfrac Hl W ltac:(lia) ltac:(lia) Hd) as [Z1 Z2].
  destruct (Z.ltb_spec 0 (Z.of_nat f)) as [Hf|Hf].
  2: { exists f, tfrac. split_and!; try done; try lia. apply Z2. lia. }
  replace (Z.of_nat i + Z.of_nat f - 1) with (Z.of_nat (i + (f - 1))) by lia. rewrite rd_nat.
  destruct (lookup_lt_is_Some_2 D (i + (f - 1))) as [w Hw]; [lia|]. rewrite Hw. cbn [mbind option_bind].
  destruct (Z.eqb_spec w 0) as [->|Hn].
  2: { exists f, tfrac. split_and!; try done; try lia; [apply Z2; lia|]. intros N.
       destruct Hn. apply (word_of_zero D (i + F) (i + (f - 1)) w W N); [lia|done]. }
  replace (Z.of_nat f - 1) with (Z.of_nat (f - 1)) by lia. rewrite Nat2Z.id.
  destruct (trailing_words_spec (S f) D i (f - 1)) as (k & -> & Hk & Hz & Hd'); [lia..|]. cbn [mbind option_bind].
  exists k, (DIG_PER_DEC1 * Z.of_nat k). unfold DIG_PER_DEC1. split; [done|]. split; [lia|]. split; [lia|].
  split; [rewrite ROUND_UP_div by lia; dlia|]. split; [|split].
  - rewrite Z1. assert (E : num (take (i + f) D) = num (take (i + k) D) * B ^ Z.of_nat (f - k)).
    { replace (i + f)%nat with (i + k + (f - k))%nat by lia. rewrite num_take_split by lia.
      replace (f - k)%nat with (S (f - 1 - k)) at 2 by lia.
      rewrite (seg_snoc _ _ _ 0) by (rewrite <- Hw; f_equal; lia). rewrite Hz, num_snoc, num_zeros. lia. }
    rewrite E, <- Z.mul_assoc, <- Z.pow_add_r by lia. do 2 f_equal. lia.
  - replace (9 * Z.of_nat k - 9 * Z.of_nat k) with 0 by lia. apply Z.divide_1_l.
  - intros N. destruct k as [|k]; [done|]. destruct Hd' as (w & Ew & Hw0); [lia|]. destruct Hw0.
    apply (word_of_zero D (i + F) (i + S k - 1) w W N); [lia|done].
Qed.

Definition mul_trim (b : list Z) (intg0 frac0 tfrac : Z) (sg : bool) : option (Z * decimal_t) :=
  '(h, tintg) ← heading_words (S (length b)) b 0 (intg0 * DIG_PER_DEC1);
  b ← (if 0 <? h then move_words (Z.to_nat (intg0 + frac0 - h)) b 0 h else Some b);
  w0 ← rd b 0;
  if sg && (tfrac =? 0) && (w0 =? 0)
  then d ← decimal_make_zero (mk_decimal tintg tfrac sg b); Some (E_DEC_OK, d)
  else Some (E_DEC_OK, mk_decimal tintg tfrac sg b).

(** The result of a multiplication: a number, or a zero without digits. *)
Definition product (t : decimal_t) : Prop := wf t \/ intg t = 0 /\ frac t = 0 /\ sign t = false.

Lemma trimmed D i k : (i + k <= length D)%nat -> (1 <= length D)%nat ->
  exists h w b', (h <= i - 1)%nat /\ seg D 0 h = repeat 0 h /\ D !! h = Some w /\ (w = 0 -> (i - h <= 1)%nat) /\
    take (i + k - h) b' = seg D h (i + k - h) /\ length b' = length D /\ b' !! 0%nat = Some w /\
    heading_words (S (length D)) D 0 (9 * Z.of_nat i) = Some (Z.of_nat h, 9 * Z.of_nat (i - h)) /\
    (if 0 <? Z.of_nat h then move_words (i + k - h) D 0 (Z.of_nat h) else Some D) = Some b'.
Proof.
  intros Hl H1. destruct (heading_words_spec (S (length D)) D 0 i) as (h & w & E & Hh & Hz & Hw & Hi); [lia..|].
  cbn [Nat.add] in E, Hw. change (Z.of_nat 0) with 0 in E. destruct (decide (h = 0)%nat) as [->|Hn].
  - exists 0%nat, w, D. rewrite seg_take. by split_and!.
  - destruct (move_words_spec (i + k - h) D 0 h) as (b' & E' & T & L); [lia..|]. cbn [Nat.add] in T. rewrite take_0 in T. cbn [app] in T.
    exists h, w, b'. rewrite (proj2 (Z.ltb_lt _ _)) by lia. split_and!; try done.
    rewrite <- (lookup_take_lt b' (i + k - h)) by lia. rewrite T, seg_lookup by lia. by rewrite Nat.add_0_r.
Qed.

Lemma mul_trim_spec D i k tf sg : (i + k <= length D)%nat -> (1 <= length D)%nat -> words_ok (take (i + k) D) ->
  0 <= tf -> ROUND_UP tf = Z.of_nat k -> (10 ^ (9 * Z.of_nat k - tf) | num (take (i + k) D)) ->
  (num (take (i + k) D) = 0 -> tf = 0 /\ forall w, D !! 0%nat = Some w -> w = 0) ->
  exists t, mul_trim D (Z.of_nat i) (Z.of_nat k) tf sg = Some (E_DEC_OK, t) /\ product t /\ (fw t <= k)%nat /\
    signed (sign t) (scaled k t) = signed sg (num (take (i + k) D)) /\ length (buf t) = length D.
Proof.
  intros Hl H1 W Ht Rt Hd H0. destruct (trimmed D i k Hl H1) as (h & w & b' & Hh & Hz & Hw & Hi & T & L & B0 & E1 & E2).
  unfold mul_trim. replace (Z.of_nat i * DIG_PER_DEC1) with (9 * Z.of_nat i) by (unfold DIG_PER_DEC1; lia).
  rewrite E1. cbn [mbind option_bind]. replace (Z.to_nat (Z.of_nat i + Z.of_nat k - Z.of_nat h)) with (i + k - h)%nat by lia.
  rewrite E2. cbn [mbind option_bind]. change (rd b' 0) with (b' !! 0%nat). rewrite B0. cbn [mbind option_bind].
  set (ws := seg D h (i + k - h)) in *. assert (Lw : length ws = (i + k - h)%nat) by (apply seg_length; lia).
  assert (Ww : words_ok ws) by (apply (seg_words _ _ _ (i + k)); [done|lia]).
  assert (N : num (take (i + k) D) = num ws).
  { rewrite <- seg_take, (seg_split D 0 h) by lia. by rewrite Hz, num_app, num_zeros. }
  assert (Hwz : num ws = 0 -> tf = 0 /\ w = 0).
  { intros Hnw. rewrite N in H0. destruct (H0 Hnw) as [-> Hw0]. split; [done|]. destruct (decide (h = 0)%nat) as [->|Hn]; [by apply Hw0|].
    apply (word_of_zero D (i + k) h w W); [by rewrite N|lia|done]. }
  destruct (sg && (tf =? 0) && (w =? 0)) eqn:Ec.
  - apply andb_true_iff in Ec as [Ec ->%Z.eqb_eq]. apply andb_true_iff in Ec as [_ ->%Z.eqb_eq].
    assert (k = 0)%nat as -> by (change (ROUND_UP 0) with 0 in Rt; lia). specialize (Hi eq_refl).
    assert (Nz : num ws = 0).
    { subst ws. destruct (i + 0 - h)%nat as [|[|n]] eqn:El; [done| |lia]. rewrite (seg_cons _ _ _ _ Hw). done. }
    destruct (make_zero_exact 0 (mk_decimal (9 * Z.of_nat (i - h)) 0 sg b')) as (t & Et & Wt & Ft & Vt & Lt); [cbn; lia|].
    exists t. rewrite Et, Vt, N, Nz, Lt. cbn [buf]. split; [done|]. split; [by left|]. split; [done|]. split; [by destruct sg|done].
  - eexists. split; [done|]. assert (Eb : b' = ws ++ drop (i + k - h) b') by (rewrite <- T; symmetry; apply take_drop).
    assert (Sg : sg = true -> num ws ≠ 0).
    { intros -> Hnw. destruct (Hwz Hnw) as [-> ->]. done. }
    destruct (decide (i + k - h = 0)%nat) as [Hn|Hn].
    + assert (i = 0 /\ k = 0)%nat as [-> ->] by lia. change (9 * Z.of_nat (0 - h)) with 0.
      assert (Nz : num ws = 0) by (destruct ws; [done|cbn in Lw; lia]).
      destruct (Hwz Nz) as [-> ->]. rewrite N, Nz. split.
      { right. split_and!; try done. cbn. destruct sg; [|done]. by destruct (Sg eq_refl). }
      split; [done|]. split; [|done]. unfold scaled, mag, words, signed. cbn. by destruct sg.
    + destruct (wf_result (i - h) tf sg ws (drop (i + k - h) b')) as (Wt & Mt & Ft); try done; try lia.
      { rewrite Rt. by rewrite N in Hd. }
      rewrite <- Eb in Wt, Mt, Ft. rewrite (Z.mul_comm _ 9) in Wt, Mt, Ft. split; [by left|]. rewrite Ft, Rt, Nat2Z.id. split; [done|].
      split; [|done]. unfold scaled. rewrite Mt, Ft, Rt, Nat2Z.id, Nat.sub_diag, N. cbn [sign]. unfold signed.
      change (B ^ Z.of_nat 0) with 1. by rewrite Z.mul_1_r.
Qed.

(** ** The theorem *)

Lemma decimal_mul_step a b to : wf a -> wf b -> decimal_result_size_mul a b <= len to ->
  let i := Z.to_nat (ROUND_UP (intg a + intg b)) in let F := (fw a + fw b)%nat in
  decimal_mul a b to =
  ('(ok, D) ← mul_loop (iw a + fw a) (buf a) (Z.of_nat (iw a + fw a) - 1) (buf b) (Z.of_nat (iw b + fw b) - 1) (iw b + fw b)
                (repeat 0 (i + F) ++ drop (i + F) (buf to)) (Z.of_nat (i + F) - 1);
   if negb ok then Some (E_DEC_OVERFLOW, mk_decimal (Z.of_nat i * 9) (frac a + frac b) (negb (eqb (sign a) (sign b))) D) else
   '(k, tf) ← mul_frac D (Z.of_nat i) (frac a + frac b);
   mul_trim D (Z.of_nat i) k tf (negb (eqb (sign a) (sign b)))).
Proof.
  intros Ha Hb Hsz i F. pose proof (wf_intg _ Ha). pose proof (wf_intg _ Hb).
  pose proof (ROUND_UP_bounds (intg a + intg b) ltac:(lia)) as R.
  unfold decimal_result_size_mul, len in Hsz. unfold decimal_mul. rewrite !iw_ROUND_UP, !fw_ROUND_UP in * by apply Ha || apply Hb.
  replace (ROUND_UP (intg a + intg b)) with (Z.of_nat i) in * by lia.
  unfold FIX_INTG_FRAC_ERROR, len. rewrite (proj2 (Z.ltb_ge _ _)) by lia. change (negb (E_DEC_OK =? 0)) with false. cbv iota zeta.
  replace (Z.to_nat (Z.of_nat i + (Z.of_nat (fw a) + Z.of_nat (fw b)))) with (i + F)%nat by lia.
  change (fill (i + F) (buf to) 0 0) with (fill (i + F) (buf to) (Z.of_nat 0) 0). rewrite fill_spec by lia.
  cbn [mbind option_bind take app Nat.add].
  replace (Z.to_nat (Z.of_nat (iw a) + Z.of_nat (fw a) - (Z.of_nat (iw a) - Z.of_nat (iw a)))) with (iw a + fw a)%nat by lia.
  replace (Z.to_nat (Z.of_nat (iw b) + Z.of_nat (fw b) - 1 + 1 - (Z.of_nat (iw b) - Z.of_nat (iw b)))) with (iw b + fw b)%nat by lia.
  replace (Z.of_nat i + (Z.of_nat (fw a) + Z.of_nat (fw b)) - 1) with (Z.of_nat (i + F) - 1) by lia.
  rewrite !Nat2Z.inj_add. reflexivity.
Qed.

Lemma product_fits a b : wf a -> wf b ->
  let i := Z.to_nat (ROUND_UP (intg a + intg b)) in let F := (fw a + fw b)%nat in
  0 <= mag a * mag b < B ^ Z.of_nat (i + F) /\ (iw a + fw a + (iw b + fw b) <= S (i + F))%nat /\
  (10 ^ (9 * Z.of_nat F - (frac a + frac b)) | mag a * mag b) /\ 0 <= frac a + frac b /\
  ROUND_UP (frac a + frac b) <= Z.of_nat F /\ (1 <= i + F)%nat.
Proof.
  intros Ha Hb i F. pose proof (wf_intg _ Ha) as Ia. pose proof (wf_intg _ Hb) as Ib.
  pose proof (wf_frac _ Ha) as Ja. pose proof (wf_frac _ Hb) as Jb.
  pose proof (ROUND_UP_bounds (intg a + intg b) ltac:(lia)) as R. pose proof (ROUND_UP_bounds (frac a + frac b) ltac:(lia)) as R'.
  pose proof (ROUND_UP_bounds (intg a) Ia) as Ra. pose proof (ROUND_UP_bounds (intg b) Ib) as Rb.
  pose proof (ROUND_UP_bounds (frac a) Ja) as Ta. pose proof (ROUND_UP_bounds (frac b) Jb) as Tb.
  rewrite iw_ROUND_UP in Ra, Rb by done. rewrite fw_ROUND_UP in Ta, Tb by done.
  pose proof (wf_len _ Ha) as La. pose proof (wf_len _ Hb) as Lb. split; [|split_and!].
  - pose proof (mag_bounds a Ha) as Ma. pose proof (mag_bounds b Hb) as Mb. split; [nia|].
    pose proof (wf_top _ Ha) as Ua. pose proof (wf_top _ Hb) as Ub. pose proof (Bpow_pos (fw a)). pose proof (Bpow_pos (fw b)).
    eapply Z.lt_le_trans; [apply Z.mul_lt_mono_nonneg; [apply Ma|exact Ua|apply Mb|exact Ub]|].
    replace (10 ^ intg a * B ^ Z.of_nat (fw a) * (10 ^ intg b * B ^ Z.of_nat (fw b)))
      with (10 ^ (intg a + intg b) * B ^ Z.of_nat F) by (unfold F; rewrite Nat2Z.inj_add, !Z.pow_add_r by (done || lia); ring).
    rewrite Nat2Z.inj_add, (Z.pow_add_r B) by (clear; lia). apply Z.mul_le_mono_nonneg_r; [pose proof (Bpow_pos F); lia|].
    rewrite B_pow10. apply Z.pow_le_mono_r; lia.
  - lia.
  - replace (9 * Z.of_nat F - (frac a + frac b)) with ((9 * Z.of_nat (fw a) - frac a) + (9 * Z.of_nat (fw b) - frac b)) by lia.
    rewrite Z.pow_add_r by lia. destruct (wf_tail _ Ha) as [x ->], (wf_tail _ Hb) as [y ->]. exists (x * y). ring.
  - lia.
  - lia.
  - lia.
Qed.

Lemma scaled_more k F t : (fw t <= k)%nat -> (k <= F)%nat -> scaled F t = scaled k t * B ^ Z.of_nat (F - k).
Proof.
  intros Ht Hk. unfold scaled. rewrite <- Z.mul_assoc, <- Z.pow_add_r by (clear; lia). do 2 f_equal. lia.
Qed.

(** C6: in a buffer of the size that [decimal_result_size] announces for
    ['*'], [decimal_mul] returns E_DEC_OK and the product, exactly, and never
    a negative zero.  The result is well-formed, or a zero without any
    digits: the product of a zero and a number that both have no digits
    before the point. *)
Theorem decimal_mul_correct a b to : wf a -> wf b -> decimal_result_size_mul a b <= len to ->
  exists t, decimal_mul a b to = Some (E_DEC_OK, t) /\ (value t == value a * value b)%Q /\
    (wf t \/ intg t = 0 /\ frac t = 0 /\ sign t = false) /\ length (buf t) = length (buf to).
Proof.
  intros Ha Hb Hsz. destruct (product_fits a b Ha Hb) as ([P0 P1] & Hn & Hd & Ht & Hr & H1).
  rewrite decimal_mul_step by done. unfold decimal_result_size_mul, len in Hsz.
  pose proof (ROUND_UP_bounds (intg a + intg b) ltac:(pose proof (wf_intg _ Ha); pose proof (wf_intg _ Hb); lia)) as [R _].
  rewrite !fw_ROUND_UP in Hsz by apply Ha || apply Hb.
  set (i := Z.to_nat (ROUND_UP (intg a + intg b))) in *. set (F := (fw a + fw b)%nat) in *.
  pose proof (wf_len _ Ha) as La. pose proof (wf_len _ Hb) as Lb.
  assert (Hl : (i + F <= length (buf to))%nat) by lia.
  assert (Tz : take (i + F) (repeat 0 (i + F) ++ drop (i + F) (buf to)) = repeat 0 (i + F)) by (apply take_app_length'; by rewrite repeat_length).
  assert (Dz : drop (i + F) (repeat 0 (i + F) ++ drop (i + F) (buf to)) = drop (i + F) (buf to)) by (apply drop_app_length'; by rewrite repeat_length).
  destruct (mul_loop_spec (iw a + fw a) (buf a) (iw a + fw a) (buf b) (iw b + fw b) (iw b + fw b)
    (repeat 0 (i + F) ++ drop (i + F) (buf to)) (i + F)) as (ws & -> & Lw & Ww & Nw); try lia; try apply Ha; try apply Hb.
  { rewrite length_app, repeat_length. lia. } { rewrite Tz. apply words_zeros. }
  { rewrite Tz, num_zeros, !Nat.sub_diag, !seg_take. exact P1. }
  rewrite Tz, num_zeros, !Nat.sub_diag, !seg_take, Z.add_0_l in Nw. fold (words a) (words b) (mag a) (mag b) in Nw.
  rewrite Dz. cbn [mbind option_bind negb]. set (D := ws ++ drop (i + F) (buf to)).
  assert (TD : take (i + F) D = ws) by (apply take_app_length'; done).
  assert (LD : length D = length (buf to)) by (unfold D; rewrite length_app, length_drop; lia).
  destruct (mul_frac_spec D i F (frac a + frac b)) as (k & tf & -> & Hk & T0 & Rt & Nk & Dk & Zk); rewrite ?TD, ?Nw; try done; [lia|].
  rewrite TD, Nw in Nk, Zk. cbn [mbind option_bind]. set (sg := negb (eqb (sign a) (sign b))).
  destruct (mul_trim_spec D i k tf sg) as (t & Et & Pt & Ft & Vt & Lt); try done; try lia.
  { apply (words_take _ _ (i + F)); [by rewrite TD|lia]. }
  { intros N0. rewrite N0, Z.mul_0_l in Nk. split; [by apply Zk|]. intros w Hw.
    apply (word_of_zero D (i + F) 0 w); [by rewrite TD|by rewrite TD, Nw|lia|done]. }
  exists t. split; [done|]. split; [|split; [exact Pt|congruence]].
  assert (Vs : signed (sign t) (scaled F t) = signed (sign a) (mag a) * signed (sign b) (mag b)).
  { rewrite (scaled_more k F t Ft Hk). unfold signed in *. subst sg. clear -Vt Nk. destruct (sign t), (sign a), (sign b); cbn [eqb negb] in Vt; lia. }
  rewrite (value_scaled F t _ ltac:(lia) eq_refl). fold (signed (sign t) (scaled F t)). rewrite Vs.
  unfold value, Qeq, Qmult. cbn [Qnum Qden]. pose proof (Bpow_pos (fw a)). pose proof (Bpow_pos (fw b)). pose proof (Bpow_pos F).
  rewrite Pos2Z.inj_mul, !Z2Pos.id by done. unfold F. rewrite Nat2Z.inj_add, Z.pow_add_r by (clear; lia). unfold signed, signed_mag. ring.
Qed.

Lemma decimal_mul_correct_witness : exists t, decimal_mul sum_a sum_c (room 3) = Some (E_DEC_OK, t) /\
  (value t == value sum_a * value sum_c)%Q /\ take 2 (buf t) = [999999999; 500000000] /\ sign t = true.
Proof.
  destruct sum_wf as (Ha & _ & Hc).
  destruct (decimal_mul_correct sum_a sum_c (room 3) Ha Hc ltac:(vm_compute; discriminate)) as (t & Et & Vt & _).
  exists t. split; [exact Et|]. split; [exact Vt|]. vm_compute in Et. injection Et as <-. split; reflexivity.
Defined.

End DecimalMul.
