(* ===== verification/DecimalText.v ===== *)
(** * Fixed-point numbers as text (strings/decimal.c)

    [decimal2string] on a buffer of characters, as byte values: every write
    goes through [wr], so a character written outside of the buffer gives
    [None]. *)

From S2P Require Import Prelude TimeBinary Decimal.
Import Decimal.

#[local] Open Scope Z_scope.

Module DecimalText.

Definition DIG_MASK : Z := 100000000.

(** ** decimal2string *)

(** [for (i= ...; i; i--)] of the fraction: the digits of [x], the high one
    first; the buffer and [s1]. *)
Fixpoint high_digits (i : nat) (x : Z) (to : list Z) (s1 : Z) : option (list Z * Z) :=
  match i with
  | O => Some (to, s1)
  | S i =>
      let y := Z.quot x DIG_MASK in
      to ← wr to s1 ((48 + y) mod 256);
      high_digits i ((x - y * DIG_MASK) * 10) to (s1 + 1)
  end.

(** [for (; frac>0; frac-=DIG_PER_DEC1)] *)
Fixpoint frac_chars (fuel : nat) (src : list Z) (buf frac : Z) (to : list Z) (s1 : Z) : option (list Z * Z) :=
  match fuel with
  | O => None
  | S fuel =>
      if 0 <? frac then
        x ← rd src buf;
        '(to, s1) ← high_digits (Z.to_nat (Z.min frac DIG_PER_DEC1)) x to s1;
        frac_chars fuel src (buf + 1) (frac - DIG_PER_DEC1) to s1
      else Some (to, s1)
  end.

(** [for (i= ...; i; i--)] of the integer part: the digits of [x], the low one
    first. *)
Fixpoint low_digits (i : nat) (x : Z) (to : list Z) (s : Z) : option (list Z * Z) :=
  match i with
  | O => Some (to, s)
  | S i =>
      let y := Z.quot x 10 in
      to ← wr to (s - 1) ((48 + (x - y * 10)) mod 256);
      low_digits i y to (s - 1)
  end.

(** [for (...; intg>0; intg-=DIG_PER_DEC1)] *)
Fixpoint intg_chars (fuel : nat) (src : list Z) (buf intg : Z) (to : list Z) (s : Z) : option (list Z) :=
  match fuel with
  | O => None
  | S fuel =>
      if 0 <? intg then
        x ← rd src (buf - 1);
        '(to, s) ← low_digits (Z.to_nat (Z.min intg DIG_PER_DEC1)) x to s;
        intg_chars fuel src (buf - 1) (intg - DIG_PER_DEC1) to s
      else Some to
  end.

(** [for(; fill; fill--) *s++=filler], which does not end if [fill] is
    negative. *)
Definition put_filler (n : Z) (to : list Z) (s filler : Z) : option (list Z * Z) :=
  if n <? 0 then None else fill (Z.to_nat n) to s filler.

Definition MY_TEST (x : Z) : Z := if x =? 0 then 0 else 1.

(** [error], [intg], [frac], [intg_len], [frac_len] and [len], from the sign,
    the digits of the number and the arguments. *)
Definition d2s_widths (sign : bool) (intg frac to_len fixed_precision fixed_decimals : Z) :
    Z * Z * Z * Z * Z * Z :=
  let sg := if sign then 1 else 0 in
  let fixed := negb (fixed_precision =? 0) in
  let fixed_intg := if fixed then fixed_precision - fixed_decimals else 0 in
  let intg_len := if fixed then fixed_intg else intg in
  let intg_len := if intg_len =? 0 then 1 else intg_len in
  let frac_len := if fixed then fixed_decimals else frac in
  let len := sg + intg_len + MY_TEST frac + frac_len in
  if fixed then
    let error := if fixed_decimals <? frac then E_DEC_TRUNCATED else E_DEC_OK in
    let frac := if fixed_decimals <? frac then fixed_decimals else frac in
    let error := if fixed_intg <? intg then E_DEC_OVERFLOW else error in
    let intg := if fixed_intg <? intg then fixed_intg else intg in
    (error, intg, frac, intg_len, frac_len, len)
  else
    let to_len := to_len - 1 in
    if to_len <? len then
      let j := len - to_len in
      let error := if negb (frac =? 0) && (j <=? frac + 1) then E_DEC_TRUNCATED else E_DEC_OVERFLOW in
      let j := if negb (frac =? 0) && (frac + 1 <=? j) then j - 1 else j in
      let '(intg, frac) := if frac <? j then (intg - (j - frac), 0) else (intg, frac - j) in
      (error, intg, frac, intg_len, frac, sg + intg_len + MY_TEST frac + frac)
    else (E_DEC_OK, intg, frac, intg_len, frac_len, len).

(** The error code, the buffer and [*to_len]. *)
Definition decimal2string (from : decimal_t) (to : list Z) (to_len fixed_precision fixed_decimals filler : Z) :
    option (Z * list Z * Z) :=
  '(buf0, intg) ← remove_leading_zeroes from;
  let zero := intg + frac from =? 0 in
  let intg := if zero then 1 else intg in
  let src := if zero then [0] else buf from in
  let buf0 := if zero then 0 else buf0 in
  let '(error, intg, frac, intg_len, frac_len, len) :=
    d2s_widths (sign from) intg (frac from) to_len (decimal_digits_t fixed_precision)
      (decimal_digits_t fixed_decimals) in
  to ← wr to len 0;
  '(to, s) ← (if sign from then to ← wr to 0 45; Some (to, 1) else Some (to, 0));
  to ← (if frac =? 0 then Some to else
        let s1 := s + intg_len in
        to ← wr to s1 46;
        '(to, s1) ← frac_chars (S (Z.to_nat frac)) src (buf0 + ROUND_UP intg) frac to (s1 + 1);
        '(to, _) ← put_filler (frac_len - frac) to s1 filler;
        Some to);
  let fill := intg_len - intg in
  let fill := if intg =? 0 then fill - 1 else fill in
  '(to, s) ← put_filler fill to s filler;
  to ← (if intg =? 0 then wr to s 48
        else intg_chars (S (Z.to_nat intg)) src (buf0 + ROUND_UP intg) intg to (s + intg));
  Some (error, to, len).

End DecimalText.
