(* ===== verification/DecimalTextProofs.v ===== *)
(** * Fixed-point numbers as text: correctness of decimal2string

    What [decimal2string] writes is the plain decimal notation of the value;
    a fraction that does not fit is cut, and an integer part that does not fit
    makes it write behind the buffer. *)

From Stdlib Require Import QArith.
From S2P Require Import Prelude IntConvProofs Decimal DecimalProofs DecimalAdd DecimalCmp DecimalBytes DecimalInt DecimalBin DecimalText.
Import IntConvProofs Decimal DecimalProofs DecimalAdd DecimalCmp DecimalBytes DecimalInt DecimalBin DecimalText.

#[local] Open Scope Z_scope.

Module DecimalTextProofs.

(** ** Specification *)

(** The last [n] decimal digits of [v], as characters. *)
Fixpoint dchars (n : nat) (v : Z) : list Z :=
  match n with
  | O => []
  | S n => dchars n (v / 10) ++ [48 + v mod 10]
  end.

Fixpoint plain_digits (fuel : nat) (v : Z) : list Z :=
  match fuel with
  | O => []
  | S fuel => (if v <? 10 then [] else plain_digits fuel (v / 10)) ++ [48 + v mod 10]
  end.

(** An integer without leading zeros. *)
Definition int_text (v : Z) : list Z := plain_digits (S (Z.to_nat (Z.log2 v))) v.

(** The first [f] digits of the fraction. *)
Definition frac_part (d : decimal_t) (f : nat) : Z := mag d mod B ^ Z.of_nat (fw d) / 10 ^ (9 * Z.of_nat (fw d) - Z.of_nat f).

Definition sign_text (d : decimal_t) : list Z := if sign d then [45] else [].

(** The number with [f] digits behind the point. *)
Definition text_to (d : decimal_t) (f : nat) : list Z :=
  sign_text d ++ int_text (int_part d) ++ (if (f =? 0)%nat then [] else 46 :: dchars f (frac_part d f)).

Definition text (d : decimal_t) : list Z := text_to d (Z.to_nat (frac d)).

(** ** Digits *)

Lemma dchars_length n v : length (dchars n v) = n.
Proof. revert v. induction n as [|n IH]; intros v; [done|]. cbn [dchars]. rewrite length_app, IH. cbn. lia. Qed.

Lemma pow10_S n : 10 ^ Z.of_nat (S n) = 10 * 10 ^ Z.of_nat n.
Proof. rewrite Nat2Z.inj_succ, Z.pow_succ_r by lia. done. Qed.

Lemma pow10_pos n : 0 < 10 ^ Z.of_nat n.
Proof. apply Z.pow_pos_nonneg; lia. Qed.

Lemma dchars_app n m v : dchars (n + m) v = dchars n (v / 10 ^ Z.of_nat m) ++ dchars m v.
Proof.
  revert v. induction m as [|m IH]; intros v.
  - rewrite Nat.add_0_r. cbn [dchars]. by rewrite app_nil_r, Z.div_1_r.
  - rewrite Nat.add_succ_r. cbn [dchars]. rewrite IH, app_assoc. do 3 f_equal. rewrite pow10_S.
    rewrite Z.div_div; [done|lia|apply pow10_pos].
Qed.

Lemma dchars_mod n v : dchars n (v mod 10 ^ Z.of_nat n) = dchars n v.
Proof.
  revert v. induction n as [|n IH]; intros v; [done|]. cbn [dchars]. pose proof (pow10_pos n). rewrite pow10_S.
  rewrite Z.rem_mul_r by lia. f_equal.
  - rewrite <- (IH (v / 10)). f_equal. rewrite Z.mul_comm, Z.div_add by lia. rewrite (Z.div_small (v mod 10)) by (apply Z.mod_pos_bound; lia). lia.
  - do 2 f_equal. rewrite Z.mul_comm, Z.mod_add by lia. apply Z.mod_mod. lia.
Qed.

Lemma dchars_cons n v : 0 <= v < 10 ^ Z.of_nat (S n) ->
  dchars (S n) v = (48 + v / 10 ^ Z.of_nat n) :: dchars n (v mod 10 ^ Z.of_nat n).
Proof.
  intros Hv. change (S n) with (1 + n)%nat. rewrite dchars_app, dchars_mod. cbn [dchars app]. pose proof (pow10_pos n).
  rewrite pow10_S in Hv. rewrite Z.mod_small; [done|]. split; [apply Z.div_pos; lia|]. apply Z.div_lt_upper_bound; lia.
Qed.

Lemma plain_digits_eq g : forall fuel v, (g <= fuel)%nat -> 10 ^ (Z.of_nat g - 1) <= v < 10 ^ Z.of_nat g -> (0 < g)%nat ->
  plain_digits fuel v = dchars g v.
Proof.
  induction g as [|g IH]; intros fuel v Hf Hv Hg; [lia|]. destruct fuel as [|fuel]; [lia|]. cbn [plain_digits dchars].
  replace (Z.of_nat (S g) - 1) with (Z.of_nat g) in Hv by lia. rewrite pow10_S in Hv. f_equal.
  destruct g as [|g].
  - cbn in Hv. by rewrite (proj2 (Z.ltb_lt _ _)) by lia.
  - rewrite pow10_S in Hv. pose proof (pow10_pos g). rewrite (proj2 (Z.ltb_ge _ _)) by lia.
    apply IH; [lia| |lia]. replace (Z.of_nat (S g) - 1) with (Z.of_nat g) by lia. rewrite pow10_S.
    split; [apply Z.div_le_lower_bound|apply Z.div_lt_upper_bound]; lia.
Qed.

Lemma int_text_digits g v : (0 < g)%nat -> 10 ^ (Z.of_nat g - 1) <= v < 10 ^ Z.of_nat g -> int_text v = dchars g v.
Proof.
  intros Hg Hv. apply plain_digits_eq; [|done..].
  assert (Z.of_nat g - 1 <= Z.log2 v); [|lia].
  apply Z.log2_le_pow2; [pose proof (Z.pow_pos_nonneg 10 (Z.of_nat g - 1)); lia|].
  transitivity (10 ^ (Z.of_nat g - 1)); [|lia]. apply Z.pow_le_mono_l. lia.
Qed.

(** ** The loops *)

Lemma wr_ins l p x : (p < length l)%nat -> wr l (Z.of_nat p) x = Some (list_inserts p [x] l).
Proof. intros H. unfold wr. rewrite decide_True by lia. cbn [list_inserts]. by rewrite Nat2Z.id. Qed.

Lemma inserts_comm (l : list Z) p a q b : (p + length a <= q)%nat ->
  list_inserts q b (list_inserts p a l) = list_inserts p a (list_inserts q b l).
Proof.
  intros H. apply list_eq. intros i. apply option_eq. intros x.
  rewrite !list_lookup_inserts_Some, !length_inserts. intuition (lia || tauto).
Qed.

Lemma inserts_front (l : list Z) p a b q : q = (p + length a)%nat ->
  list_inserts p a (list_inserts q b l) = list_inserts p (a ++ b) l.
Proof. intros ->. rewrite <- inserts_comm by lia. rewrite list_inserts_app_l. f_equal. lia. Qed.

Lemma inserts_back (l : list Z) p a b q : q = (p + length a)%nat ->
  list_inserts q b (list_inserts p a l) = list_inserts p (a ++ b) l.
Proof. intros ->. rewrite list_inserts_app_l. f_equal. lia. Qed.

Lemma inserts_all a (l : list Z) : (length a <= length l)%nat -> list_inserts 0 a l = a ++ drop (length a) l.
Proof.
  intros H. rewrite <- (take_drop (length a) l) at 1. apply list_inserts_0_r. by rewrite length_take, Nat.min_l.
Qed.

Lemma high_digits_spec n x to p : (n <= 9)%nat -> 0 <= x < 10 ^ 9 -> (p + n <= length to)%nat ->
  high_digits n x to (Z.of_nat p) = Some (list_inserts p (dchars n (x / 10 ^ Z.of_nat (9 - n))) to, Z.of_nat (p + n)).
Proof.
  revert x to p. induction n as [|n IH]; intros x to p Hn Hx Hp.
  { cbn [high_digits dchars list_inserts]. by rewrite Nat.add_0_r. }
  cbn [high_digits]. unfold DIG_MASK. rewrite Z.quot_div_nonneg by lia.
  assert (Hy : 0 <= x / 100000000 < 10) by (split; [apply Z.div_pos|apply Z.div_lt_upper_bound]; lia).
  rewrite Z.mod_small by lia. rewrite wr_ins by lia. cbn [mbind option_bind].
  replace (Z.of_nat p + 1) with (Z.of_nat (S p)) by lia.
  pose proof (Z.div_mod x 100000000 ltac:(lia)) as Hd. pose proof (Z.mod_pos_bound x 100000000 ltac:(lia)) as Hm.
  rewrite IH by (rewrite ?length_inserts; lia). rewrite inserts_back by (cbn; lia).
  f_equal. f_equal; [|lia]. f_equal. cbn [app].
  replace (x - x / 100000000 * 100000000) with (x mod 10 ^ 8) by (change (10 ^ 8) with 100000000; lia). change 100000000 with (10 ^ 8).
  assert (E8 : 10 ^ 8 = 10 ^ Z.of_nat n * 10 ^ Z.of_nat (9 - S n)) by (rewrite <- Z.pow_add_r by lia; f_equal; lia).
  pose proof (pow10_pos n) as P1. pose proof (pow10_pos (9 - S n)) as P2.
  rewrite dchars_cons.
  - f_equal.
    + f_equal. rewrite Z.div_div by lia. f_equal. lia.
    + f_equal. replace (9 - n)%nat with (S (9 - S n)) by lia. rewrite pow10_S, (Z.mul_comm 10), Z.div_mul_cancel_r by lia.
      rewrite E8. rewrite (Z.mul_comm (10 ^ Z.of_nat n)), Z.rem_mul_r by lia.
      rewrite (Z.mul_comm (10 ^ Z.of_nat (9 - S n))), Z.div_add by lia. rewrite Z.div_small by (apply Z.mod_pos_bound; lia). lia.
  - split; [apply Z.div_pos; lia|]. apply Z.div_lt_upper_bound; [lia|]. rewrite <- Z.pow_add_r by lia.
    replace (Z.of_nat (9 - S n) + Z.of_nat (S n)) with 9 by lia. lia.
Qed.

Lemma low_digits_spec n x to p : 0 <= x -> (p + n <= length to)%nat ->
  low_digits n x to (Z.of_nat (p + n)) = Some (list_inserts p (dchars n x) to, Z.of_nat p).
Proof.
  revert x to. induction n as [|n IH]; intros x to Hx Hp.
  { cbn [low_digits dchars list_inserts]. by rewrite Nat.add_0_r. }
  cbn [low_digits dchars]. rewrite Z.quot_div_nonneg by lia.
  pose proof (Z.div_mod x 10 ltac:(lia)) as Hd. pose proof (Z.mod_pos_bound x 10 ltac:(lia)) as Hm.
  replace (x - x / 10 * 10) with (x mod 10) by lia. rewrite Z.mod_small by lia.
  replace (Z.of_nat (p + S n) - 1) with (Z.of_nat (p + n)) by lia.
  rewrite wr_ins by lia. cbn [mbind option_bind]. rewrite IH by (rewrite ?length_inserts; lia).
  rewrite inserts_front by (by rewrite dchars_length). done.
Qed.

Lemma dchars_split n m w r v : 0 <= r -> v = w * 10 ^ Z.of_nat m + r -> r < 10 ^ Z.of_nat m ->
  dchars (n + m) v = dchars n w ++ dchars m r.
Proof.
  intros H0 -> H1. pose proof (pow10_pos m). rewrite dchars_app. f_equal.
  - f_equal. rewrite Z.add_comm, Z.div_add, Z.div_small by lia. done.
  - rewrite <- dchars_mod, Z.add_comm, Z.mod_add, Z.mod_small by lia. done.
Qed.

Lemma frac_chars_spec n : forall fuel src q f to p, (n < fuel)%nat -> (9 * n - 8 <= f <= 9 * n)%nat ->
  (0 < n -> 0 < f)%nat -> (q + n <= length src)%nat -> words_ok (seg src q n) -> (p + f <= length to)%nat ->
  frac_chars fuel src (Z.of_nat q) (Z.of_nat f) to (Z.of_nat p) =
  Some (list_inserts p (dchars f (num (seg src q n) / 10 ^ Z.of_nat (9 * n - f))) to, Z.of_nat (p + f)).
Proof.
  induction n as [|n IH]; intros fuel src q f to p Hf Hn Hp0 Hq Hw Hp; (destruct fuel as [|fuel]; [lia|]); cbn [frac_chars].
  { replace f with 0%nat by lia. cbn [Z.of_nat Z.ltb Z.compare dchars list_inserts]. by rewrite Nat.add_0_r. }
  rewrite (proj2 (Z.ltb_lt _ _)) by lia. destruct (lookup_lt_is_Some_2 src q) as [w E]; [lia|].
  rewrite rd_nat, E. cbn [mbind option_bind]. rewrite (seg_cons _ _ _ _ E) in Hw |- *.
  apply Forall_cons in Hw as [Hw Hr]. unfold DIG_PER_DEC1. replace (Z.of_nat q + 1) with (Z.of_nat (S q)) by lia.
  change B with (10 ^ 9) in Hw. pose proof (num_bounds _ Hr) as Hb. rewrite seg_length in Hb by lia.
  destruct n as [|n].
  - replace (Z.to_nat (Z.min (Z.of_nat f) 9)) with f by lia. rewrite high_digits_spec by lia. cbn [mbind option_bind].
    destruct fuel as [|fuel]; [lia|]. cbn [frac_chars]. rewrite (proj2 (Z.ltb_ge _ _)) by lia. do 5 f_equal.
  - replace (Z.to_nat (Z.min (Z.of_nat f) 9)) with 9%nat by lia. rewrite high_digits_spec by lia. cbn [mbind option_bind].
    replace (Z.of_nat f - 9) with (Z.of_nat (f - 9)) by lia. rewrite IH by (rewrite ?length_inserts; try done; lia).
    rewrite inserts_back by (by rewrite dchars_length). do 2 f_equal; [|lia]. f_equal.
    rewrite Z.div_1_r. replace f with (9 + (f - 9))%nat at 3 4 by lia. symmetry.
    assert (E1 : B ^ Z.of_nat (S n) = 10 ^ Z.of_nat (f - 9) * 10 ^ Z.of_nat (9 * S n - (f - 9)))
      by (rewrite B_pow10, <- Z.pow_add_r by lia; f_equal; lia).
    pose proof (pow10_pos (f - 9)) as P1. pose proof (pow10_pos (9 * S n - (f - 9))) as P2.
    rewrite num_cons, seg_length by lia. replace (9 * S (S n) - (9 + (f - 9)))%nat with (9 * S n - (f - 9))%nat by lia.
    rewrite E1 in Hb |- *. apply dchars_split.
    + apply Z.div_pos; lia.
    + rewrite Z.mul_assoc, Z.div_add_l by lia. done.
    + apply Z.div_lt_upper_bound; lia.
Qed.

Lemma intg_chars_spec n : forall fuel src q g to p, (n < fuel)%nat -> (9 * n - 8 <= g <= 9 * n)%nat ->
  (0 < n -> 0 < g)%nat -> (q + n <= length src)%nat -> words_ok (seg src q n) -> (p + g <= length to)%nat ->
  intg_chars fuel src (Z.of_nat (q + n)) (Z.of_nat g) to (Z.of_nat (p + g)) =
  Some (list_inserts p (dchars g (num (seg src q n))) to).
Proof.
  induction n as [|n IH]; intros fuel src q g to p Hf Hn Hp0 Hq Hw Hp; (destruct fuel as [|fuel]; [lia|]); cbn [intg_chars].
  { by replace g with 0%nat by lia. }
  rewrite (proj2 (Z.ltb_lt _ _)) by lia. destruct (lookup_lt_is_Some_2 src (q + n)) as [w E]; [lia|].
  replace (Z.of_nat (q + S n) - 1) with (Z.of_nat (q + n)) by lia.
  rewrite rd_nat, E. cbn [mbind option_bind]. rewrite (seg_snoc _ _ _ _ E) in Hw |- *.
  apply words_app in Hw as [Hr Hw]. apply Forall_cons in Hw as [Hw _]. unfold DIG_PER_DEC1.
  rewrite num_snoc. change B with (10 ^ Z.of_nat 9) in Hw |- *.
  destruct (decide (g <= 9)%nat) as [Hg|Hg].
  - replace (Z.to_nat (Z.min (Z.of_nat g) 9)) with g by lia. rewrite low_digits_spec by lia. cbn [mbind option_bind].
    destruct fuel as [|fuel]; [lia|]. cbn [intg_chars]. rewrite (proj2 (Z.ltb_ge _ _)) by lia.
    replace n with 0%nat by lia. done.
  - replace (Z.to_nat (Z.min (Z.of_nat g) 9)) with 9%nat by lia. replace (p + g)%nat with (p + (g - 9) + 9)%nat by lia.
    rewrite low_digits_spec by lia. cbn [mbind option_bind].
    replace (Z.of_nat g - 9) with (Z.of_nat (g - 9)) by lia. rewrite IH by (rewrite ?length_inserts; try done; lia).
    rewrite inserts_front by (by rewrite dchars_length). do 2 f_equal.
    replace g with (g - 9 + 9)%nat at 2 by lia. symmetry. apply dchars_split; lia.
Qed.

Lemma put_filler_none to s c : put_filler 0 to s c = Some (to, s).
Proof. done. Qed.

(** ** The digits that are printed *)

Lemma parts_words d : wf d ->
  num (seg (buf d) 0 (iw d)) = int_part d /\ num (seg (buf d) (iw d) (fw d)) = mag d mod B ^ Z.of_nat (fw d).
Proof.
  intros H. pose proof (wf_len _ H) as L. pose proof (wf_words _ H) as W. unfold int_part, mag, words in *.
  pose proof (Bpow_pos (fw d)) as P. rewrite <- (seg_take _ (iw d + fw d)), seg_plus, Nat.add_0_l in *.
  apply words_app in W as [_ W]. apply num_bounds in W. rewrite num_app. rewrite seg_length in * by lia.
  split; [by rewrite Z.div_add_l, Z.div_small, Z.add_0_r by lia|]. by rewrite Z.add_comm, Z.mod_add, Z.mod_small by lia.
Qed.

(** [src] at [q] holds the [g] digits of the integer part without the leading
    zeros, and behind them the fraction. *)
Record source (d : decimal_t) (src : list Z) (q n g : nat) : Prop := {
  source_len : (q + n <= length src)%nat;
  source_words : words_ok (seg src q n);
  source_num : num (seg src q n) = int_part d;
  source_round : (9 * n - 8 <= g <= 9 * n)%nat /\ (0 < n -> 0 < g)%nat;
  source_text : int_text (int_part d) = if (g =? 0)%nat then [48] else dchars g (int_part d);
  source_frac : (0 < frac d) -> src = buf d /\ (q + n)%nat = iw d
}.

Lemma source_ROUND_UP d src q n g : source d src q n g -> ROUND_UP (Z.of_nat g) = Z.of_nat n.
Proof.
  intros H. destruct (source_round _ _ _ _ _ H) as [H1 H2]. pose proof (ROUND_UP_bounds (Z.of_nat g)). lia.
Qed.

Lemma significant_digits l s n g w : (s + n <= length l)%nat -> words_ok (seg l s n) -> l !! s = Some w ->
  (0 < n)%nat -> 9 * Z.of_nat n - 8 <= g <= 9 * Z.of_nat n ->
  10 ^ (g - 9 * (Z.of_nat n - 1) - 1) <= w < 10 ^ (g - 9 * (Z.of_nat n - 1)) -> 10 ^ (g - 1) <= num (seg l s n) < 10 ^ g.
Proof.
  intros Hl W Hw Hn Hg Hb. destruct n as [|n]; [lia|]. rewrite (seg_cons _ _ _ _ Hw) in W |- *.
  apply Forall_cons in W as [_ W]. apply num_bounds in W. rewrite num_cons. rewrite seg_length in W |- * by lia.
  rewrite B_pow10 in *. replace (g - 9 * (Z.of_nat (S n) - 1)) with (g - 9 * Z.of_nat n) in Hb by lia.
  assert (E1 : 10 ^ (g - 1) = 10 ^ (g - 9 * Z.of_nat n - 1) * 10 ^ (9 * Z.of_nat n)) by (rewrite <- Z.pow_add_r by lia; f_equal; lia).
  assert (E2 : 10 ^ g = 10 ^ (g - 9 * Z.of_nat n) * 10 ^ (9 * Z.of_nat n)) by (rewrite <- Z.pow_add_r by lia; f_equal; lia).
  rewrite E1, E2. clear -Hb W. nia.
Qed.

Lemma zero_prefix_num l s n : (s <= n)%nat -> (n <= length l)%nat -> seg l 0 s = repeat 0 s -> num (seg l s (n - s)) = num (seg l 0 n).
Proof.
  intros H1 H2 H. replace n with (s + (n - s))%nat at 2 by lia. rewrite seg_plus, H, num_app, num_zeros, Nat.add_0_l. lia.
Qed.

Lemma zero_source d : wf d -> int_part d = 0 -> frac d = 0 -> source d [0] 0 1 1.
Proof. intros H H0 HF. split; try done; try (cbn; lia). - by repeat constructor. - by rewrite H0. Qed.

Lemma printed_source d : wf d -> intg d < 65536 -> exists (buf0 : Z) (g0 : Z) (src : list Z) (q n g : nat),
  remove_leading_zeroes d = Some (buf0, g0) /\ source d src q n g /\
  (if g0 + frac d =? 0 then 1 else g0) = Z.of_nat g /\ (if g0 + frac d =? 0 then [0] else buf d) = src /\
  (if g0 + frac d =? 0 then 0 else buf0) = Z.of_nat q.
Proof.
  intros H Hu. destruct (remove_leading_zeroes_spec _ H Hu) as (s & g & E & G0 & S1 & S2 & S3). hide S3.
  pose proof (wf_frac _ H) as F0. destruct (parts_words _ H) as [P1 P2]. pose proof (wf_len _ H) as L.
  pose proof (ROUND_UP_bounds g G0) as R.
  assert (N : num (seg (buf d) s (iw d - s)) = int_part d) by (rewrite <- P1; apply zero_prefix_num; [lia|lia|done]).
  assert (W : words_ok (seg (buf d) s (iw d - s))) by (apply (seg_words _ _ _ (iw d + fw d)); [apply H|lia]).
  clear P1 P2. destruct (Z.eqb_spec (g + frac d) 0) as [Z0|Z0].
  - exists (Z.of_nat s), g, [0], 0%nat, 1%nat, 1%nat. rewrite (proj2 (Z.eqb_eq _ _) Z0). split_and!; try done.
    apply zero_source; [done| |lia]. rewrite <- N. replace (iw d - s)%nat with 0%nat by lia. done.
  - exists (Z.of_nat s), g, (buf d), s, (iw d - s)%nat, (Z.to_nat g). rewrite (proj2 (Z.eqb_neq _ _) Z0).
    split_and!; try done; [|lia]. split; try done; try lia; [|intros _; split; [done|lia]].
    destruct (Nat.eqb_spec (Z.to_nat g) 0) as [Hg|Hg].
    + rewrite <- N. replace (iw d - s)%nat with 0%nat by lia. done.
    + reveal S3. destruct S3 as (w & Hw & Hb); [lia|]. cbn zeta in Hb. hide Hb. apply int_text_digits; [lia|]. rewrite Z2Nat.id by lia. rewrite <- N.
      apply (significant_digits _ _ _ _ w); try done; [lia..|].
      replace (Z.of_nat (iw d - s)) with (ROUND_UP g) by lia. exact Hb.
Qed.

Lemma frac_part_words d f : wf d -> (f <= Z.to_nat (frac d))%nat ->
  let n := Z.to_nat (ROUND_UP (Z.of_nat f)) in
  (n <= fw d)%nat /\ num (seg (buf d) (iw d) n) / 10 ^ Z.of_nat (9 * n - f) = frac_part d f.
Proof.
  intros H Hf n. pose proof (wf_len _ H) as L. pose proof (wf_frac _ H) as F0. pose proof (wf_words _ H) as W.
  pose proof (ROUND_UP_bounds (Z.of_nat f) ltac:(lia)) as R.
  assert (Hn : (n <= fw d)%nat) by (unfold n, fw; apply Z2Nat.inj_le; [lia|apply ROUND_UP_bounds; lia|apply ROUND_UP_mono; lia]).
  split; [done|]. unfold frac_part. rewrite <- (proj2 (parts_words _ H)).
  assert (W' : words_ok (seg (buf d) (iw d) (fw d))) by (apply (seg_words _ _ _ (iw d + fw d)); [apply H|lia]).
  replace (fw d) with (n + (fw d - n))%nat in W' |- * at 1 by lia. rewrite seg_plus in W' |- *.
  apply words_app in W' as [_ W']. apply num_bounds in W'. rewrite num_app. rewrite seg_length in W' |- * by lia.
  pose proof (Bpow_pos (fw d - n)) as P. pose proof (pow10_pos (9 * n - f)) as P2.
  replace (10 ^ (9 * Z.of_nat (fw d) - Z.of_nat f)) with (B ^ Z.of_nat (fw d - n) * 10 ^ Z.of_nat (9 * n - f))
    by (rewrite B_pow10, <- Z.pow_add_r by lia; f_equal; lia).
  rewrite <- Z.div_div by lia. rewrite Z.div_add_l, (Z.div_small (num _) (B ^ _)) by lia. by rewrite Z.add_0_r.
Qed.

Definition point_text (d : decimal_t) (f : nat) : list Z := if (f =? 0)%nat then [] else 46 :: dchars f (frac_part d f).

Lemma point_text_length d f : length (point_text d f) = if (f =? 0)%nat then 0%nat else S f.
Proof. unfold point_text. destruct (f =? 0)%nat; [done|]. cbn [length]. by rewrite dchars_length. Qed.

Lemma put_point d src q n g f to p c : wf d -> source d src q n g -> (f <= Z.to_nat (frac d))%nat ->
  (p + length (point_text d f) <= length to)%nat ->
  (if Z.of_nat f =? 0 then Some to else
   to ← wr to (Z.of_nat p) 46;
   '(to, s1) ← frac_chars (S (Z.to_nat (Z.of_nat f))) src (Z.of_nat q + ROUND_UP (Z.of_nat g)) (Z.of_nat f) to (Z.of_nat p + 1);
   '(to, _) ← put_filler (Z.of_nat f - Z.of_nat f) to s1 c;
   Some to) = Some (list_inserts p (point_text d f) to).
Proof.
  intros H S Hf Hl. rewrite point_text_length in Hl. unfold point_text. destruct (Nat.eqb_spec f 0) as [->|Hn]; [done|].
  rewrite (proj2 (Z.eqb_neq _ _)) by lia. destruct (frac_part_words d f H Hf) as [N1 N2].
  destruct (source_frac _ _ _ _ _ S) as [-> E]; [lia|]. rewrite (source_ROUND_UP _ _ _ _ _ S).
  rewrite wr_ins by lia. cbn [mbind option_bind]. rewrite Nat2Z.id.
  replace (Z.of_nat q + Z.of_nat n) with (Z.of_nat (iw d)) by lia. replace (Z.of_nat p + 1) with (Z.of_nat (p + 1)) by lia.
  pose proof (ROUND_UP_bounds (Z.of_nat f) ltac:(lia)) as R. pose proof (wf_len _ H) as L.
  rewrite (frac_chars_spec (Z.to_nat (ROUND_UP (Z.of_nat f)))); [|rewrite ?length_inserts; try lia..].
  - cbn [mbind option_bind]. rewrite Z.sub_diag, put_filler_none. cbn [mbind option_bind].
    rewrite inserts_back by done. by rewrite N2.
  - apply (seg_words _ _ _ (iw d + fw d)); [apply H|lia].
Qed.

Lemma put_int {R} d src q n g to p c (k : list Z -> option R) :
  source d src q n g -> (p + length (int_text (int_part d)) <= length to)%nat ->
  let il := Z.of_nat (length (int_text (int_part d))) in
  ('(to, s) ← put_filler (if Z.of_nat g =? 0 then il - Z.of_nat g - 1 else il - Z.of_nat g) to (Z.of_nat p) c;
   to ← (if Z.of_nat g =? 0 then wr to s 48
         else intg_chars (S (Z.to_nat (Z.of_nat g))) src (Z.of_nat q + ROUND_UP (Z.of_nat g)) (Z.of_nat g) to (s + Z.of_nat g));
   k to) = k (list_inserts p (int_text (int_part d)) to).
Proof.
  intros S. rewrite (source_text _ _ _ _ _ S). destruct (Nat.eqb_spec g 0) as [->|Hn]; intros Hl il; unfold il.
  - change (put_filler _ _ _ _) with (put_filler 0 to (Z.of_nat p) c). rewrite put_filler_none. cbn [mbind option_bind].
    cbn [length] in Hl. change (Z.of_nat 0 =? 0) with true. by rewrite wr_ins by lia.
  - rewrite !(proj2 (Z.eqb_neq _ _)) by lia. rewrite dchars_length in Hl |- *. rewrite Z.sub_diag, put_filler_none. cbn [mbind option_bind].
    rewrite (source_ROUND_UP _ _ _ _ _ S), Nat2Z.id. destruct (source_round _ _ _ _ _ S) as [R1 R2].
    rewrite <- !Nat2Z.inj_add. rewrite (intg_chars_spec n); [|try lia; try apply S; done..]. by rewrite (source_num _ _ _ _ _ S).
Qed.

(** The digits of the fraction that fit. *)
Definition fitting (d : decimal_t) (to_len : nat) : nat :=
  Nat.min (Z.to_nat (frac d)) (to_len - length (sign_text d ++ int_text (int_part d)) - 2).

Lemma d2s_widths_fit (sg : bool) g f to_len : let n := ((if sg then 1 else 0) + (if g =? 0 then 1 else g))%nat in
  (n < to_len)%nat -> let f' := Nat.min f (to_len - n - 2) in
  d2s_widths sg (Z.of_nat g) (Z.of_nat f) (Z.of_nat to_len) 0 0 =
  (if (f' =? f)%nat then E_DEC_OK else E_DEC_TRUNCATED, Z.of_nat g, Z.of_nat f', if Z.of_nat g =? 0 then 1 else Z.of_nat g,
   Z.of_nat f', Z.of_nat (n + (if f' =? 0 then 0 else S f'))%nat).
Proof.
  intros n Hn f'. unfold d2s_widths. cbn [Z.eqb negb].
  assert (E : (if sg then 1 else 0) + (if Z.of_nat g =? 0 then 1 else Z.of_nat g) = Z.of_nat n).
  { unfold n. destruct (Nat.eqb_spec g 0) as [->|]; [by destruct sg|]. rewrite (proj2 (Z.eqb_neq _ _)) by lia. destruct sg; lia. }
  rewrite E. clearbody n. clear E. unfold MY_TEST, f'.
  destruct (Z.eqb_spec (Z.of_nat f) 0) as [F0|F0]; cbn [negb andb].
  { replace f with 0%nat by lia. rewrite (proj2 (Z.ltb_ge _ _)) by lia. cbn. f_equal; lia. }
  destruct (Z.ltb_spec (Z.of_nat to_len - 1) (Z.of_nat n + 1 + Z.of_nat f)) as [C|C].
  - rewrite (proj2 (Z.leb_le (Z.of_nat n + 1 + Z.of_nat f - _) _)) by lia. rewrite (proj2 (Nat.eqb_neq _ f)) by lia.
    destruct (Z.leb_spec (Z.of_nat f + 1) (Z.of_nat n + 1 + Z.of_nat f - (Z.of_nat to_len - 1))) as [J|J].
    + rewrite (proj2 (Z.ltb_ge _ _)) by lia. replace (Nat.min f (to_len - n - 2)) with 0%nat by lia.
      replace (Z.of_nat f - _) with 0 by lia. cbn [Z.eqb Nat.eqb Z.of_nat]. f_equal; lia.
    + rewrite (proj2 (Z.ltb_ge _ _)) by lia. replace (Z.of_nat f - _) with (Z.of_nat (Nat.min f (to_len - n - 2))) by lia.
      destruct (Nat.eqb_spec (Nat.min f (to_len - n - 2)) 0) as [->|K]; [change (Z.of_nat 0) with 0; rewrite Z.eqb_refl; f_equal; lia|].
      rewrite (proj2 (Z.eqb_neq (Z.of_nat (Nat.min _ _)) _)) by lia. f_equal; lia.
  - replace (Nat.min f (to_len - n - 2)) with f by lia. rewrite Nat.eqb_refl, (proj2 (Nat.eqb_neq _ _)) by lia. f_equal; lia.
Qed.

(** The integer part is cut to [k] digits, but the text is not made shorter. *)
Lemma d2s_widths_short (sg : bool) g f k : let n := (if sg then 1 else 0)%nat in (0 < k < g)%nat ->
  d2s_widths sg (Z.of_nat g) (Z.of_nat f) (Z.of_nat (n + k + 1)) 0 0 =
    (E_DEC_OVERFLOW, Z.of_nat k, 0, Z.of_nat g, 0, Z.of_nat (n + g)).
Proof.
  intros n Hk. unfold d2s_widths. cbn [Z.eqb negb]. rewrite (proj2 (Z.eqb_neq (Z.of_nat g) 0)) by lia.
  replace (if sg then 1 else 0) with (Z.of_nat n) by (by destruct sg). clearbody n. unfold MY_TEST.
  destruct (Z.eqb_spec (Z.of_nat f) 0) as [F0|F0]; cbn [negb andb].
  - rewrite F0. rewrite (proj2 (Z.ltb_lt _ _)) by lia. rewrite (proj2 (Z.ltb_lt 0 _)) by lia.
    change (0 =? 0) with true. cbv iota. repeat f_equal; lia.
  - rewrite (proj2 (Z.ltb_lt (Z.of_nat (n + k + 1) - 1) _)) by lia. rewrite (proj2 (Z.leb_gt _ (Z.of_nat f + 1))) by lia.
    rewrite (proj2 (Z.leb_le (Z.of_nat f + 1) _)) by lia. rewrite (proj2 (Z.ltb_lt (Z.of_nat f) _)) by lia.
    change (0 =? 0) with true. cbv iota. repeat f_equal; lia.
Qed.

Lemma int_text_length d src q n g : source d src q n g -> length (int_text (int_part d)) = if (g =? 0)%nat then 1%nat else g.
Proof. intros S. rewrite (source_text _ _ _ _ _ S). destruct (g =? 0)%nat; [done|]. apply dchars_length. Qed.

Lemma sign_text_length d : length (sign_text d) = if sign d then 1%nat else 0%nat.
Proof. unfold sign_text. by destruct (sign d). Qed.

Lemma put_sign d to : (length (sign_text d) < length to)%nat ->
  (if sign d then to ← wr to 0 45; Some (to, 1) else Some (to, 0)) =
  Some (list_inserts 0 (sign_text d) to, Z.of_nat (length (sign_text d))).
Proof. unfold sign_text. destruct (sign d); intros H; [|done]. cbn [length] in H. by rewrite (wr_ins to 0) by lia. Qed.

Lemma text_to_length d f : length (text_to d f) =
  (length (sign_text d) + length (int_text (int_part d)) + length (point_text d f))%nat.
Proof. unfold text_to. rewrite !length_app. fold (point_text d f). lia. Qed.

Lemma fitting_bounds d to_len : (length (sign_text d ++ int_text (int_part d)) < to_len)%nat ->
  (fitting d to_len <= Z.to_nat (frac d))%nat /\ (length (text_to d (fitting d to_len)) < to_len)%nat.
Proof.
  rewrite text_to_length, point_text_length. unfold fitting. rewrite length_app. intros H.
  set (f := Nat.min _ _). assert (Hf : (f <= to_len - (length (sign_text d) + length (int_text (int_part d))) - 2)%nat) by lia.
  split; [lia|]. clearbody f. destruct (Nat.eqb_spec f 0); lia.
Qed.

Lemma d2s_widths_source d src q n g to_len : wf d -> source d src q n g ->
  (length (sign_text d ++ int_text (int_part d)) < to_len)%nat -> let f := fitting d to_len in
  d2s_widths (sign d) (Z.of_nat g) (frac d) (Z.of_nat to_len) 0 0 =
  (if (f =? Z.to_nat (frac d))%nat then E_DEC_OK else E_DEC_TRUNCATED, Z.of_nat g, Z.of_nat f,
   Z.of_nat (length (int_text (int_part d))), Z.of_nat f, Z.of_nat (length (text_to d f))).
Proof.
  intros H S Hn f. pose proof (wf_frac _ H) as F0. rewrite <- (Z2Nat.id (frac d)) at 1 by done.
  unfold f, fitting. rewrite text_to_length, point_text_length. rewrite length_app in *.
  rewrite sign_text_length, (int_text_length _ _ _ _ _ S) in *. rewrite d2s_widths_fit by done.
  replace (if Z.of_nat g =? 0 then 1 else Z.of_nat g) with (Z.of_nat (if (g =? 0)%nat then 1%nat else g)); [done|].
  destruct (Nat.eqb_spec g 0) as [->|]; [done|by rewrite (proj2 (Z.eqb_neq _ _)) by lia].
Qed.

(** C10: [decimal2string] without a fixed precision writes the sign, the integer
    part without leading zeros and the digits of the fraction, ends the text
    with a NUL and returns its length, whenever the sign and the integer part
    fit in the [to_len] bytes of the buffer and the number has less than 2^16
    digits before the point.  If the whole number fits the
    result is E_DEC_OK; otherwise it is E_DEC_TRUNCATED, and the last digits of
    the fraction (and a point left without digits) are cut.  The rest of the
    buffer is not changed. *)
Theorem decimal2string_correct d to to_len filler : wf d -> intg d < 2 ^ 16 -> (to_len <= length to)%nat ->
  (length (sign_text d ++ int_text (int_part d)) < to_len)%nat ->
  let t := text_to d (fitting d to_len) in
  decimal2string d to (Z.of_nat to_len) 0 0 filler =
    Some (if (fitting d to_len =? Z.to_nat (frac d))%nat then E_DEC_OK else E_DEC_TRUNCATED,
          t ++ 0 :: drop (S (length t)) to, Z.of_nat (length t)).
Proof.
  intros H Hu Hl Hn t. destruct (printed_source d H Hu) as (b0 & g0 & src & q & n & g & E & S & E1 & E2 & E3).
  unfold decimal2string. rewrite E. cbn [mbind option_bind]. change (decimal_digits_t 0) with 0.
  rewrite E1, E2, E3, (d2s_widths_source _ _ _ _ _ _ H S) by done.
  destruct (fitting_bounds d to_len Hn) as [Hf Hfit]. fold t in Hfit |- *. pose proof (text_to_length d (fitting d to_len)) as Et. fold t in Et.
  rewrite wr_ins by lia. cbn [mbind option_bind]. rewrite put_sign by (rewrite length_inserts; lia). cbn [mbind option_bind].
  rewrite <- Nat2Z.inj_add. rewrite (put_point _ _ _ _ _ _ _ _ _ H S Hf) by (rewrite !length_inserts; lia).
  cbn [mbind option_bind]. rewrite (put_int _ _ _ _ _ _ _ _ _ S) by (rewrite !length_inserts; lia).
  rewrite (inserts_comm _ 0 (sign_text d)) by lia. rewrite (inserts_back _ 0 (sign_text d)) by done.
  rewrite inserts_front by (by rewrite length_app). rewrite inserts_front by (rewrite !length_app; lia).
  assert (E4 : (sign_text d ++ int_text (int_part d)) ++ point_text d (fitting d to_len) = t) by (symmetry; apply app_assoc).
  rewrite E4. rewrite inserts_all by (rewrite length_app; cbn; lia). rewrite length_app, Nat.add_1_r, <- app_assoc. done.
Qed.

Lemma decimal2string_correct_witness :
  decimal2string (mk_decimal 5 3 true [12345; 987000000]) (repeat 99 12) 9 0 0 0 =
  Some (E_DEC_TRUNCATED, [45; 49; 50; 51; 52; 53; 46; 57; 0; 99; 99; 99], 8).
Proof.
  rewrite (decimal2string_correct _ (repeat 99 12) 9%nat 0); [reflexivity|apply wfb_sound; reflexivity|reflexivity|cbn; lia|].
  apply Nat.ltb_lt. reflexivity.
Defined.

Lemma fill_inserts n : forall to p x, (p + n <= length to)%nat ->
  fill n to (Z.of_nat p) x = Some (list_inserts p (repeat x n) to, Z.of_nat (p + n)).
Proof.
  induction n as [|n IH]; intros to p x Hp; cbn [fill repeat].
  { by rewrite Nat.add_0_r. }
  rewrite wr_ins by lia. cbn [mbind option_bind]. replace (Z.of_nat p + 1) with (Z.of_nat (p + 1)) by lia.
  rewrite IH by (rewrite length_inserts; lia). rewrite inserts_back by done. cbn [app]. do 2 f_equal. lia.
Qed.

(** The first words of the integer part. *)
Lemma source_prefix d src q n g k : source d src q n g -> (0 < k <= g)%nat ->
  let m := Z.to_nat (ROUND_UP (Z.of_nat k)) in
  (q + m <= length src)%nat /\ words_ok (seg src q m) /\ (9 * m - 8 <= k <= 9 * m)%nat /\
  ROUND_UP (Z.of_nat k) = Z.of_nat m.
Proof.
  intros S Hk m. destruct (source_round _ _ _ _ _ S) as [R1 R2]. pose proof (source_len _ _ _ _ _ S).
  pose proof (ROUND_UP_bounds (Z.of_nat k) ltac:(lia)) as R. assert (Hm : (m <= n)%nat) by lia.
  split_and!; try lia. pose proof (source_words _ _ _ _ _ S) as W.
  replace n with (m + (n - m))%nat in W by lia. rewrite seg_plus in W. by apply words_app in W as [W _].
Qed.



End DecimalTextProofs.
