(* ===== verification/DecimalRound.v ===== *)
(** * Fixed-point numbers: rounding (strings/decimal.c)

    [decimal_round], for a result in a buffer of its own or in the one of the
    operand. *)

From S2P Require Import Prelude TimeBinary Decimal DecimalText.
Import Decimal DecimalText.

#[local] Open Scope Z_scope.

Module DecimalRound.

Inductive decimal_round_mode := TRUNCATE | HALF_EVEN | HALF_UP | CEILING | FLOOR.

#[global] Instance decimal_round_mode_eq_dec : EqDecision decimal_round_mode.
Proof. solve_decision. Defined.

Definition round_digit (mode : decimal_round_mode) (sign : bool) : Z :=
  match mode with
  | HALF_UP | HALF_EVEN => 5
  | CEILING => if sign then 10 else 0
  | FLOOR => if sign then 0 else 10
  | TRUNCATE => 10
  end.

(** Whether the words behind [buf0], when the scale is at a word boundary, make
    the number one larger; [n] is [frac0+intg0]. *)
Definition do_inc (mode : decimal_round_mode) (rd_ : Z) (b : list Z) (buf0 n frac0 frac1 : Z) : option bool :=
  if rd_ =? 0 then p0 ← skip_zeros_down (Z.to_nat (frac1 - frac0)) b (buf0 + (frac1 - frac0)); Some (buf0 <? p0) else
  if rd_ =? 5 then
    w ← rd b (buf0 + 1);
    let x := Z.quot w DIG_MASK in
    odd ← (if 0 <? n then w0 ← rd b buf0; Some (Z.odd w0) else Some false);
    Some ((5 <? x) || ((x =? 5) && (bool_decide (mode = HALF_UP) || odd)))
  else Some false.

(** The rounding of one word: the buffer and [buf1]; [None] inside is the
    return of zero. *)
Definition round_word (mode : decimal_round_mode) (rd_ : Z) (b : list Z) (buf0 n frac0 frac1 scale : Z) :
    option (option (list Z * Z)) :=
  if scale =? frac0 * DIG_PER_DEC1 then
    inc ← do_inc mode rd_ b buf0 n frac0 frac1;
    if (inc : bool) then
      if 0 <? n then w ← rd b buf0; b ← wr b buf0 (w + 1); Some (Some (b, buf0))
      else b ← wr b (buf0 + 1) DIG_BASE; Some (Some (b, buf0 + 1))
    else Some (if n =? 0 then None else Some (b, buf0))
  else
    w ← rd b buf0; p ← rd powers10 (frac0 * DIG_PER_DEC1 - scale - 1);
    let x := Z.quot w p in
    let y := Z.rem x 10 in
    let x := if (rd_ <? y) || ((rd_ =? 5) && (y =? 5) && (bool_decide (mode = HALF_UP) || Z.odd (Z.quot x 10)))
             then x + 10 else x in
    b ← wr b buf0 (p * (x - y));
    Some (Some (b, buf0)).

(** [while (carry && --buf1 >= to->buf) ADD( *buf1, *buf1, 0, carry)]; [n] is
    [buf1 - to->buf].  The buffer, [buf1] and the carry. *)
Fixpoint round_carry (n : nat) (b : list Z) (carry : Z) : option (list Z * Z * Z) :=
  if carry =? 0 then Some (b, Z.of_nat n, carry) else
  match n with
  | O => Some (b, -1, carry)
  | S n =>
      w ← rd b (Z.of_nat n);
      let '(w, carry) := ADD w 0 carry in
      b ← wr b (Z.of_nat n) w;
      round_carry n b carry
  end.

(** [for (buf1=...; buf1 > to->buf; buf1--) buf1[0]=buf1[-1]] *)
Fixpoint shift_words (buf1 : nat) (b : list Z) : option (list Z) :=
  match buf1 with
  | O => Some b
  | S n => w ← rd b (Z.of_nat n); b ← wr b (Z.of_nat (S n)) w; shift_words n b
  end.

(** From the rounded word on: the carry, or the test for zero, and the zeros
    behind the scale. *)
Definition round_finish (b : list Z) (buf1 len intg0 frac0 frac1 scale error : Z) (tsign : bool) (tintg : Z) :
    option (Z * decimal_t) :=
  w ← rd b buf1;
  '(b, buf1, intg0, frac0, scale, error, tintg, zero) ←
    (if DIG_BASE <=? w then
       b ← wr b buf1 (w - DIG_BASE);
       '(b, buf1, carry) ← round_carry (Z.to_nat buf1) b 1;
       if carry =? 0 then Some (b, buf1, intg0, frac0, scale, error, tintg, false) else
       let full := len <=? frac0 + intg0 in
       let frac0 := if full then frac0 - 1 else frac0 in
       let scale := if full then frac0 * DIG_PER_DEC1 else scale in
       let error := if full then E_DEC_TRUNCATED else error in
       b ← shift_words (Z.to_nat (intg0 + Z.max frac0 0)) b;
       b ← wr b 0 1;
       Some (b, 0, intg0 + 1, frac0, scale, error, tintg + 1, false)
     else
       buf1 ← skip_zeros_down (Z.to_nat (buf1 + 1)) b buf1;
       Some (b, buf1, intg0, frac0, scale, error, tintg, buf1 <? 0));
  if (zero : bool) then
    '(b, _) ← fill (Z.to_nat (frac0 + 1)) b 0 0;
    Some (E_DEC_OK, mk_decimal 1 (Z.max scale 0) false b)
  else
  b ← (if frac0 <? frac1 then
         let start := if (scale =? 0) && (intg0 =? 0) then 1 else intg0 + frac0 in
         '(b, _) ← fill (Z.to_nat (len - start)) b start 0; Some b
       else Some b);
  let first_dig := Z.rem tintg DIG_PER_DEC1 in
  tintg ← (if first_dig =? 0 then Some tintg else
           w ← rd b buf1; p ← rd powers10 first_dig; Some (if p <=? w then tintg + 1 else tintg));
  Some (error, mk_decimal tintg (Z.max scale 0) tsign b).

(** [same] is [to == from]; the error code and [*to]. *)
Definition decimal_round (same : bool) (from to : decimal_t) (scale : Z) (mode : decimal_round_mode) :
    option (Z * decimal_t) :=
  let frac0 := if 0 <? scale then ROUND_UP scale else Z.quot scale DIG_PER_DEC1 in
  let frac1 := ROUND_UP (frac from) in
  let intg0 := ROUND_UP (intg from) in
  let len := len to in
  let cut := len <? frac0 + intg0 in
  let frac0 := if cut then len - intg0 else frac0 in
  let scale := if cut then frac0 * DIG_PER_DEC1 else scale in
  let error := if cut then E_DEC_TRUNCATED else E_DEC_OK in
  if scale + intg from <? 0 then d ← decimal_make_zero to; Some (E_DEC_OK, d) else
  '(b, tsign, tintg) ←
    (if same then Some (buf to, sign to, intg to) else
     let p := intg0 + Z.max frac1 frac0 in
     '(b, _, _) ← copy_down (Z.to_nat p) (buf from) p (buf to) p;
     Some (b, sign from, Z.min intg0 len * DIG_PER_DEC1));
  if frac1 <? frac0 then
    '(b, _) ← fill (Z.to_nat (frac0 - frac1)) b (intg0 + frac1) 0;
    Some (error, mk_decimal tintg scale tsign b)
  else if frac from <=? scale then Some (error, mk_decimal tintg scale tsign b) else
  r ← round_word mode (round_digit mode (sign from)) b (intg0 + frac0 - 1) (frac0 + intg0) frac0 frac1 scale;
  match r with
  | None => d ← decimal_make_zero (mk_decimal tintg (frac to) tsign b); Some (E_DEC_OK, d)
  | Some (b, buf1) => round_finish b buf1 len intg0 frac0 frac1 scale error tsign tintg
  end.

End DecimalRound.
