(* ===== verification/DecimalRoundWord.v ===== *)
(** * Fixed-point numbers: the rounding of one word

    What rounding means, and that [round_word] leaves the rounded number in the
    words that are kept, before the carry. *)

From Stdlib Require Import QArith.
From S2P Require Import Prelude IntConvProofs Decimal DecimalProofs DecimalAdd DecimalCmp DecimalSub DecimalBytes DecimalInt DecimalBinRead DecimalMul DecimalText DecimalTextProofs DecimalRound.
Import IntConvProofs Decimal DecimalProofs DecimalAdd DecimalCmp DecimalSub DecimalBytes DecimalInt DecimalBinRead DecimalMul DecimalText DecimalTextProofs DecimalRound.

#[local] Open Scope Z_scope.

Module DecimalRoundWord.

(** ** Specification *)

(** The number of units [u] the absolute value [m] is rounded to. *)
Definition rounded (mode : decimal_round_mode) (sg : bool) (m u : Z) : Z :=
  let down := m / u in
  let up := (m + u - 1) / u in
  match mode with
  | TRUNCATE => down
  | HALF_UP => (2 * m + u) / (2 * u)
  | HALF_EVEN => if 2 * (m mod u) =? u then down + down mod 2 else (2 * m + u) / (2 * u)
  | CEILING => if sg then down else up
  | FLOOR => if sg then up else down
  end.

(** What the code supports: the directed modes at the end of a word. *)
Definition exact_mode (mode : decimal_round_mode) (s : Z) : Prop :=
  match mode with
  | TRUNCATE | HALF_UP => True
  | CEILING | FLOOR => 0 <= s /\ s mod 9 = 0
  | HALF_EVEN => False
  end.

(** ** The remainder decides *)

Definition rounds_up (mode : decimal_round_mode) (sg : bool) (r u : Z) : bool :=
  match mode with
  | HALF_UP => u <=? 2 * r
  | CEILING => negb sg && negb (r =? 0)
  | FLOOR => sg && negb (r =? 0)
  | _ => false
  end.

Lemma div_half m u : 0 < u -> (2 * m + u) / (2 * u) = m / u + Z.b2z (u <=? 2 * (m mod u)).
Proof.
  intros Hu. pose proof (Z.div_mod m u ltac:(lia)) as D. pose proof (Z.mod_pos_bound m u Hu) as M.
  symmetry. destruct (Z.leb_spec u (2 * (m mod u))) as [H|H]; cbn [Z.b2z].
  - apply (Z.div_unique_pos _ _ _ (2 * (m mod u) - u)); lia.
  - apply (Z.div_unique_pos _ _ _ (2 * (m mod u) + u)); lia.
Qed.

Lemma div_up m u : 0 < u -> (m + u - 1) / u = m / u + Z.b2z (negb (m mod u =? 0)).
Proof.
  intros Hu. pose proof (Z.div_mod m u ltac:(lia)) as D. pose proof (Z.mod_pos_bound m u Hu) as M.
  symmetry. destruct (Z.eqb_spec (m mod u) 0) as [H|H]; cbn [Z.b2z negb].
  - apply (Z.div_unique_pos _ _ _ (u - 1)); lia.
  - apply (Z.div_unique_pos _ _ _ (m mod u - 1)); lia.
Qed.

Lemma rounded_up mode sg m u s : exact_mode mode s -> 0 < u ->
  rounded mode sg m u = m / u + Z.b2z (rounds_up mode sg (m mod u) u).
Proof.
  intros Hm Hu. destruct mode; cbn in Hm |- *; rewrite ?div_half, ?div_up by done; try (by rewrite Z.add_0_r); try done;
    destruct sg; cbn; by rewrite ?Z.add_0_r.
Qed.

Lemma rounded_split mode sg h r u s : exact_mode mode s -> 0 <= r < u ->
  rounded mode sg (h * u + r) u = h + Z.b2z (rounds_up mode sg r u).
Proof.
  intros Hm Hr. rewrite (rounded_up _ _ _ _ s) by (done || lia). rewrite Z.div_add_l, Z.div_small by lia.
  rewrite (Z.add_comm (h * u) r), Z.mod_add, Z.mod_small by lia. lia.
Qed.

(** ** One word *)

Lemma half_word w l j : 0 <= w < B -> 0 <= l < B ^ Z.of_nat j ->
  (B ^ Z.of_nat (S j) <=? 2 * (w * B ^ Z.of_nat j + l)) = (5 <=? w / 10 ^ 8).
Proof.
  intros Hw Hl. rewrite Nat2Z.inj_succ, Z.pow_succ_r by lia. set (Y := B ^ Z.of_nat j) in *. clearbody Y.
  unfold DIG_BASE in *. pose proof (Z.div_mod w (10 ^ 8) ltac:(lia)) as D. pose proof (Z.mod_pos_bound w (10 ^ 8) ltac:(lia)) as M.
  change (10 ^ 8) with 100000000 in *. set (x := w / 100000000) in *. clearbody x.
  destruct (Z.leb_spec 5 x) as [H|H]; [apply Z.leb_le|apply Z.leb_gt]; nia.
Qed.

Lemma do_inc_spec mode sg b k j f0 f1 s : exact_mode mode s -> (k + j <= length b)%nat -> words_ok (seg b k j) ->
  (1 <= j)%nat -> f1 - f0 = Z.of_nat j ->
  do_inc mode (round_digit mode sg) b (Z.of_nat k - 1) (Z.of_nat k) f0 f1 =
  Some (rounds_up mode sg (num (seg b k j)) (B ^ Z.of_nat j)).
Proof.
  intros Hm Hl W Hj Hf.
  assert (Hz : ('(p0) ← skip_zeros_down (Z.to_nat (f1 - f0)) b (Z.of_nat k - 1 + (f1 - f0)); Some (Z.of_nat k - 1 <? p0)) =
          Some (negb (num (seg b k j) =? 0))).
  { rewrite Hf, Nat2Z.id. replace (Z.of_nat k - 1 + Z.of_nat j) with (Z.of_nat (k + j) - 1) by lia.
    destruct (skip_zeros_down_spec j b k Hl) as (i & -> & Hi & E & N). cbn [mbind option_bind]. f_equal.
    destruct (Z.ltb_spec (Z.of_nat k - 1) (Z.of_nat (k + i) - 1)) as [C|C].
    - destruct N as (w & Hw & H0); [lia|]. assert (0 < num (seg b k j)); [|by rewrite (proj2 (Z.eqb_neq _ _)) by lia].
      apply (num_pos _ (i - 1) w); try done. unfold seg. rewrite lookup_take_lt, lookup_drop by lia. rewrite <- Hw. f_equal. lia.
    - replace i with 0%nat in E by lia. rewrite E. change (seg b k 0) with (@nil Z). cbn [app]. by rewrite num_zeros. }
  destruct mode; try done; cbn [round_digit rounds_up].
  - destruct j as [|j]; [lia|]. destruct (lookup_lt_is_Some_2 b k) as [w Hw]; [lia|].
    rewrite (seg_cons _ _ _ _ Hw) in W |- *. apply Forall_cons in W as [H0 W]. rewrite num_cons.
    pose proof (num_bounds _ W) as Bn. rewrite seg_length in Bn |- * by lia. rewrite half_word by done.
    unfold do_inc. cbn [Z.eqb Pos.eqb]. replace (Z.of_nat k - 1 + 1) with (Z.of_nat k) by lia. rewrite rd_nat, Hw. cbn [mbind option_bind].
    assert (Eo : exists o, (if 0 <? Z.of_nat k then w0 ← rd b (Z.of_nat k - 1); Some (Z.odd w0) else Some false) = Some o).
    { destruct k as [|k]; [by exists false|]. rewrite (proj2 (Z.ltb_lt _ _)) by lia. rewrite pred_of_nat, rd_nat.
      destruct (lookup_lt_is_Some_2 b k) as [w0 ->]; [lia|]. by eexists. }
    destruct Eo as [o ->]. cbn [mbind option_bind]. f_equal. rewrite bool_decide_true by done. cbn [orb].
    unfold DIG_MASK. rewrite Z.quot_div_nonneg by lia. change (10 ^ 8) with 100000000.
    rewrite andb_true_r. destruct (Z.leb_spec 5 (w / 100000000)); destruct (Z.ltb_spec 5 (w / 100000000)); destruct (Z.eqb_spec (w / 100000000) 5); done || lia.
  - destruct sg; [done|]. exact Hz.
  - destruct sg; [|done]. exact Hz.
Qed.


Lemma insert_split (b : list Z) k w : (k < length b)%nat -> <[k:=w]> b = take k b ++ w :: drop (S k) b.
Proof. intros H. apply insert_take_drop. done. Qed.

Lemma num_take_S b k w : b !! k = Some w -> num (take (S k) b) = num (take k b) * B + w.
Proof. intros H. by rewrite (take_S_r _ _ w), num_snoc. Qed.

(** The buffer holds [R] in its first [k] words, before the carry: the last of
    them may be as large as the base. *)
Definition uncarried (b : list Z) (k : nat) (R : Z) (b' : list Z) (p : Z) : Prop :=
  k = 0%nat /\ p = 0 /\ b' = B :: drop 1 b /\ R = 1 \/
  p = Z.of_nat k - 1 /\ (0 < k)%nat /\ exists w, 0 <= w <= B /\ b' = take (k - 1) b ++ w :: drop k b /\ R = num (take (k - 1) b) * B + w.

Lemma round_word_boundary mode sg b k j f0 f1 : exact_mode mode (9 * f0) -> (k + j <= length b)%nat ->
  words_ok (take (k + j) b) -> (1 <= j)%nat -> f1 - f0 = Z.of_nat j ->
  let R := rounded mode sg (num (take (k + j) b)) (B ^ Z.of_nat j) in
  exists res, round_word mode (round_digit mode sg) b (Z.of_nat k - 1) (Z.of_nat k) f0 f1 (9 * f0) = Some res /\
    match res with None => k = 0%nat /\ R = 0 | Some (b', p) => uncarried b k R b' p end.
Proof.
  intros Hm Hl W Hj Hf. assert (W' : words_ok (seg b k j)) by (by apply (seg_words _ _ _ (k + j))).
  pose proof (num_bounds _ W') as Bn. rewrite seg_length in Bn by lia.
  intros R. unfold R. clear R. rewrite num_take_split, (rounded_split _ _ _ _ _ _ Hm) by done.
  unfold round_word, DIG_PER_DEC1. rewrite (proj2 (Z.eqb_eq _ _)) by lia.
  rewrite (do_inc_spec mode sg b k j f0 f1 (9 * f0)) by done. cbn [mbind option_bind].
  set (inc := rounds_up _ _ _ _). clearbody inc. destruct k as [|k].
  - change (0 <? Z.of_nat 0) with false. change (Z.of_nat 0 =? 0) with true. cbn [take]. change (num []) with 0. destruct inc.
    + replace (Z.of_nat 0 - 1 + 1) with (Z.of_nat 0) by lia. rewrite wr_nat by lia. cbn [mbind option_bind].
      eexists. split; [done|]. left. split_and!; try done. rewrite insert_split by lia. done.
    + by exists None.
  - rewrite (proj2 (Z.ltb_lt _ _)), (proj2 (Z.eqb_neq _ _)) by lia. rewrite pred_of_nat.
    destruct (lookup_lt_is_Some_2 b k) as [w Hw]; [lia|]. rewrite (num_take_S _ _ _ Hw).
    assert (H0 : 0 <= w < B) by (apply (word_at b k); [by apply (words_take _ _ (S k + j)); [|lia]|done]).
    assert (E : forall v, uncarried b (S k) (num (take k b) * B + v) (take k b ++ v :: drop (S k) b) (Z.of_nat k) <-> 0 <= v <= B).
    { intros v. unfold uncarried. replace (S k - 1)%nat with k by lia. split; [intros [?|(_ & _ & v' & ? & E & ?)]; lia|].
      intros Hv. right. split; [lia|]. split; [lia|]. by exists v. }
    destruct inc.
    + rewrite rd_nat, Hw. cbn [mbind option_bind]. rewrite wr_nat by lia. cbn [mbind option_bind].
      eexists. split; [done|]. rewrite insert_split by lia. cbn [Z.b2z]. rewrite <- Z.add_assoc. apply E. lia.
    + eexists. split; [done|]. cbn [Z.b2z]. rewrite Z.add_0_r. pose proof (E w) as Ew. rewrite (take_drop_middle b k w Hw) in Ew. apply Ew. lia.
Qed.

Lemma half_digit w p U l : 0 < p -> 0 <= w -> 0 <= l < U ->
  (10 * p * U <=? 2 * (w mod (10 * p) * U + l)) = (5 <=? w / p mod 10).
Proof.
  intros Hp Hw Hl. pose proof (Z.mod_pos_bound (w / p) 10 ltac:(lia)) as Hy. pose proof (Z.mod_pos_bound w p Hp) as Hr.
  rewrite (Z.mul_comm 10 p), Z.rem_mul_r by lia. set (y := w / p mod 10) in *. set (r := w mod p) in *. clearbody y r.
  destruct (Z.leb_spec 5 y) as [H|H]; [apply Z.leb_le|apply Z.leb_gt].
  - assert (5 * p * U <= y * p * U) by (apply Z.mul_le_mono_nonneg_r; [lia|]; apply Z.mul_le_mono_nonneg_r; lia). nia.
  - assert ((r + p * y + 1) * U <= 5 * p * U) by (apply Z.mul_le_mono_nonneg_r; [lia|nia]). nia.
Qed.

(** The word with its last [e] digits rounded. *)
Lemma rounded_word mode sg h w l U e s : exact_mode mode s -> s mod 9 ≠ 0 -> 1 <= e <= 8 -> 0 <= w < B -> 0 <= l < U ->
  let p := 10 ^ (e - 1) in let x := Z.quot w p in let y := Z.rem x 10 in
  let x' := if (round_digit mode sg <? y) ||
      ((round_digit mode sg =? 5) && (y =? 5) && (bool_decide (mode = HALF_UP) || Z.odd (Z.quot x 10))) then x + 10 else x in
  rounded mode sg ((h * B + w) * U + l) (10 ^ e * U) * 10 ^ e = h * B + p * (x' - y) /\ 0 <= p * (x' - y) <= B.
Proof.
  intros Hm Hs He Hw Hl. intros p x y x'.
  assert (Pp : 0 < p) by (apply Z.pow_pos_nonneg; lia).
  assert (Eq : 10 ^ e = 10 * p) by (unfold p; rewrite <- Z.pow_succ_r by lia; f_equal; lia).
  assert (EB : B = 10 ^ (9 - e) * (10 * p)) by (rewrite <- Eq, <- Z.pow_add_r by lia; change B with (10 ^ 9); f_equal; lia).
  assert (Ex : x = w / p) by (unfold x; apply Z.quot_div_nonneg; lia).
  assert (X0 : 0 <= w / p) by (apply Z.div_pos; lia).
  assert (Ey : y = w / p mod 10) by (unfold y; rewrite Ex; apply Z.rem_mod_nonneg; lia).
  pose proof (Z.mod_pos_bound (w / p) 10 ltac:(lia)) as Hy.
  assert (Ei : x' = x + 10 * Z.b2z (rounds_up mode sg (w mod (10 * p) * U + l) (10 * p * U))).
  { unfold x'. clear x'. rewrite Ey. destruct mode; cbn in Hm; try lia; cbn [round_digit rounds_up].
    - rewrite (proj2 (Z.ltb_ge _ _)) by lia. cbn. lia.
    - rewrite half_digit by lia. rewrite bool_decide_true by done. cbn [Z.eqb Pos.eqb andb orb].
      destruct (Z.leb_spec 5 (w / p mod 10)); destruct (Z.ltb_spec 5 (w / p mod 10)); destruct (Z.eqb_spec (w / p mod 10) 5); cbn; lia. }
  assert (Eh : (h * B + w) * U + l = (h * 10 ^ (9 - e) + w / (10 * p)) * (10 * p * U) + (w mod (10 * p) * U + l)).
  { rewrite EB. rewrite (Z.div_mod w (10 * p)) at 1 by lia. ring. }
  assert (Hq : 0 <= w mod (10 * p) * U + l < 10 * p * U).
  { pose proof (Z.mod_pos_bound w (10 * p)) as Hq. set (r := w mod (10 * p)) in *. clearbody r. clear -Hq Hl Pp. nia. }
  rewrite Eq, Eh, (rounded_split _ _ _ _ _ s Hm Hq).
  rewrite Ei, Ex, Ey. set (inc := rounds_up _ _ _ _). clearbody inc. clear Ei Ex Ey Eh Hq Hm Hl Hs x'. clear y. clear x.
  assert (Ez : w / (10 * p) = w / p / 10) by (rewrite (Z.mul_comm 10), Z.div_div by lia; done).
  assert (Hw' : w / p / 10 < 10 ^ (9 - e)) by (rewrite <- Ez; apply Z.div_lt_upper_bound; [|rewrite EB in Hw]; lia).
  rewrite Ez. assert (W0 : 0 <= w / p / 10) by (apply Z.div_pos; lia).
  replace (w / p + 10 * Z.b2z inc - w / p mod 10) with (10 * (w / p / 10 + Z.b2z inc))
    by (pose proof (Z.div_mod (w / p) 10 ltac:(lia)) as D; clear -D; lia).
  set (z := w / p / 10) in *. set (Y := 10 ^ (9 - e)) in *. rewrite EB. clear -Pp Hw' W0. clearbody Y z p.
  assert (0 <= Z.b2z inc <= 1) by (destruct inc; cbn; lia). split; [ring|]. nia.
Qed.

Lemma round_word_inner mode sg b k j f0 f1 s : exact_mode mode s -> 1 <= 9 * f0 - s <= 8 -> (k + j <= length b)%nat ->
  words_ok (take (k + j) b) -> (0 < k)%nat ->
  let e := 9 * f0 - s in let R := rounded mode sg (num (take (k + j) b)) (10 ^ e * B ^ Z.of_nat j) * 10 ^ e in
  exists b' p, round_word mode (round_digit mode sg) b (Z.of_nat k - 1) (Z.of_nat k) f0 f1 s = Some (Some (b', p)) /\
    uncarried b k R b' p.
Proof.
  intros Hm He Hl W Hk e R. destruct k as [|k]; [lia|]. rewrite pred_of_nat.
  assert (Hs : s mod 9 ≠ 0) by (intros C; apply Z.mod_divide in C as [c ->]; lia).
  assert (W' : words_ok (seg b (S k) j)) by (by apply (seg_words _ _ _ (S k + j))).
  pose proof (num_bounds _ W') as Bn. rewrite seg_length in Bn by lia.
  destruct (lookup_lt_is_Some_2 b k) as [w Hw]; [lia|].
  assert (H0 : 0 <= w < B) by (apply (word_at b k); [by apply (words_take _ _ (S k + j)); [|lia]|done]).
  destruct (rounded_word mode sg (num (take k b)) w (num (seg b (S k) j)) (B ^ Z.of_nat j) e s Hm Hs He H0 Bn) as [E1 E2].
  unfold R. rewrite num_take_split by lia. rewrite (num_take_S _ _ _ Hw), E1. hide E2. clear E1 R Bn H0.
  unfold round_word, DIG_PER_DEC1. rewrite (proj2 (Z.eqb_neq _ _)) by lia. rewrite rd_nat, Hw. cbn [mbind option_bind].
  replace (f0 * 9 - s - 1) with (Z.of_nat (Z.to_nat (e - 1))) by (unfold e; lia). rewrite powers10_pow by (unfold e; lia).
  cbn [mbind option_bind]. rewrite Z2Nat.id by (unfold e; lia). rewrite wr_nat by lia. cbn [mbind option_bind].
  eexists _, _. split; [done|]. right. split; [lia|]. split; [lia|].
  eexists. split; [exact E2|]. replace (S k - 1)%nat with k by lia. split; [|done]. by rewrite insert_split by lia.
Qed.

End DecimalRoundWord.
