(* ===== verification/DecimalRoundProofs.v ===== *)
(** * Fixed-point numbers: correctness of rounding

    [decimal_round] gives the multiple of the last place that the mode asks
    for, when there is a word to spare for a carry. *)

From Stdlib Require Import QArith.
From S2P Require Import Prelude IntConvProofs Decimal DecimalProofs DecimalAdd DecimalCmp DecimalSub DecimalBytes DecimalInt DecimalBinRead DecimalMul DecimalText DecimalTextProofs DecimalRound DecimalRoundWord.
Import IntConvProofs Decimal DecimalProofs DecimalAdd DecimalCmp DecimalSub DecimalBytes DecimalInt DecimalBinRead DecimalMul DecimalText DecimalTextProofs DecimalRound DecimalRoundWord.

#[local] Open Scope Z_scope.

Module DecimalRoundProofs.

(** ** The carry *)

Lemma round_carry_done n b : round_carry n b 0 = Some (b, Z.of_nat n, 0).
Proof. by destruct n. Qed.

Lemma round_carry_spec pre rest : words_ok pre ->
  exists pre' p c, round_carry (length pre) (pre ++ rest) 1 = Some (pre' ++ rest, p, c) /\ length pre' = length pre /\
    words_ok pre' /\ num pre' + c * B ^ Z.of_nat (length pre) = num pre + 1 /\ (c = 0 \/ c = 1 /\ pre' = repeat 0 (length pre)).
Proof.
  revert rest. induction pre as [|w pre IH] using rev_ind; intros rest W.
  { exists [], (-1), 1. split_and!; try done. by right. }
  apply words_app in W as [W Hw]. apply Forall_cons in Hw as [Hw _]. rewrite length_app, Nat.add_1_r. cbn [round_carry Z.eqb].
  rewrite <- !app_assoc. cbn [app]. rewrite rd_nat, list_lookup_middle by done. cbn [mbind option_bind].
  unfold ADD. rewrite Z.add_0_r. destruct (Z.leb_spec B (w + 1)) as [C|C];
    (rewrite wr_nat by (rewrite length_app; cbn; lia)); cbn [mbind option_bind]; rewrite insert_app_r_alt, Nat.sub_diag by lia; cbn [insert list_insert].
  - replace (w + 1 - B) with 0 by lia. destruct (IH (0 :: rest) W) as (pre' & p & c & E & L & W' & N & Z).
    exists (pre' ++ [0]), p, c. rewrite E, <- app_assoc. split; [done|]. rewrite length_app, L, Nat.add_1_r. split; [done|].
    split; [apply words_snoc; [done|unfold DIG_BASE; lia]|]. rewrite !num_snoc, Nat2Z.inj_succ, Z.pow_succ_r by lia. split; [lia|].
    destruct Z as [Z|[Z ->]]; [by left|right]. split; [done|]. by rewrite <- repeat_cons.
  - exists (pre ++ [w + 1]), (Z.of_nat (length pre)), 0. rewrite round_carry_done, <- app_assoc. split; [done|].
    rewrite length_app, Nat.add_1_r. split; [done|]. split; [apply words_snoc; [done|lia]|]. rewrite !num_snoc. split; [lia|by left].
Qed.

Lemma shift_words_spec m b : (m < length b)%nat -> exists y, shift_words m b = Some (y :: take m b ++ drop (S m) b).
Proof.
  revert b. induction m as [|m IH]; intros b H.
  - destruct b as [|y b]; [cbn in H; lia|]. by exists y.
  - destruct (lookup_lt_is_Some_2 b m) as [w Hw]; [lia|]. cbn [shift_words]. rewrite rd_nat, Hw. cbn [mbind option_bind].
    rewrite wr_nat by done. cbn [mbind option_bind]. destruct (IH (<[S m:=w]> b)) as [y Hy]; [rewrite length_insert; lia|].
    exists y. rewrite Hy. do 2 f_equal. rewrite take_insert_ge by lia. rewrite (take_S_r _ _ _ Hw), <- app_assoc. f_equal.
    rewrite (drop_S _ w) by (by apply list_lookup_insert_eq). by rewrite drop_insert_lt by lia.
Qed.

(** ** The result *)

Lemma wf_words_result g f sg ws rest : words_ok ws -> 0 <= g -> 0 <= f ->
  length ws = (Z.to_nat (ROUND_UP g) + Z.to_nat (ROUND_UP f))%nat -> (1 <= length ws)%nat ->
  num ws < 10 ^ g * B ^ ROUND_UP f -> (10 ^ (9 * ROUND_UP f - f) | num ws) -> (sg = true -> num ws ≠ 0) ->
  let d := mk_decimal g f sg (ws ++ rest) in wf d /\ mag d = num ws /\ fw d = Z.to_nat (ROUND_UP f).
Proof.
  intros W Hg Hf Hl Hpos Ht Hd Hs d. pose proof (ROUND_UP_bounds f Hf) as BF.
  assert (Hws : words d = ws) by (unfold words, iw, fw, d; cbn [intg frac buf]; rewrite <- Hl; by rewrite take_app_length).
  assert (Hm : mag d = num ws) by (unfold mag; by rewrite Hws).
  assert (Hfw : fw d = Z.to_nat (ROUND_UP f)) by done.
  split; [|done]. split; rewrite ?Hws, ?Hm, ?Hfw, ?Z2Nat.id by lia; try done.
  unfold iw, fw, d. cbn [intg frac buf]. rewrite length_app. lia.
Qed.

(** A scale of [s] digits keeps [a] words of the fraction, or drops [c] words
    before the point. *)
Record scale_at (s : Z) (a c : nat) : Prop := {
  scale_one : a = 0%nat \/ c = 0%nat;
  scale_digits : 0 <= 9 * (Z.of_nat a - Z.of_nat c) - s <= 8;
  scale_frac : ROUND_UP (Z.max s 0) = Z.of_nat a
}.

Lemma scale_exists s : exists a c, scale_at s a c /\
  (if 0 <? s then ROUND_UP s else Z.quot s DIG_PER_DEC1) = Z.of_nat a - Z.of_nat c.
Proof.
  destruct (Z.ltb_spec 0 s) as [H|H].
  - pose proof (ROUND_UP_bounds s ltac:(lia)) as R. exists (Z.to_nat (ROUND_UP s)), 0%nat.
    split; [|lia]. split; [by right|lia|]. rewrite Z.max_l by lia. lia.
  - exists 0%nat, (Z.to_nat (- s / 9)). unfold DIG_PER_DEC1.
    assert (E : Z.quot s 9 = - (- s / 9)) by (replace s with (- - s) at 1 by lia; rewrite Z.quot_opp_l, Z.quot_div_nonneg by lia; done).
    rewrite E. pose proof (Z.div_mod (- s) 9 ltac:(lia)). pose proof (Z.mod_pos_bound (- s) 9 ltac:(lia)).
    split; [|lia]. split; [by left|lia|]. rewrite Z.max_r by lia. done.
Qed.

(** The zeros behind the scale. *)
Lemma round_zeros ws rest a c i f1 s : (length ws + c = i + a)%nat -> (a = 0 \/ c = 0)%nat -> (i + a <= length (ws ++ rest))%nat ->
  (s ≠ 0 \/ i ≠ 0%nat) ->
  exists rest', (if Z.of_nat a - Z.of_nat c <? Z.of_nat f1 then
      let start := if (s =? 0) && (Z.of_nat i =? 0) then 1 else Z.of_nat i + (Z.of_nat a - Z.of_nat c) in
      '(b, _) ← fill (Z.to_nat (Z.of_nat (length (ws ++ rest)) - start)) (ws ++ rest) start 0; Some b
    else Some (ws ++ rest)) = Some ((ws ++ repeat 0 c) ++ rest') /\
    length ((ws ++ repeat 0 c) ++ rest') = length (ws ++ rest).
Proof.
  intros Hl Hac Hlen Hs. destruct (Z.ltb_spec (Z.of_nat a - Z.of_nat c) (Z.of_nat f1)) as [C|C].
  - assert (E : (if (s =? 0) && (Z.of_nat i =? 0) then 1 else Z.of_nat i + (Z.of_nat a - Z.of_nat c)) = Z.of_nat (length ws)).
    { destruct (Z.eqb_spec s 0), (Z.eqb_spec (Z.of_nat i) 0); cbn [andb]; lia. }
    cbn zeta. rewrite E. rewrite length_app in *. rewrite fill_spec by (rewrite length_app; lia). cbn [mbind option_bind].
    rewrite take_app_length, drop_ge, app_nil_r by (rewrite length_app; lia).
    replace (Z.to_nat (Z.of_nat (length ws + length rest) - Z.of_nat (length ws))) with (c + (length rest - c))%nat by lia.
    exists (repeat 0 (length rest - c)). rewrite repeat_app, app_assoc. split; [done|].
    rewrite !length_app, !repeat_length. lia.
  - replace c with 0%nat by lia. exists rest. cbn [repeat]. by rewrite app_nil_r.
Qed.

(** The digits before the point. *)
Lemma round_close to sg ws rest a c i f1 g s p : words_ok ws -> 0 < num ws -> scale_at s a c ->
  (length ws + c = i + a)%nat -> 0 <= g -> ROUND_UP g = Z.of_nat i -> (a <= f1 + c)%nat ->
  (i + a <= length (ws ++ rest))%nat -> length (ws ++ rest) = length (buf to) ->
  num ws * B ^ Z.of_nat c < 10 ^ g * B ^ Z.of_nat a -> (10 ^ (9 * Z.of_nat a - Z.max s 0) | num ws) ->
  (Z.rem g 9 = 0 \/ p = 0 /\ Z.rem g 9 = 1 /\ head ws = Some 1) -> (s ≠ 0 \/ i ≠ 0%nat) ->
  exact
    (b ← (if Z.of_nat a - Z.of_nat c <? Z.of_nat f1 then
            let start := if (s =? 0) && (Z.of_nat i =? 0) then 1 else Z.of_nat i + (Z.of_nat a - Z.of_nat c) in
            '(b, _) ← fill (Z.to_nat (len to - start)) (ws ++ rest) start 0; Some b
          else Some (ws ++ rest));
     let first_dig := Z.rem g DIG_PER_DEC1 in
     tintg ← (if first_dig =? 0 then Some g else
              w ← rd b p; q ← rd powers10 first_dig; Some (if q <=? w then g + 1 else g));
     Some (E_DEC_OK, mk_decimal tintg (Z.max s 0) sg b)) to f1 (signed sg (num ws * B ^ Z.of_nat (f1 + c - a))).
Proof.
  intros W Hn S Hl Hg Hi Ha Hlen Hto Hb Hd Hf Hs. hide Hb. hide Hd. unfold len. rewrite <- Hto.
  destruct (round_zeros ws rest a c i f1 s Hl (scale_one _ _ _ S) Hlen Hs) as (rest' & E0 & L). cbn zeta in E0 |- *.
  rewrite E0. cbn [mbind option_bind].
  assert (E : (if Z.rem g DIG_PER_DEC1 =? 0 then Some g else
      w ← rd ((ws ++ repeat 0 c) ++ rest') p; q ← rd powers10 (Z.rem g DIG_PER_DEC1); Some (if q <=? w then g + 1 else g)) = Some g).
  { unfold DIG_PER_DEC1. destruct Hf as [->|(-> & -> & Hw)]; [done|]. destruct ws as [|w ws]; [done|]. injection Hw as ->. done. }
  rewrite E. cbn [mbind option_bind]. clear E E0.
  pose proof (scale_frac _ _ _ S) as Sf.
  destruct (wf_words_result g (Z.max s 0) sg (ws ++ repeat 0 c) rest') as (Wt & Mt & Ft);
    rewrite ?Sf, ?Hi, ?num_app, ?num_zeros, ?repeat_length, ?length_app, ?repeat_length, ?Z.add_0_r, ?Nat2Z.id; try exact Hb; try done.
  - apply words_app. split; [done|apply words_zeros].
  - lia.
  - assert (length ws ≠ 0%nat) by (destruct ws; [cbn in Hn; lia|done]). lia.
  - by apply Z.divide_mul_l.
  - intros _. pose proof (Bpow_pos c). nia.
  - rewrite num_app, num_zeros, repeat_length, Z.add_0_r in Mt. rewrite Sf, Nat2Z.id in Ft.
    eexists. split; [done|]. split; [done|]. split; [|split; [|cbn [buf]; congruence]].
    + rewrite Ft. pose proof (scale_one _ _ _ S) as So. clear -So Ha. lia.
    + cbn [sign]. f_equal. unfold scaled. rewrite Mt, Ft, <- Z.mul_assoc. f_equal. rewrite <- Z.pow_add_r by (clear; lia). f_equal.
      pose proof (scale_one _ _ _ S) as So. clear -So Ha. lia.
Qed.

(** ** After the rounded word *)

Section Finish.
Context (to : decimal_t) (sg : bool) (a c i f1 : nat) (s : Z).
Context (Hscale : scale_at s a c) (Ha : (a <= f1 + c)%nat) (Hroom : (i + a < length (buf to))%nat).

(** What is left to do when the words hold [R]. *)
Definition close (b : list Z) (p i' g : Z) : option (Z * decimal_t) :=
  b ← (if Z.of_nat a - Z.of_nat c <? Z.of_nat f1 then
         let start := if (s =? 0) && (i' =? 0) then 1 else i' + (Z.of_nat a - Z.of_nat c) in
         '(b, _) ← fill (Z.to_nat (len to - start)) b start 0; Some b
       else Some b);
  let first_dig := Z.rem g DIG_PER_DEC1 in
  tintg ← (if first_dig =? 0 then Some g else
           w ← rd b p; q ← rd powers10 first_dig; Some (if q <=? w then g + 1 else g));
  Some (E_DEC_OK, mk_decimal tintg (Z.max s 0) sg b).

Definition rounds_to (r : option (Z * decimal_t)) (R : Z) : Prop :=
  exact r to f1 (signed sg (R * B ^ Z.of_nat (f1 + c - a))).

Lemma close_same ws rest p : words_ok ws -> 0 < num ws -> (length ws + c = i + a)%nat ->
  length (ws ++ rest) = length (buf to) -> (10 ^ (9 * Z.of_nat a - Z.max s 0) | num ws) ->
  rounds_to (close (ws ++ rest) p (Z.of_nat i) (Z.of_nat i * 9)) (num ws).
Proof.
  intros W Hn Hl Hto Hd. assert (length ws ≠ 0%nat) by (destruct ws; [cbn in Hn; lia|done]).
  pose proof (scale_digits _ _ _ Hscale). pose proof (num_bounds _ W) as Bn.
  apply (round_close to sg ws rest a c i f1); try done; try lia.
  - pose proof (ROUND_UP_bounds (Z.of_nat i * 9)). lia.
  - rewrite (Z.mul_comm (Z.of_nat i)), <- B_pow10. pose proof (Bpow_pos c). rewrite <- Z.pow_add_r by lia.
    replace (Z.of_nat i + Z.of_nat a) with (Z.of_nat (length ws) + Z.of_nat c) by lia. rewrite Z.pow_add_r by lia. nia.
Qed.

Lemma num_one_zeros k : num (1 :: repeat 0 k) = B ^ Z.of_nat k.
Proof. rewrite num_cons, num_zeros, repeat_length. lia. Qed.

Lemma close_carry b k : take k b = repeat 0 k -> (k + c = i + a)%nat -> length b = length (buf to) ->
  (10 ^ (9 * Z.of_nat a - Z.max s 0) | B ^ Z.of_nat k) ->
  exists b', (b ← shift_words (Z.to_nat (Z.of_nat i + Z.max (Z.of_nat a - Z.of_nat c) 0)) b; wr b 0 1) = Some b' /\
    rounds_to (close b' 0 (Z.of_nat i + 1) (Z.of_nat i * 9 + 1)) (B ^ Z.of_nat k).
Proof.
  intros Hz Hk Hto Hd. hide Hd. pose proof (scale_one _ _ _ Hscale) as So. pose proof (scale_digits _ _ _ Hscale) as Sd.
  replace (Z.to_nat (Z.of_nat i + Z.max (Z.of_nat a - Z.of_nat c) 0)) with (i + a)%nat by lia.
  destruct (shift_words_spec (i + a) b) as [y ->]; [lia|]. cbn [mbind option_bind].
  rewrite (wr_nat _ 0) by (cbn; lia). eexists. split; [done|]. cbn [insert list_insert].
  assert (Et : take (i + a) b = repeat 0 k ++ drop k (take (i + a) b)).
  { rewrite <- (take_drop k (take (i + a) b)) at 1. f_equal. rewrite take_take, Nat.min_l by lia. done. }
  rewrite Et, <- app_assoc. set (rest := drop k (take (i + a) b) ++ _). rewrite app_comm_cons.
  replace (Z.of_nat i + 1) with (Z.of_nat (S i)) by lia. rewrite <- num_one_zeros.
  apply (round_close to sg _ rest a c (S i) f1); try done; try (cbn [length]; rewrite ?repeat_length; lia).
  - constructor; [unfold DIG_BASE; lia|apply words_zeros].
  - rewrite num_one_zeros. apply Bpow_pos.
  - pose proof (ROUND_UP_bounds (Z.of_nat i * 9 + 1)). lia.
  - unfold rest. rewrite <- app_comm_cons, app_assoc. cbn [length]. rewrite <- Et.
    rewrite length_app, length_take, length_drop. lia.
  - unfold rest. rewrite <- app_comm_cons, app_assoc. cbn [length]. rewrite <- Et.
    rewrite length_app, length_take, length_drop. lia.
  - rewrite num_one_zeros. rewrite Z.pow_add_r, (Z.mul_comm (Z.of_nat i)), <- B_pow10 by lia.
    rewrite <- Z.pow_add_r by lia. replace (Z.of_nat k + Z.of_nat c) with (Z.of_nat i + Z.of_nat a) by lia.
    rewrite Z.pow_add_r by lia. pose proof (Bpow_pos i). pose proof (Bpow_pos a). nia.
  - rewrite num_one_zeros. exact Hd.
  - right. split; [done|]. split; [|done]. rewrite Z.rem_mod_nonneg by lia. rewrite Z.add_comm, Z.mod_add; done.
Qed.

Lemma round_zero b k : take k b = repeat 0 k -> (0 < k)%nat -> length b = length (buf to) ->
  rounds_to ('(b, _) ← fill (Z.to_nat (Z.of_nat a - Z.of_nat c + 1)) b 0 0; Some (E_DEC_OK, mk_decimal 1 (Z.max s 0) false b)) 0.
Proof.
  intros Hz Hk Hto. pose proof (scale_one _ _ _ Hscale) as So. pose proof (scale_frac _ _ _ Hscale) as Sf.
  rewrite (fill_spec _ b 0) by lia. cbn [mbind option_bind take app Nat.add].
  assert (E : exists rest, repeat 0 (Z.to_nat (Z.of_nat a - Z.of_nat c + 1)) ++ drop (Z.to_nat (Z.of_nat a - Z.of_nat c + 1)) b =
    repeat 0 (1 + a) ++ rest /\ length (repeat 0 (1 + a) ++ rest) = length b).
  { destruct (decide (c = 0%nat)) as [->|Hc].
    - replace (Z.to_nat (Z.of_nat a - Z.of_nat 0 + 1)) with (1 + a)%nat by lia. eexists. split; [done|].
      rewrite length_app, repeat_length, length_drop. lia.
    - replace (Z.to_nat (Z.of_nat a - Z.of_nat c + 1)) with 0%nat by lia. replace a with 0%nat by lia.
      destruct b as [|w b]; [cbn in Hto; lia|]. destruct k as [|k]; [lia|]. cbn [take repeat] in Hz. injection Hz as -> _. by exists b. }
  destruct E as (rest & -> & L). destruct (wf_words_result 1 (Z.max s 0) false (repeat 0 (1 + a)) rest) as (Wt & Mt & Ft);
    rewrite ?Sf, ?num_zeros, ?repeat_length, ?Nat2Z.id; try lia; try done.
  - apply words_zeros.
  - pose proof (Bpow_pos a). lia.
  - apply Z.divide_0_r.
  - exists (mk_decimal 1 (Z.max s 0) false (repeat 0 (1 + a) ++ rest)). split; [done|]. rewrite Sf, Nat2Z.id in Ft. split; [done|]. split; [rewrite Ft; lia|].
    split; [|cbn [buf]; congruence]. unfold scaled. rewrite Mt, num_zeros. by destruct sg.
Qed.

Definition finish (b : list Z) (p : Z) : option (Z * decimal_t) :=
  round_finish b p (len to) (Z.of_nat i) (Z.of_nat a - Z.of_nat c) (Z.of_nat f1) s E_DEC_OK sg (Z.of_nat i * 9).

Lemma finish_carry_out b p k rest : rd b p = Some B -> wr b p 0 = Some rest ->
  (exists p', round_carry (Z.to_nat p) rest 1 = Some (repeat 0 (Nat.max k 1) ++ drop (Nat.max k 1) b, p', 1)) ->
  (k + c = i + a)%nat -> (Nat.max k 1 <= length b)%nat -> length b = length (buf to) ->
  (10 ^ (9 * Z.of_nat a - Z.max s 0) | B ^ Z.of_nat k) -> rounds_to (finish b p) (B ^ Z.of_nat k).
Proof.
  intros Hr Hw (p' & Hc) Hk Hb Hto Hd. hide Hd. unfold finish, round_finish. rewrite Hr. cbn [mbind option_bind].
  change (B <=? B) with true. change (B - B) with 0. rewrite Hw. cbn [mbind option_bind]. rewrite Hc. cbn [mbind option_bind].
  change (1 =? 0) with false. cbn iota. assert (E : (len to <=? Z.of_nat a - Z.of_nat c + Z.of_nat i) = false).
  { apply Z.leb_gt. unfold len. pose proof (scale_one _ _ _ Hscale). lia. }
  rewrite E. cbn iota. destruct (close_carry (repeat 0 (Nat.max k 1) ++ drop (Nat.max k 1) b) k) as (b' & Eb & X); try done.
  - replace (Nat.max k 1) with (k + (Nat.max k 1 - k))%nat at 1 by lia.
    rewrite repeat_app, <- app_assoc, take_app_length' by (by rewrite repeat_length). done.
  - rewrite length_app, repeat_length, length_drop. lia.
  - destruct (shift_words _ _) as [b1|]; [|done]. cbn [mbind option_bind] in Eb |- *. rewrite Eb. exact X.
Qed.

Lemma take_seg_zeros (b : list Z) k : seg b 0 k = repeat 0 k -> take k b = repeat 0 k.
Proof. by rewrite seg_take. Qed.

Lemma finish_small pre w rest : words_ok (pre ++ [w]) -> (S (length pre) + c = i + a)%nat ->
  length (pre ++ w :: rest) = length (buf to) -> (10 ^ (9 * Z.of_nat a - Z.max s 0) | num (pre ++ [w])) ->
  rounds_to (finish (pre ++ w :: rest) (Z.of_nat (length pre))) (num (pre ++ [w])).
Proof.
  intros W Hk Hto Hd. hide Hd. pose proof W as W2. apply words_app in W2 as [_ Hw]. apply Forall_cons in Hw as [Hw _].
  unfold finish, round_finish. rewrite rd_nat, list_lookup_middle by done. cbn [mbind option_bind].
  rewrite (proj2 (Z.leb_gt _ _)) by lia. replace (Z.to_nat (Z.of_nat (length pre) + 1)) with (S (length pre)) by lia.
  assert (Hl : (0 + S (length pre) <= length (pre ++ w :: rest))%nat) by (rewrite length_app; cbn; lia).
  destruct (skip_zeros_down_spec (S (length pre)) (pre ++ w :: rest) 0 Hl) as (j & E & Hj & Ez & En).
  replace (Z.of_nat (0 + S (length pre)) - 1) with (Z.of_nat (length pre)) in E by lia. rewrite E. cbn [mbind option_bind].
  assert (Es : seg (pre ++ w :: rest) 0 (S (length pre)) = pre ++ [w]).
  { rewrite seg_take. change (w :: rest) with ([w] ++ rest). rewrite app_assoc. apply take_app_length'. rewrite length_app. cbn. lia. }
  destruct (Z.ltb_spec (Z.of_nat (0 + j) - 1) 0) as [C|C].
  - replace j with 0%nat in Ez by lia. change (seg (pre ++ w :: rest) 0 0) with (@nil Z) in Ez. cbn [app] in Ez. rewrite Nat.sub_0_r in Ez.
    rewrite <- Es, Ez, num_zeros. apply (round_zero _ (S (length pre))); [by apply take_seg_zeros|lia|done].
  - assert (Hn : 0 < num (pre ++ [w])).
    { destruct En as (v & Hv & H0); [lia|]. rewrite <- Es. apply (num_pos _ (j - 1) v); [by rewrite Es| |done].
      rewrite seg_take, lookup_take_lt by lia. done. }
    change (w :: rest) with ([w] ++ rest) in *. rewrite app_assoc in *.
    apply close_same; try done. rewrite length_app. cbn. lia.
Qed.

Lemma finish_carry pre rest : words_ok pre -> (S (length pre) + c = i + a)%nat ->
  length (pre ++ B :: rest) = length (buf to) -> (10 ^ (9 * Z.of_nat a - Z.max s 0) | num (pre ++ [B])) ->
  rounds_to (finish (pre ++ B :: rest) (Z.of_nat (length pre))) (num (pre ++ [B])).
Proof.
  intros W Hk Hto Hd. hide Hd. destruct (round_carry_spec pre (0 :: rest) W) as (pre' & p & cy & E & L & W' & N & Hc).
  assert (Er : rd (pre ++ B :: rest) (Z.of_nat (length pre)) = Some B) by (by rewrite rd_nat, list_lookup_middle).
  assert (Ew : wr (pre ++ B :: rest) (Z.of_nat (length pre)) 0 = Some (pre ++ 0 :: rest)).
  { rewrite wr_nat by (rewrite length_app; cbn; lia). by rewrite insert_app_r_alt, Nat.sub_diag by lia. }
  rewrite <- (Nat2Z.id (length pre)) in E at 1. rewrite num_snoc in Hd |- *. pose proof (num_bounds _ W') as Bn. destruct Hc as [->|[-> ->]].
  - unfold finish, round_finish. rewrite Er. cbn [mbind option_bind]. change (B <=? B) with true. change (B - B) with 0.
    rewrite Ew. cbn [mbind option_bind]. rewrite E. cbn [mbind option_bind]. change (0 =? 0) with true. cbn iota.
    assert (En : num pre * B + B = num (pre' ++ [0])) by (rewrite num_snoc; lia). rewrite En in Hd |- *.
    change (0 :: rest) with ([0] ++ rest). rewrite app_assoc. apply close_same; try done.
    + apply words_snoc; [done|unfold DIG_BASE; lia].
    + rewrite <- En. pose proof (num_bounds _ W). unfold DIG_BASE. lia.
    + rewrite length_app, L. cbn. lia.
    + rewrite <- Hto, !length_app, L. cbn. lia.
  - rewrite num_zeros in N. replace (num pre * B + B) with (B ^ Z.of_nat (S (length pre))) in Hd |- * by (rewrite Nat2Z.inj_succ, Z.pow_succ_r by lia; lia).
    apply (finish_carry_out _ _ _ (pre ++ 0 :: rest)); try done; try (rewrite length_app; cbn; lia). exists p. rewrite E.
    replace (Nat.max (S (length pre)) 1) with (length pre + 1)%nat by lia. rewrite repeat_app, <- app_assoc. cbn [repeat app].
    do 3 f_equal. rewrite <- drop_drop, drop_app_length. done.
Qed.

(** The words that hold [R], with their carry. *)
Lemma finish_spec b k R b' p : uncarried b k R b' p -> words_ok (take k b) -> (k + c = i + a)%nat ->
  length b = length (buf to) -> (10 ^ (9 * Z.of_nat a - Z.max s 0) | R) -> rounds_to (finish b' p) R.
Proof.
  intros H W Hk Hto Hd. hide Hd. pose proof (scale_one _ _ _ Hscale) as So.
  destruct H as [(-> & -> & -> & ->)|(-> & Hk0 & w & Hw & -> & ->)].
  - change 1 with (B ^ Z.of_nat 0). apply (finish_carry_out _ _ 0 (0 :: drop 1 b)); try done; try (cbn; rewrite ?length_drop; lia).
    by exists (-1).
  - destruct k as [|k]; [lia|]. rewrite pred_of_nat. replace (S k - 1)%nat with k in Hd |- * by lia.
    assert (Lk : length (take k b) = k) by (rewrite length_take; lia).
    assert (Ll : length (take k b ++ w :: drop (S k) b) = length (buf to)) by (rewrite length_app, Lk; cbn [length]; rewrite length_drop; lia).
    assert (Wk : words_ok (take k b)) by (by apply words_pred). rewrite <- num_snoc in Hd |- *.
    destruct (decide (w = B)) as [->|Hne].
    + rewrite <- Lk at 3. apply finish_carry; try done; lia.
    + rewrite <- Lk at 3. apply finish_small; try done; [|lia]. apply words_snoc; [done|lia].
Qed.

End Finish.

(** ** decimal_round *)

(** The value [decimal_round] promises. *)
Definition round_value (mode : decimal_round_mode) (s : Z) (d : decimal_t) : Q :=
  if frac d <=? s then value d else
  let u := 10 ^ (9 * Z.of_nat (fw d) - s) in
  signed (sign d) (rounded mode (sign d) (mag d) u * u) # Z.to_pos (B ^ Z.of_nat (fw d)).

(** The copy of the words. *)
Lemma copy_words n src dst : (n <= length src)%nat -> length dst = length src ->
  copy_down n src (Z.of_nat n) dst (Z.of_nat n) = Some (take n src ++ drop n dst, 0, 0).
Proof.
  intros H E. rewrite copy_down_spec by lia. rewrite Nat.sub_diag, seg_take. do 3 f_equal. unfold stored.
  rewrite length_take, Nat.min_l, Nat.sub_diag by lia. done.
Qed.

(** More digits than there are. *)
Lemma round_extend d to a s (b : list Z) : wf d -> length b = length (buf to) -> take (iw d + fw d) b = words d ->
  scale_at s a 0 -> frac d <= s -> (fw d <= a)%nat -> (iw d + a <= length b)%nat ->
  exact (Some (E_DEC_OK, mk_decimal (Z.of_nat (iw d) * 9) s (sign d)
    (take (iw d + fw d) b ++ repeat 0 (a - fw d) ++ drop (iw d + fw d + (a - fw d)) b))) to a (signed (sign d) (scaled a d)).
Proof.
  intros H Hb Ew S Hs Ha Hl. pose proof (wf_frac _ H) as F0. pose proof (scale_frac _ _ _ S) as Sf. pose proof (scale_digits _ _ _ S) as Sd.
  rewrite Z.max_l in Sf by lia. pose proof (wf_len _ H) as L. rewrite Ew, app_assoc.
  assert (En : num (words d ++ repeat 0 (a - fw d)) = scaled a d) by (rewrite num_app, num_zeros, repeat_length, Z.add_0_r; done).
  assert (Lw : length (words d) = (iw d + fw d)%nat) by (unfold words; rewrite length_take; lia).
  rewrite <- En. replace a with (Z.to_nat (ROUND_UP s)) at 3 by lia.
  apply exact_result; rewrite ?Sf, ?En, ?length_app, ?Lw, ?repeat_length; try lia.
  - apply words_app. split; [apply H|apply words_zeros].
  - unfold scaled. pose proof (wf_tail _ H) as T. rewrite B_pow10. pose proof (ROUND_UP_bounds _ F0) as R. rewrite fw_ROUND_UP in R by done.
    transitivity (10 ^ (9 * Z.of_nat (fw d) - frac d) * 10 ^ (9 * Z.of_nat (a - fw d))); [|by apply Z.mul_divide_mono_r].
    rewrite <- Z.pow_add_r by lia. exists (10 ^ (s - frac d)). rewrite <- Z.pow_add_r by lia. f_equal. lia.
  - intros Hs' C. apply (wf_sign _ H Hs'). unfold scaled in C. pose proof (Bpow_pos (a - fw d)). nia.
  - rewrite length_drop. lia.
Qed.

(** Less than a tenth of a unit before the first digit. *)
Lemma rounded_tiny mode sg m u s : exact_mode mode s -> s < 0 -> 0 <= m -> 10 * m < u -> rounded mode sg m u = 0.
Proof.
  intros Hm Hs H0 H. rewrite (rounded_up _ _ _ _ s) by (done || lia). rewrite Z.div_small, Z.mod_small by lia.
  destruct mode; cbn in Hm |- *; try done; try lia. by rewrite (proj2 (Z.leb_gt _ _)) by lia.
Qed.

(** Digits are cut. *)
Lemma round_cut mode d to a c s b : wf d -> exact_mode mode s -> scale_at s a c -> s < frac d -> 0 <= s + intg d ->
  (iw d + a < length (buf to))%nat -> length b = length (buf to) -> take (iw d + fw d) b = words d ->
  let f0 := Z.of_nat a - Z.of_nat c in let u := 10 ^ (9 * Z.of_nat (fw d) - s) in
  exact
    (r ← round_word mode (round_digit mode (sign d)) b (Z.of_nat (iw d) + f0 - 1) (f0 + Z.of_nat (iw d)) f0 (Z.of_nat (fw d)) s;
     match r with
     | None => t ← decimal_make_zero (mk_decimal (Z.of_nat (iw d) * 9) (frac to) (sign d) b); Some (E_DEC_OK, t)
     | Some (b, p) => round_finish b p (len to) (Z.of_nat (iw d)) f0 (Z.of_nat (fw d)) s E_DEC_OK (sign d) (Z.of_nat (iw d) * 9)
     end) to (fw d) (signed (sign d) (rounded mode (sign d) (mag d) u * u)).
Proof.
  intros H Hm S Hs Hi Hroom Hb Ew f0 u.
  pose proof (wf_frac _ H) as F0. pose proof (wf_intg _ H) as I0. pose proof (ROUND_UP_bounds _ F0) as RF. pose proof (ROUND_UP_bounds _ I0) as RI.
  rewrite fw_ROUND_UP in RF by done. rewrite iw_ROUND_UP in RI by done. pose proof (scale_one _ _ _ S) as So. pose proof (scale_digits _ _ _ S) as Sd.
  pose proof (scale_frac _ _ _ S) as Sf. pose proof (wf_len _ H) as L.
  assert (Ha : (a <= fw d + c)%nat) by lia. assert (Hc : (c <= iw d)%nat) by lia.
  set (k := (iw d + a - c)%nat). set (j := (fw d + c - a)%nat). assert (Ekj : (k + j = iw d + fw d)%nat) by (unfold k, j; lia).
  replace (Z.of_nat (iw d) + f0 - 1) with (Z.of_nat k - 1) by (unfold f0, k; lia).
  replace (f0 + Z.of_nat (iw d)) with (Z.of_nat k) by (unfold f0, k; lia).
  set (e := 9 * f0 - s). assert (He : 0 <= e <= 8) by done.
  assert (Eu : u = 10 ^ e * B ^ Z.of_nat j) by (unfold u, e, f0, j; rewrite B_pow10, <- Z.pow_add_r by lia; f_equal; lia).
  set (R := rounded mode (sign d) (mag d) u * 10 ^ e).
  assert (ER : rounded mode (sign d) (mag d) u * u = R * B ^ Z.of_nat (fw d + c - a)) by (unfold R; rewrite Eu; fold j; ring). rewrite ER.
  assert (Hl : (k + j <= length b)%nat).
  { apply (f_equal length) in Ew. unfold words in Ew. rewrite !length_take in Ew. clear -Ew L Ekj. lia. }
  hide ER. hide Eu. clearbody u. assert (Wb : words_ok (take (k + j) b)) by (rewrite Ekj, Ew; apply H).
  assert (Em : mag d = num (take (k + j) b)) by (by rewrite Ekj, Ew).
  assert (Hword : exists res, round_word mode (round_digit mode (sign d)) b (Z.of_nat k - 1) (Z.of_nat k) f0 (Z.of_nat (fw d)) s = Some res /\
    match res with None => k = 0%nat /\ R = 0 | Some (b', p) => uncarried b k R b' p end).
  { destruct (Z.eq_dec e 0) as [E0|E0].
    - replace s with (9 * f0) in Hm |- * by lia. unfold R. rewrite Eu, E0, Z.mul_1_r, Z.mul_1_l, Em.
      apply round_word_boundary; try done; unfold j, f0 in *; lia.
    - destruct (round_word_inner mode (sign d) b k j f0 (Z.of_nat (fw d)) s) as (b' & p & E & U); try done; try (unfold e, k, f0 in *; lia).
      eexists. split; [exact E|]. unfold R. rewrite Eu, Em. exact U. }
  destruct Hword as ([[b' p]|] & -> & U); cbn [mbind option_bind].
  - apply (finish_spec to (sign d) a c (iw d) (fw d) s S Ha Hroom b k R b' p); try done.
    + apply (words_take _ _ (k + j)); [done|lia].
    + unfold k. lia.
    + apply Z.divide_mul_r. destruct (Z.le_gt_cases 0 s) as [Hp|Hp].
      * rewrite Z.max_l by lia. replace (9 * Z.of_nat a - s) with e by (unfold e, f0; lia). done.
      * rewrite Z.max_r in Sf |- * by lia. change (ROUND_UP 0) with 0 in Sf. replace (9 * Z.of_nat a - 0) with 0 by lia. apply Z.divide_1_l.
  - destruct U as [_ ->]. rewrite Z.mul_0_l. replace (signed (sign d) 0) with 0 by (by destruct (sign d)).
    destruct (make_zero_exact (fw d) (mk_decimal (Z.of_nat (iw d) * 9) (frac to) (sign d) b)) as (t & Et & Wt & Ft & Vt & Lt); [cbn; lia|].
    exists t. split_and!; try done. cbn in Lt. congruence.
Qed.

Lemma round_below mode d s : wf d -> exact_mode mode s -> s + intg d < 0 ->
  rounded mode (sign d) (mag d) (10 ^ (9 * Z.of_nat (fw d) - s)) = 0.
Proof.
  intros H Hm C. pose proof (wf_intg _ H) as I0. pose proof (proj1 (mag_bounds _ H)) as M0. apply (rounded_tiny _ _ _ _ s); try done; [lia|].
  pose proof (wf_top _ H) as T. rewrite B_pow10, <- Z.pow_add_r in T by lia.
  set (m := mag d) in *. set (X := intg d + 9 * Z.of_nat (fw d)) in *.
  assert (P : 10 ^ (X + 1) <= 10 ^ (9 * Z.of_nat (fw d) - s)) by (apply Z.pow_le_mono_r; unfold X; lia).
  rewrite Z.pow_add_r in P by (unfold X; lia). clearbody X m. clear -T P. lia.
Qed.

Lemma round_copy d to a c : wf d -> length (buf to) = length (buf d) -> (iw d + a <= length (buf to))%nat ->
  let p := Z.of_nat (iw d) + Z.max (Z.of_nat (fw d)) (Z.of_nat a - Z.of_nat c) in
  exists b, copy_down (Z.to_nat p) (buf d) p (buf to) p = Some (b, 0, 0) /\ length b = length (buf to) /\ take (iw d + fw d) b = words d.
Proof.
  intros H Hto Ha. pose proof (wf_len _ H) as L. clear H. unfold words. set (i := iw d) in *. set (f := fw d) in *. clearbody i f.
  assert (E : exists n, Z.of_nat i + Z.max (Z.of_nat f) (Z.of_nat a - Z.of_nat c) = Z.of_nat n /\ (i + f <= n <= length (buf d))%nat)
    by (exists (i + Nat.max f (a - c))%nat; lia).
  destruct E as (n & -> & Hn). clear L Ha. cbn zeta. rewrite Nat2Z.id, copy_words by lia. eexists. split; [done|].
  rewrite length_app, length_take, length_drop. split; [lia|].
  rewrite take_app_le by (rewrite length_take; lia). rewrite take_take. f_equal. lia.
Qed.

Lemma round_exact mode d to s : wf d -> exact_mode mode s -> length (buf to) = length (buf d) ->
  ROUND_UP (intg d) + ROUND_UP (Z.max s 0) < len to ->
  let u := 10 ^ (9 * Z.of_nat (fw d) - s) in
  if frac d <=? s then exists F, (fw d <= F)%nat /\ exact (decimal_round false d to s mode) to F (signed (sign d) (scaled F d))
  else exact (decimal_round false d to s mode) to (fw d) (signed (sign d) (rounded mode (sign d) (mag d) u * u)).
Proof.
  intros H Hm Hto Hroom u. destruct (scale_exists s) as (a & c & S & E0). pose proof (wf_frac _ H) as F0. pose proof (wf_intg _ H) as I0.
  rewrite (scale_frac _ _ _ S), iw_ROUND_UP in Hroom by done. unfold len in Hroom. pose proof (scale_one _ _ _ S) as So. pose proof (scale_digits _ _ _ S) as Sd.
  pose proof (wf_len _ H) as L. pose proof (ROUND_UP_bounds _ F0) as RF. rewrite fw_ROUND_UP in RF by done.
  unfold decimal_round. rewrite E0, iw_ROUND_UP, fw_ROUND_UP by done.
  assert (Ecut : (len to <? Z.of_nat a - Z.of_nat c + Z.of_nat (iw d)) = false) by (apply Z.ltb_ge; unfold len; lia).
  cbn zeta. rewrite Ecut. unfold DIG_PER_DEC1. clear Ecut.
  destruct (Z.ltb_spec (s + intg d) 0) as [C|C].
  { rewrite (proj2 (Z.leb_gt _ _)) by lia. unfold u. rewrite (round_below mode d s H Hm C), Z.mul_0_l.
    replace (signed (sign d) 0) with 0 by (by destruct (sign d)). apply make_zero_exact. lia. }
  destruct (round_copy d to a c H Hto ltac:(lia)) as (b & Ec & Lb & Ew). cbn zeta in Ec. rewrite Ec. cbn [mbind option_bind]. clear Ec.
  rewrite Z.min_l by (unfold len; lia).
  assert (Hac : frac d <= s -> c = 0%nat /\ (fw d <= a)%nat) by lia.
  destruct (Z.ltb_spec (Z.of_nat (fw d)) (Z.of_nat a - Z.of_nat c)) as [Cf|Cf].
  - rewrite (proj2 (Z.leb_le _ _)) by lia. replace c with 0%nat in * by lia. exists a. split; [lia|].
    rewrite <- Nat2Z.inj_add. rewrite fill_spec by lia. cbn [mbind option_bind].
    replace (Z.to_nat (Z.of_nat a - Z.of_nat 0 - Z.of_nat (fw d))) with (a - fw d)%nat by lia. apply round_extend; try done; lia.
  - destruct (Z.leb_spec (frac d) s) as [Cs|Cs].
    + destruct (Hac Cs) as [-> Haf]. exists a. split; [done|]. replace b with (take (iw d + fw d) b ++ repeat 0 (a - fw d) ++ drop (iw d + fw d + (a - fw d)) b).
      * apply round_extend; try done; lia.
      * replace (a - fw d)%nat with 0%nat by lia. rewrite Nat.add_0_r. cbn [repeat app]. apply take_drop.
    + apply round_cut; try done; lia.
Qed.

(** C7: [decimal_round] into another buffer of the same length returns E_DEC_OK
    and a well-formed number whose value is the one of the operand rounded to
    [scale] digits behind the point (before it, if [scale] is negative): cut for
    TRUNCATE, to the nearest and away from zero for HALF_UP, and in the
    directions of CEILING and FLOOR when [scale] is a non-negative multiple of
    nine (as 0, for SQL CEILING and FLOOR); HALF_EVEN is not covered.  The buffer has to
    have a word to spare over those of the integer part and the scale; without
    it the function writes behind the buffer ([decimal_round_carry_overrun],
    [decimal_round_zero_overrun]). *)
Theorem decimal_round_correct mode d to scale : wf d -> exact_mode mode scale -> length (buf to) = length (buf d) ->
  ROUND_UP (intg d) + ROUND_UP (Z.max scale 0) < len to ->
  exists t, decimal_round false d to scale mode = Some (E_DEC_OK, t) /\ wf t /\
    (value t == round_value mode scale d)%Q /\ length (buf t) = length (buf to).
Proof.
  intros H Hm Hto Hroom. pose proof (round_exact mode d to scale H Hm Hto Hroom) as X. unfold round_value. cbn zeta in X |- *.
  destruct (frac d <=? scale).
  - destruct X as (F & HF & X). apply exact_value in X as (t & E & W & V & L). exists t. split_and!; try done.
    rewrite V. symmetry. by apply signed_order.
  - by apply exact_value in X.
Qed.

Lemma decimal_round_correct_witness :
  exists t, decimal_round false (mk_decimal 9 2 true [999999999; 970000000; 0]) (mk_decimal 0 0 false [7; 7; 7]) 1 HALF_UP = Some (E_DEC_OK, t) /\
    wf t /\ (value t == - (1000000000 # 1))%Q.
Proof.
  destruct (decimal_round_correct HALF_UP (mk_decimal 9 2 true [999999999; 970000000; 0]) (mk_decimal 0 0 false [7; 7; 7]) 1)
    as (t & E & W & V & _); [apply wfb_sound; reflexivity|exact I|reflexivity|reflexivity|].
  exists t. split; [exact E|]. split; [exact W|]. rewrite V. reflexivity.
Defined.

(** ** What the hypotheses exclude *)

(** The carry of a number that fills the buffer is written behind it. *)
Lemma decimal_round_carry_overrun :
  decimal_round false (mk_decimal 18 0 false [999999999; 999999999]) (mk_decimal 0 0 false [0; 0]) (-1) HALF_UP = None.
Proof. reflexivity. Qed.

(** So is the zero of a fraction that fills it. *)
Lemma decimal_round_zero_overrun :
  decimal_round false (mk_decimal 0 18 false [0; 1]) (mk_decimal 0 0 false [0; 0]) 17 TRUNCATE = None.
Proof. reflexivity. Qed.

(** HALF_EVEN looks at one digit: 2.500000001 becomes 2. *)
Lemma decimal_round_half_even :
  decimal_round false (mk_decimal 1 9 false [2; 500000001; 0]) (mk_decimal 0 0 false [0; 0; 0]) 0 HALF_EVEN =
    Some (E_DEC_OK, mk_decimal 9 0 false [2; 0; 0]) /\ rounded HALF_EVEN false 2500000001 (10 ^ 9) = 3.
Proof. split; reflexivity. Qed.

(** CEILING inside of a word looks at one digit: 15.000000001 with one digit
    behind the point becomes 15.0. *)
Lemma decimal_round_ceiling :
  decimal_round false (mk_decimal 2 9 false [15; 1; 0]) (mk_decimal 0 0 false [0; 0; 0]) 1 CEILING =
    Some (E_DEC_OK, mk_decimal 9 1 false [15; 0; 0]) /\ rounded CEILING false 15000000001 (10 ^ 8) = 151.
Proof. split; reflexivity. Qed.
End DecimalRoundProofs.
